(* ===== verification/_CoqProject ===== *)
-Q . S2P
Prelude.v
State.v
Lz4.v
StarCodec.v
Json.v
Frames.v
StarFile.v
Css.v
Semver.v
Ring.v
Recorder.v
MepProtocol.v
Config.v
Base64.v
PluginConfig.v
CdpClient.v
Rpc.v
Patches.v
Process.v
Lifecycle.v
CoreIpc.v
FfiBinder.v
Url.v
HttpHooks.v
Theme.v
WebkitWorld.v
Inject.v
Backend.v
ChildApi.v
MepServer.v
MepService.v
StrBuf.v
Loopback.v
Files.v
PatchEngine.v
NumText.v
LuaEncode.v
LuaDecode.v
LuaJson.v
LuaRoundTrip.v
LuaVm.v
LuaTables.v
LuaConfig.v
LuaHost.v
LuaMillennium.v
LuaUtils.v
Installers.v
Updates.v
Secrets.v
SelfUpdate.v
