(* ===== verification/Prelude.v ===== *)
(** * Millennium: verification library

    Millennium loads plugins and themes into the Steam client.  Its C++ core
    (under [src/src]) reads plugin packages, keeps settings, talks to the
    browser debugger of the client, rewrites the pages it loads, and serves
    developer tools through a message protocol (MEP).  This library models
    that core by functions and step relations translated from the source, and
    proves the properties that make its parts correct.

    ** Parts and files

    - Packages.  [Lz4] models [star_decompress] ([include/millennium/
      star_parser.h]); [StarCodec] the section codec and [StarFile] the loaders
      of [engine/star_parser.cc]: [parse_star_file], [star_read_javascript],
      [star_read_asset_index] and the trust check.
    - Settings.  [Config] models [system/config.cc] with the disk it writes;
      [PluginConfig] the per-plugin settings ([bindings/plugin_config.cc]) and
      the list of enabled plugins ([engine/plugin_manager.cc]), which are
      clients of the settings through the class [SettingsStore]; [Theme] the
      theme settings ([bindings/theme_cfg.cc], themes of [bindings/scan.cc])
      whose listener runs inside the changes it makes.
    - Pages.  [Url] models the URL coding, target policy, MIME types and
      command lines ([url_parser.h], [engine/target_url.cc], [mime_types.h],
      [util/cmdline_parser.cc]); [Base64] the encodings of [encoding.h];
      [HttpHooks] the request interception ([engine/http_hooks.cc]), theme
      hooks ([bindings/webkit.cc]) and script store
      ([engine/plugin_webkit_store.cc]); [Css] the stylesheet reader and colour
      conversion ([bindings/css_parser.cc]).
    - Debugger.  [CdpClient] models the request table, events, queue, worker
      and shutdown of [engine/cdp_api.cc] and the pool of
      [engine/thread_pool.cc].
    - Plugin processes.  [Frames] models the framing of
      [include/millennium/plugin_ipc.h]; [Rpc] the client in the plugin's
      process ([lua_host/rpc.cc]); [Process] the host's side
      ([engine/child_process.cc]); [Lifecycle] the readiness of backends
      ([engine/lifecycle.cc]); [Backend] the manager of the processes
      ([engine/backend_mgr.cc]) and what [engine/plugin_loader.cc] does to
      enable and disable plugins; [ChildApi] the requests a plugin's process
      may make (the request handler of [plugin_loader.cc]).
    - JSON of plugins.  [StrBuf], [NumText], [LuaEncode], [LuaDecode] and
      [LuaJson] model the module [cjson] ([lua_host/api/json.c]): the string
      buffer, the conversions between doubles and text it calls, the encoder
      over the tables of the interpreter, the decoder, and the instances with
      their settings; [LuaRoundTrip] relates the two directions.
    - Lua host.  The process of a plugin ([lua_host/main.cc]): [LuaVm] fixes the
      interface of the interpreter, a state with a stack, tables and references;
      [LuaTables] models the conversions between JSON and Lua values;
      [LuaConfig] the settings module with its callbacks
      ([lua_host/api/config.cc]); [LuaHost] packed files, the plugin's
      definition and patches, and the requests [Rpc] delivers; [LuaMillennium]
      the module through which a plugin calls the frontend and the host and reads
      its packed files ([lua_host/api/millennium.cc]), whose index comes from
      [StarFile] through [Backend]; [LuaUtils] the module for text, tables and
      encodings ([lua_host/api/utils.cc]).
    - Frontend.  [CoreIpc] models the messages of pages to the host and the
      calls between frontend and backend ([engine/core_ipc.cc],
      [lua_host/lua_interop.cc]); [FfiBinder] the bindings of pages and the
      debugger proxy ([engine/ffi_binder.cc]); [WebkitWorld] the attachment to
      pages ([engine/plugin_webkit_world_mgr.cc]); [Inject] the rest of
      [plugin_loader.cc]: the search for the main page and the job that loads
      the frontend into it; [Patches] the patch registry
      and the connection that sends it to the client
      ([instrumentation/internal/patch_registry.cc], [loopback_ipc.cc],
      [patch_update_notifier.h]); [Loopback] the proxy inside the client that
      serves its files patched, with its threads
      ([instrumentation/loopback/hook.c]), and [PatchEngine] the library it
      calls ([instrumentation/loopback/src], in Rust).
    - Installation.  [Files] is the disk the installers work on, with the calls
      that can fail, the removal of directories ([system/filesystem.cc]) and
      the extraction of archives ([util/zip.cc]); [Installers] models the
      installers of themes and plugins ([bindings/theme_mgr.cc],
      [bindings/plugin_mgr.cc]) and downloads ([system/http.cc]); [Updates] the
      check for updates ([bindings/library_updater.cc]) and the calls of the
      interface that start operations ([bindings/entry_point.cc]); [Secrets]
      the proxy's password: its encryption ([system/crypto.cc]), the settings
      calls that hide it ([entry_point.cc]) and its use ([http.cc]);
      [SelfUpdate] the updater of the program
      ([engine/millennium_updater.cc]), the search for files in use
      ([util/zip.cc]) and the automatic update at the start
      ([millennium.cc]).
    - Developer protocol.  [Ring] is the bounded history the recorders share;
      [Recorder] models the console, exception, FFI and patch recorders and the
      crash and ready buses ([mep/*.cc]); [MepProtocol] the messages, router,
      log normalisation and plugin loggers ([mep/mep_message.cc],
      [mep/mep_router.cc], [mep/log_normalize.cc], [system/logger.cc]);
      [MepServer] the connections and every method of the server
      ([mep/mep_server.cc], [mep/mep_hooks.cc]) over the loader, recorders and
      buses above, and [MepService] what a run of the server keeps.
    - Versions.  [Semver] models [util/semver.cc].
    - [Json] fixes the JSON values and the accessors the code calls, [State]
      the state-and-exception monad of the stateful components with its
      reasoning principles, and this file the shared vocabulary.

    ** How the code is modelled

    A C++ function becomes a function with the source's name.  A result is an
    [outcome]: [Ok], [Throw] (an exception), [UB] (an access or operation the
    language leaves undefined: a buffer index out of range, a missing key of a
    constant JSON object, a conversion out of range) or [NoFuel] (a loop
    model's bound was too small, which the totality theorems exclude).  State
    is passed explicitly, in the newer components by the monad [SM] of [State],
    where an exception keeps the changes made before it; listeners and callbacks are opaque values and an
    operation returns the calls it makes, except in [Theme], where the listener
    is part of the modelled code and runs.  Interleavings are step relations
    ([CdpClient], [Patches], [Loopback], [Updates], [SelfUpdate], the lock steps of [Config]).  Machine integers are [Z] with
    their wrap-around written out.  The sources are built for 64-bit Windows
    and, with [-m32], for Linux ([src/CMakeLists.txt], [CMakePresets.json]): where
    a result depends on the width of [size_t], [ptrdiff_t] or the interpreter's
    integers, the definition takes a [target] whose width is 32 or 64, and the
    theorems hold for both.  The hook of [instrumentation/loopback] is built for
    64 bits.  Bytes are [Byte.byte], strings lists of
    bytes, [std::map] and JSON objects sorted association lists,
    [unordered_map] a [gmap] where no order is observed.

    Parameters stand for code outside the repository: Ed25519 and MessagePack,
    JSON text, libcurl's URL parser and transfers, OpenSSL, minizip, regular
    expressions given by themes, Lua code, and the debugger's replies.  The Lua
    interpreter is what its manual documents ([LuaEncode], [LuaVm]).  The file system is
    a map of settings files in [Config], and in [Files] a tree whose calls fail
    as a list of faults says.  What a theorem needs of one is a
    hypothesis of that theorem, and the comment before the theorem names it.

    ** What is proved

    - Untrusted input: package loading and decompression never have undefined
      behaviour (within the stated bound on offsets), trust implies a signature
      over the bytes used, and packing then loading is the identity; corruption
      of a parity stream is detected.
    - Settings: reads see writes, defaults only fill gaps, saving is atomic at
      every crash point and loading loses nothing; plugins cannot reach each
      other's settings.  The theme handler terminates although it triggers
      itself, and leaves every theme condition with an allowed value.
    - Pages: tags injected are those of the matching hooks, no script reaches
      an unsafe target, every handled document request is answered once, and a
      theme's hooks can be removed without trace.
    - Debugger: each request is completed once under any interleaving; the
      event table refines a list of registrations.
    - Protocol: recorders refine a bounded history, buses lose nothing they
      promise to keep, dispatch always answers, snapshots are complete and
      sorted; the server's connections never leave a listener behind, and
      every frame of a client is answered.
    - Plugin processes: frames survive any splitting of reads and writes; a call
      of the host and of the plugin ends, is answered by the other side, and no
      call is left waiting when a connection ends; a request of a plugin's
      process is answered and leaves the settings, patches and processes of
      other plugins alone; enabling and disabling settles in the state asked
      for, and readiness callbacks run once.
    - JSON of plugins: no text makes the decoder leave its buffers or run for
      ever; the encoder writes the text a recursive definition without buffers
      gives, also on cyclic tables; what is encoded is decoded to the same
      value; settings stay in their ranges.
    - Lua host: every request is answered with the interpreter's stack as it
      was, whatever Lua code returns or raises; a call runs the function named
      once, with arguments that read as those sent, and tells its result; values
      pass to Lua code and back unchanged, and so do settings that are read and
      written; a changed setting is announced to every callback it concerns; what the
      frontend returns arrives as it is; a packed file is read as its decompressed
      content, and directories are listed in order with exactly their names;
      joining undoes splitting, and merged tables have the entries of both.
    - Frontend: messages of pages are answered and reach only the settings they
      name; blocked debugger methods are never sent for a page; listeners match
      subscriptions; pages are attached once and touched only as the policy
      allows; the frontend is registered at most once on a page; the patch list
      a connection holds is brought up to date; the proxy of the client's files
      never uses freed memory whatever its threads do, serves the patched form
      of exactly what it was given, and no script the parser refuses; a patch
      changes only the text it matches, and files stay below the client's
      directory.
    - Installation: installing a theme touches its own directory and the
      temporary one only, wherever a call fails; the update of a packed plugin
      is all or nothing; an operation the interface started is reported as
      ended exactly once; a theme that was updated is not offered again; at most
      one update of the program is under way and none after a success, what is
      offered is newer, and a failed update frees the updater again when the
      file system works; the
      proxy gets the password that was typed, and the interface neither sees
      the stored one nor loses it.
    - Codings: round trips for Base64, URLs, command lines, sections, sub-entry
      tables and colours; versions accepted are those of the grammar, compared
      by its precedence.

    Some theorems record behaviour that departs from what the code means to
    do, among them: unchecked 64-bit sums in the package loader, lost alpha
    values, duplicated hooks after nested settings changes, a lock order that
    can deadlock, a callback that removes itself while callbacks run, a shutdown that can miss its wake-up, a request completed by
    two threads, patches applied to another plugin's file, archives that write
    outside their directory, a failed update that blocks the next, frames the other side
    refuses, reordered notifications and reads of missing keys.

    ** Bounds and fuel

    Loops whose recursion is not structural take fuel computed from the input
    and are proved never to exhaust it: the decompressor uses the length of the
    input, ring readers the number of entries, [emit_sextets] and the number
    formatters a constant above the number of digits of their type.  The JSON decoder's loops take
    the length of the text, its recursion and the encoder's the depth limit of
    the instance, which the code checks at each level.  The conversion of
    tables has the limit on nesting of the code, that of settings has none and
    takes a depth ([LuaConfig.cyclic_setting_never_ends]).  The walk of
    [safe_remove_directory] takes the depth of the tree.  The depth
    of nested theme notifications is bounded by the number of theme conditions
    plus two ([Theme.handler_terminates]).  Two loops of [Inject] end only when
    the debugger lets them (the poll for the main page and the reload); their
    theorems hold for every fuel, and [Inject.reload_can_hang] shows that no
    bound is enough for the second.

    ** Not modelled

    The system calls that start processes and open or close sockets (with the
    start and stop of the servers), process metrics, directory scans, the modules of plugins that bind libraries
    and the operating system to Lua, a plugin's start before it has returned its
    definition, crash reporting,
    platform layers and client hooks; most are calls of the operating system or
    of libraries around the parts above. *)

From Stdlib Require Export ZArith Lia String Strings.Byte DecimalString.
From stdpp Require Export base list gmap strings.

#[global] Open Scope Z_scope.

(** ** Bytes, characters and byte strings

    [uint8_t] and [char] are both [Byte.byte]; [std::string],
    [std::string_view] and [std::vector<uint8_t>] are all [list byte]. *)

Abbreviation bytes := (list byte).

Declare Scope cxx_scope.
Delimit Scope cxx_scope with cxx.
Notation "# s" := (list_byte_of_string s%string)
  (at level 8, s constr at level 0) : cxx_scope.
#[global] Open Scope cxx_scope.

Definition b2z (b : byte) : Z := Z.of_N (Byte.to_N b).
Definition z2b (z : Z) : byte :=
  match Byte.of_N (Z.to_N (z mod 256)) with Some b => b | None => x00 end.

(** [s.c_str()] read as a string: it ends at the first NUL. *)
Fixpoint c_str (s : bytes) : bytes :=
  match s with [] => [] | c :: s => if Byte.eqb c x00 then [] else c :: c_str s end.
Lemma c_str_plain s : x00 ∉ s → c_str s = s.
Proof.
  induction s as [|c s IH]; intros Hs; [done|]. apply not_elem_of_cons in Hs as [Hc Hs]. cbn [c_str].
  destruct (Byte.eqb c x00) eqn:E; [by apply Byte.byte_dec_bl in E|by rewrite IH].
Qed.

Lemma b2z_range b : 0 <= b2z b < 256.
Proof.
  unfold b2z. pose proof (Byte.to_N_bounded b). lia.
Qed.

Lemma z2b_b2z b : z2b (b2z b) = b.
Proof.
  unfold z2b. rewrite Z.mod_small by apply b2z_range.
  unfold b2z. by rewrite N2Z.id, Byte.of_to_N.
Qed.

Lemma b2z_z2b z : b2z (z2b z) = z mod 256.
Proof.
  unfold z2b, b2z. pose proof (Z.mod_pos_bound z 256 eq_refl) as Hb.
  destruct (Byte.of_N (Z.to_N (z mod 256))) eqn:E.
  - apply Byte.to_of_N in E. rewrite E. lia.
  - apply Byte.of_N_None_iff in E. lia.
Qed.

Lemma b2z_inj a b : b2z a = b2z b → a = b.
Proof. intros H. by rewrite <- (z2b_b2z a), H, z2b_b2z. Qed.

#[global] Instance byte_eq_dec : EqDecision byte := Byte.byte_eq_dec.
#[global] Instance byte_countable : Countable byte.
Proof.
  refine (inj_countable Byte.to_N Byte.of_N _). apply Byte.of_to_N.
Defined.

Definition beqb (a b : byte) : bool := Byte.eqb a b.

Lemma beqb_true a b : beqb a b = true ↔ a = b.
Proof.
  unfold beqb. split; [apply Byte.byte_dec_bl | apply Byte.byte_dec_lb].
Qed.

(** ** Outcomes

    A call either returns ([Ok]), throws a C++ exception ([Throw], with its
    [what()] text), or has undefined behaviour ([UB]: an out-of-range access
    to a buffer or a [const] lookup of a missing key).  [NoFuel] is the
    result of a loop model whose fuel ran out; the totality theorems show it
    does not occur. *)

Inductive outcome (A : Type) : Type :=
  | Ok (a : A)
  | Throw (what : bytes)
  | UB
  | NoFuel.
Arguments Ok {A} a.
Arguments Throw {A} what.
Arguments UB {A}.
Arguments NoFuel {A}.

#[global] Instance outcome_ret : MRet outcome := λ A a, Ok a.
#[global] Instance outcome_bind : MBind outcome := λ A B f m,
  match m with
  | Ok a => f a
  | Throw w => Throw w
  | UB => UB
  | NoFuel => NoFuel
  end.

(** [if (cond) throw ...] *)
Definition throw_if (c : bool) (w : bytes) : outcome () :=
  if c then Throw w else Ok ().

(** [try { m } catch (...) { h }]: exceptions are caught, undefined
    behaviour is not. *)
Definition try_catch {A} (m : outcome A) (h : bytes → outcome A) : outcome A :=
  match m with Throw w => h w | _ => m end.

(** The call neither has undefined behaviour nor fails to finish. *)
Definition defined {A} (m : outcome A) : Prop := m ≠ UB ∧ m ≠ NoFuel.

Definition is_ok {A} (m : outcome A) : bool :=
  match m with Ok _ => true | _ => false end.

Lemma bind_Ok {A B} (m : outcome A) (f : A → outcome B) b :
  m ≫= f = Ok b ↔ ∃ a, m = Ok a ∧ f a = Ok b.
Proof. destruct m; cbn; naive_solver. Qed.

Lemma bind_defined {A B} (m : outcome A) (f : A → outcome B) :
  defined m → (∀ a, m = Ok a → defined (f a)) → defined (m ≫= f).
Proof. unfold defined. destruct m; cbn; naive_solver. Qed.

Lemma Ok_defined {A} (a : A) : defined (Ok a).
Proof. by split. Qed.

Lemma Throw_defined {A} w : defined (@Throw A w).
Proof. by split. Qed.

Lemma throw_if_defined c w : defined (throw_if c w).
Proof. by destruct c; split. Qed.

Lemma throw_if_Ok c w u : throw_if c w = Ok u ↔ c = false.
Proof. destruct u, c; cbn; naive_solver. Qed.

Lemma try_catch_defined {A} (m : outcome A) h :
  defined m → (∀ w, defined (h w)) → defined (try_catch m h).
Proof. destruct m; cbn; auto. Qed.

Create HintDb cxx.
#[export] Hint Resolve Ok_defined Throw_defined throw_if_defined : cxx.

Lemma Ok_inj {A} (a b : A) : Ok a = Ok b → a = b.
Proof. congruence. Qed.

(** Splits a [defined] goal along the monadic structure. *)
Ltac solve_defined :=
  repeat first
    [ progress intros
    | apply bind_defined
    | apply try_catch_defined
    | apply Ok_defined
    | apply Throw_defined
    | apply throw_if_defined
    | case_match ].

(** Inverts a hypothesis [m ≫= f = Ok b] all the way down. *)
Ltac inv_ok :=
  repeat match goal with
  | H : mbind _ _ = Ok _ |- _ =>
      let x := fresh "x" in let Hx := fresh "Hx" in
      apply bind_Ok in H as (x & Hx & H)
  | H : throw_if _ _ = Ok _ |- _ => apply throw_if_Ok in H
  | H : Ok _ = Ok _ |- _ => apply Ok_inj in H
  | H : Throw _ = Ok _ |- _ => discriminate H
  | H : UB = Ok _ |- _ => discriminate H
  | H : NoFuel = Ok _ |- _ => discriminate H
  end.

(** Reduces binds on known outcomes, and nothing else. *)
Ltac bind_simpl := cbn [mbind outcome_bind throw_if orb andb].

(** Right-nests appends. *)
Ltac app_norm := cbn [app]; repeat (rewrite <- app_assoc; cbn [app]).

(** ** Machine integers *)

Definition u8 (z : Z) : Z := z mod 2 ^ 8.
Definition u16 (z : Z) : Z := z mod 2 ^ 16.
Definition u32 (z : Z) : Z := z mod 2 ^ 32.
Definition u64 (z : Z) : Z := z mod 2 ^ 64.
(** Two's-complement [int]: what a [static_cast<int>] of a wider value keeps. *)
Definition i32 (z : Z) : Z := (z + 2 ^ 31) mod 2 ^ 32 - 2 ^ 31.

Definition INT_MAX : Z := 2 ^ 31 - 1.

Lemma u32_range z : 0 <= u32 z < 2 ^ 32.
Proof. unfold u32. by apply Z.mod_pos_bound. Qed.
Lemma u64_range z : 0 <= u64 z < 2 ^ 64.
Proof. unfold u64. by apply Z.mod_pos_bound. Qed.
Lemma u64_id z : 0 <= z < 2 ^ 64 → u64 z = z.
Proof. apply Z.mod_small. Qed.
Lemma u32_id z : 0 <= z < 2 ^ 32 → u32 z = z.
Proof. apply Z.mod_small. Qed.

(** *** The width of [size_t]

    The same sources are built for 64-bit Windows and, with [-m32], for Linux
    ([src/CMakeLists.txt]).  A definition whose result depends on the width of
    [size_t] or [ptrdiff_t] takes the target as an implicit argument; a theorem
    about it holds for both. *)

Class target := Target {
  word_bits : Z;
  word_bits_cases : word_bits = 32 ∨ word_bits = 64;
}.
Definition target32 : target := Target 32 (or_introl eq_refl).
Definition target64 : target := Target 64 (or_intror eq_refl).

Section target.
  Context `{T : target}.

(** [static_cast<size_t>] and [static_cast<ptrdiff_t>] of a wider value. *)
Definition usize (z : Z) : Z := z mod 2 ^ word_bits.
Definition isize (z : Z) : Z := usize (z + 2 ^ (word_bits - 1)) - 2 ^ (word_bits - 1).

Lemma word_bits_ge : 32 <= word_bits <= 64.
Proof. destruct word_bits_cases; lia. Qed.
Lemma word_size : 2 ^ word_bits = 2 * 2 ^ (word_bits - 1) ∧ 2 ^ 31 <= 2 ^ (word_bits - 1) <= 2 ^ 63.
Proof. destruct word_bits_cases as [-> | ->]; lia. Qed.
Lemma usize_range z : 0 <= usize z < 2 ^ word_bits.
Proof. apply Z.mod_pos_bound. pose proof word_size. lia. Qed.
Lemma usize_id z : 0 <= z < 2 ^ word_bits → usize z = z.
Proof. apply Z.mod_small. Qed.
Lemma usize_le z : 0 <= z → usize z <= z.
Proof. intros. pose proof word_size. apply Z.mod_le; lia. Qed.
Lemma isize_id z : - 2 ^ (word_bits - 1) <= z < 2 ^ (word_bits - 1) → isize z = z.
Proof. intros. pose proof word_size. unfold isize. rewrite usize_id; lia. Qed.
Lemma isize_range z : - 2 ^ (word_bits - 1) <= isize z < 2 ^ (word_bits - 1).
Proof. unfold isize. pose proof word_size. pose proof (usize_range (z + 2 ^ (word_bits - 1))). lia. Qed.
End target.

(** ** Buffers

    [len] is [size()]; [rd] is an unchecked read [p[i]] and is undefined out
    of range; [slice] is the range copy [vector(begin + a, begin + b)]. *)

Definition len {A} (l : list A) : Z := Z.of_nat (length l).

Definition rd (l : bytes) (i : Z) : outcome byte :=
  if (0 <=? i) && (i <? len l) then
    match l !! Z.to_nat i with Some b => Ok b | None => UB end
  else UB.

Definition slice (l : bytes) (a b : Z) : outcome bytes :=
  if (0 <=? a) && (a <=? b) && (b <=? len l)
  then Ok (take (Z.to_nat (b - a)) (drop (Z.to_nat a) l))
  else UB.

Lemma len_nonneg {A} (l : list A) : 0 <= len l.
Proof. unfold len. lia. Qed.

Lemma len_cons {A} (x : A) l : len (x :: l) = 1 + len l.
Proof. unfold len. cbn [length]. lia. Qed.

Lemma len_app {A} (l k : list A) : len (l ++ k) = len l + len k.
Proof. unfold len. rewrite length_app. lia. Qed.

Lemma to_nat_len {A} (l : list A) : Z.to_nat (len l) = length l.
Proof. apply Nat2Z.id. Qed.

Lemma rd_Ok l i : 0 <= i < len l → ∃ b, l !! Z.to_nat i = Some b ∧ rd l i = Ok b.
Proof.
  intros Hi. unfold rd, len in *.
  replace (0 <=? i) with true by (symmetry; apply Z.leb_le; lia).
  replace (i <? _) with true by (symmetry; apply Z.ltb_lt; lia). simpl.
  destruct (l !! Z.to_nat i) eqn:E; [eauto|].
  apply lookup_ge_None in E. lia.
Qed.

Lemma rd_lookup l i x : 0 <= i → l !! Z.to_nat i = Some x → rd l i = Ok x.
Proof.
  intros Hi Hx. pose proof (lookup_lt_Some _ _ _ Hx).
  destruct (rd_Ok l i) as (b & Hb & ->); [unfold len; lia|]. congruence.
Qed.

Lemma rd_defined l i : 0 <= i < len l → defined (rd l i).
Proof. intros (b & _ & ->)%rd_Ok. apply Ok_defined. Qed.

Lemma rd_inv l i b : rd l i = Ok b → 0 <= i < len l ∧ l !! Z.to_nat i = Some b.
Proof.
  unfold rd, len. intros H.
  destruct (Z.leb_spec 0 i), (Z.ltb_spec i (Z.of_nat (length l))); simpl in H; try done.
  destruct (l !! Z.to_nat i) eqn:E; naive_solver.
Qed.

Lemma slice_Ok l a b :
  0 <= a <= b → b <= len l →
  slice l a b = Ok (take (Z.to_nat (b - a)) (drop (Z.to_nat a) l)).
Proof.
  intros Ha Hb. unfold slice.
  destruct (Z.leb_spec 0 a), (Z.leb_spec a b), (Z.leb_spec b (len l)); simpl; lia || done.
Qed.

Lemma slice_inv l a b r :
  slice l a b = Ok r →
  0 <= a <= b ∧ b <= len l ∧ r = take (Z.to_nat (b - a)) (drop (Z.to_nat a) l).
Proof.
  unfold slice. destruct (Z.leb_spec 0 a), (Z.leb_spec a b), (Z.leb_spec b (len l));
    simpl; naive_solver lia.
Qed.

Lemma slice_defined l a b : 0 <= a <= b → b <= len l → defined (slice l a b).
Proof. intros. rewrite slice_Ok by done. apply Ok_defined. Qed.

#[export] Hint Resolve len_nonneg rd_defined slice_defined : cxx.

(** ** Little-endian integers *)

(** [n] bytes of [z], least significant first ([to_le_bytes]). *)
Fixpoint le_bytes (n : nat) (z : Z) : bytes :=
  match n with
  | O => []
  | S n => z2b z :: le_bytes n (Z.shiftr z 8)
  end.

(** The value of a little-endian byte sequence. *)
Fixpoint le_val (l : bytes) : Z :=
  match l with
  | [] => 0
  | b :: l => b2z b + 256 * le_val l
  end.

Lemma length_le_bytes n z : length (le_bytes n z) = n.
Proof. revert z. induction n; intros z; simpl; auto. Qed.

Lemma le_val_range l : 0 <= le_val l < 256 ^ len l.
Proof.
  induction l as [|b l IH]; simpl; [unfold len; simpl; lia|].
  unfold len in *. simpl length. rewrite Nat2Z.inj_succ, Z.pow_succ_r by lia.
  pose proof (b2z_range b). lia.
Qed.

Lemma le_val_le_bytes n z : le_val (le_bytes n z) = z mod 256 ^ Z.of_nat n.
Proof.
  revert z. induction n as [|n IH]; intros z; simpl le_bytes; simpl le_val.
  - by rewrite Z.mod_1_r.
  - rewrite IH, b2z_z2b, Nat2Z.inj_succ, Z.pow_succ_r by lia.
    rewrite Z.shiftr_div_pow2 by lia. change (2 ^ 8) with 256.
    rewrite Z.rem_mul_r by (try apply Z.pow_nonzero; lia). lia.
Qed.

Lemma le_bytes_le_val l : le_bytes (length l) (le_val l) = l.
Proof.
  induction l as [|b l IH]; [done|]. cbn [length le_bytes le_val]. f_equal.
  - apply b2z_inj. rewrite b2z_z2b. pose proof (b2z_range b).
    rewrite Z.mul_comm, Z.mod_add, Z.mod_small by lia. done.
  - rewrite Z.shiftr_div_pow2 by lia. change (2 ^ 8) with 256.
    pose proof (b2z_range b). rewrite Z.mul_comm, Z.div_add, Z.div_small by lia. done.
Qed.

(** [a | (b << k)] is an addition when the shifted part starts above [a]. *)
Lemma lor_shiftl_add a b k : 0 <= k → 0 <= a < 2 ^ k → Z.lor a (Z.shiftl b k) = a + b * 2 ^ k.
Proof.
  intros Hk Ha. rewrite Z.shiftl_mul_pow2 by lia.
  symmetry. apply Z.add_nocarry_lor.
  apply Z.bits_inj'. intros i Hi. rewrite Z.land_spec, Z.bits_0.
  destruct (Z.ltb_spec i k).
  - rewrite Z.mul_pow2_bits_low by lia. apply andb_false_r.
  - replace (Z.testbit a i) with false; [done|]. symmetry.
    destruct (Z.eq_dec a 0) as [->|]; [apply Z.bits_0|].
    apply Z.bits_above_log2; [lia|].
    pose proof (proj1 (Z.log2_lt_pow2 a k ltac:(lia)) ltac:(lia)). lia.
Qed.

Lemma lxor_range x y n :
  0 <= n → 0 <= x < 2 ^ n → 0 <= y < 2 ^ n → 0 <= Z.lxor x y < 2 ^ n.
Proof.
  intros Hn Hx Hy. assert (0 <= Z.lxor x y) by (apply Z.lxor_nonneg; lia). split; [done|].
  assert (∀ z, 0 <= z < 2 ^ n → Z.lxor x y ≠ 0 → Z.log2 z < n) as Hlog.
  { intros z Hz Hne. destruct (Z.eq_dec z 0) as [->|]; [|apply Z.log2_lt_pow2; lia].
    destruct (Z.eq_dec n 0) as [->|]; [|simpl; lia].
    destruct Hne. replace x with 0 by lia. by replace y with 0 by lia. }
  destruct (Z.eq_dec (Z.lxor x y) 0) as [->|]; [lia|].
  apply Z.log2_lt_pow2; [lia|]. eapply Z.le_lt_trans; [apply Z.log2_lxor; lia|].
  apply Z.max_lub_lt; auto.
Qed.

(** ** Character classes (the "C" locale) *)

Definition in_range (lo hi : Z) (b : byte) : bool := (lo <=? b2z b) && (b2z b <=? hi).
Definition isdigit (b : byte) : bool := in_range 48 57 b.
Definition isupper (b : byte) : bool := in_range 65 90 b.
Definition islower (b : byte) : bool := in_range 97 122 b.
Definition isalpha (b : byte) : bool := isupper b || islower b.
Definition isalnum (b : byte) : bool := isalpha b || isdigit b.
Definition isxdigit (b : byte) : bool := isdigit b || in_range 65 70 b || in_range 97 102 b.
Definition tolower (b : byte) : byte := if isupper b then z2b (b2z b + 32) else b.

(** ** Byte strings *)

Definition bytes_eqb (a b : bytes) : bool := bool_decide (a = b).

(** [std::string::operator<]: lexicographic on unsigned bytes. *)
Fixpoint bytes_ltb (a b : bytes) : bool :=
  match a, b with
  | _, [] => false
  | [], _ :: _ => true
  | x :: a, y :: b => (b2z x <? b2z y) || ((b2z x =? b2z y) && bytes_ltb a b)
  end.

Fixpoint prefixb (p s : bytes) : bool :=
  match p, s with
  | [], _ => true
  | _ :: _, [] => false
  | x :: p, y :: s => beqb x y && prefixb p s
  end.

(** [s.find(p)] *)
Fixpoint find_sub (p s : bytes) : option nat :=
  if prefixb p s then Some O
  else match s with [] => None | _ :: s => S <$> find_sub p s end.

(** [s.find(c)] *)
Fixpoint find_char (c : byte) (s : bytes) : option nat :=
  match s with
  | [] => None
  | x :: s => if beqb x c then Some O else S <$> find_char c s
  end.

(** [s.rfind(c)] *)
Fixpoint rfind_char (c : byte) (s : bytes) : option nat :=
  match s with
  | [] => None
  | x :: s =>
      match rfind_char c s with
      | Some i => Some (S i)
      | None => if beqb x c then Some O else None
      end
  end.

(** The split loop [while ((end = s.find(d, start)) != npos)]: the pieces
    between delimiters, always at least one. *)
Fixpoint split (d : byte) (s : bytes) : list bytes :=
  match s with
  | [] => [[]]
  | c :: s =>
      if beqb c d then [] :: split d s
      else match split d s with
           | [] => [[c]]
           | p :: ps => (c :: p) :: ps
           end
  end.

(** [std::to_string] of a non-negative integer. *)
Definition dec (n : N) : bytes :=
  list_byte_of_string (DecimalString.NilZero.string_of_uint (N.to_uint n)).

Lemma bytes_eqb_true a b : bytes_eqb a b = true ↔ a = b.
Proof. apply bool_decide_eq_true. Qed.

Lemma bytes_eqb_false a b : bytes_eqb a b = false ↔ a ≠ b.
Proof. apply bool_decide_eq_false. Qed.

Lemma bytes_eqb_refl a : bytes_eqb a a = true.
Proof. by apply bytes_eqb_true. Qed.

Lemma beqb_refl a : beqb a a = true.
Proof. by apply beqb_true. Qed.

Lemma beqb_false a b : beqb a b = false ↔ a ≠ b.
Proof. rewrite <- not_true_iff_false, beqb_true. done. Qed.

Lemma beqb_spec a b : reflect (a = b) (beqb a b).
Proof.
  destruct (beqb a b) eqn:E; constructor; [by apply beqb_true | by apply beqb_false].
Qed.

Lemma prefixb_true p s : prefixb p s = true ↔ ∃ r, s = p ++ r.
Proof.
  revert s. induction p as [|x p IH]; intros [|y s]; simpl.
  - naive_solver.
  - naive_solver.
  - naive_solver.
  - rewrite andb_true_iff, beqb_true, IH. naive_solver.
Qed.

Lemma prefixb_app p r : prefixb p (p ++ r) = true.
Proof. apply prefixb_true. eauto. Qed.

Lemma find_sub_Some p s i :
  find_sub p s = Some i → ∃ r, s = take i s ++ p ++ r ∧ (i + length p <= length s)%nat.
Proof.
  revert i. induction s as [|c s IH]; intros i; simpl.
  - destruct (prefixb p []) eqn:E; [|done]. intros [= <-].
    apply prefixb_true in E as [r E]. exists r.
    apply (f_equal length) in E as El. rewrite length_app in El. simpl in *. split; [done|lia].
  - destruct (prefixb p (c :: s)) eqn:E.
    + intros [= <-]. apply prefixb_true in E as [r E]. exists r. rewrite E at 1. split; [done|].
      apply (f_equal length) in E. rewrite length_app in E. simpl in *. lia.
    + destruct (find_sub p s) as [j|]; [|done]. intros [= <-].
      destruct (IH j eq_refl) as (r & Hr & Hl). exists r. simpl. rewrite <- Hr. split; [done|lia].
Qed.

Lemma find_sub_first p s i a r : find_sub p s = Some i → s = a ++ p ++ r → (i <= length a)%nat.
Proof.
  revert i a. induction s as [|x s IH]; intros i a Hf Hs; cbn in Hf.
  - destruct (prefixb p []); [|done]. injection Hf as <-. lia.
  - destruct (prefixb p (x :: s)) eqn:E; [injection Hf as <-; lia|].
    destruct (find_sub p s) as [j|] eqn:Ej; [|done]. injection Hf as <-.
    destruct a as [|y a].
    + cbn in Hs. rewrite Hs, prefixb_app in E. done.
    + injection Hs as -> Hs. specialize (IH j a eq_refl Hs). cbn. lia.
Qed.

Lemma find_sub_None p s : find_sub p s = None ↔ ∀ a r, s ≠ a ++ p ++ r.
Proof.
  induction s as [|c s IH]; simpl.
  - destruct (prefixb p []) eqn:E; split; intros H.
    + done.
    + apply prefixb_true in E as [r E]. by destruct (H [] r).
    + intros a r Ha. destruct a; [|done]. simpl in Ha. rewrite Ha, prefixb_app in E. done.
    + done.
  - destruct (prefixb p (c :: s)) eqn:E; split; intros H.
    + done.
    + apply prefixb_true in E as [r E]. by destruct (H [] r).
    + apply fmap_None in H. pose proof (proj1 IH H) as IH'. intros a r Ha.
      destruct a as [|x a]; simpl in Ha.
      * rewrite Ha, prefixb_app in E. done.
      * injection Ha as -> Ha. by destruct (IH' a r).
    + apply fmap_None, IH. intros a r ->. apply (H (c :: a) r). done.
Qed.

Lemma notin_of_bool (c : byte) s : forallb (λ x, negb (beqb x c)) s = true → c ∉ s.
Proof. rewrite forallb_forall. intros H Hin. specialize (H c (proj1 (list_elem_of_In _ _) Hin)). by rewrite beqb_refl in H. Qed.

Lemma find_char_Some c s i :
  find_char c s = Some i → s !! i = Some c ∧ c ∉ take i s.
Proof.
  revert i. induction s as [|x s IH]; intros i; simpl; [done|].
  destruct (beqb_spec x c) as [->|Hne].
  - intros [= <-]. split; [done|]. simpl. apply not_elem_of_nil.
  - destruct (find_char c s) as [j|]; [|done]. intros [= <-].
    destruct (IH j eq_refl) as [H1 H2]. split; [done|]. simpl.
    rewrite not_elem_of_cons. auto.
Qed.

Lemma find_char_None c s : find_char c s = None ↔ c ∉ s.
Proof.
  induction s as [|x s IH]; simpl.
  - split; [intros _; apply not_elem_of_nil | done].
  - rewrite not_elem_of_cons. destruct (beqb_spec x c) as [->|Hne].
    + naive_solver.
    + rewrite fmap_None, IH. naive_solver.
Qed.

Lemma find_char_split c s i :
  find_char c s = Some i → s = take i s ++ c :: drop (S i) s.
Proof.
  intros [H _]%find_char_Some. by rewrite <- (take_drop_middle s i c H) at 1.
Qed.

Lemma find_char_app c a r : c ∉ a → find_char c (a ++ c :: r) = Some (length a).
Proof.
  induction a as [|x a IH]; simpl; intros H.
  - by rewrite beqb_refl.
  - apply not_elem_of_cons in H as [H1 H2].
    destruct (beqb_spec x c) as [->|_]; [done|]. by rewrite IH.
Qed.

Lemma find_char_app_None c a : c ∉ a → find_char c a = None.
Proof. apply find_char_None. Qed.

Lemma split_nonempty d s : split d s ≠ [].
Proof. destruct s as [|c s]; simpl; [done|]. destruct (beqb c d), (split d s); done. Qed.

Lemma split_no_delim d s : d ∉ s → split d s = [s].
Proof.
  induction s as [|c s IH]; simpl; intros H; [done|].
  apply not_elem_of_cons in H as [H1 H2].
  destruct (beqb_spec c d) as [->|_]; [done|]. by rewrite IH.
Qed.

Lemma split_app d p r : d ∉ p → split d (p ++ d :: r) = p :: split d r.
Proof.
  induction p as [|c p IH]; simpl; intros H.
  - by rewrite beqb_refl.
  - apply not_elem_of_cons in H as [H1 H2].
    destruct (beqb_spec c d) as [->|_]; [done|]. by rewrite IH.
Qed.

(** The inverse of [split]. *)
Fixpoint join (d : byte) (ps : list bytes) : bytes :=
  match ps with
  | [] => []
  | [p] => p
  | p :: ps => p ++ d :: join d ps
  end.

Lemma join_cons d p ps : ps ≠ [] → join d (p :: ps) = p ++ d :: join d ps.
Proof. by destruct ps. Qed.

Lemma join_split d s : join d (split d s) = s.
Proof.
  induction s as [|c s IH]; simpl; [done|].
  destruct (beqb_spec c d) as [->|_].
  - rewrite join_cons by apply split_nonempty. by rewrite IH.
  - destruct (split d s) as [|p ps] eqn:E; [by destruct (split_nonempty d s)|].
    rewrite <- IH. by destruct ps.
Qed.

Lemma split_snoc d s : split d (s ++ [d]) = split d s ++ [[]].
Proof.
  induction s as [|c s IH]; simpl; [by rewrite beqb_refl|].
  destruct (beqb c d); [by rewrite IH|]. rewrite IH.
  destruct (split d s) eqn:E; [by destruct (split_nonempty d s)|done].
Qed.

Lemma split_join d ps : ps ≠ [] → Forall (λ p, d ∉ p) ps → split d (join d ps) = ps.
Proof.
  induction ps as [|p ps IH]; intros Hne Hf; [done|]. apply Forall_cons in Hf as [Hp Hf].
  destruct ps as [|q ps]; [by apply split_no_delim|].
  rewrite join_cons, split_app by done. by rewrite IH.
Qed.

Lemma split_pieces d s : Forall (λ p, d ∉ p) (split d s).
Proof.
  induction s as [|c s IH]; simpl.
  - constructor; [apply not_elem_of_nil | constructor].
  - destruct (beqb_spec c d) as [->|Hne].
    + constructor; [apply not_elem_of_nil | done].
    + destruct (split d s) as [|p ps] eqn:E; [by destruct (split_nonempty d s)|].
      apply Forall_cons in IH as [H1 H2]. constructor; [|done].
      rewrite not_elem_of_cons. auto.
Qed.

(** ** Safety triples

    [safe m Q]: [m] has no undefined behaviour, does not run out of fuel, and
    if it returns a value the value satisfies [Q] (exceptions are allowed). *)

Definition safe {A} (m : outcome A) (Q : A → Prop) : Prop :=
  match m with Ok a => Q a | Throw _ => True | UB | NoFuel => False end.

Lemma safe_defined {A} (m : outcome A) Q : safe m Q → defined m.
Proof. by destruct m. Qed.

Lemma safe_post {A} (m : outcome A) Q a : safe m Q → m = Ok a → Q a.
Proof. by intros H ->. Qed.

Lemma safe_mono {A} (m : outcome A) (Q R : A → Prop) :
  safe m Q → (∀ a, Q a → R a) → safe m R.
Proof. destruct m; cbn; auto. Qed.

Lemma safe_bind {A B} (m : outcome A) (f : A → outcome B) Q R :
  safe m Q → (∀ a, Q a → safe (f a) R) → safe (m ≫= f) R.
Proof. destruct m; cbn; auto. Qed.

Lemma safe_throw_if c w (Q : () → Prop) : (c = false → Q ()) → safe (throw_if c w) Q.
Proof. destruct c; cbn; auto. Qed.

Lemma safe_rd l i (Q : byte → Prop) :
  0 <= i < len l → (∀ b, l !! Z.to_nat i = Some b → Q b) → safe (rd l i) Q.
Proof. intros (b & Hb & ->)%rd_Ok HQ. by apply HQ. Qed.

Lemma safe_slice l a b (Q : bytes → Prop) :
  0 <= a <= b → b <= len l →
  Q (take (Z.to_nat (b - a)) (drop (Z.to_nat a) l)) → safe (slice l a b) Q.
Proof. intros Ha Hb HQ. by rewrite slice_Ok. Qed.

Lemma len_take_drop {A} (l : list A) a b :
  0 <= a <= b → b <= len l → len (take (Z.to_nat (b - a)) (drop (Z.to_nat a) l)) = b - a.
Proof. unfold len. rewrite length_take, length_drop. lia. Qed.

Ltac bool_to_prop :=
  repeat match goal with
  | H : _ || _ = false |- _ => apply orb_false_iff in H as [? ?]
  | H : _ && _ = true |- _ => apply andb_true_iff in H as [? ?]
  | H : (_ <? _) = true |- _ => apply Z.ltb_lt in H
  | H : (_ <? _) = false |- _ => apply Z.ltb_ge in H
  | H : (_ <=? _) = true |- _ => apply Z.leb_le in H
  | H : (_ <=? _) = false |- _ => apply Z.leb_gt in H
  | H : (_ =? _) = true |- _ => apply Z.eqb_eq in H
  | H : (_ =? _) = false |- _ => apply Z.eqb_neq in H
  end.

(** Reading at a known split point of a buffer. *)
Lemma rd_app pre x rest : rd (pre ++ x :: rest) (len pre) = Ok x.
Proof.
  destruct (rd_Ok (pre ++ x :: rest) (len pre)) as (b & Hb & ->).
  { unfold len. rewrite length_app. simpl. lia. }
  unfold len in Hb. rewrite Nat2Z.id, list_lookup_middle in Hb by done. congruence.
Qed.

Lemma rd_at src pre x rest i : src = pre ++ x :: rest → i = len pre → rd src i = Ok x.
Proof. intros -> ->. apply rd_app. Qed.

Lemma slice_at src pre c rest a b :
  src = pre ++ c ++ rest → a = len pre → b = len pre + len c → slice src a b = Ok c.
Proof.
  intros -> -> ->. rewrite slice_Ok by (unfold len; rewrite ?length_app; lia).
  unfold len. rewrite Nat2Z.id, drop_app_length.
  replace (Z.to_nat _) with (length c) by lia. by rewrite take_app_length.
Qed.

(** ** Results that do not run out of fuel *)

Create HintDb fueled.
Definition fueled {A} (o : outcome A) : Prop := o ≠ NoFuel.

Lemma fueled_Ok {A} (a : A) : fueled (Ok a).
Proof. done. Qed.
Lemma fueled_Throw {A} e : fueled (Throw (A:=A) e).
Proof. done. Qed.
Lemma fueled_UB {A} : fueled (UB (A:=A)).
Proof. done. Qed.
Lemma fueled_bind {A B} (o : outcome A) (f : A → outcome B) : fueled o → (∀ a, fueled (f a)) → fueled (o ≫= f).
Proof. destruct o; try done. intros _ Hf. apply Hf. Qed.
Lemma fueled_defined {A} (o : outcome A) : defined o → fueled o.
Proof. by intros [? ?]. Qed.
#[export] Hint Resolve fueled_Ok fueled_Throw fueled_UB : fueled.

(** Splits binds and matches down to results that are evidently fueled. *)
Ltac fueled := repeat first
  [ progress intros
  | solve [eauto with fueled]
  | apply fueled_bind
  | match goal with |- fueled (match ?x with _ => _ end) => destruct x end
  | match goal with |- fueled (if ?x then _ else _) => destruct x end
  | progress cbn beta iota zeta ].

Lemma fueled_throw_if b e : fueled (throw_if b e).
Proof. by destruct b. Qed.
#[export] Hint Resolve fueled_throw_if : fueled.
