(* ===== verification/State.v ===== *)
(** * State: stateful code that can throw

    The program's handlers and loops read and change the fields of an object
    and can throw half way.  [SM S A] is a run of such code on the state [S]:
    its outcome and the state it leaves, also when it throws.  [steps R m]
    says that whatever the outcome, as long as the run is defined, the states
    before and after it are related by the preorder [R]; the rules below let a
    component prove an invariant of every run from the primitive changes. *)

From S2P Require Import Prelude.

Definition SM (S A : Type) : Type := S → outcome A * S.

#[export] Instance SM_ret S : MRet (SM S) := λ A a st, (Ok a, st).
#[export] Instance SM_bind S : MBind (SM S) := λ A B f m st,
  match m st with
  | (Ok a, st) => f a st
  | (Throw e, st) => (Throw e, st)
  | (UB, st) => (UB, st)
  | (NoFuel, st) => (NoFuel, st)
  end.
Definition lift {S A} (o : outcome A) : SM S A := λ st, (o, st).
Definition gets {S A} (f : S → A) : SM S A := λ st, (Ok (f st), st).
Definition modify {S} (f : S → S) : SM S () := λ st, (Ok tt, f st).
(** [catch (...)]: the exception is swallowed, the changes stay. *)
Definition swallow {S} (m : SM S ()) : SM S () := λ st,
  match m st with (Throw _, st) => (Ok tt, st) | r => r end.
(** [try { m } catch (const std::exception& e) { h(e.what()) }] *)
Definition catching {S A} (m : SM S A) (h : bytes → SM S A) : SM S A := λ st,
  match m st with (Throw e, st) => h e st | r => r end.
(** The result of a call together with the exception it may have thrown. *)
Definition attempt {S A} (m : SM S A) : SM S (A + bytes) :=
  catching (a ← m; mret (inl a)) (λ e, mret (inr e)).
Fixpoint for_each {S A} (f : A → SM S ()) (l : list A) : SM S () :=
  match l with [] => mret tt | x :: l => _ ← f x; for_each f l end.

Section steps.
  Context {S : Type} (R : S → S → Prop) `{!PreOrder R}.

Definition steps {A} (m : SM S A) : Prop := ∀ st, defined (m st).1 → R st (m st).2.

Lemma steps_ret {A} (a : A) : steps (mret a).
Proof. intros st _. reflexivity. Qed.
Lemma steps_lift {A} (o : outcome A) : steps (lift o).
Proof. intros st _. reflexivity. Qed.
Lemma steps_gets {A} (f : S → A) : steps (gets f).
Proof. intros st _. reflexivity. Qed.
Lemma steps_modify f : (∀ st, R st (f st)) → steps (modify f).
Proof. intros H st _. apply H. Qed.

Lemma steps_bind {A B} (m : SM S A) (f : A → SM S B) : steps m → (∀ a, steps (f a)) → steps (m ≫= f).
Proof.
  intros Hm Hf st. unfold mbind, SM_bind. specialize (Hm st). destruct (m st) as [[a|e| |] st'] eqn:E; cbn in *; try done.
  - intros Hd. etransitivity; [by apply Hm|]. by apply Hf.
  - intros _. by apply Hm.
  - by intros [? _].
  - by intros [_ ?].
Qed.

Lemma steps_catching {A} (m : SM S A) h : steps m → (∀ e, steps (h e)) → steps (catching m h).
Proof.
  intros Hm Hh st. unfold catching. specialize (Hm st). destruct (m st) as [[a|e| |] st'] eqn:E; cbn in *; try done.
  intros Hd. etransitivity; [by apply Hm|]. by apply Hh.
Qed.

Lemma steps_attempt {A} (m : SM S A) : steps m → steps (attempt m).
Proof. intros Hm. apply steps_catching; [|intros e; apply steps_ret]. apply steps_bind; [done|]. intros a. apply steps_ret. Qed.

Lemma steps_swallow (m : SM S ()) : steps m → steps (swallow m).
Proof.
  intros Hm st. unfold swallow. specialize (Hm st). destruct (m st) as [[a|e| |] st'] eqn:E; cbn in *; try done.
  intros _. by apply Hm.
Qed.

Lemma steps_for_each {A} (f : A → SM S ()) l : (∀ x, steps (f x)) → steps (for_each f l).
Proof. intros Hf. induction l; cbn [for_each]; [apply steps_ret|]. apply steps_bind; auto. Qed.
End steps.

Create HintDb steps.
#[export] Hint Resolve steps_ret steps_lift steps_gets : steps.

(** Splits a [steps] goal along the code. *)
Ltac steps := repeat first
  [ progress intros
  | match goal with |- PreOrder _ => exact _ end
  | solve [eauto with steps]
  | apply steps_ret; exact _
  | apply steps_lift; exact _
  | apply steps_gets; exact _
  | apply steps_bind
  | apply steps_catching
  | apply steps_attempt
  | apply steps_swallow
  | apply steps_for_each
  | match goal with |- steps _ (match ?x with _ => _ end) => destruct x end
  | progress cbn beta iota zeta ].

(** ** Runs and what they return *)

Lemma bind_run {S A B} (m : SM S A) (f : A → SM S B) st :
  (m ≫= f) st = match m st with
                | (Ok a, st') => f a st'
                | (Throw e, st') => (Throw e, st')
                | (UB, st') => (UB, st')
                | (NoFuel, st') => (NoFuel, st')
                end.
Proof. done. Qed.

Lemma ret_run {S A} (a : A) (st : S) : (mret a : SM S A) st = (Ok a, st).
Proof. done. Qed.

Lemma bind_run_Ok {S A B} (m : SM S A) (f : A → SM S B) st b st' :
  (m ≫= f) st = (Ok b, st') ↔ ∃ a st1, m st = (Ok a, st1) ∧ f a st1 = (Ok b, st').
Proof. rewrite bind_run. destruct (m st) as [[a|e| |] st1]; naive_solver. Qed.

Lemma bind_run_defined {S A B} (m : SM S A) (f : A → SM S B) st :
  defined (m st).1 → (∀ a st1, m st = (Ok a, st1) → defined (f a st1).1) → defined ((m ≫= f) st).1.
Proof. rewrite bind_run. destruct (m st) as [[a|e| |] st1]; cbn; unfold defined; naive_solver. Qed.

Lemma swallow_no_throw {S} (m : SM S ()) st e : (swallow m st).1 ≠ Throw e.
Proof. unfold swallow. by destruct (m st) as [[[]|e'| |] st']. Qed.

(** Reduces the primitive operations of a run, and nothing else. *)
Ltac run_simpl := repeat ((rewrite bind_run || rewrite ret_run); cbn [lift gets modify fst snd]).

(** ** Code without undefined behaviour *)

Definition total {S A} (m : SM S A) : Prop := ∀ st, defined (m st).1.

Lemma total_ret {S A} (a : A) : total (mret a : SM S A).
Proof. intros st. apply Ok_defined. Qed.
Lemma total_lift {S A} (o : outcome A) : defined o → total (lift o : SM S A).
Proof. intros H st. done. Qed.
Lemma total_gets {S A} (f : S → A) : total (gets f).
Proof. intros st. apply Ok_defined. Qed.
Lemma total_modify {S} (f : S → S) : total (modify f).
Proof. intros st. apply Ok_defined. Qed.
Lemma total_bind {S A B} (m : SM S A) (f : A → SM S B) : total m → (∀ a, total (f a)) → total (m ≫= f).
Proof. intros Hm Hf st. apply bind_run_defined; [apply Hm|]. intros a st1 _. apply Hf. Qed.
Lemma total_lift_bind {S A B} (o : outcome A) (f : A → SM S B) : defined o → (∀ a, o = Ok a → total (f a)) → total (lift o ≫= f).
Proof. intros Ho Hf st. apply bind_run_defined; [done|]. intros a st1 [= -> ->]. by apply Hf. Qed.
Lemma total_catching {S A} (m : SM S A) h : total m → (∀ e, total (h e)) → total (catching m h).
Proof. intros Hm Hh st. unfold catching. specialize (Hm st). destruct (m st) as [[a|e| |] st']; try done. apply Hh. Qed.
Lemma total_swallow {S} (m : SM S ()) : total m → total (swallow m).
Proof. intros Hm st. unfold swallow. specialize (Hm st). by destruct (m st) as [[a|e| |] st']. Qed.
Lemma total_for_each {S A} (f : A → SM S ()) l : (∀ x, total (f x)) → total (for_each f l).
Proof. intros Hf. induction l; cbn [for_each]; [apply total_ret|]. apply total_bind; auto. Qed.

Create HintDb total.
#[export] Hint Resolve total_ret total_gets total_modify : total.

(** Splits a [total] goal along the code. *)
Ltac total := repeat first
  [ progress intros
  | solve [eauto with total]
  | apply total_lift; solve [eauto with cxx]
  | apply total_lift_bind; [solve [eauto with cxx]|]
  | apply total_bind
  | apply total_catching
  | apply total_swallow
  | apply total_for_each
  | match goal with |- total (match ?x with _ => _ end) => destruct x eqn:? end
  | progress cbn beta iota zeta ].

(** A handler that catches everything does not throw. *)
Lemma catching_ret_no_throw {S A} (m : SM S A) (f : bytes → A) st e : (catching m (λ e, mret (f e)) st).1 ≠ Throw e.
Proof. unfold catching. by destruct (m st) as [[a|e'| |] st']. Qed.

(** The frame of a run that returned. *)
Lemma steps_ran {St A} (R : St → St → Prop) (m : SM St A) s a s' : steps R m → m s = (Ok a, s') → R s s'.
Proof. intros Hs Hm. specialize (Hs s). rewrite Hm in Hs. apply Hs. apply Ok_defined. Qed.

(** The inversion of a sequence that ran to its end. *)
Lemma bind_Ok_inv {St A B} (m : SM St A) (f : A → SM St B) s b s' :
  (m ≫= f) s = (Ok b, s') → ∃ a s1, m s = (Ok a, s1) ∧ f a s1 = (Ok b, s').
Proof. rewrite bind_run. destruct (m s) as [[a|e| |] s1]; try done. eauto. Qed.

(** A sequence whose first two parts are considered together. *)
Lemma steps_bind_assoc {St A B C} (R : St → St → Prop) `{!PreOrder R} (m : SM St A) (f : A → SM St B) (g : B → SM St C) :
  steps R (m ≫= f) → (∀ b, steps R (g b)) → steps R (m ≫= λ a, f a ≫= g).
Proof.
  intros Hm Hg st. specialize (Hm st). revert Hm. rewrite !bind_run.
  destruct (m st) as [[a|e| |] s1]; cbn [fst snd]; [|intros Hm _; apply Hm, Throw_defined|by intros _ []|by intros _ []].
  rewrite bind_run. destruct (f a s1) as [[b|e| |] s2]; cbn [fst snd]; intros Hm Hd; [|apply Hm, Throw_defined|by destruct Hd|by destruct Hd].
  etransitivity; [apply Hm, Ok_defined|]. by apply Hg.
Qed.

(** ** What a run establishes

    [wp m st Q E]: run from [st], [m] is defined; a result satisfies [Q]
    together with the state it leaves, an exception [E]. *)
Definition wp {S A} (m : SM S A) (st : S) (Q : A → S → Prop) (E : bytes → S → Prop) : Prop :=
  match m st with
  | (Ok a, st') => Q a st'
  | (Throw e, st') => E e st'
  | _ => False
  end.

Section wp.
  Context {S A : Type}.
  Implicit Types (m : SM S A) (Q : A → S → Prop) (E : bytes → S → Prop).

Lemma wp_ret (a : A) st Q E : Q a st → wp (mret a) st Q E.
Proof. done. Qed.
Lemma wp_bind {B} (m : SM S B) (f : B → SM S A) st Q E : wp m st (λ a st', wp (f a) st' Q E) E → wp (m ≫= f) st Q E.
Proof. unfold wp. rewrite bind_run. by destruct (m st) as [[a|e| |] st']. Qed.
Lemma wp_mono m st Q Q' E E' : wp m st Q E → (∀ a st', Q a st' → Q' a st') → (∀ e st', E e st' → E' e st') → wp m st Q' E'.
Proof. unfold wp. destruct (m st) as [[a|e| |] st']; auto. Qed.
Lemma wp_lift (o : outcome A) st Q E : safe o (λ a, Q a st) → (∀ e, o = Throw e → E e st) → wp (lift o) st Q E.
Proof. destruct o; cbn; auto. Qed.
Lemma wp_gets (f : S → A) st Q E : Q (f st) st → wp (gets f) st Q E.
Proof. done. Qed.
Lemma wp_defined m st Q E : wp m st Q E → defined (m st).1.
Proof. unfold wp, defined. destruct (m st) as [[a|e| |] st']; cbn; naive_solver. Qed.
Lemma wp_Ok m st a st' Q E : m st = (Ok a, st') → Q a st' → wp m st Q E.
Proof. unfold wp. by intros ->. Qed.
End wp.

Lemma wp_modify {S} (f : S → S) st Q E : Q tt (f st) → wp (modify f) st Q E.
Proof. done. Qed.
Lemma wp_catching {S A} (m : SM S A) h st Q E : wp m st Q (λ e st', wp (h e) st' Q E) → wp (catching m h) st Q E.
Proof. unfold wp, catching. by destruct (m st) as [[a|e| |] st']. Qed.
(** A run and its frame. *)
Lemma wp_steps {S A} (R : S → S → Prop) (m : SM S A) st Q E : wp m st Q E → steps R m → wp m st (λ a st', Q a st' ∧ R st st') (λ e st', E e st' ∧ R st st').
Proof. intros Hw Hs. specialize (Hs st (wp_defined _ _ _ _ Hw)). unfold wp in *. by destruct (m st) as [[a|e| |] st']. Qed.
Lemma wp_total {S A} (m : SM S A) st : total m → wp m st (λ _ _, True) (λ _ _, True).
Proof. intros Ht. specialize (Ht st). unfold wp. destruct (m st) as [[a|e| |] st']; [done|done|by destruct Ht|by destruct Ht]. Qed.
Lemma wp_frame {S A} (R : S → S → Prop) (m : SM S A) st : total m → steps R m → wp m st (λ _ st', R st st') (λ _ st', R st st').
Proof. intros Ht Hs. eapply wp_mono; [apply wp_steps; [by apply wp_total|exact Hs]| |]; by intros ? ? []. Qed.
