(* ===== verification/Lz4.v ===== *)
(** * Lz4: the LZ4 block decoder of the .star container

    Models [star_decompress] of [src/src/include/millennium/star_parser.h]:
    the size prefix, the token loop, the length extensions and the match
    copy, on an output buffer of the announced size.  Pointers are offsets
    into their buffer; every read and write is bounds-checked by the model
    and out-of-range accesses are undefined ([UB]).  The width [w] of
    [size_t] is a parameter, because the decoder guards its length
    accumulators against 32-bit wrap-around.

    The second half gives the format a reference meaning (a list of
    sequences, each some literals and a back reference) and shows that the
    decoder inverts the standard serialisation of such a list. *)

From S2P Require Import Prelude.

(** ** The decoder *)

Definition STAR_DECOMPRESS_MAX : Z := 64 * 1024 * 1024.

Definition size_t (w z : Z) : Z := z mod 2 ^ w.

(** One byte store, [op[i] = b]. *)
Definition wr (l : bytes) (i : Z) (b : byte) : outcome bytes :=
  if (0 <=? i) && (i <? len l) then Ok (<[Z.to_nat i := b]> l) else UB.

(** [std::memcpy(dst + d, chunk, chunk.size())] *)
Definition memcpy (dst : bytes) (d : Z) (chunk : bytes) : outcome bytes :=
  if (0 <=? d) && (d + len chunk <=? len dst)
  then Ok (take (Z.to_nat d) dst ++ chunk ++ drop (Z.to_nat d + length chunk) dst)
  else UB.

(** The extension loop of a literal or match length: adds bytes until one is
    not 255, the input ends, or the accumulator exceeds what fits. *)
Fixpoint ext_len (fuel : nat) (w : Z) (src : bytes) (ip n max : Z) (what : bytes)
    : outcome (Z * Z) :=
  match fuel with
  | O => NoFuel
  | S fuel =>
      if ip <? len src then
        b ← rd src ip;
        let n := size_t w (n + b2z b) in
        _ ← throw_if (max <? n) what;
        if b2z b =? 255 then ext_len fuel w src (ip + 1) n max what
        else Ok (ip + 1, n)
      else Ok (ip, n)
  end.

(** [for (i = 0; i < match_len; ++i) op[i] = match_src[i]] *)
Fixpoint copy_match (n : nat) (out : bytes) (op match_src : Z) : outcome bytes :=
  match n with
  | O => Ok out
  | S n =>
      b ← rd out match_src;
      out ← wr out op b;
      copy_match n out (op + 1) (match_src + 1)
  end.

Record lz_state := LzState { lz_ip : Z; lz_op : Z; lz_out : bytes }.

(** The token, its literal length and the literal copy. *)
Definition lz_literals (w : Z) (src : bytes) (orig_size : Z) (st : lz_state)
    : outcome (byte * lz_state) :=
  let '(LzState ip op out) := st in
  token ← rd src ip;
  let ip := ip + 1 in
  let lit_len := Z.shiftr (b2z token) 4 in
  '(ip, lit_len) ←
    (if lit_len =? 15
     then ext_len (S (length src)) w src ip lit_len (orig_size - op)
            #"star_decompress: literal overflow"
     else Ok (ip, lit_len));
  _ ← throw_if ((orig_size <? op + lit_len) || (len src <? ip + lit_len))
        #"star_decompress: literal overflow";
  chunk ← slice src ip (ip + lit_len);
  out ← memcpy out op chunk;
  Ok (token, LzState (ip + lit_len) (op + lit_len) out).

(** The match offset, the match length and the overlapping copy. *)
Definition lz_match (w : Z) (src : bytes) (orig_size : Z) (token : byte) (st : lz_state)
    : outcome lz_state :=
  let '(LzState ip op out) := st in
  _ ← throw_if (len src <? ip + 2) #"star_decompress: truncated match offset";
  o0 ← rd src ip;
  o1 ← rd src (ip + 1);
  let offset := Z.lor (b2z o0) (Z.shiftl (b2z o1) 8) in
  let ip := ip + 2 in
  _ ← throw_if (offset =? 0) #"star_decompress: zero match offset";
  let nibble := Z.land (b2z token) 15 in
  '(ip, match_len) ←
    (if nibble =? 15
     then ext_len (S (length src)) w src ip (nibble + 4) (orig_size - op)
            #"star_decompress: match overflow"
     else Ok (ip, nibble + 4));
  _ ← throw_if (orig_size <? op + match_len) #"star_decompress: match overflow";
  let match_src := op - offset in
  _ ← throw_if (match_src <? 0) #"star_decompress: invalid match offset";
  out ← copy_match (Z.to_nat match_len) out op match_src;
  Ok (LzState ip (op + match_len) out).

(** One turn of the token loop: [inl] goes round again, [inr] breaks. *)
Definition lz_sequence (w : Z) (src : bytes) (orig_size : Z) (st : lz_state)
    : outcome (lz_state + lz_state) :=
  '(token, st) ← lz_literals w src orig_size st;
  if len src <=? lz_ip st then Ok (inr st)
  else st ← lz_match w src orig_size token st; Ok (inl st).

(** [while (ip < ip_end)] *)
Fixpoint lz_run (fuel : nat) (w : Z) (src : bytes) (orig_size : Z) (st : lz_state)
    : outcome lz_state :=
  match fuel with
  | O => NoFuel
  | S fuel =>
      if lz_ip st <? len src then
        r ← lz_sequence w src orig_size st;
        match r with
        | inl st => lz_run fuel w src orig_size st
        | inr st => Ok st
        end
      else Ok st
  end.

Definition star_decompress (w : Z) (src : bytes) : outcome bytes :=
  _ ← throw_if (len src <? 4) #"star_decompress: input too short";
  b0 ← rd src 0;
  b1 ← rd src 1;
  b2 ← rd src 2;
  b3 ← rd src 3;
  let orig_size := Z.lor (Z.lor (Z.lor (b2z b0) (Z.shiftl (b2z b1) 8))
                           (Z.shiftl (b2z b2) 16)) (Z.shiftl (b2z b3) 24) in
  _ ← throw_if (STAR_DECOMPRESS_MAX <? orig_size)
        #"star_decompress: decompressed size exceeds 64 MB limit";
  st ← lz_run (S (length src)) w src orig_size
         (LzState 4 0 (replicate (Z.to_nat orig_size) x00));
  Ok (take (Z.to_nat (lz_op st)) (lz_out st)).

Example decompress_literals :
  star_decompress 64 [x03; x00; x00; x00; x30; x61; x62; x63] = Ok [x61; x62; x63].
Proof. reflexivity. Qed.

(** "ab" then a match of length 4 at distance 2. *)
Example decompress_overlapping_match :
  star_decompress 64 [x06; x00; x00; x00; x20; x61; x62; x02; x00; x00]
  = Ok [x61; x62; x61; x62; x61; x62].
Proof. reflexivity. Qed.

(** ** Memory safety and termination *)

Lemma safe_wr l i b (Q : bytes → Prop) :
  0 <= i < len l → Q (<[Z.to_nat i := b]> l) → safe (wr l i b) Q.
Proof.
  intros Hi HQ. unfold wr. destruct (Z.leb_spec 0 i), (Z.ltb_spec i (len l)); simpl; lia || done.
Qed.

Lemma len_insert (l : bytes) i b : len (<[i := b]> l) = len l.
Proof. unfold len. by rewrite length_insert. Qed.

Lemma safe_memcpy dst d chunk (Q : bytes → Prop) :
  0 <= d → d + len chunk <= len dst →
  Q (take (Z.to_nat d) dst ++ chunk ++ drop (Z.to_nat d + length chunk) dst) →
  safe (memcpy dst d chunk) Q.
Proof.
  intros H1 H2 HQ. unfold memcpy.
  destruct (Z.leb_spec 0 d), (Z.leb_spec (d + len chunk) (len dst)); simpl; lia || done.
Qed.

Lemma len_memcpy (dst chunk : bytes) d :
  0 <= d → d + len chunk <= len dst →
  len (take (Z.to_nat d) dst ++ chunk ++ drop (Z.to_nat d + length chunk) dst) = len dst.
Proof.
  intros H1 H2. unfold len in *. rewrite !length_app, length_take, length_drop. lia.
Qed.

Lemma size_t_nonneg w z : 0 <= w → 0 <= size_t w z.
Proof. intros. apply Z.mod_pos_bound. by apply Z.pow_pos_nonneg. Qed.

Lemma ext_len_safe fuel w src ip n max what :
  0 <= w → 0 <= ip <= len src → 0 <= n → len src - ip < Z.of_nat fuel →
  safe (ext_len fuel w src ip n max what)
    (λ '(ip', n'), ip <= ip' <= len src ∧ 0 <= n').
Proof.
  intros Hw. revert ip n. induction fuel as [|fuel IH]; intros ip n Hip Hn Hf; simpl.
  { simpl in Hf. lia. }
  destruct (Z.ltb_spec ip (len src)); [|simpl; lia].
  eapply safe_bind; [apply (safe_rd _ _ (λ _, True)); [lia|done]|]. cbv beta. intros b _.
  eapply safe_bind; [apply (safe_throw_if _ _ (λ _, True)); done|]. cbv beta. intros _ _.
  pose proof (size_t_nonneg w (n + b2z b) Hw).
  destruct (b2z b =? 255); [|simpl; lia].
  eapply safe_mono; [apply IH; lia|]. cbv beta. intros [ip' n']; lia.
Qed.

Lemma copy_match_safe n out op src :
  0 <= src < op → op + Z.of_nat n <= len out →
  safe (copy_match n out op src) (λ out', len out' = len out).
Proof.
  revert out op src. induction n as [|n IH]; intros out op src H1 H2; [done|].
  simpl. eapply safe_bind; [apply (safe_rd _ _ (λ _, True)); [lia|done]|]. cbv beta. intros b _.
  eapply safe_bind; [apply (safe_wr _ _ _ (λ o, len o = len out)); [lia|apply len_insert]|]. cbv beta.
  intros o Ho. simpl in Ho. eapply safe_mono; [apply IH; lia|]. simpl; intros; lia.
Qed.

(** The loop invariant: both cursors stay inside their buffers. *)
Definition lz_inv (src : bytes) (orig_size : Z) (st : lz_state) : Prop :=
  0 <= lz_ip st <= len src ∧ 0 <= lz_op st <= orig_size ∧ len (lz_out st) = orig_size.

Definition lz_exit (r : lz_state + lz_state) : lz_state :=
  match r with inl st | inr st => st end.

Lemma b2z_shiftr4 b : 0 <= Z.shiftr (b2z b) 4.
Proof. apply Z.shiftr_nonneg. apply b2z_range. Qed.

Lemma b2z_land15 b : 0 <= Z.land (b2z b) 15.
Proof. apply Z.land_nonneg. right. done. Qed.

(** The optional length extension, as both its uses need it. *)
Lemma ext_opt_safe (c : bool) w src ip n max what :
  0 <= w → 0 <= ip <= len src → 0 <= n →
  safe (if c then ext_len (S (length src)) w src ip n max what else Ok (ip, n))
    (λ '(ip', n'), ip <= ip' <= len src ∧ 0 <= n').
Proof.
  intros Hw Hip Hn. destruct c; [|simpl; lia].
  eapply safe_mono; [apply ext_len_safe; unfold len in *; lia|]. cbv beta. intros [??]; lia.
Qed.

Lemma lz_literals_safe w src osz st :
  0 <= w → lz_inv src osz st → lz_ip st < len src →
  safe (lz_literals w src osz st)
    (λ '(_, st'), lz_inv src osz st' ∧ lz_ip st < lz_ip st').
Proof.
  intros Hw (Hip & Hop & Hout) Hlt. destruct st as [ip op out]; simpl in *.
  eapply safe_bind; [apply (safe_rd _ _ (λ _, True)); [lia|done]|]. cbv beta. intros token _.
  eapply safe_bind; [apply ext_opt_safe; [done|lia|apply b2z_shiftr4]|]. cbv beta.
  intros [ip1 lit] [Hip1 Hlit].
  eapply safe_bind; [apply (safe_throw_if _ _ (λ _, op + lit <= osz ∧ ip1 + lit <= len src));
    intros; bool_to_prop; lia|]. cbv beta. intros _ [Hl1 Hl2].
  eapply safe_bind; [apply (safe_slice _ _ _ (λ c, len c = lit)); [lia..|];
    rewrite len_take_drop by lia; lia|]. cbv beta. intros chunk Hc.
  eapply safe_bind; [apply (safe_memcpy _ _ _ (λ o, len o = osz)); [lia..|];
    rewrite len_memcpy by lia; done|]. clear dependent out. cbv beta. intros out Hout.
  unfold lz_inv; simpl; lia.
Qed.

Lemma lz_match_safe w src osz token st :
  0 <= w → lz_inv src osz st →
  safe (lz_match w src osz token st) (λ st', lz_inv src osz st' ∧ lz_ip st < lz_ip st').
Proof.
  intros Hw (Hip & Hop & Hout). destruct st as [ip op out]; simpl in *.
  eapply safe_bind; [apply (safe_throw_if _ _ (λ _, ip + 2 <= len src));
    intros; bool_to_prop; lia|]. cbv beta. intros _ Hm.
  eapply safe_bind; [apply (safe_rd _ _ (λ _, True)); [lia|done]|]. cbv beta. intros o0 _.
  eapply safe_bind; [apply (safe_rd _ _ (λ _, True)); [lia|done]|]. cbv beta. intros o1 _.
  set (offset := Z.lor _ _).
  assert (0 <= offset) by (apply Z.lor_nonneg; split;
    [apply b2z_range | apply Z.shiftl_nonneg, b2z_range]).
  eapply safe_bind; [apply (safe_throw_if _ _ (λ _, offset ≠ 0)); intros; by bool_to_prop|].
  cbv beta. intros _ Hoff. pose proof (b2z_land15 token).
  eapply safe_bind; [apply ext_opt_safe; [done|lia..]|]. cbv beta. intros [ip2 mlen] [Hip2 Hmlen].
  eapply safe_bind; [apply (safe_throw_if _ _ (λ _, op + mlen <= osz));
    intros; bool_to_prop; lia|]. cbv beta. intros _ Hm2.
  eapply safe_bind; [apply (safe_throw_if _ _ (λ _, 0 <= op - offset));
    intros; bool_to_prop; lia|]. cbv beta. intros _ Hsrc.
  eapply safe_bind; [apply copy_match_safe; lia|]. cbv beta. intros out' Ho'.
  unfold lz_inv; simpl; lia.
Qed.

Lemma lz_sequence_safe w src osz st :
  0 <= w → lz_inv src osz st → lz_ip st < len src →
  safe (lz_sequence w src osz st)
    (λ r, lz_inv src osz (lz_exit r) ∧ lz_ip st < lz_ip (lz_exit r)).
Proof.
  intros Hw Hi Hlt. eapply safe_bind; [by apply lz_literals_safe|].
  intros [token st1] [Hi1 Hlt1]. destruct (Z.leb_spec (len src) (lz_ip st1)); [done|].
  eapply safe_bind; [by apply lz_match_safe|]. intros st2 [Hi2 Hlt2]. simpl. split; [done|lia].
Qed.

Lemma lz_run_safe fuel w src osz st :
  0 <= w → lz_inv src osz st → len src - lz_ip st < Z.of_nat fuel →
  safe (lz_run fuel w src osz st) (lz_inv src osz).
Proof.
  intros Hw. revert st. induction fuel as [|fuel IH]; intros st Hinv Hf.
  { destruct Hinv. simpl in *. lia. }
  simpl. destruct (Z.ltb_spec (lz_ip st) (len src)); [|done].
  eapply safe_bind; [by apply lz_sequence_safe|]. cbv beta.
  intros [st'|st'] [Hi Hp]; simpl in *; [|done]. apply IH; [done|lia].
Qed.

Lemma orig_size_range b0 b1 b2 b3 :
  0 <= Z.lor (Z.lor (Z.lor (b2z b0) (Z.shiftl (b2z b1) 8))
                           (Z.shiftl (b2z b2) 16)) (Z.shiftl (b2z b3) 24).
Proof.
  repeat (apply Z.lor_nonneg; split); try apply Z.shiftl_nonneg; apply b2z_range.
Qed.

Lemma star_decompress_spec w src :
  0 <= w → safe (star_decompress w src) (λ out, len out <= STAR_DECOMPRESS_MAX).
Proof.
  intros Hw. unfold star_decompress.
  eapply safe_bind; [apply (safe_throw_if _ _ (λ _, 4 <= len src)); intros; bool_to_prop; lia|]. cbv beta.
  intros _ H4.
  do 4 (eapply safe_bind; [apply (safe_rd _ _ (λ _, True)); [lia|done]|]; intros ? _).
  pose proof (orig_size_range a a0 a1 a2). set (osz := Z.lor _ _) in *.
  eapply safe_bind; [apply (safe_throw_if _ _ (λ _, osz <= STAR_DECOMPRESS_MAX));
    intros; bool_to_prop; lia|]. cbv beta. intros _ Hmax.
  eapply safe_bind.
  { apply lz_run_safe; [done| |unfold len; simpl; lia].
    repeat split; simpl; try lia. unfold len. rewrite length_replicate. lia. }
  intros st (_ & Hop & Hout). simpl. unfold len in *. rewrite length_take. lia.
Qed.

(** ** The format's meaning *)

(** A sequence appends [sq_lits], then copies [sq_len] bytes starting
    [sq_off] bytes back (the ranges may overlap). *)
Record lz_seq := LzSeq { sq_lits : bytes; sq_off : nat; sq_len : nat }.

Fixpoint copy_back (n off : nat) (acc : bytes) : bytes :=
  match n with
  | O => acc
  | S n => copy_back n off (acc ++ [default x00 (acc !! (length acc - off)%nat)])
  end.

Definition apply_seq (acc : bytes) (s : lz_seq) : bytes :=
  copy_back (sq_len s) (sq_off s) (acc ++ sq_lits s).

(** The block as a whole: sequences, then trailing literals. *)
Definition lz_expand (acc : bytes) (seqs : list lz_seq) (last : bytes) : bytes :=
  foldl apply_seq acc seqs ++ last.

Fixpoint seqs_ok (acc : bytes) (seqs : list lz_seq) : Prop :=
  match seqs with
  | [] => True
  | s :: seqs =>
      (1 <= sq_off s <= length (acc ++ sq_lits s))%nat ∧ Z.of_nat (sq_off s) < 65536 ∧
      (4 <= sq_len s)%nat ∧ seqs_ok (apply_seq acc s) seqs
  end.

(** The serialisation of a block (LZ4 block format, size-prefixed). *)
Definition len_nibble (n : nat) : Z := Z.of_nat (Nat.min n 15).
Definition len_ext (n : nat) : bytes :=
  if (n <? 15)%nat then []
  else replicate ((n - 15) / 255)%nat xff ++ [z2b (Z.of_nat ((n - 15) mod 255))].
Definition lz_token (lits extra : nat) : byte := z2b (16 * len_nibble lits + len_nibble extra).
Definition encode_seq (s : lz_seq) : bytes :=
  lz_token (length (sq_lits s)) (sq_len s - 4) :: len_ext (length (sq_lits s)) ++ sq_lits s ++
  le_bytes 2 (Z.of_nat (sq_off s)) ++ len_ext (sq_len s - 4).
Definition encode_last (l : bytes) : bytes :=
  lz_token (length l) 0 :: len_ext (length l) ++ l.
Definition lz_encode (size : Z) (seqs : list lz_seq) (last : bytes) : bytes :=
  le_bytes 4 size ++ concat (encode_seq <$> seqs) ++ encode_last last.

Lemma length_copy_back n off acc : length (copy_back n off acc) = (length acc + n)%nat.
Proof.
  revert acc. induction n as [|n IH]; intros acc; simpl; [lia|].
  rewrite IH, length_app. simpl. lia.
Qed.

Lemma length_apply_seq acc s :
  length (apply_seq acc s) = (length acc + length (sq_lits s) + sq_len s)%nat.
Proof. unfold apply_seq. rewrite length_copy_back, length_app. lia. Qed.

Lemma length_foldl_apply_seq acc seqs :
  (length acc <= length (foldl apply_seq acc seqs))%nat.
Proof.
  revert acc. induction seqs as [|s seqs IH]; intros acc; simpl; [lia|].
  specialize (IH (apply_seq acc s)). rewrite length_apply_seq in IH. lia.
Qed.

Lemma wr_at out (acc : bytes) b :
  (length acc < length out)%nat → wr out (len acc) b = Ok (<[length acc := b]> out).
Proof.
  intros H. unfold wr, len. rewrite Nat2Z.id.
  destruct (Z.leb_spec 0 (Z.of_nat (length acc))); [|lia].
  by destruct (Z.ltb_spec (Z.of_nat (length acc)) (Z.of_nat (length out))); [|lia].
Qed.

(** The buffer copy computes the reference copy. *)
Lemma copy_match_copy_back n off acc out :
  (1 <= off <= length acc)%nat → (length acc + n <= length out)%nat →
  take (length acc) out = acc →
  ∃ out', copy_match n out (len acc) (len acc - Z.of_nat off) = Ok out' ∧
    length out' = length out ∧ take (length acc + n) out' = copy_back n off acc.
Proof.
  revert acc out. induction n as [|n IH]; intros acc out Hoff Hlen Hacc; simpl.
  { exists out. rewrite Nat.add_0_r. done. }
  destruct (lookup_lt_is_Some_2 acc (length acc - off)) as [b Hb]; [lia|].
  assert (rd out (len acc - Z.of_nat off) = Ok b) as ->.
  { destruct (rd_Ok out (len acc - Z.of_nat off)) as (b' & Hb' & ->); [unfold len; lia|].
    rewrite <- Hacc in Hb. rewrite lookup_take_lt in Hb by (rewrite Hacc; lia).
    rewrite Hacc in Hb. unfold len in Hb'.
    replace (Z.to_nat _) with (length acc - off)%nat in Hb' by lia. congruence. }
  simpl. rewrite wr_at by lia. simpl. rewrite Hb. simpl.
  destruct (IH (acc ++ [b]) (<[length acc:=b]> out)) as (out' & Ho & Hl & Ht).
  - rewrite length_app. lia.
  - rewrite length_app, length_insert. simpl. lia.
  - rewrite length_app. simpl. rewrite Nat.add_1_r.
    erewrite take_S_r by (apply list_lookup_insert_eq; lia).
    rewrite take_insert_ge by lia. by rewrite Hacc.
  - exists out'. rewrite length_app, length_insert in *. simpl in *.
    replace (length acc + 1 + n)%nat with (length acc + S n)%nat in Ht by lia.
    split_and!; [|done|done]. rewrite <- Ho. f_equal; unfold len; rewrite length_app; simpl; lia.
Qed.

Lemma ext_len_encoded w src pre k r post n max what fuel :
  src = pre ++ replicate k xff ++ z2b r :: post →
  0 <= r < 255 → 0 <= n → n + 255 * Z.of_nat k + r <= max → max < 2 ^ w → (k < fuel)%nat →
  ext_len fuel w src (len pre) n max what
  = Ok (len pre + Z.of_nat k + 1, n + 255 * Z.of_nat k + r).
Proof.
  intros Hsrc Hr. revert pre n fuel Hsrc. induction k as [|k IH];
    intros pre n [|fuel] Hsrc Hn Hmax Hw Hf; simpl in *; try lia.
  - destruct (Z.ltb_spec (len pre) (len src)) as [_|Hge];
      [|subst src; unfold len in Hge; rewrite length_app in Hge; simpl in Hge; lia].
    rewrite (rd_at src pre (z2b r) post) by done. simpl.
    rewrite b2z_z2b, (Z.mod_small r) by lia. unfold size_t. rewrite Z.mod_small by lia.
    destruct (Z.ltb_spec max (n + r)); [lia|]. simpl.
    destruct (Z.eqb_spec r 255); [lia|]. f_equal. f_equal; lia.
  - destruct (Z.ltb_spec (len pre) (len src)) as [_|Hge];
      [|subst src; unfold len in Hge; rewrite length_app in Hge; simpl in Hge; lia].
    rewrite (rd_at src pre xff (replicate k xff ++ z2b r :: post)) by done. simpl.
    change (b2z xff) with 255. unfold size_t. rewrite Z.mod_small by lia.
    destruct (Z.ltb_spec max (n + 255)); [lia|]. simpl.
    specialize (IH (pre ++ [xff]) (n + 255) fuel).
    replace (len pre + 1) with (len (pre ++ [xff])) by (unfold len; rewrite length_app; simpl; lia).
    rewrite IH; [|by rewrite <- app_assoc|lia..].
    f_equal. f_equal; [|lia]. unfold len. rewrite length_app. simpl. lia.
Qed.

Lemma len_nibble_range n : 0 <= len_nibble n <= 15.
Proof. unfold len_nibble. lia. Qed.

Lemma b2z_token a b : b2z (lz_token a b) = len_nibble b + len_nibble a * 2 ^ 4.
Proof.
  unfold lz_token. rewrite b2z_z2b.
  pose proof (len_nibble_range a). pose proof (len_nibble_range b). rewrite Z.mod_small; lia.
Qed.

Lemma token_literals a b : Z.shiftr (b2z (lz_token a b)) 4 = len_nibble a.
Proof.
  rewrite b2z_token, Z.shiftr_div_pow2 by lia.
  pose proof (len_nibble_range b). rewrite Z.div_add, Z.div_small by lia. lia.
Qed.

Lemma token_match a b : Z.land (b2z (lz_token a b)) 15 = len_nibble b.
Proof.
  rewrite b2z_token. change 15 with (Z.ones 4). rewrite Z.land_ones by lia.
  pose proof (len_nibble_range b). rewrite Z.mod_add, Z.mod_small by lia. lia.
Qed.

(** The optional extension decodes what [len_ext] wrote. *)
Lemma ext_opt_encoded w src pre n base post max what :
  src = pre ++ len_ext n ++ post → 0 <= base → Z.of_nat n + base <= max → max < 2 ^ w →
  (if len_nibble n =? 15
   then ext_len (S (length src)) w src (len pre) (len_nibble n + base) max what
   else Ok (len pre, len_nibble n + base))
  = Ok (len pre + len (len_ext n), Z.of_nat n + base).
Proof.
  intros Hsrc Hb Hmax Hw. unfold len_nibble, len_ext in *.
  destruct (Nat.ltb_spec n 15) as [Hn|Hn].
  - destruct (Z.eqb_spec (Z.of_nat (Nat.min n 15)) 15); [lia|].
    unfold len. simpl. f_equal. f_equal; lia.
  - rewrite Nat.min_r by lia. destruct (Z.eqb_spec (Z.of_nat 15) 15); [|lia].
    pose proof (Nat.div_mod_eq (n - 15) 255). pose proof (Nat.mod_upper_bound (n - 15) 255).
    erewrite ext_len_encoded; [| by rewrite Hsrc, <- app_assoc | lia.. |].
    + f_equal. unfold len. rewrite length_app, length_replicate. cbn [length]. f_equal; lia.
    + subst src. rewrite !length_app, length_replicate. lia.
Qed.

Lemma take_memcpy (acc lits out : bytes) :
  take (length acc) out = acc →
  take (length (acc ++ lits))
    (take (length acc) out ++ lits ++ drop (length acc + length lits) out) = acc ++ lits.
Proof.
  intros ->. rewrite app_assoc. apply take_app_length.
Qed.

#[local] Arguments ext_len : simpl never.

(** State after decoding a prefix of the block whose expansion is [acc]. *)
Definition lz_at (pre acc : bytes) (osz : Z) (st : lz_state) : Prop :=
  lz_ip st = len pre ∧ lz_op st = len acc ∧ len (lz_out st) = osz ∧
  take (length acc) (lz_out st) = acc.

Lemma lz_literals_encoded w src pre acc lits m post osz st :
  src = pre ++ lz_token (length lits) m :: len_ext (length lits) ++ lits ++ post →
  lz_at pre acc osz st → len acc + len lits <= osz → osz < 2 ^ w →
  ∃ st', lz_literals w src osz st = Ok (lz_token (length lits) m, st') ∧
    lz_at (pre ++ lz_token (length lits) m :: len_ext (length lits) ++ lits) (acc ++ lits) osz st'.
Proof.
  intros Hsrc (Hip & Hop & Hout & Hacc) Hsz Hw. destruct st as [ip op out]; simpl in *. subst ip op.
  rewrite (rd_at src pre _ _ (len pre) Hsrc eq_refl). bind_simpl. rewrite token_literals.
  set (tok := lz_token _ _) in *.
  pose proof (ext_opt_encoded w src (pre ++ [tok]) (length lits) 0 (lits ++ post) (osz - len acc)
    #"star_decompress: literal overflow") as Hext.
  rewrite !Z.add_0_r, len_app in Hext. change (len [tok]) with 1 in Hext.
  rewrite Hext; clear Hext; [| by rewrite Hsrc, <- app_assoc | lia | unfold len in *; lia |
    pose proof (len_nonneg acc); lia]. bind_simpl.
  set (ip := len pre + 1 + len (len_ext (length lits))).
  assert (ip = len ((pre ++ [tok]) ++ len_ext (length lits))) as Hipe
    by (unfold ip; rewrite !len_app; done).
  assert (len src = ip + len lits + len post) as Hls.
  { rewrite Hsrc, Hipe, !len_app. unfold len. simpl. rewrite !length_app. lia. }
  pose proof (len_nonneg post). fold (len lits).
  destruct (Z.ltb_spec osz (len acc + len lits)); [lia|].
  destruct (Z.ltb_spec (len src) (ip + len lits)); [lia|]. bind_simpl.
  erewrite (slice_at src ((pre ++ [tok]) ++ len_ext (length lits)) lits post);
    [| by rewrite Hsrc, <- !app_assoc | done | lia]. bind_simpl.
  unfold memcpy. destruct (Z.leb_spec 0 (len acc)); [|pose proof (len_nonneg acc); lia].
  destruct (Z.leb_spec (len acc + len lits) (len out)); [|lia]. bind_simpl.
  rewrite to_nat_len. eexists. split; [reflexivity|]. split_and!; simpl.
  - rewrite Hipe. rewrite !len_app. unfold len; simpl; rewrite length_app. lia.
  - by rewrite len_app.
  - unfold len in *. rewrite !length_app, length_take, length_drop. lia.
  - by apply take_memcpy.
Qed.

Lemma le_bytes_2 off :
  Z.of_nat off < 65536 →
  ∃ o0 o1, le_bytes 2 (Z.of_nat off) = [o0; o1] ∧
    Z.lor (b2z o0) (Z.shiftl (b2z o1) 8) = Z.of_nat off.
Proof.
  intros H. do 2 eexists. split; [reflexivity|].
  rewrite lor_shiftl_add by (try apply b2z_range; lia).
  pose proof (le_val_le_bytes 2 (Z.of_nat off)) as Hv. simpl in Hv.
  rewrite (Z.mod_small (Z.of_nat off)) in Hv by lia. lia.
Qed.

Lemma lz_match_encoded w src pre acc a off n post osz st :
  src = pre ++ le_bytes 2 (Z.of_nat off) ++ len_ext (n - 4) ++ post →
  lz_at pre acc osz st → (1 <= off <= length acc)%nat → Z.of_nat off < 65536 → (4 <= n)%nat →
  len acc + Z.of_nat n <= osz → osz < 2 ^ w →
  ∃ st', lz_match w src osz (lz_token a (n - 4)) st = Ok st' ∧
    lz_at (pre ++ le_bytes 2 (Z.of_nat off) ++ len_ext (n - 4)) (copy_back n off acc) osz st'.
Proof.
  intros Hsrc (Hip & Hop & Hout & Hacc) Hoff Hoff2 Hn Hsz Hw.
  destruct st as [ip op out]; cbn [lz_ip lz_op lz_out] in *. subst ip op.
  destruct (le_bytes_2 off Hoff2) as (o0 & o1 & Ho & Hv). rewrite Ho in *. unfold lz_match.
  set (ext := len_ext (n - 4)) in *.
  assert (len src = len pre + 2 + len ext + len post) as Hls
    by (rewrite Hsrc, !len_app; unfold len; simpl; lia).
  pose proof (len_nonneg post). pose proof (len_nonneg ext). pose proof (len_nonneg acc).
  destruct (Z.ltb_spec (len src) (len pre + 2)); [lia|]. bind_simpl.
  rewrite (rd_at src pre o0 (o1 :: ext ++ post) (len pre) Hsrc eq_refl). bind_simpl.
  rewrite (rd_at src (pre ++ [o0]) o1 (ext ++ post));
    [| by rewrite Hsrc, <- app_assoc | by rewrite len_app ]. bind_simpl. rewrite Hv.
  destruct (Z.eqb_spec (Z.of_nat off) 0); [lia|]. bind_simpl. rewrite token_match.
  replace (len pre + 2) with (len (pre ++ [o0; o1])) by (rewrite len_app; done).
  rewrite (ext_opt_encoded w src _ (n - 4) 4 post); [| by rewrite Hsrc, <- app_assoc | lia..].
  bind_simpl. fold ext. replace (Z.of_nat (n - 4) + 4) with (Z.of_nat n) by lia.
  destruct (Z.ltb_spec osz (len acc + Z.of_nat n)); [lia|]. bind_simpl.
  destruct (Z.ltb_spec (len acc - Z.of_nat off) 0); [unfold len in *; lia|]. bind_simpl.
  rewrite Nat2Z.id.
  destruct (copy_match_copy_back n off acc out Hoff) as (out' & -> & Hl & Ht);
    [unfold len in *; lia | done |]. bind_simpl.
  eexists. split; [reflexivity|]. split_and!; simpl.
  - rewrite !len_app. unfold len; simpl; lia.
  - unfold len. rewrite length_copy_back. lia.
  - unfold len in *. lia.
  - by rewrite length_copy_back.
Qed.

Lemma lz_run_encoded w pre acc seqs last osz st fuel :
  let src := pre ++ concat (encode_seq <$> seqs) ++ encode_last last in
  lz_at pre acc osz st → seqs_ok acc seqs → len (lz_expand acc seqs last) <= osz →
  osz < 2 ^ w → (length seqs < fuel)%nat →
  ∃ st', lz_run fuel w src osz st = Ok st' ∧
    lz_at src (lz_expand acc seqs last) osz st'.
Proof.
  revert pre acc st fuel. induction seqs as [|s seqs IH];
    intros pre acc st [|fuel] src Hat Hok Hsz Hw Hf; simpl in Hf; try lia; simpl.
  - destruct Hat as (Hip & Hrest) eqn:E; clear E.
    assert (src = pre ++ lz_token (length last) 0 :: len_ext (length last) ++ last ++ []) as Hsrc
      by (unfold src; simpl; by rewrite app_nil_r).
    destruct (Z.ltb_spec (lz_ip st) (len src)) as [_|Hge];
      [|rewrite Hsrc, Hip, len_app in Hge; unfold len in Hge; simpl in Hge; lia].
    unfold lz_expand in *; simpl in *. rewrite len_app in Hsz.
    destruct (lz_literals_encoded w src pre acc last 0 [] osz st) as (st' & Hl & Hat'); [done..|].
    unfold lz_sequence. rewrite Hl. bind_simpl.
    rewrite app_nil_r in Hsrc. rewrite <- Hsrc in Hat'.
    pose proof Hat' as (Hip' & _). rewrite Hip'. destruct (Z.leb_spec (len src) (len src)); [|lia].
    bind_simpl. eauto.
  - destruct Hok as (H1 & H2 & H3 & Hok).
    set (post := concat (encode_seq <$> seqs) ++ encode_last last).
    set (tok := lz_token (length (sq_lits s)) (sq_len s - 4)).
    set (pre1 := pre ++ tok :: len_ext (length (sq_lits s)) ++ sq_lits s).
    set (pre2 := pre1 ++ le_bytes 2 (Z.of_nat (sq_off s)) ++ len_ext (sq_len s - 4)).
    assert (src = pre2 ++ post) as Hsrc2.
    { unfold src, pre2, pre1, post. cbn [fmap list_fmap concat]. unfold encode_seq. fold tok. app_norm. done. }
    assert (src = pre1 ++ le_bytes 2 (Z.of_nat (sq_off s)) ++ len_ext (sq_len s - 4) ++ post) as Hsrc1.
    { rewrite Hsrc2. unfold pre2. app_norm. done. }
    pose proof (length_foldl_apply_seq (apply_seq acc s) seqs) as Hlen.
    rewrite length_apply_seq in Hlen. unfold lz_expand in Hsz; simpl in Hsz.
    unfold len in Hsz. rewrite length_app in Hsz.
    destruct (Z.ltb_spec (lz_ip st) (len src)) as [_|Hge];
      [|destruct Hat as (Hip & _); rewrite Hsrc2, Hip in Hge; unfold pre2, pre1, len in Hge;
        rewrite !length_app in Hge; simpl in Hge; lia].
    destruct (lz_literals_encoded w src pre acc (sq_lits s) (sq_len s - 4)
      (le_bytes 2 (Z.of_nat (sq_off s)) ++ len_ext (sq_len s - 4) ++ post) osz st)
      as (st1 & Hl & Hat1); [rewrite Hsrc1; unfold pre1; app_norm; done | done | unfold len; lia | done |].
    fold tok pre1 in Hl, Hat1. unfold lz_sequence. rewrite Hl. bind_simpl.
    pose proof Hat1 as (Hip1 & _). rewrite Hip1.
    destruct (Z.leb_spec (len src) (len pre1)) as [Hge|_];
      [rewrite Hsrc1, !len_app in Hge; unfold len in Hge; rewrite length_le_bytes in Hge; lia|].
    destruct (lz_match_encoded w src pre1 (acc ++ sq_lits s) (length (sq_lits s)) (sq_off s)
      (sq_len s) post osz st1) as (st2 & Hm & Hat2); [done..| unfold len; rewrite length_app; lia |done|].
    fold tok in Hm. rewrite Hm. bind_simpl. fold pre2 in Hat2. rewrite Hsrc2.
    apply (IH pre2 (apply_seq acc s) st2 fuel); [done..| |done|lia].
    unfold lz_expand, len. rewrite length_app. lia.
Qed.

Lemma le_bytes_4 size :
  0 <= size < 2 ^ 32 →
  ∃ b0 b1 b2 b3, le_bytes 4 size = [b0; b1; b2; b3] ∧
    Z.lor (Z.lor (Z.lor (b2z b0) (Z.shiftl (b2z b1) 8))
             (Z.shiftl (b2z b2) 16)) (Z.shiftl (b2z b3) 24) = size.
Proof.
  intros H. do 4 eexists. split; [reflexivity|].
  pose proof (le_val_le_bytes 4 size) as Hv. simpl in Hv. rewrite (Z.mod_small size) in Hv by lia.
  pose proof (b2z_range (z2b size)). pose proof (b2z_range (z2b (Z.shiftr size 8))).
  pose proof (b2z_range (z2b (Z.shiftr (Z.shiftr size 8) 8))).
  rewrite (lor_shiftl_add _ _ 8), (lor_shiftl_add _ _ 16), (lor_shiftl_add _ _ 24) by lia. lia.
Qed.

Lemma star_decompress_encode w size seqs last :
  seqs_ok [] seqs → len (lz_expand [] seqs last) <= size → size <= STAR_DECOMPRESS_MAX →
  32 <= w → star_decompress w (lz_encode size seqs last) = Ok (lz_expand [] seqs last).
Proof.
  intros Hok Hsz Hmax Hw. pose proof (len_nonneg (lz_expand [] seqs last)).
  unfold STAR_DECOMPRESS_MAX in Hmax. assert (2 ^ 32 <= 2 ^ w) by (apply Z.pow_le_mono_r; lia).
  unfold lz_encode. destruct (le_bytes_4 size) as (b0 & b1 & b2 & b3 & -> & Hv); [lia|].
  set (src := _ ++ _). unfold star_decompress.
  assert (len src = 4 + len (concat (encode_seq <$> seqs) ++ encode_last last)) as Hls
    by (unfold src; rewrite len_app; done).
  pose proof (len_nonneg (concat (encode_seq <$> seqs) ++ encode_last last)).
  destruct (Z.ltb_spec (len src) 4); [lia|]. bind_simpl.
  rewrite (rd_at src [] b0 _ 0 eq_refl eq_refl), (rd_at src [b0] b1 _ 1 eq_refl eq_refl),
    (rd_at src [b0; b1] b2 _ 2 eq_refl eq_refl), (rd_at src [b0; b1; b2] b3 _ 3 eq_refl eq_refl).
  bind_simpl. rewrite Hv. unfold STAR_DECOMPRESS_MAX.
  destruct (Z.ltb_spec (64 * 1024 * 1024) size); [lia|]. bind_simpl.
  destruct (lz_run_encoded w [b0; b1; b2; b3] [] seqs last size
    (LzState 4 0 (replicate (Z.to_nat size) x00)) (S (length src))) as (st & Hrun & Hat);
    [| done | done | lia | | ].
  { split_and!; try done. unfold len. simpl. rewrite length_replicate. lia. }
  { assert (length seqs <= length (concat (encode_seq <$> seqs)))%nat.
    { clear. induction seqs as [|s seqs IH]; cbn [fmap list_fmap concat length]; [lia|].
      rewrite length_app. unfold encode_seq at 1. cbn [length]. lia. }
    unfold src. rewrite !length_app. lia. }
  fold src in Hrun. rewrite Hrun. bind_simpl.
  destruct Hat as (_ & -> & _ & Ht). by rewrite to_nat_len, Ht.
Qed.

(** C1: on every input and for every width of [size_t], [star_decompress]
    terminates without undefined behaviour: each read of the compressed
    input and each read or write of the output buffer is in range, whatever
    the token, length-extension and offset bytes say; when it returns, the
    output holds at most 64 MB. *)
Theorem star_decompress_safe : ∀ w src,
  0 <= w →
  defined (star_decompress w src) ∧
  ∀ out, star_decompress w src = Ok out → len out <= STAR_DECOMPRESS_MAX.
Proof.
  intros w src Hw. pose proof (star_decompress_spec w src Hw) as H.
  split; [by eapply safe_defined | intros out Ho; by apply (safe_post _ _ _ H)].
Qed.

Lemma star_decompress_safe_witness :
  0 <= 32 ∧ defined (star_decompress 32 [x02; x00; x00; x00; xf0; xff; xff; x00]).
Proof. split; [lia|]. apply (star_decompress_safe 32). lia. Defined.

(** C4: [star_decompress] inverts the LZ4 block serialisation: for any list
    of literal/back-reference sequences whose offsets stay inside what was
    already produced, decoding its size-prefixed encoding gives exactly the
    sequences' expansion, overlapping matches and 255-byte length extensions
    included, on 32-bit and wider targets. *)
Theorem star_decompress_roundtrip : ∀ w size seqs last,
  seqs_ok [] seqs →
  len (lz_expand [] seqs last) <= size →
  size <= STAR_DECOMPRESS_MAX →
  32 <= w →
  star_decompress w (lz_encode size seqs last) = Ok (lz_expand [] seqs last).
Proof. apply star_decompress_encode. Qed.

Lemma star_decompress_roundtrip_witness :
  let seqs := [LzSeq #"ab" 2 7; LzSeq [] 9 20] in
  seqs_ok [] seqs ∧
  star_decompress 64 (lz_encode 40 seqs #"!") = Ok (lz_expand [] seqs #"!").
Proof.
  intros seqs. assert (seqs_ok [] seqs) as Hok by (repeat split; simpl; lia).
  split; [exact Hok|]. apply (star_decompress_roundtrip 64); [exact Hok | | | lia].
  - vm_compute; discriminate.
  - vm_compute; discriminate.
Defined.
