(* ===== verification/StarCodec.v ===== *)
(** * StarCodec: section encodings of the .star container

    Models the decoding half of [src/src/engine/star_parser.cc]: the
    little-endian readers, the XOR obfuscation, the FNV-1a hash, the parity
    stream, section decoding and the sub-entry table.  The encoders are those
    of the packer that writes the files, [src/starlight/src/format]. *)

From S2P Require Import Prelude Lz4.

(** ** Constants and records *)

Definition STAR_MAGIC : bytes := #"STAR".
Definition STAR_PARITY_SEED : Z := 0xA7C3E91F.
Definition STAR_STRIDE : Z := 64.
Definition STAR_XOR_KEY : Z := 0x4D.
Definition FLAG_OBFUSCATED : Z := 0x40.
Definition FLAG_COMPRESSED : Z := 0x80.
Definition STAR_FLAG_SIGNED : Z := 0x01.
Definition SEC_METADATA : Z := 0x01.
Definition SEC_BACKEND : Z := 0x02.
Definition SEC_FRONTEND : Z := 0x03.
Definition SEC_WEBKIT : Z := 0x04.
Definition SEC_ASSETS : Z := 0x05.
Definition META_FLAG_DEFERRED : Z := 0x0001.
Definition META_FLAG_REQUIRED : Z := 0x0002.
Definition FORMAT_VERSION : Z := 2.
Definition STAR_HEADER_SIZE : Z := 12.
Definition STAR_ENTRY_SIZE : Z := 256.
Definition MAX_SHIM_SIZE : Z := 4 * 1024 * 1024.
Definition MAX_SECTION_SIZE : Z := 256 * 1024 * 1024.

Record star_section_t := StarSection {
  sec_id : Z;
  sec_encode_flags : Z;
  sec_meta_flags : Z;
  sec_offset : Z;
  sec_length : Z;
  sec_crc32 : Z;
}.

Record star_sub_entry_t := SubEntry { sub_name : bytes; sub_data : bytes }.

#[global] Instance star_sub_entry_eq_dec : EqDecision star_sub_entry_t.
Proof. solve_decision. Defined.

(** ** Integer readers: [p] is the buffer, [i] the offset of the pointer *)

Definition read_u32_le (p : bytes) (i : Z) : outcome Z :=
  b0 ← rd p i;
  b1 ← rd p (i + 1);
  b2 ← rd p (i + 2);
  b3 ← rd p (i + 3);
  Ok (Z.lor (Z.lor (Z.lor (b2z b0) (Z.shiftl (b2z b1) 8))
        (Z.shiftl (b2z b2) 16)) (Z.shiftl (b2z b3) 24)).

Definition read_u16_le (p : bytes) (i : Z) : outcome Z :=
  b0 ← rd p i;
  b1 ← rd p (i + 1);
  Ok (Z.lor (b2z b0) (Z.shiftl (b2z b1) 8)).

Definition read_u64_le (p : bytes) (i : Z) : outcome Z :=
  b0 ← rd p i;
  b1 ← rd p (i + 1);
  b2 ← rd p (i + 2);
  b3 ← rd p (i + 3);
  b4 ← rd p (i + 4);
  b5 ← rd p (i + 5);
  b6 ← rd p (i + 6);
  b7 ← rd p (i + 7);
  Ok (Z.lor (Z.lor (Z.lor (Z.lor (Z.lor (Z.lor (Z.lor (b2z b0) (Z.shiftl (b2z b1) 8))
        (Z.shiftl (b2z b2) 16)) (Z.shiftl (b2z b3) 24)) (Z.shiftl (b2z b4) 32))
        (Z.shiftl (b2z b5) 40)) (Z.shiftl (b2z b6) 48)) (Z.shiftl (b2z b7) 56)).

(** ** Obfuscation and hashing *)

(** [for (i = 0; i < data.size(); ++i) data[i] ^= KEY ^ uint8_t(i & 0xFF)] *)
Definition star_xor_decode (data : bytes) : bytes :=
  imap (λ i b, z2b (Z.lxor (b2z b) (Z.lxor STAR_XOR_KEY (Z.land (Z.of_nat i) 0xFF)))) data.

Definition fnv1a_step (hash byte : Z) : Z := u32 (Z.lxor hash byte * 0x01000193).

Definition fnv1a_hash_bytes (data : bytes) : Z :=
  foldl (λ h b, fnv1a_step h (b2z b)) 0x811c9dc5 data.

Definition fnv1a_u32 (state value : Z) : Z :=
  let state := fnv1a_step state (Z.land value 0xFF) in
  let state := fnv1a_step state (Z.land (Z.shiftr value 8) 0xFF) in
  let state := fnv1a_step state (Z.land (Z.shiftr value 16) 0xFF) in
  fnv1a_step state (Z.land (Z.shiftr value 24) 0xFF).

(** ** The parity stream *)

(** [for (i = pos; i < data_end; ++i) xor_check ^= woven[i]] *)
Definition xor_check (chunk : bytes) : Z := foldl (λ x b, Z.lxor x (b2z b)) 0 chunk.

(** The block loop of [star_strip_parity]. *)
Fixpoint strip_parity_loop (fuel : nat) (woven : bytes) (pos rolling expected_idx : Z)
    (out : bytes) : outcome bytes :=
  match fuel with
  | O => NoFuel
  | S fuel =>
      if pos <? len woven then
        _ ← throw_if (len woven - pos <? 12)
              (#"truncated parity stream at block " ++ dec (Z.to_N expected_idx));
        let data_end := Z.min (pos + STAR_STRIDE) (len woven - 12) in
        stored_xor ← read_u32_le woven data_end;
        stored_roll ← read_u32_le woven (data_end + 4);
        stored_index ← read_u32_le woven (data_end + 8);
        chunk ← slice woven pos data_end;
        let xc := xor_check chunk in
        let expected_roll := fnv1a_u32 rolling xc in
        _ ← throw_if (negb (stored_xor =? xc))
              (#"parity xor mismatch at block " ++ dec (Z.to_N expected_idx));
        _ ← throw_if (negb (stored_roll =? expected_roll))
              (#"parity chain broken at block " ++ dec (Z.to_N expected_idx));
        _ ← throw_if (negb (stored_index =? expected_idx))
              (#"parity block reordered at block " ++ dec (Z.to_N expected_idx));
        strip_parity_loop fuel woven (data_end + 12) expected_roll (u32 (expected_idx + 1))
          (out ++ chunk)
      else Ok out
  end.

Definition star_strip_parity (woven : bytes) : outcome bytes :=
  match woven with
  | [] => Ok []
  | _ => strip_parity_loop (S (length woven)) woven 0 STAR_PARITY_SEED 0 []
  end.

(** The writer, [weave_parity] of the packer: one block per chunk. *)
Definition parity_block (rolling idx : Z) (chunk : bytes) : bytes :=
  chunk ++ le_bytes 4 (xor_check chunk) ++
  le_bytes 4 (fnv1a_u32 rolling (xor_check chunk)) ++ le_bytes 4 idx.

Fixpoint weave_chunks (rolling idx : Z) (chunks : list bytes) : bytes :=
  match chunks with
  | [] => []
  | c :: cs =>
      parity_block rolling idx c ++
      weave_chunks (fnv1a_u32 rolling (xor_check c)) (u32 (idx + 1)) cs
  end.

(** [data.chunks(64)] *)
Fixpoint chunks_of (fuel : nat) (data : bytes) : list bytes :=
  match fuel, data with
  | S fuel, _ :: _ =>
      take (Z.to_nat STAR_STRIDE) data :: chunks_of fuel (drop (Z.to_nat STAR_STRIDE) data)
  | _, _ => []
  end.

Definition weave_parity (data : bytes) : bytes :=
  weave_chunks STAR_PARITY_SEED 0 (chunks_of (length data) data).

(** ** Section decoding *)

(** [std::format("{:02x}", b)] of one byte. *)
Definition hex_digit (n : Z) : byte := z2b (if n <? 10 then 48 + n else 87 + n).
Definition hex02 (b : Z) : bytes := [hex_digit (Z.shiftr b 4); hex_digit (Z.land b 15)].

(** The fields of an entry are 64 bits wide and are cast to [size_t]. *)
Definition star_decode_section `{T : target} (file_data : bytes) (star_start : Z) (sec : star_section_t)
    : outcome bytes :=
  let size := len file_data in
  let name := #"section 0x" ++ hex02 (sec_id sec) in
  if sec_encode_flags sec =? 0 then
    _ ← throw_if ((size <? star_start) || (size - star_start <? usize (sec_offset sec)))
          (name ++ #" out of bounds");
    let abs_start := usize (star_start + usize (sec_offset sec)) in
    _ ← throw_if (usize (size - abs_start) <? usize (sec_length sec)) (name ++ #" out of bounds");
    slice file_data abs_start (abs_start + usize (sec_length sec))
  else
    _ ← throw_if (usize (size - star_start) <? usize (sec_offset sec)) (name ++ #" offset overflow");
    let abs_start := usize (star_start + usize (sec_offset sec)) in
    _ ← throw_if (usize (size - abs_start) <? usize (sec_length sec)) (name ++ #" extends beyond file");
    blob ← slice file_data abs_start (abs_start + usize (sec_length sec));
    let blob := if Z.land (sec_encode_flags sec) FLAG_OBFUSCATED =? 0
                then blob else star_xor_decode blob in
    stripped ← star_strip_parity blob;
    if Z.land (sec_encode_flags sec) FLAG_COMPRESSED =? 0
    then Ok stripped else star_decompress word_bits stripped.

(** ** The sub-entry table *)

(** [for (uint32_t i = 0; i < count; ++i)]; the sum [name_len + data_len] is
    computed in [uint32_t]. *)
Fixpoint sub_entries_loop (fuel : nat) (i count : Z) (data : bytes) (pos : Z)
    (entries : list star_sub_entry_t) : outcome (list star_sub_entry_t) :=
  match fuel with
  | O => NoFuel
  | S fuel =>
      if i <? count then
        let tag := #"sub-entry " ++ dec (Z.to_N i) in
        _ ← throw_if (len data <? pos + 6) (tag ++ #" header truncated");
        name_len ← read_u16_le data pos;
        data_len ← read_u32_le data (pos + 2);
        let pos := pos + 6 in
        _ ← throw_if (len data - pos <? name_len) (tag ++ #" data truncated");
        let after_name := pos + name_len in
        _ ← throw_if (len data - after_name <? data_len) (tag ++ #" data truncated");
        name ← slice data pos (pos + name_len);
        entry_data ← slice data (pos + name_len) (pos + name_len + data_len);
        sub_entries_loop fuel (i + 1) count data (pos + u32 (name_len + data_len))
          (entries ++ [SubEntry name entry_data])
      else Ok entries
  end.

Definition star_parse_sub_entries (data : bytes) : outcome (list star_sub_entry_t) :=
  _ ← throw_if (len data <? 4) #"sub-entry table too short";
  count ← read_u32_le data 0;
  sub_entries_loop (S (length data)) 0 count data 4 [].

(** The packer's [serialize_sub_entries]. *)
Definition serialize_sub_entries (entries : list star_sub_entry_t) : bytes :=
  le_bytes 4 (len entries) ++
  concat ((λ e, le_bytes 2 (len (sub_name e)) ++ le_bytes 4 (len (sub_data e)) ++
                sub_name e ++ sub_data e) <$> entries).

Definition name_is_file (e : star_sub_entry_t) : bool :=
  match last (sub_name e) with
  | None => false
  | Some c => negb (beqb c "/"%byte)
  end.

Definition extract_primary_entry (entries : list star_sub_entry_t) (preferred_name : bytes)
    : bytes :=
  match list_find (λ e, sub_name e = preferred_name) entries with
  | Some (_, e) => sub_data e
  | None =>
      match list_find (λ e, name_is_file e = true) entries with
      | Some (_, e) => sub_data e
      | None => []
      end
  end.

Example strip_weave_example :
  star_strip_parity (weave_parity #"hello, starlight") = Ok #"hello, starlight".
Proof. vm_compute. reflexivity. Qed.

(** ** Readers *)

(** The shifted-or form of the readers is the little-endian value. *)
Lemma le_val_2 b0 b1 : Z.lor (b2z b0) (Z.shiftl (b2z b1) 8) = le_val [b0; b1].
Proof. simpl. rewrite lor_shiftl_add by (try apply b2z_range; lia). lia. Qed.

Lemma le_val_4 b0 b1 b2 b3 :
  Z.lor (Z.lor (Z.lor (b2z b0) (Z.shiftl (b2z b1) 8)) (Z.shiftl (b2z b2) 16))
    (Z.shiftl (b2z b3) 24) = le_val [b0; b1; b2; b3].
Proof.
  pose proof (b2z_range b0). pose proof (b2z_range b1). pose proof (b2z_range b2). simpl.
  rewrite (lor_shiftl_add _ _ 8), (lor_shiftl_add _ _ 16), (lor_shiftl_add _ _ 24) by lia. lia.
Qed.

Lemma le_val_8 b0 b1 b2 b3 b4 b5 b6 b7 :
  Z.lor (Z.lor (Z.lor (Z.lor (Z.lor (Z.lor (Z.lor (b2z b0) (Z.shiftl (b2z b1) 8))
        (Z.shiftl (b2z b2) 16)) (Z.shiftl (b2z b3) 24)) (Z.shiftl (b2z b4) 32))
        (Z.shiftl (b2z b5) 40)) (Z.shiftl (b2z b6) 48)) (Z.shiftl (b2z b7) 56)
  = le_val [b0; b1; b2; b3; b4; b5; b6; b7].
Proof.
  pose proof (b2z_range b0). pose proof (b2z_range b1). pose proof (b2z_range b2).
  pose proof (b2z_range b3). pose proof (b2z_range b4). pose proof (b2z_range b5).
  pose proof (b2z_range b6). simpl.
  rewrite (lor_shiftl_add _ _ 8), (lor_shiftl_add _ _ 16), (lor_shiftl_add _ _ 24),
    (lor_shiftl_add _ _ 32), (lor_shiftl_add _ _ 40), (lor_shiftl_add _ _ 48),
    (lor_shiftl_add _ _ 56) by lia. lia.
Qed.

Lemma safe_read_u32_le p i (Q : Z → Prop) :
  0 <= i → i + 4 <= len p → (∀ v, 0 <= v < 2 ^ 32 → Q v) → safe (read_u32_le p i) Q.
Proof.
  intros H1 H2 HQ. unfold read_u32_le.
  do 4 (eapply safe_bind; [apply (safe_rd _ _ (λ _, True)); [lia|done]|]; intros ? _).
  simpl. rewrite le_val_4. apply HQ. apply (le_val_range [_; _; _; _]).
Qed.

Lemma safe_read_u16_le p i (Q : Z → Prop) :
  0 <= i → i + 2 <= len p → (∀ v, 0 <= v < 2 ^ 16 → Q v) → safe (read_u16_le p i) Q.
Proof.
  intros H1 H2 HQ. unfold read_u16_le.
  do 2 (eapply safe_bind; [apply (safe_rd _ _ (λ _, True)); [lia|done]|]; intros ? _).
  simpl. rewrite le_val_2. apply HQ. apply (le_val_range [_; _]).
Qed.

Lemma safe_read_u64_le p i (Q : Z → Prop) :
  0 <= i → i + 8 <= len p → (∀ v, 0 <= v < 2 ^ 64 → Q v) → safe (read_u64_le p i) Q.
Proof.
  intros H1 H2 HQ. unfold read_u64_le.
  do 8 (eapply safe_bind; [apply (safe_rd _ _ (λ _, True)); [lia|done]|]; intros ? _).
  simpl. rewrite le_val_8. apply HQ. apply (le_val_range [_; _; _; _; _; _; _; _]).
Qed.

Lemma rd_skip pre l i : 0 <= i → rd (pre ++ l) (len pre + i) = rd l i.
Proof.
  intros Hi. unfold rd. rewrite len_app.
  destruct (Z.leb_spec 0 i); [|lia]. pose proof (len_nonneg pre).
  destruct (Z.leb_spec 0 (len pre + i)); [|lia].
  replace (len pre + i <? len pre + len l) with (i <? len l)
    by (destruct (Z.ltb_spec i (len l)), (Z.ltb_spec (len pre + i) (len pre + len l)); lia || done).
  rewrite lookup_app_r by (unfold len; lia).
  by replace (Z.to_nat (len pre + i) - length pre)%nat with (Z.to_nat i) by (unfold len; lia).
Qed.

Lemma read_u32_le_at p pre v rest i :
  p = pre ++ le_bytes 4 v ++ rest → i = len pre → read_u32_le p i = Ok (u32 v).
Proof.
  intros -> ->. unfold read_u32_le. rewrite !rd_skip by lia.
  rewrite <- (Z.add_0_r (len pre)), rd_skip by lia.
  change (le_bytes 4 v ++ rest) with
    (z2b v :: z2b (Z.shiftr v 8) :: z2b (Z.shiftr (Z.shiftr v 8) 8) ::
     z2b (Z.shiftr (Z.shiftr (Z.shiftr v 8) 8) 8) :: rest).
  do 4 erewrite rd_lookup by (done || lia).
  bind_simpl. rewrite le_val_4. f_equal. apply (le_val_le_bytes 4).
Qed.

Lemma read_u16_le_at p pre v rest i :
  p = pre ++ le_bytes 2 v ++ rest → i = len pre → read_u16_le p i = Ok (u16 v).
Proof.
  intros -> ->. unfold read_u16_le. rewrite !rd_skip by lia.
  rewrite <- (Z.add_0_r (len pre)), rd_skip by lia.
  change (le_bytes 2 v ++ rest) with (z2b v :: z2b (Z.shiftr v 8) :: rest).
  do 2 erewrite rd_lookup by (done || lia).
  bind_simpl. rewrite le_val_2. f_equal. apply (le_val_le_bytes 2).
Qed.

(** ** Parity stream: which streams are accepted *)

(** Every chunk but the last is full. *)
Fixpoint chunks_ok (cs : list bytes) : Prop :=
  match cs with
  | [] => True
  | [c] => len c <= STAR_STRIDE
  | c :: cs => len c = STAR_STRIDE ∧ chunks_ok cs
  end.

Lemma chunks_ok_tail c cs : chunks_ok (c :: cs) → chunks_ok cs.
Proof. destruct cs; [done|]. by intros [_ H]. Qed.

Lemma chunks_ok_head c cs : chunks_ok (c :: cs) → len c <= STAR_STRIDE.
Proof. destruct cs; [done|]. intros [H _]. lia. Qed.

Lemma len_parity_block r i c : len (parity_block r i c) = len c + 12.
Proof. unfold parity_block. rewrite !len_app. unfold len. rewrite !length_le_bytes. lia. Qed.

Lemma strip_parity_safe fuel woven pos r i out :
  0 <= pos <= len woven → len woven - pos < Z.of_nat fuel →
  safe (strip_parity_loop fuel woven pos r i out) (λ _, True).
Proof.
  revert pos r i out. induction fuel as [|fuel IH]; intros pos r i out Hp Hf; simpl in *; [lia|].
  destruct (Z.ltb_spec pos (len woven)); [|done].
  eapply safe_bind; [apply (safe_throw_if _ _ (λ _, 12 <= len woven - pos));
    intros; bool_to_prop; lia|]. cbv beta. intros _ H12.
  set (de := Z.min _ _). assert (pos <= de <= len woven - 12) by (unfold de, STAR_STRIDE; lia).
  do 3 (eapply safe_bind; [apply (safe_read_u32_le _ _ (λ _, True)); [lia..|done]|]; intros ? _).
  eapply safe_bind; [by apply (safe_slice _ _ _ (λ _, True)); [lia..|]|]. intros chunk _.
  do 3 (eapply safe_bind; [by apply (safe_throw_if _ _ (λ _, True))|]; intros ? _).
  apply IH; lia.
Qed.

Lemma xor_check_range c : 0 <= xor_check c < 256.
Proof.
  unfold xor_check. assert (∀ x, 0 <= x < 256 → 0 <= foldl (λ x b, Z.lxor x (b2z b)) x c < 256) as H.
  { induction c as [|b c IH]; intros x Hx; simpl; [done|]. apply IH.
    apply (lxor_range _ _ 8); [done|done|apply b2z_range]. }
  apply H. lia.
Qed.

Lemma fnv1a_u32_range r v : 0 <= fnv1a_u32 r v < 2 ^ 32.
Proof. apply u32_range. Qed.

Lemma u32_succ_range i : 0 <= u32 (i + 1) < 2 ^ 32.
Proof. apply u32_range. Qed.

(** Woven streams are accepted and give back their chunks. *)
Lemma strip_weave_chunks fuel pre r i cs out :
  chunks_ok cs → 0 <= i < 2 ^ 32 → (length cs < fuel)%nat →
  strip_parity_loop fuel (pre ++ weave_chunks r i cs) (len pre) r i out = Ok (out ++ concat cs).
Proof.
  revert fuel pre r i out. induction cs as [|c cs IH]; intros [|fuel] pre r i out Hok Hi Hf;
    cbn [length] in Hf; try lia; cbn [strip_parity_loop].
  { rewrite !app_nil_r. destruct (Z.ltb_spec (len pre) (len pre)); [lia|]. done. }
  cbn [weave_chunks concat]. set (r' := fnv1a_u32 r (xor_check c)).
  set (rest := weave_chunks r' (u32 (i + 1)) cs). set (w := pre ++ _).
  assert (len w = len pre + len c + 12 + len rest) as Hlw
    by (unfold w; rewrite !len_app, len_parity_block; lia).
  pose proof (len_nonneg rest). pose proof (len_nonneg c). pose proof (chunks_ok_head _ _ Hok) as Hc64.
  destruct (Z.ltb_spec (len pre) (len w)); [|lia].
  destruct (Z.ltb_spec (len w - len pre) 12); [lia|]. bind_simpl.
  assert (Z.min (len pre + STAR_STRIDE) (len w - 12) = len pre + len c) as ->.
  { destruct cs as [|c' cs']; unfold STAR_STRIDE in *.
    - unfold rest in *. simpl in *. change (len (@nil byte)) with 0 in *. lia.
    - destruct Hok as [Hc _]. unfold STAR_STRIDE in Hc. lia. }
  assert (w = (pre ++ c) ++ le_bytes 4 (xor_check c) ++ le_bytes 4 r' ++ le_bytes 4 i ++ rest) as Hw
    by (unfold w, parity_block; app_norm; done).
  rewrite (read_u32_le_at _ (pre ++ c) (xor_check c) _ (len pre + len c) Hw) by (by rewrite len_app).
  bind_simpl.
  rewrite (read_u32_le_at w ((pre ++ c) ++ le_bytes 4 (xor_check c)) r' (le_bytes 4 i ++ rest)
    (len pre + len c + 4)); [| rewrite Hw; app_norm; done | by rewrite !len_app]. bind_simpl.
  rewrite (read_u32_le_at w ((pre ++ c) ++ le_bytes 4 (xor_check c) ++ le_bytes 4 r') i rest
    (len pre + len c + 8)); [| rewrite Hw; app_norm; done | rewrite !len_app; unfold len; rewrite !length_le_bytes; lia].
  bind_simpl. rewrite (slice_at w pre c (le_bytes 4 (xor_check c) ++ le_bytes 4 r' ++ le_bytes 4 i ++ rest));
    [| rewrite Hw; app_norm; done | done | done]. bind_simpl.
  pose proof (xor_check_range c). pose proof (fnv1a_u32_range r (xor_check c)).
  rewrite (u32_id (xor_check c)), (u32_id r'), (u32_id i) by (unfold r'; lia). fold r'. rewrite !Z.eqb_refl. bind_simpl. cbn [negb].
  bind_simpl.
  replace (len pre + len c + 12) with (len (pre ++ parity_block r i c))
    by (rewrite len_app, len_parity_block; lia).
  unfold w. rewrite app_assoc. unfold rest. rewrite IH; [by rewrite <- app_assoc | |apply u32_range|lia].
  by eapply chunks_ok_tail.
Qed.

Lemma read_u32_le_inv p i v :
  read_u32_le p i = Ok v →
  0 <= i ∧ i + 4 <= len p ∧ take 4 (drop (Z.to_nat i) p) = le_bytes 4 v ∧ 0 <= v < 2 ^ 32.
Proof.
  unfold read_u32_le. intros H. inv_ok.
  repeat match goal with H : rd _ _ = Ok _ |- _ => apply rd_inv in H as [? ?] end.
  rewrite le_val_4 in H. subst v. split; [lia|]. split; [lia|].
  split; [|apply (le_val_range [_; _; _; _])].
  etransitivity; [|symmetry; apply (le_bytes_le_val [x; x0; x1; x2])].
  set (n := Z.to_nat i) in *.
  assert (p !! S n = Some x0) as E1 by (rewrite <- H5; f_equal; lia).
  assert (p !! S (S n) = Some x1) as E2 by (rewrite <- H3; f_equal; lia).
  assert (p !! S (S (S n)) = Some x2) as E3 by (rewrite <- H1; f_equal; lia).
  rewrite (drop_S p x n), (drop_S _ _ _ E1), (drop_S _ _ _ E2), (drop_S _ _ _ E3); done.
Qed.

Lemma take_drop_split (p : bytes) a b :
  0 <= a <= b → b <= len p →
  drop (Z.to_nat a) p = take (Z.to_nat (b - a)) (drop (Z.to_nat a) p) ++ drop (Z.to_nat b) p.
Proof.
  intros H1 H2. rewrite <- (take_drop (Z.to_nat (b - a)) (drop (Z.to_nat a) p)) at 1.
  rewrite drop_drop. do 2 f_equal. lia.
Qed.

(** Conversely an accepted stream is a woven one. *)
Lemma strip_parity_sound fuel woven pos r i out res :
  0 <= pos <= len woven → 0 <= i < 2 ^ 32 →
  strip_parity_loop fuel woven pos r i out = Ok res →
  ∃ cs, chunks_ok cs ∧ drop (Z.to_nat pos) woven = weave_chunks r i cs ∧ res = out ++ concat cs.
Proof.
  revert pos r i out. induction fuel as [|fuel IH]; intros pos r i out Hp Hi H;
    cbn [strip_parity_loop] in H; [done|].
  destruct (Z.ltb_spec pos (len woven)); cycle 1.
  { injection H as <-. exists []. split; [done|]. split; [|by rewrite app_nil_r].
    apply drop_ge. unfold len in *. lia. }
  inv_ok. bool_to_prop. set (de := Z.min _ _) in *.
  assert (pos <= de <= len woven - 12) as Hde by (unfold de, STAR_STRIDE; lia).
  repeat match goal with H : negb _ = false |- _ => apply negb_false_iff, Z.eqb_eq in H end.
  apply read_u32_le_inv in Hx0 as (_ & _ & Hb0 & _), Hx1 as (_ & _ & Hb1 & _), Hx2 as (_ & _ & Hb2 & _).
  apply slice_inv in Hx3 as (_ & _ & Hc). subst x0 x1 x2.
  assert (drop (Z.to_nat pos) woven = parity_block r i x3 ++ drop (Z.to_nat (de + 12)) woven) as Hblk.
  { rewrite (take_drop_split woven pos de), (take_drop_split woven de (de + 4)),
      (take_drop_split woven (de + 4) (de + 8)), (take_drop_split woven (de + 8) (de + 12)) by lia.
    replace (Z.to_nat (de + 4 - de)) with 4%nat by lia.
    replace (Z.to_nat (de + 8 - (de + 4))) with 4%nat by lia.
    replace (Z.to_nat (de + 12 - (de + 8))) with 4%nat by lia.
    rewrite Hb0, Hb1, Hb2, <- Hc. unfold parity_block. app_norm. done. }
  apply IH in H as (cs & Hok & Hd & ->); [|lia|apply u32_range].
  exists (x3 :: cs). split; [|split].
  - assert (len x3 = de - pos) as Hlc by (rewrite Hc; apply len_take_drop; lia).
    destruct cs as [|c cs]; [simpl; unfold de, STAR_STRIDE in *; lia|]. split; [|done].
    assert (12 <= len (drop (Z.to_nat (de + 12)) woven)) as Hl.
    { rewrite Hd. simpl. rewrite len_app, len_parity_block.
      pose proof (len_nonneg c). pose proof (len_nonneg (weave_chunks (fnv1a_u32
        (fnv1a_u32 r (xor_check x3)) (xor_check c)) (u32 (u32 (i + 1) + 1)) cs)). lia. }
    unfold len in Hl. rewrite length_drop in Hl. unfold de, STAR_STRIDE, len in *. lia.
  - cbn [weave_chunks]. by rewrite Hblk, Hd.
  - cbn [concat]. by rewrite app_assoc.
Qed.

(** Acceptance of the whole stream, both ways. *)
Lemma star_strip_parity_iff woven data :
  star_strip_parity woven = Ok data ↔
  ∃ cs, chunks_ok cs ∧ woven = weave_chunks STAR_PARITY_SEED 0 cs ∧ data = concat cs.
Proof.
  split.
  - destruct woven as [|b w]; [intros [= <-]; by exists []|]. intros H.
    apply (strip_parity_sound _ (b :: w) 0) in H as (cs & H1 & H2 & H3);
      [|unfold len; simpl; lia|lia]. exists cs. split; [done|]. by split.
  - intros (cs & Hok & -> & ->).
    destruct (weave_chunks STAR_PARITY_SEED 0 cs) as [|b w] eqn:E.
    { destruct cs as [|c cs]; [done|]. apply (f_equal len) in E. cbn [weave_chunks] in E.
      rewrite len_app, len_parity_block in E. pose proof (len_nonneg c). change (len (@nil byte)) with 0 in E.
      match type of E with context [len (weave_chunks ?a ?b ?d)] =>
        pose proof (len_nonneg (weave_chunks a b d)) end. lia. }
    unfold star_strip_parity. rewrite <- E.
    apply (strip_weave_chunks _ [] _ _ cs []); [done|lia|].
    assert (∀ r i, length cs <= length (weave_chunks r i cs))%nat as Hl.
    { clear. induction cs as [|c cs IH]; intros r i; cbn [weave_chunks length]; [lia|].
      rewrite length_app. specialize (IH (fnv1a_u32 r (xor_check c)) (u32 (i + 1))).
      pose proof (len_parity_block r i c). unfold len in *. lia. }
    specialize (Hl STAR_PARITY_SEED 0). lia.
Qed.

Lemma chunks_of_ok fuel data :
  (length data <= fuel)%nat → chunks_ok (chunks_of fuel data) ∧ concat (chunks_of fuel data) = data.
Proof.
  revert data. induction fuel as [|fuel IH]; intros [|b data] Hf; try (simpl in *; done || lia).
  remember (b :: data) as d eqn:Hd. assert (0 < length d)%nat by (subst; simpl; lia).
  assert (chunks_of (S fuel) d = take 64 d :: chunks_of fuel (drop 64 d)) as -> by (subst; done).
  destruct (IH (drop 64 d)) as [H1 H2]; [rewrite length_drop; lia|].
  split; [|cbn [concat]; by rewrite H2, take_drop].
  destruct (chunks_of fuel (drop 64 d)) as [|c cs] eqn:E.
  - simpl. unfold len, STAR_STRIDE. rewrite length_take. lia.
  - split; [|done]. unfold len, STAR_STRIDE. rewrite length_take.
    destruct (decide (64 <= length d)%nat); [lia|].
    rewrite drop_ge in E by lia. by destruct fuel.
Qed.

(** ** Single-byte corruption of a woven stream *)

Lemma xor_check_foldl x c :
  foldl (λ x b, Z.lxor x (b2z b)) x c = Z.lxor x (xor_check c).
Proof.
  unfold xor_check. revert x. induction c as [|b c IH]; intros x; cbn [foldl].
  - by rewrite Z.lxor_0_r.
  - rewrite IH, (IH (Z.lxor 0 (b2z b))). by rewrite Z.lxor_0_l, Z.lxor_assoc.
Qed.

Lemma xor_check_cons b c : xor_check (b :: c) = Z.lxor (b2z b) (xor_check c).
Proof. unfold xor_check at 1. cbn [foldl]. by rewrite xor_check_foldl, Z.lxor_0_l. Qed.

(** Changing one byte of a chunk changes its XOR. *)
Lemma xor_check_insert c j b :
  xor_check (<[j := b]> c) = xor_check c → <[j := b]> c = c.
Proof.
  revert j. induction c as [|x c IH]; intros [|j]; simpl; try done; rewrite !xor_check_cons; intros H.
  - apply (f_equal (λ z, Z.lxor z (xor_check c))) in H.
    rewrite !Z.lxor_assoc, Z.lxor_nilpotent, !Z.lxor_0_r in H. apply b2z_inj in H. by subst.
  - f_equal. apply IH.
    apply (f_equal (Z.lxor (b2z x))) in H. by rewrite <- !Z.lxor_assoc, Z.lxor_nilpotent in H.
Qed.

Lemma le_bytes_4_inj a b : 0 <= a < 2 ^ 32 → 0 <= b < 2 ^ 32 → le_bytes 4 a = le_bytes 4 b → a = b.
Proof.
  intros Ha Hb H. apply (f_equal le_val) in H. rewrite !le_val_le_bytes in H.
  by rewrite !Z.mod_small in H.
Qed.

(** A block that differs from a written block in at most one byte, and is
    itself a written block of the same length, is that block. *)
Lemma parity_block_insert r i c c' j b :
  parity_block r i c' = <[j := b]> (parity_block r i c) → length c' = length c → c' = c.
Proof.
  intros H Hl. unfold parity_block in H.
  destruct (decide (j < length c)%nat) as [Hj|Hj].
  - rewrite insert_app_l in H by done.
    apply app_inj_1 in H as [Hc Hp]; [|by rewrite length_insert].
    apply app_inj_1 in Hp as [Hx _]; [|by rewrite !length_le_bytes].
    pose proof (xor_check_range c). pose proof (xor_check_range c').
    apply le_bytes_4_inj in Hx; [|lia..]. subst c'. by apply xor_check_insert in Hx as ->.
  - rewrite insert_app_r_alt in H by lia. by apply app_inj_1 in H as [-> _].
Qed.

Lemma weave_chunks_insert r i cs cs' j b :
  map length cs = map length cs' →
  weave_chunks r i cs' = <[j := b]> (weave_chunks r i cs) → cs' = cs.
Proof.
  revert r i cs' j. induction cs as [|c cs IH]; intros r i [|c' cs'] j Hl H; try done.
  cbn [map] in Hl. injection Hl as Hc Hcs. cbn [weave_chunks] in H.
  assert (length (parity_block r i c') = length (parity_block r i c)) as Hb
    by (pose proof (len_parity_block r i c); pose proof (len_parity_block r i c'); unfold len in *; lia).
  destruct (decide (j < length (parity_block r i c))%nat) as [Hj|Hj].
  - rewrite insert_app_l in H by done.
    apply app_inj_1 in H as [Hblk Hrest]; [|by rewrite length_insert].
    apply parity_block_insert in Hblk as ->; [|done].
    f_equal. apply (IH (fnv1a_u32 r (xor_check c)) (u32 (i + 1)) cs' (length (weave_chunks (fnv1a_u32 r (xor_check c)) (u32 (i + 1)) cs))); [done|].
    rewrite list_insert_ge by lia. done.
  - rewrite insert_app_r_alt in H by lia.
    apply app_inj_1 in H as [Hblk Hrest]; [|done].
    assert (c' = c) as ->.
    { apply (parity_block_insert r i c c' (length (parity_block r i c)) x00); [|done].
      by rewrite list_insert_ge by lia. }
    f_equal. by eapply IH.
Qed.

(** The chunk lengths of a stream depend on its length only. *)
Lemma chunks_ok_shape r r' i i' cs cs' :
  chunks_ok cs → chunks_ok cs' →
  length (weave_chunks r i cs) = length (weave_chunks r' i' cs') →
  map length cs = map length cs'.
Proof.
  revert r r' i i' cs'. induction cs as [|c cs IH]; intros r r' i i' [|c' cs'] Hok Hok' Hl;
    cbn [weave_chunks map length] in *; rewrite ?length_app in Hl;
    try (pose proof (len_parity_block r i c)); try (pose proof (len_parity_block r' i' c'));
    unfold len in *; try lia; [done|].
  pose proof (chunks_ok_tail _ _ Hok) as Ht. pose proof (chunks_ok_tail _ _ Hok') as Ht'.
  assert (length c = length c') as Hc.
  { pose proof (chunks_ok_head _ _ Hok). pose proof (chunks_ok_head _ _ Hok').
    unfold STAR_STRIDE, len in *.
    destruct cs as [|d ds], cs' as [|d' ds']; cbn [weave_chunks length chunks_ok] in *;
      rewrite ?length_app in Hl; unfold STAR_STRIDE, len in *;
      try (pose proof (len_parity_block (fnv1a_u32 r (xor_check c)) (u32 (i + 1)) d));
      try (pose proof (len_parity_block (fnv1a_u32 r' (xor_check c')) (u32 (i' + 1)) d'));
      unfold len in *; lia. }
  f_equal; [done|]. apply (IH (fnv1a_u32 r (xor_check c)) (fnv1a_u32 r' (xor_check c'))
    (u32 (i + 1)) (u32 (i' + 1))); [done..|]. lia.
Qed.

Lemma strip_parity_defined woven : defined (star_strip_parity woven).
Proof.
  unfold star_strip_parity. destruct woven as [|b w]; [apply Ok_defined|].
  eapply safe_defined, strip_parity_safe; unfold len; simpl; lia.
Qed.

Lemma strip_parity_corrupted data j b :
  <[j := b]> (weave_parity data) ≠ weave_parity data →
  ∃ what, star_strip_parity (<[j := b]> (weave_parity data)) = Throw what.
Proof.
  intros Hne. destruct (strip_parity_defined (<[j := b]> (weave_parity data))) as [Hu Hn].
  destruct (star_strip_parity _) as [d|what| |] eqn:E; [|by eauto|done|done]. exfalso.
  apply star_strip_parity_iff in E as (cs' & Hok' & Hw & _).
  destruct (chunks_of_ok (length data) data) as [Hok _]; [done|]. unfold weave_parity in *.
  set (cs := chunks_of (length data) data) in *.
  assert (cs' = cs) as ->; [|by apply Hne; rewrite Hw].
  eapply weave_chunks_insert; [|symmetry; exact Hw].
  eapply chunks_ok_shape; [done..|]. by rewrite <- Hw, length_insert.
Qed.

(** ** Obfuscation is an involution *)

Lemma star_xor_decode_involutive data : star_xor_decode (star_xor_decode data) = data.
Proof.
  apply list_eq. intros i. unfold star_xor_decode. rewrite !list_lookup_imap.
  destruct (data !! i) as [b|]; [|done]. simpl. f_equal.
  set (k := Z.lxor STAR_XOR_KEY (Z.land (Z.of_nat i) 255)).
  assert (0 <= k < 2 ^ 8).
  { apply lxor_range; [lia|unfold STAR_XOR_KEY; lia|].
    change 255 with (Z.ones 8). rewrite Z.land_ones by lia. apply Z.mod_pos_bound. lia. }
  rewrite b2z_z2b, Z.mod_small by (apply (lxor_range _ _ 8); [lia|apply b2z_range|done]).
  by rewrite Z.lxor_assoc, Z.lxor_nilpotent, Z.lxor_0_r, z2b_b2z.
Qed.

Lemma length_star_xor_decode data : length (star_xor_decode data) = length data.
Proof. apply length_imap. Qed.

(** ** Section decoding *)

(** What a section's on-disk bytes mean under its encode flags. *)
Definition decode_blob `{T : target} (flags : Z) (blob : bytes) : outcome bytes :=
  if flags =? 0 then Ok blob
  else
    stripped ← star_strip_parity
                 (if Z.land flags FLAG_OBFUSCATED =? 0 then blob else star_xor_decode blob);
    if Z.land flags FLAG_COMPRESSED =? 0 then Ok stripped else star_decompress word_bits stripped.

Lemma decode_blob_defined `{T : target} flags blob : defined (decode_blob flags blob).
Proof.
  unfold decode_blob. destruct (flags =? 0); [apply Ok_defined|].
  apply bind_defined; [apply strip_parity_defined|]. intros d _.
  destruct (Z.land flags FLAG_COMPRESSED =? 0); [apply Ok_defined|].
  eapply safe_defined, star_decompress_spec. pose proof word_bits_ge. lia.
Qed.

(** The ranges the fields of a section entry have by their C++ types, and the
    largest buffer a [std::vector] can be. *)
Definition section_wf (sec : star_section_t) : Prop :=
  0 <= sec_offset sec < 2 ^ 64 ∧ 0 <= sec_length sec < 2 ^ 64.
Definition buffer_wf `{T : target} (data : bytes) : Prop := len data < 2 ^ (word_bits - 1).

(** Where the code looks for a section: its fields as [size_t]. *)
Definition section_start `{T : target} (star_start : Z) (sec : star_section_t) : Z := star_start + usize (sec_offset sec).
Definition section_end `{T : target} (star_start : Z) (sec : star_section_t) : Z := section_start star_start sec + usize (sec_length sec).
Definition section_in_file `{T : target} (file_data : bytes) (star_start : Z) (sec : star_section_t) : bool :=
  section_end star_start sec <=? len file_data.

(** Inside the buffer a section decodes to the meaning of its bytes; outside
    of it decoding throws. *)
Lemma star_decode_section_cases `{T : target} file_data star_start sec :
  buffer_wf file_data → 0 <= star_start <= len file_data →
  if section_in_file file_data star_start sec
  then ∃ blob,
    slice file_data (section_start star_start sec) (section_end star_start sec) = Ok blob ∧
    star_decode_section file_data star_start sec = decode_blob (sec_encode_flags sec) blob
  else ∃ what, star_decode_section file_data star_start sec = Throw what.
Proof.
  unfold buffer_wf, section_in_file, section_end, section_start. intros Hb Hs.
  pose proof word_size as [Hw1 Hw2].
  pose proof (usize_range (sec_offset sec)) as Ho. pose proof (usize_range (sec_length sec)) as Hl.
  unfold star_decode_section, decode_blob. set (off := usize (sec_offset sec)) in *. set (ln := usize (sec_length sec)) in *.
  rewrite (usize_id (len file_data - star_start)) by lia.
  destruct (Z.ltb_spec (len file_data) star_start); [lia|]. cbn [orb].
  destruct (Z.ltb_spec (len file_data - star_start) off).
  { destruct (Z.leb_spec (star_start + off + ln) (len file_data)); [lia|].
    destruct (sec_encode_flags sec =? 0); bind_simpl; eauto. }
  rewrite (usize_id (star_start + off)) by lia.
  rewrite (usize_id (len file_data - (star_start + off))) by lia.
  destruct (Z.ltb_spec (len file_data - (star_start + off)) ln).
  { destruct (Z.leb_spec (star_start + off + ln) (len file_data)); [lia|].
    destruct (sec_encode_flags sec =? 0); bind_simpl; eauto. }
  destruct (Z.leb_spec (star_start + off + ln) (len file_data)); [|lia].
  rewrite slice_Ok by lia. eexists. split; [done|].
  destruct (sec_encode_flags sec =? 0); bind_simpl; done.
Qed.

Lemma star_decode_section_defined `{T : target} file_data star_start sec :
  buffer_wf file_data → 0 <= star_start <= len file_data →
  defined (star_decode_section file_data star_start sec).
Proof.
  intros Hb Hs. pose proof (star_decode_section_cases _ _ sec Hb Hs) as H.
  destruct (section_in_file _ _ _).
  - destruct H as (blob & _ & ->). apply decode_blob_defined.
  - destruct H as (what & ->). apply Throw_defined.
Qed.

(** The packer's [encode_section], given the compressor's output. *)
Definition encode_section (compressed : bytes) : bytes := star_xor_decode (weave_parity compressed).

Lemma strip_weave data : star_strip_parity (weave_parity data) = Ok data.
Proof.
  apply star_strip_parity_iff. destruct (chunks_of_ok (length data) data) as [H1 H2]; [done|].
  exists (chunks_of (length data) data). by rewrite H2.
Qed.

Lemma decode_blob_encode_section `{T : target} compressed :
  decode_blob (Z.lor FLAG_OBFUSCATED FLAG_COMPRESSED) (encode_section compressed)
  = star_decompress word_bits compressed.
Proof.
  unfold decode_blob, encode_section.
  change (Z.lor FLAG_OBFUSCATED FLAG_COMPRESSED =? 0) with false.
  change (Z.land (Z.lor FLAG_OBFUSCATED FLAG_COMPRESSED) FLAG_OBFUSCATED =? 0) with false.
  change (Z.land (Z.lor FLAG_OBFUSCATED FLAG_COMPRESSED) FLAG_COMPRESSED =? 0) with false.
  cbv iota. by rewrite star_xor_decode_involutive, strip_weave.
Qed.

(** ** The sub-entry table *)

Lemma u32_le z : 0 <= z → 0 <= u32 z <= z.
Proof. intros H. unfold u32. split; [apply Z.mod_pos_bound; lia | apply Z.mod_le; lia]. Qed.

Lemma sub_entries_safe fuel i count data pos es :
  0 <= pos <= len data → len data - pos < Z.of_nat fuel →
  safe (sub_entries_loop fuel i count data pos es) (λ _, True).
Proof.
  revert i pos es. induction fuel as [|fuel IH]; intros i pos es Hp Hf; cbn [sub_entries_loop];
    [simpl in Hf; lia|].
  destruct (i <? count); [|done].
  eapply safe_bind; [apply (safe_throw_if _ _ (λ _, pos + 6 <= len data));
    intros; bool_to_prop; lia|]. cbv beta. intros _ H6.
  eapply safe_bind; [apply (safe_read_u16_le _ _ (λ v, 0 <= v)); [lia..|]; intros; lia|].
  cbv beta. intros nl Hnl.
  eapply safe_bind; [apply (safe_read_u32_le _ _ (λ v, 0 <= v)); [lia..|]; intros; lia|].
  cbv beta. intros dl Hdl.
  eapply safe_bind; [apply (safe_throw_if _ _ (λ _, nl <= len data - (pos + 6)));
    intros; bool_to_prop; lia|]. cbv beta. intros _ H1.
  eapply safe_bind; [apply (safe_throw_if _ _ (λ _, dl <= len data - (pos + 6 + nl)));
    intros; bool_to_prop; lia|]. cbv beta. intros _ H2.
  do 2 (eapply safe_bind; [by apply (safe_slice _ _ _ (λ _, True)); [lia..|]|]; intros ? _).
  pose proof (u32_le (nl + dl) ltac:(lia)). apply IH; lia.
Qed.

Lemma parse_sub_entries_defined data : defined (star_parse_sub_entries data).
Proof.
  eapply (safe_defined _ (λ _, True)). unfold star_parse_sub_entries.
  eapply safe_bind; [apply (safe_throw_if _ _ (λ _, 4 <= len data)); intros; bool_to_prop; lia|].
  cbv beta. intros _ H4.
  eapply safe_bind; [apply (safe_read_u32_le _ _ (λ _, True)); [lia..|done]|]. intros c _.
  apply sub_entries_safe; unfold len in *; lia.
Qed.

Definition sub_entry_wf (e : star_sub_entry_t) : Prop :=
  len (sub_name e) < 2 ^ 16 ∧ len (sub_name e) + len (sub_data e) < 2 ^ 32.

Definition serialize_sub_entry (e : star_sub_entry_t) : bytes :=
  le_bytes 2 (len (sub_name e)) ++ le_bytes 4 (len (sub_data e)) ++ sub_name e ++ sub_data e.

Lemma u16_id z : 0 <= z < 2 ^ 16 → u16 z = z.
Proof. apply Z.mod_small. Qed.

Lemma sub_entries_roundtrip fuel i count pre es acc :
  Forall sub_entry_wf es → i + len es = count → (length es < fuel)%nat →
  sub_entries_loop fuel i count (pre ++ concat (serialize_sub_entry <$> es)) (len pre) acc
  = Ok (acc ++ es).
Proof.
  revert fuel i pre acc. induction es as [|e es IH]; intros [|fuel] i pre acc Hwf Hc Hf;
    cbn [length] in Hf; try lia; cbn [sub_entries_loop].
  { destruct (Z.ltb_spec i count); [unfold len in Hc; simpl in Hc; lia|]. by rewrite app_nil_r. }
  apply Forall_cons in Hwf as [[He1 He2] Hwf].
  destruct (Z.ltb_spec i count); [|unfold len in Hc; simpl in Hc; lia].
  cbn [fmap list_fmap concat]. set (rest := concat _). set (d := pre ++ _).
  pose proof (len_nonneg (sub_name e)). pose proof (len_nonneg (sub_data e)).
  assert (d = pre ++ le_bytes 2 (len (sub_name e)) ++ le_bytes 4 (len (sub_data e)) ++
            sub_name e ++ sub_data e ++ rest) as Hd
    by (unfold d, serialize_sub_entry; app_norm; done).
  assert (len d = len pre + 6 + len (sub_name e) + len (sub_data e) + len rest) as Hld.
  { rewrite Hd, !len_app. unfold len. rewrite !length_le_bytes. lia. }
  pose proof (len_nonneg rest).
  destruct (Z.ltb_spec (len d) (len pre + 6)); [lia|]. bind_simpl.
  rewrite (read_u16_le_at d pre _ _ (len pre) Hd eq_refl). bind_simpl.
  rewrite (read_u32_le_at d (pre ++ le_bytes 2 (len (sub_name e))) (len (sub_data e))
    (sub_name e ++ sub_data e ++ rest) (len pre + 2)); [|rewrite Hd; app_norm; done|by rewrite len_app].
  bind_simpl. rewrite u16_id, (u32_id (len (sub_data e))) by lia.
  destruct (Z.ltb_spec (len d - (len pre + 6)) (len (sub_name e))); [lia|]. bind_simpl.
  destruct (Z.ltb_spec (len d - (len pre + 6 + len (sub_name e))) (len (sub_data e))); [lia|].
  bind_simpl.
  set (pre6 := pre ++ le_bytes 2 (len (sub_name e)) ++ le_bytes 4 (len (sub_data e))).
  assert (len pre6 = len pre + 6) as H6
    by (unfold pre6; rewrite !len_app; unfold len; rewrite !length_le_bytes; lia).
  rewrite (slice_at d pre6 (sub_name e) (sub_data e ++ rest) (len pre + 6) (len pre + 6 + len (sub_name e)));
    [|rewrite Hd; unfold pre6; app_norm; done|lia|lia]. bind_simpl.
  rewrite (slice_at d (pre6 ++ sub_name e) (sub_data e) rest);
    [|rewrite Hd; unfold pre6; app_norm; done|rewrite len_app; lia|rewrite len_app; lia]. bind_simpl.
  rewrite (u32_id (len (sub_name e) + len (sub_data e))) by lia.
  replace (d) with ((pre ++ serialize_sub_entry e) ++ rest) by (unfold d; by rewrite app_assoc).
  replace (len pre + 6 + (len (sub_name e) + len (sub_data e))) with (len (pre ++ serialize_sub_entry e))
    by (unfold serialize_sub_entry; rewrite !len_app; unfold len; rewrite !length_le_bytes; lia).
  rewrite IH; [|done|unfold len in *; simpl in *; lia|lia]. rewrite <- app_assoc. by destruct e.
Qed.

Lemma parse_serialize_sub_entries es :
  Forall sub_entry_wf es → len es < 2 ^ 32 →
  star_parse_sub_entries (serialize_sub_entries es) = Ok es.
Proof.
  intros Hwf Hc. unfold star_parse_sub_entries, serialize_sub_entries.
  fold serialize_sub_entry. set (body := concat _).
  set (d := _ ++ body). pose proof (len_nonneg body). pose proof (len_nonneg es).
  assert (len d = 4 + len body) as Hld by (unfold d; rewrite len_app; done).
  destruct (Z.ltb_spec (len d) 4); [lia|]. bind_simpl.
  rewrite (read_u32_le_at d [] (len es) body 0 eq_refl eq_refl). bind_simpl. rewrite u32_id by lia.
  apply (sub_entries_roundtrip _ 0 _ (le_bytes 4 (len es)) es []); [done|lia|].
  assert (length es <= length body)%nat; [|unfold len in *; lia]. unfold body. clear.
  induction es as [|e es IH]; cbn [fmap list_fmap concat length]; [lia|].
  rewrite length_app. unfold serialize_sub_entry at 1. rewrite !length_app, !length_le_bytes. lia.
Qed.

(** ** Properties *)

(** [star_strip_parity] always finishes without undefined behaviour, and
    the streams it accepts are exactly the woven ones: those written block by
    block (payload, XOR word, chained FNV word, block index) from chunks that
    are all 64 bytes long except possibly the last; what it returns is the
    payload. *)
Theorem star_strip_parity_accepts : ∀ woven,
  defined (star_strip_parity woven) ∧
  ∀ data, star_strip_parity woven = Ok data ↔
    ∃ cs, chunks_ok cs ∧ woven = weave_chunks STAR_PARITY_SEED 0 cs ∧ data = concat cs.
Proof.
  intros woven. split; [apply strip_parity_defined | intros data; apply star_strip_parity_iff].
Qed.

(** Any single-byte corruption of a woven stream, in the payload or in
    the parity words, makes [star_strip_parity] throw. *)
Theorem star_strip_parity_detects_corruption : ∀ data j b,
  (j < length (weave_parity data))%nat →
  weave_parity data !! j ≠ Some b →
  ∃ what, star_strip_parity (<[j := b]> (weave_parity data)) = Throw what.
Proof.
  intros data j b Hj Hne. apply strip_parity_corrupted. intros Heq. apply Hne.
  rewrite <- Heq. by apply list_lookup_insert_eq.
Qed.

Lemma star_strip_parity_detects_corruption_witness :
  ∃ what, star_strip_parity (<[3%nat := x00]> (weave_parity #"abcdef")) = Throw what.
Proof. apply star_strip_parity_detects_corruption; [vm_compute; lia | vm_compute; discriminate]. Defined.



(** On a 32-bit target an entry that names bytes beyond 4 GB is decoded from
    bytes of the file, where a 64-bit one rejects it. *)
Theorem star_section_offset_truncated :
  star_decode_section (T:=target32) #"abcd" 0 (StarSection 3 0 0 (2 ^ 32 + 1) 2 0) = Ok #"bc" ∧
  ∃ what, star_decode_section (T:=target64) #"abcd" 0 (StarSection 3 0 0 (2 ^ 32 + 1) 2 0) = Throw what.
Proof. split; [by vm_compute|]. eexists. vm_compute. reflexivity. Qed.

(** C5: what the packer writes for a section (LZ4 block, parity woven in,
    XOR-obfuscated) decodes to the packed content wherever it sits in the
    file. *)
Theorem star_section_roundtrip (T : target) : ∀ pre post size seqs last id meta crc,
  seqs_ok [] seqs → len (lz_expand [] seqs last) <= size → size <= STAR_DECOMPRESS_MAX →
  let enc := encode_section (lz_encode size seqs last) in
  buffer_wf (pre ++ enc ++ post) →
  star_decode_section (pre ++ enc ++ post) 0
    (StarSection id (Z.lor FLAG_OBFUSCATED FLAG_COMPRESSED) meta (len pre) (len enc) crc)
  = Ok (lz_expand [] seqs last).
Proof.
  intros pre post size seqs last id meta crc Hok Hsz Hmax enc Hbuf.
  set (sec := StarSection _ _ _ _ _ _). pose proof (len_nonneg pre). pose proof (len_nonneg enc).
  pose proof (len_nonneg post). unfold buffer_wf in Hbuf. rewrite !len_app in Hbuf.
  pose proof word_size as [Hw1 Hw2]. pose proof word_bits_ge.
  pose proof (star_decode_section_cases (pre ++ enc ++ post) 0 sec) as Hc.
  unfold section_in_file, section_end, section_start, buffer_wf in Hc. cbn [sec_offset sec_length sec] in Hc.
  rewrite !len_app, !usize_id in Hc by lia. destruct (Z.leb_spec (0 + len pre + len enc) (len pre + (len enc + len post)));
    [|lia]. destruct Hc as (blob & Hs & ->); [lia..|].
  erewrite slice_at in Hs; [|done|lia|lia]. injection Hs as <-.
  unfold enc. cbn [sec_encode_flags sec]. rewrite decode_blob_encode_section.
  apply star_decompress_encode; [done..|lia].
Qed.

Lemma star_section_roundtrip_witness :
  let enc := encode_section (lz_encode 5 [] #"hello") in
  star_decode_section (T:=target32) (#"STAR" ++ enc ++ #"tail") 0
    (StarSection 3 (Z.lor FLAG_OBFUSCATED FLAG_COMPRESSED) 0 4 (len enc) 0) = Ok #"hello".
Proof.
  apply (star_section_roundtrip target32 #"STAR" #"tail" 5 [] #"hello"); [done|..]; vm_compute;
    (discriminate || done).
Defined.

(** Parsing a sub-entry table never has undefined behaviour, and parsing
    the packer's serialisation of a list of named files gives that list
    back, in order. *)
Theorem star_sub_entries_roundtrip : ∀ es,
  (∀ data, defined (star_parse_sub_entries data)) ∧
  (Forall sub_entry_wf es → len es < 2 ^ 32 →
   star_parse_sub_entries (serialize_sub_entries es) = Ok es).
Proof. intros es. split; [apply parse_sub_entries_defined | apply parse_serialize_sub_entries]. Qed.

Lemma star_sub_entries_roundtrip_witness :
  star_parse_sub_entries (serialize_sub_entries [SubEntry #"a.js" #"x"; SubEntry #"d/" []])
  = Ok [SubEntry #"a.js" #"x"; SubEntry #"d/" []].
Proof.
  apply star_sub_entries_roundtrip; [|vm_compute; done].
  repeat constructor; vm_compute; (discriminate || done).
Defined.
