(* ===== verification/Json.v ===== *)
(** * Json: JSON values as the program handles them

    The program manipulates [nlohmann::json] values.  This file fixes the
    value kinds (null, boolean, integer, double, string, array, object with
    its keys in [std::map] order) and the member functions the modelled code
    calls, each with its documented result on every kind of value: which
    calls throw and which are undefined.  Text parsing, printing and MessagePack are
    not here: where the program calls them they are parameters. *)

From Stdlib Require Import SpecFloat.
From S2P Require Import Prelude.

Inductive json : Type :=
  | JNull
  | JBool (b : bool)
  | JInt (z : Z)
  | JFloat (f : spec_float)
  | JStr (s : bytes)
  | JArr (l : list json)
  | JObj (o : list (bytes * json)).

(** Induction through arrays and objects. *)
Section json_ind.
  Context (P : json → Prop)
    (Hnull : P JNull) (Hbool : ∀ b, P (JBool b)) (Hint : ∀ z, P (JInt z))
    (Hfloat : ∀ f, P (JFloat f)) (Hstr : ∀ s, P (JStr s))
    (Harr : ∀ l, Forall P l → P (JArr l))
    (Hobj : ∀ o, Forall (λ kv, P (snd kv)) o → P (JObj o)).

Fixpoint json_nested_ind (j : json) : P j :=
    match j with
    | JNull => Hnull
    | JBool b => Hbool b
    | JInt z => Hint z
    | JFloat f => Hfloat f
    | JStr s => Hstr s
    | JArr l => Harr l ((fix go l : Forall P l :=
        match l with
        | [] => List.Forall_nil _
        | x :: l => List.Forall_cons _ _ _ (json_nested_ind x) (go l)
        end) l)
    | JObj o => Hobj o ((fix go o : Forall (λ kv, P (snd kv)) o :=
        match o with
        | [] => List.Forall_nil _
        | (k, x) :: o => List.Forall_cons _ (k, x) _ (json_nested_ind x) (go o)
        end) o)
    end.
End json_ind.

#[global] Instance spec_float_eq_dec : EqDecision spec_float.
Proof. solve_decision. Defined.

#[global] Instance json_eq_dec : EqDecision json.
Proof.
  refine (fix go (a b : json) {struct a} : Decision (a = b) :=
    match a, b with
    | JNull, JNull => left eq_refl
    | JBool x, JBool y => cast_if (decide (x = y))
    | JInt x, JInt y => cast_if (decide (x = y))
    | JFloat x, JFloat y => cast_if (decide (x = y))
    | JStr x, JStr y => cast_if (decide (x = y))
    | JArr x, JArr y => cast_if (@list_eq_dec _ go x y)
    | JObj x, JObj y => cast_if (@list_eq_dec _ (@prod_eq_dec _ _ _ go) x y)
    | _, _ => right _
    end); abstract congruence.
Defined.

(** ** Objects: association lists in key order *)

Fixpoint obj_get {A} (k : bytes) (o : list (bytes * A)) : option A :=
  match o with
  | [] => None
  | (k', v) :: o => if bytes_eqb k' k then Some v else obj_get k o
  end.

Fixpoint obj_insert {A} (k : bytes) (v : A) (o : list (bytes * A)) : list (bytes * A) :=
  match o with
  | [] => [(k, v)]
  | (k', v') :: o' =>
      if bytes_eqb k' k then (k, v) :: o'
      else if bytes_ltb k k' then (k, v) :: o
      else (k', v') :: obj_insert k v o'
  end.

(** An initializer list [{ {k, v}, ... }]. *)
Definition obj_of {A} (l : list (bytes * A)) : list (bytes * A) :=
  foldl (λ o kv, obj_insert (fst kv) (snd kv) o) [] l.

Lemma obj_get_insert_eq {A} k (v : A) o : obj_get k (obj_insert k v o) = Some v.
Proof.
  induction o as [|[k' v'] o IH]; simpl.
  - by rewrite bytes_eqb_refl.
  - destruct (bytes_eqb k' k) eqn:E; simpl; [by rewrite bytes_eqb_refl|].
    destruct (bytes_ltb k k'); simpl; [by rewrite bytes_eqb_refl|]. by rewrite E.
Qed.

Lemma obj_get_insert_ne {A} k k' (v : A) o :
  k ≠ k' → obj_get k' (obj_insert k v o) = obj_get k' o.
Proof.
  intros Hne. assert (bytes_eqb k k' = false) as E by by apply bytes_eqb_false.
  induction o as [|[k1 v1] o IH]; simpl; [by rewrite E|].
  destruct (bytes_eqb k1 k) eqn:E1; simpl.
  - rewrite E. apply bytes_eqb_true in E1 as ->. by rewrite E.
  - destruct (bytes_ltb k k1); simpl; [by rewrite E|].
    by destruct (bytes_eqb k1 k').
Qed.

Lemma obj_get_insert {A} k k' (v : A) o :
  obj_get k' (obj_insert k v o) = if bytes_eqb k k' then Some v else obj_get k' o.
Proof.
  destruct (bytes_eqb k k') eqn:E.
  - apply bytes_eqb_true in E as ->. apply obj_get_insert_eq.
  - apply bytes_eqb_false in E. by apply obj_get_insert_ne.
Qed.

Lemma obj_get_In {A} k (v : A) o : obj_get k o = Some v → (k, v) ∈ o.
Proof.
  induction o as [|[k' v'] o IH]; simpl; [done|].
  destruct (bytes_eqb k' k) eqn:E.
  - intros [= ->]. apply bytes_eqb_true in E as ->. left.
  - intros H. right. auto.
Qed.

(** ** Value kinds *)

Definition is_object (j : json) : bool := match j with JObj _ => true | _ => false end.
Definition is_array (j : json) : bool := match j with JArr _ => true | _ => false end.
Definition is_string (j : json) : bool := match j with JStr _ => true | _ => false end.
Definition is_null (j : json) : bool := match j with JNull => true | _ => false end.
Definition is_number (j : json) : bool :=
  match j with JInt _ | JFloat _ => true | _ => false end.
Definition is_number_integer (j : json) : bool := match j with JInt _ => true | _ => false end.

Definition jobj (l : list (bytes * json)) : json := JObj (obj_of l).

(** ** Access *)

(** The text of a JSON library exception is not modelled. *)
Definition json_error : bytes := #"json.exception".

Definition jget (k : bytes) (j : json) : option json :=
  match j with JObj o => obj_get k o | _ => None end.

(** [j.contains(k)] *)
Definition contains (k : bytes) (j : json) : bool :=
  match jget k j with Some _ => true | None => false end.

(** [j[k]] on a [const] value: throws on a non-object, undefined on a
    missing key. *)
Definition idx (k : bytes) (j : json) : outcome json :=
  match j with
  | JObj o => match obj_get k o with Some v => Ok v | None => UB end
  | _ => Throw json_error
  end.

(** [j.at(k)] *)
Definition at_ (k : bytes) (j : json) : outcome json :=
  match jget k j with Some v => Ok v | None => Throw json_error end.

(** [j.get<std::string>()] *)
Definition get_string (j : json) : outcome bytes :=
  match j with JStr s => Ok s | _ => Throw json_error end.

(** [j.value(k, def)] with a string or a JSON default. *)
Definition value_string (k def : bytes) (j : json) : outcome bytes :=
  match j with
  | JObj o => match obj_get k o with Some v => get_string v | None => Ok def end
  | _ => Throw json_error
  end.
Definition value_json (k : bytes) (def : json) (j : json) : outcome json :=
  match j with
  | JObj o => match obj_get k o with Some v => Ok v | None => Ok def end
  | _ => Throw json_error
  end.
Definition value_bool (k : bytes) (def : bool) (j : json) : outcome bool :=
  match j with
  | JObj o =>
      match obj_get k o with
      | Some (JBool b) => Ok b
      | Some _ => Throw json_error
      | None => Ok def
      end
  | _ => Throw json_error
  end.

(** The integer part of a double; [None] for NaN and infinities. *)
Definition float_trunc (f : spec_float) : option Z :=
  match f with
  | S754_zero _ => Some 0
  | S754_finite s m e =>
      let v := if 0 <=? e then Z.pos m * 2 ^ e else Z.pos m / 2 ^ (- e) in
      Some (if s then - v else v)
  | _ => None
  end.

(** [j.get<int>()]: integers are truncated to [int]; a double outside the
    range of [int] is undefined. *)
Definition get_int (j : json) : outcome Z :=
  match j with
  | JInt z => Ok (i32 z)
  | JFloat f =>
      match float_trunc f with
      | Some v => if (- 2 ^ 31 <=? v) && (v <? 2 ^ 31) then Ok v else UB
      | None => UB
      end
  | JBool b => Ok (if b then 1 else 0)
  | _ => Throw json_error
  end.

(** [j.value(k, def)] with an [int] default. *)
Definition value_int (k : bytes) (def : Z) (j : json) : outcome Z :=
  match j with
  | JObj o => match obj_get k o with Some v => get_int v | None => Ok def end
  | _ => Throw json_error
  end.

(** [j.get<uint64_t>()] *)
Definition get_u64 (j : json) : outcome Z :=
  match j with
  | JInt z => Ok (u64 z)
  | JFloat f =>
      match float_trunc f with
      | Some v => if (0 <=? v) && (v <? 2 ^ 64) then Ok v else UB
      | None => UB
      end
  | _ => Throw json_error
  end.

(** [j.value(k, def)] with a [uint64_t] default. *)
Definition value_u64 (k : bytes) (def : Z) (j : json) : outcome Z :=
  match j with
  | JObj o => match obj_get k o with Some v => get_u64 v | None => Ok def end
  | _ => Throw json_error
  end.

(** [j[k] = v] on a mutable value: null becomes an object, other non-objects
    throw. *)
Definition set_key (k : bytes) (v : json) (j : json) : outcome json :=
  match j with
  | JObj o => Ok (JObj (obj_insert k v o))
  | JNull => Ok (JObj [(k, v)])
  | _ => Throw json_error
  end.

(** [j.get<bool>()] *)
Definition get_bool (j : json) : outcome bool := match j with JBool b => Ok b | _ => Throw json_error end.
(** [j.empty()] of a value that is neither a string nor a number *)
Definition json_empty (j : json) : bool := match j with JNull | JArr [] | JObj [] => true | _ => false end.

(** Iteration [for (x : j)]: the elements of an array, the values of an
    object, nothing for null, the value itself otherwise. *)
Definition elements (j : json) : list json :=
  match j with
  | JArr l => l
  | JObj o => map snd o
  | JNull => []
  | j => [j]
  end.

Lemma contains_idx k j : contains k j = true → ∃ v, jget k j = Some v ∧ idx k j = Ok v.
Proof.
  unfold contains. destruct j; simpl; try done. destruct (obj_get k o); naive_solver.
Qed.

Lemma contains_idx_defined k j : contains k j = true → defined (idx k j).
Proof. intros (v & _ & ->)%contains_idx. apply Ok_defined. Qed.

Lemma at_defined k j : defined (at_ k j).
Proof. unfold at_. by destruct (jget k j). Qed.
Lemma get_string_defined j : defined (get_string j).
Proof. by destruct j. Qed.
Lemma value_string_defined k d j : defined (value_string k d j).
Proof. destruct j; try done. simpl. destruct (obj_get k o); [apply get_string_defined|done]. Qed.
Lemma value_json_defined k d j : defined (value_json k d j).
Proof. destruct j; try done. simpl. by destruct (obj_get k o). Qed.
Lemma value_bool_defined k d j : defined (value_bool k d j).
Proof. destruct j; try done. simpl. by destruct (obj_get k o) as [[]|]. Qed.
Lemma set_key_defined k v j : defined (set_key k v j).
Proof. by destruct j. Qed.

#[export] Hint Resolve contains_idx_defined at_defined get_string_defined value_string_defined
  value_json_defined value_bool_defined set_key_defined : cxx.

Lemma fueled_get_string j : fueled (get_string j).
Proof. by destruct j. Qed.
Lemma fueled_value_string k d j : fueled (value_string k d j).
Proof. destruct j; try done. cbn. destruct (obj_get k o); [apply fueled_get_string|done]. Qed.
Lemma fueled_value_json k d j : fueled (value_json k d j).
Proof. destruct j; try done. cbn. by destruct (obj_get k o). Qed.
Lemma fueled_idx k j : fueled (idx k j).
Proof. destruct j; try done. cbn. by destruct (obj_get k o). Qed.
Lemma fueled_get_int j : fueled (get_int j).
Proof. unfold get_int. fueled. Qed.
Lemma fueled_value_int k d j : fueled (value_int k d j).
Proof. destruct j; try done. cbn. destruct (obj_get k o); [apply fueled_get_int|done]. Qed.
#[export] Hint Resolve fueled_get_string fueled_value_string fueled_value_json fueled_value_int fueled_idx fueled_get_int : fueled.
