(* ===== verification/Frames.v ===== *)
(** * Frames: length-prefixed messages on sockets and pipes

    The program talks to its plugin processes ([plugin_ipc.h]), to external
    tools ([mep_server.cc]) and to the web helper ([loopback_ipc.cc]) in
    frames: a 32-bit little-endian length and that many bytes of payload.  A
    socket is what the operating system does on it: the successive results of
    [recv] (data in pieces of any size, an interrupted call, an error, the end
    of the stream) and of [send] (how much each call accepts). *)

From S2P Require Import Prelude Json.

(** ** Sockets *)

(** What the next call of [recv] finds: data (of which it takes as much as it
    asked for), [EINTR], or an error.  An empty piece, or nothing any more, is
    the end of the stream. *)
Inductive recv_event := Chunk (l : bytes) | Interrupted | Failed.

(** What the next call of [send] does: accept at most so many bytes, or fail. *)
Inductive send_event := Accepts (k : Z) | SendFailed.

(** [recv_all] of the three files; [retry] is whether [EINTR] is retried,
    which [plugin_ipc.h] does and the other two do not. *)
Fixpoint recv_all (retry : bool) (n : Z) (s : list recv_event) : option (bytes * list recv_event) :=
  if n <=? 0 then Some ([], s) else
  match s with
  | [] | Chunk [] :: _ => None
  | Interrupted :: s => if retry then recv_all retry n s else None
  | Failed :: _ => None
  | Chunk l :: s =>
      if n <? len l then Some (take (Z.to_nat n) l, Chunk (drop (Z.to_nat n) l) :: s)
      else '(r, s) ← recv_all retry (n - len l) s; Some (l ++ r, s)
  end.

(** [send_all]: whether everything was accepted, and the bytes that went out.
    A socket with nothing more to say accepts everything. *)
Fixpoint send_all (b : bytes) (s : list send_event) : bool * bytes * list send_event :=
  match b with
  | [] => (true, [], s)
  | _ :: _ =>
      match s with
      | [] => (true, b, [])
      | SendFailed :: s => (false, [], s)
      | Accepts k :: s =>
          if k <=? 0 then (false, [], s) else
          let n := Z.to_nat (Z.min k (len b)) in
          let '(ok, w, s) := send_all (drop n b) s in (ok, take n b ++ w, s)
      end
  end.

(** ** Frames *)

Definition read_frame (retry : bool) (max : Z) (s : list recv_event) : option (bytes * list recv_event) :=
  '(h, s) ← recv_all retry 4 s;
  let n := le_val h in
  if (n =? 0) || (max <? n) then None else recv_all retry n s.

Definition frame_header (payload : bytes) : bytes := le_bytes 4 (u32 (len payload)).

Definition write_frame (payload : bytes) (s : list send_event) : bool * bytes * list send_event :=
  let '(ok, w, s) := send_all (frame_header payload) s in
  if ok then let '(ok, w', s) := send_all payload s in (ok, w ++ w', s) else (false, w, s).

(** [plugin_ipc::MAX_FRAME_SIZE], [mep::MAX_MESSAGE_SIZE] and the limit of the
    loopback pipe. *)
Definition MAX_FRAME_SIZE : Z := 16 * 1024 * 1024.
Definition MAX_MESSAGE_SIZE : Z := 4 * 1024 * 1024.
Definition LOOPBACK_LIMIT : Z := 8 * 1024 * 1024.

Section messages.
  (** [nlohmann::json::to_msgpack] and [from_msgpack]; [None] is input that is
      not MessagePack. *)
  Variable to_msgpack : json → bytes.
  Variable from_msgpack : bytes → option json.

Definition read_msg (s : list recv_event) : option (json * list recv_event) :=
  '(buf, s) ← read_frame true MAX_FRAME_SIZE s;
  out ← from_msgpack buf;
  Some (out, s).

Definition write_msg (msg : json) (s : list send_event) : bool * bytes * list send_event :=
  write_frame (to_msgpack msg) s.
End messages.

(** ** Streams *)

(** The bytes a socket delivers, and sockets that deliver them: no error, no
    early end, [EINTR] only where it is retried. *)
Definition stream (s : list recv_event) : bytes :=
  concat (map (λ e, match e with Chunk l => l | _ => [] end) s).
Definition delivers (retry : bool) (e : recv_event) : Prop :=
  match e with Chunk l => l ≠ [] | Interrupted => retry = true | Failed => False end.

(** How much a reader can still take from a socket: every byte and every event. *)
Definition event_size (e : recv_event) : nat := match e with Chunk l => S (length l) | _ => 1%nat end.
Fixpoint size (s : list recv_event) : nat := match s with [] => 0%nat | e :: s => (event_size e + size s)%nat end.

Definition frame (payload : bytes) : bytes := frame_header payload ++ payload.
Definition framable (max : Z) (payload : bytes) : Prop := 0 < len payload <= max.

Lemma recv_all_0 retry n s : n <= 0 → recv_all retry n s = Some ([], s).
Proof. intros H. destruct s; cbn [recv_all]; by rewrite (proj2 (Z.leb_le _ _) H). Qed.

(** What [recv_all] returns is the front of the stream, and the rest stays. *)
Lemma recv_all_sound retry s : ∀ n r s', 0 <= n → recv_all retry n s = Some (r, s') →
  len r = n ∧ stream s = r ++ stream s' ∧ (Forall (delivers retry) s → Forall (delivers retry) s') ∧
  (0 < n → (size s' < size s)%nat).
Proof.
  induction s as [|e s IH]; intros n r s' Hn H.
  { cbn in H. destruct (Z.leb_spec n 0); [|done]. simplify_eq. cbn. split_and!; auto; unfold len; cbn; intros; lia. }
  destruct (Z.leb_spec n 0) as [?|?].
  { rewrite recv_all_0 in H by lia. simplify_eq. cbn. split_and!; auto; unfold len; cbn; intros; lia. }
  cbn [recv_all] in H. rewrite (proj2 (Z.leb_gt _ _)) in H by lia.
  destruct e as [[|x l]| |]; try done.
  - destruct (Z.ltb_spec n (len (x :: l))) as [Hlt|Hge].
    + apply (inj Some) in H. injection H as <- <-. unfold len in *. split_and!.
      * rewrite length_take. lia.
      * cbn [stream map concat]. fold (stream s). by rewrite app_assoc, take_drop.
      * intros HF. apply Forall_cons in HF as [_ HF]. constructor; [|done]. cbn.
        intros E%(f_equal length). rewrite length_drop in E. cbn [length] in *. lia.
      * intros _. cbn [size event_size]. rewrite length_drop. cbn [length] in *. lia.
    + apply bind_Some in H as ([r1 s1] & H1 & H). assert (0 <= n - len (x :: l)) as Hn' by lia. destruct (IH _ _ _ Hn' H1) as (L & E & F & Z).
      assert (r = (x :: l) ++ r1) as -> by (by injection H). assert (s' = s1) as -> by (by injection H).
      split_and!.
      * rewrite len_app. lia.
      * cbn [stream map concat]. fold (stream s). rewrite E. by rewrite app_assoc.
      * intros HF. apply Forall_cons in HF as [_ HF]. auto.
      * intros _. destruct (decide (0 < n - len (x :: l))) as [Hp|Hp].
        -- apply Z in Hp. cbn [size event_size]. lia.
        -- assert (Some ([], s) = Some (r1, s1)) as [= _ <-]; [|cbn [size event_size]; lia].
           rewrite <- H1. symmetry. apply recv_all_0. lia.
  - destruct retry; [|done]. apply IH in H as (L & E & F & Z); [|lia]. split_and!; auto.
    + intros HF. apply Forall_cons in HF as [_ HF]. auto.
    + intros Hp. apply Z in Hp. cbn [size event_size]. lia.
Qed.

(** A socket that delivers at least [n] bytes lets [recv_all] return. *)
Lemma recv_all_complete retry s : ∀ n, Forall (delivers retry) s → n <= len (stream s) → ∃ r s', recv_all retry n s = Some (r, s').
Proof.
  induction s as [|e s IH]; intros n HF Hn.
  { exists [], []. apply recv_all_0. done. }
  destruct (Z.leb_spec n 0) as [?|?]; [eexists _, _; by apply recv_all_0|].
  apply Forall_cons in HF as [He HF].
  cbn [recv_all]. rewrite (proj2 (Z.leb_gt _ _)) by lia.
  destruct e as [[|x l]| |]; cbn in He; try done.
  - destruct (Z.ltb_spec n (len (x :: l))); [by eexists _, _|].
    destruct (IH (n - len (x :: l)) HF) as (r & s' & ->); [|by eexists _, _].
    cbn [stream map concat] in Hn. fold (stream s) in Hn. rewrite len_app in Hn. lia.
  - subst retry. by apply IH.
Qed.

Lemma recv_all_take retry n s : Forall (delivers retry) s → 0 <= n <= len (stream s) →
  ∃ s', recv_all retry n s = Some (take (Z.to_nat n) (stream s), s') ∧ stream s' = drop (Z.to_nat n) (stream s) ∧ Forall (delivers retry) s'.
Proof.
  intros HF Hn. destruct (recv_all_complete retry s n HF) as (r & s' & H); [lia|].
  destruct (recv_all_sound _ _ _ _ _ (proj1 Hn) H) as (L & E & F & _). exists s'.
  assert (Z.to_nat n = length r) as -> by (unfold len in L; lia). rewrite H, E, take_app_length, drop_app_length. auto.
Qed.

Lemma frame_header_length p : length (frame_header p) = 4%nat.
Proof. apply length_le_bytes. Qed.
Lemma le_val_header p : len p < 2 ^ 32 → le_val (frame_header p) = len p.
Proof.
  intros H. unfold frame_header. rewrite le_val_le_bytes. pose proof (len_nonneg p).
  rewrite u32_id by lia. apply Z.mod_small. lia.
Qed.

(** A frame at the front of the stream is read back whole, however the
    stream is cut. *)
Lemma read_frame_complete retry max s p rest :
  Forall (delivers retry) s → stream s = frame p ++ rest → framable max p → max < 2 ^ 32 →
  ∃ s', read_frame retry max s = Some (p, s') ∧ stream s' = rest ∧ Forall (delivers retry) s'.
Proof.
  intros HF Hs Hp Hmax. unfold framable in Hp. unfold frame in Hs. pose proof (frame_header_length p) as Hh.
  rewrite <- app_assoc in Hs.
  destruct (recv_all_take retry 4 s HF) as (s1 & E1 & S1 & F1).
  { rewrite Hs, len_app. pose proof (len_nonneg (p ++ rest)). unfold len at 1. lia. }
  change (Z.to_nat 4) with 4%nat in *. rewrite <- Hh in E1, S1. rewrite Hs in E1, S1. rewrite take_app_length in E1. rewrite drop_app_length in S1.
  destruct (recv_all_take retry (len p) s1 F1) as (s2 & E2 & S2 & F2).
  { rewrite S1, len_app. pose proof (len_nonneg rest). lia. }
  rewrite S1, to_nat_len in E2, S2. rewrite take_app_length in E2. rewrite drop_app_length in S2.
  exists s2. split; [|done]. unfold read_frame. rewrite E1. cbn [mbind option_bind]. rewrite le_val_header by lia.
  rewrite (proj2 (Z.eqb_neq _ _)), (proj2 (Z.ltb_ge _ _)) by lia. done.
Qed.

Lemma read_frame_sound retry max s p s' :
  read_frame retry max s = Some (p, s') →
  framable max p ∧ (∃ h, le_val h = len p ∧ stream s = h ++ p ++ stream s') ∧ (size s' < size s)%nat ∧
  (Forall (delivers retry) s → Forall (delivers retry) s').
Proof.
  unfold read_frame. intros ([h s1] & H1 & H)%bind_Some. apply recv_all_sound in H1 as (_ & E1 & F1 & Z1); [|done].
  destruct (orb _ _) eqn:Hb; [done|]. apply orb_false_iff in Hb as [Hz%Z.eqb_neq Hm%Z.ltb_ge].
  pose proof (le_val_range h). apply recv_all_sound in H as (L & E & F & Z); [|lia].
  unfold framable. split_and!; [lia|lia|exists h; split; [done|]|lia|auto].
  rewrite E1, E. done.
Qed.

Lemma send_all_sound b s : ∀ ok w s', send_all b s = (ok, w, s') → (∃ r, b = w ++ r) ∧ (ok = true → w = b).
Proof.
  revert b. induction s as [|e s IH]; intros b ok w s' H.
  { destruct b; cbn in H; simplify_eq; split; auto; by exists []; rewrite ?app_nil_r. }
  destruct b as [|x b]; [cbn in H; simplify_eq; split; auto; by exists []|].
  cbn [send_all] in H. destruct e as [k|]; [|simplify_eq; split; [by eexists|done]].
  destruct (Z.leb_spec k 0); [simplify_eq; split; [by eexists|done]|].
  destruct (send_all _ s) as [[ok' w'] s1] eqn:E.
  apply IH in E as [[r Hr] Hw]. injection H as <- <- <-. split.
  - exists r. rewrite <- app_assoc, <- Hr. by rewrite take_drop.
  - intros ->. rewrite Hw by done. by rewrite take_drop.
Qed.

Lemma write_frame_sound p s ok w s' :
  write_frame p s = (ok, w, s') → (∃ r, frame p = w ++ r) ∧ (ok = true → w = frame p).
Proof.
  unfold write_frame, frame. destruct (send_all (frame_header p) s) as [[ok1 w1] s1] eqn:E1.
  apply send_all_sound in E1 as [[r1 H1] T1]. destruct ok1.
  - rewrite <- T1 by done. destruct (send_all p s1) as [[ok2 w2] s2] eqn:E2. apply send_all_sound in E2 as [[r2 H2] T2].
    intros [= <- <- <-]. split; [|intros ->; by rewrite T2].
    exists r2. rewrite <- app_assoc. f_equal. done.
  - intros [= <- <- <-]. split; [|done]. exists (r1 ++ p). rewrite app_assoc. f_equal. done.
Qed.

Lemma write_frame_idle p : write_frame p [] = (true, frame p, []).
Proof.
  unfold write_frame, frame. destruct (frame_header p) as [|x h] eqn:E; [by apply (f_equal length) in E; rewrite frame_header_length in E|].
  cbn [send_all]. by destruct p.
Qed.

(** Reads frames until one cannot be read. *)
Fixpoint read_frames (retry : bool) (max : Z) (n : nat) (s : list recv_event) : list bytes * option (list recv_event) :=
  match n with
  | O => ([], Some s)
  | S n =>
      match read_frame retry max s with
      | Some (p, s) => let '(ps, r) := read_frames retry max n s in (p :: ps, r)
      | None => ([], None)
      end
  end.

(** Writes payloads until a write fails: how many were written, and the bytes
    that went out. *)
Fixpoint write_frames (ps : list bytes) (o : list send_event) : nat * bytes :=
  match ps with
  | [] => (0%nat, [])
  | p :: ps =>
      let '(ok, w, o) := write_frame p o in
      if ok then let '(n, w') := write_frames ps o in (S n, w ++ w') else (0%nat, w)
  end.
Definition accepts (e : send_event) : Prop := match e with Accepts k => 0 < k | SendFailed => False end.

Lemma send_all_fails b s w s' : send_all b s = (false, w, s') → ∃ r, b = w ++ r ∧ r ≠ [].
Proof.
  revert b w s'. induction s as [|e s IH]; intros b w s' H; [by destruct b|].
  destruct b as [|x b]; [done|]. cbn [send_all] in H. destruct e as [k|]; [|simplify_eq; by eexists].
  destruct (Z.leb_spec k 0); [simplify_eq; by eexists|].
  destruct (send_all _ s) as [[ok' w'] s1] eqn:E. injection H as -> <- <-. apply IH in E as (r & Hr & Hn).
  exists r. by rewrite <- app_assoc, <- Hr, take_drop.
Qed.
Lemma write_frame_fails p s w s' : write_frame p s = (false, w, s') → ∃ r, frame p = w ++ r ∧ r ≠ [] .
Proof.
  unfold write_frame, frame. destruct (send_all (frame_header p) s) as [[[] w1] s1] eqn:E1.
  - apply send_all_sound in E1 as [_ <-]; [|done]. destruct (send_all p s1) as [[ok w2] s2] eqn:E2. intros [= -> <- <-].
    apply send_all_fails in E2 as (r & E & Hr). exists r. by rewrite E, <- app_assoc.
  - intros [= <- <-]. apply send_all_fails in E1 as (r & -> & Hr). exists (r ++ p). rewrite app_assoc. split; [done|]. by destruct r.
Qed.
Lemma send_all_accepted b s : Forall accepts s → (send_all b s).1.1 = true ∧ Forall accepts (send_all b s).2.
Proof.
  intros HF. revert b. induction HF as [|e s He HF IH]; intros [|x b]; try (split; [done|by try constructor]).
  destruct e as [k|]; [|done]. cbn [send_all accepts] in *. rewrite (proj2 (Z.leb_gt _ _)) by lia.
  specialize (IH (drop (Z.to_nat (Z.min k (len (x :: b)))) (x :: b))). by destruct (send_all _ s) as [[ok w] s1].
Qed.
Lemma write_frame_accepted p s : Forall accepts s → (write_frame p s).1.1 = true ∧ Forall accepts (write_frame p s).2.
Proof.
  intros HF. unfold write_frame. destruct (send_all_accepted (frame_header p) s HF) as [H1 H2].
  destruct (send_all _ s) as [[ok w] s1]. cbn in H1, H2. subst ok. destruct (send_all_accepted p s1 H2) as [H3 H4].
  by destruct (send_all p s1) as [[ok w'] s2].
Qed.

(** A frame that is cut short is not read. *)
Lemma read_frame_short retry max s p r : framable max p → max < 2 ^ 32 → stream s ++ r = frame p → r ≠ [] → read_frame retry max s = None.
Proof.
  intros Hp Hmax Hs Hr. unfold framable in Hp. unfold read_frame. destruct (recv_all retry 4 s) as [[h s1]|] eqn:E1; [|done]. cbn [mbind option_bind].
  apply recv_all_sound in E1 as (L1 & S1 & _); [|done]. rewrite S1, <- app_assoc in Hs. unfold frame in Hs.
  apply app_inj_1 in Hs as [-> Hs]; [|rewrite frame_header_length; unfold len in L1; lia]. rewrite le_val_header by lia.
  destruct (_ || _); [done|]. destruct (recv_all retry (len p) s1) as [[q s2]|] eqn:E2; [|done].
  apply recv_all_sound in E2 as (L2 & S2 & _); [|lia]. apply (f_equal len) in Hs. rewrite S2, !len_app in Hs.
  pose proof (len_nonneg (stream s2)). destruct r; [done|]. rewrite len_cons in Hs. pose proof (len_nonneg r). lia.
Qed.

(** C9: What one side writes the other side reads.  However much of a payload
    each call of [send] accepts, and however the stream is cut for the reader
    (and, in the plugin channel, however often a read is interrupted), the
    frames that were written for a list of payloads, none empty or above the
    limit, are read back as exactly those payloads, and what follows them stays
    in the socket.  All of them are written when no call fails; after a failed
    write the frame that was cut short is not read. *)
Theorem frames_roundtrip retry max (ps : list bytes) (o : list send_event) rest s :
  max < 2 ^ 32 → Forall (framable max) ps → Forall (delivers retry) s →
  let '(n, w) := write_frames ps o in
  stream s = w ++ rest →
  (Forall accepts o → n = length ps) ∧
  ∃ s', read_frames retry max n s = (take n ps, Some s') ∧
    if (n <? length ps)%nat then rest = [] → read_frame retry max s' = None else stream s' = rest.
Proof.
  intros Hmax HF. revert o s. induction HF as [|p ps Hp HF IH]; intros o s Hd; [intros Hs; split; [done|by exists s]|].
  cbn [write_frames]. destruct (write_frame p o) as [[[] w1] o1] eqn:Ew.
  - pose proof (write_frame_accepted p o) as Ho. apply write_frame_sound in Ew as Hw. destruct Hw as [_ ->]; [|done]. specialize (IH o1). destruct (write_frames ps o1) as [n w]. intros Hs.
    rewrite <- app_assoc in Hs. destruct (read_frame_complete retry max s p _ Hd Hs Hp Hmax) as (s1 & E & S1 & D1).
    destruct (IH s1 D1 S1) as (Hn & s' & E' & S'). rewrite Ew in Ho. split; [intros Ha; cbn [length]; f_equal; by apply Hn, Ho|].
    exists s'. cbn [read_frames]. rewrite E, E'. split; [done|exact S'].
  - apply write_frame_fails in Ew as Hf. destruct Hf as (r & Hf & Hr). intros Hs. split.
    + intros Ha. apply (write_frame_accepted p) in Ha as [Ha _]. by rewrite Ew in Ha.
    + exists s. split; [done|]. intros ->. rewrite app_nil_r in Hs. apply (read_frame_short retry max s p r); try done. by rewrite Hs.
Qed.

(** Short writes and cut reads; and a connection that fails within the second
    frame. *)
Lemma frames_roundtrip_witness :
  (let s := [Chunk [x05]; Interrupted; Chunk ([x00; x00; x00] ++ #"he"); Chunk (#"llo" ++ [x01; x00]); Chunk [x00; x00; x21; x07]] in
   (Forall accepts [Accepts 3; Accepts 1; Accepts 2] → 2%nat = 2%nat) ∧
   ∃ s', read_frames true MAX_FRAME_SIZE 2 s = ([ #"hello"; [x21] ], Some s') ∧ stream s' = [x07]) ∧
  (let s := [Chunk ([x05; x00; x00; x00] ++ #"hello" ++ [x01])] in
   (Forall accepts [Accepts 9; Accepts 9; Accepts 1; SendFailed] → 1%nat = 2%nat) ∧
   ∃ s', read_frames true MAX_FRAME_SIZE 1 s = ([ #"hello" ], Some s') ∧ (([] : bytes) = [] → read_frame true MAX_FRAME_SIZE s' = None)).
Proof.
  split; cbv zeta.
  - apply (frames_roundtrip true MAX_FRAME_SIZE [ #"hello"; [x21] ] [Accepts 3; Accepts 1; Accepts 2] [x07]); repeat constructor; cbv; done.
  - apply (frames_roundtrip true MAX_FRAME_SIZE [ #"hello"; [x21] ] [Accepts 9; Accepts 9; Accepts 1; SendFailed] []); repeat constructor; cbv; done.
Defined.

(** A payload above the limit can be written, and ends the conversation: the
    reader gives up on it without reading it.  The same happens to an empty
    payload. *)
Theorem oversized_frame_refused retry max p s :
  max < len p < 2 ^ 32 ∨ p = [] → Forall (delivers retry) s → stream s = (write_frame p []).1.2 →
  read_frame retry max s = None.
Proof.
  intros Hp Hd Hs. rewrite write_frame_idle in Hs. cbn [fst snd] in Hs. unfold frame in Hs.
  destruct (recv_all_take retry 4 s Hd) as (s1 & E1 & S1 & F1).
  { rewrite Hs, len_app. pose proof (len_nonneg p). unfold len at 1. rewrite frame_header_length. lia. }
  unfold read_frame. rewrite E1. cbn [mbind option_bind]. rewrite Hs.
  change (Z.to_nat 4) with 4%nat. rewrite <- (frame_header_length p), take_app_length.
  destruct Hp as [Hp| ->].
  - rewrite le_val_header, (proj2 (Z.ltb_lt _ _)), orb_true_r by lia. done.
  - done.
Qed.
