(* ===== verification/StarFile.v ===== *)
(** * StarFile: loading .star plugin packages

    Models the loading half of [src/src/engine/star_parser.cc]: the bounded
    reader [star_load_bounded], the signature check [star_is_trusted],
    [parse_star_file], [star_read_javascript] and [star_read_asset_index].
    A file is its contents ([None] when it cannot be opened); the stream has
    a position and a fail bit.  The Ed25519 verifier and the MessagePack
    reader are third-party code and are parameters. *)

From S2P Require Import Prelude Lz4 StarCodec Json.

(** ** [std::ifstream] *)

Record ifstream := Ifs { f_data : bytes; f_pos : Z; f_good : bool }.

Definition f_open (file : bytes) : ifstream := Ifs file 0 true.

(** [f.read(buf, n)]: all [n] bytes or a failed stream. *)
Definition f_read (n : Z) (f : ifstream) : option bytes * ifstream :=
  if f_good f && (0 <=? f_pos f) && (f_pos f + n <=? len (f_data f))
  then (Some (take (Z.to_nat n) (drop (Z.to_nat (f_pos f)) (f_data f))),
        Ifs (f_data f) (f_pos f + n) true)
  else (None, Ifs (f_data f) (len (f_data f)) false).

(** [f.seekg(pos)] and [f.seekg(off, std::ios::cur)]: no effect on a failed
    stream. *)
Definition f_seek (p : Z) (f : ifstream) : ifstream :=
  if f_good f then Ifs (f_data f) p true else f.
Definition f_skip (off : Z) (f : ifstream) : ifstream :=
  if f_good f then Ifs (f_data f) (f_pos f + off) true else f.

(** [static_cast<size_t>(f.tellg())] *)
Definition f_tell `{T : target} (f : ifstream) : Z := usize (if f_good f then f_pos f else -1).

(** ** The bounded load *)

Record star_bounded_t := StarBounded {
  sb_star_start : Z;
  sb_sections : list star_section_t;
  sb_file_data : bytes;
}.

Definition MAX_SECTIONS : Z := 32.

(** The optional shim prefix: where the STAR header starts. *)
Definition star_locate (prefix : bytes) (file_size : Z) : outcome (option Z) :=
  if bytes_eqb prefix STAR_MAGIC then Ok (Some 0)
  else
    shim_len ← read_u32_le prefix 0;
    if (MAX_SHIM_SIZE <? shim_len) || (file_size <? 4 + shim_len) then Ok None
    else Ok (Some (4 + shim_len)).

(** One 256-byte entry of the section table. *)
Definition star_read_entry (tbl : bytes) (i : Z) : outcome star_section_t :=
  let e := i * STAR_ENTRY_SIZE in
  id ← rd tbl e;
  encode_flags ← rd tbl (e + 1);
  meta_flags ← read_u32_le tbl (e + 4);
  offset ← read_u64_le tbl (e + 8);
  length ← read_u64_le tbl (e + 16);
  crc32 ← read_u32_le tbl (e + 24);
  Ok (StarSection (b2z id) (b2z encode_flags) meta_flags offset length crc32).

Definition sec_required (s : star_section_t) : bool :=
  negb (Z.land (sec_meta_flags s) META_FLAG_REQUIRED =? 0).
Definition sec_deferred (s : star_section_t) : bool :=
  negb (Z.land (sec_meta_flags s) META_FLAG_DEFERRED =? 0).
Definition sec_known (s : star_section_t) : bool :=
  (sec_id s =? SEC_METADATA) || (sec_id s =? SEC_BACKEND) || (sec_id s =? SEC_FRONTEND) ||
  (sec_id s =? SEC_WEBKIT) || (sec_id s =? SEC_ASSETS).

(** [const uint64_t end = s.offset + s.length] *)
Definition sec_end (s : star_section_t) : Z := u64 (sec_offset s + sec_length s).

(** The loop over the section table: the sections and the end of the last
    non-deferred one. *)
Fixpoint star_read_table (n : nat) (i : Z) (tbl : bytes) (sections : list star_section_t)
    (max_eager_end : Z) : outcome (option (list star_section_t * Z)) :=
  match n with
  | O => Ok (Some (sections, max_eager_end))
  | S n =>
      s ← star_read_entry tbl i;
      if sec_required s && negb (sec_known s) then Ok None
      else if sec_deferred s then
        star_read_table n (i + 1) tbl (sections ++ [s]) max_eager_end
      else if MAX_SECTION_SIZE <? sec_length s then Ok None
      else star_read_table n (i + 1) tbl (sections ++ [s]) (Z.max (sec_end s) max_eager_end)
  end.

(** The common prefix of the loaders: header checks up to the section table.
    Returns the start of the STAR header, the section count, the table and
    the stream. *)
Definition star_open_table `{T : target} (file : bytes) : outcome (option (Z * Z * bytes * ifstream)) :=
  let file_size := usize (len file) in
  if file_size <? 8 then Ok None else
  let '(prefix, f) := f_read 4 (f_open file) in
  match prefix with
  | None => Ok None
  | Some prefix =>
      loc ← star_locate prefix file_size;
      match loc with
      | None => Ok None
      | Some star_start =>
          let f := f_seek star_start f in
          if file_size <? star_start + STAR_HEADER_SIZE then Ok None else
          let '(hdr, f) := f_read STAR_HEADER_SIZE f in
          match hdr with
          | None => Ok None
          | Some hdr =>
              if negb (bytes_eqb (take 4 hdr) STAR_MAGIC) then Ok None else
              version ← rd hdr 4;
              if negb (b2z version =? FORMAT_VERSION) then Ok None else
              count ← rd hdr 6;
              let section_count := b2z count in
              if MAX_SECTIONS <? section_count then Ok None else
              let table_bytes := section_count * STAR_ENTRY_SIZE in
              if file_size <? star_start + STAR_HEADER_SIZE + table_bytes then Ok None else
              let '(tbl, f) := f_read table_bytes f in
              match tbl with
              | None => Ok None
              | Some tbl => Ok (Some (star_start, section_count, tbl, f))
              end
          end
      end
  end.

(** The vector of the load has a largest size; other failures to allocate are
    left out. *)
Definition star_load_bounded `{T : target} (file : option bytes) : outcome (option star_bounded_t) :=
  match file with
  | None => Ok None
  | Some file =>
      opened ← star_open_table file;
      match opened with
      | None => Ok None
      | Some (star_start, section_count, tbl, f) =>
          table ← star_read_table (Z.to_nat section_count) 0 tbl [] 0;
          match table with
          | None => Ok None
          | Some (sections, max_eager_end) =>
              let read_limit := Z.min (usize (len file)) (usize (usize (star_start + usize max_eager_end) + 64)) in
              _ ← throw_if (2 ^ (word_bits - 1) <=? read_limit) #"cannot create std::vector larger than max_size()";
              let '(file_data, _) := f_read read_limit (f_seek 0 f) in
              match file_data with
              | None => Ok None
              | Some file_data => Ok (Some (StarBounded star_start sections file_data))
              end
          end
      end
  end.

(** ** Plugins *)

Inductive plugin_format := loose_files | star.

Record plugin_t := Plugin {
  plugin_name : bytes;
  plugin_json : json;
  plugin_base_dir : bytes;
  plugin_backend_dir : bytes;
  plugin_frontend_dir : bytes;
  plugin_webkit_path : bytes;
  is_internal : bool;
  format : plugin_format;
  is_trusted : bool;
  has_frontend_js : bool;
  has_webkit_js : bool;
  backend_entry : bytes;
}.

Inductive star_js_section := frontend | webkit.

Record AssetEntry := MkAsset {
  file_offset : Z;
  compressed_length : Z;
  uncompressed_length : Z;
}.

(** [find_section]: the first section with the id. *)
Definition find_section (id : Z) (sections : list star_section_t) : option star_section_t :=
  snd <$> list_find (λ s, sec_id s = id) sections.

(** [find_section(id) != nullptr] *)
Definition has_section (id : Z) (sections : list star_section_t) : bool :=
  match find_section id sections with Some _ => true | None => false end.

(** The signed boundary: the end of the last non-deferred section. *)
Definition eager_end (sections : list star_section_t) : Z :=
  foldl (λ m s, if sec_deferred s then m else if m <? sec_end s then sec_end s else m) 0 sections.

Definition STARLIGHT_PUBLIC_KEY : bytes :=
  z2b <$> [0x5d; 0x59; 0x4a; 0x76; 0x85; 0x70; 0x4c; 0x2d;
           0xea; 0xda; 0x65; 0x95; 0x40; 0xf5; 0x7a; 0x24;
           0xce; 0x5d; 0x65; 0x13; 0xf9; 0x88; 0x30; 0xaa;
           0x37; 0x1f; 0xfb; 0x10; 0x77; 0xf4; 0x69; 0xfb].

Definition SIG_LEN : Z := 64.

Section star_file.
  (** [verify message signature public_key] is the platform's Ed25519
      verification; [from_msgpack] reads one MessagePack value strictly,
      [None] being the discarded value. *)
  Context `{T : target}.
  Context (verify : bytes → bytes → bytes → bool).
  Context (from_msgpack : bytes → option json).

Definition star_is_trusted (star_hdr : Z) (star_start : Z) (sections : list star_section_t)
      (data : bytes) : outcome bool :=
    star_flags ← rd data (star_hdr + 7);
    if Z.land (b2z star_flags) STAR_FLAG_SIGNED =? 0 then Ok false else
    if existsb (λ s, negb (sec_id s =? SEC_ASSETS) && sec_deferred s) sections then Ok false else
    let sig_start := usize (star_start + usize (eager_end sections)) in
    if len data <? usize (sig_start + SIG_LEN) then Ok false else
    message ← slice data 0 sig_start;
    signature ← slice data sig_start (sig_start + SIG_LEN);
    Ok (verify message signature STARLIGHT_PUBLIC_KEY).

Definition required_fields (metadata : json) : bool :=
    match jget #"id" metadata, jget #"name" metadata with
    | Some id, Some name => is_string id && is_string name
    | _, _ => false
    end.

(** The end of [parse_star_file]: the plugin its metadata describes. *)
Definition plugin_of_metadata (star_path : bytes) (sections : list star_section_t) (trusted : bool) (metadata : json)
      : outcome (option plugin_t) :=
    if negb (required_fields metadata) then Ok None else
    id ← (v ← at_ #"id" metadata; get_string v);
    name ← (v ← at_ #"name" metadata; get_string v);
    let has_backend := has_section SEC_BACKEND sections in
    let has_frontend := has_section SEC_FRONTEND sections in
    let has_webkit := has_section SEC_WEBKIT sections in
    description ← value_string #"description" [] metadata;
    author ← value_string #"author" [] metadata;
    version ← value_string #"version" [] metadata;
    source_commit ← value_string #"sourceCommit" [] metadata;
    let pj := jobj [(#"name", JStr id); (#"common_name", JStr name);
      (#"description", JStr description); (#"author", JStr author);
      (#"version", JStr version); (#"sourceCommit", JStr source_commit);
      (#"backendType", JStr #"lua"); (#"useBackend", JBool has_backend);
      (#"trusted", JBool trusted)] in
    entry ← value_string #"entry" [] metadata;
    if has_backend && bytes_eqb entry [] then Ok None else
    Ok (Some (Plugin id pj star_path [] [] [] false star trusted
          has_frontend has_webkit entry)).

Definition parse_star_file (star_path : bytes) (file : option bytes)
      : outcome (option plugin_t) :=
    loaded ← star_load_bounded file;
    match loaded with
    | None => Ok None
    | Some (StarBounded star_start sections file_data) =>
        if len file_data <? usize (star_start + STAR_HEADER_SIZE) then Ok None else
        let star_hdr := star_start in
        trusted ← star_is_trusted star_hdr star_start sections file_data;
        shim_ok ←
          (if 0 <? star_start then
             stored_hash ← read_u32_le file_data (star_hdr + 8);
             shim_len ← read_u32_le file_data 0;
             shim ← slice file_data 4 (4 + shim_len);
             Ok (fnv1a_hash_bytes shim =? stored_hash)
           else Ok true);
        if negb shim_ok then Ok None else
        match find_section SEC_METADATA sections with
        | None => Ok None
        | Some meta_sec =>
            match star_decode_section file_data star_start meta_sec with
            | UB => UB
            | NoFuel => NoFuel
            | Throw _ => Ok None
            | Ok raw =>
                match from_msgpack raw with
                | None => Ok None
                | Some metadata =>
                    plugin_of_metadata star_path sections trusted metadata
                end
            end
        end
    end.

  (** The first section with the wanted id is decoded; a decoding error
      leaves the result empty. *)
Definition star_read_javascript (file : option bytes) (section : star_js_section)
      : outcome bytes :=
    loaded ← star_load_bounded file;
    match loaded with
    | None => Ok []
    | Some (StarBounded star_start sections file_data) =>
        let target_id := match section with frontend => SEC_FRONTEND | webkit => SEC_WEBKIT end in
        match find_section target_id sections with
        | None => Ok []
        | Some sec =>
            try_catch
              (decoded ← star_decode_section file_data star_start sec;
               entries ← star_parse_sub_entries decoded;
               Ok (extract_primary_entry entries #"bundle.js"))
              (λ _, Ok [])
        end
    end.
End star_file.

(** ** The asset index *)

(** The first table entry with the ASSETS id. *)
Fixpoint find_asset_entry (n : nat) (i : Z) (tbl : bytes) : outcome (option Z) :=
  match n with
  | O => Ok None
  | S n =>
      id ← rd tbl (i * STAR_ENTRY_SIZE);
      if b2z id =? SEC_ASSETS then Ok (Some (i * STAR_ENTRY_SIZE))
      else find_asset_entry n (i + 1) tbl
  end.

(** The walk over the sub-entry headers; a failed read ends it. *)
Fixpoint asset_walk `{T : target} (n : nat) (f : ifstream) (result : gmap bytes AssetEntry)
    : outcome (gmap bytes AssetEntry) :=
  match n with
  | O => Ok result
  | S n =>
      let '(sub_hdr, f) := f_read 6 f in
      match sub_hdr with
      | None => Ok result
      | Some sub_hdr =>
          name_len ← read_u16_le sub_hdr 0;
          data_len ← read_u32_le sub_hdr 2;
          let '(name, f) := f_read name_len f in
          match name with
          | None => Ok result
          | Some name =>
              let data_offset := f_tell f in
              '(uncompressed, f) ←
                (if 4 <=? data_len then
                   let '(sz, f) := f_read 4 f in
                   match sz with
                   | None => Ok (0, f)
                   | Some sz => v ← read_u32_le sz 0; Ok (v, f_skip (data_len - 4) f)
                   end
                 else if 0 <? data_len then Ok (0, f_skip data_len f)
                 else Ok (0, f));
              asset_walk n f (<[name := MkAsset data_offset data_len uncompressed]> result)
          end
      end
  end.

Definition star_read_asset_index `{T : target} (file : option bytes) : outcome (gmap bytes AssetEntry) :=
  match file with
  | None => Ok ∅
  | Some file =>
      opened ← star_open_table file;
      match opened with
      | None => Ok ∅
      | Some (star_start, section_count, tbl, f) =>
          let file_size := usize (len file) in
          entry ← find_asset_entry (Z.to_nat section_count) 0 tbl;
          match entry with
          | None => Ok ∅
          | Some e =>
              encode_flags ← rd tbl (e + 1);
              asset_offset ← read_u64_le tbl (e + 8);
              asset_length ← read_u64_le tbl (e + 16);
              if negb (b2z encode_flags =? 0) then Ok ∅ else
              if asset_length =? 0 then Ok ∅ else
              if usize (file_size - star_start) <? usize asset_offset then Ok ∅ else
              let assets_abs_start := usize (star_start + usize asset_offset) in
              if usize (file_size - assets_abs_start) <? usize asset_length then Ok ∅ else
              if file_size <? usize (assets_abs_start + 4) then Ok ∅ else
              let '(count_buf, f) := f_read 4 (f_seek assets_abs_start f) in
              match count_buf with
              | None => Ok ∅
              | Some count_buf =>
                  count ← read_u32_le count_buf 0;
                  if 65536 <? count then Ok ∅ else
                  asset_walk (Z.to_nat count) f ∅
              end
          end
      end
  end.

(** ** Loading is safe, and what it returns *)

Lemma f_read_Some n f r f' :
  f_read n f = (Some r, f') →
  f_good f = true ∧ 0 <= f_pos f ∧ f_pos f + n <= len (f_data f) ∧
  r = take (Z.to_nat n) (drop (Z.to_nat (f_pos f)) (f_data f)) ∧
  f' = Ifs (f_data f) (f_pos f + n) true.
Proof.
  unfold f_read. destruct (f_good f); [|done].
  destruct (Z.leb_spec 0 (f_pos f)), (Z.leb_spec (f_pos f + n) (len (f_data f))); simpl; naive_solver.
Qed.

(** A loaded header: the STAR header and its section table fit in the file,
    and a non-zero start is the length of the shim prefix. *)
Definition opened_wf `{T : target} (file : bytes) (r : option (Z * Z * bytes * ifstream)) : Prop :=
  match r with
  | None => True
  | Some (star_start, count, tbl, f) =>
      0 <= star_start ∧ 0 <= count <= MAX_SECTIONS ∧
      star_start + STAR_HEADER_SIZE + count * STAR_ENTRY_SIZE <= usize (len file) ∧
      len tbl = count * STAR_ENTRY_SIZE ∧ f_data f = file ∧ f_good f = true ∧
      (0 < star_start → read_u32_le file 0 = Ok (star_start - 4))
  end.

Lemma star_locate_safe file prefix size :
  8 <= size → size <= len file → prefix = take 4 file →
  safe (star_locate prefix size) (λ r, match r with
    | None => True
    | Some ss => 0 <= ss <= size ∧ (0 < ss → read_u32_le file 0 = Ok (ss - 4)) end).
Proof.
  intros Hl Hsz ->. unfold star_locate.
  destruct (bytes_eqb (take 4 file) STAR_MAGIC); [simpl; lia|].
  assert (read_u32_le (take 4 file) 0 = read_u32_le file 0) as ->.
  { rewrite <- (take_drop 4 file) at 2. unfold read_u32_le, rd.
    rewrite len_app. assert (len (take 4 file) = 4) as ->
      by (unfold len in *; rewrite length_take; lia).
    pose proof (len_nonneg (drop 4 file)).
    do 4 (rewrite lookup_app_l by (rewrite length_take; unfold len in *; lia)).
    repeat match goal with |- context [?a <? 4 + ?b] =>
      replace (a <? 4 + b) with true by (symmetry; apply Z.ltb_lt; lia) end. done. }
  destruct (read_u32_le file 0) as [v| | |] eqn:E; bind_simpl; try done.
  - apply read_u32_le_inv in E as E'. destruct E' as (_ & _ & _ & Hv).
    destruct (Z.ltb_spec MAX_SHIM_SIZE v), (Z.ltb_spec size (4 + v)); cbn [orb safe]; try done.
    split; [lia|]. intros _. f_equal. lia.
  - assert (safe (read_u32_le file 0) (λ _, True)) as Hs by (apply safe_read_u32_le; [lia..|done]).
    by rewrite E in Hs.
  - assert (safe (read_u32_le file 0) (λ _, True)) as Hs by (apply safe_read_u32_le; [lia..|done]).
    by rewrite E in Hs.
Qed.

Lemma star_open_table_safe `{T : target} file : safe (star_open_table file) (opened_wf file).
Proof.
  unfold star_open_table. pose proof (usize_le (len file) (len_nonneg file)).
  destruct (Z.ltb_spec (usize (len file)) 8); [done|].
  destruct (f_read 4 (f_open file)) as [[prefix|] f] eqn:E1; [|done].
  apply f_read_Some in E1 as (_ & _ & _ & Hpre & ->). simpl in Hpre.
  change (drop (Z.to_nat 0) file) with (drop 0 file) in Hpre. rewrite drop_0 in Hpre.
  eapply safe_bind; [by apply star_locate_safe|]. intros [ss|] Hss; [|done]. destruct Hss as [Hss Hshim].
  destruct (Z.ltb_spec (usize (len file)) (ss + STAR_HEADER_SIZE)); [done|].
  destruct (f_read STAR_HEADER_SIZE _) as [[hdr|] f] eqn:E2; [|done].
  apply f_read_Some in E2 as (_ & _ & _ & Hhdr & ->). simpl in Hhdr. cbn [f_seek f_good f_data f_pos].
  assert (len hdr = 12) as Hlh.
  { rewrite Hhdr. unfold len, STAR_HEADER_SIZE in *. rewrite length_take, length_drop. lia. }
  destruct (negb (bytes_eqb (take 4 hdr) STAR_MAGIC)); [done|].
  eapply safe_bind; [apply (safe_rd _ _ (λ _, True)); [lia|done]|]. intros version _.
  destruct (negb (b2z version =? FORMAT_VERSION)); [done|].
  eapply safe_bind; [apply (safe_rd _ _ (λ _, True)); [lia|done]|]. intros count _.
  destruct (Z.ltb_spec MAX_SECTIONS (b2z count)); [done|]. pose proof (b2z_range count).
  destruct (Z.ltb_spec (usize (len file)) (ss + STAR_HEADER_SIZE + b2z count * STAR_ENTRY_SIZE)); [done|].
  destruct (f_read (b2z count * STAR_ENTRY_SIZE) _) as [[tbl|] f] eqn:E3; [|done].
  apply f_read_Some in E3 as (_ & _ & _ & Htbl & ->). simpl in Htbl.
  unfold opened_wf. cbn [f_data f_good safe]. split_and!; try done; try lia.
  rewrite Htbl. unfold len, STAR_HEADER_SIZE, STAR_ENTRY_SIZE in *. rewrite length_take, length_drop. lia.
Qed.

Lemma star_read_entry_safe tbl i :
  0 <= i → i * STAR_ENTRY_SIZE + STAR_ENTRY_SIZE <= len tbl →
  safe (star_read_entry tbl i) section_wf.
Proof.
  unfold STAR_ENTRY_SIZE. intros Hi Hl. unfold star_read_entry, STAR_ENTRY_SIZE.
  do 2 (eapply safe_bind; [apply (safe_rd _ _ (λ _, True)); [lia|done]|]; intros ? _).
  eapply safe_bind; [apply (safe_read_u32_le _ _ (λ _, True)); [lia..|done]|]. intros ? _.
  eapply safe_bind; [apply (safe_read_u64_le _ _ (λ v, 0 <= v < 2 ^ 64)); [lia..|done]|].
  intros off Hoff.
  eapply safe_bind; [apply (safe_read_u64_le _ _ (λ v, 0 <= v < 2 ^ 64)); [lia..|done]|].
  intros ln Hln.
  eapply safe_bind; [apply (safe_read_u32_le _ _ (λ _, True)); [lia..|done]|]. intros ? _.
  split; [exact Hoff|exact Hln].
Qed.

Lemma eager_end_snoc ss s :
  eager_end (ss ++ [s]) = if sec_deferred s then eager_end ss else Z.max (sec_end s) (eager_end ss).
Proof.
  unfold eager_end. rewrite foldl_app. simpl. destruct (sec_deferred s); [done|].
  set (m := foldl _ _ _). destruct (Z.ltb_spec m (sec_end s)); lia.
Qed.

(** What the section loop guarantees of the table it returns. *)
Definition table_wf (r : option (list star_section_t * Z)) : Prop :=
  match r with
  | None => True
  | Some (ss, e) =>
      Forall section_wf ss ∧ e = eager_end ss ∧
      Forall (λ s, sec_deferred s = false → sec_length s <= MAX_SECTION_SIZE) ss ∧
      Forall (λ s, sec_required s = true → sec_known s = true) ss
  end.

Lemma star_read_table_safe n i tbl ss e :
  0 <= i → (i + Z.of_nat n) * STAR_ENTRY_SIZE <= len tbl → table_wf (Some (ss, e)) →
  safe (star_read_table n i tbl ss e) table_wf.
Proof.
  revert i ss e. induction n as [|n IH]; intros i ss e Hi Hl (Hwf & He & Hlen & Hreq); simpl.
  { done. }
  eapply safe_bind; [apply star_read_entry_safe; [done|unfold STAR_ENTRY_SIZE in *; lia]|].
  intros s Hs. destruct (sec_required s && negb (sec_known s)) eqn:Er; [done|].
  assert (sec_required s = true → sec_known s = true) as Hr
    by (intros H; rewrite H in Er; simpl in Er; by apply negb_false_iff in Er).
  destruct (sec_deferred s) eqn:Ed; [|destruct (Z.ltb_spec MAX_SECTION_SIZE (sec_length s)); [done|]];
    apply IH; try lia; unfold table_wf; rewrite eager_end_snoc, Ed; subst e;
    split_and!; try done; (apply Forall_app; split; [done|]);
    (constructor; [|constructor]); try done; intros; (congruence || lia || auto).
Qed.

(** A bounded load: a prefix of the file that ends 64 bytes after the last
    non-deferred section (in the arithmetic of [size_t]). *)
Definition loaded_wf `{T : target} (file : option bytes) (r : option star_bounded_t) : Prop :=
  match r with
  | None => True
  | Some (StarBounded ss sections data) =>
      ∃ content, file = Some content ∧ 0 <= ss ∧ ss + STAR_HEADER_SIZE <= usize (len content) ∧
        Forall section_wf sections ∧
        Forall (λ s, sec_deferred s = false → sec_length s <= MAX_SECTION_SIZE) sections ∧
        data = take (Z.to_nat (Z.min (usize (len content)) (usize (usize (ss + usize (eager_end sections)) + 64)))) content ∧
        buffer_wf data ∧
        (0 < ss → read_u32_le content 0 = Ok (ss - 4))
  end.

Lemma star_load_bounded_safe `{T : target} file : safe (star_load_bounded file) (loaded_wf file).
Proof.
  destruct file as [content|]; [|done]. unfold star_load_bounded.
  eapply safe_bind; [apply star_open_table_safe|].
  intros [[[[ss count] tbl] f]|]; [|done]. intros (H0 & H1 & H2 & H3 & H4 & H5 & H6).
  unfold STAR_ENTRY_SIZE in *.
  eapply safe_bind; [apply star_read_table_safe; [lia|unfold STAR_ENTRY_SIZE; lia|by repeat split]|].
  intros [[sections e]|]; [|done]. intros (Hwf & -> & Hlen & Hreq).
  set (limit := Z.min _ _). assert (0 <= limit) as Hlim.
  { subst limit. pose proof (usize_range (len content)). pose proof (usize_range (usize (ss + usize (eager_end sections)) + 64)). lia. }
  eapply safe_bind; [apply (safe_throw_if _ _ (λ _, limit < 2 ^ (word_bits - 1))); intros; bool_to_prop; lia|].
  intros u Hmax. cbv beta in Hmax. clear u. unfold f_seek. rewrite H4, H5.
  destruct (f_read _ _) as [[data|] f'] eqn:E; [|done].
  apply f_read_Some in E as (_ & _ & _ & Hd & _). simpl in Hd.
  change (drop (Z.to_nat 0) content) with (drop 0 content) in Hd. rewrite drop_0 in Hd.
  exists content. split_and!; try done; [lia|]. unfold buffer_wf. rewrite Hd. unfold len. rewrite length_take. lia.
Qed.

(** The end of the last non-deferred section and the signature fit in [size_t]. *)
Definition no_wrap `{T : target} (b : star_bounded_t) : Prop :=
  sb_star_start b + eager_end (sb_sections b) + 64 < 2 ^ word_bits.

Lemma eager_end_nonneg ss : 0 <= eager_end ss.
Proof.
  unfold eager_end. assert (∀ m, 0 <= m → 0 <= foldl (λ m s, if sec_deferred s then m
    else if m <? sec_end s then sec_end s else m) m ss) as H; [|by apply H].
  induction ss as [|s ss IH]; intros m Hm; simpl; [done|]. apply IH.
  destruct (sec_deferred s), (Z.ltb_spec m (sec_end s)); lia.
Qed.

Lemma eager_end_ge ss s : s ∈ ss → sec_deferred s = false → sec_end s <= eager_end ss.
Proof.
  induction ss as [|x ss IH] using rev_ind; [by intros H%not_elem_of_nil|].
  rewrite eager_end_snoc. intros Hin Hd. apply elem_of_app in Hin as [Hin|Hin].
  - specialize (IH Hin Hd). destruct (sec_deferred x); lia.
  - apply list_elem_of_singleton in Hin as ->. rewrite Hd. lia.
Qed.

Lemma loaded_size `{T : target} file ss sections data :
  loaded_wf file (Some (StarBounded ss sections data)) → no_wrap (StarBounded ss sections data) →
  ∃ content, file = Some content ∧ data = take (length data) content ∧
    len data = Z.min (usize (len content)) (ss + eager_end sections + 64) ∧ 0 <= ss <= len data ∧ buffer_wf data.
Proof.
  unfold no_wrap; simpl. intros (content & -> & H0 & H1 & _ & _ & Hd & Hb & _) Hnw.
  pose proof (eager_end_nonneg sections). exists content. unfold STAR_HEADER_SIZE in *.
  rewrite (usize_id (eager_end sections)), (usize_id (ss + eager_end sections)), (usize_id (ss + eager_end sections + 64)) in Hd by lia.
  pose proof (usize_le (len content) (len_nonneg content)).
  assert (len data = Z.min (usize (len content)) (ss + eager_end sections + 64)) as Hl.
  { rewrite Hd. unfold len in *. rewrite length_take. lia. }
  split_and!; try done; [|lia..]. rewrite Hd at 1. f_equal. unfold len in *. lia.
Qed.

Lemma find_section_In id ss s : find_section id ss = Some s → s ∈ ss ∧ sec_id s = id.
Proof.
  unfold find_section. destruct (list_find _ ss) as [[i x]|] eqn:E; [|done]. simpl. intros [= ->].
  apply list_find_Some in E as (H1 & H2 & _). split; [|done]. by eapply list_elem_of_lookup_2.
Qed.

Lemma read_u32_le_prefix data content v :
  data = take (length data) content → 4 <= len data →
  read_u32_le content 0 = Ok v → read_u32_le data 0 = Ok v.
Proof.
  intros Hd Hl H. apply read_u32_le_inv in H as (_ & _ & Hb & Hv). simpl in Hb. rewrite drop_0 in Hb.
  assert (data = le_bytes 4 v ++ drop 4 data) as E.
  { rewrite <- (take_drop 4 data) at 1. f_equal. rewrite Hd at 1. rewrite take_take.
    rewrite Nat.min_l by (unfold len in *; lia). done. }
  rewrite (read_u32_le_at data [] v (drop 4 data) 0 E eq_refl). by rewrite u32_id.
Qed.

Section star_safety.
  Context `{T : target}.
  Context (verify : bytes → bytes → bytes → bool).
  Context (from_msgpack : bytes → option json).

Lemma star_is_trusted_safe ss sections data :
    0 <= ss → ss + STAR_HEADER_SIZE <= len data → no_wrap (StarBounded ss sections data) →
    safe (star_is_trusted verify ss ss sections data) (λ t, t = true →
      Forall (λ s, sec_deferred s = true → sec_id s = SEC_ASSETS) sections ∧
      ∃ message signature,
        data = message ++ signature ++ drop (length message + length signature) data ∧
        len message = ss + eager_end sections ∧ len signature = SIG_LEN ∧
        verify message signature STARLIGHT_PUBLIC_KEY = true).
  Proof.
    unfold no_wrap, STAR_HEADER_SIZE; simpl. intros H0 H12 Hnw. pose proof (eager_end_nonneg sections).
    unfold star_is_trusted.
    eapply safe_bind; [apply (safe_rd _ _ (λ _, True)); [lia|done]|]. intros flags _.
    destruct (Z.land (b2z flags) STAR_FLAG_SIGNED =? 0); [done|].
    destruct (existsb _ sections) eqn:Ex; [done|].
    rewrite (usize_id (eager_end sections)), (usize_id (ss + eager_end sections)), usize_id by (unfold SIG_LEN; lia).
    destruct (Z.ltb_spec (len data) (ss + eager_end sections + SIG_LEN)) as [|Hsz]; [done|].
    unfold SIG_LEN in *. set (p := ss + eager_end sections) in *.
    rewrite !slice_Ok by lia. bind_simpl. cbn [safe]. intros Hv. split.
    - apply Forall_forall. intros s Hs Hd.
      destruct (Z.eqb_spec (sec_id s) SEC_ASSETS) as [|Hne]; [done|]. exfalso.
      assert (existsb (λ s, negb (sec_id s =? SEC_ASSETS) && sec_deferred s) sections = true); [|congruence].
      apply existsb_exists. exists s. split; [by apply list_elem_of_In|].
      rewrite Hd, andb_true_r. apply negb_true_iff. by apply Z.eqb_neq.
    - do 2 eexists. split; [|split; [|split; [|exact Hv]]].
      + change (Z.to_nat 0) with 0%nat. rewrite drop_0, Z.sub_0_r.
        rewrite !length_take, length_drop. rewrite Nat.min_l by (unfold len in *; lia).
        rewrite Nat.min_l by (unfold len in *; lia).
        rewrite <- (take_drop (Z.to_nat p) data) at 1. f_equal.
        rewrite <- (take_drop (Z.to_nat (p + 64 - p)) (drop (Z.to_nat p) data)) at 1. f_equal.
        by rewrite drop_drop.
      + rewrite len_take_drop by lia. lia.
      + rewrite len_take_drop by lia. lia.
  Qed.

Lemma parse_star_file_safe path file :
    (∀ b, star_load_bounded file = Ok (Some b) → no_wrap b) →
    safe (parse_star_file verify from_msgpack path file) (λ _, True).
  Proof.
    intros Hnw. unfold parse_star_file.
    pose proof (star_load_bounded_safe file) as Hl.
    destruct (star_load_bounded file) as [[[ss sections data]|]| | |]; bind_simpl; try done.
    specialize (Hnw _ eq_refl). simpl in Hl.
    destruct (loaded_size _ _ _ _ Hl Hnw) as (content & -> & Hpre & Hlen & Hss & Hbuf).
    destruct Hl as (content' & [= <-] & _ & Hhdr & Hwf & _ & _ & _ & Hshim).
    unfold STAR_HEADER_SIZE in *. pose proof (eager_end_nonneg sections). unfold no_wrap in Hnw. cbn [sb_star_start sb_sections] in Hnw.
    rewrite usize_id by lia. destruct (Z.ltb_spec (len data) (ss + 12)); [done|].
    eapply safe_bind; [apply star_is_trusted_safe; unfold STAR_HEADER_SIZE; [lia..|done]|].
    intros trusted _. eapply (safe_bind _ _ (λ _, True)).
    { destruct (Z.ltb_spec 0 ss) as [Hpos|]; [|done].
      eapply safe_bind; [apply (safe_read_u32_le _ _ (λ _, True)); [lia..|done]|]. intros h _.
      pose proof (proj2 (proj2 (proj2 (read_u32_le_inv _ _ _ (Hshim Hpos))))) as Hs4.
      rewrite (read_u32_le_prefix data content (ss - 4)); [|done|lia|auto]. bind_simpl.
      rewrite slice_Ok; [done|lia|lia]. }
    intros ok _. destruct (negb ok); [done|].
    destruct (find_section SEC_METADATA sections) as [sec|] eqn:Ef; [|done].
    apply find_section_In in Ef as [Hin _].
    assert (defined (star_decode_section data ss sec)) as Hdec.
    { by apply star_decode_section_defined. }
    destruct (star_decode_section data ss sec) as [raw| | |]; [|done|by destruct Hdec..].
    destruct (from_msgpack raw) as [m|]; [|done].
    unfold plugin_of_metadata. destruct (negb (required_fields m)); [done|].
    assert (∀ A (x : outcome A), defined x → safe x (λ _, True)) as Hd2
      by (intros A [] []; done).
    do 6 (eapply (safe_bind _ _ (λ _, True));
      [apply Hd2; solve_defined; auto with cxx|intros ? _]).
    eapply (safe_bind _ _ (λ _, True)); [apply Hd2; auto with cxx|]. intros entry _.
    by destruct (_ && _).
  Qed.
End star_safety.

Lemma safe_True {A} (m : outcome A) : defined m → safe m (λ _, True).
Proof. destruct m; intros [? ?]; done. Qed.

Lemma star_read_javascript_safe `{T : target} file section :
  (∀ b, star_load_bounded file = Ok (Some b) → no_wrap b) →
  defined (star_read_javascript file section).
Proof.
  intros Hnw. unfold star_read_javascript.
  pose proof (star_load_bounded_safe file) as Hl.
  destruct (star_load_bounded file) as [[[ss sections data]|]| | |]; bind_simpl; try done.
  specialize (Hnw _ eq_refl). simpl in Hl.
  destruct (loaded_size _ _ _ _ Hl Hnw) as (content & -> & Hpre & Hlen & Hss & Hbuf).
  destruct (find_section _ sections) as [sec|] eqn:Ef; [|done].
  apply try_catch_defined; [|done]. apply bind_defined.
  - by apply star_decode_section_defined.
  - intros decoded _. apply bind_defined; [apply parse_sub_entries_defined|]. done.
Qed.

(** ** The asset index *)

Lemma find_asset_entry_safe n i tbl :
  0 <= i → (i + Z.of_nat n) * STAR_ENTRY_SIZE <= len tbl →
  safe (find_asset_entry n i tbl)
    (λ r, match r with None => True | Some e => 0 <= e ∧ e + STAR_ENTRY_SIZE <= len tbl end).
Proof.
  unfold STAR_ENTRY_SIZE. revert i. induction n as [|n IH]; intros i Hi Hl; simpl; [done|].
  eapply safe_bind; [apply (safe_rd _ _ (λ _, True)); [unfold STAR_ENTRY_SIZE; lia|done]|].
  intros id _. destruct (b2z id =? SEC_ASSETS); [unfold STAR_ENTRY_SIZE; simpl; lia|]. apply IH; lia.
Qed.

Lemma f_read_data n f r f' : f_read n f = (r, f') → f_data f' = f_data f.
Proof. unfold f_read. destruct (_ && _); intros [= _ <-]; done. Qed.

Lemma len_f_read n f r f' : f_read n f = (Some r, f') → 0 <= n → len r = n.
Proof.
  intros (_ & H1 & H2 & -> & _)%f_read_Some Hn.
  replace n with (f_pos f + n - f_pos f) at 1 by lia. rewrite len_take_drop; lia.
Qed.

(** Every entry of the index points into the file. *)
Definition index_wf `{T : target} (size : Z) (m : gmap bytes AssetEntry) : Prop :=
  map_Forall (λ _ e, (0 <= file_offset e <= size ∧ file_offset e < 2 ^ word_bits) ∧ 0 <= compressed_length e < 2 ^ 32 ∧ 0 <= uncompressed_length e < 2 ^ 32) m.

Lemma asset_walk_safe `{T : target} n f m :
  index_wf (len (f_data f)) m → safe (asset_walk n f m) (index_wf (len (f_data f))).
Proof.
  revert f m. induction n as [|n IH]; intros f m Hm; cbn [asset_walk]; [done|].
  destruct (f_read 6 f) as [[h|] f1] eqn:E1; [|done].
  pose proof (len_f_read _ _ _ _ E1 ltac:(lia)) as Hh. apply f_read_Some in E1 as (_ & H1 & _ & _ & ->).
  eapply safe_bind; [apply (safe_read_u16_le _ _ (λ v, 0 <= v)); [lia..|intros; lia]|]. cbv beta. intros nl Hnl.
  eapply safe_bind; [apply (safe_read_u32_le _ _ (λ v, 0 <= v < 2 ^ 32)); [lia..|done]|]. cbv beta. intros dl Hdl.
  destruct (f_read nl _) as [[name|] f2] eqn:E2; [|done].
  apply f_read_Some in E2 as (_ & H2 & H3 & _ & ->). cbn [f_data f_pos f_good] in *.
  eapply (safe_bind _ _ (λ r, f_data (snd r) = f_data f ∧ 0 <= fst r < 2 ^ 32)).
  { destruct (4 <=? dl).
    - destruct (f_read 4 _) as [[sz|] f3] eqn:E3; [|by apply f_read_data in E3].
      pose proof (len_f_read _ _ _ _ E3 ltac:(lia)). apply f_read_Some in E3 as (_ & _ & _ & _ & ->).
      eapply safe_bind; [apply (safe_read_u32_le _ _ (λ v, 0 <= v < 2 ^ 32)); [lia..|done]|]. done.
    - by destruct (0 <? dl). }
  intros [u f3] [Hf3 Hu]. simpl in Hf3, Hu. rewrite <- Hf3. apply IH. rewrite Hf3.
  apply map_Forall_insert_2; [|done]. unfold f_tell. cbn [f_good f_pos file_offset compressed_length uncompressed_length].
  pose proof (usize_range (f_pos f + 6 + nl)). pose proof (usize_le (f_pos f + 6 + nl)). lia.
Qed.

Lemma star_read_asset_index_safe `{T : target} content :
  safe (star_read_asset_index (Some content)) (index_wf (len content)).
Proof.
  unfold star_read_asset_index. pose proof (usize_le (len content) (len_nonneg content)).
  assert (index_wf (len content) ∅) as Hemp by apply map_Forall_empty.
  eapply safe_bind; [apply star_open_table_safe|].
  intros [[[[ss count] tbl] f]|]; [|done]. intros (H0 & H1 & H2 & H3 & H4 & H5 & _).
  unfold STAR_ENTRY_SIZE, STAR_HEADER_SIZE in *.
  eapply safe_bind; [apply find_asset_entry_safe; unfold STAR_ENTRY_SIZE; lia|].
  intros [e|]; [|done]. intros [He1 He2]. unfold STAR_ENTRY_SIZE in *. cbv zeta.
  eapply safe_bind; [apply (safe_rd _ _ (λ _, True)); [lia|done]|]. intros fl _.
  do 2 (eapply safe_bind; [apply (safe_read_u64_le _ _ (λ _, True)); [lia..|done]|]; intros ? _).
  do 5 (case_match; [done|]).
  destruct (f_read 4 _) as [[buf|] f'] eqn:E; [|done].
  pose proof (len_f_read _ _ _ _ E ltac:(lia)).
  apply f_read_Some in E as (_ & _ & _ & _ & ->).
  eapply safe_bind; [apply (safe_read_u32_le _ _ (λ _, True)); [lia..|done]|]. intros cnt _.
  destruct (65536 <? cnt); [done|].
  assert (f_data (f_seek (usize (ss + usize a)) f) = content) as Hf by (unfold f_seek; by destruct (f_good f)).
  rewrite Hf. match goal with |- safe (asset_walk ?n ?g _) _ => by apply (asset_walk_safe n g ∅) end.
Qed.

(** ** Properties *)

(** An unsigned package with one raw metadata section, as the packer lays it
    out: header, section table, section bytes. *)
Definition star_header (flags count : Z) : bytes :=
  STAR_MAGIC ++ (z2b <$> [2; 0; count; flags; 0; 0; 0; 0]).
Definition star_entry (id encode_flags meta offset length : Z) : bytes :=
  [z2b id; z2b encode_flags; x00; x00] ++ le_bytes 4 meta ++ le_bytes 8 offset ++
  le_bytes 8 length ++ le_bytes 4 0 ++ replicate 228 x00.
Definition sample_star (flags : Z) : bytes :=
  star_header flags 1 ++ star_entry 1 0 0 268 2 ++ #"md" ++ replicate 64 x01.


Lemma sample_star_loads :
  star_load_bounded (T:=target32) (Some (sample_star 1))
  = Ok (Some (StarBounded 0 [StarSection 1 0 0 268 2 0] (sample_star 1))).
Proof. vm_compute. reflexivity. Qed.


(** ** What a signature covers *)

Lemma plugin_of_metadata_trusted path sections trusted m plugin :
  plugin_of_metadata path sections trusted m = Ok (Some plugin) → is_trusted plugin = trusted.
Proof.
  unfold plugin_of_metadata. destruct (negb (required_fields m)); [done|]. intros H.
  do 7 (apply bind_Ok in H as (? & _ & H)). destruct (_ && _); [done|]. by injection H as <-.
Qed.

(** What [parse_star_file] found when it returns a plugin. *)
Lemma parse_star_file_inv `{T : target} verify mp path file plugin ss sections data :
  parse_star_file verify mp path file = Ok (Some plugin) →
  star_load_bounded file = Ok (Some (StarBounded ss sections data)) →
  (len data <? usize (ss + STAR_HEADER_SIZE)) = false ∧
  star_is_trusted verify ss ss sections data = Ok (is_trusted plugin) ∧
  ∃ sec raw m, find_section SEC_METADATA sections = Some sec ∧ star_decode_section data ss sec = Ok raw ∧
    mp raw = Some m ∧ plugin_of_metadata path sections (is_trusted plugin) m = Ok (Some plugin).
Proof.
  unfold parse_star_file. intros H Hl. rewrite Hl in H. cbn [mbind outcome_bind] in H.
  destruct (len data <? usize (ss + STAR_HEADER_SIZE)); [done|]. split; [done|].
  apply bind_Ok in H as (t & Ht & H). apply bind_Ok in H as (ok & _ & H). destruct (negb ok); [done|].
  destruct (find_section SEC_METADATA sections) as [sec|]; [|done].
  destruct (star_decode_section data ss sec) as [raw| | |] eqn:Ed; [|done..].
  destruct (mp raw) as [m|] eqn:Em; [|done].
  rewrite (plugin_of_metadata_trusted _ _ _ _ _ H). split; [done|]. by exists sec, raw, m.
Qed.

(** A non-deferred section lies before the end of the last of them, or its
    fields are so large that both targets look for it beyond any buffer. *)
Lemma eager_section_place `{T : target} ss s e :
  section_wf s → sec_length s <= MAX_SECTION_SIZE → sec_end s <= e → 0 <= ss → ss + e + 64 < 2 ^ word_bits →
  section_end ss s <= ss + e ∨ 2 ^ (word_bits - 1) <= section_end ss s.
Proof.
  unfold section_wf, MAX_SECTION_SIZE, section_end, section_start, sec_end. intros [Ho Hl] Hm He Hs Hw.
  pose proof word_size as [Hw1 Hw2].
  destruct (Z.lt_ge_cases (sec_offset s + sec_length s) (2 ^ 64)) as [Hlt|Hge].
  - rewrite u64_id in He by lia. left. rewrite !usize_id by lia. lia.
  - right. rewrite (usize_id (sec_length s)) by lia.
    assert (usize (sec_offset s) = 2 ^ word_bits - (2 ^ 64 - sec_offset s)) as ->; [|lia].
    unfold usize. symmetry.
    destruct word_bits_cases as [E | E]; rewrite E in *.
    + apply (Z.mod_unique _ _ (2 ^ 32 - 1)); lia.
    + apply (Z.mod_unique _ _ 0); lia.
Qed.

(** What a trusted load says: the signed message, and that every content
    section decodes as its bytes in the message do, or throws. *)
Definition signed_prefix `{T : target} (verify : bytes → bytes → bytes → bool) (content : bytes) (ss : Z)
    (sections : list star_section_t) (data message signature rest : bytes) : Prop :=
  content = message ++ signature ++ rest ∧ len message = ss + eager_end sections ∧ len signature = SIG_LEN ∧
  verify message signature STARLIGHT_PUBLIC_KEY = true ∧
  ∀ s, s ∈ sections → sec_id s ≠ SEC_ASSETS →
    if section_end ss s <=? len message
    then ∃ blob, slice message (section_start ss s) (section_end ss s) = Ok blob ∧
                 star_decode_section data ss s = decode_blob (sec_encode_flags s) blob
    else ∃ w, star_decode_section data ss s = Throw w.

Lemma trusted_prefix `{T : target} verify content ss sections data :
  star_load_bounded (Some content) = Ok (Some (StarBounded ss sections data)) →
  no_wrap (StarBounded ss sections data) → (len data <? usize (ss + STAR_HEADER_SIZE)) = false →
  star_is_trusted verify ss ss sections data = Ok true →
  ∃ message signature rest, signed_prefix verify content ss sections data message signature rest.
Proof.
  intros Hl Hnw Hsz Htr.
  pose proof (safe_post _ _ _ (star_load_bounded_safe (Some content)) Hl) as Hwf.
  destruct (loaded_size _ _ _ _ Hwf Hnw) as (c & [= <-] & Hpre & Hlen & Hss & Hb).
  destruct Hwf as (c & [= <-] & _ & _ & Hsec & Hmax & _). assert (Hnw' := Hnw). unfold no_wrap in Hnw. cbn [sb_star_start sb_sections] in Hnw.
  pose proof (eager_end_nonneg sections). unfold STAR_HEADER_SIZE in Hsz.
  pose proof word_size as [Hw1 Hw2]. unfold buffer_wf in Hb.
  rewrite usize_id in Hsz by lia. apply Z.ltb_ge in Hsz.
  pose proof (star_is_trusted_safe verify ss sections data ltac:(lia) Hsz Hnw') as Hs.
  rewrite Htr in Hs. destruct (Hs eq_refl) as (Hdef & msg & sig & Hd & Hm & Hsl & Hv).
  exists msg, sig, (drop (length msg + length sig) data ++ drop (length data) content).
  split_and!; [|done..|].
  { rewrite <- (take_drop (length data) content) at 1. rewrite <- Hpre. rewrite Hd at 1. app_norm. done. }
  intros s Hin Hne. assert (section_wf s) as Hws by (by eapply Forall_forall in Hsec).
  assert (sec_deferred s = false) as Hnd.
  { destruct (sec_deferred s) eqn:E; [|done]. eapply Forall_forall in Hdef; [|done]. by destruct Hne; auto. }
  assert (sec_length s <= MAX_SECTION_SIZE) as Hms by (eapply Forall_forall in Hmax; [|done]; auto).
  pose proof (star_decode_section_cases data ss s Hb ltac:(lia)) as Hc. unfold section_in_file in Hc.
  assert (len msg + len sig <= len data) as Hms2.
  { rewrite Hd, !len_app. pose proof (len_nonneg (drop (length msg + length sig) data)). lia. }
  pose proof (len_nonneg sig).
  destruct (eager_section_place ss s (eager_end sections) Hws Hms (eager_end_ge _ _ Hin Hnd) ltac:(lia) Hnw) as [Hp|Hp].
  - destruct (Z.leb_spec (section_end ss s) (len msg)); [|lia].
    destruct (Z.leb_spec (section_end ss s) (len data)); [|lia].
    destruct Hc as (blob & Hsl2 & Hdb). exists blob. split; [|done].
    pose proof (slice_inv _ _ _ _ Hsl2) as (Hr1 & Hr2 & ->). rewrite slice_Ok by lia. f_equal.
    rewrite Hd at 1. rewrite drop_app_le by (unfold len in *; lia).
    rewrite take_app_le; [done|]. rewrite length_drop. unfold len in *. lia.
  - destruct (Z.leb_spec (section_end ss s) (len msg)); [lia|].
    destruct (Z.leb_spec (section_end ss s) (len data)); [lia|]. done.
Qed.

(** The header and the section table decide what is loaded. *)
Lemma star_open_table_inv `{T : target} file ss count tbl f :
  star_open_table file = Ok (Some (ss, count, tbl, f)) →
  (∃ n, star_locate (take 4 file) n = Ok (Some ss)) ∧
  (∃ c, take (Z.to_nat STAR_HEADER_SIZE) (drop (Z.to_nat ss) file) !! 6%nat = Some c ∧ count = b2z c) ∧
  tbl = take (Z.to_nat (count * STAR_ENTRY_SIZE)) (drop (Z.to_nat (ss + STAR_HEADER_SIZE)) file).
Proof.
  unfold star_open_table. intros H. destruct (_ <? 8); [done|].
  destruct (f_read 4 (f_open file)) as [[prefix|] f0] eqn:E1; [|done].
  apply f_read_Some in E1 as (_ & _ & _ & Hpre & ->). cbn [f_pos f_data f_open] in Hpre.
  change (drop (Z.to_nat 0) file) with (drop 0 file) in Hpre. rewrite drop_0 in Hpre. subst prefix.
  apply bind_Ok in H as ([ss'|] & Hloc & H); [|done].
  destruct (_ <? ss' + STAR_HEADER_SIZE); [done|].
  destruct (f_read STAR_HEADER_SIZE _) as [[hdr|] f1] eqn:E2; [|done].
  apply f_read_Some in E2 as (_ & _ & _ & Hhdr & ->). cbn [f_seek f_pos f_data f_good f_open] in H, Hhdr.
  destruct (negb (bytes_eqb (take 4 hdr) STAR_MAGIC)); [done|].
  apply bind_Ok in H as (version & _ & H). destruct (negb _); [done|].
  apply bind_Ok in H as (c & Hc & H). destruct (_ <? b2z c); [done|]. destruct (_ <? _); [done|].
  destruct (f_read (b2z c * STAR_ENTRY_SIZE) _) as [[t|] f2] eqn:E3; [|done].
  apply f_read_Some in E3 as (_ & _ & _ & Ht & ->). cbn [f_pos f_data] in Ht. injection H as -> <- <- <-.
  apply rd_inv in Hc as [_ Hc]. split; [by eexists|]. split; [|done]. exists c. by rewrite <- Hhdr.
Qed.

Lemma star_locate_prefix prefix n m ss ss' :
  star_locate prefix n = Ok (Some ss) → star_locate prefix m = Ok (Some ss') → ss = ss'.
Proof.
  unfold star_locate. destruct (bytes_eqb prefix STAR_MAGIC); [congruence|].
  destruct (read_u32_le prefix 0); cbn [mbind outcome_bind]; try done. do 2 (destruct (_ || _); [done|]). congruence.
Qed.

Lemma star_read_table_length n i tbl ss e ss' e' :
  star_read_table n i tbl ss e = Ok (Some (ss', e')) → length ss' = (length ss + n)%nat.
Proof.
  revert i ss e. induction n as [|n IH]; intros i ss e; cbn [star_read_table]; [intros [= -> _]; lia|].
  intros H. apply bind_Ok in H as (s & _ & H). destruct (_ && _); [done|].
  destruct (sec_deferred s); [|destruct (_ <? _); [done|]]; apply IH in H; rewrite H, length_app; simpl; lia.
Qed.

Lemma star_load_bounded_inv `{T : target} content ss sections data :
  star_load_bounded (Some content) = Ok (Some (StarBounded ss sections data)) →
  ∃ count tbl f e, star_open_table content = Ok (Some (ss, count, tbl, f)) ∧ 0 <= ss ∧ 0 <= count ∧
    star_read_table (Z.to_nat count) 0 tbl [] 0 = Ok (Some (sections, e)) ∧ len sections = count.
Proof.
  unfold star_load_bounded. intros H. apply bind_Ok in H as ([[[[ss' count] tbl] f]|] & Ho & H); [|done].
  pose proof (safe_post _ _ _ (star_open_table_safe content) Ho) as (H0 & H1 & _).
  apply bind_Ok in H as ([[secs e]|] & Ht & H); [|done]. apply bind_Ok in H as (_ & _ & H).
  destruct (f_read _ _) as [[d|] f'] in H; [|done]. injection H as -> -> _. exists count, tbl, f, e.
  split_and!; try done; [lia|]. apply star_read_table_length in Ht. unfold len. simpl in Ht. lia.
Qed.

Lemma take_drop_prefix (m r : bytes) a n :
  (a + n <= length m)%nat → take n (drop a (m ++ r)) = take n (drop a m).
Proof. intros H. rewrite drop_app_le by lia. rewrite take_app_le; [done|]. rewrite length_drop. lia. Qed.

Lemma star_load_prefix `{T : target} message r r' ss sections data ss' sections' data' :
  star_load_bounded (Some (message ++ r)) = Ok (Some (StarBounded ss sections data)) →
  star_load_bounded (Some (message ++ r')) = Ok (Some (StarBounded ss' sections' data')) →
  ss + STAR_HEADER_SIZE + len sections * STAR_ENTRY_SIZE <= len message →
  ss' = ss ∧ sections' = sections.
Proof.
  intros (c & t & f & e & Ho & Hs0 & Hc0 & Ht & Hl)%star_load_bounded_inv (c' & t' & f' & e' & Ho' & _ & _ & Ht' & _)%star_load_bounded_inv Hm.
  apply star_open_table_inv in Ho as ((n & Hn) & (b & Hb & Hc) & Htbl). apply star_open_table_inv in Ho' as ((n' & Hn') & (b' & Hb' & Hc') & Htbl').
  unfold STAR_HEADER_SIZE, STAR_ENTRY_SIZE, len in *. pose proof (len_nonneg sections). unfold len in *.
  rewrite take_app_le in Hn, Hn' by lia. pose proof (star_locate_prefix _ _ _ _ _ Hn Hn') as <-. split; [done|].
  rewrite take_drop_prefix in Hb, Hb' by lia. rewrite Hb in Hb'. injection Hb' as <-. rewrite <- Hc in Hc'. subst c'.
  rewrite take_drop_prefix in Htbl, Htbl' by lia. rewrite <- Htbl in Htbl'. subst t'. congruence.
Qed.


(** A signed package whose metadata is accepted, and the same package with
    other bytes behind the signed part, for the witness. *)
Definition sample_metadata : json :=
  jobj [(#"id", JStr #"demo"); (#"name", JStr #"Demo")].
Definition sample_plugin : plugin_t :=
  Plugin #"demo" (jobj [(#"name", JStr #"demo"); (#"common_name", JStr #"Demo");
       (#"description", JStr []); (#"author", JStr []); (#"version", JStr []);
       (#"sourceCommit", JStr []); (#"backendType", JStr #"lua"); (#"useBackend", JBool false);
       (#"trusted", JBool true)]) #"p.star" [] [] [] false star true false false [].
Definition sample_message : bytes := star_header 1 1 ++ star_entry 1 0 0 268 2 ++ #"md".
Definition sample_verify (m sg k : bytes) : bool := bytes_eqb m sample_message.
Definition sample_msgpack (raw : bytes) : option json := if bytes_eqb raw #"md" then Some sample_metadata else None.


(** On a 32-bit target the end of the last section is cut to 32 bits before the
    signature is looked for: a section that names bytes behind 4 GB moves the
    signed boundary into the section table, and the metadata is read from behind
    the bytes that were verified. *)
Definition truncated_star : bytes :=
  star_header 1 2 ++ star_entry 1 0 0 120 2 ++ star_entry 0x10 0 0 (2 ^ 32 + 100) 0.
Theorem signed_end_truncated :
  let verify := λ message _ _, len message =? 100 in
  let msgpack := λ raw, if bytes_eqb raw [x00; x00] then Some sample_metadata else None in
  parse_star_file (T:=target32) verify msgpack #"p.star" (Some truncated_star) = Ok (Some sample_plugin) ∧
  ∃ plugin, parse_star_file (T:=target64) verify msgpack #"p.star" (Some truncated_star) = Ok (Some plugin) ∧ is_trusted plugin = false.
Proof. split; [by vm_compute|]. eexists. split; [vm_compute; reflexivity|done]. Qed.

(** The 64-bit sum [star_start + max_eager_end + 64] is not checked for
    overflow.  A 268-byte signed package whose only section ends at
    [2^64 - 10] makes [parse_star_file] hand the verifier a message that
    extends far outside the buffer, and a package with a shim prefix makes
    [star_read_javascript] copy bytes from before the buffer. *)
Theorem star_end_overflow_is_undefined : ∀ verify mp path,
  parse_star_file (T:=target64) verify mp path
    (Some (star_header 1 1 ++ star_entry 0x10 0 0 (2 ^ 64 - 10) 0)) = UB ∧
  star_read_javascript (T:=target64)
    (Some (le_bytes 4 100 ++ replicate 100 x00 ++ star_header 0 1 ++
           star_entry SEC_FRONTEND FLAG_OBFUSCATED 0 (2 ^ 64 - 169) 1)) frontend = UB.
Proof. intros verify mp path. split; vm_compute; reflexivity. Qed.
