(* ===== verification/Css.v ===== *)
(** * Css: colours of a theme

    Models [src/src/bindings/css_parser.cc]: reading the custom properties of
    the [:root] block of a stylesheet, recognising colours and converting
    them to and from hexadecimal.  [std::stoi], the [std::format] calls and
    the four regular expressions of the file are written out; doubles are
    [spec_float] values of IEEE binary64. *)

From Stdlib Require Import SpecFloat.
From S2P Require Import Prelude Json.

(** ** Library functions *)

(** [isspace] in the C locale, the class [\s] of a regular expression. *)
Definition isspace (c : byte) : bool := in_range 9 13 c || beqb c " "%byte.
Definition word_char (c : byte) : bool := isalnum c || beqb c "_"%byte.

Fixpoint span (f : byte → bool) (s : bytes) : bytes * bytes :=
  match s with
  | c :: s' => if f c then let '(a, b) := span f s' in (c :: a, b) else ([], s)
  | [] => ([], [])
  end.

Definition digit_val (c : byte) : Z :=
  if isdigit c then b2z c - 48 else if in_range 97 102 c then b2z c - 87
  else if in_range 65 70 c then b2z c - 55 else 99.
Definition is_digit (base : Z) (c : byte) : bool := digit_val c <? base.

(** [std::stoi(s, nullptr, base)] for base 10 and 16: leading white space, a
    sign, a "0x" before a hexadecimal digit, then digits; what follows is
    ignored. *)
Definition drop_0x (base : Z) (s : bytes) : bytes :=
  match s with
  | z :: x :: d :: r =>
      if (base =? 16) && beqb z "0"%byte && beqb (tolower x) "x"%byte && is_digit 16 d then d :: r else s
  | _ => s
  end.
Definition stoi (base : Z) (s : bytes) : outcome Z :=
  let s := (span isspace s).2 in
  let '(neg, s) := match s with
                   | "-"%byte :: s => (true, s)
                   | "+"%byte :: s => (false, s)
                   | s => (false, s)
                   end in
  let digits := (span (is_digit base) (drop_0x base s)).1 in
  _ ← throw_if (bytes_eqb digits []) #"stoi";
  let n := foldl (λ a c, a * base + digit_val c) 0 digits in
  let v := if (neg : bool) then - n else n in
  _ ← throw_if ((v <? - 2 ^ 31) || (INT_MAX <? v)) #"stoi";
  Ok v.

(** [s.substr(pos, count)] *)
Definition substr (s : bytes) (pos count : nat) : outcome bytes :=
  if (length s <? pos)%nat then Throw #"basic_string::substr" else Ok (take count (drop pos s)).

(** [{}] and [{:02x}] of an [int]. *)
Definition fmt_int (v : Z) : bytes :=
  if v <? 0 then "-"%byte :: dec (Z.to_N (- v)) else dec (Z.to_N v).
Definition hex_char (d : Z) : byte := z2b (if d <? 10 then 48 + d else 87 + d).
Fixpoint hex_rev (fuel : nat) (n : Z) : bytes :=
  match fuel with
  | O => []
  | S fuel => if n =? 0 then [] else hex_char (n mod 16) :: hex_rev fuel (n / 16)
  end.
Definition hex_of (n : Z) : bytes := if n =? 0 then #"0" else rev (hex_rev 16 n).
Definition zero_pad (w : nat) (s : bytes) : bytes := repeat "0"%byte (w - length s) ++ s.
Definition fmt_02x (v : Z) : bytes :=
  if v <? 0 then "-"%byte :: zero_pad 1 (hex_of (- v)) else zero_pad 2 (hex_of v).

(** Division of two integers as doubles, and [{:.2f}] of a finite double: the
    exact binary value rounded to hundredths, halves to even. *)
Definition double_of (z : Z) : spec_float := binary_normalize 53 1024 z 0 false.
Definition ddiv : spec_float → spec_float → spec_float := SFdiv 53 1024.
Definition round_half_even (n d : Z) : Z :=
  let q := n / d in
  match 2 * (n mod d) ?= d with Lt => q | Gt => q + 1 | Eq => if Z.even q then q else q + 1 end.
Definition fmt_2f (f : spec_float) : bytes :=
  let '(neg, h) := match f with
                   | S754_finite s m e =>
                       (s, if 0 <=? e then 100 * Z.pos m * 2 ^ e else round_half_even (100 * Z.pos m) (2 ^ (- e)))
                   | S754_zero s => (s, 0)
                   | _ => (false, 0)
                   end in
  (if (neg : bool) then #"-" else []) ++ dec (Z.to_N (h / 100)) ++ #"." ++ zero_pad 2 (dec (Z.to_N (h mod 100))).

(** The tokens of the loop [while (std::getline(ss, token, d))]. *)
Definition getline_tokens (d : byte) (s : bytes) : list bytes :=
  let ps := split d s in
  match last ps with Some [] => removelast ps | _ => ps end.

(** ** Colours *)

(** A [color_type]; a value cast from an [int] may name no enumerator. *)
Inductive color_type := RawRGB | RGB | RawRGBA | RGBA | Hex | Unknown | Other (n : Z).
#[export] Instance color_type_eq_dec : EqDecision color_type.
Proof. solve_decision. Defined.

Definition color_type_of_int (n : Z) : color_type :=
  match n with 1 => RawRGB | 2 => RGB | 3 => RawRGBA | 4 => RGBA | 5 => Hex | 6 => Unknown | n => Other n end.
Definition int_of_color_type (t : color_type) : Z :=
  match t with RawRGB => 1 | RGB => 2 | RawRGBA => 3 | RGBA => 4 | Hex => 5 | Unknown => 6 | Other n => n end.

Definition trim_char (c : byte) : bool :=
  existsb (beqb c) [" "%byte; "009"%byte; "010"%byte; "013"%byte].
Definition trim (str : bytes) : bytes :=
  rev (span trim_char (rev (span trim_char str).2)).2.

(** The [switch] of [convert_from_hex]. *)
Definition format_color (hex : bytes) (r g b : Z) (type : color_type) : outcome (option bytes) :=
  let rgb := fmt_int r ++ #", " ++ fmt_int g ++ #", " ++ fmt_int b in
  match type with
  | RawRGB => Ok (Some rgb)
  | RGB => Ok (Some (#"rgb(" ++ rgb ++ #")"))
  | RawRGBA | RGBA =>
      a ← (if (length hex =? 8)%nat then s ← substr hex 6 2; n ← stoi 16 s; Ok (ddiv (double_of n) (double_of 255))
           else Ok (double_of 1));
      let rgba := rgb ++ #", " ++ fmt_2f a in
      Ok (Some (if bool_decide (type = RawRGBA) then rgba else #"rgba(" ++ rgba ++ #")"))
  | _ => Ok (Some (#"#" ++ hex))
  end.

Definition convert_from_hex (color : bytes) (type : color_type) : outcome (option bytes) :=
  if bool_decide (type = Unknown) then Ok None else
  let hex := match color with "#"%byte :: h => h | _ => color end in
  r ← (s ← substr hex 0 2; stoi 16 s);
  g ← (s ← substr hex 2 2; stoi 16 s);
  b ← (s ← substr hex 4 2; stoi 16 s);
  format_color hex r g b type.

Fixpoint stoi_all (tokens : list bytes) : outcome (list Z) :=
  match tokens with
  | [] => Ok []
  | t :: ts => v ← stoi 10 t; vs ← stoi_all ts; Ok (v :: vs)
  end.

(** [values[i]], undefined beyond the end. *)
Definition value_at (values : list Z) (i : nat) : outcome Z :=
  match values !! i with Some v => Ok v | None => UB end.

(** The text between the parentheses; without "(" it starts at 0, without ")"
    it goes to the end. *)
Definition inside (color : bytes) : outcome bytes :=
  let start := match find_char "("%byte color with Some i => S i | None => O end in
  match find_char ")"%byte color with
  | Some e => if (e <? start)%nat then substr color start (length color) else substr color start (e - start)
  | None => substr color start (length color)
  end.

Definition convert_to_hex (color : bytes) (type : color_type) : outcome (option bytes) :=
  match type with
  | Hex => Ok (Some color)
  | _ =>
      valueString ← (if bool_decide (type = RGB) || bool_decide (type = RGBA) then inside color else Ok color);
      values ← stoi_all (getline_tokens ","%byte valueString);
      let three := (r ← value_at values 0; g ← value_at values 1; b ← value_at values 2;
                    Ok (#"#" ++ fmt_02x r ++ fmt_02x g ++ fmt_02x b)) in
      match type with
      | RawRGB | RGB => s ← three; Ok (Some s)
      | RawRGBA | RGBA =>
          a ← value_at values 3;
          let alpha := a * 255 in
          _ ← (if (alpha <? - 2 ^ 31) || (INT_MAX <? alpha) then UB else Ok ());
          s ← three; Ok (Some (s ++ fmt_02x alpha))
      | _ => Ok None
      end
  end.

Definition expand_shorthand_hex (shortHex : bytes) : bytes :=
  match shortHex with
  | ["#"%byte; a; b; c] => ["#"%byte; a; a; b; b; c; c]
  | _ => shortHex
  end.

Definition try_raw_parse (color : bytes) : color_type :=
  match find_sub #", " color with
  | None => Unknown
  | Some _ =>
      match length (getline_tokens ","%byte color) with 3%nat => RawRGB | 4%nat => RawRGBA | _ => Unknown end
  end.

Definition parse_color (color : bytes) : color_type :=
  if prefixb #"rgb(" color then RGB
  else if prefixb #"rgba(" color then RGBA
  else if prefixb #"#" color then Hex
  else try_raw_parse color.

(** ** Stylesheets *)

Definition opt_name (s : option bytes) : json :=
  match s with Some (c :: s) => JStr (c :: s) | _ => JNull end.

(** [properties] and [propertyMap] are [std::map]s. *)
Fixpoint generate_color_metadata (properties : list (bytes * bytes)) (propertyMap : list (bytes * (bytes * bytes))) :
    outcome (list json) :=
  match properties with
  | [] => Ok []
  | (prop, value) :: properties =>
      let expanded := expand_shorthand_hex value in
      let type := parse_color expanded in
      if bool_decide (type = Unknown) then generate_color_metadata properties propertyMap else
      let it := obj_get prop propertyMap in
      hex ← convert_to_hex expanded type;
      rest ← generate_color_metadata properties propertyMap;
      Ok (jobj [(#"color", JStr prop); (#"name", opt_name (fst <$> it)); (#"description", opt_name (snd <$> it));
                (#"type", JInt (int_of_color_type type)); (#"defaultColor", JStr (default [] hex))] :: rest)
  end.

(** The search for ":root", white space and a block: the leftmost match, up
    to the last closing brace. *)
Fixpoint extract_root_block (content : bytes) : bytes :=
  let here :=
    if prefixb #":root" content then
      match (span isspace (drop 5 content)).2 with
      | "{"%byte :: body => match rfind_char "}"%byte body with Some i => Some (take i body) | None => None end
      | _ => None
      end
    else None in
  match here with
  | Some block => block
  | None => match content with [] => [] | _ :: content => extract_root_block content end
  end.

Definition name_char (c : byte) : bool := word_char c || beqb c "-"%byte.

(** A whole line that is a name of word characters and dashes, white space, a
    colon, white space, a value without semicolon, and a semicolon. *)
Definition prop_match (line : bytes) : option (bytes * bytes) :=
  let '(name, rest) := span name_char line in
  match name, (span isspace rest).2 with
  | _ :: _, ":"%byte :: rest =>
      let '(body, tail) := span (λ c, negb (beqb c ";"%byte)) rest in
      match tail, last body with
      | [_], Some l =>
          let value := (span isspace body).2 in
          Some (name, if bytes_eqb value [] then [l] else value)
      | _, _ => None
      end
  | _, _ => None
  end.

(** The search in a comment for a tag, white space and text without an
    asterisk: the text of the leftmost match; the white space gives one
    character back when nothing else is left for the text. *)
Fixpoint tag_match (tag comment : bytes) : option bytes :=
  let here :=
    if prefixb tag comment then
      let '(ws, rest) := span isspace (drop (length tag) comment) in
      let group := (span (λ c, negb (beqb c "*"%byte)) rest).1 in
      match group, rev ws with
      | _ :: _, _ :: _ => Some group
      | [], l :: _ :: _ => Some [l]
      | _, _ => None
      end
    else None in
  match here with
  | Some g => Some g
  | None => match comment with [] => None | _ :: comment => tag_match tag comment end
  end.

Definition tag_text (tag comment : bytes) : bytes := trim (default [] (tag_match tag comment)).

Record scan_state := Scan {
  lastComment : bytes;
  inComment : bool;
  properties : list (bytes * bytes);
  propertyMap : list (bytes * (bytes * bytes));
}.

(** The body of the loop over the lines. *)
Definition scan_line (line : bytes) (st : scan_state) : scan_state :=
  let line := trim line in
  if bytes_eqb line [] then st else
  let '(comment, inside) := if prefixb #"/*" line then ([], true) else (lastComment st, inComment st) in
  if (inside : bool) then
    Scan (comment ++ line ++ ["010"%byte])
      (match find_sub #"*/" line with Some _ => false | None => true end) (properties st) (propertyMap st)
  else
    match prop_match line with
    | None => Scan comment inside (properties st) (propertyMap st)
    | Some (propName, value) =>
        let '(name, description) := if bytes_eqb comment [] then ([], [])
                                    else (tag_text #"@name" comment, tag_text #"@description" comment) in
        Scan [] inside (obj_insert propName (trim value) (properties st))
          (obj_insert propName (name, description) (propertyMap st))
    end.

Definition parse_properties (block : bytes) : scan_state :=
  foldl (λ st line, scan_line line st) (Scan [] false [] []) (getline_tokens "010"%byte block).

Definition parse_root_colors (file : option bytes) : outcome json :=
  match file with
  | None => Ok (JArr [])
  | Some content =>
      let rootBlock := extract_root_block content in
      if bytes_eqb rootBlock [] then Ok (JArr []) else
      let st := parse_properties rootBlock in
      l ← generate_color_metadata (properties st) (propertyMap st); Ok (JArr l)
  end.

(** ** Lemmas *)

Lemma span_app f a b : forallb f a = true → (∀ c r, b = c :: r → f c = false) → span f (a ++ b) = (a, b).
Proof.
  intros Ha Hb. induction a as [|x a IH]; cbn in *.
  - destruct b as [|c b]; [done|]. cbn. by rewrite (Hb c b eq_refl).
  - apply andb_true_iff in Ha as [-> Ha]. by rewrite (IH Ha).
Qed.

Lemma span_stop f c r : f c = false → span f (c :: r) = ([], c :: r).
Proof. cbn. by intros ->. Qed.

(** Facts on the 256 values of a component, by evaluation. *)
Definition gives (o : outcome Z) (v : Z) : bool := match o with Ok x => x =? v | _ => false end.
Lemma gives_Ok o v : gives o v = true → o = Ok v.
Proof. destruct o; try done. cbn. by intros ->%Z.eqb_eq. Qed.

Definition component_ok (v : Z) : bool :=
  match fmt_02x v with
  | [a; b] => gives (stoi 16 [a; b]) v && negb (beqb a "#"%byte)
  | _ => false
  end && gives (stoi 10 (fmt_int v)) v && gives (stoi 10 (" "%byte :: fmt_int v)) v && forallb isdigit (fmt_int v).
Definition all_components (f : Z → bool) : bool := forallb (λ n, f (Z.of_nat n)) (seq 0 256).

Lemma all_components_spec f v : all_components f = true → 0 <= v < 256 → f v = true.
Proof.
  intros Hf Hv. unfold all_components in Hf. rewrite forallb_forall in Hf.
  specialize (Hf (Z.to_nat v)). rewrite Z2Nat.id in Hf by lia. apply Hf, in_seq. lia.
Qed.

Lemma components_ok : all_components component_ok = true.
Proof. vm_compute. reflexivity. Qed.

Lemma component_facts v : 0 <= v < 256 →
  ∃ a b, fmt_02x v = [a; b] ∧ stoi 16 [a; b] = Ok v ∧ a ≠ "#"%byte ∧ stoi 10 (fmt_int v) = Ok v ∧
    stoi 10 (" "%byte :: fmt_int v) = Ok v ∧ forallb isdigit (fmt_int v) = true.
Proof.
  intros Hv. pose proof (all_components_spec _ v components_ok Hv) as H. unfold component_ok in H.
  destruct (fmt_02x v) as [|a [|b [|]]]; try done. rewrite !andb_true_iff in H. destruct H as [[[[H1 H2] H3] H4] H5].
  exists a, b. split_and!; [done|by apply gives_Ok|by intros ->|by apply gives_Ok..|done].
Qed.

Lemma digits_no c s : isdigit c = false → forallb isdigit s = true → c ∉ s.
Proof.
  intros Hc Hs Hin. rewrite forallb_forall in Hs. apply list_elem_of_In, Hs in Hin. congruence.
Qed.

Lemma tokens_last d ps p : Forall (λ p, d ∉ p) ps → d ∉ p → p ≠ [] → getline_tokens d (join d (ps ++ [p])) = ps ++ [p].
Proof.
  intros Hps Hp Hne. unfold getline_tokens. rewrite split_join.
  - rewrite last_snoc. by destruct p.
  - by destruct ps.
  - apply Forall_app. split; [done|]. by constructor.
Qed.

Definition rgb_text (r g b : Z) : bytes := fmt_int r ++ #", " ++ fmt_int g ++ #", " ++ fmt_int b.
Definition hex6 (r g b : Z) : bytes := fmt_02x r ++ fmt_02x g ++ fmt_02x b.

Section component.
  Context (r g b : Z) (Hr : 0 <= r < 256) (Hg : 0 <= g < 256) (Hb : 0 <= b < 256).

Lemma fmt_int_no c v : isdigit c = false → 0 <= v < 256 → c ∉ fmt_int v.
Proof. intros Hc Hv. destruct (component_facts v Hv) as (?&?&?&?&?&?&?&Hd). by apply digits_no. Qed.

Lemma rgb_pieces : Forall (λ p, ","%byte ∉ p) [fmt_int r; " "%byte :: fmt_int g; " "%byte :: fmt_int b].
Proof.
  assert (∀ v, 0 <= v < 256 → ","%byte ∉ " "%byte :: fmt_int v).
  { intros v Hv. apply not_elem_of_cons. split; [done|]. by apply fmt_int_no. }
  constructor; [by apply fmt_int_no|]. constructor; [auto|]. constructor; [auto|constructor].
Qed.

Lemma rgb_text_values : stoi_all (getline_tokens ","%byte (rgb_text r g b)) = Ok [r; g; b].
Proof.
  pose proof rgb_pieces as Hp.
  replace (rgb_text r g b) with (join ","%byte ([fmt_int r; " "%byte :: fmt_int g] ++ [" "%byte :: fmt_int b])).
  2:{ unfold rgb_text. cbn [join app]. done. }
  apply (Forall_app _ [_; _] [_]) in Hp as [Hp Hl]. rewrite tokens_last; [|done|by inversion Hl|done].
  destruct (component_facts r Hr) as (?&?&_&_&_&E1&_), (component_facts g Hg) as (?&?&_&_&_&_&E2&_),
    (component_facts b Hb) as (?&?&_&_&_&_&E3&_).
  cbn [stoi_all app]. rewrite E1, E2, E3. done.
Qed.

Lemma rgba_text_values t v : ","%byte ∉ t → stoi 10 (" "%byte :: t) = Ok v →
  stoi_all (getline_tokens ","%byte (rgb_text r g b ++ #", " ++ t)) = Ok [r; g; b; v].
Proof.
  intros Ht Hv. pose proof rgb_pieces as Hp.
  replace (rgb_text r g b ++ #", " ++ t) with (join ","%byte ([fmt_int r; " "%byte :: fmt_int g; " "%byte :: fmt_int b] ++ [" "%byte :: t])).
  2:{ unfold rgb_text. cbn [join app]. rewrite <- ?app_assoc. done. }
  rewrite tokens_last; [|done|by apply not_elem_of_cons|done].
  destruct (component_facts r Hr) as (?&?&_&_&_&E1&_), (component_facts g Hg) as (?&?&_&_&_&_&E2&_),
    (component_facts b Hb) as (?&?&_&_&_&_&E3&_).
  cbn [stoi_all app]. rewrite E1, E2, E3, Hv. done.
Qed.

Lemma from_hex_components tail ty : ty ≠ Unknown →
  convert_from_hex (#"#" ++ hex6 r g b ++ tail) ty = format_color (hex6 r g b ++ tail) r g b ty.
Proof.
  intros Hty. unfold hex6.
  destruct (component_facts r Hr) as (r1&r2&E1&S1&_), (component_facts g Hg) as (g1&g2&E2&S2&_),
    (component_facts b Hb) as (b1&b2&E3&S3&_).
  rewrite E1, E2, E3. unfold convert_from_hex. rewrite bool_decide_false by done.
  change (#"#") with ["#"%byte]. cbn [app]. unfold substr.
  cbn [length Nat.ltb Nat.leb take drop mbind outcome_bind]. rewrite take_0, S1, S2, S3. done.
Qed.
End component.

Lemma rgb_text_no c r g b : isdigit c = false → c ≠ ","%byte → c ≠ " "%byte →
  0 <= r < 256 → 0 <= g < 256 → 0 <= b < 256 → c ∉ rgb_text r g b.
Proof.
  intros Hd Hc Hs Hr Hg Hb. unfold rgb_text. rewrite !not_elem_of_app. change (#", ") with [","%byte; " "%byte].
  rewrite !not_elem_of_cons. pose proof (not_elem_of_nil (A:=byte)). split_and!; try done; by apply fmt_int_no.
Qed.

(** The text between the parentheses of a colour function. *)
Lemma inside_parens name t : "("%byte ∉ name → ")"%byte ∉ name → ")"%byte ∉ t → inside (name ++ "("%byte :: t ++ #")") = Ok t.
Proof.
  intros H1 H2 H3. unfold inside. rewrite find_char_app by done.
  change (#")") with [")"%byte].
  replace (name ++ "("%byte :: t ++ [")"%byte]) with ((name ++ "("%byte :: t) ++ ")"%byte :: []) by (rewrite <- app_assoc; done).
  rewrite find_char_app.
  2:{ rewrite not_elem_of_app, not_elem_of_cons. done. }
  rewrite length_app. cbn [length]. destruct (Nat.ltb_spec (length name + S (length t)) (S (length name))); [lia|].
  unfold substr. rewrite !length_app. cbn [length]. destruct (Nat.ltb_spec (length name + S (length t) + 1) (S (length name))); [lia|].
  f_equal. replace (length name + S (length t) - S (length name))%nat with (length t) by lia.
  replace ((name ++ "("%byte :: t) ++ [")"%byte]) with ((name ++ ["("%byte]) ++ t ++ [")"%byte]) by (rewrite <- !app_assoc; done).
  rewrite drop_app_length' by (rewrite length_app; cbn; lia). by rewrite take_app_length.
Qed.

(** The value [stoi] reads from the alpha that [convert_from_hex] writes. *)
Definition alpha_text (n : Z) : bytes := fmt_2f (ddiv (double_of n) (double_of 255)).
Definition alpha_read (n : Z) : Z := if n <? 254 then 0 else 1.
Definition alpha_ok (n : Z) : bool :=
  gives (stoi 10 (" "%byte :: alpha_text n)) (alpha_read n) &&
  forallb (λ c, isdigit c || beqb c "."%byte) (alpha_text n).

Lemma alphas_ok : all_components alpha_ok = true.
Proof. vm_compute. reflexivity. Qed.

Lemma alpha_facts n : 0 <= n < 256 →
  stoi 10 (" "%byte :: alpha_text n) = Ok (alpha_read n) ∧ ","%byte ∉ alpha_text n ∧ ")"%byte ∉ alpha_text n.
Proof.
  intros Hn. pose proof (all_components_spec _ n alphas_ok Hn) as H. unfold alpha_ok in H.
  apply andb_true_iff in H as [H1 H2]. rewrite forallb_forall in H2.
  split_and!; [by apply gives_Ok|..]; intros Hin%list_elem_of_In%H2; done.
Qed.

(** [convert_to_hex] from the numbers of the text. *)
Definition value_text (ty : color_type) (color : bytes) : outcome bytes :=
  if bool_decide (ty = RGB) || bool_decide (ty = RGBA) then inside color else Ok color.

Lemma to_hex_rgb color vs ty r g b : ty = RawRGB ∨ ty = RGB →
  value_text ty color = Ok vs → stoi_all (getline_tokens ","%byte vs) = Ok [r; g; b] →
  convert_to_hex color ty = Ok (Some (#"#" ++ hex6 r g b)).
Proof.
  unfold value_text. intros [-> | ->] Ht Hv; unfold convert_to_hex; rewrite Ht; cbn [mbind outcome_bind]; rewrite Hv; done.
Qed.

Lemma to_hex_rgba color vs ty r g b a : ty = RawRGBA ∨ ty = RGBA →
  value_text ty color = Ok vs → stoi_all (getline_tokens ","%byte vs) = Ok [r; g; b; a] → 0 <= a <= 1 →
  convert_to_hex color ty = Ok (Some (#"#" ++ hex6 r g b ++ fmt_02x (a * 255))).
Proof.
  unfold value_text, hex6. intros Hty Ht Hv Ha.
  assert ((a * 255 <? - 2 ^ 31) || (INT_MAX <? a * 255) = false) as E by (unfold INT_MAX; lia).
  destruct Hty as [-> | ->]; unfold convert_to_hex; rewrite Ht; cbn [mbind outcome_bind]; rewrite Hv;
    cbn [mbind outcome_bind value_at lookup list_lookup]; rewrite E; cbn [mbind outcome_bind]; by rewrite <- !app_assoc.
Qed.

(** A property as a stylesheet writes it. *)
Definition prop_line (p : bytes * bytes) : bytes := p.1 ++ #": " ++ p.2 ++ #";".
Definition prop_ok (p : bytes * bytes) : bool :=
  negb (bytes_eqb p.1 []) && forallb name_char p.1 &&
  match p.2 with c :: _ => negb (isspace c) | [] => false end &&
  match last p.2 with Some c => negb (isspace c) | None => false end &&
  forallb (λ c, negb (beqb c ";"%byte) && negb (beqb c "010"%byte)) p.2.

Lemma trim_id s c l : s = c :: tail s → last s = Some l → trim_char c = false → trim_char l = false → trim s = s.
Proof.
  intros Hs Hl Hc Hlc. unfold trim.
  assert ((span trim_char s).2 = s) as -> by (rewrite Hs, span_stop by done; done).
  apply last_Some in Hl as [s' ->]. rewrite rev_app_distr. cbn [rev app]. rewrite span_stop by done. cbn [snd].
  cbn [rev]. by rewrite rev_involutive.
Qed.

Lemma trim_char_space c : trim_char c = true → isspace c = true.
Proof. destruct c; vm_compute; done. Qed.
Lemma name_char_facts c : name_char c = true → isspace c = false ∧ c ≠ ":"%byte ∧ c ≠ "/"%byte ∧ c ≠ "010"%byte.
Proof. destruct c; vm_compute; done. Qed.

Lemma prop_line_match p : prop_ok p = true →
  trim (prop_line p) = prop_line p ∧ prefixb #"/*" (prop_line p) = false ∧ prop_line p ≠ [] ∧
  prop_match (prop_line p) = Some p ∧ trim p.2 = p.2 ∧ "010"%byte ∉ prop_line p.
Proof.
  destruct p as [n v]. unfold prop_ok, prop_line. cbn [fst snd]. rewrite !andb_true_iff, negb_true_iff. intros ((((Hn & Hnc) & Hv1) & Hv2) & Hvs).
  destruct n as [|c n]; [done|]. cbn in Hnc. apply andb_true_iff in Hnc as [Hc Hnc].
  destruct (name_char_facts c Hc) as (Hsp & Hcol & Hsl & Hnl).
  assert (trim_char c = false) as Htc by (destruct (trim_char c) eqn:E; [apply trim_char_space in E; congruence|done]).
  destruct v as [|d v]; [done|]. apply negb_true_iff in Hv1. destruct (last (d :: v)) as [l|] eqn:El; [|done]. apply negb_true_iff in Hv2.
  assert (∀ x, isspace x = false → trim_char x = false) as Ht.
  { intros x Hx. destruct (trim_char x) eqn:E; [apply trim_char_space in E; congruence|done]. }
  split_and!.
  - apply (trim_id _ c ";"%byte); [done| |done|done]. change (#";") with [";"%byte]. rewrite !app_assoc. by rewrite last_snoc.
  - change (#"/*") with ["/"%byte; "*"%byte]. cbn [prefixb app]. destruct (beqb_spec "/"%byte c) as [<-|]; done.
  - done.
  - unfold prop_match. rewrite span_app; [|cbn [forallb]; by rewrite Hc|by intros ? ? [= <- _]].
    change (#": ") with [":"%byte; " "%byte]. cbn [app]. rewrite span_stop by done. cbn [snd].
    change (" "%byte :: d :: v ++ #";") with ((" "%byte :: d :: v) ++ [";"%byte]).
    rewrite span_app.
    + rewrite last_cons, El. cbn [span]. rewrite Hv1. done.
    + rewrite forallb_forall in Hvs |- *. intros x [<-|Hx]; [done|]. apply Hvs in Hx. by apply andb_true_iff in Hx as [? _].
    + by intros ? ? [= <- _].
  - by apply (trim_id _ d l); auto.
  - rewrite !not_elem_of_app. split_and!; [|by apply notin_of_bool| |by apply notin_of_bool].
    + intros [Hx|Hin]%elem_of_cons; [done|]. rewrite forallb_forall in Hnc.
      apply list_elem_of_In, Hnc, name_char_facts in Hin. naive_solver.
    + intros Hin%list_elem_of_In. rewrite forallb_forall in Hvs. by apply Hvs, andb_true_iff in Hin as [_ ?].
Qed.

Lemma scan_lines ps : ∀ o m, Forall (λ p, prop_ok p = true) ps →
  ∃ m', foldl (λ st line, scan_line line st) (Scan [] false o m) (prop_line <$> ps) =
    Scan [] false (foldl (λ o p, obj_insert p.1 p.2 o) o ps) m'.
Proof.
  induction ps as [|p ps IH]; intros o m Hps; [by exists m|].
  apply Forall_cons in Hps as [Hp Hps]. cbn [foldl fmap list_fmap].
  destruct (prop_line_match p Hp) as (Ht & Hc & Hne & Hm & Htv & _).
  assert (scan_line (prop_line p) (Scan [] false o m) = Scan [] false (obj_insert p.1 p.2 o) (obj_insert p.1 ([], []) m)) as ->.
  { unfold scan_line. rewrite Ht. apply bytes_eqb_false in Hne. rewrite Hne, Hc. cbn [lastComment inComment].
    rewrite Hm. destruct p as [n v]. cbn in Htv. rewrite Htv. done. }
  by apply IH.
Qed.

(** ** Properties *)

(** Colours survive the editor.  A colour "#rrggbb" written in any of the
    formats without an alpha channel reads back as the same "#rrggbb". *)
Theorem color_roundtrip r g b ty :
  0 <= r < 256 → 0 <= g < 256 → 0 <= b < 256 → ty = RawRGB ∨ ty = RGB ∨ ty = Hex →
  ∃ s, convert_from_hex (#"#" ++ hex6 r g b) ty = Ok (Some s) ∧ convert_to_hex s ty = Ok (Some (#"#" ++ hex6 r g b)).
Proof.
  intros Hr Hg Hb Hty. pose proof (from_hex_components r g b Hr Hg Hb [] ty) as Hf. rewrite app_nil_r in Hf.
  pose proof (rgb_text_values r g b Hr Hg Hb) as Hv.
  destruct Hty as [->|[->| ->]]; rewrite (Hf ltac:(done)); eexists; (split; [reflexivity|]); [| |done].
  - apply (to_hex_rgb _ (rgb_text r g b)); [by left|done|done].
  - apply (to_hex_rgb _ (rgb_text r g b)); [by right| |done].
    apply (inside_parens #"rgb"); [by apply notin_of_bool..|]. by apply rgb_text_no.
Qed.

(** A colour with an alpha channel does not survive: the alpha is written
    with two decimals and read back as an integer, so every alpha below 254
    comes back as fully transparent (and 254 as opaque). *)
Theorem rgba_alpha_lost r g b n ty :
  0 <= r < 256 → 0 <= g < 256 → 0 <= b < 256 → 0 <= n < 256 → ty = RawRGBA ∨ ty = RGBA →
  ∃ s, convert_from_hex (#"#" ++ hex6 r g b ++ fmt_02x n) ty = Ok (Some s) ∧
    convert_to_hex s ty = Ok (Some (#"#" ++ hex6 r g b ++ (if n <? 254 then #"00" else #"ff"))).
Proof.
  intros Hr Hg Hb Hn Hty. rewrite (from_hex_components r g b Hr Hg Hb) by (by destruct Hty as [-> | ->]).
  destruct (alpha_facts n Hn) as (Hs & Hc & Hp). pose proof (rgba_text_values r g b Hr Hg Hb (alpha_text n) (alpha_read n) Hc Hs) as Hv.
  set (t := rgb_text r g b ++ #", " ++ alpha_text n) in *.
  exists (if bool_decide (ty = RawRGBA) then t else #"rgba(" ++ t ++ #")"). split.
  - destruct (component_facts r Hr) as (?&?&E1&_), (component_facts g Hg) as (?&?&E2&_),
      (component_facts b Hb) as (?&?&E3&_), (component_facts n Hn) as (?&?&E4&S4&_).
    unfold hex6, t, alpha_text, rgb_text. rewrite E1, E2, E3, E4.
    destruct Hty as [-> | ->]; unfold format_color, substr; cbn [length app Nat.eqb Nat.ltb Nat.leb take drop mbind outcome_bind];
      rewrite S4; cbn [mbind outcome_bind]; by rewrite <- ?app_assoc.
  - replace (if n <? 254 then #"00" else #"ff") with (fmt_02x (alpha_read n * 255)) by (unfold alpha_read; by destruct (n <? 254)).
    apply (to_hex_rgba _ t); [done| |exact Hv|unfold alpha_read; destruct (n <? 254); lia].
    destruct Hty as [-> | ->]; [done|]. apply (inside_parens #"rgba"); [by apply notin_of_bool..|].
    unfold t. rewrite !not_elem_of_app. split_and!; [by apply rgb_text_no|by apply notin_of_bool|done].
Qed.

(** A block of properties, one per line, is read back: every property with
    a well-formed name and a trimmed value without semicolon is found with
    that value, and the last of several values of a name wins. *)
Theorem properties_roundtrip ps :
  ps ≠ [] → Forall (λ p, prop_ok p = true) ps →
  properties (parse_properties (join "010"%byte (prop_line <$> ps))) = obj_of ps.
Proof.
  intros Hne Hps. unfold parse_properties, obj_of.
  assert (Forall (λ l, "010"%byte ∉ l) (prop_line <$> ps)) as Hl.
  { apply Forall_fmap. eapply Forall_impl; [exact Hps|]. intros p Hp. by apply prop_line_match. }
  destruct (exists_last Hne) as (ps' & p & ->). rewrite fmap_app in *. apply Forall_app in Hl as [Hl1 Hl2].
  apply Forall_app in Hps as [Hps1 Hps2]. cbn [fmap list_fmap] in *.
  rewrite tokens_last; [|done|by inversion Hl2|by inversion Hps2; apply prop_line_match].
  destruct (scan_lines (ps' ++ [p]) [] []) as [m' E]; [by apply Forall_app|]. rewrite fmap_app in E. cbn [fmap list_fmap] in E.
  by rewrite E.
Qed.

Lemma properties_roundtrip_witness :
  properties (parse_properties (join "010"%byte (prop_line <$> [(#"--a", #"#fff"); (#"--b", #"rgb(1, 2, 3)")]))) =
    [(#"--a", #"#fff"); (#"--b", #"rgb(1, 2, 3)")].
Proof. apply (properties_roundtrip [(#"--a", #"#fff"); (#"--b", #"rgb(1, 2, 3)")]); [done|]. by repeat constructor. Defined.

Lemma color_roundtrip_witness :
  ∃ s, convert_from_hex #"#0a14ff" RGB = Ok (Some s) ∧ convert_to_hex s RGB = Ok (Some #"#0a14ff").
Proof. apply (color_roundtrip 10 20 255 RGB); [lia|lia|lia|auto]. Defined.

Lemma rgba_alpha_lost_witness :
  ∃ s, convert_from_hex #"#0a14ff80" RGBA = Ok (Some s) ∧ convert_to_hex s RGBA = Ok (Some #"#0a14ff00").
Proof. apply (rgba_alpha_lost 10 20 255 128 RGBA); [lia|lia|lia|lia|auto]. Defined.

(** A stylesheet can make the reader access a vector out of bounds: the number
    of components of a colour function is not checked. *)
Theorem short_color_is_undefined :
  parse_root_colors (Some #":root{--a: rgb(1, 2);}") = UB ∧ parse_root_colors (Some #":root{--a: rgba(1, 2, 3);}") = UB.
Proof. split; vm_compute; reflexivity. Qed.
