(* ===== verification/Semver.v ===== *)
(** * Semver: version parsing and precedence

    Models [src/src/util/semver.cc] function by function, with its error
    texts, and relates it to Semantic Versioning: the grammar of accepted
    strings and the precedence order. *)

From S2P Require Import Prelude.

(** ** The code *)

Definition dot : byte := "."%byte.
Definition dash : byte := "-"%byte.
Definition plus : byte := "+"%byte.
Definition digit0 : byte := "0"%byte.

Definition is_valid_identifier (id : bytes) (allowDash : bool) : bool :=
  match id with
  | [] => false
  | _ => forallb (λ c, negb (negb (isalnum c) && negb (allowDash && beqb c dash))) id
  end.

Definition has_leading_zero (s : bytes) : bool :=
  (1 <? len s) && match s with c :: _ => beqb c digit0 | [] => false end.

(** The value of a digit string; [strtol] saturates at [LONG_MAX] and sets
    [ERANGE] beyond it. *)
Definition dec_val (s : bytes) : Z := foldl (λ a c, a * 10 + (b2z c - 48)) 0 s.
Definition LONG_MAX : Z := 2 ^ 63 - 1.
Definition strtol (s : bytes) : Z * bool :=
  if LONG_MAX <? dec_val s then (LONG_MAX, true) else (dec_val s, false).

Definition all_digits (s : bytes) : bool := forallb isdigit s.

Definition parse_int (s : bytes) : outcome Z :=
  _ ← throw_if (bytes_eqb s [] || negb (all_digits s)) (#"Invalid numeric part: " ++ s);
  _ ← throw_if (has_leading_zero s) (#"Leading zeros not allowed in numeric parts: " ++ s);
  let '(val, erange) := strtol s in
  _ ← throw_if (erange || (val <? 0) || (INT_MAX <? val))
        (#"Numeric part out of range or invalid: " ++ s);
  Ok val.

(** The loop of [validate] over the dot-separated identifiers. *)
Fixpoint validate_parts (parts : list bytes) (str context : bytes) : outcome () :=
  match parts with
  | [] => Ok ()
  | part :: parts =>
      _ ← throw_if (bytes_eqb part []) (#"Empty identifier in " ++ context ++ #": " ++ str);
      _ ← throw_if (negb (is_valid_identifier part true))
            (#"Invalid characters in " ++ context ++ #" identifier: " ++ part);
      let isNumeric := all_digits part in
      _ ← throw_if (isNumeric && has_leading_zero part && bytes_eqb context #"prerelease")
            (#"Leading zeros not allowed in numeric prerelease identifier: " ++ part);
      validate_parts parts str context
  end.

Definition validate (str context : bytes) : outcome () :=
  _ ← throw_if (bytes_eqb str []) (#"Empty " ++ context ++ #" not allowed");
  validate_parts (split dot str) str context.

Record semver_version := SemverVersion {
  major : Z;
  minor : Z;
  patch : Z;
  prerelease : bytes;
  build : bytes;
}.

(** The part before and after the first separator, as [parse] extracts build
    metadata and prerelease. *)
Definition extract (sep : byte) (core context empty_msg : bytes) : outcome (bytes * bytes) :=
  match find_char sep core with
  | None => Ok (core, [])
  | Some pos =>
      _ ← throw_if (Z.of_nat pos =? len core - 1) empty_msg;
      let rest := drop (S pos) core in
      let core := take pos core in
      _ ← validate rest context;
      Ok (core, rest)
  end.

Definition parse (version : bytes) : outcome semver_version :=
  _ ← throw_if (bytes_eqb version []) #"Empty version string";
  _ ← throw_if (bool_decide (head version = Some dot) || bool_decide (last version = Some dot))
        #"Version cannot start or end with '.'";
  '(core, build) ← extract plus version #"build metadata" #"Empty build metadata after '+'";
  '(core, prerelease) ← extract dash core #"prerelease" #"Empty prerelease after '-'";
  match split dot core with
  | [p0; p1; p2] =>
      major ← parse_int p0;
      minor ← parse_int p1;
      patch ← parse_int p2;
      _ ← throw_if ((major <? 0) || (minor <? 0) || (patch <? 0))
            #"Version numbers cannot be negative";
      Ok (SemverVersion major minor patch prerelease build)
  | _ => Throw #"Semver requires exactly 3 numeric parts (major.minor.patch)"
  end.

(** The loop of [cmp_pre_release] over the common length; [None] when all
    compared identifiers are equal. *)
Fixpoint cmp_parts (parts1 parts2 : list bytes) : outcome (option Z) :=
  match parts1, parts2 with
  | p1 :: parts1, p2 :: parts2 =>
      _ ← throw_if (bytes_eqb p1 [] || bytes_eqb p2 []) #"Empty prerelease identifier encountered";
      let p1IsNumeric := all_digits p1 in
      let p2IsNumeric := all_digits p2 in
      if p1IsNumeric && p2IsNumeric then
        let '(n1, e1) := strtol p1 in
        let '(n2, e2) := strtol p2 in
        _ ← throw_if (e1 || e2 || (INT_MAX <? n1) || (INT_MAX <? n2))
              #"Invalid numeric prerelease identifier";
        if negb (n1 =? n2) then Ok (Some (if n1 <? n2 then -1 else 1))
        else cmp_parts parts1 parts2
      else if p1IsNumeric then Ok (Some (-1))
      else if p2IsNumeric then Ok (Some 1)
      else if negb (bytes_eqb p1 p2) then Ok (Some (if bytes_ltb p1 p2 then -1 else 1))
      else cmp_parts parts1 parts2
  | _, _ => Ok None
  end.

Definition cmp_pre_release (pre1 pre2 : bytes) : outcome Z :=
  match pre1, pre2 with
  | [], [] => Ok 0
  | [], _ => Ok 1
  | _, [] => Ok (-1)
  | _, _ =>
      let parts1 := split dot pre1 in
      let parts2 := split dot pre2 in
      r ← cmp_parts parts1 parts2;
      match r with
      | Some c => Ok c
      | None =>
          if negb (len parts1 =? len parts2)
          then Ok (if len parts1 <? len parts2 then -1 else 1)
          else Ok 0
      end
  end.

Definition cmp (v1 v2 : bytes) : outcome Z :=
  try_catch
    (ver1 ← parse v1;
     ver2 ← parse v2;
     if negb (major ver1 =? major ver2) then
       Ok (if major ver1 <? major ver2 then -1 else 1)
     else if negb (minor ver1 =? minor ver2) then
       Ok (if minor ver1 <? minor ver2 then -1 else 1)
     else if negb (patch ver1 =? patch ver2) then
       Ok (if patch ver1 <? patch ver2 then -1 else 1)
     else cmp_pre_release (prerelease ver1) (prerelease ver2))
    (λ _, Throw #"Invalid semver format").

Example cmp_release_vs_prerelease : cmp #"1.0.0" #"1.0.0-alpha.1" = Ok 1.
Proof. vm_compute. reflexivity. Qed.
Example cmp_numeric_ids : cmp #"1.0.0-alpha.2" #"1.0.0-alpha.10+b" = Ok (-1).
Proof. vm_compute. reflexivity. Qed.
Example parse_rejects_leading_zero : is_ok (parse #"1.02.3") = false.
Proof. vm_compute. reflexivity. Qed.

(** ** The grammar *)

(** A numeric component: digits without a leading zero, at most [INT_MAX]. *)
Definition num_ok (s : bytes) : Prop :=
  s ≠ [] ∧ all_digits s = true ∧ has_leading_zero s = false ∧ dec_val s <= INT_MAX.

(** A dot-separated list of identifiers; [strict] forbids leading zeros in
    the numeric ones (prereleases). *)
Definition ident_ok (strict : bool) (p : bytes) : Prop :=
  p ≠ [] ∧ Forall (λ c, isalnum c = true ∨ c = dash) p ∧
  (strict = true → all_digits p = true → has_leading_zero p = false).
Definition idents_ok (strict : bool) (s : bytes) : Prop := Forall (ident_ok strict) (split dot s).

Definition opt_part (sep : byte) (s : bytes) : bytes := match s with [] => [] | _ => sep :: s end.

Definition render (a b c pre bld : bytes) : bytes :=
  a ++ dot :: b ++ dot :: c ++ opt_part dash pre ++ opt_part plus bld.

Lemma dec_val_nonneg s : all_digits s = true → 0 <= dec_val s.
Proof.
  unfold dec_val, all_digits. assert (∀ a, 0 <= a → forallb isdigit s = true →
    0 <= foldl (λ a c, a * 10 + (b2z c - 48)) a s) as H; [|by apply H].
  induction s as [|c s IH]; intros a Ha Hd; simpl in *; [done|].
  apply andb_true_iff in Hd as [Hc Hd]. apply IH; [|done].
  unfold isdigit, in_range in Hc. bool_to_prop. lia.
Qed.

Lemma parse_int_iff s v : parse_int s = Ok v ↔ num_ok s ∧ v = dec_val s.
Proof.
  unfold parse_int, num_ok. destruct (bytes_eqb s []) eqn:E1; bind_simpl.
  { apply bytes_eqb_true in E1. naive_solver. }
  apply bytes_eqb_false in E1. destruct (all_digits s) eqn:E2; bind_simpl; cbn [negb]; bind_simpl; [|naive_solver].
  destruct (has_leading_zero s) eqn:E3; bind_simpl; [naive_solver|].
  pose proof (dec_val_nonneg s E2). unfold strtol, LONG_MAX.
  destruct (Z.ltb_spec (2 ^ 63 - 1) (dec_val s)); bind_simpl.
  { unfold INT_MAX. split; [done|]. intros [(_ & _ & _ & ?) _]. lia. }
  destruct (Z.ltb_spec (dec_val s) 0); [lia|]. bind_simpl.
  destruct (Z.ltb_spec INT_MAX (dec_val s)); bind_simpl.
  - split; [done|]. intros [(_ & _ & _ & ?) _]. lia.
  - split; [intros [= <-]; naive_solver | by intros [_ ->]].
Qed.

Lemma valid_identifier_iff p :
  is_valid_identifier p true = true ↔ p ≠ [] ∧ Forall (λ c, isalnum c = true ∨ c = dash) p.
Proof.
  unfold is_valid_identifier. destruct p as [|c p]; [naive_solver|].
  rewrite forallb_forall, Forall_forall. split.
  - intros H. split; [done|]. intros x Hx%list_elem_of_In. specialize (H x Hx).
    destruct (isalnum x); [by left|]. right. apply beqb_true. by destruct (beqb x dash).
  - intros [_ H] x Hx%list_elem_of_In. destruct (H x Hx) as [->| ->]; [done|].
    by rewrite beqb_refl, andb_false_r.
Qed.

Definition is_strict (context : bytes) : bool := bytes_eqb context #"prerelease".

Lemma validate_parts_iff parts str ctx :
  validate_parts parts str ctx = Ok () ↔ Forall (ident_ok (is_strict ctx)) parts.
Proof.
  induction parts as [|p ps IH]; cbn [validate_parts]; [naive_solver|].
  rewrite Forall_cons, <- IH. unfold ident_ok at 1. fold (is_strict ctx).
  pose proof (valid_identifier_iff p) as Hv.
  destruct (bytes_eqb p []) eqn:E1; bind_simpl.
  { apply bytes_eqb_true in E1. naive_solver. }
  apply bytes_eqb_false in E1. destruct (is_valid_identifier p true) eqn:E2; cbn [negb]; bind_simpl; [|naive_solver].
  destruct (all_digits p) eqn:E3, (has_leading_zero p) eqn:E4, (is_strict ctx) eqn:E5; bind_simpl; naive_solver.
Qed.

Lemma validate_iff s ctx : validate s ctx = Ok () ↔ idents_ok (is_strict ctx) s.
Proof.
  unfold validate, idents_ok. rewrite <- (validate_parts_iff _ s).
  destruct (bytes_eqb s []) eqn:E; bind_simpl; [|done].
  apply bytes_eqb_true in E as ->. done.
Qed.

Lemma idents_ok_nil strict : ¬ idents_ok strict [].
Proof. unfold idents_ok. simpl. rewrite Forall_singleton. intros (? & _). done. Qed.

Lemma extract_iff sep core ctx msg c r :
  extract sep core ctx msg = Ok (c, r) ↔
  core = c ++ opt_part sep r ∧ sep ∉ c ∧ (r ≠ [] → idents_ok (is_strict ctx) r).
Proof.
  unfold extract. split.
  - destruct (find_char sep core) as [pos|] eqn:E.
    + intros H. inv_ok. injection H as <- <-. destruct x0. apply validate_iff in Hx0.
      assert (drop (S pos) core ≠ []) as Hne by (intros Hn; rewrite Hn in Hx0; by apply idents_ok_nil in Hx0).
      split_and!; [|apply find_char_Some in E as [_ E]; exact E|done].
      rewrite (find_char_split _ _ _ E) at 1. by destruct (drop (S pos) core).
    + intros [= <- <-]. rewrite app_nil_r. split_and!; [done|by apply find_char_None|done].
  - intros (-> & Hn & Hr). destruct r as [|x r]; simpl.
    + by rewrite app_nil_r, (find_char_app_None sep c Hn).
    + rewrite find_char_app by done.
      destruct (Z.eqb_spec (Z.of_nat (length c)) (len (c ++ sep :: x :: r) - 1)) as [He|_].
      { unfold len in He. rewrite length_app in He. simpl in He. lia. }
      bind_simpl. rewrite take_app_length, drop_app_ge by lia.
      replace (S (length c) - length c)%nat with 1%nat by lia. simpl.
      specialize (Hr ltac:(done)). apply validate_iff in Hr. rewrite Hr. done.
Qed.

Lemma idents_ok_chars strict s :
  idents_ok strict s → Forall (λ c, isalnum c = true ∨ c = dash ∨ c = dot) s.
Proof.
  unfold idents_ok. intros H. rewrite <- (join_split dot s).
  assert (Forall (λ p, Forall (λ c, isalnum c = true ∨ c = dash ∨ c = dot) p) (split dot s)) as H'.
  { eapply Forall_impl; [exact H|]. intros p (_ & Hp & _). eapply Forall_impl; [exact Hp|]. naive_solver. }
  clear H. induction H' as [|p ps Hp Hps IH]; [done|]. destruct ps as [|q ps]; [done|].
  rewrite join_cons by done. apply Forall_app. split; [done|]. constructor; [auto|done].
Qed.

Lemma idents_ok_last strict s : idents_ok strict s → last s ≠ Some dot.
Proof.
  unfold idents_ok. intros H Hl. apply last_Some in Hl as [s' ->].
  rewrite split_snoc in H. apply Forall_app in H as [_ H]. apply Forall_singleton in H as [? _]. done.
Qed.

Lemma digits_chars s : all_digits s = true → Forall (λ c, isdigit c = true) s.
Proof.
  unfold all_digits. rewrite forallb_forall, Forall_forall. intros H x Hx. by apply H, list_elem_of_In.
Qed.

Lemma num_ok_notin s c : num_ok s → isdigit c = false → c ∉ s.
Proof.
  intros (_ & Hd & _) Hc Hin. apply digits_chars in Hd. eapply Forall_forall in Hd; [|done]. congruence.
Qed.

Lemma render_core a b c : num_ok a → num_ok b → num_ok c →
  split dot (a ++ dot :: b ++ dot :: c) = [a; b; c] ∧
  dash ∉ (a ++ dot :: b ++ dot :: c) ∧ plus ∉ (a ++ dot :: b ++ dot :: c).
Proof.
  intros Ha Hb Hc. split_and!.
  - rewrite !split_app by (by apply num_ok_notin). rewrite split_no_delim by (by apply num_ok_notin). done.
  - repeat (rewrite not_elem_of_app || rewrite not_elem_of_cons);
      split_and!; (by apply num_ok_notin) || done.
  - repeat (rewrite not_elem_of_app || rewrite not_elem_of_cons);
      split_and!; (by apply num_ok_notin) || done.
Qed.

Lemma plus_notin_idents strict s : idents_ok strict s → plus ∉ s.
Proof.
  intros H Hin. apply idents_ok_chars in H. eapply Forall_forall in H; [|done].
  destruct H as [H|[H|H]]; vm_compute in H; done.
Qed.

Lemma last_opt_part sep strict s d :
  (s ≠ [] → idents_ok strict s) → s ≠ [] → last (d ++ opt_part sep s) ≠ Some dot.
Proof.
  intros Hs Hne. specialize (Hs Hne). destruct s as [|x s]; [done|].
  cbn [opt_part]. rewrite last_app_cons, last_cons_cons. by eapply idents_ok_last.
Qed.

Lemma last_num c : num_ok c → last c ≠ Some dot.
Proof.
  intros Hc Hl. apply last_Some in Hl as [c' ->].
  assert (dot ∉ c' ++ [dot]) as Hn by (by apply num_ok_notin). apply Hn, elem_of_app. right. by left.
Qed.

Lemma parse_render a b c pre bld :
  num_ok a → num_ok b → num_ok c →
  (pre ≠ [] → idents_ok true pre) → (bld ≠ [] → idents_ok false bld) →
  parse (render a b c pre bld) = Ok (SemverVersion (dec_val a) (dec_val b) (dec_val c) pre bld).
Proof.
  intros Ha Hb Hc Hpre Hbld. destruct (render_core a b c Ha Hb Hc) as (Hsplit & Hd & Hp).
  set (core := a ++ dot :: b ++ dot :: c) in *.
  assert (render a b c pre bld = (core ++ opt_part dash pre) ++ opt_part plus bld) as ->
    by (unfold render, core; app_norm; done).
  unfold parse. set (v := (core ++ _) ++ _).
  destruct a as [|a0 a]; [by destruct Ha|].
  assert (bytes_eqb v [] = false) as -> by by apply bytes_eqb_false. bind_simpl.
  assert (head v ≠ Some dot) as Hhd.
  { simpl. intros [= ->]. assert (dot ∉ dot :: a) as Hn by by apply num_ok_notin. apply Hn. left. }
  assert (last v ≠ Some dot) as Hlast.
  { unfold v. destruct (decide (bld = [])) as [->|]; [|by eapply last_opt_part].
    cbn [opt_part]. rewrite app_nil_r. destruct (decide (pre = [])) as [->|]; [|by eapply last_opt_part].
    cbn [opt_part]. rewrite app_nil_r. unfold core. rewrite last_app_cons.
    change (dot :: b ++ dot :: c) with ((dot :: b) ++ dot :: c). rewrite last_app_cons.
    pose proof (last_num c Hc). destruct c; [by destruct Hc|]. by rewrite last_cons_cons. }
  rewrite !bool_decide_eq_false_2 by done. bind_simpl.
  assert (extract plus v #"build metadata" #"Empty build metadata after '+'" = Ok (core ++ opt_part dash pre, bld)) as ->.
  { apply extract_iff. split_and!; [done| |done]. rewrite not_elem_of_app. split; [done|].
    destruct pre as [|x pre]; [apply not_elem_of_nil|]. simpl. rewrite not_elem_of_cons. split; [done|].
    eapply plus_notin_idents, Hpre. done. }
  bind_simpl.
  assert (extract dash (core ++ opt_part dash pre) #"prerelease" #"Empty prerelease after '-'" = Ok (core, pre)) as ->
    by (by apply extract_iff). bind_simpl. rewrite Hsplit.
  assert (∀ s, num_ok s → parse_int s = Ok (dec_val s)) as Hint by (intros; by apply parse_int_iff).
  rewrite (Hint _ Ha), (Hint _ Hb), (Hint _ Hc). bind_simpl.
  destruct Ha as (_ & Ha & _), Hb as (_ & Hb & _), Hc as (_ & Hc & _).
  apply dec_val_nonneg in Ha, Hb, Hc.
  destruct (Z.ltb_spec (dec_val (a0 :: a)) 0), (Z.ltb_spec (dec_val b) 0), (Z.ltb_spec (dec_val c) 0); try lia. done.
Qed.

Lemma parse_sound s v :
  parse s = Ok v →
  ∃ a b c, num_ok a ∧ num_ok b ∧ num_ok c ∧
    (prerelease v ≠ [] → idents_ok true (prerelease v)) ∧
    (build v ≠ [] → idents_ok false (build v)) ∧
    s = render a b c (prerelease v) (build v) ∧
    major v = dec_val a ∧ minor v = dec_val b ∧ patch v = dec_val c.
Proof.
  unfold parse. intros H. inv_ok. destruct x1 as [core bld]. inv_ok. destruct x1 as [core' pre].
  apply extract_iff in Hx1 as (-> & _ & Hb), Hx2 as (-> & _ & Hp).
  destruct (split dot core') as [|a [|b [|c [|]]]] eqn:Es; try done. inv_ok. subst v. cbn.
  apply parse_int_iff in Hx1 as [Ha ->], Hx2 as [Hb' ->], Hx3 as [Hc ->].
  exists a, b, c. split_and!; try done.
  rewrite <- (join_split dot core'), Es. unfold render. simpl. app_norm. done.
Qed.

(** ** Precedence *)

(** What a comparison function promises: it decides equality, swaps with its
    arguments and is transitive.  The instances below build the precedence
    order of versions from the order of integers and of bytes. *)
Class Ordered (A : Type) := {
  order : A → A → comparison;
  order_eq x y : order x y = Eq ↔ x = y;
  order_opp x y : order y x = CompOpp (order x y);
  order_lt x y z : order x y = Lt → order y z = Lt → order x z = Lt;
}.

Lemma order_refl `{Ordered A} x : order x x = Eq.
Proof. by apply order_eq. Qed.

#[export] Program Instance Z_ordered : Ordered Z := {| order := Z.compare |}.
Next Obligation. intros. apply Z.compare_eq_iff. Qed.
Next Obligation. intros. apply Z.compare_antisym. Qed.
Next Obligation. intros x y z. rewrite !Z.compare_lt_iff. lia. Qed.

#[export] Program Instance byte_ordered : Ordered byte :=
  {| order x y := Z.compare (b2z x) (b2z y) |}.
Next Obligation. intros. rewrite Z.compare_eq_iff. split; [apply b2z_inj | by intros ->]. Qed.
Next Obligation. intros. apply Z.compare_antisym. Qed.
Next Obligation. intros x y z. cbv beta. rewrite !Z.compare_lt_iff. lia. Qed.

Definition then_cmp (c d : comparison) : comparison := match c with Eq => d | _ => c end.

#[export] Program Instance prod_ordered `{Ordered A, Ordered B} : Ordered (A * B) :=
  {| order x y := then_cmp (order x.1 y.1) (order x.2 y.2) |}.
Next Obligation.
  intros A ? B ? [a b] [a' b']. simpl. destruct (order a a') eqn:E; simpl.
  - apply order_eq in E as ->. rewrite order_eq. naive_solver.
  - split; [done|]. intros [= -> ->]. by rewrite order_refl in E.
  - split; [done|]. intros [= -> ->]. by rewrite order_refl in E.
Qed.
Next Obligation.
  intros A ? B ? [a b] [a' b']. simpl. rewrite (order_opp a a'), (order_opp b b'). by destruct (order a a').
Qed.
Next Obligation.
  intros A ? B ? [a b] [a' b'] [a'' b'']. simpl.
  destruct (order a a') eqn:E1; simpl; [|intros _|done].
  - apply order_eq in E1 as ->. destruct (order a' a''); simpl; try done. apply order_lt.
  - destruct (order a' a'') eqn:E2; simpl; [|intros _|done].
    + apply order_eq in E2 as ->. by rewrite E1.
    + by rewrite (order_lt _ _ _ E1 E2).
Qed.

(** Lexicographic order on lists; a proper prefix comes first. *)
Fixpoint lex `{Ordered A} (l k : list A) : comparison :=
  match l, k with
  | [], [] => Eq
  | [], _ => Lt
  | _, [] => Gt
  | x :: l, y :: k => then_cmp (order x y) (lex l k)
  end.

#[export] Program Instance list_ordered `{Ordered A} : Ordered (list A) := {| order := lex |}.
Next Obligation.
  intros A ? l. induction l as [|x l IH]; intros [|y k]; simpl; try done.
  destruct (order x y) eqn:E; simpl.
  - apply order_eq in E as ->. rewrite IH. naive_solver.
  - split; [done|]. intros [= -> ->]. by rewrite order_refl in E.
  - split; [done|]. intros [= -> ->]. by rewrite order_refl in E.
Qed.
Next Obligation.
  intros A ? l. induction l as [|x l IH]; intros [|y k]; simpl; try done.
  rewrite (order_opp x y), IH. by destruct (order x y).
Qed.
Next Obligation.
  intros A ? l. induction l as [|x l IH]; intros [|y k] [|z m]; simpl; try done.
  destruct (order x y) eqn:E1; simpl; [|intros _|done].
  - apply order_eq in E1 as ->. destruct (order y z); simpl; try done. apply IH.
  - destruct (order y z) eqn:E2; simpl; [|intros _|done].
    + apply order_eq in E2 as ->. by rewrite E1.
    + by rewrite (order_lt _ _ _ E1 E2).
Qed.

(** A prerelease identifier: numeric identifiers come before the others. *)
Inductive ident := INum (n : Z) | IAlpha (s : bytes).

Definition ident_cmp (x y : ident) : comparison :=
  match x, y with
  | INum n, INum m => order n m
  | INum _, IAlpha _ => Lt
  | IAlpha _, INum _ => Gt
  | IAlpha s, IAlpha t => order s t
  end.

#[export] Program Instance ident_ordered : Ordered ident := {| order := ident_cmp |}.
Next Obligation. intros [n|s] [m|t]; unfold ident_cmp; rewrite ?order_eq; naive_solver. Qed.
Next Obligation. intros [n|s] [m|t]; try done; apply order_opp. Qed.
Next Obligation. intros [n|s] [m|t] [o|u]; try done; apply order_lt. Qed.

(** A release comes after all its prereleases. *)
Inductive stage := Pre (ids : list ident) | Release.

Definition stage_cmp (x y : stage) : comparison :=
  match x, y with
  | Pre a, Pre b => order a b
  | Pre _, Release => Lt
  | Release, Pre _ => Gt
  | Release, Release => Eq
  end.

#[export] Program Instance stage_ordered : Ordered stage := {| order := stage_cmp |}.
Next Obligation. intros [a|] [b|]; unfold stage_cmp; rewrite ?order_eq; naive_solver. Qed.
Next Obligation. intros [a|] [b|]; try done; apply order_opp. Qed.
Next Obligation. intros [a|] [b|] [c|]; try done; apply order_lt. Qed.

(** The precedence of a version: its three numbers and its stage. *)
Definition ident_of (p : bytes) : ident := if all_digits p then INum (dec_val p) else IAlpha p.
Definition stage_of (pre : bytes) : stage :=
  match pre with [] => Release | _ => Pre (ident_of <$> split dot pre) end.
Definition precedence (v : semver_version) : Z * (Z * (Z * stage)) :=
  (major v, (minor v, (patch v, stage_of (prerelease v)))).

Definition to_int (c : comparison) : Z := match c with Eq => 0 | Lt => -1 | Gt => 1 end.

(** The numeric prerelease identifiers that [cmp_pre_release] can compare. *)
Definition comparable (v : semver_version) : Prop :=
  Forall (λ p, all_digits p = true → dec_val p <= INT_MAX) (split dot (prerelease v)).

Lemma bytes_ltb_order a b : bytes_ltb a b = true ↔ order a b = Lt.
Proof.
  revert b. induction a as [|x a IH]; intros [|y b]; simpl; try done.
  destruct (Z.compare_spec (b2z x) (b2z y)) as [E|E|E]; simpl.
  - rewrite E, Z.ltb_irrefl, Z.eqb_refl. simpl. apply IH.
  - by rewrite (proj2 (Z.ltb_lt _ _) E).
  - destruct (Z.ltb_spec (b2z x) (b2z y)), (Z.eqb_spec (b2z x) (b2z y)); try lia. done.
Qed.

Lemma Z_step n m :
  if negb (n =? m) then to_int (order n m) = (if n <? m then -1 else 1) ∧ order n m ≠ Eq
  else n = m.
Proof.
  destruct (Z.eqb_spec n m) as [|Hne]; simpl; [done|].
  destruct (Z.compare_spec n m), (Z.ltb_spec n m); simpl; try lia; done.
Qed.

Lemma bytes_step (a b : bytes) :
  if negb (bytes_eqb a b) then to_int (order a b) = (if bytes_ltb a b then -1 else 1) ∧ order a b ≠ Eq
  else a = b.
Proof.
  destruct (bytes_eqb a b) eqn:E; simpl; [by apply bytes_eqb_true in E|].
  apply bytes_eqb_false in E. pose proof (bytes_ltb_order a b) as Hl.
  change (lex a b) with (order a b). destruct (order a b) eqn:Eo.
  - by apply order_eq in Eo.
  - by rewrite (proj2 Hl eq_refl).
  - destruct (bytes_ltb a b); [|done]. discriminate (proj1 Hl eq_refl).
Qed.

Definition parts_comparable (ps : list bytes) : Prop :=
  Forall (λ p, p ≠ [] ∧ (all_digits p = true → dec_val p <= INT_MAX)) ps.

(** One comparison of identifiers, then the rest. *)
Lemma cmp_parts_cons p1 ps1 p2 ps2 :
  parts_comparable (p1 :: ps1) → parts_comparable (p2 :: ps2) →
  cmp_parts (p1 :: ps1) (p2 :: ps2) =
    match order (ident_of p1) (ident_of p2) with
    | Eq => cmp_parts ps1 ps2
    | c => Ok (Some (to_int c))
    end.
Proof.
  intros [[N1 D1] _]%Forall_cons [[N2 D2] _]%Forall_cons. cbn [cmp_parts].
  apply bytes_eqb_false in N1, N2. rewrite N1, N2. bind_simpl. unfold ident_of.
  destruct (all_digits p1) eqn:E1, (all_digits p2) eqn:E2; cbn [andb]; try done.
  - specialize (D1 eq_refl). specialize (D2 eq_refl). unfold strtol, LONG_MAX.
    assert (INT_MAX < 2 ^ 63 - 1) by done.
    rewrite !(proj2 (Z.ltb_ge (2 ^ 63 - 1) _)) by lia. rewrite !(proj2 (Z.ltb_ge INT_MAX _)) by lia. bind_simpl.
    pose proof (Z_step (dec_val p1) (dec_val p2)) as Hs. cbn [order ident_ordered ident_cmp].
    destruct (negb _); [destruct Hs as [<- ?]; by destruct (order _ _) | by rewrite Hs, order_refl].
  - pose proof (bytes_step p1 p2) as Hs. cbn [order ident_ordered ident_cmp].
    destruct (negb _); [destruct Hs as [<- ?]; by destruct (order _ _) | by rewrite Hs, order_refl].
Qed.

Lemma cmp_parts_lex ps1 : ∀ ps2,
  parts_comparable ps1 → parts_comparable ps2 →
  ∃ r, cmp_parts ps1 ps2 = Ok r ∧
    to_int (lex (ident_of <$> ps1) (ident_of <$> ps2)) =
      match r with
      | Some c => c
      | None => if negb (len ps1 =? len ps2) then if len ps1 <? len ps2 then -1 else 1 else 0
      end.
Proof.
  induction ps1 as [|p1 ps1 IH]; intros [|p2 ps2] H1 H2; try (eexists; split; done).
  rewrite cmp_parts_cons by done. cbn [fmap list_fmap lex].
  destruct (order (ident_of p1) (ident_of p2)) eqn:Eo; cbn [then_cmp]; [|eexists; split; done..].
  apply Forall_cons in H1 as [_ H1], H2 as [_ H2]. destruct (IH ps2 H1 H2) as (r & -> & Hr).
  exists r. split; [done|]. rewrite Hr. destruct r; [done|]. unfold len. cbn [length].
  rewrite !Nat2Z.inj_succ.
  replace (Z.succ (Z.of_nat (length ps1)) =? Z.succ (Z.of_nat (length ps2))) with (Z.of_nat (length ps1) =? Z.of_nat (length ps2))
    by (apply eq_true_iff_eq; rewrite !Z.eqb_eq; lia).
  replace (Z.succ (Z.of_nat (length ps1)) <? Z.succ (Z.of_nat (length ps2))) with (Z.of_nat (length ps1) <? Z.of_nat (length ps2))
    by (apply eq_true_iff_eq; rewrite !Z.ltb_lt; lia). done.
Qed.

Lemma comparable_parts s v : parse s = Ok v → prerelease v ≠ [] → comparable v →
  parts_comparable (split dot (prerelease v)).
Proof.
  intros Hp Hne Hc. apply parse_sound in Hp as (_ & _ & _ & _ & _ & _ & Hi & _).
  specialize (Hi Hne). unfold comparable, idents_ok in *. apply Forall_and. split; [|done].
  eapply Forall_impl; [exact Hi|]. by intros p [? _].
Qed.

Lemma cmp_pre_release_stage s1 v1 s2 v2 :
  parse s1 = Ok v1 → parse s2 = Ok v2 → comparable v1 → comparable v2 →
  cmp_pre_release (prerelease v1) (prerelease v2) =
    Ok (to_int (order (stage_of (prerelease v1)) (stage_of (prerelease v2)))).
Proof.
  intros P1 P2 C1 C2. pose proof (comparable_parts _ _ P1) as H1. pose proof (comparable_parts _ _ P2) as H2.
  unfold cmp_pre_release, stage_of. destruct (prerelease v1) as [|c1 q1] eqn:E1, (prerelease v2) as [|c2 q2] eqn:E2; try done.
  destruct (cmp_parts_lex _ _ (H1 ltac:(done) C1) (H2 ltac:(done) C2)) as (r & -> & Hr).
  bind_simpl. cbn [order stage_ordered stage_cmp list_ordered]. rewrite Hr. destruct r; [done|]. by destruct (negb _).
Qed.

Lemma cmp_precedence s1 s2 v1 v2 :
  parse s1 = Ok v1 → parse s2 = Ok v2 → comparable v1 → comparable v2 →
  cmp s1 s2 = Ok (to_int (order (precedence v1) (precedence v2))).
Proof.
  intros P1 P2 C1 C2. unfold cmp. rewrite P1, P2. bind_simpl. unfold precedence.
  cbn [order prod_ordered fst snd].
  repeat match goal with |- context [negb (?n =? ?m)] =>
    let Hs := fresh "Hs" in pose proof (Z_step n m) as Hs;
    destruct (negb (n =? m)); [destruct Hs as [<- Hs]; by destruct (order n m) | rewrite Hs, order_refl; cbn [then_cmp]; clear Hs]
  end.
  rewrite (cmp_pre_release_stage _ _ _ _ P1 P2 C1 C2). done.
Qed.

(** ** Properties *)

(** [semver::parse] accepts exactly the strings
    [major.minor.patch[-prerelease][+build]] whose numbers are digit strings
    without leading zeros up to [INT_MAX], whose identifiers are non-empty
    words over letters, digits and dashes, and whose numeric prerelease
    identifiers have no leading zero; it returns those parts. *)
Theorem parse_grammar s v :
  parse s = Ok v ↔
  ∃ a b c, num_ok a ∧ num_ok b ∧ num_ok c ∧
    (prerelease v ≠ [] → idents_ok true (prerelease v)) ∧
    (build v ≠ [] → idents_ok false (build v)) ∧
    s = render a b c (prerelease v) (build v) ∧
    major v = dec_val a ∧ minor v = dec_val b ∧ patch v = dec_val c.
Proof.
  split; [apply parse_sound|].
  intros (a & b & c & Ha & Hb & Hc & Hp & Hbd & -> & HM & Hm & HP).
  rewrite parse_render by done. destruct v. simpl in *. congruence.
Qed.

(** C37: on accepted versions whose numeric prerelease identifiers fit an
    [int], [semver::cmp] is the precedence order of Semantic Versioning:
    numbers first, a release after its prereleases, identifiers from left to
    right, numeric before alphanumeric, a shorter list first; build metadata
    plays no role. *)
Theorem cmp_is_precedence s1 s2 v1 v2 :
  parse s1 = Ok v1 → parse s2 = Ok v2 → comparable v1 → comparable v2 →
  cmp s1 s2 = Ok (to_int (order (precedence v1) (precedence v2))).
Proof. apply cmp_precedence. Qed.

Lemma comparable_of_bool v :
  forallb (λ p, negb (all_digits p) || (dec_val p <=? INT_MAX)) (split dot (prerelease v)) = true → comparable v.
Proof.
  unfold comparable. rewrite forallb_forall, Forall_forall. intros H p Hp Hd.
  specialize (H p (proj1 (list_elem_of_In _ _) Hp)). rewrite Hd in H. simpl in H. by apply Z.leb_le in H.
Qed.

Lemma cmp_is_precedence_witness :
  cmp #"1.2.0-rc.9" #"1.2.0-rc.10+linux" = Ok (-1).
Proof.
  exact (cmp_is_precedence #"1.2.0-rc.9" #"1.2.0-rc.10+linux"
    (SemverVersion 1 2 0 #"rc.9" []) (SemverVersion 1 2 0 #"rc.10" #"linux")
    ltac:(vm_compute; reflexivity) ltac:(vm_compute; reflexivity)
    ltac:(apply comparable_of_bool; vm_compute; reflexivity)
    ltac:(apply comparable_of_bool; vm_compute; reflexivity)).
Defined.

Lemma order_preorder `{Ordered A} (x y z : A) :
  (∃ c, Ok (to_int (order x y)) = Ok c ∧ Ok (to_int (order y x)) = Ok (- c)) ∧
  (Ok (to_int (order x y)) = Ok (-1) → Ok (to_int (order y z)) = Ok (-1) → Ok (to_int (order x z)) = Ok (-1)) ∧
  (Ok (to_int (order x y)) = Ok 0 → Ok (to_int (order x z)) = Ok (to_int (order y z))).
Proof.
  split_and!.
  - eexists. split; [done|]. rewrite (order_opp x y). by destruct (order x y).
  - destruct (order x y) eqn:E1; try done. destruct (order y z) eqn:E2; try done.
    by rewrite (order_lt _ _ _ E1 E2).
  - destruct (order x y) eqn:E1; try done. by apply order_eq in E1 as ->.
Qed.

(** Among accepted versions with such identifiers, [semver::cmp] never
    fails and is a total preorder: swapping the arguments negates the answer,
    "older than" is transitive, and versions that compare equal are
    interchangeable in every other comparison. *)
Theorem cmp_total_preorder s1 s2 s3 v1 v2 v3 :
  parse s1 = Ok v1 → parse s2 = Ok v2 → parse s3 = Ok v3 →
  comparable v1 → comparable v2 → comparable v3 →
  (∃ c, cmp s1 s2 = Ok c ∧ cmp s2 s1 = Ok (- c)) ∧
  (cmp s1 s2 = Ok (-1) → cmp s2 s3 = Ok (-1) → cmp s1 s3 = Ok (-1)) ∧
  (cmp s1 s2 = Ok 0 → cmp s1 s3 = cmp s2 s3).
Proof.
  intros P1 P2 P3 C1 C2 C3. rewrite !(cmp_precedence _ _ _ _ P1 P2), !(cmp_precedence _ _ _ _ P2 P1),
    !(cmp_precedence _ _ _ _ P2 P3), !(cmp_precedence _ _ _ _ P1 P3) by done.
  apply order_preorder.
Qed.

Lemma cmp_total_preorder_witness : cmp #"1.0.0-a" #"1.0.1" = Ok (-1).
Proof.
  assert (Pa : parse #"1.0.0-a" = Ok (SemverVersion 1 0 0 #"a" [])) by (vm_compute; reflexivity).
  assert (Pb : parse #"1.0.0" = Ok (SemverVersion 1 0 0 [] [])) by (vm_compute; reflexivity).
  assert (Pc : parse #"1.0.1" = Ok (SemverVersion 1 0 1 [] [])) by (vm_compute; reflexivity).
  exact (proj1 (proj2 (cmp_total_preorder _ _ _ _ _ _ Pa Pb Pc
    ltac:(apply comparable_of_bool; vm_compute; reflexivity)
    ltac:(apply comparable_of_bool; vm_compute; reflexivity)
    ltac:(apply comparable_of_bool; vm_compute; reflexivity)))
    ltac:(vm_compute; reflexivity) ltac:(vm_compute; reflexivity)).
Defined.

(** The bound on numeric identifiers matters: [parse] accepts a version
    whose numeric prerelease identifier exceeds [INT_MAX], such as a date
    stamp, but [cmp] refuses it, even against itself. *)
Theorem cmp_rejects_accepted_version :
  ∃ s, is_ok (parse s) = true ∧ cmp s s = Throw #"Invalid semver format".
Proof. exists #"1.0.0-20240101120000". vm_compute. done. Qed.
