(* ===== verification/Ring.v ===== *)
(** * Ring: the bounded history and the listener table of the recorders

    The four recorders of [src/src/mep] keep their last events in the same
    structure: a vector that grows to [RING_SIZE] and is then overwritten at
    [m_write_pos % RING_SIZE], and an [unordered_map] of listeners numbered by
    an atomic counter.  This file models both once; [Recorder] instantiates
    them.  [m_write_pos] is a [size_t] counter and the index arithmetic of the
    readers is done modulo the width of [size_t], as in the code. *)

From S2P Require Import Prelude.

(** ** The ring *)

Record ring (A : Type) := MkRing {
  m_ring : list A;
  m_write_pos : Z;
}.
Arguments MkRing {_} _ _.
Arguments m_ring {_} _.
Arguments m_write_pos {_} _.

Definition ring_empty {A} : ring A := MkRing [] 0.

(** The last [n] elements of a list. *)
Definition lastn {A} (n : nat) (l : list A) : list A := drop (length l - n) l.

(** Several recorders bound their vector by their own constant; all of them
    are powers of two that a [size_t] holds. *)
Class RingSize := {
  RING_SIZE : Z;
  ring_log : Z;
  ring_log_range : 0 <= ring_log < 32;
  ring_size_pow : RING_SIZE = 2 ^ ring_log;
}.

Section ring.
  Context `{T : target} `{RingSize} {A : Type}.
  Implicit Types (r : ring A) (e : A) (h : list A).

(** The block every recorder runs under [m_ring_mutex]. *)
Definition ring_push e r : ring A :=
  let l := m_ring r in
  MkRing (if len l <? RING_SIZE then l ++ [e]
          else <[Z.to_nat (m_write_pos r mod RING_SIZE) := e]> l)
         (usize (m_write_pos r + 1)).

(** The loop of the [get_recent] functions that walk backwards from the
    newest entry; [fuel] is the number of iterations [total - i] left. *)
Fixpoint recent_loop (fuel : nat) (i : Z) (total start max : Z) (l : list A)
    (keep : A → bool) (out : list A) : outcome (list A) :=
  match fuel with
  | O => Ok out
  | S fuel =>
      if len out <? max then
        let idx := if total <? RING_SIZE then usize (usize (total - 1) - i)
                   else usize (usize (start - i) + RING_SIZE) mod RING_SIZE in
        match l !! Z.to_nat idx with
        | None => UB
        | Some e =>
            recent_loop fuel (i + 1) total start max l keep (if keep e then out ++ [e] else out)
        end
      else Ok out
  end.

Definition ring_recent (keep : A → bool) (max : Z) r : outcome (list A) :=
  let total := len (m_ring r) in
  let start := if 0 <? m_write_pos r then m_write_pos r - 1 else 0 in
  out ← recent_loop (length (m_ring r)) 0 total start max (m_ring r) keep [];
  Ok (reverse out).

(** The loop of [patch_stream_recorder::get_recent], which walks forwards
    from the oldest entry and tests the bound after the push. *)
Fixpoint oldest_loop (fuel : nat) (i : Z) (total start count : Z) (l : list A)
    (keep : A → bool) (out : list A) : outcome (list A) :=
  match fuel with
  | O => Ok out
  | S fuel =>
      match l !! Z.to_nat (usize (start + i) mod total) with
      | None => UB
      | Some e =>
          if keep e then
            let out := out ++ [e] in
            if count <=? len out then Ok out
            else oldest_loop fuel (i + 1) total start count l keep out
          else oldest_loop fuel (i + 1) total start count l keep out
      end
  end.

Definition ring_oldest (keep : A → bool) (max : Z) r : outcome (list A) :=
  let total := len (m_ring r) in
  let count := Z.min max total in
  let start := if total <? RING_SIZE then 0 else m_write_pos r mod RING_SIZE in
  oldest_loop (length (m_ring r)) 0 total start count (m_ring r) keep [].

(** ** Refinement to a history

    The abstract state is the list of all events, oldest first.  A ring
    represents a history of fewer than [2 ^ word_bits] events when position [i] of
    its vector holds the newest event whose number is [i] modulo the size. *)
Definition RINGN : nat := Z.to_nat RING_SIZE.

Definition ring_repr h r : Prop :=
  len h < 2 ^ word_bits ∧ m_write_pos r = len h ∧
  length (m_ring r) = (length h `min` RINGN)%nat ∧
  ∀ n, (length h - RINGN <= n < length h)%nat → m_ring r !! (n mod RINGN)%nat = h !! n.

Lemma RINGN_pos : (0 < RINGN)%nat.
Proof. unfold RINGN. rewrite ring_size_pow. pose proof ring_log_range. assert (0 < 2 ^ ring_log) by lia. lia. Qed.

Lemma RING_SIZE_N : RING_SIZE = Z.of_nat RINGN.
Proof. unfold RINGN. rewrite Z2Nat.id; [done|]. rewrite ring_size_pow. lia. Qed.

Lemma usize_mod_ring z : usize z mod RING_SIZE = z mod RING_SIZE.
Proof.
  unfold usize. rewrite ring_size_pow. pose proof ring_log_range. pose proof word_bits_ge.
  replace (2 ^ word_bits) with (2 ^ (word_bits - ring_log) * 2 ^ ring_log) by (rewrite <- Z.pow_add_r by lia; f_equal; lia).
  rewrite Z.mul_comm, Z.rem_mul_r by lia.
  rewrite Z.mul_comm, Z_mod_plus_full. apply Z.mod_mod. lia.
Qed.

Lemma ring_repr_empty : ring_repr [] ring_empty.
Proof. pose proof word_size. split_and!; simpl; [change (len (@nil A)) with 0; lia|done..|]. intros. lia. Qed.

Lemma mod_ne (a b N : nat) :
  (0 < N)%nat → (b < a)%nat → (a - b < N)%nat → (a mod N ≠ b mod N)%nat.
Proof.
  intros HN Hlt Hd Heq. pose proof (Nat.div_mod a N) as Ha. pose proof (Nat.div_mod b N) as Hb.
  assert (b / N <= a / N)%nat by (apply Nat.Div0.div_le_mono; lia).
  assert ((a - b)%nat = (N * (a / N - b / N))%nat) as Hk by (rewrite Nat.mul_sub_distr_l; lia).
  destruct (a / N - b / N)%nat as [|k]; lia.
Qed.

Lemma ring_repr_length h r : ring_repr h r →
  len (m_ring r) = Z.min (len h) RING_SIZE ∧
  (if len (m_ring r) <? RING_SIZE then (length h < RINGN)%nat else (RINGN <= length h)%nat).
Proof. intros (_ & _ & Hl & _). unfold len. rewrite RING_SIZE_N. case_match; bool_to_prop; lia. Qed.

Lemma ring_push_repr h r e :
  ring_repr h r → len h + 1 < 2 ^ word_bits → ring_repr (h ++ [e]) (ring_push e r).
Proof.
  intros Hr Hlt. pose proof (ring_repr_length _ _ Hr) as [_ Hfull]. destruct Hr as (Hb & Hw & Hl & Hn).
  pose proof RINGN_pos as HN. unfold ring_push, ring_repr. cbn [m_ring m_write_pos].
  assert (len (h ++ [e]) = len h + 1) as Hlen by (rewrite len_app; done).
  assert (length (h ++ [e]) = S (length h)) as Hlen' by (rewrite length_app; simpl; lia).
  split_and!; [lia|rewrite Hw, Hlen; apply usize_id; pose proof (len_nonneg h); lia|..]; rewrite Hlen'.
  - destruct (Z.ltb_spec (len (m_ring r)) RING_SIZE).
    + rewrite length_app. cbn [length]. lia.
    + rewrite length_insert. lia.
  - assert (Z.to_nat (m_write_pos r mod RING_SIZE) = (length h mod RINGN)%nat) as Hpos.
    { rewrite Hw, RING_SIZE_N. unfold len. rewrite <- Nat2Z.inj_mod, Nat2Z.id. done. }
    intros n Hrange. destruct (decide (n = length h)) as [->|Hne].
    + rewrite list_lookup_middle by done. destruct (Z.ltb_spec (len (m_ring r)) RING_SIZE).
      * rewrite Nat.mod_small by lia. rewrite lookup_app_r by lia. by replace (_ - _)%nat with O by lia.
      * rewrite Hpos, list_lookup_insert_eq; [done|]. assert (length h `mod` RINGN < RINGN)%nat by (apply Nat.mod_upper_bound; lia). lia.
    + rewrite lookup_app_l by lia. destruct (Z.ltb_spec (len (m_ring r)) RING_SIZE).
      * rewrite Nat.mod_small by lia. rewrite lookup_app_l by lia.
        specialize (Hn n ltac:(lia)). by rewrite Nat.mod_small in Hn by lia.
      * rewrite Hpos, list_lookup_insert_ne by (apply mod_ne; lia). apply Hn. lia.
Qed.

(** The entries a ring still holds, newest first. *)
Definition window h : list A := rev (lastn RINGN h).

Lemma length_window h : length (window h) = (length h `min` RINGN)%nat.
Proof. unfold window, lastn. rewrite length_rev, length_drop. lia. Qed.

Lemma window_lookup h i :
  (i < length (window h))%nat → window h !! i = h !! (length h - 1 - i)%nat.
Proof.
  rewrite length_window. intros Hi. unfold window, lastn. rewrite <- rev_alt || rewrite rev_alt.
  fold (reverse (drop (length h - RINGN) h)). rewrite reverse_lookup by (rewrite length_drop; lia).
  rewrite lookup_drop, length_drop. f_equal. lia.
Qed.

(** What the backward walk reads at its [i]-th step. *)
Lemma recent_index h r i :
  ring_repr h r → (i < length (m_ring r))%nat →
  m_ring r !! Z.to_nat
    (if len (m_ring r) <? RING_SIZE then usize (usize (len (m_ring r) - 1) - Z.of_nat i)
     else usize (usize ((if 0 <? m_write_pos r then m_write_pos r - 1 else 0) - Z.of_nat i) + RING_SIZE) mod RING_SIZE)
  = window h !! i.
Proof.
  intros Hr Hi. pose proof (ring_repr_length _ _ Hr) as [_ Hfull]. destruct Hr as (Hb & Hw & Hl & Hn).
  pose proof RINGN_pos as HN. rewrite window_lookup by (rewrite length_window; lia).
  unfold len in Hb. rewrite Hw.
  replace (if 0 <? len h then len h - 1 else 0) with (len h - 1)
    by (unfold len; destruct (Z.ltb_spec 0 (Z.of_nat (length h))); lia).
  rewrite <- Hn by lia. f_equal. destruct (Z.ltb_spec (len (m_ring r)) RING_SIZE).
  - unfold len in *. rewrite (usize_id (_ - 1)) by lia. rewrite usize_id by lia.
    rewrite Nat.mod_small by lia. lia.
  - rewrite usize_mod_ring. rewrite <- Zplus_mod_idemp_l, usize_mod_ring, Zplus_mod_idemp_l.
    rewrite RING_SIZE_N. replace (len h - 1 - Z.of_nat i + Z.of_nat RINGN) with (Z.of_nat (length h - 1 - i) + 1 * Z.of_nat RINGN)
      by (unfold len; lia). rewrite Z_mod_plus_full, <- Nat2Z.inj_mod, Nat2Z.id. done.
Qed.

Lemma recent_loop_spec h r keep max fuel : ∀ i out,
  ring_repr h r → (i + fuel = length (m_ring r))%nat → 0 <= max →
  recent_loop fuel (Z.of_nat i) (len (m_ring r)) (if 0 <? m_write_pos r then m_write_pos r - 1 else 0)
    max (m_ring r) keep out =
  Ok (out ++ take (Z.to_nat max - length out) (List.filter keep (drop i (window h)))).
Proof.
  induction fuel as [|fuel IH]; intros i out Hr Hi Hm; cbn [recent_loop].
  - rewrite drop_ge by (rewrite length_window; destruct Hr as (_ & _ & Hl & _); lia).
    cbn [List.filter]. by rewrite take_nil, app_nil_r.
  - destruct (Z.ltb_spec (len out) max) as [Hlt|Hge].
    2:{ replace (Z.to_nat max - length out)%nat with O by (unfold len in *; lia). by rewrite take_0, app_nil_r. }
    rewrite (recent_index h r i Hr) by lia.
    destruct (window h !! i) as [e|] eqn:Ew.
    2:{ apply lookup_ge_None in Ew. rewrite length_window in Ew. destruct Hr as (_ & _ & Hl & _). lia. }
    replace (Z.of_nat i + 1) with (Z.of_nat (S i)) by lia. rewrite IH by (done || lia).
    rewrite (drop_S _ _ _ Ew). cbn [List.filter]. destruct (keep e); [|done].
    rewrite <- app_assoc, length_app. unfold len in *. simpl.
    replace (Z.to_nat max - length out)%nat with (S (Z.to_nat max - (length out + 1)))%nat by lia. done.
Qed.

(** A backward read returns the last [max] kept entries among the last
    [RING_SIZE] events, oldest first. *)
Lemma ring_recent_spec h r keep max :
  ring_repr h r → 0 <= max →
  ring_recent keep max r = Ok (lastn (Z.to_nat max) (List.filter keep (lastn RINGN h))).
Proof.
  intros Hr Hm. unfold ring_recent.
  rewrite (recent_loop_spec h r keep max _ O [] Hr) by lia. bind_simpl.
  cbn [app length drop]. rewrite Nat.sub_0_r, drop_0. f_equal. unfold window. rewrite filter_rev.
  change (reverse ?l) with (rev_append l []). rewrite rev_append_rev, app_nil_r, firstn_rev, rev_involutive. done.
Qed.

Lemma oldest_index h r i :
  ring_repr h r → (i < length (m_ring r))%nat →
  m_ring r !! Z.to_nat
    (usize ((if len (m_ring r) <? RING_SIZE then 0 else m_write_pos r mod RING_SIZE) + Z.of_nat i) mod len (m_ring r))
  = lastn RINGN h !! i.
Proof.
  intros Hr Hi. pose proof (ring_repr_length _ _ Hr) as [_ Hfull]. destruct Hr as (Hb & Hw & Hl & Hn).
  pose proof RINGN_pos as HN. unfold lastn. rewrite lookup_drop, <- Hn by lia. f_equal. unfold len in Hb.
  destruct (Z.ltb_spec (len (m_ring r)) RING_SIZE).
  - unfold len in *. rewrite usize_id, Z.mod_small, Nat.mod_small by lia. lia.
  - assert (len (m_ring r) = RING_SIZE) as -> by (unfold len in *; rewrite RING_SIZE_N in *; lia).
    rewrite usize_mod_ring, Zplus_mod_idemp_l, Hw, RING_SIZE_N. unfold len.
    replace (Z.of_nat (length h) + Z.of_nat i) with (Z.of_nat (length h - RINGN + i) + 1 * Z.of_nat RINGN) by lia.
    rewrite Z_mod_plus_full, <- Nat2Z.inj_mod, Nat2Z.id. done.
Qed.

Lemma oldest_loop_spec h r keep count fuel : ∀ i out,
  ring_repr h r → (i + fuel = length (m_ring r))%nat → len out < Z.max 1 count →
  oldest_loop fuel (Z.of_nat i) (len (m_ring r)) (if len (m_ring r) <? RING_SIZE then 0 else m_write_pos r mod RING_SIZE)
    count (m_ring r) keep out =
  Ok (out ++ take (Z.to_nat (Z.max 1 count) - length out) (List.filter keep (drop i (lastn RINGN h)))).
Proof.
  induction fuel as [|fuel IH]; intros i out Hr Hi Hm; cbn [oldest_loop].
  - rewrite drop_ge by (unfold lastn; rewrite length_drop; destruct Hr as (_ & _ & Hl & _); lia).
    cbn [List.filter]. by rewrite take_nil, app_nil_r.
  - rewrite (oldest_index h r i Hr) by lia.
    destruct (lastn RINGN h !! i) as [e|] eqn:Ew.
    2:{ apply lookup_ge_None in Ew. unfold lastn in Ew. rewrite length_drop in Ew. destruct Hr as (_ & _ & Hl & _). lia. }
    replace (Z.of_nat i + 1) with (Z.of_nat (S i)) by lia. rewrite (drop_S _ _ _ Ew). cbn [List.filter].
    destruct (keep e); [|by apply IH; [..|lia|]]. unfold len in *.
    destruct (Z.leb_spec count (Z.of_nat (length (out ++ [e])))) as [Hc|Hc]; rewrite length_app in Hc; simpl in Hc.
    + replace (Z.to_nat (Z.max 1 count) - length out)%nat with 1%nat by lia. done.
    + rewrite IH by (done || rewrite ?length_app; simpl; lia). rewrite length_app, <- app_assoc. simpl.
      replace (Z.to_nat (Z.max 1 count) - length out)%nat with (S (Z.to_nat (Z.max 1 count) - (length out + 1)))%nat by lia. done.
Qed.

(** A forward read returns the first [max] kept entries, and at least one
    when there is one. *)
Lemma ring_oldest_spec h r keep max :
  ring_repr h r → 0 <= max →
  ring_oldest keep max r = Ok (take (Z.to_nat (Z.max 1 max)) (List.filter keep (lastn RINGN h))).
Proof.
  intros Hr Hm. unfold ring_oldest. rewrite (oldest_loop_spec h r keep _ _ O [] Hr) by (unfold len; simpl; lia).
  cbn [app length drop]. rewrite Nat.sub_0_r, drop_0. f_equal.
  assert (length (List.filter keep (lastn RINGN h)) <= length (m_ring r))%nat as Hf.
  { destruct Hr as (_ & _ & Hl & _). etrans; [apply filter_length_le|]. unfold lastn. rewrite length_drop. lia. }
  unfold len. destruct (Z.le_gt_cases max (Z.of_nat (length (m_ring r)))); [by rewrite Z.min_l by lia|].
  rewrite Z.min_r by lia. rewrite !take_ge by lia. done.
Qed.

(** The events pushed in sequence are the history of the ring. *)
Lemma ring_pushes_repr es : ∀ h r,
  ring_repr h r → len h + len es < 2 ^ word_bits → ring_repr (h ++ es) (foldl (λ r e, ring_push e r) r es).
Proof.
  induction es as [|e es IH]; intros h r Hr Hb; simpl; [by rewrite app_nil_r|].
  unfold len in *. simpl in Hb. replace (h ++ e :: es) with ((h ++ [e]) ++ es) by by rewrite <- app_assoc.
  apply IH; [apply ring_push_repr; [done|unfold len; lia]|rewrite length_app; simpl; lia].
Qed.
End ring.
