(* ===== verification/Recorder.v ===== *)
(** * Recorder: the event recorders and buses of the extension protocol

    Models [src/src/mep/console_capture.cc], [exception_capture.cc],
    [ffi_recorder.cc], [patch_stream_recorder.cc], [sdk_ready_bus.cc] and
    [crash_event_bus.cc].  A listener is an opaque value of type [L]; an
    operation that calls listeners returns the list of calls it makes, as
    pairs of a listener and its argument.  The iteration order of the
    [unordered_map] of listeners is unspecified, so no statement depends on
    the order of calls made by one operation. *)

From Stdlib Require Import SpecFloat.
From S2P Require Import Prelude Json StarFile Ring.

(** ** The listener table *)

Record table (V : Type) := MkTable {
  m_listeners : gmap Z V;
  m_id_counter : Z;
}.
Arguments MkTable {_} _ _.
Arguments m_listeners {_} _.
Arguments m_id_counter {_} _.

Definition table_empty {V} : table V := MkTable ∅ 0.

(** [int id = ++m_id_counter; m_listeners[id] = v; return id;] *)
Definition table_add {V} (v : V) (t : table V) : Z * table V :=
  let id := i32 (m_id_counter t + 1) in
  (id, MkTable (<[id := v]> (m_listeners t)) id).

Definition table_remove {V} (id : Z) (t : table V) : table V :=
  MkTable (delete id (m_listeners t)) (m_id_counter t).

Definition table_values {V} (t : table V) : list V := (map_to_list (m_listeners t)).*2.

(** The listeners whose subscription satisfies [want]. *)
Definition targets {L} (want : bytes → bool) (t : table (bytes * L)) : list L :=
  (List.filter (λ p, want p.1) (table_values t)).*2.

(** Ids in use are positive and at most the counter. *)
Definition table_ok {V} (t : table V) : Prop :=
  0 <= m_id_counter t <= INT_MAX ∧
  ∀ id v, m_listeners t !! id = Some v → 0 < id <= m_id_counter t.

Lemma table_ok_empty {V} : table_ok (@table_empty V).
Proof. split; [done|]. simpl. intros id v. by rewrite lookup_empty. Qed.

Lemma i32_id z : 0 <= z <= INT_MAX → i32 z = z.
Proof.
  unfold i32, u32, INT_MAX. intros H. rewrite Z.mod_small by lia. destruct (Z.ltb_spec z (2 ^ 31)); lia.
Qed.

Lemma table_add_eq {V} (v : V) t :
  table_ok t → m_id_counter t < INT_MAX →
  let id := m_id_counter t + 1 in
  table_add v t = (id, MkTable (<[id := v]> (m_listeners t)) id) ∧
  m_listeners t !! id = None.
Proof.
  intros [Hc Ht] Hm id. unfold table_add. rewrite i32_id by lia. split; [done|].
  destruct (m_listeners t !! id) eqn:E; [|done]. apply Ht in E. lia.
Qed.

Lemma table_add_ok {V} (v : V) t :
  table_ok t → m_id_counter t < INT_MAX → table_ok (table_add v t).2.
Proof.
  intros Hok Hm. destruct (table_add_eq v t Hok Hm) as [-> _]. destruct Hok as [Hc Ht].
  split; simpl; [lia|]. intros id w. rewrite lookup_insert_Some. intros [[<- _]|[_ H]]; [lia|]. apply Ht in H. lia.
Qed.

Lemma table_remove_ok {V} id (t : table V) : table_ok t → table_ok (table_remove id t).
Proof. intros [Hc Ht]. split; [done|]. simpl. intros id' w [_ H]%lookup_delete_Some. eauto. Qed.

Lemma elem_of_table_values {V} (v : V) t : v ∈ table_values t ↔ ∃ id, m_listeners t !! id = Some v.
Proof.
  unfold table_values. rewrite list_elem_of_fmap. split.
  - intros ([id w] & -> & H). apply elem_of_map_to_list in H. eauto.
  - intros [id H]. exists (id, v). split; [done|]. by apply elem_of_map_to_list.
Qed.

Lemma elem_of_targets {L} (fn : L) want t :
  fn ∈ targets want t ↔ ∃ id p, m_listeners t !! id = Some (p, fn) ∧ want p = true.
Proof.
  unfold targets. rewrite list_elem_of_fmap. split.
  - intros ([p fn'] & -> & [Hin Hw]%list_elem_of_In%filter_In).
    apply list_elem_of_In, elem_of_table_values in Hin as [id ?]. eauto.
  - intros (id & p & Hl & Hw). exists (p, fn). split; [done|].
    apply list_elem_of_In, filter_In. split; [|done]. apply list_elem_of_In, elem_of_table_values. eauto.
Qed.

(** ** Recorders *)

Record recorder (A L : Type) := MkRecorder {
  history : ring A;
  subscribers : table (bytes * L);
}.
Arguments MkRecorder {_ _} _ _.
Arguments history {_ _} _.
Arguments subscribers {_ _} _.

Definition recorder_empty {A L} : recorder A L := MkRecorder ring_empty table_empty.

(** What distinguishes one recorder from another: its bound, which
    subscriptions an entry is delivered to, which entries a reader of a
    plugin sees, and from which end a bounded read starts. *)
Class RecorderKind (A : Type) := {
  kind_size :: RingSize;
  wants : A → bytes → bool;
  keeps : bytes → A → bool;
  newest_first : bool;
}.

Section recorder.
  Context `{T : target} {L : Type} `{RecorderKind A}.
  Implicit Types s : recorder A L.

Definition record_entry (e : A) s : recorder A L * list (L * A) :=
  (MkRecorder (ring_push e (history s)) (subscribers s),
   (λ fn, (fn, e)) <$> targets (wants e) (subscribers s)).

Definition get_recent (plugin : bytes) (max : Z) s : outcome (list A) :=
  if newest_first then ring_recent (keeps plugin) max (history s)
  else ring_oldest (keeps plugin) max (history s).

Definition add_listener (plugin : bytes) (fn : L) s : Z * recorder A L :=
  let '(id, t) := table_add (plugin, fn) (subscribers s) in
  (id, MkRecorder (history s) t).

Definition remove_listener (id : Z) s : recorder A L :=
  MkRecorder (history s) (table_remove id (subscribers s)).

(** A run of a recorder: the operations of its clients in the order in which
    they take the recorder's locks. *)
Inductive rec_op := Rec (e : A) | Sub (plugin : bytes) (fn : L) | Unsub (id : Z).

Definition rec_step s (o : rec_op) : recorder A L * list (L * A) :=
  match o with
  | Rec e => record_entry e s
  | Sub p fn => ((add_listener p fn s).2, [])
  | Unsub id => (remove_listener id s, [])
  end.

Fixpoint rec_run s (ops : list rec_op) : recorder A L * list (L * A) :=
  match ops with
  | [] => (s, [])
  | o :: ops =>
      let '(s, out) := rec_step s o in
      let '(s, out') := rec_run s ops in
      (s, out ++ out')
  end.

(** ** What a run promises *)

(** The entries recorded by a run. *)
Definition recorded (ops : list rec_op) : list A :=
  omap (λ o, match o with Rec e => Some e | _ => None end) ops.

(** The subscriptions in force after a run that starts from [m] with [n] ids
    given out. *)
Fixpoint subscribed (m : gmap Z (bytes * L)) (n : Z) (ops : list rec_op) : gmap Z (bytes * L) :=
  match ops with
  | [] => m
  | Rec _ :: ops => subscribed m n ops
  | Sub p fn :: ops => subscribed (<[n + 1 := (p, fn)]> m) (n + 1) ops
  | Unsub id :: ops => subscribed (delete id m) n ops
  end.

Definition rec_repr (h : list A) (m : gmap Z (bytes * L)) (n : Z) s : Prop :=
  ring_repr h (history s) ∧ m_listeners (subscribers s) = m ∧ m_id_counter (subscribers s) = n ∧
  table_ok (subscribers s).

Definition subs (ops : list rec_op) : Z :=
  len (List.filter (λ o, match o with Sub _ _ => true | _ => false end) ops).

Definition sub_count (o : rec_op) : Z := match o with Sub _ _ => 1 | _ => 0 end.

Lemma subs_cons o ops : subs (o :: ops) = sub_count o + subs ops.
Proof. unfold subs, len. destruct o; simpl; lia. Qed.

Lemma recorded_cons o ops : recorded (o :: ops) = recorded [o] ++ recorded ops.
Proof. by destruct o. Qed.

Lemma subscribed_cons m n o ops :
  subscribed m n (o :: ops) = subscribed (subscribed m n [o]) (n + sub_count o) ops.
Proof. destruct o; simpl; by rewrite ?Z.add_0_r. Qed.

Lemma rec_run_cons s o ops :
  rec_run s (o :: ops) =
    ((rec_run (rec_step s o).1 ops).1, (rec_step s o).2 ++ (rec_run (rec_step s o).1 ops).2).
Proof. cbn [rec_run]. destruct (rec_step s o) as [s' out]. cbn [fst snd]. by destruct (rec_run s' ops). Qed.

Lemma rec_step_repr o h m n s :
  rec_repr h m n s → len h + len (recorded [o]) < 2 ^ word_bits → n + sub_count o <= INT_MAX →
  rec_repr (h ++ recorded [o]) (subscribed m n [o]) (n + sub_count o) (rec_step s o).1.
Proof.
  intros (Hring & <- & <- & Hok) Hb Hn. destruct o as [e|p fn|id]; cbn [sub_count recorded omap list_omap subscribed] in *.
  - rewrite Z.add_0_r. split; [by apply ring_push_repr|done].
  - rewrite app_nil_r. cbn [rec_step]. unfold add_listener.
    pose proof (table_add_ok (p, fn) _ Hok ltac:(lia)) as Hok'.
    rewrite (proj1 (table_add_eq (p, fn) _ Hok ltac:(lia))) in *.
    exact (conj Hring (conj eq_refl (conj eq_refl Hok'))).
  - rewrite app_nil_r, Z.add_0_r.
    exact (conj Hring (conj eq_refl (conj eq_refl (table_remove_ok id _ Hok)))).
Qed.

Lemma rec_run_repr ops : ∀ h m n s,
  rec_repr h m n s → len h + len (recorded ops) < 2 ^ word_bits → n + subs ops <= INT_MAX →
  rec_repr (h ++ recorded ops) (subscribed m n ops) (n + subs ops) (rec_run s ops).1.
Proof.
  induction ops as [|o ops IH]; intros h m n s Hr Hb Hn.
  - simpl. rewrite app_nil_r. unfold subs. simpl. by rewrite Z.add_0_r.
  - rewrite rec_run_cons, recorded_cons, subscribed_cons, app_assoc. cbn [fst].
    rewrite recorded_cons, len_app in Hb. rewrite subs_cons in *.
    pose proof (len_nonneg (recorded ops)). assert (0 <= subs ops) by apply len_nonneg.
    rewrite Z.add_assoc. apply IH; [apply rec_step_repr; [done|lia..]| |lia].
    rewrite len_app. lia.
Qed.

Lemma rec_repr_empty : rec_repr [] ∅ 0 (recorder_empty : recorder A L).
Proof. exact (conj ring_repr_empty (conj eq_refl (conj eq_refl table_ok_empty))). Qed.

(** What a reader sees of a history of [max] kept entries. *)
Definition recent_spec (plugin : bytes) (max : Z) (h : list A) : list A :=
  let kept := List.filter (keeps plugin) (lastn RINGN h) in
  if newest_first then lastn (Z.to_nat max) kept else take (Z.to_nat (Z.max 1 max)) kept.

Lemma get_recent_repr h m n s plugin max :
  rec_repr h m n s → 0 <= max → get_recent plugin max s = Ok (recent_spec plugin max h).
Proof.
  intros (Hring & _) Hmax. unfold get_recent, recent_spec.
  destruct newest_first; [by apply ring_recent_spec|by apply ring_oldest_spec].
Qed.
End recorder.

(** ** The four recorders *)

#[export] Program Instance size_512 : RingSize := {| RING_SIZE := 512; ring_log := 9 |}.
Next Obligation. lia. Qed.
Next Obligation. done. Qed.
Definition size_256 : RingSize.
Proof. refine {| RING_SIZE := 256; ring_log := 8 |}; [lia|done]. Defined.

Record console_entry := ConsoleEntry { ce_plugin : bytes; ce_raw : json }.
Record exception_entry := ExceptionEntry { ee_plugin : bytes; ee_raw : json }.

(** [timestamp] counts the ticks of the system clock. *)
Record ffi_call_entry := FfiCallEntry {
  fe_plugin : bytes;
  fe_method : bytes;
  fe_direction : bytes;
  fe_args : bytes;
  fe_result : bytes;
  fe_duration_ms : spec_float;
  fe_timestamp : Z;
  fe_caller : bytes;
}.

Record patch_event := PatchEvent {
  event_type : bytes;
  pe_plugin_name : bytes;
  other_plugin : bytes;
  filename : bytes;
  detail : bytes;
  find_pattern : bytes;
  transform_patterns : bytes;
  before_text : bytes;
  after_text : bytes;
  timestamp_ms : Z;
}.

(** The test both [notify] and [get_recent] of the patch recorder write out. *)
Definition patch_concerns (ev : patch_event) (plugin : bytes) : bool :=
  if bytes_eqb (event_type ev) #"url_seen" || bytes_eqb (event_type ev) #"syntax_error" then true
  else if bytes_eqb (event_type ev) #"conflict" then
    bytes_eqb plugin (pe_plugin_name ev) || bytes_eqb plugin (other_plugin ev)
  else bytes_eqb plugin (pe_plugin_name ev).

#[export] Instance console_kind : RecorderKind console_entry := {|
  wants e p := bytes_eqb p (ce_plugin e);
  keeps p e := bytes_eqb (ce_plugin e) p;
  newest_first := true;
|}.
#[export] Instance exception_kind : RecorderKind exception_entry := {|
  kind_size := size_256;
  wants e p := bytes_eqb p [] || bytes_eqb p (ee_plugin e);
  keeps p e := bytes_eqb p [] || bytes_eqb (ee_plugin e) p;
  newest_first := true;
|}.
#[export] Instance ffi_kind : RecorderKind ffi_call_entry := {|
  wants e p := bytes_eqb p (fe_plugin e);
  keeps p e := bytes_eqb (fe_plugin e) p;
  newest_first := true;
|}.
#[export] Instance patch_kind : RecorderKind patch_event := {|
  wants e p := patch_concerns e p;
  keeps p e := patch_concerns e p;
  newest_first := false;
|}.

(** ** Attribution of an event to a plugin *)

(** The plugin whose directory occurs in a script url; [None] if there is
    none. *)
Fixpoint plugin_of_url (plugins : list plugin_t) (url : bytes) : option bytes :=
  match plugins with
  | [] => None
  | p :: plugins =>
      if is_internal p then plugin_of_url plugins url else
      let base := plugin_base_dir p in
      if negb (bytes_eqb base []) && match find_sub base url with Some _ => true | None => false end
      then Some (plugin_name p)
      else plugin_of_url plugins url
  end.

(** The url of a stack frame, if it has one. *)
Definition frame_url (frame : json) : outcome (option bytes) :=
  if negb (contains #"url" frame) then Ok None else
  url ← idx #"url" frame;
  if negb (is_string url) then Ok None else
  s ← get_string url; Ok (Some s).

(** The [stackTrace.callFrames] of an event, empty when it has none. *)
Definition call_frames (params : json) : outcome (list json) :=
  if negb (contains #"stackTrace" params) then Ok [] else
  st ← idx #"stackTrace" params;
  if negb (contains #"callFrames" st) then Ok [] else
  frames ← idx #"callFrames" st; Ok (elements frames).

Fixpoint console_frames (plugins : list plugin_t) (frames : list json) : outcome bytes :=
  match frames with
  | [] => Ok #"millennium"
  | frame :: frames =>
      url ← frame_url frame;
      match url with
      | None => console_frames plugins frames
      | Some url =>
          match plugin_of_url plugins url with
          | Some name => Ok name
          | None => console_frames plugins frames
          end
      end
  end.

(** [pm] is the result of [get_all_plugins], [None] before [start]. *)
Definition console_attribute_plugin (pm : option (list plugin_t)) (params : json) : outcome bytes :=
  match pm with
  | None => Ok #"millennium"
  | Some plugins => frames ← call_frames params; console_frames plugins frames
  end.

(** [check_url]: the empty name stands for "no plugin". *)
Definition check_url (plugins : list plugin_t) (url : bytes) : bytes :=
  default [] (plugin_of_url plugins url).

Fixpoint exception_frames (plugins : list plugin_t) (frames : list json) : outcome bytes :=
  match frames with
  | [] => Ok #"millennium"
  | frame :: frames =>
      url ← frame_url frame;
      match url with
      | None => exception_frames plugins frames
      | Some url =>
          let result := check_url plugins url in
          if negb (bytes_eqb result []) then Ok result else exception_frames plugins frames
      end
  end.

Definition exception_attribute_plugin (pm : option (list plugin_t)) (params : json) : outcome bytes :=
  match pm with
  | None => Ok #"millennium"
  | Some plugins =>
      if negb (contains #"exceptionDetails" params) then Ok #"millennium" else
      details ← idx #"exceptionDetails" params;
      url ← frame_url details;
      let direct := match url with Some url => check_url plugins url | None => [] end in
      if negb (bytes_eqb direct []) then Ok direct else
      frames ← call_frames details; exception_frames plugins frames
  end.

(** ** The operations that build entries *)

Section operations.
  Context `{T : target} {L : Type}.

Definition on_console_event (pm : option (list plugin_t)) (now_us : Z) (params : json)
    (s : recorder console_entry L) : outcome (recorder console_entry L * list (L * console_entry)) :=
  plugin ← console_attribute_plugin pm params;
  raw ← set_key #"millennium_ts" (JInt now_us) params;
  Ok (record_entry (ConsoleEntry plugin raw) s).

Definition direct_entry (now_us : Z) (plugin level message source file : bytes) (line : Z) : console_entry :=
  let raw := obj_of [(#"level", JStr level); (#"message", JStr message); (#"plugin", JStr plugin);
                     (#"millennium_ts", JInt now_us); (#"millennium_source", JStr source)] in
  ConsoleEntry plugin
    (JObj (if negb (bytes_eqb file [])
           then obj_insert #"line" (JInt line) (obj_insert #"file" (JStr file) raw) else raw)).

Definition push_direct (now_us : Z) (plugin level message source file : bytes) (line : Z)
    (s : recorder console_entry L) : recorder console_entry L * list (L * console_entry) :=
  record_entry (direct_entry now_us plugin level message source file line) s.

Definition on_exception_event (pm : option (list plugin_t)) (params : json)
    (s : recorder exception_entry L) : outcome (recorder exception_entry L * list (L * exception_entry)) :=
  plugin ← exception_attribute_plugin pm params;
  Ok (record_entry (ExceptionEntry plugin params) s).

Definition ffi_record (entry : ffi_call_entry) (s : recorder ffi_call_entry L) :=
  record_entry entry s.

Definition patch_notify (ev : patch_event) (s : recorder patch_event L) := record_entry ev s.
End operations.

(** ** The buses *)

Record crash_event := CrashEvent {
  cr_plugin_name : bytes;
  exit_code : Z;
  crash_dump_dir : bytes;
  display_name : bytes;
}.
#[export] Instance crash_event_eq_dec : EqDecision crash_event.
Proof. solve_decision. Defined.

Record crash_event_bus (L : Type) := CrashBus {
  crash_listeners : table L;
  m_pending : list crash_event;
  m_crash_buffer : list crash_event;
}.
Arguments CrashBus {_} _ _ _.
Arguments crash_listeners {_} _.
Arguments m_pending {_} _.
Arguments m_crash_buffer {_} _.

Section crash_bus.
  Context {L : Type}.
  Implicit Types s : crash_event_bus L.

Definition crash_notify (ev : crash_event) s : crash_event_bus L * list (L * crash_event) :=
  let buffer := m_crash_buffer s ++ [ev] in
  if bool_decide (m_listeners (crash_listeners s) = ∅) then
    (CrashBus (crash_listeners s) (m_pending s ++ [ev]) buffer, [])
  else
    (CrashBus (crash_listeners s) (m_pending s) buffer,
     (λ fn, (fn, ev)) <$> table_values (crash_listeners s)).

Definition crash_add_listener (fn : L) s : Z * crash_event_bus L * list (L * crash_event) :=
  let '(id, t) := table_add fn (crash_listeners s) in
  (id, CrashBus t [] (m_crash_buffer s), (λ ev, (fn, ev)) <$> m_pending s).

Definition crash_remove_listener (id : Z) s : crash_event_bus L :=
  CrashBus (table_remove id (crash_listeners s)) (m_pending s) (m_crash_buffer s).

Definition get_pending_crashes s : list crash_event := m_crash_buffer s.

Definition acknowledge_crash (name : bytes) s : crash_event_bus L :=
  CrashBus (crash_listeners s) (m_pending s)
    (List.filter (λ ev, negb (bytes_eqb (cr_plugin_name ev) name)) (m_crash_buffer s)).

Inductive crash_op :=
  | Crash (ev : crash_event) | CrashSub (fn : L) | CrashUnsub (id : Z) | Ack (name : bytes).

Definition crash_step s (o : crash_op) : crash_event_bus L * list (L * crash_event) :=
  match o with
  | Crash ev => crash_notify ev s
  | CrashSub fn => let '(_, s, out) := crash_add_listener fn s in (s, out)
  | CrashUnsub id => (crash_remove_listener id s, [])
  | Ack name => (acknowledge_crash name s, [])
  end.

Definition crash_empty : crash_event_bus L := CrashBus table_empty [] [].

(** A run, newest operation last: the state, and all calls made so far. *)
Definition crash_run (ops : list crash_op) : crash_event_bus L * list (L * crash_event) :=
  foldl (λ '(s, out) o, let '(s', out') := crash_step s o in (s', out ++ out')) (crash_empty, []) ops.

(** The crashes of a run that no later acknowledgement covers. *)
Fixpoint unacknowledged (ops : list crash_op) : list crash_event :=
  match ops with
  | [] => []
  | Crash ev :: ops =>
      if existsb (λ o, match o with Ack n => bytes_eqb (cr_plugin_name ev) n | _ => false end) ops
      then unacknowledged ops else ev :: unacknowledged ops
  | _ :: ops => unacknowledged ops
  end.
End crash_bus.

Record sdk_ready_event := SdkReadyEvent {
  sdk_version : bytes;
  millennium_version : bytes;
  api_total : Z;
  api_missing : list bytes;
}.

Record sdk_ready_bus (L : Type) := SdkBus {
  sdk_listeners : table L;
  m_last : option sdk_ready_event;
}.
Arguments SdkBus {_} _ _.
Arguments sdk_listeners {_} _.
Arguments m_last {_} _.

Section sdk_bus.
  Context {L : Type}.
  Implicit Types s : sdk_ready_bus L.

Definition sdk_notify (ev : sdk_ready_event) s : sdk_ready_bus L * list (L * sdk_ready_event) :=
  (SdkBus (sdk_listeners s) (Some ev), (λ fn, (fn, ev)) <$> table_values (sdk_listeners s)).

Definition sdk_add_listener (fn : L) s : Z * sdk_ready_bus L * list (L * sdk_ready_event) :=
  let '(id, t) := table_add fn (sdk_listeners s) in
  (id, SdkBus t (m_last s), match m_last s with Some ev => [(fn, ev)] | None => [] end).

Definition sdk_remove_listener (id : Z) s : sdk_ready_bus L :=
  SdkBus (table_remove id (sdk_listeners s)) (m_last s).

Definition sdk_get_last s : option sdk_ready_event := m_last s.

Inductive sdk_op := Ready (ev : sdk_ready_event) | SdkSub (fn : L) | SdkUnsub (id : Z).

Definition sdk_step s (o : sdk_op) : sdk_ready_bus L * list (L * sdk_ready_event) :=
  match o with
  | Ready ev => sdk_notify ev s
  | SdkSub fn => let '(_, s, out) := sdk_add_listener fn s in (s, out)
  | SdkUnsub id => (sdk_remove_listener id s, [])
  end.

Definition sdk_run (ops : list sdk_op) : sdk_ready_bus L * list (L * sdk_ready_event) :=
  foldl (λ '(s, out) o, let '(s', out') := sdk_step s o in (s', out ++ out'))
    (SdkBus table_empty None, []) ops.
End sdk_bus.

(** ** Lemmas on attribution *)

Lemma frame_url_total frame : ∃ u, frame_url frame = Ok u.
Proof.
  unfold frame_url. destruct (contains #"url" frame) eqn:E; cbn [negb]; [|eauto].
  apply contains_idx in E as (v & _ & ->). bind_simpl. destruct v; cbn; eauto.
Qed.

Lemma call_frames_total params : ∃ fs, call_frames params = Ok fs.
Proof.
  unfold call_frames. destruct (contains #"stackTrace" params) eqn:E; cbn [negb]; [|eauto].
  apply contains_idx in E as (st & _ & ->). bind_simpl.
  destruct (contains #"callFrames" st) eqn:E; cbn [negb]; [|eauto].
  apply contains_idx in E as (fs & _ & ->). bind_simpl. eauto.
Qed.

(** [name] is the plugin that owns [url]. *)
Definition owns (plugins : list plugin_t) (name url : bytes) : Prop :=
  ∃ p, p ∈ plugins ∧ is_internal p = false ∧ plugin_name p = name ∧
    plugin_base_dir p ≠ [] ∧ is_Some (find_sub (plugin_base_dir p) url).

Lemma plugin_of_url_Some plugins url name : plugin_of_url plugins url = Some name → owns plugins name url.
Proof.
  unfold owns. induction plugins as [|p ps IH]; simpl; [done|].
  assert (plugin_of_url ps url = Some name → ∃ q, q ∈ p :: ps ∧ is_internal q = false ∧ plugin_name q = name ∧
    plugin_base_dir q ≠ [] ∧ is_Some (find_sub (plugin_base_dir q) url)) as Hrec.
  { intros (q & ? & ?)%IH. exists q. split; [by right|done]. }
  destruct (is_internal p) eqn:Ei; [done|].
  destruct (bytes_eqb (plugin_base_dir p) []) eqn:Eb; cbn [negb andb]; [done|].
  destruct (find_sub (plugin_base_dir p) url) eqn:Ef; [|done].
  intros [= <-]. exists p. apply bytes_eqb_false in Eb. split_and!; [left|done..].
Qed.

Lemma check_url_owns plugins url name : check_url plugins url = name → name ≠ [] → owns plugins name url.
Proof.
  unfold check_url. destruct (plugin_of_url plugins url) eqn:E; simpl; [|by intros <-].
  intros -> _. by apply plugin_of_url_Some.
Qed.

Definition attributed (plugins : list plugin_t) (urls : bytes → Prop) (name : bytes) : Prop :=
  name = #"millennium" ∨ ∃ url, urls url ∧ owns plugins name url.

Definition frame_urls (frames : list json) (url : bytes) : Prop :=
  ∃ frame, frame ∈ frames ∧ frame_url frame = Ok (Some url).

Lemma attributed_mono plugins P Q name :
  (∀ u, P u → Q u) → attributed plugins P name → attributed plugins Q name.
Proof. intros HPQ [?|(u & ? & ?)]; [by left|right; eauto]. Qed.

Lemma frame_urls_cons f fs u : frame_urls fs u → frame_urls (f :: fs) u.
Proof. intros (x & ? & ?). exists x. split; [by right|done]. Qed.

Lemma console_frames_sound plugins frames :
  ∃ name, console_frames plugins frames = Ok name ∧ attributed plugins (frame_urls frames) name.
Proof.
  induction frames as [|f fs (n & IH & Ha)]; [eexists; split; [done|by left]|]. cbn [console_frames].
  apply (attributed_mono _ _ _ _ (frame_urls_cons f fs)) in Ha.
  destruct (frame_url_total f) as [[url|] E]; rewrite E; bind_simpl; [|eauto].
  destruct (plugin_of_url plugins url) as [name|] eqn:Eo; [|eauto].
  exists name. split; [done|]. right. exists url. split; [|by apply plugin_of_url_Some].
  exists f. split; [left|done].
Qed.

Lemma exception_frames_sound plugins frames :
  ∃ name, exception_frames plugins frames = Ok name ∧ attributed plugins (frame_urls frames) name.
Proof.
  induction frames as [|f fs (n & IH & Ha)]; [eexists; split; [done|by left]|]. cbn [exception_frames].
  apply (attributed_mono _ _ _ _ (frame_urls_cons f fs)) in Ha.
  destruct (frame_url_total f) as [[url|] E]; rewrite E; bind_simpl; [|eauto].
  destruct (bytes_eqb (check_url plugins url) []) eqn:Eo; cbn [negb]; [eauto|].
  apply bytes_eqb_false in Eo. eexists. split; [done|]. right. exists url.
  split; [|by apply check_url_owns]. exists f. split; [left|done].
Qed.

(** ** Lemmas on the buses *)

Lemma foldl_snoc {A B} (f : A → B → A) a l x : foldl f a (l ++ [x]) = f (foldl f a l) x.
Proof. by rewrite foldl_app. Qed.

Section bus_lemmas.
  Context {L : Type}.

Lemma crash_run_snoc (ops : list (@crash_op L)) o :
  crash_run (ops ++ [o]) =
    let '(s, out) := crash_run ops in let '(s', out') := crash_step s o in (s', out ++ out').
Proof. unfold crash_run. rewrite foldl_snoc. by destruct (foldl _ _ ops). Qed.

(** The events of a run still to be replayed, and those already delivered. *)
Definition crash_inv (ops : list crash_op) (s : crash_event_bus L) (out : list (L * crash_event)) : Prop :=
  (∀ ev, Crash ev ∈ ops → (∃ fn, (fn, ev) ∈ out) ∨ ev ∈ m_pending s) ∧
  (m_pending s ≠ [] → m_listeners (crash_listeners s) = ∅) ∧
  (∀ ev, ev ∈ m_pending s → Crash ev ∈ ops) ∧
  (∀ fn ev, (fn, ev) ∈ out → Crash ev ∈ ops ∧ CrashSub fn ∈ ops) ∧
  (∀ id fn, m_listeners (crash_listeners s) !! id = Some fn → CrashSub fn ∈ ops).

Lemma elem_of_pairs_l {X Y} (x x' : X) (y : Y) (ys : list Y) : (x, y) ∈ (λ y, (x', y)) <$> ys ↔ x = x' ∧ y ∈ ys.
Proof. rewrite list_elem_of_fmap. naive_solver. Qed.
Lemma elem_of_pairs_r {X Y} (x : X) (y y' : Y) (xs : list X) : (x, y) ∈ (λ x, (x, y')) <$> xs ↔ y = y' ∧ x ∈ xs.
Proof. rewrite list_elem_of_fmap. naive_solver. Qed.

Lemma table_nonempty_value {V} (t : table V) : m_listeners t ≠ ∅ → ∃ v, v ∈ table_values t.
Proof. intros (id & v & H)%map_choose. exists v. apply elem_of_table_values. eauto. Qed.

Lemma crash_inv_step ops s out o :
  crash_inv ops s out →
  crash_inv (ops ++ [o]) (crash_step s o).1 (out ++ (crash_step s o).2).
Proof.
  intros (H1 & H2 & H3 & H4 & H5). unfold crash_inv.
  assert (∀ x, x ∈ ops → x ∈ ops ++ [o]) as Hin by (intros; apply elem_of_app; by left).
  assert (o ∈ ops ++ [o]) as Ho by (apply elem_of_app; right; left).
  assert (∀ ev, Crash ev ∈ ops ++ [o] → Crash ev ∈ ops ∨ Crash ev = o) as Hcase.
  { intros ev [?|?%list_elem_of_singleton]%elem_of_app; auto. }
  assert (∀ fn ev out', (fn, ev) ∈ out → (fn, ev) ∈ out ++ out') as Hout by (intros; apply elem_of_app; by left).
  destruct o as [ev|fn|id|name]; cbn [crash_step].
  - unfold crash_notify. case_bool_decide as Hemp; cbn [fst snd m_pending crash_listeners].
    + rewrite app_nil_r. split_and!; [|done|..].
      * intros e [?|[= ->]]%Hcase; [|right; apply elem_of_app; right; left].
        destruct (H1 e) as [?|?]; [done|by left|right; apply elem_of_app; by left].
      * intros e [?|Heq%list_elem_of_singleton]%elem_of_app; [auto|by subst].
      * intros f e ?. split; apply Hin; by eapply H4.
      * intros i f ?. apply Hin. eauto.
    + destruct (table_nonempty_value _ Hemp) as [fn Hfn]. split_and!; [|done|..].
      * intros e [?|[= ->]]%Hcase; [|left; exists fn; apply elem_of_app; right; by apply elem_of_pairs_r].
        destruct (H1 e) as [[f ?]|?]; [done|left; eauto|by right].
      * auto.
      * intros f e [?|[-> [i Hi]%elem_of_table_values]%elem_of_pairs_r]%elem_of_app; [|eauto].
        split; apply Hin; by eapply H4.
      * intros i f ?. apply Hin. eauto.
  - cbn. split_and!; [|done|by intros ? ?%not_elem_of_nil|..].
    + intros e [?|?]%Hcase; [|done]. left. destruct (H1 e) as [[f ?]|?]; [done|eauto|].
      exists fn. apply elem_of_app. right. by apply elem_of_pairs_l.
    + intros f e [?|[-> ?]%elem_of_pairs_l]%elem_of_app; [|eauto]. split; apply Hin; by eapply H4.
    + intros i f [[_ ->]|[_ ?]]%lookup_insert_Some; eauto.
  - cbn. rewrite app_nil_r. split_and!.
    + intros e [?|?]%Hcase; [auto|done].
    + intros Hp. by rewrite H2, delete_empty.
    + auto.
    + intros f e ?. split; apply Hin; by eapply H4.
    + intros i f [_ ?]%lookup_delete_Some. eauto.
  - cbn. rewrite app_nil_r. split_and!; [|auto|auto| |eauto].
    + intros e [?|?]%Hcase; [auto|done].
    + intros f e ?. split; apply Hin; by eapply H4.
Qed.

Lemma crash_run_inv ops : crash_inv ops (crash_run ops).1 (crash_run ops).2.
Proof.
  induction ops as [|o ops IH] using rev_ind.
  - split_and!; cbn; try done; intros; by match goal with H : _ ∈ [] |- _ => apply not_elem_of_nil in H end.
  - rewrite crash_run_snoc. apply (crash_inv_step _ _ _ o) in IH.
    destruct (crash_run ops) as [s out]. cbn [fst snd] in IH. by destruct (crash_step s o).
Qed.

Lemma crash_buffer_step (s : crash_event_bus L) o :
  m_crash_buffer (crash_step s o).1 =
    match o with
    | Crash ev => m_crash_buffer s ++ [ev]
    | Ack n => List.filter (λ ev, negb (bytes_eqb (cr_plugin_name ev) n)) (m_crash_buffer s)
    | _ => m_crash_buffer s
    end.
Proof. destruct o; cbn [crash_step]; try done. unfold crash_notify. by case_bool_decide. Qed.

Lemma existsb_snoc {X} (f : X → bool) l x : existsb f (l ++ [x]) = existsb f l || f x.
Proof. rewrite existsb_app. simpl. by rewrite orb_false_r. Qed.

Lemma unacknowledged_snoc ops (o : @crash_op L) :
  unacknowledged (ops ++ [o]) =
    match o with
    | Crash ev => unacknowledged ops ++ [ev]
    | Ack n => List.filter (λ ev, negb (bytes_eqb (cr_plugin_name ev) n)) (unacknowledged ops)
    | _ => unacknowledged ops
    end.
Proof.
  induction ops as [|x ops IH]; [by destruct o|]. cbn [app unacknowledged]. rewrite IH.
  destruct x as [ev|fn|id|n]; [|by destruct o..]. rewrite existsb_snoc.
  destruct (existsb _ ops), o as [ev'|fn'|id'|n']; cbn [orb List.filter app]; try done.
  by destruct (bytes_eqb (cr_plugin_name ev) n').
Qed.

Lemma crash_run_buffer (ops : list (@crash_op L)) : m_crash_buffer (crash_run ops).1 = unacknowledged ops.
Proof.
  induction ops as [|o ops IH] using rev_ind; [done|].
  rewrite crash_run_snoc, unacknowledged_snoc, <- IH. destruct (crash_run ops) as [s out].
  pose proof (crash_buffer_step s o) as Hb. by destruct (crash_step s o).
Qed.

Lemma sdk_run_snoc (ops : list (@sdk_op L)) o :
  sdk_run (ops ++ [o]) =
    let '(s, out) := sdk_run ops in let '(s', out') := sdk_step s o in (s', out ++ out').
Proof. unfold sdk_run. rewrite foldl_snoc. by destruct (foldl _ _ ops). Qed.

(** The last event announced in a run. *)
Definition last_ready (ops : list (@sdk_op L)) : option sdk_ready_event :=
  last (omap (λ o, match o with Ready ev => Some ev | _ => None end) ops).

Lemma last_ready_snoc ops o :
  last_ready (ops ++ [o]) = match o with Ready ev => Some ev | _ => last_ready ops end.
Proof.
  unfold last_ready. rewrite omap_app. destruct o; simpl; rewrite ?app_nil_r, ?last_snoc; done.
Qed.

Context `{!EqDecision L}.

(** The last event sent to a listener. *)
Definition last_seen (fn : L) (out : list (L * sdk_ready_event)) : option sdk_ready_event :=
  last (omap (λ p, if decide (p.1 = fn) then Some p.2 else None) out).

Lemma last_seen_app fn out out' :
  last_seen fn (out ++ out') =
    match last_seen fn out' with Some ev => Some ev | None => last_seen fn out end.
Proof. unfold last_seen. by rewrite omap_app, last_app. Qed.

Lemma last_seen_all fn ev fns :
  last_seen fn ((λ f, (f, ev)) <$> fns) = if decide (fn ∈ fns) then Some ev else None.
Proof.
  induction fns as [|f fns IH] using rev_ind; [done|].
  rewrite fmap_app, last_seen_app, IH. unfold last_seen. cbn.
  destruct (decide (f = fn)) as [->|Hne]; simpl.
  - rewrite decide_True; [done|]. apply elem_of_app. right. left.
  - case_decide as H1; case_decide as H2; try done.
    + exfalso. apply H2, elem_of_app. by left.
    + apply elem_of_app in H2 as [?|?%list_elem_of_singleton]; [done|]. by subst.
Qed.

Definition sdk_inv (ops : list sdk_op) (s : sdk_ready_bus L) (out : list (L * sdk_ready_event)) : Prop :=
  m_last s = last_ready ops ∧ (last_ready ops = None → out = []) ∧
  ∀ id fn, m_listeners (sdk_listeners s) !! id = Some fn → last_seen fn out = last_ready ops.

Lemma sdk_inv_step ops s out o :
  sdk_inv ops s out → sdk_inv (ops ++ [o]) (sdk_step s o).1 (out ++ (sdk_step s o).2).
Proof.
  intros (H1 & H2 & H3). unfold sdk_inv. rewrite last_ready_snoc. destruct o as [ev|fn|id]; cbn.
  - split_and!; [done..|]. intros id fn Hid. rewrite last_seen_app, last_seen_all, decide_True; [done|].
    apply elem_of_table_values. eauto.
  - rewrite H1. destruct (last_ready ops) as [ev|] eqn:El; split_and!; try done.
    + intros id f Hid. rewrite last_seen_app. unfold last_seen at 1. cbn.
      destruct (decide (fn = f)) as [->|Hne]; [done|]. cbn.
      apply lookup_insert_Some in Hid as [[_ ?]|[_ ?]]; [done|eauto].
    + intros _. by rewrite app_nil_r, H2.
    + intros id f _. by rewrite app_nil_r, H2.
  - rewrite app_nil_r. split_and!; [done..|]. intros i f [_ ?]%lookup_delete_Some. eauto.
Qed.

Lemma sdk_run_inv ops : sdk_inv ops (sdk_run ops).1 (sdk_run ops).2.
Proof.
  induction ops as [|o ops IH] using rev_ind; [by split_and!|].
  rewrite sdk_run_snoc. apply (sdk_inv_step _ _ _ o) in IH.
  destruct (sdk_run ops) as [s out]. cbn [fst snd] in IH. by destruct (sdk_step s o).
Qed.
End bus_lemmas.

(** ** Properties *)

(** C38: a recorder implements a bounded history with subscriptions.  After
    any sequence of fewer recordings than [size_t] counts ([2 ^ 64], or [2 ^ 32]
    on a 32-bit target) and fewer than [2 ^ 31] subscriptions, a reader of a plugin gets exactly the entries that concern
    it among the last [RING_SIZE] recorded, oldest first and cut to [max]
    (the newest [max] of them, except in the patch recorder), the overwritten
    slots and wrapping index arithmetic notwithstanding; and a new entry is
    delivered to exactly the listeners whose subscription is in force and
    wants it. *)
Theorem recorder_refines_history (T : target) {A L} `{RecorderKind A} (ops : list (@rec_op L A)) plugin max :
  len (recorded ops) < 2 ^ word_bits → subs ops <= INT_MAX → 0 <= max →
  let s := (rec_run recorder_empty ops).1 in
  get_recent plugin max s = Ok (recent_spec plugin max (recorded ops)) ∧
  ∀ e fn, (fn, e) ∈ (record_entry e s).2 ↔
    ∃ id p, subscribed ∅ 0 ops !! id = Some (p, fn) ∧ wants e p = true.
Proof.
  intros Hb Hs Hm s. pose proof (rec_run_repr ops [] ∅ 0 recorder_empty rec_repr_empty Hb Hs) as Hr.
  split; [by eapply get_recent_repr|]. intros e fn. destruct Hr as (_ & <- & _).
  cbn. rewrite elem_of_pairs_r, elem_of_targets. naive_solver.
Qed.

Lemma recorder_refines_history_witness :
  let e n := ConsoleEntry #"p" (JInt n) in
  get_recent (T:=target32) #"p" 2 (rec_run (T:=target32) recorder_empty [Sub #"p" 7%nat; Rec (e 1); Rec (e 2); Rec (ConsoleEntry #"q" JNull); Rec (e 3)]).1
    = Ok [e 2; e 3].
Proof.
  exact (proj1 (recorder_refines_history target32
    [Sub #"p" 7%nat; Rec (ConsoleEntry #"p" (JInt 1)); Rec (ConsoleEntry #"p" (JInt 2));
     Rec (ConsoleEntry #"q" JNull); Rec (ConsoleEntry #"p" (JInt 3))] #"p" 2
    eq_refl ltac:(vm_compute; discriminate) ltac:(vm_compute; discriminate))).
Defined.

(** [patch_stream_recorder::get_recent] does not return recent events:
    of the events that concern the plugin it returns the oldest [max] still
    held, so an event newer than those is not reported; and a request for no
    events returns one. *)
Theorem patch_get_recent_returns_oldest (T : target) (old new : patch_event) plugin :
  patch_concerns old plugin = true → patch_concerns new plugin = true →
  let s := (rec_run (L := nat) recorder_empty [Rec old; Rec new]).1 in
  get_recent plugin 1 s = Ok [old] ∧ get_recent plugin 0 s = Ok [old].
Proof.
  intros Ho Hn s. pose proof (rec_run_repr (L := nat) [Rec old; Rec new] [] ∅ 0 recorder_empty rec_repr_empty
    ltac:(pose proof word_size; unfold len; simpl; lia) ltac:(done)) as Hr.
  assert (∀ max, 0 <= max <= 1 → get_recent plugin max s = Ok [old]) as Hg; [|split; apply Hg; lia].
  intros max Hmax. rewrite (get_recent_repr _ _ _ s plugin max Hr) by lia. f_equal. unfold recent_spec, lastn.
  cbn [newest_first patch_kind keeps app recorded omap list_omap length].
  replace (2 - RINGN)%nat with O by (vm_compute; reflexivity). cbn [drop List.filter].
  rewrite Ho, Hn. replace (Z.max 1 max) with 1 by lia. done.
Qed.

Lemma patch_get_recent_returns_oldest_witness :
  let ev d := PatchEvent #"applied" #"p" [] #"f" d [] [] [] [] 0 in
  get_recent (T := target32) #"p" 1 (rec_run (T := target32) (L := nat) recorder_empty [Rec (ev #"old"); Rec (ev #"new")]).1 = Ok [ev #"old"].
Proof.
  exact (proj1 (patch_get_recent_returns_oldest target32
    (PatchEvent #"applied" #"p" [] #"f" #"old" [] [] [] [] 0)
    (PatchEvent #"applied" #"p" [] #"f" #"new" [] [] [] [] 0) #"p" eq_refl eq_refl)).
Defined.

(** Console and exception events are attributed without undefined
    behaviour on any JSON the debugger may send, and soundly: the name is
    "millennium" or that of a plugin that is not internal and whose directory
    occurs in a script url of the event. *)
Theorem attribution_sound plugins params :
  (∃ name frames, console_attribute_plugin (Some plugins) params = Ok name ∧
     call_frames params = Ok frames ∧ attributed plugins (frame_urls frames) name) ∧
  (∃ name, exception_attribute_plugin (Some plugins) params = Ok name ∧
     (name = #"millennium" ∨ ∃ details frames, jget #"exceptionDetails" params = Some details ∧
        call_frames details = Ok frames ∧ attributed plugins (frame_urls (details :: frames)) name)).
Proof.
  split; cbn [console_attribute_plugin exception_attribute_plugin].
  - destruct (call_frames_total params) as [fs ->]. destruct (console_frames_sound plugins fs) as (n & ? & ?).
    bind_simpl. eauto 6.
  - destruct (contains #"exceptionDetails" params) eqn:E; cbn [negb]; [|eauto].
    apply contains_idx in E as (d & Hd & ->). bind_simpl.
    destruct (call_frames_total d) as [fs Hfs]. destruct (frame_url_total d) as [u Hu]. rewrite Hu. bind_simpl.
    destruct (bytes_eqb _ []) eqn:Ee; cbn [negb].
    + rewrite Hfs. bind_simpl. destruct (exception_frames_sound plugins fs) as (n & -> & Ha).
      exists n. split; [done|]. right. exists d, fs. split_and!; [done..|].
      by apply (attributed_mono _ _ _ _ (frame_urls_cons d fs)).
    + apply bytes_eqb_false in Ee. destruct u as [u|]; [|done]. eexists. split; [done|]. right. exists d, fs.
      split_and!; [done..|]. right. exists u. split; [|by apply check_url_owns]. exists d. split; [left|done].
Qed.

(** The crash bus loses no crash.  In every run, each crash has been
    passed to a listener or waits for the first one; nothing waits while a
    listener is registered; listeners only receive crashes that happened;
    and the buffer of unacknowledged crashes holds exactly the crashes not
    acknowledged since, in order. *)
Theorem crash_bus_no_loss {L} (ops : list (@crash_op L)) :
  let '(s, out) := crash_run ops in
  (∀ ev, Crash ev ∈ ops → (∃ fn, (fn, ev) ∈ out) ∨ ev ∈ m_pending s) ∧
  (m_pending s ≠ [] → m_listeners (crash_listeners s) = ∅) ∧
  (∀ fn ev, (fn, ev) ∈ out → Crash ev ∈ ops ∧ CrashSub fn ∈ ops) ∧
  get_pending_crashes s = unacknowledged ops.
Proof.
  pose proof (crash_run_inv ops) as (H1 & H2 & _ & H4 & _). pose proof (crash_run_buffer ops) as H5.
  by destruct (crash_run ops).
Qed.

(** A listener registered after another one gets no replay: a crash that
    happened while some listener was registered is never passed to later
    listeners, whatever the run before it. *)
Theorem crash_late_listener_not_replayed {L} (ops : list (@crash_op L)) ev fn :
  let s := (crash_run ops).1 in
  m_listeners (crash_listeners s) ≠ ∅ →
  let '(s', _) := crash_step s (Crash ev) in
  (crash_step s' (CrashSub fn)).2 = [].
Proof.
  intros s Hne. pose proof (crash_run_inv ops) as (_ & H2 & _). fold s in H2.
  cbn [crash_step]. unfold crash_notify. rewrite bool_decide_eq_false_2 by done. cbn.
  destruct (m_pending s); [done|]. exfalso. apply Hne, H2. done.
Qed.

Lemma crash_late_listener_not_replayed_witness :
  let ev := CrashEvent #"p" 1 [] [] in
  let s := (crash_run [CrashSub 1%nat]).1 in
  m_listeners (crash_listeners s) ≠ ∅ ∧
  let '(s', _) := crash_step s (Crash ev) in (crash_step s' (CrashSub 2%nat)).2 = [].
Proof.
  assert (m_listeners (crash_listeners (crash_run [CrashSub 1%nat]).1) ≠ ∅) as Hne.
  { intros H%(f_equal (lookup 1)). vm_compute in H. discriminate. }
  split; [exact Hne|]. exact (crash_late_listener_not_replayed [CrashSub 1%nat] (CrashEvent #"p" 1 [] []) 2%nat Hne).
Defined.

(** The ready bus keeps its listeners up to date: in every run, the last
    event passed to a registered listener is the last one announced, even if
    it was announced before the listener registered. *)
Theorem sdk_listeners_up_to_date {L} `{EqDecision L} (ops : list (@sdk_op L)) id fn :
  let '(s, out) := sdk_run ops in
  m_listeners (sdk_listeners s) !! id = Some fn →
  last_seen fn out = last_ready ops ∧ sdk_get_last s = last_ready ops.
Proof.
  pose proof (sdk_run_inv ops) as (H1 & _ & H3). destruct (sdk_run ops) as [s out].
  intros Hid. split; [by eapply H3|done].
Qed.

Lemma sdk_listeners_up_to_date_witness :
  let ev := SdkReadyEvent #"1.0" #"2.0" 3 [] in
  last_seen 5%nat (sdk_run [Ready ev; SdkSub 5%nat]).2 = Some ev.
Proof.
  exact (proj1 (sdk_listeners_up_to_date [Ready (SdkReadyEvent #"1.0" #"2.0" 3 []); SdkSub 5%nat] 1 5%nat eq_refl)).
Defined.
