(* ===== verification/MepProtocol.v ===== *)
(** * MepProtocol: messages, router, plugin loggers and log snapshots

    Models [src/src/mep/mep_message.cc], [mep_router.cc], [log_normalize.cc]
    and the plugin loggers of [src/src/system/logger.cc]. *)

From Stdlib Require Import Sorting.Sorted.
From S2P Require Import Prelude Json StarFile Ring Recorder.

(** ** Messages *)

Record request_t := Request { rq_id : bytes; rq_method : bytes; rq_params : json }.
Record response_t := Response { rs_id : bytes; rs_result : json; rs_error : option bytes }.

(** [noexcept]: every exception becomes [nullopt]. *)
Definition from_json (j : json) : outcome (option request_t) :=
  try_catch
    (i ← at_ #"id" j; id ← get_string i;
     m ← at_ #"method" j; method ← get_string m;
     params ← value_json #"params" JNull j;
     Ok (Some (Request id method params)))
    (λ _, Ok None).

Definition request_to_json (r : request_t) : json :=
  jobj [(#"id", JStr (rq_id r)); (#"method", JStr (rq_method r)); (#"params", rq_params r)].

Definition response_ok (id : bytes) (result : json) : response_t := Response id result None.
Definition response_err (id message : bytes) : response_t := Response id JNull (Some message).

Definition response_to_json (r : response_t) : json :=
  jobj [(#"id", JStr (rs_id r)); (#"result", rs_result r);
        (#"error", match rs_error r with Some e => JStr e | None => JNull end)].

(** ** Router *)

(** A handler runs in the state [St] of the service; it answers, or throws a
    [std::exception] with a text or something else. *)
Inductive handler_result := Answer (r : response_t) | ThrowException (what : bytes) | ThrowUnknown.

Section router.
  Context {St : Type}.
Definition handler_fn : Type := request_t → St → St * handler_result.
Definition router : Type := list (bytes * handler_fn).

Definition register_handler (method : bytes) (handler : handler_fn) (r : router) : router :=
  obj_insert method handler r.

Definition dispatch (r : router) (request : request_t) (st : St) : St * response_t :=
  match obj_get (rq_method request) r with
  | None => (st, response_err (rq_id request) (#"unknown method: " ++ rq_method request))
  | Some handler =>
      let '(st', res) := handler request st in
      (st', match res with
            | Answer a => a
            | ThrowException what => response_err (rq_id request) (#"handler threw: " ++ what)
            | ThrowUnknown => response_err (rq_id request) #"handler threw an unknown exception"
            end)
  end.
End router.

(** ** Plugin loggers *)

Inductive log_level := info | warn_ | error_.

Record log_entry := LogEntry {
  le_message : bytes;
  le_level : log_level;
  le_timestamp_us : Z;
  le_file : bytes;
  le_line : Z;
}.

(** [log_file] is the text written to the log file since it was opened. *)
Record plugin_logger (L : Type) := PluginLogger {
  pluginName : bytes;
  log_file : bytes;
  logBuffer : list log_entry;
  log_listeners : table L;
}.
Arguments PluginLogger {_} _ _ _ _.
Arguments pluginName {_} _.
Arguments log_file {_} _.
Arguments logBuffer {_} _.
Arguments log_listeners {_} _.

Section logger.
  Context {L : Type}.
  Implicit Types lg : plugin_logger L.

Definition toupper (c : byte) : byte := if islower c then z2b (b2z c - 32) else c.

Definition get_plugin_name (upperCase : bool) lg : bytes :=
  if upperCase then toupper <$> pluginName lg else pluginName lg.

Definition notify_listeners (e : log_entry) lg : list (L * log_entry) :=
  (λ fn, (fn, e)) <$> table_values (log_listeners lg).

Definition append lg (text : bytes) (e : log_entry) : plugin_logger L * list (L * log_entry) :=
  let lg' := PluginLogger (pluginName lg) (log_file lg ++ text) (logBuffer lg ++ [e]) (log_listeners lg) in
  (lg', notify_listeners e lg').

Definition nl : byte := "010"%byte.

(** [time] is [get_local_time()], [now] is [now_us()]; only the console
    output is left out. *)
Definition log (now : Z) (message : bytes) (onlyBuffer : bool) (timestamp_us : Z) (src_file : bytes) (src_line : Z) lg :=
  let entry := LogEntry message info (if timestamp_us =? 0 then now else timestamp_us) src_file src_line in
  let formatted := get_plugin_name true lg ++ #" " in
  append lg (if onlyBuffer then [] else formatted ++ message ++ [nl]) entry.

Definition warn (now : Z) (time message : bytes) (onlyBuffer : bool) (timestamp_us : Z) (src_file : bytes) (src_line : Z) lg :=
  let entry := LogEntry message warn_ (if timestamp_us =? 0 then now else timestamp_us) src_file src_line in
  let formatted := time ++ (#" " ++ get_plugin_name true lg ++ #" ") ++ message in
  append lg (if onlyBuffer then [] else formatted) entry.

Definition error (now : Z) (time message : bytes) (onlyBuffer : bool) (timestamp_us : Z) (src_file : bytes) (src_line : Z) lg :=
  let entry := LogEntry message error_ (if timestamp_us =? 0 then now else timestamp_us) src_file src_line in
  let formatted := time ++ (#" " ++ get_plugin_name true lg ++ #" ") ++ message in
  append lg (if onlyBuffer then [] else formatted) entry.

Definition print (now : Z) (message : bytes) lg :=
  append lg message (LogEntry message info now [] 0).

Definition log_add_listener (fn : L) lg : Z * plugin_logger L :=
  let '(id, t) := table_add fn (log_listeners lg) in
  (id, PluginLogger (pluginName lg) (log_file lg) (logBuffer lg) t).

Definition log_remove_listener (id : Z) lg : plugin_logger L :=
  PluginLogger (pluginName lg) (log_file lg) (logBuffer lg) (table_remove id (log_listeners lg)).

Definition collect_logs lg : list log_entry := logBuffer lg.

(** The registry of loggers; a new logger writes a banner dated [date]. *)
Definition banner (date : bytes) : bytes :=
  [nl; nl; nl] ++ #"--------------------------------- [" ++ date ++
  #"] ---------------------------------" ++ [nl].

Definition new_logger (date name : bytes) : plugin_logger L :=
  PluginLogger name (banner date) [] table_empty.

(** Returns the position of the logger in the registry. *)
Fixpoint find_logger (name : bytes) (reg : list (plugin_logger L)) : option nat :=
  match reg with
  | [] => None
  | lg :: reg => if bytes_eqb (get_plugin_name false lg) name then Some O else S <$> find_logger name reg
  end.

Definition get_or_create_plugin_logger (date name : bytes) (reg : list (plugin_logger L)) :
    nat * list (plugin_logger L) :=
  match find_logger name reg with
  | Some i => (i, reg)
  | None => (length reg, reg ++ [new_logger date name])
  end.
End logger.

(** ** Normalisation *)

Definition level_str (lv : log_level) : bytes :=
  match lv with warn_ => #"warn" | error_ => #"error" | info => #"info" end.

(** The location fields are set only for a non-empty file. *)
Definition with_location (file : bytes) (line : Z) (obj : list (bytes * json)) : json :=
  JObj (if negb (bytes_eqb file [])
        then obj_insert #"line" (JInt line) (obj_insert #"file" (JStr file) obj) else obj).

Definition normalize_log_entry (e : log_entry) : json :=
  with_location (le_file e) (le_line e)
    (obj_of [(#"source", JStr #"backend"); (#"level", JStr (level_str (le_level e)));
             (#"message", JStr (le_message e)); (#"timestamp_us", JInt (le_timestamp_us e))]).

(** [r.contains(k) && r[k].is_string() ? r[k] : none] *)
Definition string_field (k : bytes) (r : json) : option bytes :=
  match jget k r with Some (JStr s) => Some s | _ => None end.

Fixpoint strip_scheme (prefixes : list bytes) (path : bytes) : bytes :=
  match prefixes with
  | [] => path
  | p :: prefixes => if prefixb p path then drop (length p) path else strip_scheme prefixes path
  end.

Definition basename (path : bytes) : bytes :=
  match rfind_char "/"%byte path with Some slash => drop (S slash) path | None => path end.

(** A numeric field read as [int]. *)
Definition int_field (k : bytes) (r : json) (def : Z) : outcome Z :=
  match jget k r with
  | Some v => if is_number v then get_int v else Ok def
  | None => Ok def
  end.

(** The first frame with a url outside the browser's own pages. *)
Fixpoint source_location (frames : list json) : outcome (bytes * Z) :=
  match frames with
  | [] => Ok ([], 0)
  | frame :: frames =>
      match string_field #"url" frame with
      | None => source_location frames
      | Some url =>
          if bytes_eqb url [] then source_location frames
          else if prefixb #"chrome://" url || prefixb #"chrome-extension://" url then source_location frames
          else
            let path := strip_scheme [ #"file://"; #"https://"; #"http://"] url in
            line ← match jget #"lineNumber" frame with
                   | Some v =>
                       if is_number v then
                         n ← get_int v; if n =? INT_MAX then UB else Ok (n + 1)
                       else Ok 0
                   | None => Ok 0
                   end;
            Ok (basename path, line)
      end
  end.

Definition normalize_console_entry (e : console_entry) : outcome json :=
  let r := ce_raw e in
  ts ← match jget #"millennium_ts" r with Some v => get_u64 v | None => Ok 0 end;
  let level := match string_field #"level" r with
               | Some l => l
               | None => default #"log" (string_field #"type" r)
               end in
  let message := default [] (string_field #"message" r) in
  '(src_file, src_line) ←
    match string_field #"file" r with
    | Some f => line ← int_field #"line" r 0; Ok (f, line)
    | None => frames ← call_frames r; source_location frames
    end;
  let source := default #"frontend" (string_field #"millennium_source" r) in
  Ok (with_location src_file src_line
        (obj_of [(#"source", JStr source); (#"level", JStr level);
                 (#"message", JStr message); (#"timestamp_us", JInt ts)])).

Definition normalize_patch_entry (e : patch_event) : json :=
  let message :=
    if bytes_eqb (event_type e) #"conflict" then
      #"patch conflict with '" ++ other_plugin e ++ #"' on " ++ filename e
    else if bytes_eqb (event_type e) #"syntax_error" then #"regex syntax error in " ++ filename e
    else if bytes_eqb (event_type e) #"url_seen" then #"resource seen: " ++ filename e
    else event_type e ++ #" on " ++ filename e in
  let message := if negb (bytes_eqb (detail e) []) then message ++ #": " ++ detail e else message in
  jobj [(#"source", JStr #"hhx64"); (#"event_type", JStr (event_type e));
        (#"plugin", JStr (pe_plugin_name e)); (#"filename", JStr (filename e));
        (#"message", JStr message); (#"detail", JStr (detail e));
        (#"other_plugin", JStr (other_plugin e)); (#"find_pattern", JStr (find_pattern e));
        (#"transform_patterns", JStr (transform_patterns e));
        (#"before_text", JStr (before_text e)); (#"after_text", JStr (after_text e));
        (#"timestamp_ms", JInt (timestamp_ms e));
        (#"timestamp_us", JInt (u64 (timestamp_ms e * 1000)))].

Fixpoint map_outcome {A B} (f : A → outcome B) (l : list A) : outcome (list B) :=
  match l with
  | [] => Ok []
  | x :: l => y ← f x; ys ← map_outcome f l; Ok (y :: ys)
  end.

(** [a.value("timestamp_us", uint64_t(0))] *)
Definition entry_ts (j : json) : outcome Z :=
  match j with
  | JObj o => match obj_get #"timestamp_us" o with Some v => get_u64 v | None => Ok 0 end
  | _ => Throw json_error
  end.

Section snapshot.
  Context `{T : target} {L : Type}.
  (** [std::sort] with the comparison of a key. *)
  Variable std_sort : list (Z * json) → list (Z * json).

Definition collect_log_snapshot (backend_logger : plugin_logger L)
    (console : recorder console_entry L) (patches : recorder patch_event L) (max_per_source : Z) : outcome json :=
  let plugin_name := get_plugin_name false backend_logger in
  let logs := normalize_log_entry <$> collect_logs backend_logger in
  cs ← get_recent plugin_name max_per_source console;
  cs ← map_outcome normalize_console_entry cs;
  ps ← get_recent plugin_name max_per_source patches;
  let entries := logs ++ cs ++ (normalize_patch_entry <$> ps) in
  keys ← map_outcome entry_ts entries;
  Ok (JArr ((std_sort (zip keys entries)).*2)).
End snapshot.

(** ** Lemmas *)

Lemma from_json_cases j :
  from_json j =
    match jget #"id" j, jget #"method" j with
    | Some (JStr id), Some (JStr m) => Ok (Some (Request id m (default JNull (jget #"params" j))))
    | _, _ => Ok None
    end.
Proof.
  unfold from_json, at_. destruct (jget #"id" j) as [[]|] eqn:Ei; bind_simpl; try done.
  destruct (jget #"method" j) as [[]|] eqn:Em; bind_simpl; cbn [get_string]; bind_simpl; try done.
  destruct j; try done. cbn [value_json jget]. by destruct (obj_get #"params" o).
Qed.

Lemma get_u64_ts ts : 0 <= ts < 2 ^ 64 → get_u64 (JInt ts) = Ok ts.
Proof. intros. cbn [get_u64]. by rewrite u64_id. Qed.

(** The entries of a snapshot carry their timestamp. *)
Definition stamped (ts : Z) (j : json) : Prop := entry_ts j = Ok ts.

Lemma with_location_ts f l o ts :
  obj_get #"timestamp_us" o = Some (JInt ts) → 0 <= ts < 2 ^ 64 → stamped ts (with_location f l o).
Proof.
  intros Ho Hts. unfold stamped, with_location, entry_ts.
  destruct (negb _); [rewrite !obj_get_insert_ne by done|]; rewrite Ho; by apply get_u64_ts.
Qed.

Lemma log_entry_stamped e :
  0 <= le_timestamp_us e < 2 ^ 64 → stamped (le_timestamp_us e) (normalize_log_entry e).
Proof. intros. by apply with_location_ts. Qed.

Lemma patch_entry_stamped e : stamped (u64 (timestamp_ms e * 1000)) (normalize_patch_entry e).
Proof.
  change (normalize_patch_entry e) with (JObj (match normalize_patch_entry e with JObj o => o | _ => [] end)).
  unfold stamped, entry_ts, normalize_patch_entry, jobj.
  assert (∀ x, obj_get #"timestamp_us" x = Some (JInt (u64 (timestamp_ms e * 1000))) →
    match obj_get #"timestamp_us" x with Some v => get_u64 v | None => Ok 0 end = Ok (u64 (timestamp_ms e * 1000))) as Hx.
  { intros x ->. apply get_u64_ts. apply u64_range. }
  apply Hx. unfold obj_of. cbn [foldl fst snd]. apply obj_get_insert_eq.
Qed.

(** A console entry whose timestamp and line numbers are machine integers. *)
Definition frame_line_ok (frame : json) : Prop :=
  match jget #"lineNumber" frame with
  | Some (JFloat _) => False
  | Some (JInt n) => i32 n ≠ INT_MAX
  | _ => True
  end.
Definition console_ok (ts : Z) (e : console_entry) : Prop :=
  jget #"millennium_ts" (ce_raw e) = Some (JInt ts) ∧ 0 <= ts < 2 ^ 64 ∧
  match jget #"line" (ce_raw e) with Some (JFloat _) => False | _ => True end ∧
  ∀ frames, call_frames (ce_raw e) = Ok frames → Forall frame_line_ok frames.

Lemma source_location_total frames : Forall frame_line_ok frames → ∃ loc, source_location frames = Ok loc.
Proof.
  induction 1 as [|f fs Hf _ [loc IH]]; cbn [source_location]; [eauto|].
  destruct (string_field #"url" f) as [url|]; [|eauto].
  destruct (bytes_eqb url []); [eauto|]. destruct (prefixb #"chrome://" url || _); [eauto|].
  unfold frame_line_ok in Hf. destruct (jget #"lineNumber" f) as [[]|]; cbn [is_number]; bind_simpl; try (eauto; done).
  cbn [get_int]. bind_simpl. destruct (Z.eqb_spec (i32 z) INT_MAX); [done|]. bind_simpl. eauto.
Qed.

Lemma console_entry_stamped ts e :
  console_ok ts e → ∃ j, normalize_console_entry e = Ok j ∧ stamped ts j.
Proof.
  intros (Hts & Hr & Hl & Hf). unfold normalize_console_entry. rewrite Hts, get_u64_ts by done. bind_simpl.
  match goal with |- context [mbind _ ?loc] => assert (∃ fl, loc = Ok fl) as [[f l] ->] end.
  { destruct (string_field #"file" (ce_raw e)) as [f|].
    - unfold int_field. destruct (jget #"line" (ce_raw e)) as [[]|]; cbn; eauto; done.
    - destruct (call_frames_total (ce_raw e)) as [fs Hfs]. rewrite Hfs. bind_simpl.
      apply source_location_total. by apply Hf. }
  bind_simpl. eexists. split; [done|]. by apply with_location_ts.
Qed.

Lemma map_outcome_Ok {A B} (f : A → outcome B) l :
  Forall (λ x, ∃ y, f x = Ok y) l → ∃ ys, map_outcome f l = Ok ys ∧ Forall2 (λ x y, f x = Ok y) l ys.
Proof.
  induction 1 as [|x l [y Hy] _ (ys & IH & Hf)]; cbn [map_outcome]; [eexists; split; [done|constructor]|].
  rewrite Hy. bind_simpl. rewrite IH. bind_simpl. eexists. split; [done|by constructor].
Qed.

Lemma console_all_stamped es js :
  Forall (λ e, ∃ ts, console_ok ts e) es → Forall2 (λ e j, normalize_console_entry e = Ok j) es js →
  Forall (λ j, ∃ ts, entry_ts j = Ok ts) js.
Proof.
  intros He H2. induction H2 as [|e j es js Hn _ IH]; [done|].
  apply Forall_cons in He as [[ts He] Hes]. constructor; [|auto].
  destruct (console_entry_stamped ts e He) as (j' & Hn' & ?). exists ts. rewrite Hn in Hn'. by apply Ok_inj in Hn' as ->.
Qed.

Lemma Sorted_fst {B} (l : list (Z * B)) : Sorted (λ a b, a.1 <= b.1) l → Sorted Z.le l.*1.
Proof.
  induction 1 as [|x l _ IH Hd]; simpl; constructor; [done|].
  destruct Hd; simpl; by constructor.
Qed.

Lemma sorted_pairs (sort : list (Z * json) → list (Z * json)) :
  (∀ l, sort l ≡ₚ l) → (∀ l, Sorted (λ a b, a.1 <= b.1) (sort l)) →
  ∀ keys entries, Forall2 (λ j k, entry_ts j = Ok k) entries keys →
  (sort (zip keys entries)).*2 ≡ₚ entries ∧
  (Forall2 stamped (sort (zip keys entries)).*1 (sort (zip keys entries)).*2 ∧
   Sorted Z.le (sort (zip keys entries)).*1).
Proof.
  intros Hp Hs keys entries H2. pose proof (Forall2_length _ _ _ H2) as Hlen. split_and!.
  - rewrite (Hp (zip keys entries)). by rewrite snd_zip by lia.
  - apply Forall2_fmap, Forall_Forall2_diag, Forall_forall. intros [k j] Hin. simpl.
    rewrite Hp in Hin. apply list_elem_of_lookup in Hin as [i Hi].
    apply lookup_zip_with_Some in Hi as (k' & j' & [= <- <-] & Hk & Hj).
    by eapply Forall2_lookup_lr in H2.
  - apply Sorted_fst, Hs.
Qed.

(** The loggers of a registry, by name. *)
Lemma find_logger_Some {L} name (reg : list (plugin_logger L)) i :
  find_logger name reg = Some i → ∃ lg, reg !! i = Some lg ∧ pluginName lg = name.
Proof.
  revert i. induction reg as [|lg reg IH]; intros i; simpl; [done|].
  destruct (bytes_eqb (pluginName lg) name) eqn:E.
  - intros [= <-]. apply bytes_eqb_true in E. eauto.
  - destruct (find_logger name reg) as [k|]; [|done]. simpl. intros [= <-]. by apply IH.
Qed.

Lemma find_logger_None {L} name (reg : list (plugin_logger L)) :
  find_logger name reg = None → name ∉ pluginName <$> reg.
Proof.
  induction reg as [|lg reg IH]; simpl; [intros _; apply not_elem_of_nil|].
  destruct (bytes_eqb (pluginName lg) name) eqn:E; [done|]. apply bytes_eqb_false in E.
  destruct (find_logger name reg); [done|]. intros _. rewrite not_elem_of_cons. auto.
Qed.

(** ** Properties *)

(** [request_t::from_json] accepts exactly the objects with string [id]
    and [method] (a missing [params] reads as null), never throws, and
    inverts [request_t::to_json]. *)
Theorem request_from_json_spec j r :
  (∃ o, from_json j = Ok o) ∧
  (from_json j = Ok (Some r) ↔
     jget #"id" j = Some (JStr (rq_id r)) ∧ jget #"method" j = Some (JStr (rq_method r)) ∧
     rq_params r = default JNull (jget #"params" j)) ∧
  from_json (request_to_json r) = Ok (Some r).
Proof.
  rewrite from_json_cases. split_and!.
  - destruct (jget #"id" j) as [[]|]; eauto. destruct (jget #"method" j) as [[]|]; eauto.
  - destruct r as [i m p]. cbn [rq_id rq_method rq_params].
    destruct (jget #"id" j) as [[]|]; try naive_solver. destruct (jget #"method" j) as [[]|]; naive_solver.
  - rewrite from_json_cases. by destruct r.
Qed.

(** [router::dispatch] always answers.  A registered method runs the
    handler registered last for it, on the current state; an unknown method
    and a handler that throws are answered with an error that carries the
    id of the request and leaves the result null. *)
Theorem dispatch_answers {St} (r : @router St) method handler req st :
  let r' := register_handler method handler r in
  (rq_method req = method →
     dispatch r' req st =
       let '(st', res) := handler req st in
       (st', match res with
             | Answer a => a
             | ThrowException w => Response (rq_id req) JNull (Some (#"handler threw: " ++ w))
             | ThrowUnknown => Response (rq_id req) JNull (Some #"handler threw an unknown exception")
             end)) ∧
  (rq_method req ≠ method → dispatch r' req st = dispatch r req st) ∧
  dispatch [] req st = (st, Response (rq_id req) JNull (Some (#"unknown method: " ++ rq_method req))).
Proof.
  unfold dispatch, register_handler. split_and!; [..|done].
  - intros ->. by rewrite obj_get_insert_eq.
  - intros Hne. by rewrite obj_get_insert_ne by done.
Qed.

Lemma dispatch_answers_witness :
  let h : @handler_fn nat := λ req n, (S n, ThrowException #"boom") in
  dispatch (register_handler #"m" h []) (Request #"7" #"m" JNull) 0%nat =
    (1%nat, Response #"7" JNull (Some #"handler threw: boom")).
Proof.
  exact (proj1 (dispatch_answers [] #"m" (λ req n, (S n, ThrowException #"boom")) (Request #"7" #"m" JNull) 0%nat) eq_refl).
Defined.

(** The registry keeps one logger per plugin: asking for a logger gives
    one of that name, keeps every logger already there in place, adds at most
    one, keeps the names distinct, and a second request returns the same
    logger and changes nothing. *)
Theorem logger_registry_unique {L} date date' name (reg : list (plugin_logger L)) :
  let '(i, reg') := get_or_create_plugin_logger date name reg in
  (∃ lg, reg' !! i = Some lg ∧ pluginName lg = name) ∧ reg `prefix_of` reg' ∧
  (NoDup (pluginName <$> reg) → NoDup (pluginName <$> reg')) ∧
  get_or_create_plugin_logger date' name reg' = (i, reg').
Proof.
  unfold get_or_create_plugin_logger. destruct (find_logger name reg) as [i|] eqn:E.
  - rewrite E. split_and!; [by apply find_logger_Some|done..].
  - pose proof (find_logger_None _ _ E) as Hn. assert (find_logger name (reg ++ [new_logger date name]) = Some (length reg)) as Hf.
    { clear Hn. induction reg as [|lg reg IH]; simpl in *; [by rewrite bytes_eqb_refl|].
      destruct (bytes_eqb (pluginName lg) name); [done|]. destruct (find_logger name reg); [done|]. by rewrite IH. }
    rewrite Hf. split_and!; [by apply find_logger_Some|by eexists| |done].
    intros Hnd. rewrite fmap_app. apply NoDup_app. split_and!; [done| |apply NoDup_singleton].
    intros x Hx Hx'%list_elem_of_singleton. by subst.
Qed.

(** Warnings and errors are written to the log file without a line
    break: what is logged next continues the line, unlike after [log]. *)
Theorem warn_runs_lines_together {L} now t1 m1 t2 m2 (lg : plugin_logger L) :
  let lg1 := (warn now t1 m1 false 0 [] 0 lg).1 in
  let lg2 := (warn now t2 m2 false 0 [] 0 lg1).1 in
  let tag := #" " ++ get_plugin_name true lg ++ #" " in
  log_file lg2 = log_file lg ++ (t1 ++ tag ++ m1) ++ (t2 ++ tag ++ m2) ∧
  log_file (log now m2 false 0 [] 0 (log now m1 false 0 [] 0 lg).1).1 =
    log_file lg ++ (get_plugin_name true lg ++ #" " ++ m1 ++ [nl]) ++ (get_plugin_name true lg ++ #" " ++ m2 ++ [nl]).
Proof. cbn zeta. split; cbn [warn log append fst log_file get_plugin_name pluginName]; app_norm; done. Qed.

Section snapshot_spec.
  Context `{T : target} {L : Type} (std_sort : list (Z * json) → list (Z * json)).
  Hypothesis sort_permutes : ∀ l, std_sort l ≡ₚ l.
  Hypothesis sort_orders : ∀ l, Sorted (λ a b, a.1 <= b.1) (std_sort l).

(** A log snapshot is complete and in time order.  For a plugin whose
    three sources hold well-formed entries, [collect_log_snapshot] succeeds
    and returns the entries of its logger, the last [max] console entries and
    the patch events that its recorder reports, each normalised, sorted by
    timestamp. *)
Theorem snapshot_complete_sorted (lg : plugin_logger L) cops pops max :
  len (recorded cops) < 2 ^ word_bits → subs cops <= INT_MAX →
  len (recorded pops) < 2 ^ word_bits → subs pops <= INT_MAX → 0 <= max →
  Forall (λ e, 0 <= le_timestamp_us e < 2 ^ 64) (logBuffer lg) →
  Forall (λ e, ∃ ts, console_ok ts e) (recorded cops) →
  ∃ sorted cs,
    collect_log_snapshot std_sort lg (rec_run recorder_empty cops).1 (rec_run recorder_empty pops).1 max = Ok (JArr sorted) ∧
    Forall2 (λ e j, normalize_console_entry e = Ok j) (recent_spec (pluginName lg) max (recorded cops)) cs ∧
    sorted ≡ₚ (normalize_log_entry <$> logBuffer lg) ++ cs ++
              (normalize_patch_entry <$> recent_spec (pluginName lg) max (recorded pops)) ∧
    ∃ keys, Forall2 stamped keys sorted ∧ Sorted Z.le keys.
Proof.
  intros Hc1 Hc2 Hp1 Hp2 Hm Hlog Hcon. unfold collect_log_snapshot.
  pose proof (rec_run_repr cops [] ∅ 0 recorder_empty rec_repr_empty Hc1 Hc2) as Hrc.
  pose proof (rec_run_repr pops [] ∅ 0 recorder_empty rec_repr_empty Hp1 Hp2) as Hrp.
  rewrite (get_recent_repr _ _ _ _ _ _ Hrc Hm), (get_recent_repr _ _ _ _ _ _ Hrp Hm). bind_simpl. cbn [app].
  cbn [get_plugin_name]. set (ces := recent_spec (pluginName lg) max (recorded cops)).
  assert (Forall (λ e, ∃ ts, console_ok ts e) ces) as Hces.
  { apply Forall_forall. intros e He. eapply Forall_forall in Hcon; [done|]. unfold ces, recent_spec in He. cbn in He.
    unfold lastn in He. apply (subseteq_drop _ _) in He. apply list_elem_of_In, filter_In in He as [He _].
    apply list_elem_of_In in He. by apply (subseteq_drop _ _) in He. }
  destruct (map_outcome_Ok normalize_console_entry ces) as (cs & Hcs & Hf2).
  { eapply Forall_impl; [exact Hces|]. intros e [ts He]. destruct (console_entry_stamped ts e He) as (j & ? & _). eauto. }
  rewrite Hcs. bind_simpl. set (entries := (normalize_log_entry <$> collect_logs lg) ++ _).
  destruct (map_outcome_Ok entry_ts entries) as (keys & -> & Hk).
  { apply Forall_app. split; [|apply Forall_app; split].
    - apply Forall_fmap. eapply Forall_impl; [exact Hlog|]. intros e He. eexists. by apply log_entry_stamped.
    - eapply console_all_stamped; [exact Hces|exact Hf2].
    - apply Forall_fmap, Forall_true. intros e. eexists. apply patch_entry_stamped. }
  bind_simpl. exists ((std_sort (zip keys entries)).*2), cs.
  destruct (sorted_pairs std_sort sort_permutes sort_orders keys entries Hk) as [Hp Hs]. split_and!; try done.
  by exists (std_sort (zip keys entries)).*1.
Qed.
End snapshot_spec.

(** An insertion sort on keys, which meets the contract of [std::sort]. *)
Fixpoint key_insert {B} (x : Z * B) (l : list (Z * B)) : list (Z * B) :=
  match l with
  | [] => [x]
  | y :: l' => if x.1 <=? y.1 then x :: l else y :: key_insert x l'
  end.
Definition key_sort {B} (l : list (Z * B)) : list (Z * B) := foldr key_insert [] l.

Lemma key_insert_perm {B} (x : Z * B) l : key_insert x l ≡ₚ x :: l.
Proof. induction l as [|y l IH]; simpl; [done|]. case_match; [done|]. rewrite IH. apply Permutation_swap. Qed.
Lemma key_sort_perm {B} (l : list (Z * B)) : key_sort l ≡ₚ l.
Proof. induction l as [|x l IH]; simpl; [done|]. by rewrite key_insert_perm, IH. Qed.

Lemma key_insert_sorted {B} (x : Z * B) l :
  Sorted (λ a b, a.1 <= b.1) l → Sorted (λ a b, a.1 <= b.1) (key_insert x l).
Proof.
  induction 1 as [|y l Hs IH Hd]; simpl; [by repeat constructor|].
  destruct (Z.leb_spec x.1 y.1); [by repeat constructor|]. constructor; [done|].
  destruct Hd as [|z l Hz]; simpl; [constructor; lia|]. destruct (x.1 <=? z.1); constructor; lia.
Qed.
Lemma key_sort_sorted {B} (l : list (Z * B)) : Sorted (λ a b, a.1 <= b.1) (key_sort l).
Proof. induction l as [|x l IH]; simpl; [constructor|]. by apply key_insert_sorted. Qed.

Lemma snapshot_complete_sorted_witness :
  let lg := PluginLogger (L := nat) #"p" [] [LogEntry #"b" info 20 [] 0] table_empty in
  ∃ (sorted cs : list json),
    collect_log_snapshot (T:=target32) key_sort lg (rec_run (T:=target32) recorder_empty [Rec (direct_entry 10 #"p" #"log" #"m" #"frontend" [] 0)]).1
      (rec_run (T:=target32) recorder_empty []).1 200 = Ok (JArr sorted) ∧ length cs = 1%nat.
Proof.
  destruct (snapshot_complete_sorted (T:=target32) key_sort key_sort_perm key_sort_sorted
    (PluginLogger (L := nat) #"p" [] [LogEntry #"b" info 20 [] 0] table_empty)
    [Rec (direct_entry 10 #"p" #"log" #"m" #"frontend" [] 0)] [] 200
    eq_refl ltac:(done) eq_refl ltac:(done) ltac:(done)) as (sorted & cs & H1 & H2 & _).
  - by repeat constructor.
  - repeat constructor. exists 10. split_and!; [reflexivity|done..|]. intros frames Hf. vm_compute in Hf.
    injection Hf as <-. constructor.
  - exists sorted, cs. split; [exact H1|]. apply Forall2_length in H2. rewrite <- H2. vm_compute. reflexivity.
Defined.
