(* ===== verification/Config.v ===== *)
(** * Config: the configuration store

    Models [src/src/system/config.cc]: the settings tree with its defaults
    and listeners, and its persistence.  The disk is a finite map from file
    names to contents; an operation on it returns the sequence of contents
    the disk goes through, so that a crash between two steps is visible.
    JSON equality, parsing and printing are nlohmann's and are parameters, as
    are the answers of the operating system. *)

From S2P Require Import Prelude Json.

(** ** Trees and paths *)

(** The walk of [get]: the value at a path, [None] where [def] is returned.
    [segments] is not empty. *)
Fixpoint get_path (j : json) (segments : list bytes) : option json :=
  match segments with
  | [] => None
  | [s] => jget s j
  | s :: segments => match jget s j with Some j' => get_path j' segments | None => None end
  end.

(** The walk of [set]: intermediate values that are not objects become empty
    objects; the node that holds the last segment becomes an object; the
    value is stored only if it differs from the old one.  Returns the new
    tree, the old value and whether the value was stored. *)
Section trees.
  Variable json_eq : json → json → bool.

Definition as_object (j : json) : list (bytes * json) := match j with JObj o => o | _ => [] end.

Definition set_last (k : bytes) (value : json) (j : json) : json * json * bool :=
  let o := as_object j in
  let old_value := default JNull (obj_get k o) in
  if negb (json_eq old_value value) then (JObj (obj_insert k value o), old_value, true)
  else (JObj o, old_value, false).

Fixpoint set_path (segments : list bytes) (last : bytes) (value : json) (j : json) : outcome (json * json * bool) :=
  match segments with
  | [] => Ok (set_last last value j)
  | s :: segments =>
      match j with
      | JObj _ | JNull =>
          let o := as_object j in
          let child := match obj_get s o with Some (JObj c) => JObj c | _ => JObj [] end in
          '(child', old, changed) ← set_path segments last value child;
          Ok (JObj (obj_insert s child' o), old, changed)
      | _ => Throw json_error
      end
  end.
End trees.

Fixpoint join_segments (segments : list bytes) : bytes :=
  match segments with
  | [] => []
  | [s] => s
  | s :: segments => s ++ "."%byte :: join_segments segments
  end.

Definition full_key (path key : bytes) : bytes :=
  if bytes_eqb path [] then key else path ++ "."%byte :: key.

(** The loop over [incoming.items()] with [step] as its body; the additions
    it announces are returned in order. *)
Section merge_loop.
  Variable step : json → bytes → json → outcome (json * list (bytes * json)).

Fixpoint merge_loop (current : json) (items : list (bytes * json)) {struct items} :
    outcome (json * list (bytes * json)) :=
  match items with
  | [] => Ok (current, [])
  | (key, value) :: items =>
      '(current, n1) ← step current key value;
      '(current, n2) ← merge_loop current items;
      Ok (current, n1 ++ n2)
  end.
End merge_loop.

(** The body of that loop; an object calls [merge_default_config] again. *)
Fixpoint merge_value (path : bytes) (current : json) (key : bytes) (value : json) {struct value} :
    outcome (json * list (bytes * json)) :=
  match value with
  | JObj items =>
      match current with
      | JObj _ | JNull =>
          let o := as_object current in
          let child := match obj_get key o with Some (JObj c) => JObj c | _ => JObj [] end in
          '(child', notes) ← merge_loop (merge_value (full_key path key)) child items;
          Ok (JObj (obj_insert key child' o), notes)
      | _ => Throw json_error
      end
  | value =>
      if contains key current then Ok (current, [])
      else c ← set_key key value current; Ok (c, [(full_key path key, value)])
  end.

Definition merge_items (path : bytes) : json → list (bytes * json) → outcome (json * list (bytes * json)) :=
  merge_loop (merge_value path).

(** ** The store *)

(** A listener is a [std::function]: the type of its target and its
    identity. *)
Record config_manager (L : Type) := Config {
  _data : json;
  _defaults : list (bytes * json);
  _listeners : list (L * N);
  _save_disabled : bool;
}.
Arguments Config {_} _ _ _ _.
Arguments _data {_} _.
Arguments _defaults {_} _.
Arguments _listeners {_} _.
Arguments _save_disabled {_} _.

Abbreviation disk := (gmap bytes bytes).

(** What the operating system answers while a file is saved: whether the
    temporary file opens, how much of the text is in it at some moment of
    the write, whether the write succeeds, and the result of each rename. *)
Record save_env := SaveEnv {
  open_ok : bool;
  partial : nat;
  write_ok : bool;
  rename_ok : list bool;
}.

(** What it answers while the file is loaded. *)
Record load_env := LoadEnv {
  read_ok : bool;
  copy_ok : bool;
  unix_time : N;
  save_answers : save_env;
}.

Section store.
  Context {L : Type} `{!EqDecision L}.
  Variable json_eq : json → json → bool.
  Variable parse_json : bytes → option json.
  Variable dump : json → outcome bytes.
  Variable _filename : bytes.
  Implicit Types cfg : config_manager L.

Definition call : Type := (L * N) * (bytes * json * json).

Definition with_data cfg (j : json) : config_manager L :=
  Config j (_defaults cfg) (_listeners cfg) (_save_disabled cfg).

(** Every listener is called in order; what it throws is swallowed. *)
Definition notify_listeners cfg (key : bytes) (old_value new_value : json) : list call :=
  (λ l, (l, (key, old_value, new_value))) <$> _listeners cfg.

Definition get cfg (segments : list bytes) (def : json) : json :=
  default def (get_path (_data cfg) segments).

Definition tempFilename : bytes := _filename ++ #".tmp".

Fixpoint try_rename (answers : list bool) (attempts : nat) (text : bytes) (d : disk) : list disk :=
  match attempts with
  | O => []
  | S attempts =>
      match answers with
      | true :: _ => [<[_filename := text]> (delete tempFilename d)]
      | _ => d :: try_rename (tail answers) attempts text d
      end
  end.

(** The disk contents the save goes through, and how it ends. *)
Definition save_to_disk (env : save_env) cfg (d : disk) : list disk * outcome () :=
  if _save_disabled cfg then ([d], Ok ()) else
  if negb (open_ok env) then ([d], Ok ()) else
  let opened := <[tempFilename := []]> d in
  match dump (_data cfg) with
  | Ok text =>
      let writing := <[tempFilename := take (partial env) text]> d in
      if negb (write_ok env) then ([d; opened; writing; delete tempFilename d], Ok ())
      else
        let written := <[tempFilename := text]> d in
        ([d; opened; writing; written] ++ try_rename (rename_ok env) 5 text written, Ok ())
  | Throw e => ([d; opened], Throw e)
  | UB => ([d; opened], UB)
  | NoFuel => ([d; opened], NoFuel)
  end.

(** [set]: the new store, the calls made, and the disk contents. *)
Definition set (env : save_env) cfg (segments : list bytes) (last : bytes) (value : json)
    (skipPropagation : bool) (d : disk) : outcome (config_manager L * list call * list disk) :=
  '(j, old_value, changed) ← set_path json_eq segments last value (_data cfg);
  let cfg := with_data cfg j in
  if changed && negb skipPropagation then
    let calls := notify_listeners cfg (join_segments (segments ++ [last])) old_value value in
    let '(states, r) := save_to_disk env cfg d in
    _ ← r; Ok (cfg, calls, states)
  else Ok (cfg, [], [d]).

Definition register_listener (l : L * N) cfg : config_manager L :=
  Config (_data cfg) (_defaults cfg) (_listeners cfg ++ [l]) (_save_disabled cfg).

(** [target<void(...)>()] names a function type, which no [std::function]
    stores, so both pointers compared are null. *)
Definition unregister_listener (l : L * N) cfg : config_manager L :=
  Config (_data cfg) (_defaults cfg)
    (List.filter (λ x, negb (bool_decide (x.1 = l.1))) (_listeners cfg)) (_save_disabled cfg).

Definition set_default_config (key : bytes) (value : json) cfg : config_manager L :=
  Config (_data cfg) (obj_insert key value (_defaults cfg)) (_listeners cfg) (_save_disabled cfg).

Definition merge_default_config cfg : outcome (config_manager L * list call) :=
  '(j, notes) ← merge_items [] (_data cfg) (_defaults cfg);
  Ok (with_data cfg j, concat ((λ '(k, v), notify_listeners cfg k JNull v) <$> notes)).

Definition backup_name (t : N) : bytes := _filename ++ #".corrupted." ++ dec t.

(** The part of [load_from_disk] that reads the file: the data, whether
    saving is disabled, and the disk afterwards. *)
Definition read_config (env : load_env) (disabled : bool) (d : disk) : json * bool * disk :=
  let d := delete tempFilename d in
  match d !! _filename with
  | None => (JObj [], disabled, d)
  | Some text =>
      if negb (read_ok env) then (JObj [], true, d)
      else match parse_json text with
           | Some j => (j, disabled, d)
           | None => (JObj [], disabled, if copy_ok env then <[backup_name (unix_time env) := text]> d else d)
           end
  end.

Definition load_from_disk (env : load_env) cfg (d : disk) : outcome (config_manager L * list call * list disk) :=
  let '(j, disabled, d) := read_config env (_save_disabled cfg) d in
  let cfg := Config j (_defaults cfg) (_listeners cfg) disabled in
  '(cfg, calls) ← merge_default_config cfg;
  let '(states, r) := save_to_disk (save_answers env) cfg d in
  _ ← r; Ok (cfg, calls, states).

Definition items (j : json) : list (bytes * json) :=
  match j with
  | JObj o => o
  | JArr l => imap (λ i v, (dec (N.of_nat i), v)) l
  | JNull => []
  | j => [([], j)]
  end.

Fixpoint set_all_calls cfg (old_data : json) (kvs : list (bytes * json)) : outcome (list call) :=
  match kvs with
  | [] => Ok []
  | (k, v) :: kvs =>
      old ← value_json k JNull old_data;
      rest ← set_all_calls cfg old_data kvs;
      Ok (notify_listeners cfg k old v ++ rest)
  end.

(** The store, the value returned, the calls and the disk contents; calls
    made before an exception are not recorded. *)
Definition set_all (env : save_env) (newConfig : json) (skipPropagation : bool) cfg (d : disk) :
    config_manager L * json * list call * list disk :=
  let cfg' := with_data cfg newConfig in
  match (if skipPropagation then Ok [] else set_all_calls cfg' (_data cfg) (items newConfig)) with
  | Ok calls =>
      let '(states, r) := save_to_disk env cfg' d in
      (cfg', match r with Ok _ => newConfig | _ => JObj [] end, calls, states)
  | _ => (cfg', JObj [], [], [d])
  end.

Definition get_all cfg : json :=
  JObj (foldl (λ r kv, obj_insert kv.1 kv.2 r) (_defaults cfg) (items (_data cfg))).
End store.

(** ** Lemmas on paths *)

(** Two paths that part at some segment: neither leads through the other. *)
Fixpoint diverge (p q : list bytes) : Prop :=
  match p, q with
  | a :: p, b :: q => a ≠ b ∨ (a = b ∧ diverge p q)
  | _, _ => False
  end.

Lemma get_path_cons s q j :
  q ≠ [] → get_path j (s :: q) = match jget s j with Some j' => get_path j' q | None => None end.
Proof. by destruct q. Qed.

Lemma get_path_nonobject j q : is_object j = false → get_path j q = None.
Proof. destruct j; try done; intros _; destruct q as [|? [|]]; done. Qed.

Lemma get_path_empty q : get_path (JObj []) q = None.
Proof. destruct q as [|? [|]]; done. Qed.

Lemma jget_as_object k j : jget k (JObj (as_object j)) = jget k j.
Proof. by destruct j. Qed.

Lemma jget_insert s v o k : jget k (JObj (obj_insert s v o)) = if bytes_eqb s k then Some v else jget k (JObj o).
Proof. cbn [jget]. apply obj_get_insert. Qed.

(** The child that [set] and [merge_default_config] descend into. *)
Definition child_of (s : bytes) (j : json) : json :=
  match obj_get s (as_object j) with Some (JObj c) => JObj c | _ => JObj [] end.

Lemma child_of_path s j q :
  q ≠ [] → get_path (child_of s j) q = match jget s j with Some j' => get_path j' q | None => None end.
Proof.
  intros Hq. unfold child_of. rewrite <- (jget_as_object s j). cbn [jget].
  destruct (obj_get s (as_object j)) as [[]|]; try done;
    rewrite get_path_empty; by rewrite ?get_path_nonobject.
Qed.

Lemma set_path_spec json_eq segs : ∀ k v j j' old changed,
  set_path json_eq segs k v j = Ok (j', old, changed) →
  old = default JNull (get_path j (segs ++ [k])) ∧
  changed = negb (json_eq old v) ∧
  default JNull (get_path j' (segs ++ [k])) = (if changed then v else old) ∧
  (∀ q, diverge (segs ++ [k]) q → get_path j' q = get_path j q).
Proof.
  induction segs as [|s segs IH]; intros k v j j' old changed; cbn [set_path app].
  - intros H. apply Ok_inj in H. unfold set_last in H.
    cbn [get_path]. rewrite <- (jget_as_object k j). cbn [jget].
    destruct (negb (json_eq _ v)) eqn:E; injection H as <- <- <-; rewrite E; split_and!; try done.
    + by rewrite jget_insert, bytes_eqb_refl.
    + intros [|b q]; [done|]. intros [Hne|[_ []]]. apply bytes_eqb_false in Hne.
      destruct q as [|]; [cbn [get_path]|rewrite !get_path_cons by done];
        by rewrite jget_insert, Hne, jget_as_object.
    + intros [|b q]; [done|]. intros _.
      destruct q as [|]; [cbn [get_path]|rewrite !get_path_cons by done]; by rewrite jget_as_object.
  - intros H. assert (∃ r, set_path json_eq segs k v (child_of s j) = Ok r ∧
      Ok (JObj (obj_insert s r.1.1 (as_object j)), r.1.2, r.2) = Ok (j', old, changed)) as ([[c' old'] ch'] & Hr & He).
    { destruct j; try done; inv_ok; destruct x as [[c' old'] ch']; exists (c', old', ch'); done. }
    apply Ok_inj in He. cbn [fst snd] in He. injection He as <- <- <-.
    apply IH in Hr as (-> & -> & Hg & Hd). rewrite child_of_path in * by (by destruct segs).
    rewrite !get_path_cons by (by destruct segs). split_and!; try done.
    + by rewrite jget_insert, bytes_eqb_refl.
    + intros [|b q]; [done|]. cbn [diverge]. intros [Hne|[-> Hq]].
      * apply bytes_eqb_false in Hne. destruct q as [|]; [cbn [get_path]|rewrite !get_path_cons by done];
          by rewrite jget_insert, Hne, jget_as_object.
      * assert (q ≠ []) by (intros ->; by destruct (segs ++ [k])).
        rewrite !get_path_cons by done. rewrite jget_insert, bytes_eqb_refl.
        rewrite Hd by done. by rewrite child_of_path.
Qed.

Lemma set_path_total json_eq segs : ∀ k v j,
  (is_object j = true ∨ j = JNull ∨ segs = []) → ∃ r, set_path json_eq segs k v j = Ok r.
Proof.
  induction segs as [|s segs IH]; intros k v j Hj; cbn [set_path]; [eauto|].
  assert (∃ r, set_path json_eq segs k v (child_of s j) = Ok r) as ([[c o] ch] & Hr).
  { apply IH. left. unfold child_of. by destruct (obj_get s (as_object j)) as [[]|]. }
  unfold child_of in Hr. destruct Hj as [Hj|[->|?]]; [|by rewrite Hr; cbn; eauto|done].
  destruct j; try done. rewrite Hr. cbn. eauto.
Qed.

(** ** Lemmas on merging *)

(** The objects of a value have distinct keys, as those of [std::map]. *)
Fixpoint json_wf (j : json) : Prop :=
  match j with
  | JObj o => NoDup o.*1 ∧ (fix go (o : list (bytes * json)) := match o with [] => True | (_, v) :: o => json_wf v ∧ go o end) o
  | _ => True
  end.

Lemma json_wf_obj o : json_wf (JObj o) ↔ NoDup o.*1 ∧ ∀ k v, obj_get k o = Some v → json_wf v.
Proof.
  cbn [json_wf]. split.
  - intros [Hn Hg]. split; [done|]. induction o as [|[k' v'] o IH]; intros k v; simpl; [done|].
    destruct Hg as [Hv Hg]. cbn in Hn. apply NoDup_cons in Hn as [_ Hn].
    destruct (bytes_eqb k' k); [by intros [= <-]|]. apply IH; done.
  - intros [Hn Hg]. split; [done|]. induction o as [|[k' v'] o IH]; [done|]. cbn in Hn. apply NoDup_cons in Hn as [Hnin Hn].
    split.
    + apply (Hg k'). simpl. by rewrite bytes_eqb_refl.
    + apply IH; [done|]. intros k v Hk. apply (Hg k). simpl. destruct (bytes_eqb k' k) eqn:E; [|done].
      apply bytes_eqb_true in E as ->. apply obj_get_In in Hk. exfalso. apply Hnin.
      apply list_elem_of_fmap. by exists (k, v).
Qed.

(** What the merge leaves at a key: for an object the merge of its items into
    the child, for other values the old value if there is one. *)
Definition merged_child (path : bytes) (key : bytes) (cur : json) (value child : json) : Prop :=
  match value with
  | JObj items => ∃ notes, merge_loop (merge_value (full_key path key)) (child_of key cur) items = Ok (child, notes)
  | _ => child = default value (jget key cur)
  end.

Lemma set_key_jget k v j j' : set_key k v j = Ok j' → j' = JObj (obj_insert k v (as_object j)).
Proof. destruct j; try done; cbn; intros [= <-]; done. Qed.

Lemma merge_value_leaf path cur key value : is_object value = false →
  merge_value path cur key value =
    if contains key cur then Ok (cur, []) else c ← set_key key value cur; Ok (c, [(full_key path key, value)]).
Proof. by destruct value. Qed.

Lemma merge_value_spec path cur key value cur' notes :
  merge_value path cur key value = Ok (cur', notes) →
  (∀ k, k ≠ key → jget k cur' = jget k cur) ∧ ∃ child, jget key cur' = Some child ∧ merged_child path key cur value child.
Proof.
  intros H. destruct (is_object value) eqn:Eo.
  - destruct value as [| | | | | |items]; try done. cbn [merge_value] in H.
    assert (∃ r, merge_loop (merge_value (full_key path key)) (child_of key cur) items = Ok r ∧
      cur' = JObj (obj_insert key r.1 (as_object cur))) as ([child n] & Hr & ->).
    { destruct cur; try done; inv_ok; destruct x as [c n]; apply Ok_inj in H; injection H as <- <-; by exists (c, n). }
    split.
    + intros k Hk%not_eq_sym%bytes_eqb_false. by rewrite jget_insert, Hk, jget_as_object.
    + exists child. rewrite jget_insert, bytes_eqb_refl. split; [done|]. by exists n.
  - rewrite merge_value_leaf in H by done. unfold contains in H.
    assert (∀ c, merged_child path key cur value c ↔ c = default value (jget key cur)) as Hm by by destruct value.
    destruct (jget key cur) as [v|] eqn:Ej.
    + apply Ok_inj in H. injection H as <- <-. split; [done|]. exists v. by rewrite Hm.
    + inv_ok. injection H as <- <-. apply set_key_jget in Hx as ->. split.
      * intros k Hk%not_eq_sym%bytes_eqb_false. by rewrite jget_insert, Hk, jget_as_object.
      * exists value. rewrite jget_insert, bytes_eqb_refl. by rewrite Hm.
Qed.

Lemma merged_child_ext path key cur cur2 value child :
  jget key cur = jget key cur2 → merged_child path key cur value child → merged_child path key cur2 value child.
Proof.
  intros He. unfold merged_child. rewrite He. destruct value; try done.
  assert (child_of key cur = child_of key cur2) as ->; [|done].
  unfold child_of. rewrite <- (jget_as_object key cur), <- (jget_as_object key cur2) in He. cbn [jget] in He. by rewrite He.
Qed.

Lemma merge_loop_spec path items : ∀ cur cur' notes,
  NoDup items.*1 → merge_loop (merge_value path) cur items = Ok (cur', notes) →
  ∀ k, match obj_get k items with
       | None => jget k cur' = jget k cur
       | Some v => ∃ child, jget k cur' = Some child ∧ merged_child path k cur v child
       end.
Proof.
  induction items as [|[key value] items IH]; intros cur cur' notes Hnd H k; cbn [merge_loop obj_get] in *.
  { apply Ok_inj in H. by injection H as <- <-. }
  inv_ok. destruct x as [c1 n1]. inv_ok. destruct x as [c2 n2]. apply Ok_inj in H. injection H as <- <-.
  cbn in Hnd. apply NoDup_cons in Hnd as [Hnin Hnd]. apply merge_value_spec in Hx as [Hother (child & Hc & Hm)].
  pose proof (IH _ _ _ Hnd Hx0 k) as Hk.
  destruct (bytes_eqb key k) eqn:E.
  - apply bytes_eqb_true in E as ->. destruct (obj_get k items) eqn:Eg.
    { apply obj_get_In in Eg. exfalso. apply Hnin, list_elem_of_fmap. by exists (k, j). }
    exists child. by rewrite Hk.
  - apply bytes_eqb_false, not_eq_sym in E. rewrite <- (Hother k E).
    destruct (obj_get k items); [|done]. destruct Hk as (c & ? & Hmc). exists c. split; [done|].
    eapply merged_child_ext; [|done]. by apply Hother.
Qed.

(** What a path leads to after the merge. *)
Definition merge_result (d cur : option json) (m : option json) : Prop :=
  match d with
  | None => m = cur
  | Some (JObj _) => ∃ o, m = Some (JObj o)
  | Some w => m = Some (default w cur)
  end.

Lemma child_of_object s j : is_object (child_of s j) = true.
Proof. unfold child_of. by destruct (obj_get s (as_object j)) as [[]|]. Qed.

Lemma merge_loop_object path items : ∀ cur cur' notes,
  is_object cur = true → merge_loop (merge_value path) cur items = Ok (cur', notes) → is_object cur' = true.
Proof.
  induction items as [|[k v] items IH]; intros cur cur' notes Hc H; cbn [merge_loop] in H.
  { apply Ok_inj in H. by injection H as <- <-. }
  inv_ok. destruct x as [c1 n1]. inv_ok. destruct x as [c2 n2]. apply Ok_inj in H. injection H as <- <-.
  eapply IH; [|exact Hx0]. destruct cur; try done. destruct v; cbn [merge_value] in Hx;
    try (destruct (contains k _); [apply Ok_inj in Hx; by injection Hx as <- <-|cbn in Hx; apply Ok_inj in Hx; by injection Hx as <- <-]).
  inv_ok. destruct x. apply Ok_inj in Hx. by injection Hx as <- <-.
Qed.

Lemma merge_path q : ∀ path items cur cur' notes,
  q ≠ [] → json_wf (JObj items) → merge_loop (merge_value path) cur items = Ok (cur', notes) →
  merge_result (get_path (JObj items) q) (get_path cur q) (get_path cur' q).
Proof.
  induction q as [|s q IH]; intros path items cur cur' notes Hq Hwf H; [done|].
  apply json_wf_obj in Hwf as [Hnd Hwf]. pose proof (merge_loop_spec _ _ _ _ _ Hnd H s) as Hs.
  destruct (decide (q = [])) as [->|Hne].
  - cbn [get_path jget]. destruct (obj_get s items) as [v|]; [|done]. destruct Hs as (child & -> & Hm).
    destruct v as [| | | | | |its]; cbn [merged_child] in Hm; try (by subst). destruct Hm as [n Hl].
    apply merge_loop_object in Hl; [|apply child_of_object]. destruct child; try done. cbn. eauto.
  - rewrite !get_path_cons by done. cbn [jget]. destruct (obj_get s items) as [v|] eqn:Es.
    2:{ rewrite Hs. cbn. done. }
    destruct Hs as (child & -> & Hm). destruct v as [| | | | | |its]; cbn [merged_child] in Hm.
    7:{ destruct Hm as [n Hl]. rewrite <- child_of_path by done. eapply IH; [done| |exact Hl]. by eapply Hwf. }
    all: rewrite (get_path_nonobject _ q) by done; subst child; cbn [merge_result];
      destruct (jget s cur); [done|]; by rewrite (get_path_nonobject _ q).
Qed.

Lemma merge_loop_total step items : ∀ cur,
  is_object cur = true →
  (∀ k v, (k, v) ∈ items → ∀ cur, is_object cur = true → ∃ c n, step cur k v = Ok (c, n) ∧ is_object c = true) →
  ∃ c n, merge_loop step cur items = Ok (c, n) ∧ is_object c = true.
Proof.
  induction items as [|[k v] items IH]; intros cur Hc Hs; cbn [merge_loop]; [eauto|].
  destruct (Hs k v ltac:(left) cur Hc) as (c1 & n1 & -> & Hc1). bind_simpl.
  destruct (IH c1 Hc1) as (c2 & n2 & -> & Hc2); [intros; apply Hs; [by right|done]|]. bind_simpl. eauto.
Qed.

Lemma set_key_object k v cur : is_object cur = true → ∃ c, set_key k v cur = Ok c ∧ is_object c = true.
Proof. destruct cur; try done. cbn. eauto. Qed.

Lemma merge_value_total value : ∀ path cur key,
  is_object cur = true → ∃ c n, merge_value path cur key value = Ok (c, n) ∧ is_object c = true.
Proof.
  induction value as [| | | | |l IH|o IH] using json_nested_ind; intros path cur key Hc.
  7:{ destruct (merge_loop_total (merge_value (full_key path key)) o (child_of key cur)) as (c & n & Hl & _).
      - apply child_of_object.
      - intros k v Hin cur' Hcur'. rewrite Forall_forall in IH. apply (IH (k, v)); done.
      - destruct cur; try done. cbn [merge_value]. unfold child_of in Hl. rewrite Hl. bind_simpl. eauto. }
  all: rewrite merge_value_leaf by done; destruct (contains key cur); [eauto|];
    match goal with |- context [set_key ?k ?v ?c] => destruct (set_key_object k v c Hc) as (c' & -> & ?) end;
    bind_simpl; eauto.
Qed.

Lemma merge_items_total path items cur :
  is_object cur = true → ∃ c n, merge_items path cur items = Ok (c, n) ∧ is_object c = true.
Proof. intros Hc. apply merge_loop_total; [done|]. intros. by apply merge_value_total. Qed.

(** ** Lemmas on the disk *)

Lemma app_ne_self (a b : bytes) : b ≠ [] → a ++ b ≠ a.
Proof. intros Hb H. apply (f_equal length) in H. rewrite length_app in H. destruct b; [done|simpl in H; lia]. Qed.

Section disk_lemmas.
  Context {L : Type} (dump : json → outcome bytes) (fn : bytes).
  Implicit Types cfg : config_manager L.

Lemma temp_ne : tempFilename fn ≠ fn.
Proof. by apply app_ne_self. Qed.

Lemma backup_ne t : backup_name fn t ≠ fn.
Proof. apply app_ne_self. by destruct (dec t). Qed.

Lemma try_rename_states (answers : list bool) (n : nat) (text : bytes) (d d' : disk) :
  d' ∈ try_rename fn answers n text d → d' = d ∨ d' = <[fn := text]> (delete (tempFilename fn) d).
Proof.
  revert answers. induction n as [|n IH]; intros answers; simpl; [by intros ?%not_elem_of_nil|].
  destruct answers as [|[] answers].
  - intros [->|H]%elem_of_cons; [by left|]. by apply (IH []).
  - intros ->%list_elem_of_singleton. by right.
  - intros [->|H]%elem_of_cons; [by left|]. by apply (IH answers).
Qed.

(** Every state of a save keeps the file as it was or complete, and leaves
    the files other than it and its temporary alone. *)
Lemma save_states (env : save_env) cfg (d d' : disk) :
  d' ∈ (save_to_disk dump fn env cfg d).1 →
  (d' !! fn = d !! fn ∨ ∃ text, dump (_data cfg) = Ok text ∧ _save_disabled cfg = false ∧ d' !! fn = Some text) ∧
  ∀ f, f ≠ fn → f ≠ tempFilename fn → d' !! f = d !! f.
Proof.
  pose proof temp_ne as Hne.
  assert (∀ t : bytes, (<[tempFilename fn := t]> d) !! fn = d !! fn) as Ht by (intros; by rewrite lookup_insert_ne).
  assert (∀ (t : bytes) f, f ≠ tempFilename fn → (<[tempFilename fn := t]> d) !! f = d !! f) as Hf
    by (intros; by rewrite lookup_insert_ne).
  unfold save_to_disk. destruct (_save_disabled cfg) eqn:Es; [intros ->%list_elem_of_singleton; auto|].
  destruct (open_ok env); cbn [negb]; [|intros ->%list_elem_of_singleton; auto].
  destruct (dump (_data cfg)) as [text|e| |] eqn:Ed; cbn [fst].
  2,3,4: intros Hin; repeat (apply elem_of_cons in Hin as [->|Hin]; [auto|]); by apply not_elem_of_nil in Hin.
  destruct (write_ok env); cbn [negb fst].
  - intros [Hin|Hin]%elem_of_app.
    + repeat (apply elem_of_cons in Hin as [->|Hin]; [auto|]). by apply not_elem_of_nil in Hin.
    + apply try_rename_states in Hin as [->| ->]; [auto|]. split.
      * right. exists text. by rewrite lookup_insert_eq.
      * intros f H1 H2. rewrite lookup_insert_ne by done. rewrite lookup_delete_ne by done. auto.
  - intros Hin. repeat (apply elem_of_cons in Hin as [->|Hin]; [auto|]); [|by apply not_elem_of_nil in Hin].
    split; [left; by rewrite lookup_delete_ne|intros; by rewrite lookup_delete_ne].
Qed.
End disk_lemmas.

(** ** The locks of the store

    The order in which the operations take [_mutex] (recursive) and
    [_save_mutex]. *)
Inductive mutex := data_mutex | save_mutex.
#[export] Instance mutex_eq_dec : EqDecision mutex.
Proof. solve_decision. Defined.

Inductive lock_action := Acquire (m : mutex) | Release (m : mutex).

Definition save_to_disk_locks : list lock_action :=
  [Acquire save_mutex; Acquire data_mutex; Release data_mutex; Release save_mutex].

(** [set] with a change to propagate. *)
Definition set_locks : list lock_action :=
  [Acquire data_mutex] ++ save_to_disk_locks ++ [Release data_mutex].

(** Each thread has its actions left and the locks it holds. *)
Definition thread : Type := list lock_action * list mutex.

Fixpoint remove_one (m : mutex) (l : list mutex) : list mutex :=
  match l with [] => [] | x :: l => if decide (x = m) then l else x :: remove_one m l end.

Definition can_acquire (ts : list thread) (i : nat) (m : mutex) : Prop :=
  ∀ j t, ts !! j = Some t → j ≠ i → m ∉ t.2.

Inductive lock_step : list thread → list thread → Prop :=
  | step_acquire ts i m acts held :
      ts !! i = Some (Acquire m :: acts, held) → can_acquire ts i m →
      lock_step ts (<[i := (acts, m :: held)]> ts)
  | step_release ts i m acts held :
      ts !! i = Some (Release m :: acts, held) →
      lock_step ts (<[i := (acts, remove_one m held)]> ts).

(** ** Properties *)

Section properties.
  Context {L : Type} `{!EqDecision L}.
  Variable json_eq : json → json → bool.
  Variable parse_json : bytes → option json.
  Variable dump : json → outcome bytes.
  Variable fn : bytes.

(** Reading back a setting.  After [set] the path holds the value, or
    still holds the old one when JSON equality calls them equal (null for a
    missing value); every path that parts from it reads as before; and each
    listener is told once, in order, when the value changed and propagation
    is on, and not at all otherwise. *)
Theorem config_get_set env (cfg cfg' : config_manager L) segs last v skip d calls states :
  set json_eq dump fn env cfg segs last v skip d = Ok (cfg', calls, states) →
  let p := segs ++ [last] in
  let old := get cfg p JNull in
  get cfg' p JNull = (if json_eq old v then old else v) ∧
  (∀ q def, diverge p q → get cfg' q def = get cfg q def) ∧
  calls = (if json_eq old v || skip then [] else (λ l, (l, (join_segments p, old, v))) <$> _listeners cfg).
Proof.
  intros H p old. unfold set in H. inv_ok. destruct x as [[j o] changed].
  apply set_path_spec in Hx as (-> & -> & Hg & Hd). fold p in Hg, Hd, H. change (default JNull (get_path (_data cfg) p)) with old in *.
  assert (cfg' = with_data cfg j ∧
    calls = if json_eq old v || skip then [] else (λ l, (l, (join_segments p, old, v))) <$> _listeners cfg) as [-> ->].
  { destruct (json_eq old v), skip; cbn [negb andb orb] in *; try (apply Ok_inj in H; by injection H as <- <- <-).
    destruct (save_to_disk _ _ _ _ _) as [st r]. inv_ok. by injection H as <- <- <-. }
  split_and!; [|..|done].
  - unfold get at 1. cbn [_data with_data]. rewrite Hg. by destruct (json_eq old v).
  - intros q def Hq. unfold get. cbn [_data with_data]. by rewrite Hd.
Qed.

(** Merging the defaults.  On a settings object the merge never throws.
    Afterwards every default is there: where it is an object the path leads
    to an object, where it is a plain value the path leads to the user's
    value if there was one and to the default otherwise; and a path that the
    defaults do not have reads as before. *)
Theorem merge_default_config_spec (cfg : config_manager L) :
  is_object (_data cfg) = true → json_wf (JObj (_defaults cfg)) →
  ∃ cfg' calls, merge_default_config cfg = Ok (cfg', calls) ∧
    ∀ q, q ≠ [] →
      merge_result (get_path (JObj (_defaults cfg)) q) (get_path (_data cfg) q) (get_path (_data cfg') q).
Proof.
  intros Ho Hwf. unfold merge_default_config.
  destruct (merge_items_total [] (_defaults cfg) (_data cfg) Ho) as (j & notes & Hm & _). rewrite Hm. bind_simpl.
  eexists _, _. split; [done|]. intros q Hq. cbn [_data with_data]. by eapply merge_path.
Qed.

(** C21: saving is atomic.  In every state the disk goes through while
    [save_to_disk] runs, whatever the operating system answers, the settings
    file holds what it held before or the complete new text, and files other
    than it and its temporary file are untouched; and when nothing fails the
    new text is in place at the end and the temporary file is gone. *)
Theorem save_to_disk_atomic (env : save_env) (cfg : config_manager L) (d d' : disk) :
  d' ∈ (save_to_disk dump fn env cfg d).1 →
  (d' !! fn = d !! fn ∨ ∃ text, dump (_data cfg) = Ok text ∧ d' !! fn = Some text) ∧
  (∀ f, f ≠ fn → f ≠ tempFilename fn → d' !! f = d !! f) ∧
  (∀ text, dump (_data cfg) = Ok text → _save_disabled cfg = false → open_ok env = true → write_ok env = true →
     head (rename_ok env) = Some true →
     ∃ d'', last (save_to_disk dump fn env cfg d).1 = Some d'' ∧ d'' !! fn = Some text ∧ d'' !! tempFilename fn = None).
Proof.
  clear parse_json. intros Hin. apply save_states in Hin as [H1 H2].
  split_and!; [destruct H1 as [?|(t & ? & _ & ?)]; eauto|done|].
  intros text Hd Hs Ho Hw Hr. pose proof (temp_ne fn) as Hne. unfold save_to_disk. rewrite Hs, Ho, Hd, Hw. cbn [negb fst].
  destruct (rename_ok env) as [|[] rs]; try done. cbn [try_rename]. rewrite last_app. cbn [last].
  eexists. split; [done|]. rewrite lookup_insert_eq, lookup_insert_ne by done. by rewrite lookup_delete_eq.
Qed.

Lemma load_inv (env : load_env) (cfg cfg' : config_manager L) (d : disk) calls states :
  load_from_disk parse_json dump fn env cfg d = Ok (cfg', calls, states) →
  let '(j, dis, d1) := read_config parse_json fn env (_save_disabled cfg) d in
  ∃ notes, merge_items [] j (_defaults cfg) = Ok (_data cfg', notes) ∧
    states = (save_to_disk dump fn (save_answers env) cfg' d1).1 ∧ _save_disabled cfg' = dis.
Proof.
  unfold load_from_disk. destruct (read_config _ _ _ _ _) as [[j dis] d1]. intros H.
  apply bind_Ok in H as ([c cs] & Hm & H). unfold merge_default_config in Hm.
  apply bind_Ok in Hm as ([m notes] & Hm & Hx). apply Ok_inj in Hx. injection Hx as <- <-.
  destruct (save_to_disk _ _ _ _ _) as [st r] eqn:Es. apply bind_Ok in H as ([] & _ & H). apply Ok_inj in H.
  injection H as <- <- <-. exists notes. by rewrite Es.
Qed.

(** Loading loses no settings.  If the settings file exists and can be
    read, then in every state of the disk while [load_from_disk] runs it is
    unchanged, or was parsed and holds the parsed settings with the defaults
    merged in, or was not parseable and its text is in the backup (unless the
    copy failed).  If it exists but cannot be opened it is left alone and
    saving is off for the session. *)
Theorem load_loses_nothing (env : load_env) (cfg cfg' : config_manager L) (d d' : disk) text calls states :
  load_from_disk parse_json dump fn env cfg d = Ok (cfg', calls, states) →
  d !! fn = Some text → d' ∈ states →
  d' !! fn = Some text ∧ (read_ok env = false → _save_disabled cfg' = true) ∨
  read_ok env = true ∧
    match parse_json text with
    | Some j => ∃ notes, merge_items [] j (_defaults cfg) = Ok (_data cfg', notes) ∧
        ∃ t, dump (_data cfg') = Ok t ∧ d' !! fn = Some t
    | None => copy_ok env = true → d' !! backup_name fn (unix_time env) = Some text
    end.
Proof.
  intros H Hfile Hin. pose proof (temp_ne fn) as Hne. apply load_inv in H. unfold read_config in H.
  rewrite lookup_delete_ne, Hfile in H by done. destruct (read_ok env) eqn:Er; cbn [negb] in H.
  - destruct (parse_json text) as [j|] eqn:Ep; destruct H as (notes & Hm & -> & Hs); apply save_states in Hin as [Hf Ho].
    + destruct Hf as [->|(t & Ht & _ & ->)]; [left; by rewrite lookup_delete_ne|]. right. split; [done|]. eauto.
    + right. split; [done|]. intros Hc. rewrite Hc in *. rewrite Ho; [by rewrite lookup_insert_eq|apply backup_ne|].
      unfold backup_name, tempFilename. intros E%app_inv_head. done.
  - destruct H as (notes & Hm & -> & Hs). left. split; [|done]. unfold save_to_disk in Hin. rewrite Hs in Hin.
    apply list_elem_of_singleton in Hin as ->. by rewrite lookup_delete_ne.
Qed.

(** A settings file that is valid JSON but not an object (and not null)
    is not reset: the merge of the defaults throws out of [load_from_disk],
    which the constructor does not catch. *)
Theorem load_throws_on_non_object (env : load_env) (cfg : config_manager L) (d : disk) text j k v defaults :
  d !! fn = Some text → read_ok env = true → parse_json text = Some j →
  is_object j = false → j ≠ JNull → _defaults cfg = (k, v) :: defaults →
  load_from_disk parse_json dump fn env cfg d = Throw json_error.
Proof.
  intros Hf Hr Hp Ho Hn Hd. pose proof (temp_ne fn) as Hne. unfold load_from_disk, read_config.
  rewrite lookup_delete_ne, Hf, Hr, Hp by done. cbn [negb]. unfold merge_default_config. cbn [_data _defaults]. rewrite Hd.
  unfold merge_items. cbn [merge_loop].
  assert (merge_value [] j k v = Throw json_error) as ->; [|done].
  destruct v as [| | | | | |o]; destruct j; done.
Qed.

(** [unregister_listener] cannot tell listeners of one type apart: it
    removes every listener whose target has the type of its argument, the
    others stay. *)
Theorem unregister_removes_all_of_type (cfg : config_manager L) ty a b :
  let cfg' := unregister_listener (ty, a) (register_listener (ty, b) (register_listener (ty, a) cfg)) in
  (∀ n, (ty, n) ∉ _listeners cfg') ∧
  ∀ ty' n, ty' ≠ ty → (ty', n) ∈ _listeners cfg → (ty', n) ∈ _listeners cfg'.
Proof.
  cbn. split.
  - intros n [_ Hn]%list_elem_of_In%filter_In. cbn in Hn. by rewrite bool_decide_eq_true_2 in Hn.
  - intros ty' n Hne Hin. apply list_elem_of_In, filter_In. split.
    + apply list_elem_of_In. rewrite !elem_of_app. auto.
    + cbn. by rewrite bool_decide_eq_false_2.
Qed.
End properties.

(** [set] and a direct [save_to_disk] can deadlock: [set] holds [_mutex]
    when it saves and waits for [_save_mutex], the other thread holds
    [_save_mutex] and waits for [_mutex]. *)
Theorem set_and_save_deadlock :
  ∃ ts, rtc lock_step [(set_locks, []); (save_to_disk_locks, [])] ts ∧
    (∀ ts', ¬ lock_step ts ts') ∧ Forall (λ t, t.1 ≠ []) ts.
Proof.
  exists [(tail set_locks, [data_mutex]); (tail save_to_disk_locks, [save_mutex])]. split_and!.
  - eapply rtc_l.
    { eapply (step_acquire _ 0 data_mutex _ []); [done|]. intros [|[|j]] t Ht Hj; [done| |done]. injection Ht as <-. apply not_elem_of_nil. }
    eapply rtc_l; [|apply rtc_refl].
    apply (step_acquire [(tail set_locks, [data_mutex]); (save_to_disk_locks, [])] 1 save_mutex (tail save_to_disk_locks) []); [done|]. intros [|[|j]] t Ht Hj; [|done|done]. injection Ht as <-.
    cbn. by intros ?%list_elem_of_singleton.
  - intros ts' Hs. inversion Hs as [? i m acts held Hi Hc|? i m acts held Hi]; subst; destruct i as [|[|i]]; try done;
      injection Hi as <- <- <-.
    + apply (Hc 1%nat _ eq_refl); [done|]. left.
    + apply (Hc 0%nat _ eq_refl); [done|]. left.
  - repeat constructor; done.
Qed.

(** ** The hypotheses can hold *)

(** A JSON library for one-key objects, enough to run the operations. *)
Definition demo_eq (a b : json) : bool := bool_decide (a = b).
Definition demo_dump (j : json) : outcome bytes := Ok (if is_object j then #"{}" else #"?").
Definition demo_parse (s : bytes) : option json :=
  if bytes_eqb s #"{}" then Some (JObj []) else if bytes_eqb s #"[]" then Some (JArr []) else None.
Definition demo_save : save_env := SaveEnv true 1 true [true].
Definition demo_load : load_env := LoadEnv true true 7 demo_save.
Definition demo_cfg : config_manager nat :=
  Config (JObj [(#"a", JInt 1)]) [(#"a", JInt 5); (#"b", JObj [(#"c", JInt 2)])] [(3%nat, 4%N)] false.

Lemma config_get_set_witness :
  let cfg' := with_data demo_cfg (JObj [(#"a", JInt 1); (#"b", JObj [(#"c", JBool true)])]) in
  get cfg' ([ #"b"] ++ [ #"c"]) JNull = JBool true ∧ get cfg' [ #"a"] JNull = JInt 1.
Proof.
  assert (set demo_eq demo_dump #"f" demo_save demo_cfg [ #"b"] #"c" (JBool true) true ∅ =
    Ok (with_data demo_cfg (JObj [(#"a", JInt 1); (#"b", JObj [(#"c", JBool true)])]), [], [∅])) as H by (vm_compute; reflexivity).
  destruct (config_get_set demo_eq demo_dump #"f" _ _ _ _ _ _ _ _ _ _ H) as (H1 & H2 & _).
  split; [rewrite H1; vm_compute; reflexivity|].
  rewrite H2; [vm_compute; reflexivity|]. left. discriminate.
Defined.

Lemma merge_default_config_spec_witness :
  ∃ cfg' calls, merge_default_config demo_cfg = Ok (cfg', calls) ∧
    get_path (_data cfg') [ #"a"] = Some (JInt 1) ∧ get_path (_data cfg') [ #"b"; #"c"] = Some (JInt 2).
Proof.
  assert (json_wf (JObj (_defaults demo_cfg))) as Hwf.
  { cbn [json_wf _defaults demo_cfg]. repeat split; cbn; apply NoDup_ListNoDup; repeat constructor; cbn; intros H;
      decompose [or] H; discriminate || done. }
  destruct (merge_default_config_spec demo_cfg eq_refl Hwf) as (cfg' & calls & H & Hq).
  exists cfg', calls. split; [exact H|]. split; [exact (Hq [ #"a"] ltac:(discriminate))|exact (Hq [ #"b"; #"c"] ltac:(discriminate))].
Defined.

Lemma save_to_disk_atomic_witness :
  let d : disk := {[ #"f" := #"old" ]} in
  ∃ d'', last (save_to_disk demo_dump #"f" demo_save demo_cfg d).1 = Some d'' ∧ d'' !! #"f" = Some #"{}".
Proof.
  intros d. assert (d ∈ (save_to_disk demo_dump #"f" demo_save demo_cfg d).1) as Hin by (cbn; left).
  destruct (save_to_disk_atomic demo_dump #"f" demo_save demo_cfg d d Hin) as (_ & _ & H).
  destruct (H #"{}" eq_refl eq_refl eq_refl eq_refl eq_refl) as (d'' & H1 & H2 & _).
  exists d''. split; [exact H1|exact H2].
Defined.

Lemma load_loses_nothing_witness :
  ∃ cfg' calls states (d' : disk),
    load_from_disk demo_parse demo_dump #"f" demo_load demo_cfg {[ #"f" := #"junk" ]} = Ok (cfg', calls, states) ∧
    last states = Some d' ∧ (d' !! #"f" = Some #"junk" ∨ d' !! #"f.corrupted.7" = Some #"junk").
Proof.
  assert (match load_from_disk demo_parse demo_dump #"f" demo_load demo_cfg {[ #"f" := #"junk" ]} with
          | Ok (_, _, states) => 0 <? len states | _ => false end = true) as Hok by (vm_compute; reflexivity).
  destruct (load_from_disk demo_parse demo_dump #"f" demo_load demo_cfg {[ #"f" := #"junk" ]})
    as [[[cfg' calls] states]| | |] eqn:H; [|discriminate Hok..].
  destruct (last states) as [d'|] eqn:Hl; [|apply last_None in Hl; subst; discriminate Hok].
  exists cfg', calls, states, d'. split; [done|]. split; [done|].
  assert (d' ∈ states) as Hin by (apply last_Some in Hl as [l ->]; apply elem_of_app; right; left).
  destruct (load_loses_nothing demo_parse demo_dump #"f" _ _ _ _ _ #"junk" _ _ H ltac:(by rewrite lookup_singleton_eq) Hin)
    as [[Hd _]|[_ Hp]]; [by left|].
  right. exact (Hp eq_refl).
Defined.

Lemma load_throws_on_non_object_witness :
  load_from_disk demo_parse demo_dump #"f" demo_load demo_cfg {[ #"f" := #"[]" ]} = Throw json_error.
Proof.
  exact (load_throws_on_non_object demo_parse demo_dump #"f" demo_load demo_cfg {[ #"f" := #"[]" ]} #"[]" (JArr [])
    #"a" (JInt 5) [(#"b", JObj [(#"c", JInt 2)])] ltac:(by rewrite lookup_singleton_eq) eq_refl eq_refl eq_refl
    ltac:(discriminate) eq_refl).
Defined.
