(* ===== verification/Base64.v ===== *)
(** * Base64: the text encodings of [src/src/include/millennium/encoding.h]

    Both [Base64Encode] functions, [Base64Decode] and the formatting of
    [GenerateUUID].  The accumulators are 32-bit [int]s whose left shifts
    drop bits (C++20), so long inputs wrap; the proofs show that the bits
    read are never among the dropped ones. *)

From S2P Require Import Prelude.

(** ** The code *)

Definition base64_chars : bytes :=
  #"ABCDEFGHIJKLMNOPQRSTUVWXYZabcdefghijklmnopqrstuvwxyz0123456789+/".

(** [base64_chars[i]]; the default is not one of its characters. *)
Definition b64_char (i : Z) : byte := nth (Z.to_nat i) base64_chars "="%byte.

(** [T[c]]: the position of a character, [None] for the entry [-1]. *)
Definition b64_index (c : byte) : option Z := Z.of_nat <$> find_char c base64_chars.

(** The loop of [Base64Decode]. *)
Fixpoint decode_loop (val valb : Z) (s out : bytes) : bytes :=
  match s with
  | [] => out
  | c :: s =>
      match b64_index c with
      | None => out
      | Some t =>
          let val := i32 (i32 (Z.shiftl val 6) + t) in
          let valb := valb + 6 in
          if 0 <=? valb then
            decode_loop val (valb - 8) s (out ++ [z2b (Z.land (Z.shiftr val valb) 255)])
          else decode_loop val valb s out
      end
  end.

Definition Base64Decode (s : bytes) : bytes := decode_loop 0 (-8) s [].

(** [while (valb >= 0)]: at most two turns, since [valb < 8]. *)
Fixpoint emit_sextets (fuel : nat) (val valb : Z) (out : bytes) : bytes * Z :=
  match fuel with
  | O => (out, valb)
  | S fuel =>
      if 0 <=? valb then emit_sextets fuel val (valb - 6) (out ++ [b64_char (Z.land (Z.shiftr val valb) 63)])
      else (out, valb)
  end.

Fixpoint encode_loop (val valb : Z) (s out : bytes) : Z * Z * bytes :=
  match s with
  | [] => (val, valb, out)
  | c :: s =>
      let val := i32 (i32 (Z.shiftl val 8) + b2z c) in
      let '(out, valb) := emit_sextets 2 val (valb + 8) out in
      encode_loop val valb s out
  end.

(** [while (out.size() % 4) out.push_back('=')]. *)
Definition pad (out : bytes) : bytes :=
  out ++ repeat "="%byte (Nat.modulo (4 - Nat.modulo (length out) 4) 4).

Definition Base64Encode (s : bytes) : bytes :=
  let '(val, valb, out) := encode_loop 0 (-6) s [] in
  pad (if -6 <? valb
       then out ++ [b64_char (Z.land (Z.shiftr (i32 (Z.shiftl val 8)) (valb + 8)) 63)]
       else out).

(** The four values computed from [char_array_3]. *)
Definition char_array_4 (a b c : Z) : list Z :=
  [Z.shiftr (Z.land a 252) 2;
   Z.shiftl (Z.land a 3) 4 + Z.shiftr (Z.land b 240) 4;
   Z.shiftl (Z.land b 15) 2 + Z.shiftr (Z.land c 192) 6;
   Z.land c 63].

(** [Base64Encode(const std::vector<char>&)]: full groups of three, then the
    rest with padding. *)
Fixpoint Base64Encode_vec (data : bytes) : bytes :=
  match data with
  | a :: b :: c :: data => (b64_char <$> char_array_4 (b2z a) (b2z b) (b2z c)) ++ Base64Encode_vec data
  | [a; b] => (b64_char <$> take 3 (char_array_4 (b2z a) (b2z b) 0)) ++ #"="
  | [a] => (b64_char <$> take 2 (char_array_4 (b2z a) 0 0)) ++ #"=="
  | [] => []
  end.

(** [std::hex << std::setfill('0') << std::setw(w)] of a 32-bit value. *)
Definition hex_digit (d : Z) : byte := nth (Z.to_nat d) #"0123456789abcdef" "?"%byte.
Fixpoint hex_digits (fuel : nat) (n : Z) : bytes :=
  match fuel with
  | O => []
  | S fuel => (if n <? 16 then [] else hex_digits fuel (n / 16)) ++ [hex_digit (n mod 16)]
  end.
Definition hexw (w : nat) (n : Z) : bytes :=
  let s := hex_digits 8 n in repeat "0"%byte (w - length s) ++ s.

(** [GenerateUUID] from the four random words. *)
Definition GenerateUUID (d0 d1 d2 d3 : Z) : bytes :=
  hexw 8 d0 ++ #"-" ++ hexw 4 (Z.land (Z.shiftr d1 16) 65535) ++ #"-" ++
  hexw 4 (Z.lor (Z.land (Z.shiftr d1 0) 4095) 16384) ++ #"-" ++
  hexw 4 (Z.lor (Z.land (Z.shiftr d2 16) 16383) 32768) ++ #"-" ++
  hexw 4 (Z.land d2 65535) ++ hexw 8 d3.

Example encode_man : Base64Encode #"Man" = #"TWFu".
Proof. vm_compute. reflexivity. Qed.
Example encode_pad : Base64Encode #"light w" = #"bGlnaHQgdw==".
Proof. vm_compute. reflexivity. Qed.
Example decode_stops : Base64Decode #"TWFu$TWFu" = #"Man".
Proof. vm_compute. reflexivity. Qed.

(** ** The reference encoding *)

Definition sextets3 (a b c : Z) : list Z :=
  [a / 4; a mod 4 * 16 + b / 16; b mod 16 * 4 + c / 64; c mod 64].

Fixpoint b64_ref (s : bytes) : bytes :=
  match s with
  | a :: b :: c :: s => (b64_char <$> sextets3 (b2z a) (b2z b) (b2z c)) ++ b64_ref s
  | [a; b] => (b64_char <$> take 3 (sextets3 (b2z a) (b2z b) 0)) ++ #"="
  | [a] => (b64_char <$> take 2 (sextets3 (b2z a) 0 0)) ++ #"=="
  | [] => []
  end.

(** Induction by groups of three. *)
Lemma triples_ind (P : bytes → Prop) :
  P [] → (∀ a, P [a]) → (∀ a b, P [a; b]) → (∀ a b c s, P s → P (a :: b :: c :: s)) → ∀ s, P s.
Proof.
  intros H0 H1 H2 H3. assert (∀ n s, (length s <= n)%nat → P s) as H by
    (induction n as [|n IH]; intros [|a [|b [|c s]]] Hl; simpl in Hl; try lia; auto; apply H3, IH; simpl; lia).
  intros s. by apply (H (length s)).
Qed.

Lemma byte_masks a :
  Z.shiftr (Z.land (b2z a) 252) 2 = b2z a / 4 ∧ Z.shiftl (Z.land (b2z a) 3) 4 = b2z a mod 4 * 16 ∧
  Z.shiftr (Z.land (b2z a) 240) 4 = b2z a / 16 ∧ Z.shiftl (Z.land (b2z a) 15) 2 = b2z a mod 16 * 4 ∧
  Z.shiftr (Z.land (b2z a) 192) 6 = b2z a / 64 ∧ Z.land (b2z a) 63 = b2z a mod 64.
Proof. destruct a; vm_compute; repeat split. Qed.

Lemma encode_vec_ref s : Base64Encode_vec s = b64_ref s.
Proof.
  induction s as [|a|a b|a b c s IH] using triples_ind; [done|..]; cbn [Base64Encode_vec b64_ref]; unfold char_array_4, sextets3;
    pose proof (byte_masks a) as (-> & -> & _); [done|pose proof (byte_masks b) as (_ & _ & -> & -> & _); done|].
  rewrite IH. pose proof (byte_masks b) as (_ & _ & -> & -> & _). by pose proof (byte_masks c) as (_ & _ & _ & _ & -> & ->).
Qed.

(** ** Wrapping accumulators *)

(** [x] is [y] up to the bits a 32-bit accumulator drops. *)
Definition same32 (x y : Z) : Prop := ∃ m, x = y + m * 2 ^ 32.

Lemma same32_refl x : same32 x x.
Proof. exists 0. lia. Qed.

Lemma same32_i32 x : same32 (i32 x) x.
Proof. unfold i32. exists (- ((x + 2 ^ 31) / 2 ^ 32)). pose proof (Z.div_mod (x + 2 ^ 31) (2 ^ 32) ltac:(lia)). lia. Qed.

Lemma same32_shift val V k t : 0 <= k → same32 val V → same32 (i32 (i32 (Z.shiftl val k) + t)) (V * 2 ^ k + t).
Proof.
  intros Hk [m ->]. rewrite Z.shiftl_mul_pow2 by done.
  destruct (same32_i32 ((V + m * 2 ^ 32) * 2 ^ k)) as [m1 E1]. rewrite E1.
  destruct (same32_i32 ((V + m * 2 ^ 32) * 2 ^ k + m1 * 2 ^ 32 + t)) as [m2 ->].
  exists (m * 2 ^ k + m1 + m2). lia.
Qed.

Lemma read_bits val V k n :
  0 <= k → 0 <= n → k + n <= 32 → same32 val V → Z.land (Z.shiftr val k) (Z.ones n) = V / 2 ^ k mod 2 ^ n.
Proof.
  intros Hk Hn Hkn [m ->]. rewrite Z.land_ones, Z.shiftr_div_pow2 by done.
  replace (m * 2 ^ 32) with (m * 2 ^ (32 - k - n) * 2 ^ n * 2 ^ k)
    by (rewrite <- !Z.mul_assoc, <- !Z.pow_add_r by lia; do 2 f_equal; lia).
  rewrite Z.div_add by lia. apply Z_mod_plus_full.
Qed.

Lemma read_sextet val V k : 0 <= k <= 26 → same32 val V → Z.land (Z.shiftr val k) 63 = V / 2 ^ k mod 64.
Proof. intros. change 63 with (Z.ones 6). rewrite (read_bits val V) by (done || lia). done. Qed.

Lemma read_byte val V k : 0 <= k <= 24 → same32 val V → Z.land (Z.shiftr val k) 255 = V / 2 ^ k mod 256.
Proof. intros. change 255 with (Z.ones 8). rewrite (read_bits val V) by (done || lia). done. Qed.

Ltac euclid := Z.to_euclidean_division_equations; lia.

(** One byte in each of the three phases of the encoder. *)
Lemma encode_loop_cons val valb c s out :
  encode_loop val valb (c :: s) out =
    let val := i32 (i32 (Z.shiftl val 8) + b2z c) in
    let '(out, valb) := emit_sextets 2 val (valb + 8) out in encode_loop val valb s out.
Proof. done. Qed.

Lemma emit2 val out : emit_sextets 2 val 2 out = (out ++ [b64_char (Z.land (Z.shiftr val 2) 63)], -4).
Proof. done. Qed.
Lemma emit4 val out : emit_sextets 2 val 4 out = (out ++ [b64_char (Z.land (Z.shiftr val 4) 63)], -2).
Proof. done. Qed.
Lemma emit6 val out : emit_sextets 2 val 6 out =
  ((out ++ [b64_char (Z.land (Z.shiftr val 6) 63)]) ++ [b64_char (Z.land (Z.shiftr val 0) 63)], -6).
Proof. done. Qed.

Lemma encode_phase1 val V c s out :
  same32 val V →
  ∃ val', same32 val' (V * 256 + b2z c) ∧
    encode_loop val (-6) (c :: s) out = encode_loop val' (-4) s (out ++ [b64_char (b2z c / 4)]).
Proof.
  intros Hv. pose proof (same32_shift val V 8 (b2z c) ltac:(lia) Hv) as Hv'. eexists. split; [exact Hv'|].
  rewrite encode_loop_cons. cbv zeta. change (-6 + 8) with 2. rewrite emit2, (read_sextet _ _ 2 ltac:(lia) Hv').
  do 4 f_equal. pose proof (b2z_range c). change (2 ^ 8) with 256. change (2 ^ 2) with 4. euclid.
Qed.

Lemma encode_phase2 val V a b s out :
  same32 val (V * 256 + b2z a) →
  ∃ val', same32 val' ((V * 256 + b2z a) * 256 + b2z b) ∧
    encode_loop val (-4) (b :: s) out = encode_loop val' (-2) s (out ++ [b64_char (b2z a mod 4 * 16 + b2z b / 16)]).
Proof.
  intros Hv. pose proof (same32_shift _ _ 8 (b2z b) ltac:(lia) Hv) as Hv'. eexists. split; [exact Hv'|].
  rewrite encode_loop_cons. cbv zeta. change (-4 + 8) with 4. rewrite emit4, (read_sextet _ _ 4 ltac:(lia) Hv').
  do 4 f_equal. pose proof (b2z_range a). pose proof (b2z_range b). change (2 ^ 8) with 256. change (2 ^ 4) with 16. euclid.
Qed.

Lemma encode_phase3 val V a b c s out :
  same32 val ((V * 256 + b2z a) * 256 + b2z b) →
  ∃ val', encode_loop val (-2) (c :: s) out =
    encode_loop val' (-6) s (out ++ [b64_char (b2z b mod 16 * 4 + b2z c / 64); b64_char (b2z c mod 64)]).
Proof.
  intros Hv. pose proof (same32_shift _ _ 8 (b2z c) ltac:(lia) Hv) as Hv'. eexists.
  rewrite encode_loop_cons. cbv zeta. change (-2 + 8) with 6. rewrite emit6.
  rewrite (read_sextet _ _ 6 ltac:(lia) Hv'), (read_sextet _ _ 0 ltac:(lia) Hv'), <- app_assoc. cbn [app].
  pose proof (b2z_range b). pose proof (b2z_range c). change (2 ^ 8) with 256. change (2 ^ 6) with 64. change (2 ^ 0) with 1.
  generalize (V * 256 + b2z a). intros X.
  assert (((X * 256 + b2z b) * 256 + b2z c) / 64 mod 64 = b2z b mod 16 * 4 + b2z c / 64) as -> by euclid.
  assert (((X * 256 + b2z b) * 256 + b2z c) / 1 mod 64 = b2z c mod 64) as -> by euclid. done.
Qed.

(** The bits left over at the end. *)
Lemma encode_rest val V k : 0 <= k <= 2 → same32 val V →
  Z.land (Z.shiftr (i32 (Z.shiftl val 8)) (2 * k + 2)) 63 = V * 256 / 2 ^ (2 * k + 2) mod 64.
Proof.
  intros Hk Hv. apply read_sextet; [lia|]. pose proof (same32_shift val V 8 0 ltac:(lia) Hv) as H.
  rewrite !Z.add_0_r in H. destruct H as [m H]. destruct (same32_i32 (i32 (Z.shiftl val 8))) as [m' H'].
  exists (m - m'). change (2 ^ 8) with 256 in H. lia.
Qed.

Definition encode_from (val : Z) (s out : bytes) : bytes :=
  let '(val, valb, out) := encode_loop val (-6) s out in
  pad (if -6 <? valb
       then out ++ [b64_char (Z.land (Z.shiftr (i32 (Z.shiftl val 8)) (valb + 8)) 63)]
       else out).

Lemma pad_whole out : (length out mod 4 = 0)%nat → pad out = out.
Proof. intros H. unfold pad. rewrite H. simpl. by rewrite app_nil_r. Qed.

Lemma pad_app out n : (length out mod 4 = 0)%nat → ∀ l, length l = n → (0 < n < 4)%nat →
  pad (out ++ l) = out ++ l ++ repeat "="%byte (4 - n).
Proof.
  intros H l Hl Hn. unfold pad. rewrite length_app, Hl, <- app_assoc. do 2 f_equal.
  rewrite <- Nat.Div0.add_mod_idemp_l, H. simpl Nat.add. destruct n as [|[|[|[|]]]]; try lia; done.
Qed.

Lemma encode_from_ref s : ∀ val out, (length out mod 4 = 0)%nat → encode_from val s out = out ++ b64_ref s.
Proof.
  induction s as [|a|a b|a b c s IH] using triples_ind; intros val out Hlen; unfold encode_from.
  - cbn [encode_loop]. change (-6 <? -6) with false. cbn iota. by rewrite pad_whole, app_nil_r.
  - destruct (encode_phase1 val val a [] out (same32_refl _)) as (v1 & H1 & ->). cbn [encode_loop].
    change (-6 <? -4) with true. cbn iota. change (-4 + 8) with (2 * 1 + 2).
    rewrite (encode_rest _ _ 1 ltac:(lia) H1), <- app_assoc, (pad_app _ 2) by (done || lia). cbn [b64_ref sextets3 take fmap list_fmap app].
    pose proof (b2z_range a). change (2 ^ (2 * 1 + 2)) with 16.
    assert ((val * 256 + b2z a) * 256 / 16 mod 64 = b2z a mod 4 * 16 + 0 / 16) as -> by euclid. done.
  - destruct (encode_phase1 val val a [b] out (same32_refl _)) as (v1 & H1 & ->).
    destruct (encode_phase2 v1 val a b [] (out ++ [b64_char (b2z a / 4)]) H1) as (v2 & H2 & ->). cbn [encode_loop].
    change (-6 <? -2) with true. cbn iota. change (-2 + 8) with (2 * 2 + 2).
    rewrite (encode_rest _ _ 2 ltac:(lia) H2), <- !app_assoc, (pad_app _ 3) by (done || lia). cbn [b64_ref sextets3 take fmap list_fmap app].
    pose proof (b2z_range b). change (2 ^ (2 * 2 + 2)) with 64. generalize (val * 256 + b2z a). intros X.
    assert ((X * 256 + b2z b) * 256 / 64 mod 64 = b2z b mod 16 * 4 + 0 / 64) as -> by euclid. done.
  - destruct (encode_phase1 val val a (b :: c :: s) out (same32_refl _)) as (v1 & H1 & ->).
    destruct (encode_phase2 v1 val a b (c :: s) (out ++ [b64_char (b2z a / 4)]) H1) as (v2 & H2 & ->).
    destruct (encode_phase3 v2 val a b c s ((out ++ [b64_char (b2z a / 4)]) ++ [b64_char (b2z a mod 4 * 16 + b2z b / 16)]) H2) as (v3 & ->).
    fold (encode_from v3 s (((out ++ [b64_char (b2z a / 4)]) ++ [b64_char (b2z a mod 4 * 16 + b2z b / 16)]) ++
      [b64_char (b2z b mod 16 * 4 + b2z c / 64); b64_char (b2z c mod 64)])).
    rewrite IH.
    + cbn [b64_ref sextets3 fmap list_fmap]. by rewrite <- !app_assoc.
    + rewrite !length_app. cbn [length]. rewrite <- !Nat.add_assoc. cbn [Nat.add].
      by rewrite <- Nat.Div0.add_mod_idemp_r, Nat.add_0_r.
Qed.

Lemma encode_ref s : Base64Encode s = b64_ref s.
Proof. apply (encode_from_ref s 0 []). done. Qed.

(** ** Decoding *)

Lemma b64_index_char t : 0 <= t < 64 → b64_index (b64_char t) = Some t.
Proof.
  intros Ht. assert (forallb (λ n, bool_decide (b64_index (b64_char (Z.of_nat n)) = Some (Z.of_nat n))) (seq 0 64) = true) as H
    by (vm_compute; reflexivity).
  rewrite forallb_forall in H. specialize (H (Z.to_nat t)). rewrite Z2Nat.id in H by lia.
  apply bool_decide_eq_true in H; [done|]. apply in_seq. lia.
Qed.

Lemma decode_loop_char val valb t s out : 0 <= t < 64 →
  decode_loop val valb (b64_char t :: s) out =
    let val := i32 (i32 (Z.shiftl val 6) + t) in
    if 0 <=? valb + 6 then decode_loop val (valb + 6 - 8) s (out ++ [z2b (Z.land (Z.shiftr val (valb + 6)) 255)])
    else decode_loop val (valb + 6) s out.
Proof. intros Ht. cbn [decode_loop]. by rewrite b64_index_char. Qed.

(** A character that completes a byte, read [k] bits above the lowest. *)
Lemma decode_emit val V t k s out : 0 <= t < 64 → 0 <= k <= 4 → same32 val V →
  ∃ val', same32 val' (V * 64 + t) ∧
    decode_loop val (k - 6) (b64_char t :: s) out = decode_loop val' (k - 8) s (out ++ [z2b ((V * 64 + t) / 2 ^ k mod 256)]).
Proof.
  intros Ht Hk Hv. pose proof (same32_shift val V 6 t ltac:(lia) Hv) as Hv'. eexists. split; [exact Hv'|].
  rewrite decode_loop_char by done. cbv zeta. replace (k - 6 + 6) with k by lia.
  destruct (Z.leb_spec 0 k); [|lia]. by rewrite (read_byte _ _ k ltac:(lia) Hv').
Qed.

Lemma decode_first val V t s out : 0 <= t < 64 → same32 val V →
  ∃ val', same32 val' (V * 64 + t) ∧ decode_loop val (-8) (b64_char t :: s) out = decode_loop val' (-2) s out.
Proof.
  intros Ht Hv. pose proof (same32_shift val V 6 t ltac:(lia) Hv) as Hv'. eexists. split; [exact Hv'|].
  by rewrite decode_loop_char.
Qed.

(** The two, three and four characters of a group decode to its bytes. *)
Lemma decode_two val a hi s out : 0 <= hi < 16 →
  ∃ val', same32 val' ((val * 64 + b2z a / 4) * 64 + (b2z a mod 4 * 16 + hi)) ∧
    decode_loop val (-8) (b64_char (b2z a / 4) :: b64_char (b2z a mod 4 * 16 + hi) :: s) out =
    decode_loop val' (-4) s (out ++ [a]).
Proof.
  intros Hhi. pose proof (b2z_range a) as Ha.
  destruct (decode_first val val (b2z a / 4) (b64_char (b2z a mod 4 * 16 + hi) :: s) out ltac:(euclid) (same32_refl _)) as (v1 & H1 & ->).
  destruct (decode_emit v1 _ (b2z a mod 4 * 16 + hi) 4 s out ltac:(euclid) ltac:(lia) H1) as (v2 & H2 & Hd).
  change (4 - 6) with (-2) in Hd. change (4 - 8) with (-4) in Hd. exists v2. split; [exact H2|]. rewrite Hd. do 3 f_equal.
  change (2 ^ 4) with 16. rewrite <- (z2b_b2z a) at 3. f_equal. euclid.
Qed.

Lemma decode_three val X b hi s out : 0 <= hi < 4 → same32 val (X * 16 + b2z b / 16) →
  ∃ val', same32 val' ((X * 16 + b2z b / 16) * 64 + (b2z b mod 16 * 4 + hi)) ∧
    decode_loop val (-4) (b64_char (b2z b mod 16 * 4 + hi) :: s) out = decode_loop val' (-6) s (out ++ [b]).
Proof.
  intros Hhi Hv. pose proof (b2z_range b) as Hb.
  destruct (decode_emit val _ (b2z b mod 16 * 4 + hi) 2 s out ltac:(euclid) ltac:(lia) Hv) as (v2 & H2 & Hd).
  change (2 - 6) with (-4) in Hd. change (2 - 8) with (-6) in Hd. exists v2. split; [exact H2|]. rewrite Hd. do 3 f_equal.
  change (2 ^ 2) with 4. rewrite <- (z2b_b2z b) at 3. f_equal. euclid.
Qed.

Lemma decode_four val X c s out : same32 val (X * 4 + b2z c / 64) →
  ∃ val', decode_loop val (-6) (b64_char (b2z c mod 64) :: s) out = decode_loop val' (-8) s (out ++ [c]).
Proof.
  intros Hv. pose proof (b2z_range c) as Hc.
  destruct (decode_emit val _ (b2z c mod 64) 0 s out ltac:(euclid) ltac:(lia) Hv) as (v2 & _ & Hd).
  change (0 - 6) with (-6) in Hd. change (0 - 8) with (-8) in Hd. exists v2. rewrite Hd. do 3 f_equal.
  change (2 ^ 0) with 1. rewrite <- (z2b_b2z c) at 3. f_equal. euclid.
Qed.

Lemma decode_loop_ref s : ∀ val out, decode_loop val (-8) (b64_ref s) out = out ++ s.
Proof.
  induction s as [|a|a b|a b c s IH] using triples_ind; intros val out;
    cbn [b64_ref sextets3 take fmap list_fmap app].
  - simpl. by rewrite app_nil_r.
  - destruct (decode_two val a (0 / 16) #"==" out ltac:(done)) as (v & _ & ->). done.
  - pose proof (b2z_range b). destruct (decode_two val a (b2z b / 16) (b64_char (b2z b mod 16 * 4 + 0 / 64) :: #"=") out ltac:(euclid)) as (v & H1 & ->).
    rewrite Z.add_assoc in H1. replace ((val * 64 + b2z a / 4) * 64 + b2z a mod 4 * 16) with (((val * 64 + b2z a / 4) * 4 + b2z a mod 4) * 16) in H1 by lia.
    destruct (decode_three v _ b (0 / 64) #"=" (out ++ [a]) ltac:(done) H1) as (v2 & _ & ->). cbn. by rewrite <- app_assoc.
  - pose proof (b2z_range b). pose proof (b2z_range c).
    destruct (decode_two val a (b2z b / 16) (b64_char (b2z b mod 16 * 4 + b2z c / 64) :: b64_char (b2z c mod 64) :: b64_ref s) out ltac:(euclid)) as (v & H1 & ->).
    rewrite Z.add_assoc in H1. replace ((val * 64 + b2z a / 4) * 64 + b2z a mod 4 * 16) with (((val * 64 + b2z a / 4) * 4 + b2z a mod 4) * 16) in H1 by lia.
    destruct (decode_three v _ b (b2z c / 64) (b64_char (b2z c mod 64) :: b64_ref s) (out ++ [a]) ltac:(euclid) H1) as (v2 & H2 & ->).
    revert H2. generalize (((val * 64 + b2z a / 4) * 4 + b2z a mod 4) * 16 + b2z b / 16). intros Y H2.
    rewrite Z.add_assoc in H2. replace (Y * 64 + b2z b mod 16 * 4) with ((Y * 16 + b2z b mod 16) * 4) in H2 by lia.
    destruct (decode_four v2 _ c (b64_ref s) ((out ++ [a]) ++ [b]) H2) as (v3 & ->).
    rewrite IH, <- !app_assoc. done.
Qed.

(** ** Characters and lengths *)

Lemma b64_char_in t : 0 <= t < 64 → b64_char t ∈ base64_chars.
Proof.
  intros Ht. pose proof (b64_index_char t Ht) as H. unfold b64_index in H.
  destruct (find_char (b64_char t) base64_chars) as [i|] eqn:E; [|done].
  destruct (decide (b64_char t ∈ base64_chars)) as [|Hn]; [done|]. apply find_char_None in Hn. congruence.
Qed.

Lemma sextets_in a b c :
  0 <= a < 256 → 0 <= b < 256 → 0 <= c < 256 → Forall (λ t, b64_char t ∈ base64_chars) (sextets3 a b c).
Proof. intros. unfold sextets3. repeat (apply Forall_cons; split; [apply b64_char_in; euclid|]). constructor. Qed.

Lemma b64_ref_chars s : Forall (λ c, c ∈ base64_chars ∨ c = "="%byte) (b64_ref s) ∧ (length (b64_ref s) mod 4 = 0)%nat.
Proof.
  assert (∀ l, Forall (λ t, b64_char t ∈ base64_chars) l → Forall (λ c, c ∈ base64_chars ∨ c = "="%byte) (b64_char <$> l)) as Hm.
  { intros l Hl. apply Forall_fmap. eapply Forall_impl; [exact Hl|]. cbn. auto. }
  induction s as [|a|a b|a b c s [IH1 IH2]] using triples_ind; cbn [b64_ref]; [done|..]; split; try done.
  - apply Forall_app. split; [apply Hm, Forall_take, sextets_in; done || apply b2z_range|]. repeat constructor; by right.
  - apply Forall_app. split; [apply Hm, Forall_take, sextets_in; done || apply b2z_range|]. repeat constructor; by right.
  - apply Forall_app. split; [apply Hm, sextets_in; apply b2z_range|done].
  - rewrite length_app. cbn [sextets3 fmap list_fmap length]. by rewrite <- Nat.Div0.add_mod_idemp_r, IH2.
Qed.

Lemma encode_decode s : Base64Decode (Base64Encode s) = s.
Proof. rewrite encode_ref. apply (decode_loop_ref s 0 []). Qed.

Lemma encode_no_quote s c : c ∈ Base64Encode s → c ≠ "034"%byte ∧ c ≠ "\"%byte.
Proof.
  rewrite encode_ref. intros Hc. pose proof (proj1 (b64_ref_chars s)) as H. eapply Forall_forall in H; [|exact Hc].
  assert (forallb (λ c, negb (beqb c "034"%byte) && negb (beqb c "\"%byte)) ("="%byte :: base64_chars) = true) as Ha by (vm_compute; reflexivity).
  rewrite forallb_forall in Ha. specialize (Ha c). rewrite andb_true_iff, !negb_true_iff, !beqb_false in Ha. apply Ha.
  apply list_elem_of_In, elem_of_cons. naive_solver.
Qed.

(** ** Properties *)

(** Base64 round trip.  For every byte string, of any length, the two
    encoders agree, the decoder inverts them, and the text has a length
    divisible by four and only Base64 characters and padding (so it can be
    put between quotes in a script). *)
Theorem base64_roundtrip s :
  Base64Decode (Base64Encode s) = s ∧ Base64Encode_vec s = Base64Encode s ∧
  Forall (λ c, c ∈ base64_chars ∨ c = "="%byte) (Base64Encode s) ∧ (length (Base64Encode s) mod 4 = 0)%nat.
Proof.
  rewrite encode_vec_ref, encode_ref. split_and!; [|done|apply b64_ref_chars..].
  rewrite <- encode_ref. apply encode_decode.
Qed.

(** ** UUIDs *)

(** The lowest [w] hexadecimal digits. *)
Fixpoint hex_fixed (w : nat) (n : Z) : bytes :=
  match w with O => [] | S w => hex_fixed w (n / 16) ++ [hex_digit (n mod 16)] end.

Lemma hex_fixed_0 w : hex_fixed w 0 = repeat "0"%byte w.
Proof.
  induction w as [|w IH]; [done|]. cbn [hex_fixed]. change (0 / 16) with 0. rewrite IH.
  change (hex_digit (0 mod 16)) with "0"%byte. by rewrite <- repeat_cons.
Qed.

Lemma hexw_fixed_fuel w : ∀ fuel n, (0 < w <= fuel)%nat → 0 <= n < 16 ^ Z.of_nat w →
  repeat "0"%byte (w - length (hex_digits fuel n)) ++ hex_digits fuel n = hex_fixed w n.
Proof.
  induction w as [|w IH]; intros [|fuel] n Hw Hn; try lia. cbn [hex_digits hex_fixed].
  rewrite Nat2Z.inj_succ, Z.pow_succ_r in Hn by lia. rewrite length_app. cbn [length].
  destruct (Z.ltb_spec n 16).
  - cbn [length app]. replace (S w - (0 + 1))%nat with w by lia. by rewrite (Z.div_small n 16), hex_fixed_0 by lia.
  - replace (S w - (length (hex_digits fuel (n / 16)) + 1))%nat with (w - length (hex_digits fuel (n / 16)))%nat by lia.
    rewrite app_assoc, IH; [done| |split; [euclid|apply Z.div_lt_upper_bound; lia]].
    split; [|lia]. destruct w; [|lia]. simpl in Hn. lia.
Qed.

Lemma hexw_fixed w n : (0 < w <= 8)%nat → 0 <= n < 16 ^ Z.of_nat w → hexw w n = hex_fixed w n.
Proof. apply hexw_fixed_fuel. Qed.

Lemma hex_fixed_head w n : 0 <= n → hex_fixed (S w) n = hex_digit (n / 16 ^ Z.of_nat w mod 16) :: hex_fixed w n.
Proof.
  revert n. induction w as [|w IH]; intros n Hn.
  - cbn [hex_fixed app]. change (16 ^ Z.of_nat 0) with 1. by rewrite Z.div_1_r.
  - change (hex_fixed (S (S w)) n) with (hex_fixed (S w) (n / 16) ++ [hex_digit (n mod 16)]). rewrite IH by euclid.
    cbn [app hex_fixed]. f_equal. f_equal. f_equal. rewrite Z.div_div by lia. f_equal.
    rewrite Nat2Z.inj_succ, Z.pow_succ_r by lia. lia.
Qed.

Lemma hex_fixed_hex w n : Forall (λ c, isxdigit c = true) (hex_fixed w n) ∧ length (hex_fixed w n) = w.
Proof.
  revert n. induction w as [|w IH]; intros n; cbn [hex_fixed]; [done|]. destruct (IH (n / 16)) as [H1 H2].
  rewrite length_app, H2. split; [|simpl; lia]. apply Forall_app. split; [done|]. constructor; [|constructor].
  assert (forallb (λ i, isxdigit (hex_digit (Z.of_nat i))) (seq 0 16) = true) as H by (vm_compute; reflexivity).
  rewrite forallb_forall in H. pose proof (Z.mod_pos_bound n 16 ltac:(lia)).
  specialize (H (Z.to_nat (n mod 16))). rewrite Z2Nat.id in H by lia. apply H, in_seq. lia.
Qed.

(** [GenerateUUID] formats any random words as a version 4 UUID: 36
    characters, hexadecimal groups of 8, 4, 4, 4 and 12 separated by dashes,
    version digit 4 and a variant digit among 8, 9, a and b. *)
Theorem uuid_v4_format d0 d1 d2 d3 :
  0 <= d0 < 2 ^ 32 → 0 <= d1 < 2 ^ 32 → 0 <= d2 < 2 ^ 32 → 0 <= d3 < 2 ^ 32 →
  ∃ a b c v d e,
    GenerateUUID d0 d1 d2 d3 = a ++ #"-" ++ b ++ #"-" ++ "4"%byte :: c ++ #"-" ++ v :: d ++ #"-" ++ e ∧
    v ∈ #"89ab" ∧ Forall (λ c, isxdigit c = true) (a ++ b ++ c ++ d ++ e) ∧
    length a = 8%nat ∧ length b = 4%nat ∧ length c = 3%nat ∧ length d = 3%nat ∧ length e = 12%nat.
Proof.
  intros H0 H1 H2 H3. unfold GenerateUUID.
  set (x1 := Z.land (Z.shiftr d1 16) 65535). set (x2 := Z.lor _ 16384). set (x3 := Z.lor _ 32768). set (x4 := Z.land d2 65535).
  assert (∀ z k, 0 <= k → 0 <= Z.land z (Z.ones k) < 2 ^ k) as Hmask
    by (intros; rewrite Z.land_ones by done; apply Z.mod_pos_bound; lia).
  assert (0 <= x1 < 16 ^ 4) as R1 by apply (Hmask _ 16 ltac:(lia)).
  assert (0 <= x4 < 16 ^ 4) as R4 by apply (Hmask _ 16 ltac:(lia)).
  assert (0 <= x2 < 16 ^ 4 ∧ x2 / 16 ^ Z.of_nat 3 mod 16 = 4) as [R2 E2].
  { unfold x2. pose proof (Hmask (Z.shiftr d1 0) 12 ltac:(lia)) as Hm. change (Z.ones 12) with 4095 in Hm.
    revert Hm. generalize (Z.land (Z.shiftr d1 0) 4095). intros z Hz.
    change 16384 with (Z.shiftl 4 12). rewrite lor_shiftl_add by lia. change (16 ^ Z.of_nat 3) with 4096.
    change (2 ^ 12) with 4096 in *. split; [lia|euclid]. }
  assert (0 <= x3 < 16 ^ 4 ∧ 8 <= x3 / 16 ^ Z.of_nat 3 mod 16 < 12) as [R3 E3].
  { unfold x3. pose proof (Hmask (Z.shiftr d2 16) 14 ltac:(lia)) as Hm. change (Z.ones 14) with 16383 in Hm.
    revert Hm. generalize (Z.land (Z.shiftr d2 16) 16383). intros z Hz.
    change 32768 with (Z.shiftl 2 14). rewrite lor_shiftl_add by lia. change (16 ^ Z.of_nat 3) with 4096.
    change (2 ^ 14) with 16384 in *. split; [lia|euclid]. }
  rewrite !hexw_fixed by (lia || done). rewrite (hex_fixed_head 3 x2), (hex_fixed_head 3 x3) by lia. rewrite E2.
  eexists (hex_fixed 8 d0), (hex_fixed 4 x1), (hex_fixed 3 x2), _, (hex_fixed 3 x3), (hex_fixed 4 x4 ++ hex_fixed 8 d3).
  split; [cbn [app]; by rewrite <- ?app_assoc|]. rewrite !Forall_app, length_app.
  pose proof (λ w n, proj1 (hex_fixed_hex w n)). pose proof (λ w n, proj2 (hex_fixed_hex w n)) as Hl. rewrite !Hl. split_and!; auto.
  revert E3. generalize (x3 / 16 ^ Z.of_nat 3 mod 16). intros z Hz.
  assert (z = 8 ∨ z = 9 ∨ z = 10 ∨ z = 11) as [->|[->|[->| ->]]] by lia; vm_compute; repeat constructor.
Qed.

Lemma uuid_v4_format_witness :
  ∃ a b c v d e,
    GenerateUUID 1 2 3 4294967295 = a ++ #"-" ++ b ++ #"-" ++ "4"%byte :: c ++ #"-" ++ v :: d ++ #"-" ++ e ∧ v ∈ #"89ab".
Proof.
  destruct (uuid_v4_format 1 2 3 4294967295 ltac:(lia) ltac:(lia) ltac:(lia) ltac:(lia)) as (a & b & c & v & d & e & H & Hv & _).
  exists a, b, c, v, d, e. split; [exact H|exact Hv].
Defined.
