(* ===== verification/PluginConfig.v ===== *)
(** * PluginConfig: per-plugin settings and the list of enabled plugins

    Models [src/src/bindings/plugin_config.cc] and the settings side of
    [src/src/engine/plugin_manager.cc].  Both are clients of the settings
    store; they are written and verified against the interface
    [SettingsStore], which [Config] implements. *)

From S2P Require Import Prelude Json StarFile Config Base64.

(** ** The interface *)

(** What the clients rely on: [CONFIG.get], [CONFIG.set] and
    [CONFIG.save_to_disk], where the settings are a tree addressed by
    non-empty paths. *)
Class SettingsStore (Store : Type) := {
  s_find : Store → list bytes → option json;
  s_set : Store → list bytes → bytes → json → bool → outcome Store;
  s_save : Store → outcome Store;
  s_eq : json → json → bool;
  s_tree s p k : p ≠ [] → s_find s (p ++ [k]) = match s_find s p with Some j => jget k j | None => None end;
  s_set_read s segs k v skip s' : s_set s segs k v skip = Ok s' →
    default JNull (s_find s' (segs ++ [k])) =
      (let old := default JNull (s_find s (segs ++ [k])) in if s_eq old v then old else v);
  s_set_frame s segs k v skip s' q : s_set s segs k v skip = Ok s' → diverge (segs ++ [k]) q → s_find s' q = s_find s q;
  s_save_frame s s' q : s_save s = Ok s' → s_find s' q = s_find s q;
  s_set_defined s segs k v skip : defined (s_set s segs k v skip);
  s_save_defined s : defined (s_save s);
  s_eq_strings j l : s_eq j (JArr (JStr <$> l)) = true → j = JArr (JStr <$> l);
}.

Definition s_get `{SettingsStore Store} (s : Store) (q : list bytes) (def : json) : json := default def (s_find s q).

(** ** plugin_config *)

Definition is_reserved_name (name : bytes) : bool := bytes_eqb name #"enabledPlugins".

Definition MAX_KEYS : Z := 256.
Definition MAX_VALUE_BYTES : Z := 256 * 1024.
Definition MAX_KEY_BYTES : Z := 512.

Definition json_size (j : json) : Z :=
  match j with JNull => 0 | JArr l => len l | JObj o => len o | _ => 1 end.

Inductive origin := o_frontend | o_lua_child | o_external.

(** What a change sends: a script for the frontend, a message for the
    plugin's backend process. *)
Inductive note := EvalJs (script : bytes) | NotifyChild (plugin_name : bytes) (params : json).

(** Which of the two targets exist. *)
Record notify_targets := NotifyTargets { t_eval_js : bool; t_bm : bool }.

Definition quote : byte := "034"%byte.

Definition atob (w : bytes) : bytes := #"atob(" ++ quote :: w ++ quote :: #")".

Definition change_script (w1 w2 w3 : bytes) : bytes :=
  #"window.__millennium_plugin_config_changed__ && window.__millennium_plugin_config_changed__(" ++
  atob w1 ++ #", " ++ atob w2 ++ #", " ++ atob w3 ++ #")".

Definition base_path (plugin_name : bytes) : list bytes := [ #"plugins"; plugin_name].

Section plugin_config.
  Context `{SettingsStore Store}.
  Variable dump : json → outcome bytes.
  Implicit Types s : Store.

Definition validate_limits s (plugin_name key : bytes) (value : json) : outcome bytes :=
  if is_reserved_name plugin_name then Ok (#"reserved plugin name: " ++ plugin_name) else
  if MAX_KEY_BYTES <? len key then Ok #"config key too long (max 512 bytes)" else
  let current := s_get s (base_path plugin_name ++ [ #"config"]) (JObj []) in
  if negb (contains key current) && (MAX_KEYS <=? json_size current)
  then Ok #"plugin config key limit exceeded (max 256)" else
  text ← dump value;
  if MAX_VALUE_BYTES <? len text then Ok #"plugin config value too large (max 256KB)" else Ok [].

Definition notify_change (t : notify_targets) (src : origin) (plugin_name key : bytes) (value : json) : outcome (list note) :=
  value_json ← (if is_null value then Ok #"null" else dump value);
  Ok ((if match src with o_frontend => false | _ => true end && t_eval_js t
       then [EvalJs (change_script (Base64Encode plugin_name) (Base64Encode key) (Base64Encode value_json))] else []) ++
      (if match src with o_lua_child => false | _ => true end && t_bm t
       then [NotifyChild plugin_name (jobj [(#"key", JStr key); (#"value", value)])] else [])).

(** A result: the success flag and a value. *)
Definition result : Type := bool * json.
Definition fail (msg : bytes) : result := (false, JStr msg).
Definition success : result := (true, jobj [(#"success", JBool true)]).

Definition get s (plugin_name key : bytes) : result :=
  if is_reserved_name plugin_name then fail (#"reserved plugin name: " ++ plugin_name) else
  if bytes_eqb key [] then fail #"missing key" else
  (true, s_get s (base_path plugin_name ++ [ #"config"; key]) JNull).

Definition get_all s (plugin_name : bytes) : result :=
  if is_reserved_name plugin_name then fail (#"reserved plugin name: " ++ plugin_name) else
  (true, s_get s (base_path plugin_name ++ [ #"config"]) (JObj [])).

Definition set s (t : notify_targets) (src : origin) (plugin_name key : bytes) (value : json) :
    outcome (Store * result * list note) :=
  if bytes_eqb key [] then Ok (s, fail #"missing key", []) else
  err ← validate_limits s plugin_name key value;
  if negb (bytes_eqb err []) then Ok (s, fail err, []) else
  s ← s_set s (base_path plugin_name ++ [ #"config"]) key value true;
  s ← s_save s;
  notes ← notify_change t src plugin_name key value;
  Ok (s, success, notes).

(** [config.erase(key)] throws on values that are not objects. *)
Fixpoint obj_erase (k : bytes) (o : list (bytes * json)) : list (bytes * json) :=
  match o with
  | [] => []
  | (k', v) :: o => if bytes_eqb k' k then o else (k', v) :: obj_erase k o
  end.
Definition erase (k : bytes) (j : json) : outcome json :=
  match j with JObj o => Ok (JObj (obj_erase k o)) | _ => Throw json_error end.

(** [del] reads the settings of the plugin, and writes them back in a second
    critical section. *)
Definition del_read s (plugin_name key : bytes) : outcome json :=
  erase key (s_get s (base_path plugin_name ++ [ #"config"]) (JObj [])).
Definition del_write s (plugin_name : bytes) (config : json) : outcome Store :=
  s ← s_set s (base_path plugin_name) #"config" config true; s_save s.

Definition del s (t : notify_targets) (src : origin) (plugin_name key : bytes) : outcome (Store * result * list note) :=
  if is_reserved_name plugin_name then Ok (s, fail (#"reserved plugin name: " ++ plugin_name), []) else
  if bytes_eqb key [] then Ok (s, fail #"missing key", []) else
  config ← del_read s plugin_name key;
  s ← del_write s plugin_name config;
  notes ← notify_change t src plugin_name key JNull;
  Ok (s, success, notes).

Definition delete_all s (plugin_name : bytes) : outcome (Store * result) :=
  if bytes_eqb plugin_name [] then Ok (s, fail #"missing pluginName") else
  if is_reserved_name plugin_name then Ok (s, fail (#"reserved plugin name: " ++ plugin_name)) else
  s ← del_write s plugin_name (JObj []);
  Ok (s, success).

(** ** plugin_manager: enabled plugins *)

Definition enabled_path : list bytes := [ #"plugins"; #"enabledPlugins"].
Definition set_enabled s (l : list bytes) : outcome Store :=
  s_set s [ #"plugins"] #"enabledPlugins" (JArr (JStr <$> l)) false.

(** [init]: a value that is not a list of strings is reset. *)
Definition pm_init s : outcome Store :=
  let enabled := s_get s enabled_path (JArr []) in
  if negb (is_array enabled) then set_enabled s []
  else if forallb is_string (elements enabled) then Ok s else set_enabled s [].

Definition string_names (j : json) : list bytes :=
  match j with
  | JArr l => omap (λ v, match v with JStr x => Some x | _ => None end) l
  | _ => []
  end.

Fixpoint remove_first (x : bytes) (l : list bytes) : list bytes :=
  match l with [] => [] | y :: l => if bytes_eqb y x then l else y :: remove_first x l end.

Definition set_plugin_enabled s (pluginName : bytes) (enabled : bool) : outcome Store :=
  let names := string_names (s_get s enabled_path (JArr [])) in
  let names :=
    if enabled then
      if bool_decide (pluginName ∈ names) then names else names ++ [pluginName]
    else remove_first pluginName names in
  set_enabled s names.

Definition is_enabled s (plugin_name : bytes) : bool :=
  match s_get s enabled_path (JArr []) with
  | JArr l => existsb (λ v, match v with JStr x => bytes_eqb x plugin_name | _ => false end) l
  | _ => false
  end.

Definition get_enabled_plugins s (all : list plugin_t) : list plugin_t :=
  List.filter (λ p, is_enabled s (plugin_name p)) all.

Definition get_enabled_plugin_names s (all : list plugin_t) : list bytes :=
  plugin_name <$> get_enabled_plugins s all.

(** The loop of [get_enabled_backends]. *)
Fixpoint get_enabled_backends s (all : list plugin_t) : outcome (list plugin_t) :=
  match all with
  | [] => Ok []
  | p :: all =>
      if negb (is_enabled s (plugin_name p)) then get_enabled_backends s all else
      use ← value_bool #"useBackend" true (plugin_json p);
      if negb use then get_enabled_backends s all else
      ty ← value_string #"backendType" [] (plugin_json p);
      if negb (bytes_eqb ty #"lua") then
        _ ← value_string #"backendType" #"<unset>" (plugin_json p);
        get_enabled_backends s all
      else rest ← get_enabled_backends s all; Ok (p :: rest)
  end.
End plugin_config.

(** [lint_plugin]: the one required field; the others only warn. *)
Definition lint_plugin (j : json) : outcome () :=
  throw_if (negb (contains #"name" j)) #"plugin configuration must contain 'name'".

(** [a / b] of POSIX paths. *)
Definition path_join (a b : bytes) : bytes :=
  if prefixb #"/" b then b
  else if bytes_eqb a [] || bool_decide (last a = Some "/"%byte) then a ++ b
  else a ++ "/"%byte :: b.

Definition get_plugin_internal_metadata (j : json) (dir : bytes) : outcome plugin_t :=
  _ ← lint_plugin j;
  name ← idx #"name" j; name ← get_string name;
  backend ← value_string #"backend" #"backend" j;
  Ok (Plugin name j dir (path_join (path_join dir backend) #"main.lua")
        (path_join (path_join (path_join dir #".millennium") #"Dist") #"index.js")
        (path_join (path_join (path_join dir #".millennium") #"Dist") #"webkit.js")
        false loose_files false false false []).

(** ** The store implements the interface *)

Section config_store.
  Context {L : Type} (json_eq : json → json → bool) (dump : json → outcome bytes) (fn : bytes) (env : save_env).
  (** nlohmann's equality is structural on lists of strings. *)
  Hypothesis json_eq_strings : ∀ j l, json_eq j (JArr (JStr <$> l)) = true → j = JArr (JStr <$> l).
  (** Printing returns or throws. *)
  Hypothesis dump_defined : ∀ j, defined (dump j).

Definition last_state (states : list disk) (d : disk) : disk := default d (last states).

Definition config_set (s : config_manager L * disk) (segs : list bytes) (k : bytes) (v : json) (skip : bool) :
    outcome (config_manager L * disk) :=
  '(cfg, _, states) ← Config.set json_eq dump fn env s.1 segs k v skip s.2;
  Ok (cfg, last_state states s.2).

Definition config_save (s : config_manager L * disk) : outcome (config_manager L * disk) :=
  let '(states, r) := save_to_disk dump fn env s.1 s.2 in _ ← r; Ok (s.1, last_state states s.2).

Lemma get_path_snoc p k : ∀ j, p ≠ [] →
  get_path j (p ++ [k]) = match get_path j p with Some j' => jget k j' | None => None end.
Proof.
  induction p as [|a p IH]; intros j Hp; [done|]. destruct p as [|b p].
  - cbn. by destruct (jget a j).
  - change ((a :: b :: p) ++ [k]) with (a :: ((b :: p) ++ [k])). rewrite (get_path_cons a (b :: p)) by done.
    rewrite get_path_cons by (by destruct p). destruct (jget a j); [by apply IH|done].
Qed.

Lemma config_set_inv s segs k v skip s' :
  config_set s segs k v skip = Ok s' →
  ∃ old changed, set_path json_eq segs k v (_data s.1) = Ok (_data s'.1, old, changed).
Proof.
  unfold config_set. intros H. apply bind_Ok in H as ([[cfg cs] st] & Hs & H). apply Ok_inj in H. subst s'.
  unfold Config.set in Hs. apply bind_Ok in Hs as ([[j old] ch] & Hp & Hs). rewrite Hp. exists old, ch. do 3 f_equal.
  destruct (ch && negb skip).
  - destruct (save_to_disk _ _ _ _ _) as [st' r]. apply bind_Ok in Hs as ([] & _ & Hs). apply Ok_inj in Hs. by injection Hs as <- <- <-.
  - apply Ok_inj in Hs. by injection Hs as <- <- <-.
Qed.

Lemma set_path_defined segs k v j : defined (set_path json_eq segs k v j).
Proof. revert j. induction segs as [|x segs IH]; intros j; cbn [set_path]; [apply Ok_defined|]. solve_defined; auto with cxx. Qed.
Lemma save_defined (cfg : config_manager L) d : defined (save_to_disk dump fn env cfg d).2.
Proof.
  unfold save_to_disk. destruct (_save_disabled _); [exact (Ok_defined _)|]. destruct (negb (open_ok env)); [exact (Ok_defined _)|]. pose proof (dump_defined (_data cfg)) as Hd.
  destruct (dump _); [|exact (Throw_defined _)|by destruct Hd..]. destruct (negb (write_ok env)); exact (Ok_defined _).
Qed.
Lemma config_set_defined (s : config_manager L * disk) segs k v skip : defined (config_set s segs k v skip).
Proof.
  unfold config_set, Config.set. apply bind_defined; [|intros [[cfg c] st] _; apply Ok_defined]. apply bind_defined; [apply set_path_defined|]. intros [[j old] ch] _.
  destruct (ch && negb skip); [|apply Ok_defined]. pose proof (save_defined (with_data s.1 j) s.2) as Hd. destruct (save_to_disk _ _ _ _ _) as [st r]. apply bind_defined; [exact Hd|]. intros [] _. apply Ok_defined.
Qed.
Lemma config_save_defined (s : config_manager L * disk) : defined (config_save s).
Proof. unfold config_save. pose proof (save_defined s.1 s.2) as Hd. destruct (save_to_disk _ _ _ _ _) as [st r]. apply bind_defined; [exact Hd|]. intros [] _. apply Ok_defined. Qed.

#[refine] Definition config_store : SettingsStore (config_manager L * disk) := {|
  s_find s q := get_path (_data s.1) q;
  s_set := config_set;
  s_save := config_save;
  s_eq := json_eq;
|}.
Proof.
  - intros s p k Hp. by apply get_path_snoc.
  - intros s segs k v skip s' (old & ch & H)%config_set_inv. apply set_path_spec in H as (Ho & Hc & Hr & _).
    cbv zeta. rewrite Hr, Hc, Ho. by destruct (json_eq (default JNull (get_path (_data s.1) (segs ++ [k]))) v).
  - intros s segs k v skip s' q (old & ch & H)%config_set_inv Hd. apply set_path_spec in H as (_ & _ & _ & H). by apply H.
  - intros s s' q. unfold config_save. destruct (save_to_disk _ _ _ _ _) as [st r]. intros H.
    apply bind_Ok in H as ([] & _ & H). apply Ok_inj in H. by subst.
  - apply config_set_defined.
  - apply config_save_defined.
  - exact json_eq_strings.
Defined.
End config_store.

(** ** Lemmas *)

Section lemmas.
  Context `{SettingsStore Store}.
  Variable dump : json → outcome bytes.
  Implicit Types s : Store.

(** Paths that the settings of a plugin do not reach. *)
Definition foreign (plugin : bytes) (q : list bytes) : Prop :=
  ∃ name rest, q = #"plugins" :: name :: rest ∧ name ≠ plugin.

Lemma foreign_diverge plugin rest q : foreign plugin q → diverge (#"plugins" :: plugin :: rest) q.
Proof. intros (name & r & -> & Hne). right. split; [done|]. left. congruence. Qed.

Lemma enabled_foreign plugin : is_reserved_name plugin = false → foreign plugin enabled_path.
Proof. unfold is_reserved_name. intros Hr%bytes_eqb_false. exists #"enabledPlugins", []. by split; [|congruence]. Qed.

Lemma del_write_foreign s plugin config s' q :
  del_write s plugin config = Ok s' → foreign plugin q → s_find s' q = s_find s q.
Proof.
  intros Hw Hq. unfold del_write in Hw. apply bind_Ok in Hw as (s1 & H1 & H2).
  rewrite (s_save_frame _ _ _ H2). eapply s_set_frame; [exact H1|]. by apply foreign_diverge.
Qed.

Lemma validate_not_reserved s plugin key v : validate_limits dump s plugin key v = Ok [] → is_reserved_name plugin = false.
Proof. unfold validate_limits. by destruct (is_reserved_name plugin). Qed.

(** The branches of [set]. *)
Lemma set_cases s t src plugin key v s' r notes :
  set dump s t src plugin key v = Ok (s', r, notes) →
  (∃ msg, s' = s ∧ r = fail msg ∧ notes = [] ∧
     (key = [] ∧ msg = #"missing key" ∨ key ≠ [] ∧ msg ≠ [] ∧ validate_limits dump s plugin key v = Ok msg)) ∨
  (key ≠ [] ∧ validate_limits dump s plugin key v = Ok [] ∧ r = success ∧
   notify_change dump t src plugin key v = Ok notes ∧
   ∃ s1, s_set s (base_path plugin ++ [ #"config"]) key v true = Ok s1 ∧ s_save s1 = Ok s').
Proof.
  unfold set. intros Hs. destruct (bytes_eqb key []) eqn:Ek.
  { apply bytes_eqb_true in Ek. apply Ok_inj in Hs. injection Hs as <- <- <-. left. eauto 8. }
  apply bytes_eqb_false in Ek. apply bind_Ok in Hs as (err & Hv & Hs). destruct (bytes_eqb err []) eqn:Ee; cbn [negb] in Hs.
  - apply bytes_eqb_true in Ee. subst err. right. apply bind_Ok in Hs as (s1 & H1 & Hs). apply bind_Ok in Hs as (s2 & H2 & Hs).
    apply bind_Ok in Hs as (ns & H3 & Hs). apply Ok_inj in Hs. injection Hs as <- <- <-. eauto 8.
  - apply bytes_eqb_false in Ee. apply Ok_inj in Hs. injection Hs as <- <- <-. left. eauto 9.
Qed.

Lemma set_foreign s t src plugin key v s' r notes q :
  set dump s t src plugin key v = Ok (s', r, notes) → foreign plugin q → s_find s' q = s_find s q.
Proof.
  intros [(msg & -> & _)|(_ & _ & _ & _ & s1 & H1 & H2)]%set_cases Hq; [done|].
  rewrite (s_save_frame _ _ _ H2). eapply s_set_frame; [exact H1|]. by apply foreign_diverge.
Qed.

(** The branches of [del] and [delete_all] that write. *)
Lemma del_cases s t src plugin key s' r notes :
  del dump s t src plugin key = Ok (s', r, notes) →
  s' = s ∨ is_reserved_name plugin = false ∧ ∃ config, del_write s plugin config = Ok s'.
Proof.
  unfold del. intros Hd. destruct (is_reserved_name plugin); [left; apply Ok_inj in Hd; by injection Hd as <- <- <-|].
  destruct (bytes_eqb key []); [left; apply Ok_inj in Hd; by injection Hd as <- <- <-|]. right. split; [done|].
  apply bind_Ok in Hd as (c & _ & Hd). apply bind_Ok in Hd as (s1 & H1 & Hd). apply bind_Ok in Hd as (ns & _ & Hd).
  apply Ok_inj in Hd. injection Hd as <- <- <-. eauto.
Qed.

Lemma delete_all_cases s plugin s' r :
  delete_all s plugin = Ok (s', r) → s' = s ∨ is_reserved_name plugin = false ∧ ∃ config, del_write s plugin config = Ok s'.
Proof.
  unfold delete_all. intros Hd. destruct (bytes_eqb plugin []); [left; apply Ok_inj in Hd; by injection Hd as <- <-|].
  destruct (is_reserved_name plugin); [left; apply Ok_inj in Hd; by injection Hd as <- <-|]. right. split; [done|].
  apply bind_Ok in Hd as (s1 & H1 & Hd). apply Ok_inj in Hd. injection Hd as <- <-. eauto.
Qed.

(** [is_enabled] by names. *)
Lemma is_enabled_names s name :
  is_enabled s name = bool_decide (name ∈ string_names (s_get s enabled_path (JArr []))).
Proof.
  unfold is_enabled. destruct (s_get s enabled_path (JArr [])) as [| | | | |l|]; try done. cbn [string_names].
  induction l as [|v l IH]; [done|]. cbn [existsb]. rewrite IH. destruct v as [| | | |x| |]; try done. cbn.
  apply eq_true_iff_eq. rewrite orb_true_iff, bytes_eqb_true, !bool_decide_eq_true, elem_of_cons. naive_solver.
Qed.

Lemma string_names_strings l : string_names (JArr (JStr <$> l)) = l.
Proof. cbn. induction l as [|x l IH]; [done|]. cbn. by f_equal. Qed.

Lemma set_enabled_names s l s' :
  set_enabled s l = Ok s' → string_names (s_get s' enabled_path (JArr [])) = l.
Proof.
  intros Hs. unfold set_enabled in Hs. pose proof (s_set_read _ _ _ _ _ _ Hs) as Hr. cbv zeta in Hr.
  change ([ #"plugins"] ++ [ #"enabledPlugins"]) with enabled_path in Hr. unfold s_get.
  destruct (s_eq _ (JArr (JStr <$> l))) eqn:Ee; [apply s_eq_strings in Ee; rewrite Ee in Hr|];
    destruct (s_find s' enabled_path); try done; cbn in Hr; subst; apply string_names_strings.
Qed.

Fixpoint occurrences (x : bytes) (l : list bytes) : nat :=
  match l with [] => 0 | y :: l => (if bytes_eqb y x then 1 else 0) + occurrences x l end.

Lemma occurrences_elem x l : (x ∈ l) ↔ (0 < occurrences x l)%nat.
Proof.
  induction l as [|y l IH]; simpl; [rewrite elem_of_nil; lia|]. rewrite elem_of_cons, IH.
  destruct (bytes_eqb y x) eqn:E; [apply bytes_eqb_true in E; subst|apply bytes_eqb_false in E]; split; intros Hx; try lia; auto.
  destruct Hx as [->|?]; [done|lia].
Qed.

Lemma remove_first_occurrences x y l :
  occurrences y (remove_first x l) = if bytes_eqb x y then pred (occurrences y l) else occurrences y l.
Proof.
  induction l as [|z l IH]; simpl; [by destruct (bytes_eqb x y)|]. destruct (bytes_eqb z x) eqn:Ezx.
  - apply bytes_eqb_true in Ezx as ->. by destruct (bytes_eqb x y).
  - simpl. rewrite IH. destruct (bytes_eqb x y) eqn:Exy; [|done]. apply bytes_eqb_true in Exy as ->. by rewrite Ezx.
Qed.
End lemmas.

(** ** Properties *)

(** Plugins cannot touch each other's settings or the list of enabled
    plugins.  Whatever [set], [del] and [delete_all] of one plugin do, every
    setting under another name in "plugins", the reserved "enabledPlugins"
    included, reads as before; and a call for the reserved name changes
    nothing at all. *)
Theorem plugin_config_isolation `{SettingsStore Store} dump (s s' : Store) t src plugin key v r notes q :
  set dump s t src plugin key v = Ok (s', r, notes) ∨
  del dump s t src plugin key = Ok (s', r, notes) ∨ delete_all s plugin = Ok (s', r) →
  (foreign plugin q → s_find s' q = s_find s q) ∧
  s_find s' enabled_path = s_find s enabled_path ∧
  (is_reserved_name plugin = true → s' = s).
Proof.
  intros Hop.
  assert ((∀ q, foreign plugin q → s_find s' q = s_find s q) ∧ (is_reserved_name plugin = true → s' = s)) as [Hf Hr].
  { destruct Hop as [Hs|[Hd|Hd]].
    - split; [intros; by eapply set_foreign|]. intros Hr.
      apply set_cases in Hs as [(msg & -> & _)|(_ & Hv & _)]; [done|]. apply validate_not_reserved in Hv. congruence.
    - apply del_cases in Hd as [->|[Hn [c Hw]]]; [done|]. split; [intros; by eapply del_write_foreign|congruence].
    - apply delete_all_cases in Hd as [->|[Hn [c Hw]]]; [done|]. split; [intros; by eapply del_write_foreign|congruence]. }
  split_and!; [auto| |done]. destruct (is_reserved_name plugin) eqn:Er; [by rewrite Hr|]. by apply Hf, enabled_foreign.
Qed.

(** [plugin_config::set] on every branch.  It refuses an empty key, a
    reserved plugin, a key over 512 bytes, a new key beyond 256 and a value
    over 256 KB, with the store unchanged and nobody notified; otherwise it
    stores the value (an equal value may stay), reads back by [get], and
    notifies the frontend unless the change came from it, and the backend
    unless the change came from it. *)
Theorem plugin_config_set_get `{SettingsStore Store} dump (s s' : Store) t src plugin key v r notes :
  set dump s t src plugin key v = Ok (s', r, notes) →
  (r.1 = false → s' = s ∧ notes = [] ∧
     (key = [] ∨ is_reserved_name plugin = true ∨ MAX_KEY_BYTES < len key ∨
      (let cur := s_get s (base_path plugin ++ [ #"config"]) (JObj []) in contains key cur = false ∧ MAX_KEYS <= json_size cur) ∨
      ∃ text, dump v = Ok text ∧ MAX_VALUE_BYTES < len text)) ∧
  (r.1 = true →
     (let old := (get s plugin key).2 in get s' plugin key = (true, if s_eq old v then old else v)) ∧
     (∀ script, EvalJs script ∈ notes → src ≠ o_frontend) ∧
     (∀ p j, NotifyChild p j ∈ notes → src ≠ o_lua_child ∧ p = plugin)).
Proof.
  intros [(msg & -> & -> & -> & Hm)|(Hk & Hv & -> & Hn & s1 & H1 & H2)]%set_cases; split; try done; intros _.
  - split_and!; [done..|]. destruct Hm as [[? _]|(_ & Hne & Hv)]; [by left|right]. unfold validate_limits in Hv.
    destruct (is_reserved_name plugin); [by left|right]. destruct (Z.ltb_spec MAX_KEY_BYTES (len key)); [by left|right].
    destruct (contains key _) eqn:Ec; cbn [negb andb] in Hv.
    + right. apply bind_Ok in Hv as (text & Hd & Hv). exists text. split; [done|].
      destruct (Z.ltb_spec MAX_VALUE_BYTES (len text)); [done|]. apply Ok_inj in Hv. by subst.
    + destruct (Z.leb_spec MAX_KEYS (json_size (s_get s (base_path plugin ++ [ #"config"]) (JObj [])))) as [Hl|Hl]; [by left|].
      right. apply bind_Ok in Hv as (text & Hd & Hv). exists text. split; [done|].
      destruct (Z.ltb_spec MAX_VALUE_BYTES (len text)); [done|]. apply Ok_inj in Hv. by subst.
  - pose proof (validate_not_reserved _ _ _ _ _ Hv) as Hr. apply bytes_eqb_false in Hk. split_and!.
    + unfold get. rewrite Hr, Hk. cbv zeta. cbn [snd]. f_equal. unfold s_get. rewrite (s_save_frame _ _ _ H2).
      pose proof (s_set_read _ _ _ _ _ _ H1) as Hs. rewrite <- app_assoc in Hs. exact Hs.
    + intros script Hin ->. unfold notify_change in Hn. apply bind_Ok in Hn as (x & _ & Hn). apply Ok_inj in Hn. subst notes.
      cbn [andb app] in Hin. destruct (t_bm t); [apply list_elem_of_singleton in Hin; done|by apply not_elem_of_nil in Hin].
    + intros p j Hin. unfold notify_change in Hn. apply bind_Ok in Hn as (x & _ & Hn). apply Ok_inj in Hn. subst notes.
      apply elem_of_app in Hin as [Hin|Hin].
      * destruct (_ && t_eval_js t); [apply list_elem_of_singleton in Hin; done|by apply not_elem_of_nil in Hin].
      * destruct src; cbn [andb] in Hin; [|by apply not_elem_of_nil in Hin|];
          (destruct (t_bm t); [apply list_elem_of_singleton in Hin; by injection Hin as -> ->|by apply not_elem_of_nil in Hin]).
Qed.

(** What a change injects into the frontend is inert data: the script is
    the fixed call with three quoted words, none of which contains a quote or
    a backslash, and which decode to the plugin name, the key and the JSON
    text. *)
Theorem change_script_is_data dump t src plugin key v notes script :
  notify_change dump t src plugin key v = Ok notes → EvalJs script ∈ notes →
  ∃ w1 w2 w3 text, script = change_script w1 w2 w3 ∧
    (dump v = Ok text ∨ v = JNull ∧ text = #"null") ∧
    Base64Decode w1 = plugin ∧ Base64Decode w2 = key ∧ Base64Decode w3 = text ∧
    ∀ w c, w ∈ [w1; w2; w3] → c ∈ w → c ≠ quote ∧ c ≠ "\"%byte.
Proof.
  intros Hn Hin. unfold notify_change in Hn. apply bind_Ok in Hn as (text & Ht & Hn). apply Ok_inj in Hn. subst notes.
  apply elem_of_app in Hin as [Hin|Hin].
  2:{ destruct (_ && t_bm t); [apply list_elem_of_singleton in Hin; done|by apply not_elem_of_nil in Hin]. }
  destruct (_ && t_eval_js t); [|by apply not_elem_of_nil in Hin]. apply list_elem_of_singleton in Hin. injection Hin as ->.
  exists (Base64Encode plugin), (Base64Encode key), (Base64Encode text), text.
  assert (∀ x, Base64Decode (Base64Encode x) = x) as Hd by (intros; apply encode_decode).
  rewrite !Hd. split_and!; try done.
  - destruct v; cbn [is_null] in Ht; try (by left). apply Ok_inj in Ht. subst. by right.
  - intros w c Hw Hc. assert (∃ x, w = Base64Encode x) as [x ->].
    { repeat (apply elem_of_cons in Hw as [->|Hw]; [eauto|]). by apply not_elem_of_nil in Hw. }
    by apply encode_no_quote in Hc.
Qed.

(** Enabling and disabling.  Enabling a plugin makes it enabled,
    disabling it makes it disabled unless it is listed more than once (only
    the first entry is removed), and no other plugin is affected. *)
Theorem set_plugin_enabled_spec `{SettingsStore Store} (s s' : Store) name enabled :
  set_plugin_enabled s name enabled = Ok s' →
  (∀ other, other ≠ name → is_enabled s' other = is_enabled s other) ∧
  (enabled = true → is_enabled s' name = true) ∧
  (enabled = false →
     (is_enabled s' name = true ↔ (2 <= occurrences name (string_names (s_get s enabled_path (JArr []))))%nat)).
Proof.
  intros Hs. unfold set_plugin_enabled in Hs. pose proof (set_enabled_names _ _ _ Hs) as Hn.
  setoid_rewrite is_enabled_names. rewrite Hn. set (names := string_names (s_get s enabled_path (JArr []))).
  fold names in Hn, Hs. split_and!.
  - intros other Hne. apply bool_decide_ext. destruct enabled.
    + case_bool_decide; [done|]. rewrite elem_of_app, list_elem_of_singleton. naive_solver.
    + rewrite !occurrences_elem, remove_first_occurrences. assert (bytes_eqb name other = false) as -> by (apply bytes_eqb_false; congruence). done.
  - intros ->. apply bool_decide_eq_true. case_bool_decide; [done|]. apply elem_of_app. right. left.
  - intros ->. rewrite bool_decide_eq_true, occurrences_elem, remove_first_occurrences, bytes_eqb_refl. lia.
Qed.

(** ** The hypotheses can hold *)

Lemma demo_eq_strings j l : demo_eq j (JArr (JStr <$> l)) = true → j = JArr (JStr <$> l).
Proof. apply bool_decide_eq_true. Qed.

#[local] Instance demo_store : SettingsStore (config_manager nat * disk) :=
  config_store demo_eq demo_dump #"f" demo_save demo_eq_strings (λ _, Ok_defined _).

(** Settings of two plugins, with "p" listed twice as enabled. *)
Definition demo_state : config_manager nat * disk :=
  (Config (JObj [(#"plugins", JObj [(#"enabledPlugins", JArr [JStr #"p"; JStr #"q"; JStr #"p"]);
                                    (#"p", JObj [(#"config", JObj [(#"a", JInt 1)])])])]) [] [] true, ∅).
Definition demo_targets : notify_targets := NotifyTargets true true.

(** The same store with other settings for "p". *)
Definition demo_with (o : list (bytes * json)) : config_manager nat * disk :=
  (Config (JObj [(#"plugins", JObj [(#"enabledPlugins", JArr [JStr #"p"; JStr #"q"; JStr #"p"]);
                                    (#"p", JObj [(#"config", JObj o)])])]) [] [] true, ∅).

Lemma plugin_config_isolation_witness :
  ∃ s' r, delete_all demo_state #"p" = Ok (s', r) ∧ s_find s' enabled_path = s_find demo_state enabled_path.
Proof.
  assert (delete_all demo_state #"p" = Ok (demo_with [], success)) as Hd by (vm_compute; reflexivity).
  exists (demo_with []), success. split; [exact Hd|].
  exact (proj1 (proj2 (plugin_config_isolation demo_dump demo_state (demo_with []) demo_targets o_external #"p" [] JNull
    success [] [] (or_intror (or_intror Hd))))).
Defined.

Lemma plugin_config_set_get_witness :
  get (demo_with [(#"a", JInt 1); (#"b", JInt 2)]) #"p" #"b" = (true, JInt 2).
Proof.
  assert (∃ notes, set demo_dump demo_state demo_targets o_external #"p" #"b" (JInt 2) =
    Ok (demo_with [(#"a", JInt 1); (#"b", JInt 2)], success, notes)) as [notes Hs] by (eexists; vm_compute; reflexivity).
  exact (proj1 (proj2 (plugin_config_set_get demo_dump _ _ _ _ _ _ _ _ _ Hs) eq_refl)).
Defined.

Lemma change_script_is_data_witness :
  ∃ notes script, notify_change demo_dump demo_targets o_external #"p" #"k" JNull = Ok notes ∧ EvalJs script ∈ notes ∧
    ∃ w1 w2 w3, script = change_script w1 w2 w3 ∧ Base64Decode w1 = #"p".
Proof.
  eexists _, _. split; [vm_compute; reflexivity|]. split; [left|].
  edestruct (change_script_is_data demo_dump demo_targets o_external #"p" #"k" JNull) as (w1 & w2 & w3 & text & H1 & _ & H2 & _);
    [vm_compute; reflexivity|left|]. exists w1, w2, w3. split; [exact H1|exact H2].
Defined.

Definition demo_disabled : config_manager nat * disk :=
  (Config (JObj [(#"plugins", JObj [(#"enabledPlugins", JArr [JStr #"q"; JStr #"p"]);
                                    (#"p", JObj [(#"config", JObj [(#"a", JInt 1)])])])]) [] [] true, ∅).

Lemma set_plugin_enabled_spec_witness :
  set_plugin_enabled demo_state #"p" false = Ok demo_disabled ∧ is_enabled demo_disabled #"p" = true.
Proof.
  assert (set_plugin_enabled demo_state #"p" false = Ok demo_disabled) as Hs by (vm_compute; reflexivity).
  split; [exact Hs|].
  refine (proj2 (proj2 (proj2 (set_plugin_enabled_spec demo_state demo_disabled #"p" false Hs)) eq_refl) _).
  apply Nat.leb_le. vm_compute. reflexivity.
Defined.

(** [plugin_config::del] is not atomic: a [set] of another key by a
    second thread, between the read and the write of [del], is lost. *)
Theorem del_loses_concurrent_set :
  ∃ (s1 s2 : config_manager nat * disk) config notes,
    del_read demo_state #"p" #"a" = Ok config ∧
    set demo_dump demo_state demo_targets o_lua_child #"p" #"b" (JInt 2) = Ok (s1, success, notes) ∧
    get s1 #"p" #"b" = (true, JInt 2) ∧
    del_write s1 #"p" config = Ok s2 ∧ get s2 #"p" #"b" = (true, JNull).
Proof.
  exists (demo_with [(#"a", JInt 1); (#"b", JInt 2)]), (demo_with []), (JObj []).
  eexists. split_and!; vm_compute; reflexivity.
Qed.
