(* ===== verification/CdpClient.v ===== *)
(** * CdpClient: the debugger client and its thread pool

    Models [src/src/engine/cdp_api.cc] (with the state of
    [include/millennium/cdp_api.h]) and [src/src/engine/thread_pool.cc].

    Requests are completed from several threads, so the request table is a
    step relation: each step is one critical section or one atomic operation,
    and a request taken out of the table by a thread that has yet to complete
    it is recorded as in flight.  A request is named by its number, which
    stands for the shared [async_request].  The event table, the incoming
    queue and message dispatch are functions. *)

From S2P Require Import Prelude Json.

(** ** Requests *)

(** What a promise is given. *)
Inductive completion := Value (j : json) | Exn (what : bytes).

Record async_request := AsyncRequest {
  handle : nat;
  timestamp : Z;
  timeout : Z;
}.

Record requests := Requests {
  m_next_id : Z;
  m_shutdown : bool;
  m_pending_requests : gmap Z async_request;
  promises : gmap nat completion;
  in_flight : list (nat * completion);
  issued : nat;
  drained : bool;
}.

(** [if (!completed.exchange(true)) promise.set_...]: the first completion
    wins. *)
Definition complete (h : nat) (c : completion) (p : gmap nat completion) : gmap nat completion :=
  match p !! h with Some _ => p | None => <[h := c]> p end.

Definition complete_all (hs : list nat) (c : completion) (p : gmap nat completion) : gmap nat completion :=
  foldr (λ h p, complete h c p) p hs.

(** [send_host] up to the registration of the request. *)
Definition send_register (now timeout : Z) (s : requests) : Z * nat * requests :=
  let id := m_next_id s in
  let h := issued s in
  let next := i32 (id + 1) in
  (id, h,
   if m_shutdown s then
     Requests next true (m_pending_requests s) (complete h (Exn #"Client shutdown") (promises s)) (in_flight s) (S h) (drained s)
   else
     Requests next false (<[id := AsyncRequest h now timeout]> (m_pending_requests s)) (promises s) (in_flight s) (S h) (drained s)).

(** [send_host] after [m_sender] returned false. *)
Definition send_failed (id : Z) (h : nat) (s : requests) : requests :=
  Requests (m_next_id s) (m_shutdown s) (delete id (m_pending_requests s))
    (complete h (Exn #"Send failed") (promises s)) (in_flight s) (issued s) (drained s).

(** [process_message] for a response: the request leaves the table, ... *)
Definition take_response (id : Z) (c : completion) (s : requests) : requests :=
  match m_pending_requests s !! id with
  | None => s
  | Some r =>
      Requests (m_next_id s) (m_shutdown s) (delete id (m_pending_requests s)) (promises s)
        (in_flight s ++ [(handle r, c)]) (issued s) (drained s)
  end.

(** ... as do those [cleanup_stale_requests] finds stale, ... *)
Definition stale (now : Z) (r : async_request) : bool := timeout r <? now - timestamp r.

Definition take_stale (now : Z) (s : requests) : requests :=
  let old := (map_to_list (filter (λ x, stale now x.2 = true) (m_pending_requests s))).*2 in
  Requests (m_next_id s) (m_shutdown s) (filter (λ x, stale now x.2 = false) (m_pending_requests s)) (promises s)
    (in_flight s ++ ((λ r, (handle r, Exn #"Request timeout")) <$> old)) (issued s) (drained s).

(** ... and the thread that took it completes it. *)
Definition finish (i : nat) (s : requests) : requests :=
  match in_flight s !! i with
  | None => s
  | Some (h, c) =>
      Requests (m_next_id s) (m_shutdown s) (m_pending_requests s) (complete h c (promises s))
        (delete i (in_flight s)) (issued s) (drained s)
  end.

(** [shutdown]: the flag, then the drain under the lock. *)
Definition set_shutdown (s : requests) : requests :=
  Requests (m_next_id s) true (m_pending_requests s) (promises s) (in_flight s) (issued s) (drained s).

Definition drain (s : requests) : requests :=
  let hs := handle <$> (map_to_list (m_pending_requests s)).*2 in
  Requests (m_next_id s) (m_shutdown s) ∅ (complete_all hs (Exn #"CDPClient shutdown") (promises s))
    (in_flight s) (issued s) true.

(** The id that the [h]-th request is given. *)
Definition id_of (h : nat) : Z := i32 (1 + Z.of_nat h).

Inductive req_step : requests → requests → Prop :=
  | step_send now t s : req_step s (send_register now t s).2
  | step_send_failed h s :
      (* by the thread that registered [h], under the id it was given *)
      (h < issued s)%nat → req_step s (send_failed (id_of h) h s)
  | step_response id c s : req_step s (take_response id c s)
  | step_stale now s : req_step s (take_stale now s)
  | step_finish i s : req_step s (finish i s)
  | step_set_shutdown s : req_step s (set_shutdown s)
  | step_drain s : m_shutdown s = true → req_step s (drain s).

Definition requests_init : requests := Requests 1 false ∅ ∅ [] 0 false.

(** ** Responses *)

(** The completion that [process_message] derives from a response. *)
Definition response_completion (message : json) : completion :=
  match jget #"error" message with
  | Some err =>
      Exn match jget #"message" err with Some (JStr m) => m | _ => #"CDP Error" end
  | None =>
      match jget #"result" message with
      | Some r => Value r
      | None => Exn #"Invalid CDP response"
      end
  end.

(** ** Event listeners *)

Record events (C : Type) := Events {
  m_next_event_token : Z;
  m_event_callbacks : gmap bytes (list (Z * C));
  m_token_to_event : gmap Z bytes;
}.
Arguments Events {_} _ _ _.
Arguments m_next_event_token {_} _.
Arguments m_event_callbacks {_} _.
Arguments m_token_to_event {_} _.

Section events.
  Context {C : Type}.
  Implicit Types ev : events C.

Definition listeners_of (event : bytes) ev : list (Z * C) := default [] (m_event_callbacks ev !! event).

Definition on (shutdown : bool) (event : bytes) (callback : C) ev : Z * events C :=
  let token := m_next_event_token ev in
  let next := i32 (token + 1) in
  (token,
   if shutdown then Events next (m_event_callbacks ev) (m_token_to_event ev)
   else Events next (<[event := listeners_of event ev ++ [(token, callback)]]> (m_event_callbacks ev))
          (<[token := event]> (m_token_to_event ev))).

Definition off (token : Z) ev : events C :=
  match m_token_to_event ev !! token with
  | None => ev
  | Some event =>
      let tokens := delete token (m_token_to_event ev) in
      match m_event_callbacks ev !! event with
      | None => Events (m_next_event_token ev) (m_event_callbacks ev) tokens
      | Some listeners =>
          let rest := List.filter (λ l, negb (l.1 =? token)) listeners in
          Events (m_next_event_token ev)
            (match rest with
             | [] => delete event (m_event_callbacks ev)
             | _ => <[event := rest]> (m_event_callbacks ev)
             end) tokens
      end
  end.

Definition off_all (event : bytes) ev : events C :=
  match m_event_callbacks ev !! event with
  | None => ev
  | Some listeners =>
      Events (m_next_event_token ev) (delete event (m_event_callbacks ev))
        (foldl (λ m l, delete l.1 m) (m_token_to_event ev) listeners)
  end.

Definition events_init : events C := Events 1 ∅ ∅.

(** ** Dispatch of a message *)

(** What [process_message] does with a payload: nothing (shut down, or
    neither a response nor an event), report a parse error, answer a request,
    or enqueue the callbacks of an event on the pool. *)
Inductive action :=
  | Ignore
  | ParseError
  | Respond (id : Z) (c : completion)
  | Dispatch (calls : list (C * json)).

Variable parse_json : bytes → option json.

Definition process_message (shutdown : bool) (payload : bytes) ev : outcome action :=
  if shutdown then Ok Ignore else
  match parse_json payload with
  | None => Ok ParseError
  | Some message =>
      match jget #"id" message with
      | Some (JInt z) => Ok (Respond (i32 z) (response_completion message))
      | _ =>
          match jget #"method" message with
          | Some (JStr method) =>
              let params := default (JObj []) (jget #"params" message) in
              params ← match jget #"sessionId" message with
                       | Some (JStr sid) => set_key #"sessionId" (JStr sid) params
                       | _ => Ok params
                       end;
              Ok (Dispatch ((λ l, (l.2, params)) <$> listeners_of method ev))
          | _ => Ok Ignore
          end
      end
  end.
End events.

(** ** The incoming queue *)

Definition m_incoming_queue_limit : Z := 1000.

(** [handle_message] may enqueue when there is room; [None] means it waits. *)
Definition handle_message (shutdown : bool) (payload : bytes) (q : list bytes) : option (list bytes) :=
  if shutdown then Some q
  else if len q <? m_incoming_queue_limit then Some (q ++ [payload]) else None.

(** The worker takes the oldest payload; empty payloads are skipped. *)
Definition worker_take (q : list bytes) : option bytes * list bytes :=
  match q with
  | [] => (None, [])
  | p :: q => (if bytes_eqb p [] then None else Some p, q)
  end.

(** The loop the worker runs over what is left once the flag is set. *)
Definition process_remaining {C} (parse_json : bytes → option json) (ev : events C) (q : list bytes) : list (outcome action) :=
  (λ p, process_message parse_json true p ev) <$> q.

(** ** The thread pool *)

Record thread_pool (T : Type) := ThreadPool { tasks : list T; stop : bool; shutdown_called : bool }.
Arguments ThreadPool {_} _ _ _.
Arguments tasks {_} _.
Arguments stop {_} _.
Arguments shutdown_called {_} _.

Definition pool_enqueue {T} (f : T) (p : thread_pool T) : thread_pool T :=
  if stop p then p else ThreadPool (tasks p ++ [f]) (stop p) (shutdown_called p).

(** One turn of a worker: the task it runs, or whether it waits or returns. *)
Inductive worker_turn (T : Type) := Wait | Return | Run (t : T).
Arguments Wait {_}.
Arguments Return {_}.
Arguments Run {_} _.

Definition pool_worker {T} (p : thread_pool T) : worker_turn T * thread_pool T :=
  match tasks p with
  | [] => (if stop p then Return else Wait, p)
  | t :: ts => (Run t, ThreadPool ts (stop p) (shutdown_called p))
  end.

Definition pool_shutdown {T} (p : thread_pool T) : thread_pool T :=
  if shutdown_called p then p else ThreadPool [] true true.

(** ** Lemmas on requests *)

Lemma complete_Some h c p : is_Some (complete h c p !! h).
Proof. unfold complete. destruct (p !! h) eqn:E; [by rewrite E|]. by rewrite lookup_insert_eq. Qed.

Lemma complete_mono h h' c c' p : p !! h' = Some c' → complete h c p !! h' = Some c'.
Proof.
  unfold complete. destruct (p !! h) eqn:E; [done|]. intros H. rewrite lookup_insert_ne; [done|]. intros ->. congruence.
Qed.

Lemma complete_all_mono hs c h' c' p : p !! h' = Some c' → complete_all hs c p !! h' = Some c'.
Proof. induction hs as [|h hs IH]; [done|]. intros H. cbn. by apply complete_mono, IH. Qed.

Lemma complete_all_Some hs c p h : h ∈ hs → is_Some (complete_all hs c p !! h).
Proof.
  induction hs as [|h' hs IH]; [by intros ?%not_elem_of_nil|]. intros [->|Hin]%elem_of_cons; cbn; [apply complete_Some|].
  destruct (IH Hin) as [x Hx]. exists x. by apply complete_mono.
Qed.

Lemma i32_succ z : i32 (i32 z + 1) = i32 (z + 1).
Proof.
  unfold i32. f_equal. replace ((z + 2 ^ 31) mod 2 ^ 32 - 2 ^ 31 + 1 + 2 ^ 31) with ((z + 2 ^ 31) mod 2 ^ 32 + 1) by lia.
  rewrite Zplus_mod_idemp_l. f_equal. lia.
Qed.

Lemma id_of_inj h h' : Z.of_nat h < 2 ^ 32 → Z.of_nat h' < 2 ^ 32 → id_of h = id_of h' → h = h'.
Proof.
  unfold id_of, i32. intros H1 H2 E.
  assert ((1 + Z.of_nat h + 2 ^ 31) mod 2 ^ 32 = (1 + Z.of_nat h' + 2 ^ 31) mod 2 ^ 32) as E' by lia.
  pose proof (Z.div_mod (1 + Z.of_nat h + 2 ^ 31) (2 ^ 32) ltac:(lia)).
  pose proof (Z.div_mod (1 + Z.of_nat h' + 2 ^ 31) (2 ^ 32) ltac:(lia)). nia.
Qed.

(** Where a request is. *)
Definition accounted (s : requests) (h : nat) : Prop :=
  is_Some (promises s !! h) ∨ (∃ r, m_pending_requests s !! id_of h = Some r ∧ handle r = h) ∨ ∃ c, (h, c) ∈ in_flight s.

Record req_inv (s : requests) : Prop := {
  inv_next : m_next_id s = id_of (issued s);
  inv_pending id r : m_pending_requests s !! id = Some r → (handle r < issued s)%nat ∧ id = id_of (handle r);
  inv_accounted h : (h < issued s)%nat → accounted s h;
  inv_drained : drained s = true → m_shutdown s = true ∧ m_pending_requests s = ∅;
}.

Lemma req_inv_init : req_inv requests_init.
Proof. split; cbn; try done. intros. lia. Qed.

Lemma req_step_issued s s' : req_step s s' → (issued s <= issued s')%nat.
Proof.
  destruct 1; cbn; try lia.
  - destruct (m_shutdown s); cbn; lia.
  - unfold take_response. destruct (m_pending_requests s !! id); cbn; lia.
  - unfold finish. destruct (in_flight s !! i) as [[]|]; cbn; lia.
Qed.

Lemma req_inv_send now t s : req_inv s → Z.of_nat (issued s) < 2 ^ 32 → req_inv (send_register now t s).2.
Proof.
  intros [Hn Hp Ha Hd] Hb. cbn. assert (i32 (m_next_id s + 1) = id_of (S (issued s))) as Hnext.
  { rewrite Hn. unfold id_of. rewrite i32_succ. f_equal. lia. }
  destruct (m_shutdown s) eqn:Es; split; cbn; try done.
  - intros id r H. apply Hp in H as [? ?]. split; [lia|done].
  - intros h Hh. destruct (decide (h = issued s)) as [->|]; [left; apply complete_Some|].
    destruct (Ha h ltac:(lia)) as [[c Hc]|[?|?]]; [left; exists c; by apply complete_mono|right; by left|right; by right].
  - rewrite Hn. intros id r [[<- <-]|[_ H]]%lookup_insert_Some; cbn; [split; [lia|done]|]. apply Hp in H as [? ?]. split; [lia|done].
  - intros h Hh. rewrite Hn. destruct (decide (h = issued s)) as [->|Hne].
    { right. left. cbn. rewrite lookup_insert_eq. eauto. }
    destruct (Ha h ltac:(lia)) as [?|[(r & Hr & Hrh)|?]]; [by left| |right; by right].
    right. left. exists r. cbn. rewrite lookup_insert_ne; [done|]. intros E%id_of_inj; lia.
  - intros E. apply Hd in E as [? _]. congruence.
Qed.

Lemma req_inv_step s s' : req_inv s → req_step s s' → Z.of_nat (issued s') <= 2 ^ 32 → req_inv s'.
Proof.
  intros Hi Hs Hb. destruct Hs as [now t s|h s Hh|id c s|now s|i s|s|s Hf].
  - apply req_inv_send; [done|]. cbn in Hb. destruct (m_shutdown s); cbn in Hb; lia.
  - destruct Hi as [Hn Hp Ha Hd]. split; cbn; try done.
    + intros id r [_ H]%lookup_delete_Some. eauto.
    + intros h' Hh'. destruct (decide (h' = h)) as [->|Hne]; [left; apply complete_Some|].
      destruct (Ha h' Hh') as [[c Hc]|[(r & Hr & Hrh)|?]]; [left; exists c; by apply complete_mono| |right; by right].
      right. left. exists r. cbn in *. rewrite lookup_delete_ne; [done|]. intros E%id_of_inj; lia.
    + intros E. apply Hd in E as [? ->]. by rewrite delete_empty.
  - unfold take_response in *. destruct (m_pending_requests s !! id) as [r|] eqn:Er; [|done].
    destruct Hi as [Hn Hp Ha Hd]. split; cbn; try done.
    + intros id' r' [_ H]%lookup_delete_Some. eauto.
    + intros h Hh. destruct (Ha h Hh) as [?|[(r' & Hr & Hrh)|[c' ?]]]; [by left| |].
      * right. destruct (decide (id_of h = id)) as [<-|Hne].
        -- right. exists c. apply elem_of_app. right. rewrite Hr in Er. injection Er as <-. rewrite Hrh. left.
        -- left. exists r'. cbn. by rewrite lookup_delete_ne.
      * right. right. exists c'. apply elem_of_app. by left.
    + intros E. apply Hd in E as [? Hemp]. by rewrite Hemp, lookup_empty in Er.
  - destruct Hi as [Hn Hp Ha Hd]. split; cbn; try done.
    + intros id r [H _]%map_lookup_filter_Some. eauto.
    + intros h Hh. destruct (Ha h Hh) as [?|[(r & Hr & Hrh)|[c ?]]]; [by left| |].
      * right. destruct (stale now r) eqn:Est.
        -- right. eexists. apply elem_of_app. right. apply list_elem_of_fmap. exists r. split; [by rewrite Hrh|].
           apply list_elem_of_fmap. exists (id_of h, r). split; [done|]. apply elem_of_map_to_list, map_lookup_filter_Some. done.
        -- left. exists r. split; [|done]. by apply map_lookup_filter_Some.
      * right. right. exists c. apply elem_of_app. by left.
    + intros E. apply Hd in E as [? ->]. split; [done|]. apply map_filter_empty.
  - unfold finish in *. destruct (in_flight s !! i) as [[h c]|] eqn:Ei; [|done].
    destruct Hi as [Hn Hp Ha Hd]. split; cbn; try done. intros h' Hh'.
    destruct (decide (h' = h)) as [->|Hne]; [left; apply complete_Some|].
    destruct (Ha h' Hh') as [[c' Hc]|[?|[c' Hc]]]; [left; exists c'; by apply complete_mono|right; by left|].
    right. right. exists c'. cbn. rewrite delete_take_drop. rewrite <- (take_drop_middle _ _ _ Ei) in Hc.
    apply elem_of_app in Hc as [?|[[= ? ?]|?]%elem_of_cons]; [apply elem_of_app; by left|done|apply elem_of_app; by right].
  - destruct Hi as [Hn Hp Ha Hd]. split; cbn; try done. intros E. by apply Hd in E as [_ ?].
  - destruct Hi as [Hn Hp Ha Hd]. split; cbn; try done. intros h Hh.
    destruct (Ha h Hh) as [[c Hc]|[(r & Hr & Hrh)|?]]; [left; exists c; by apply complete_all_mono| |right; by right].
    left. apply complete_all_Some, list_elem_of_fmap. exists r. split; [done|].
    apply list_elem_of_fmap. exists (id_of h, r). split; [done|]. by apply elem_of_map_to_list.
Qed.

Lemma rtc_issued s s' : rtc req_step s s' → (issued s <= issued s')%nat.
Proof. induction 1 as [|x y z Hxy _ IH]; [lia|]. apply req_step_issued in Hxy. lia. Qed.

Lemma req_inv_reachable s : rtc req_step requests_init s → Z.of_nat (issued s) <= 2 ^ 32 → req_inv s.
Proof.
  intros Hr. assert (∀ a, req_inv a → rtc req_step a s → Z.of_nat (issued s) <= 2 ^ 32 → req_inv s) as H.
  { clear Hr. intros a Ha Hr Hb. induction Hr as [|x y z Hxy Hyz IH]; [done|]. apply IH; [|done].
    eapply req_inv_step; [done|exact Hxy|]. apply rtc_issued in Hyz. lia. }
  exact (H requests_init req_inv_init Hr).
Qed.

Lemma promise_stable s s' h c : req_step s s' → promises s !! h = Some c → promises s' !! h = Some c.
Proof.
  destruct 1; cbn; intros Hp; try done.
  - destruct (m_shutdown s); cbn; [by apply complete_mono|done].
  - by apply complete_mono.
  - unfold take_response. by destruct (m_pending_requests s !! id).
  - unfold finish. destruct (in_flight s !! i) as [[]|]; cbn; [by apply complete_mono|done].
  - by apply complete_all_mono.
Qed.

Lemma promise_stable_rtc s s' h c : rtc req_step s s' → promises s !! h = Some c → promises s' !! h = Some c.
Proof. induction 1 as [|x y z Hxy _ IH]; [done|]. intros H. eapply IH, promise_stable; [exact Hxy|done]. Qed.

(** ** Lemmas on event listeners *)

Section event_lemmas.
  Context {C : Type}.

(** The abstract table: the registrations in force, oldest first. *)
Definition registration : Type := bytes * Z * C.
Definition reg_event (r : registration) : bytes := r.1.1.
Definition reg_token (r : registration) : Z := r.1.2.
#[local] Arguments reg_event : simpl never.
#[local] Arguments reg_token : simpl never.

Inductive event_op := On (event : bytes) (callback : C) | Off (token : Z) | OffAll (event : bytes).

Definition event_step (ev : events C) (o : event_op) : events C :=
  match o with
  | On e cb => (on false e cb ev).2
  | Off t => off t ev
  | OffAll e => off_all e ev
  end.

(** [n] tokens have been given out. *)
Definition spec_step (st : Z * list registration) (o : event_op) : Z * list registration :=
  let '(n, regs) := st in
  match o with
  | On e cb => (n + 1, regs ++ [(e, n + 1, cb)])
  | Off t => (n, List.filter (λ r, negb (reg_token r =? t)) regs)
  | OffAll e => (n, List.filter (λ r, negb (bytes_eqb (reg_event r) e)) regs)
  end.

Definition view (e : bytes) (regs : list registration) : list (Z * C) :=
  (λ r, (reg_token r, r.2)) <$> List.filter (λ r, bytes_eqb (reg_event r) e) regs.

Record event_repr (n : Z) (regs : list registration) (ev : events C) : Prop := {
  er_next : m_next_event_token ev = i32 (n + 1);
  er_view e : listeners_of e ev = view e regs;
  er_some e l : m_event_callbacks ev !! e = Some l → l ≠ [];
  er_token t e : m_token_to_event ev !! t = Some e ↔ ∃ cb, (e, t, cb) ∈ regs;
  er_unique : NoDup (reg_token <$> regs);
  er_range : Forall (λ r, 0 < reg_token r <= n) regs;
}.

Lemma filter_filter_comm {A} (f g : A → bool) l : List.filter f (List.filter g l) = List.filter g (List.filter f l).
Proof. induction l as [|x l IH]; [done|]. simpl. destruct (f x) eqn:Ef, (g x) eqn:Eg; simpl; rewrite ?Ef, ?Eg, ?IH; done. Qed.

Lemma view_off e t regs : view e (List.filter (λ r, negb (reg_token r =? t)) regs) = List.filter (λ l, negb (l.1 =? t)) (view e regs).
Proof.
  unfold view. induction regs as [|r regs IH]; [done|]. simpl.
  destruct (reg_token r =? t) eqn:Et, (bytes_eqb (reg_event r) e) eqn:Ee; simpl; rewrite ?Et, ?Ee; simpl; rewrite ?Et; try exact IH; simpl; f_equal; exact IH.
Qed.

Lemma view_off_all e e' regs :
  view e (List.filter (λ r, negb (bytes_eqb (reg_event r) e')) regs) = if bytes_eqb e e' then [] else view e regs.
Proof.
  unfold view. destruct (bytes_eqb e e') eqn:E3; induction regs as [|r regs IH]; try done; simpl.
  - apply bytes_eqb_true in E3 as <-. destruct (bytes_eqb (reg_event r) e) eqn:E1; simpl; rewrite ?E1; exact IH.
  - destruct (bytes_eqb (reg_event r) e') eqn:E1; simpl; destruct (bytes_eqb (reg_event r) e) eqn:E2; simpl; try exact IH.
    + apply bytes_eqb_true in E1, E2. apply bytes_eqb_false in E3. congruence.
    + f_equal. exact IH.
Qed.

#[local] Arguments reg_event r /.
#[local] Arguments reg_token r /.

Lemma elem_of_view t cb e regs : (t, cb) ∈ view e regs ↔ (e, t, cb) ∈ regs.
Proof.
  unfold view. rewrite list_elem_of_fmap. split.
  - intros ([[e' t'] cb'] & [= -> ->] & [Hin He]%list_elem_of_In%filter_In). apply bytes_eqb_true in He as <-. by apply list_elem_of_In.
  - intros Hin. exists (e, t, cb). split; [done|]. apply list_elem_of_In, filter_In. split; [by apply list_elem_of_In|]. apply bytes_eqb_refl.
Qed.

Lemma elem_of_off x t regs : x ∈ List.filter (λ r, negb (reg_token r =? t)) regs ↔ x ∈ regs ∧ reg_token x ≠ t.
Proof. rewrite !list_elem_of_In, filter_In, negb_true_iff, Z.eqb_neq. done. Qed.

Lemma elem_of_off_all x e regs : x ∈ List.filter (λ r, negb (bytes_eqb (reg_event r) e)) regs ↔ x ∈ regs ∧ reg_event x ≠ e.
Proof. rewrite !list_elem_of_In, filter_In, negb_true_iff, bytes_eqb_false. done. Qed.

Lemma NoDup_filter_tokens (f : registration → bool) regs : NoDup (reg_token <$> regs) → NoDup (reg_token <$> List.filter f regs).
Proof.
  induction regs as [|r regs IH]; [done|]. cbn. intros [Hn Hd]%NoDup_cons. destruct (f r); [|auto].
  cbn. apply NoDup_cons. split; [|auto]. intros (x & Hx & [Hin _]%list_elem_of_In%filter_In)%list_elem_of_fmap.
  apply Hn, list_elem_of_fmap. exists x. split; [done|]. by apply list_elem_of_In.
Qed.

Lemma Forall_filter_regs (P : registration → Prop) f regs : Forall P regs → Forall P (List.filter f regs).
Proof. rewrite !Forall_forall. intros H x [Hin _]%list_elem_of_In%filter_In. by apply H, list_elem_of_In. Qed.

(** A token names one registration. *)
Lemma token_unique n regs ev e e' t cb cb' :
  event_repr n regs ev → (e, t, cb) ∈ regs → (e', t, cb') ∈ regs → e = e'.
Proof.
  intros Hr H1 H2. assert (m_token_to_event ev !! t = Some e) as E1 by (apply (er_token _ _ _ Hr); eauto).
  assert (m_token_to_event ev !! t = Some e') as E2 by (apply (er_token _ _ _ Hr); eauto). congruence.
Qed.

Lemma event_repr_on n regs ev e cb :
  event_repr n regs ev → 0 <= n < INT_MAX → event_repr (n + 1) (regs ++ [(e, n + 1, cb)]) (on false e cb ev).2.
Proof.
  intros [Hn Hv Hs Ht Hu Hr] Hb. unfold INT_MAX in Hb. cbn. rewrite Hn.
  assert (i32 (n + 1) = n + 1) as Hid by (unfold i32; rewrite Z.mod_small by lia; lia). rewrite Hid.
  assert (∀ x, x ∈ regs → reg_token x ≠ n + 1) as Hfresh.
  { intros x Hx E. eapply Forall_forall in Hr; [|exact Hx]. lia. }
  split; cbn.
  - done.
  - intros e'. unfold listeners_of at 1. cbn. unfold view. rewrite List.filter_app, fmap_app. fold (view e' regs). cbn [List.filter].
    change (reg_event (e, n + 1, cb)) with e. destruct (bytes_eqb e e') eqn:E.
    + apply bytes_eqb_true in E as <-. rewrite lookup_insert_eq. cbn. by rewrite Hv.
    + apply bytes_eqb_false in E. rewrite lookup_insert_ne by done. cbn. rewrite app_nil_r. apply Hv.
  - intros e' l [[<- <-]|[_ H]]%lookup_insert_Some; [by destruct (listeners_of e ev)|eauto].
  - intros t e'. rewrite lookup_insert_Some, Ht. setoid_rewrite elem_of_app. setoid_rewrite list_elem_of_singleton. split.
    + intros [[<- <-]|[Hne (cb' & ?)]]; eauto.
    + intros (cb' & [Hin|[= -> -> ->]]); [|by left]. right. split; [|eauto]. intros <-. by apply (Hfresh _ Hin).
  - rewrite fmap_app. apply NoDup_app. split_and!; [done| |apply NoDup_singleton].
    intros t (x & -> & Hx)%list_elem_of_fmap H%list_elem_of_singleton. by apply (Hfresh x Hx).
  - apply Forall_app. split; [eapply Forall_impl; [exact Hr|]; intros x Hx; unfold reg_token in *; cbn in Hx |- *; lia|]. constructor; [unfold reg_token; cbn; lia|constructor].
Qed.

Lemma event_repr_off n regs ev t :
  event_repr n regs ev → event_repr n (List.filter (λ r, negb (reg_token r =? t)) regs) (off t ev).
Proof.
  intros Hrep. pose proof Hrep as [Hn Hv Hs Ht Hu Hr]. unfold off. destruct (m_token_to_event ev !! t) as [e|] eqn:Et.
  2:{ assert (List.filter (λ r, negb (reg_token r =? t)) regs = regs) as ->; [|done].
      assert (∀ r, r ∈ regs → reg_token r ≠ t) as Hne.
      { intros [[e' t'] cb] Hin E. cbn in E. subst t'. assert (m_token_to_event ev !! t = Some e') by (apply Ht; eauto). congruence. }
      clear -Hne. induction regs as [|r regs IH]; [done|]. simpl. rewrite (proj2 (Z.eqb_neq _ _)) by (apply Hne; left). simpl.
      f_equal. apply IH. intros x Hx. apply Hne. by right. }
  pose proof (proj1 (Ht t e) Et) as [cb Hin].
  assert (∀ e', e' ≠ e → List.filter (λ l, negb (l.1 =? t)) (view e' regs) = view e' regs) as Hother.
  { intros e' Hne. rewrite <- view_off. unfold view. f_equal. rewrite filter_filter_comm.
    assert (∀ r, r ∈ List.filter (λ r, bytes_eqb (reg_event r) e') regs → reg_token r ≠ t) as Hnt.
    { intros [[e2 t2] cb2] [Hi He]%list_elem_of_In%filter_In E. cbn in *. subst t2. apply bytes_eqb_true in He as ->.
      apply Hne. apply list_elem_of_In in Hi. eapply token_unique; [exact Hrep|exact Hi|exact Hin]. }
    induction (List.filter (λ r, bytes_eqb (reg_event r) e') regs) as [|r l IH]; [done|]. simpl.
    rewrite (proj2 (Z.eqb_neq _ _)) by (apply Hnt; left). simpl. f_equal. apply IH. intros x Hx. apply Hnt. by right. }
  assert (m_event_callbacks ev !! e = Some (view e regs)) as Hl.
  { pose proof (Hv e) as Hve. unfold listeners_of in Hve. destruct (m_event_callbacks ev !! e) as [l|]; cbn in Hve; [by rewrite Hve|].
    apply elem_of_view in Hin. rewrite <- Hve in Hin. by apply not_elem_of_nil in Hin. }
  rewrite Hl. split; [done|..].
  - intros e'. rewrite view_off. destruct (decide (e' = e)) as [->|Hne].
    + unfold listeners_of. cbn. destruct (List.filter _ (view e regs)) as [|x l] eqn:Ef; by rewrite ?lookup_delete_eq, ?lookup_insert_eq.
    + rewrite (Hother e' Hne), <- (Hv e'). unfold listeners_of. cbn.
      destruct (List.filter _ (view e regs)); by rewrite ?lookup_delete_ne, ?lookup_insert_ne.
  - cbn. intros e' l. destruct (List.filter _ (view e regs)) eqn:Ef.
    + intros [_ H]%lookup_delete_Some. eauto.
    + intros [[_ <-]|[_ H]]%lookup_insert_Some; [done|eauto].
  - cbn. intros t' e'. rewrite lookup_delete_Some, Ht. setoid_rewrite elem_of_off. cbn. split.
    + intros [Hne (cb' & ?)]. exists cb'. split; [done|]. congruence.
    + intros (cb' & ? & Hne). split; [congruence|eauto].
  - by apply NoDup_filter_tokens.
  - by apply Forall_filter_regs.
Qed.

Lemma delete_tokens (l : list (Z * C)) (m : gmap Z bytes) t e :
  foldl (λ m x, delete x.1 m) m l !! t = Some e ↔ m !! t = Some e ∧ t ∉ l.*1.
Proof.
  revert m. induction l as [|x l IH]; intros m; cbn; [rewrite elem_of_nil; naive_solver|].
  rewrite IH, lookup_delete_Some, not_elem_of_cons. naive_solver.
Qed.

Lemma event_repr_off_all n regs ev e :
  event_repr n regs ev → event_repr n (List.filter (λ r, negb (bytes_eqb (reg_event r) e)) regs) (off_all e ev).
Proof.
  intros Hrep. pose proof Hrep as [Hn Hv Hs Ht Hu Hr]. unfold off_all.
  pose proof (Hv e) as Hve. unfold listeners_of in Hve. destruct (m_event_callbacks ev !! e) as [l|] eqn:El; cbn in Hve.
  - subst l. split; [done|..].
    + intros e'. rewrite view_off_all. unfold listeners_of. cbn. destruct (bytes_eqb e' e) eqn:E.
      * apply bytes_eqb_true in E as ->. by rewrite lookup_delete_eq.
      * apply bytes_eqb_false in E. rewrite lookup_delete_ne by done. apply Hv.
    + cbn. intros e' l [_ H]%lookup_delete_Some. eauto.
    + cbn. intros t e'. rewrite delete_tokens, Ht. setoid_rewrite elem_of_off_all. cbn. split.
      * intros [(cb & Hin) Hnt]. exists cb. split; [done|]. intros ->. apply Hnt, list_elem_of_fmap. exists (t, cb).
        split; [done|]. by apply elem_of_view.
      * intros (cb & Hin & Hne). split; [eauto|]. intros ([t2 cb2] & -> & Hin2%elem_of_view)%list_elem_of_fmap. cbn in *.
        apply Hne. eapply token_unique; [exact Hrep|exact Hin|exact Hin2].
    + by apply NoDup_filter_tokens.
    + by apply Forall_filter_regs.
  - assert (List.filter (λ r, negb (bytes_eqb (reg_event r) e)) regs = regs) as ->; [|done].
    assert (∀ r, r ∈ regs → reg_event r ≠ e) as Hne.
    { intros [[e' t'] cb] Hin E. cbn in E. subst e'. apply elem_of_view in Hin. rewrite <- Hve in Hin. by apply not_elem_of_nil in Hin. }
    clear -Hne. induction regs as [|r regs IH]; [done|]. simpl. rewrite (proj2 (bytes_eqb_false _ _)) by (apply Hne; left). simpl.
    f_equal. apply IH. intros x Hx. apply Hne. by right.
Qed.

Definition ons (ops : list event_op) : Z := len (List.filter (λ o, match o with On _ _ => true | _ => false end) ops).

Lemma event_run_repr ops : ∀ n regs ev,
  event_repr n regs ev → 0 <= n → n + ons ops <= INT_MAX →
  event_repr (foldl spec_step (n, regs) ops).1 (foldl spec_step (n, regs) ops).2 (foldl event_step ev ops).
Proof.
  induction ops as [|o ops IH]; intros n regs ev Hr Hn Hb; [done|]. cbn [foldl].
  assert (0 <= ons ops) by apply len_nonneg. destruct o as [e cb|t|e]; cbn [event_step spec_step].
  - assert (ons (On e cb :: ops) = 1 + ons ops) as Ho by (unfold ons, len; simpl; lia).
    apply IH; [apply event_repr_on; [done|lia]|lia|lia].
  - apply IH; [by apply event_repr_off|done|done].
  - apply IH; [by apply event_repr_off_all|done|done].
Qed.

Lemma event_repr_init : event_repr 0 [] (events_init (C := C)).
Proof.
  split; cbn; try done; [|apply NoDup_nil_2].
  intros t e. rewrite lookup_empty. setoid_rewrite elem_of_nil. naive_solver.
Qed.
End event_lemmas.

(** ** Waking the worker at shutdown

    The worker holds [m_incoming_mutex] while it evaluates the predicate of
    [m_incoming_cv.wait] and until it sleeps; [shutdown] sets the flag and
    notifies without that mutex, then joins.  The queue is empty and no
    message arrives. *)
Inductive worker_state := Checking | Deciding_to_wait | Asleep | Exited.
Inductive shutdown_state := Start | FlagSet | Joining | Joined.

Inductive wake_step : worker_state * shutdown_state → worker_state * shutdown_state → Prop :=
  | wake_check_running : wake_step (Checking, Start) (Deciding_to_wait, Start)
  | wake_check_flag st : st ≠ Start → wake_step (Checking, st) (Exited, st)
  | wake_sleep st : wake_step (Deciding_to_wait, st) (Asleep, st)
  | wake_set_flag w : wake_step (w, Start) (w, FlagSet)
  | wake_notify w : wake_step (w, FlagSet) (match w with Asleep => Checking | w => w end, Joining)
  | wake_join : wake_step (Exited, Joining) (Exited, Joined).

(** ** Properties *)

(** C29: every request is completed exactly once.  Whatever the interleaving
    of senders, responses, timeouts, send failures and shutdown (up to
    [2 ^ 32] requests, after which ids repeat), each issued request has its
    result, waits in the table under its own id, or is held by the thread
    that is about to complete it; a result never changes; and once shutdown
    has drained the table and those threads are done, no future is left
    without a result, not even one whose [send] raced with the shutdown. *)
Theorem cdp_requests_completed s :
  rtc req_step requests_init s → Z.of_nat (issued s) <= 2 ^ 32 →
  (∀ h, (h < issued s)%nat → accounted s h) ∧
  (∀ s' h c, rtc req_step s s' → promises s !! h = Some c → promises s' !! h = Some c) ∧
  (drained s = true → in_flight s = [] → ∀ h, (h < issued s)%nat → is_Some (promises s !! h)).
Proof.
  intros Hr Hb. pose proof (req_inv_reachable s Hr Hb) as [Hn Hp Ha Hd]. split_and!; [done|..].
  - intros s' h c. apply promise_stable_rtc.
  - intros E1 E2 h Hh. destruct (Ha h Hh) as [?|[(r & Hr' & _)|[c Hc]]]; [done| |].
    + apply Hd in E1 as [_ Hemp]. by rewrite Hemp, lookup_empty in Hr'.
    + rewrite E2 in Hc. by apply not_elem_of_nil in Hc.
Qed.

Lemma cdp_requests_completed_witness :
  let s := drain (set_shutdown (send_register 0 30 requests_init).2) in
  is_Some (promises s !! 0%nat).
Proof.
  refine (proj2 (proj2 (cdp_requests_completed
    (drain (set_shutdown (send_register 0 30 requests_init).2)) _ _)) eq_refl eq_refl 0%nat ltac:(cbn; lia)).
  - eapply rtc_l; [apply (step_send 0 30)|]. eapply rtc_l; [apply step_set_shutdown|]. eapply rtc_l; [by apply step_drain|]. apply rtc_refl.
  - cbn. lia.
Defined.

(** The event table refines a flat list of registrations: after any
    sequence of [on], [off] and [off_all] with fewer than [2 ^ 31] listeners,
    the listeners of an event are the registrations of that event still in
    force, in the order of registration; [off] removes exactly the listener
    of its token and [off_all] exactly those of its event. *)
Theorem event_table_refines {C} (ops : list (@event_op C)) :
  ons ops <= INT_MAX →
  let ev := foldl event_step events_init ops in
  let '(n, regs) := foldl spec_step (0, []) ops in
  (∀ e, listeners_of e ev = view e regs) ∧
  (∀ t e, m_token_to_event ev !! t = Some e ↔ ∃ cb, (e, t, cb) ∈ regs) ∧
  NoDup (reg_token <$> regs).
Proof.
  intros Hb ev. pose proof (event_run_repr ops 0 [] events_init event_repr_init ltac:(lia) ltac:(lia)) as Hr.
  fold ev in Hr. destruct (foldl spec_step (0, []) ops) as [n regs].
  destruct Hr as [_ Hv _ Ht Hu _]. split_and!; [exact Hv|exact Ht|exact Hu].
Qed.

Lemma event_table_refines_witness :
  let ev := foldl event_step events_init [On #"a" 1%nat; On #"b" 2%nat; On #"a" 3%nat; Off 1] in
  listeners_of #"a" ev = [(3, 3%nat)].
Proof.
  refine (proj1 (event_table_refines [On #"a" 1%nat; On #"b" 2%nat; On #"a" 3%nat; Off 1] _) #"a").
  vm_compute. discriminate.
Defined.

(** What the worker finds in the queue after the shutdown flag is set is
    dropped: [process_message] returns at once, although the loop is meant to
    process the remaining messages. *)
Theorem remaining_messages_dropped {C} parse_json (ev : events C) q :
  process_remaining parse_json ev q = (λ _, Ok Ignore) <$> q.
Proof. done. Qed.

(** Shutdown can hang: the worker evaluates its predicate before the flag
    is set and sleeps after the notification, and [shutdown] then waits for it
    for ever. *)
Theorem shutdown_can_hang :
  ∃ s, rtc wake_step (Checking, Start) s ∧ s.2 = Joining ∧ ∀ s', ¬ wake_step s s'.
Proof.
  exists (Asleep, Joining). split_and!; [|done|].
  - eapply rtc_l; [apply wake_check_running|]. eapply rtc_l; [apply wake_set_flag|].
    eapply rtc_l; [apply (wake_notify Deciding_to_wait)|]. eapply rtc_l; [apply wake_sleep|]. apply rtc_refl.
  - intros s' Hs. inversion Hs.
Qed.

(** The pool runs tasks in the order they were enqueued, and a task enqueued
    after [shutdown] is refused. *)
Lemma pool_fifo {T} (t u : T) (p : thread_pool T) :
  stop p = false → shutdown_called p = false → tasks p = [] →
  (pool_worker (pool_enqueue u (pool_enqueue t p))).1 = Run t ∧
  tasks (pool_enqueue u (pool_shutdown p)) = [].
Proof.
  intros Hs Hc Ht. unfold pool_enqueue, pool_worker, pool_shutdown. rewrite Hs, Ht, Hc. cbn. done.
Qed.
