(* ===== verification/Rpc.v ===== *)
(** * Rpc: the plugin process's side of the plugin channel

    [lua_host/rpc.cc]: a plugin's Lua process sends requests to Millennium and
    waits for their responses; while it waits, it serves requests that come in
    (whose handlers may wait for requests of their own), puts notifications
    aside, and keeps responses that belong to an outer wait.  The Lua code is
    a tree of its calls into the client; every theorem holds for all such
    code. *)

From S2P Require Import Prelude State Json Frames.

(** What Lua code does with the client until it returns or raises: a call
    waits for its result (or the text of the exception it threw); a coroutine
    is a program to resume later. *)
Inductive prog : Type :=
  | Return (result : json)
  | Raise (what : bytes)
  | Call (method : bytes) (params : json) (k : json + bytes → prog)
  | Notify (method : bytes) (params : json) (k : prog)
  | Enqueue (co : prog) (k : prog)
  | Watch (fd : Z) (co : prog) (k : prog).

(** The client, its socket ([inbox], [outlet], the bytes on the [wire]), and
    what was observed: messages received, sent, and those whose write failed, and
    the notifications handed to the handler, in order. *)
Record rpc_client := RpcClient {
  m_connected : bool;
  m_next_id : Z;
  m_handler : option (bytes → json → prog);
  m_stashed_responses : gmap Z json;
  m_deferred_notifications : list json;
  m_pending_coroutines : list prog;
  m_fd_watches : gmap Z prog;
  inbox : list recv_event;
  outlet : list send_event;
  wire : bytes;
  received : list json;
  sent : list json;
  unsent : list json;
  dispatched : list json;
}.

Definition set_connected (b : bool) (s : rpc_client) : rpc_client :=
  let 'RpcClient _ n h st d p w i o wi r se us di := s in RpcClient b n h st d p w i o wi r se us di.
Definition set_next_id (n : Z) (s : rpc_client) : rpc_client :=
  let 'RpcClient c _ h st d p w i o wi r se us di := s in RpcClient c n h st d p w i o wi r se us di.
Definition set_handler (h : bytes → json → prog) (s : rpc_client) : rpc_client :=
  let 'RpcClient c n _ st d p w i o wi r se us di := s in RpcClient c n (Some h) st d p w i o wi r se us di.
Definition set_stashed (f : gmap Z json → gmap Z json) (s : rpc_client) : rpc_client :=
  let 'RpcClient c n h st d p w i o wi r se us di := s in RpcClient c n h (f st) d p w i o wi r se us di.
Definition set_deferred (f : list json → list json) (s : rpc_client) : rpc_client :=
  let 'RpcClient c n h st d p w i o wi r se us di := s in RpcClient c n h st (f d) p w i o wi r se us di.
Definition set_pending (f : list prog → list prog) (s : rpc_client) : rpc_client :=
  let 'RpcClient c n h st d p w i o wi r se us di := s in RpcClient c n h st d (f p) w i o wi r se us di.
Definition set_watches (f : gmap Z prog → gmap Z prog) (s : rpc_client) : rpc_client :=
  let 'RpcClient c n h st d p w i o wi r se us di := s in RpcClient c n h st d p (f w) i o wi r se us di.
Definition set_received (i : list recv_event) (msg : json) (s : rpc_client) : rpc_client :=
  let 'RpcClient c n h st d p w _ o wi r se us di := s in RpcClient c n h st d p w i o wi (r ++ [msg]) se us di.
Definition set_sent (ok : bool) (o : list send_event) (out : bytes) (msg : json) (s : rpc_client) : rpc_client :=
  let 'RpcClient c n h st d p w i _ wi r se us di := s in
  RpcClient c n h st d p w i o (wi ++ out) r (if ok then se ++ [msg] else se) (if ok then us else us ++ [msg]) di.
Definition set_dispatched (msg : json) (s : rpc_client) : rpc_client :=
  let 'RpcClient c n h st d p w i o wi r se us di := s in RpcClient c n h st d p w i o wi r se us (di ++ [msg]).

Definition TYPE_REQUEST : bytes := #"req".
Definition TYPE_RESPONSE : bytes := #"res".
Definition TYPE_NOTIFY : bytes := #"notify".

Definition rpc_new (i : list recv_event) (o : list send_event) : rpc_client :=
  RpcClient true 1 None ∅ [] [] ∅ i o [] [] [] [] [].

(** The messages. *)
Definition request_msg (id : Z) (method : bytes) (params : json) : json :=
  jobj [(#"type", JStr TYPE_REQUEST); (#"id", JInt id); (#"method", JStr method); (#"params", params)].
Definition notify_msg (method : bytes) (params : json) : json :=
  jobj [(#"type", JStr TYPE_NOTIFY); (#"method", JStr method); (#"params", params)].
Definition result_msg (id : Z) (result : json) : json :=
  jobj [(#"type", JStr TYPE_RESPONSE); (#"id", JInt id); (#"result", result)].
Definition error_msg (id : Z) (error : bytes) : json :=
  jobj [(#"type", JStr TYPE_RESPONSE); (#"id", JInt id); (#"error", JStr error)].

(** What a response gives its caller: its error is thrown, else its result. *)
Definition response_result (resp : json) : outcome json :=
  if contains #"error" resp then e ← idx #"error" resp; what ← get_string e; Throw what
  else value_json #"result" JNull resp.

Section client.
  Variable to_msgpack : json → bytes.
  Variable from_msgpack : bytes → option json.
  (** [json::dump], which throws on text that is not UTF-8. *)
  Variable dump : json → outcome bytes.

Definition read_message : SM rpc_client (option json) := λ s,
  match read_msg from_msgpack (inbox s) with
  | Some (msg, i) => (Ok (Some msg), set_received i msg s)
  | None => (Ok None, set_connected false s)
  end.

Definition send_message (msg : json) : SM rpc_client bool := λ s,
  let '(ok, out, o) := write_msg to_msgpack msg (outlet s) in
  (Ok ok, (if ok : bool then id else set_connected false) (set_sent ok o out msg s)).

Definition notify (method : bytes) (params : json) : SM rpc_client () := _ ← send_message (notify_msg method params); mret tt.
Definition respond (id : Z) (result : json) : SM rpc_client () := _ ← send_message (result_msg id result); mret tt.
Definition respond_error (id : Z) (error : bytes) : SM rpc_client () := _ ← send_message (error_msg id error); mret tt.
Definition enqueue_coroutine (co : prog) : SM rpc_client () := modify (set_pending (λ p, p ++ [co])).
Definition watch_fd (fd : Z) (co : prog) : SM rpc_client () := modify (set_watches (insert fd co)).

(** Lua code runs its calls through the client. *)
Fixpoint exec (call : bytes → json → SM rpc_client json) (p : prog) : SM rpc_client json :=
  match p with
  | Return result => mret result
  | Raise what => lift (Throw what)
  | Call method params k => r ← attempt (call method params); exec call (k r)
  | Notify method params k => _ ← notify method params; exec call k
  | Enqueue co k => _ ← enqueue_coroutine co; exec call k
  | Watch fd co k => _ ← watch_fd fd co; exec call k
  end.

(** [try { respond(id, handler(..)) } catch (e) { respond_error(id, e.what()) }] *)
Definition answer (id : Z) (m : SM rpc_client json) : SM rpc_client () :=
  catching (r ← m; respond id r) (respond_error id).

(** Serving a request, in either loop. *)
Definition serve (callf : bytes → json → SM rpc_client json) (h : bytes → json → prog) (msg : json) : SM rpc_client () :=
  req_id ← lift (value_int #"id" (-1) msg);
  method ← lift (value_string #"method" [] msg);
  params ← lift (value_json #"params" JNull msg);
  answer req_id (exec callf (h method params)).

(** [call]: the request, then the loop that waits for its response. *)
Definition call_with (wait : Z → SM rpc_client json) (method : bytes) (params : json) : SM rpc_client json :=
  connected ← gets m_connected;
  if negb connected then lift (Throw #"rpc_client: not connected") else
  id ← gets m_next_id;
  _ ← modify (set_next_id (i32 (id + 1)));
  ok ← send_message (request_msg id method params);
  if negb ok then lift (Throw #"rpc_client: failed to send request") else wait id.

Fixpoint wait_response (fuel : nat) (id : Z) : SM rpc_client json :=
  match fuel with
  | O => lift NoFuel
  | S fuel =>
      connected ← gets m_connected;
      if negb connected then lift (Throw #"rpc_client: disconnected") else
      stashed ← gets (λ s, m_stashed_responses s !! id);
      match stashed with
      | Some resp => _ ← modify (set_stashed (delete id)); lift (response_result resp)
      | None =>
          m ← read_message;
          match m with
          | None => lift (Throw #"rpc_client: disconnected while waiting for response")
          | Some msg =>
              type ← lift (value_string #"type" [] msg);
              handler ← gets m_handler;
              if bytes_eqb type TYPE_RESPONSE then
                resp_id ← lift (value_int #"id" (-1) msg);
                if resp_id =? id then lift (response_result msg)
                else _ ← modify (set_stashed (insert resp_id msg)); wait_response fuel id
              else if bytes_eqb type TYPE_NOTIFY then
                _ ← modify (set_deferred (λ d, d ++ [msg])); wait_response fuel id
              else match (if bytes_eqb type TYPE_REQUEST then handler else None) with
              | Some h =>
                  _ ← serve (call_with (wait_response fuel)) h msg;
                  wait_response fuel id
              | None => _ ← lift (dump msg); wait_response fuel id
              end
          end
      end
  end.

Definition call (fuel : nat) : bytes → json → SM rpc_client json := call_with (wait_response fuel).

(** [resume_coroutine]: an error of the coroutine is logged. *)
Definition resume_coroutine (fuel : nat) (co : prog) : SM rpc_client () :=
  swallow (_ ← exec (call fuel) co; mret tt).

Definition dispatch_notification (fuel : nat) (h : bytes → json → prog) (notif : json) : SM rpc_client () :=
  _ ← modify (set_dispatched notif);
  swallow (method ← lift (value_string #"method" [] notif);
           params ← lift (value_json #"params" JNull notif);
           _ ← exec (call fuel) (h method params); mret tt).

Fixpoint drain_deferred (n : nat) (fuel : nat) (h : bytes → json → prog) : SM rpc_client () :=
  match n with
  | O => lift NoFuel
  | S n =>
      batch ← gets m_deferred_notifications;
      match batch with
      | [] => mret tt
      | _ =>
          _ ← modify (set_deferred (λ _, []));
          _ ← for_each (dispatch_notification fuel h) batch;
          drain_deferred n fuel h
      end
  end.

Fixpoint drain_pending_coroutines (n : nat) (fuel : nat) : SM rpc_client () :=
  match n with
  | O => lift NoFuel
  | S n =>
      batch ← gets m_pending_coroutines;
      match batch with
      | [] => mret tt
      | _ =>
          _ ← modify (set_pending (λ _, []));
          _ ← for_each (resume_coroutine fuel) batch;
          drain_pending_coroutines n fuel
      end
  end.

(** What [poll] reports: an error; or for the channel whether it is readable
    and whether it hung up, and the watched descriptors that are readable. *)
Inductive poll_result := PollError | Ready (pollin hup : bool) (readable : list Z).

Definition resume_watched (fuel : nat) (fd : Z) : SM rpc_client () :=
  co ← gets (λ s, m_fd_watches s !! fd);
  match co with
  | Some co => _ ← modify (set_watches (delete fd)); resume_coroutine fuel co
  | None => mret tt
  end.

(** One message of the main loop; [false] ends the loop. *)
Definition serve_message (n fuel : nat) (h : bytes → json → prog) : SM rpc_client bool :=
  m ← read_message;
  match m with
  | None => mret false
  | Some msg =>
      type ← lift (value_string #"type" [] msg);
      _ ← (if bytes_eqb type TYPE_REQUEST then serve (call fuel) h msg
           else if bytes_eqb type TYPE_NOTIFY then dispatch_notification fuel h msg
           else mret tt);
      _ ← drain_deferred n fuel h;
      _ ← drain_pending_coroutines n fuel;
      mret true
  end.

(** [run]: one turn of the loop for each result of [poll]. *)
Fixpoint run_loop (n fuel : nat) (h : bytes → json → prog) (polls : list poll_result) : SM rpc_client () :=
  match polls with
  | [] => mret tt
  | p :: polls =>
      connected ← gets m_connected;
      if negb connected then mret tt else
      _ ← drain_pending_coroutines n fuel;
      watched ← gets m_fd_watches;
      match p with
      | PollError => mret tt
      | Ready pollin hup readable =>
          _ ← for_each (resume_watched fuel) (List.filter (λ fd, bool_decide (is_Some (watched !! fd))) readable);
          if hup then mret tt else
          if negb pollin then _ ← drain_pending_coroutines n fuel; run_loop n fuel h polls else
          continue ← serve_message n fuel h;
          if continue : bool then run_loop n fuel h polls else mret tt
      end
  end.
Definition run (n fuel : nat) (h : bytes → json → prog) (polls : list poll_result) : SM rpc_client () :=
  _ ← modify (set_handler h); run_loop n fuel h polls.
End client.

(** ** What a conversation consists of *)

(** A message is a response to request [id]. *)
Definition is_response (id : Z) (msg : json) : Prop :=
  value_string #"type" [] msg = Ok TYPE_RESPONSE ∧ value_int #"id" (-1) msg = Ok id.

(** The request a message holds, read the way both loops read it. *)
Definition parse_request (msg : json) : outcome (Z * bytes * json) :=
  type ← value_string #"type" [] msg;
  if bytes_eqb type TYPE_REQUEST then
    id ← value_int #"id" (-1) msg; method ← value_string #"method" [] msg; params ← value_json #"params" JNull msg;
    Ok (id, method, params)
  else Throw [].
Definition request_id (msg : json) : option Z := match parse_request msg with Ok (id, _, _) => Some id | _ => None end.

Definition is_notification (msg : json) : bool :=
  match value_string #"type" [] msg with Ok t => bytes_eqb t TYPE_NOTIFY | _ => false end.

(** The request a message of our own answers. *)
Definition answered_id (msg : json) : option Z :=
  match value_string #"type" [] msg, jget #"id" msg with
  | Ok t, Some (JInt id) => if bytes_eqb t TYPE_RESPONSE then Some id else None
  | _, _ => None
  end.

Definition stash_ok (s : rpc_client) : Prop :=
  ∀ id msg, m_stashed_responses s !! id = Some msg → msg ∈ received s ∧ is_response id msg.

(** What a run has put on the wire: the frames of the messages it sent, and
    nothing else unless a write failed, which ends the connection. *)
Definition writes (to_msgpack : json → bytes) (ss us : list json) (s s' : rpc_client) : Prop :=
  sent s' = sent s ++ ss ∧ unsent s' = unsent s ++ us ∧ (m_connected s' = true → m_connected s = true ∧ us = []) ∧
  (us = [] → wire s' = wire s ++ concat (map (λ msg, frame (to_msgpack msg)) ss)).

(** A run that starts owing the messages [owed] (read, not yet dealt with) and
    ends owing nothing: every request is answered once, every notification is
    handed to the handler once or still kept for it. *)
Record settles (to_msgpack : json → bytes) (owed : list json) (s s' : rpc_client) : Prop := {
  settles_handler : m_handler s' = m_handler s;
  settles_log : ∃ rs ss us ds,
    received s' = received s ++ rs ∧ writes to_msgpack ss us s s' ∧ dispatched s' = dispatched s ++ ds ∧
    (is_Some (m_handler s) →
     omap request_id (owed ++ rs) ≡ₚ omap answered_id (ss ++ us) ∧
     List.filter is_notification (owed ++ rs) ++ m_deferred_notifications s ≡ₚ ds ++ m_deferred_notifications s');
  settles_stash : Forall (λ msg, msg ∈ received s) owed → stash_ok s → stash_ok s';
}.

(** A message the loops can read: its fields have the types they ask for, and
    an unexpected message can be printed. *)
Definition well_formed (dump : json → outcome bytes) (msg : json) : bool :=
  match value_string #"type" [] msg with
  | Ok t =>
      if bytes_eqb t TYPE_RESPONSE then is_ok (value_int #"id" (-1) msg)
      else if bytes_eqb t TYPE_NOTIFY then true
      else is_ok (dump msg) && (negb (bytes_eqb t TYPE_REQUEST) || is_ok (parse_request msg))
  | _ => false
  end.

(** How a call with request [id] can end: with the response to it, with the
    link down, or on a message that cannot be read. *)
Definition call_outcome (dump : json → outcome bytes) (id : Z) (r : outcome json * rpc_client) : Prop :=
  (∃ msg, msg ∈ received r.2 ∧ is_response id msg ∧ r.1 = response_result msg) ∨
  m_connected r.2 = false ∨
  (∃ msg, msg ∈ received r.2 ∧ well_formed dump msg = false).

Section lemmas.
  Variable to_msgpack : json → bytes.
  Variable from_msgpack : bytes → option json.
  Variable dump : json → outcome bytes.
  Abbreviation read_message := (read_message from_msgpack).
  Abbreviation send_message := (send_message to_msgpack).
  Abbreviation wait_response := (wait_response to_msgpack from_msgpack dump).
  Abbreviation exec := (exec to_msgpack).
  Abbreviation answer := (answer to_msgpack).
  Abbreviation call_with := (call_with to_msgpack).
  Abbreviation call := (call to_msgpack from_msgpack dump).
  Abbreviation serve := (serve to_msgpack).
  Abbreviation settles := (settles to_msgpack).
  Abbreviation writes := (writes to_msgpack).

(** ** Waiting ends *)

(** From a socket with less than [n] to read, the code ends, and leaves no
    more to read than there was. *)
Definition ends {A} (n : nat) (m : SM rpc_client A) : Prop :=
  ∀ s, (size (inbox s) < n)%nat → fueled (m s).1 ∧ (size (inbox (m s).2) <= size (inbox s))%nat.

Lemma ends_lift {A} n (o : outcome A) : fueled o → ends n (lift o).
Proof. intros H s _. done. Qed.
Lemma ends_ret {A} n (a : A) : ends n (mret a).
Proof. intros s _. done. Qed.
Lemma ends_gets {A} n (f : rpc_client → A) : ends n (gets f).
Proof. intros s _. done. Qed.
Lemma ends_modify n f : (∀ s, inbox (f s) = inbox s) → ends n (modify f).
Proof. intros H s _. cbn. by rewrite H. Qed.

Lemma ends_bind {A B} n (m : SM rpc_client A) (f : A → SM rpc_client B) : ends n m → (∀ a, ends n (f a)) → ends n (m ≫= f).
Proof.
  intros Hm Hf s Hs. destruct (Hm s Hs) as [H1 H2]. rewrite bind_run.
  destruct (m s) as [[a|e| |] s'] eqn:E; cbn [fst snd] in *; try done.
  destruct (Hf a s'); [lia|]. split; [done|lia].
Qed.

Lemma ends_catching {A} n (m : SM rpc_client A) h : ends n m → (∀ e, ends n (h e)) → ends n (catching m h).
Proof.
  intros Hm Hh s Hs. destruct (Hm s Hs) as [H1 H2]. unfold catching.
  destruct (m s) as [[a|e| |] s'] eqn:E; cbn [fst snd] in *; try done.
  destruct (Hh e s'); [lia|]. split; [done|lia].
Qed.

Lemma ends_swallow n (m : SM rpc_client ()) : ends n m → ends n (swallow m).
Proof.
  intros Hm s Hs. destruct (Hm s Hs) as [H1 H2]. unfold swallow. by destruct (m s) as [[a|e| |] s'].
Qed.

(** Reading a message uses up some of the socket. *)
Lemma ends_read {A} n (f : option json → SM rpc_client A) :
  ends (S n) (f None) → (∀ msg, ends n (f (Some msg))) → ends (S n) (read_message ≫= f).
Proof.
  intros HN HS s Hs. rewrite bind_run. unfold read_message, read_msg.
  destruct (read_frame _ _ _) as [[buf i]|] eqn:E; cbn [mbind option_bind].
  - apply read_frame_sound in E as (_ & _ & Hi & _). destruct (from_msgpack buf) as [msg|].
    + destruct (HS msg (set_received i msg s)) as [H1 H2]; [destruct s; cbn in *; lia|].
      split; [done|]. destruct s; cbn in *. lia.
    + destruct (HN (set_connected false s)) as [H1 H2]; [by destruct s|]. split; [done|]. by destruct s.
  - destruct (HN (set_connected false s)) as [H1 H2]; [by destruct s|]. split; [done|]. by destruct s.
Qed.

Lemma ends_send n msg : ends n (send_message msg).
Proof. intros s _. unfold send_message. destruct (write_msg _ _ _) as [[[] out] o]; by destruct s. Qed.

Lemma fueled_response_result j : fueled (response_result j).
Proof. unfold response_result. fueled. Qed.

Create HintDb ends.
#[local] Hint Resolve ends_ret ends_gets ends_send : ends.
#[local] Hint Resolve fueled_response_result : fueled.
Ltac ends := repeat first
  [ progress intros
  | solve [eauto with ends]
  | apply ends_lift; solve [fueled]
  | apply ends_modify; by intros []
  | apply ends_catching
  | apply ends_swallow
  | apply ends_bind
  | match goal with |- ends _ (match ?x with _ => _ end) => destruct x end
  | match goal with |- ends _ (if ?x then _ else _) => destruct x end
  | progress unfold attempt, serve, answer, respond, respond_error, notify, enqueue_coroutine, watch_fd ].

Lemma ends_exec n callf p : (∀ m a, ends n (callf m a)) → ends n (exec callf p).
Proof. intros Hc. induction p; cbn [Rpc.exec]; ends. Qed.

Lemma ends_call_with n wait m a : (∀ id, ends n (wait id)) → ends n (call_with wait m a).
Proof. intros H. unfold call_with. ends. Qed.
#[local] Hint Resolve ends_exec ends_call_with : ends.

Lemma ends_mono {A} n k (m : SM rpc_client A) : (k <= n)%nat → ends n m → ends k m.
Proof. intros Hk H s Hs. apply H. lia. Qed.

Lemma ends_wait fuel : (∀ j, fueled (dump j)) → ∀ id, ends fuel (wait_response fuel id).
Proof.
  intros Hd. induction fuel as [|fuel IH]; intros id; [intros s Hs; lia|].
  cbn [Rpc.wait_response]. apply ends_bind; [ends|]. intros []; [|ends].
  cbn [negb]. apply ends_bind; [ends|]. intros [resp|]; [ends|]. apply ends_read; [ends|]. ends.
Qed.

(** ** Nothing is lost *)

Lemma writes_same s s' : sent s' = sent s → unsent s' = unsent s → wire s' = wire s → (m_connected s' = true → m_connected s = true) → writes [] [] s s'.
Proof. intros H1 H2 H3 H4. unfold Rpc.writes. rewrite !app_nil_r. split_and!; auto. Qed.
Lemma writes_trans ss1 us1 ss2 us2 s1 s2 s3 : writes ss1 us1 s1 s2 → writes ss2 us2 s2 s3 → writes (ss1 ++ ss2) (us1 ++ us2) s1 s3.
Proof.
  intros (t1 & u1 & c1 & w1) (t2 & u2 & c2 & w2). unfold Rpc.writes. rewrite t2, t1, u2, u1, !app_assoc. split_and!; [done..| |].
  - intros Hc. destruct (c2 Hc) as [Hc1 ->]. destruct (c1 Hc1) as [? ->]. done.
  - intros [-> ->]%app_nil. rewrite w2, w1 by done. by rewrite map_app, concat_app, app_assoc.
Qed.
Lemma writes_send msg s : let r := send_message msg s in
  ∃ ss us, ss ++ us = [msg] ∧ writes ss us s r.2.
Proof.
  unfold Rpc.send_message, write_msg. destruct (write_frame _ _) as [[ok out] o] eqn:E. destruct ok; [exists [msg], []|exists [], [msg]]; (split; [done|]); destruct s; cbn.
  - apply write_frame_sound in E as [_ ->]; [|done]. unfold Rpc.writes. cbn. by rewrite !app_nil_r.
  - unfold Rpc.writes. cbn. by rewrite app_nil_r.
Qed.

Lemma settles_refl s : settles [] s s.
Proof. split; [done| |done]. exists [], [], [], []. rewrite !app_nil_r. split_and!; auto. by apply writes_same. Qed.

Lemma settles_trans owed s1 s2 s3 : settles owed s1 s2 → settles [] s2 s3 → settles owed s1 s3.
Proof.
  intros [h1 (rs1 & ss1 & us1 & ds1 & r1 & t1 & d1 & L1) st1] [h2 (rs2 & ss2 & us2 & ds2 & r2 & t2 & d2 & L2) st2].
  split; [congruence| |auto]. exists (rs1 ++ rs2), (ss1 ++ ss2), (us1 ++ us2), (ds1 ++ ds2).
  split; [by rewrite r2, r1, app_assoc|]. split; [by eapply writes_trans|]. split; [by rewrite d2, d1, app_assoc|]. rewrite (app_assoc owed). intros H.
  destruct (L1 H) as [A1 B1]. rewrite h1 in L2. destruct (L2 H) as [A2 B2]. cbn [app] in *. split.
  - rewrite (omap_app _ _ rs2), A1, A2, !omap_app, <- !app_assoc. f_equiv. rewrite !app_assoc. f_equiv. apply Permutation_app_comm.
  - rewrite (List.filter_app _ _ rs2). rewrite <- (app_assoc ds1), <- B2.
    rewrite (Permutation_app_comm (List.filter _ (owed ++ rs1))), <- app_assoc, B1.
    rewrite !app_assoc. f_equiv. apply Permutation_app_comm.
Qed.

#[local] Instance settles_preorder : PreOrder (settles []).
Proof. split; [exact settles_refl|]. intros s1 s2 s3. apply settles_trans. Qed.

(** A message that was just read is owed. *)
Lemma settles_read i msg s s' : settles [msg] (set_received i msg s) s' → settles [] s s'.
Proof.
  intros [h (rs & ss & us & ds & r & t & d & L) st]. destruct s. cbn in *. split; [done| |].
  - exists (msg :: rs), ss, us, ds. rewrite r, <- app_assoc. auto.
  - intros _ Hs. apply st; [constructor; [|done]; set_solver|]. intros id m Hm. destruct (Hs id m Hm). cbn in *. set_solver.
Qed.

(** A message that is neither a request nor a notification leaves no debt,
    and without a handler nothing does. *)
Lemma settles_ignore msg s s' :
  request_id msg = None ∧ is_notification msg = false ∨ m_handler s = None → settles [] s s' → settles [msg] s s'.
Proof.
  intros Hc [h (rs & ss & us & ds & r & t & d & L) st]. split; [done| |].
  - exists rs, ss, us, ds. split_and!; [done..|]. intros H. destruct (L H). destruct Hc as [[Hr Hn]|Hc].
    + cbn. rewrite Hr, Hn. done.
    + rewrite Hc in H. by destruct H.
  - intros _. by apply st.
Qed.

(** Changes of the client's own tables. *)
Lemma settles_table owed s s' :
  m_handler s' = m_handler s → received s' = received s → writes [] [] s s' → dispatched s' = dispatched s →
  omap request_id owed = [] →
  List.filter is_notification owed ++ m_deferred_notifications s ≡ₚ m_deferred_notifications s' →
  (Forall (λ msg, msg ∈ received s) owed → stash_ok s → stash_ok s') → settles owed s s'.
Proof.
  intros Hh Hr Ht Hd Ho Hn Hs. split; [done| |done]. exists [], [], [], [].
  rewrite !app_nil_r, Ho. auto.
Qed.

Lemma settles_stash_delete id s : settles [] s (set_stashed (delete id) s).
Proof.
  apply settles_table; try (apply writes_same); try by destruct s. intros _ H k m. destruct s; cbn in *. intros [_ Hk]%lookup_delete_Some. by apply H.
Qed.
Lemma settles_stash_insert id msg s :
  is_response id msg → request_id msg = None → is_notification msg = false → settles [msg] s (set_stashed (insert id msg) s).
Proof.
  intros Hi Hr Hn. apply settles_table; [by destruct s|by destruct s|by apply writes_same; destruct s|by destruct s|cbn; by rewrite Hr|cbn; rewrite Hn; by destruct s|].
  intros [Hm _]%Forall_cons H k m. destruct s; cbn in *. intros [[<- <-]|[_ Hk]]%lookup_insert_Some; [done|by apply H].
Qed.
Lemma settles_defer msg s :
  request_id msg = None → is_notification msg = true → settles [msg] s (set_deferred (λ d, d ++ [msg]) s).
Proof.
  intros Hr Hn. apply settles_table; [by destruct s|by destruct s|by apply writes_same; destruct s|by destruct s|cbn; by rewrite Hr| |by destruct s].
  cbn. rewrite Hn. destruct s; cbn. by rewrite Permutation_app_comm.
Qed.

Lemma send_keeps msg s : let s' := (send_message msg s).2 in
  m_handler s' = m_handler s ∧ received s' = received s ∧ dispatched s' = dispatched s ∧
  m_deferred_notifications s' = m_deferred_notifications s ∧ (stash_ok s → stash_ok s').
Proof. unfold Rpc.send_message. destruct (write_msg _ _ _) as [[[] out] o]; by destruct s. Qed.
Lemma settles_sent msg s : answered_id msg = None → settles [] s (send_message msg s).2.
Proof.
  intros Ha. destruct (send_keeps msg s) as (Hh & Hr & Hd & Hn & Hs). destruct (writes_send msg s) as (ss & us & E & Hw).
  split; [done| |done]. exists [], ss, us, []. rewrite E, !app_nil_r. split_and!; [done..|]. intros _. cbn. by rewrite Ha, Hn.
Qed.
Lemma settles_answered owed msg id s1 s2 :
  request_id owed = Some id → is_notification owed = false → answered_id msg = Some id →
  settles [] s1 s2 → settles [owed] s1 (send_message msg s2).2.
Proof.
  intros Hr Hn Ha [h (rs & ss & us & ds & r & t & d & L) st].
  destruct (send_keeps msg s2) as (Hh & Hr' & Hd & Hn' & Hs). destruct (writes_send msg s2) as (ss' & us' & E & Hw).
  split; [congruence| |auto]. exists rs, (ss ++ ss'), (us ++ us'), ds. split; [congruence|]. split; [by eapply writes_trans|]. split; [congruence|].
  intros H. destruct (L H) as [A B]. cbn [app omap list_omap List.filter] in *. rewrite Hr, Hn, Hn'. split; [|done].
  assert ((ss ++ ss') ++ us ++ us' ≡ₚ msg :: ss ++ us) as ->.
  { rewrite <- app_assoc, (Permutation_app_swap_app ss'), E, app_assoc. symmetry. apply Permutation_cons_append. }
  cbn. by rewrite Ha, A.
Qed.

Lemma answered_result id r : answered_id (result_msg id r) = Some id.
Proof. reflexivity. Qed.
Lemma answered_error id e : answered_id (error_msg id e) = Some id.
Proof. reflexivity. Qed.
Lemma answered_request id m p : answered_id (request_msg id m p) = None.
Proof. reflexivity. Qed.
Lemma answered_notify m p : answered_id (notify_msg m p) = None.
Proof. reflexivity. Qed.

Abbreviation settled := (steps (settles [])).

Lemma settled_send msg : answered_id msg = None → settled (send_message msg).
Proof. intros H s _. by apply settles_sent. Qed.
Lemma settled_modify f :
  (∀ s, m_handler (f s) = m_handler s ∧ received (f s) = received s ∧ sent (f s) = sent s ∧ unsent (f s) = unsent s ∧ wire (f s) = wire s ∧ m_connected (f s) = m_connected s ∧ dispatched (f s) = dispatched s ∧
        m_deferred_notifications (f s) = m_deferred_notifications s ∧ m_stashed_responses (f s) = m_stashed_responses s) →
  settled (modify f).
Proof.
  intros H. apply steps_modify. intros s. destruct (H s) as (? & Hr & ? & ? & ? & Hc & ? & Hd & Hs).
  apply settles_table; auto; [apply writes_same; congruence|cbn; by rewrite Hd|..]; intros _ Hk; unfold stash_ok; by rewrite Hr, Hs.
Qed.
#[local] Hint Resolve settled_send answered_request answered_notify settles_stash_delete settles_preorder : steps.
Ltac settled := repeat first
  [ progress steps
  | apply settled_modify; by intros []
  | apply steps_modify; solve [eauto with steps]
  | progress unfold notify, enqueue_coroutine, watch_fd ].

Lemma settled_exec callf p : (∀ m a, settled (callf m a)) → settled (exec callf p).
Proof. intros Hc. induction p; cbn [Rpc.exec]; settled. Qed.
Lemma settled_call_with wait m a : (∀ id, settled (wait id)) → settled (call_with wait m a).
Proof. intros H. unfold call_with. settled. Qed.

(** A request that is served is answered, whatever its handler does. *)
Lemma settles_answer msg id m s :
  request_id msg = Some id → is_notification msg = false → settled m → defined (answer id m s).1 → settles [msg] s (answer id m s).2.
Proof.
  intros Hr Hn Hm. unfold answer, catching, respond, respond_error. rewrite !bind_run. specialize (Hm s).
  destruct (m s) as [[r|e| |] s1] eqn:E; cbn [fst snd] in *; try by intros [? ?].
  - intros _. pose proof (settles_answered msg (result_msg id r) id s s1 Hr Hn (answered_result _ _) (Hm (Ok_defined _))) as H.
    rewrite bind_run. unfold send_message in *. destruct (write_msg _ _ _) as [[ok out] o]. exact H.
  - intros _. pose proof (settles_answered msg (error_msg id e) id s s1 Hr Hn (answered_error _ _) (Hm (Throw_defined _))) as H.
    rewrite bind_run. unfold send_message in *. destruct (write_msg _ _ _) as [[ok out] o]. exact H.
Qed.

Lemma settled_read {A} (f : option json → SM rpc_client A) :
  settled (f None) → (∀ msg s, defined (f (Some msg) s).1 → settles [msg] s (f (Some msg) s).2) → settled (read_message ≫= f).
Proof.
  intros HN HS s. rewrite bind_run. unfold read_message. destruct (read_msg _ _) as [[msg i]|].
  - intros Hd. eapply settles_read. by apply HS.
  - intros Hd. etransitivity; [|by apply HN]. apply settles_table; try apply writes_same; by destruct s.
Qed.

(** The kinds of message exclude each other. *)
Lemma kind_of_type msg t : value_string #"type" [] msg = Ok t →
  is_notification msg = bytes_eqb t TYPE_NOTIFY ∧ (bytes_eqb t TYPE_REQUEST = false → request_id msg = None).
Proof.
  intros H. unfold is_notification, request_id, parse_request. rewrite H. split; [done|]. cbn. by intros ->.
Qed.
Lemma kind_of_none msg : (∀ t, value_string #"type" [] msg ≠ Ok t) → is_notification msg = false ∧ request_id msg = None.
Proof.
  intros H. unfold is_notification, request_id, parse_request. destruct (value_string _ _ _) eqn:E; [by destruct (H a)|..]; done.
Qed.

Lemma settles_serve callf h msg s :
  value_string #"type" [] msg = Ok TYPE_REQUEST → (∀ m a, settled (callf m a)) →
  defined (serve callf h msg s).1 → settles [msg] s (serve callf h msg s).2.
Proof.
  intros Ht Hc. destruct (kind_of_type _ _ Ht) as [Hn _]. unfold serve. rewrite bind_run. cbn [lift].
  assert (request_id msg = None → settles [msg] s s) as Hbad.
  { intros Hr. apply settles_ignore; [by left|]. apply settles_refl. }
  assert (∀ o, parse_request msg = o → request_id msg = match o with Ok (id, _, _) => Some id | _ => None end) as Hp by (by intros o <-).
  unfold parse_request in Hp. rewrite Ht in Hp. cbn [mbind outcome_bind bytes_eqb] in Hp. rewrite bytes_eqb_refl in Hp.
  destruct (value_int _ _ msg) as [id|e| |] eqn:Ei; cbn [fst snd]; try by intros [? ?].
  2: intros _; apply Hbad; by apply (Hp (Throw e)).
  rewrite bind_run. cbn [lift]. destruct (value_string #"method" _ msg) as [method|e| |] eqn:Em; cbn [fst snd]; try by intros [? ?].
  2: intros _; apply Hbad; by apply (Hp (Throw e)).
  rewrite bind_run. cbn [lift]. destruct (value_json _ _ msg) as [params|e| |] eqn:Ep; cbn [fst snd]; try by intros [? ?].
  2: intros _; apply Hbad; by apply (Hp (Throw e)).
  apply settles_answer; [by apply (Hp (Ok (id, method, params)))|done|]. by apply settled_exec.
Qed.

Lemma settled_wait fuel : ∀ id, settled (wait_response fuel id).
Proof.
  induction fuel as [|fuel IH]; intros id; [apply steps_lift, _|].
  cbn [Rpc.wait_response]. apply steps_bind; [exact _|settled|]. intros []; cbn [negb]; [|settled].
  apply steps_bind; [exact _|settled|]. intros [resp|]; [settled|]. apply settled_read; [settled|].
  intros msg s. rewrite bind_run. cbn [lift]. destruct (value_string _ _ _) as [t|e| |] eqn:Et; cbn [fst snd]; try by intros [? ?].
  2: { intros _. apply settles_ignore; [|apply settles_refl]. destruct (kind_of_none msg); [by rewrite Et|by left]. }
  destruct (kind_of_type _ _ Et) as [Hn Hr]. rewrite bind_run. cbn [gets].
  destruct (bytes_eqb t TYPE_RESPONSE) eqn:E1.
  { apply bytes_eqb_true in E1 as ->. specialize (Hr eq_refl). change (is_notification msg = false) in Hn.
    rewrite bind_run. cbn [lift]. destruct (value_int _ _ _) as [rid|e| |] eqn:Ei; cbn [fst snd]; try by intros [? ?].
    2: intros _; apply settles_ignore; [by left|apply settles_refl].
    destruct (rid =? id); [intros _; apply settles_ignore; [by left|apply settles_refl]|].
    rewrite bind_run. cbn [modify]. intros Hd. eapply settles_trans; [by apply (settles_stash_insert rid)|]. by apply IH. }
  destruct (bytes_eqb t TYPE_NOTIFY) eqn:E2.
  { apply bytes_eqb_true in E2 as ->. specialize (Hr eq_refl). rewrite bind_run. cbn [modify]. intros Hd.
    eapply settles_trans; [by apply (settles_defer msg)|]. by apply IH. }
  destruct (bytes_eqb t TYPE_REQUEST) eqn:E3.
  2: { rewrite bind_run. cbn [lift]. intros Hd. apply settles_ignore; [left; auto|].
       destruct (dump msg); cbn [fst snd] in *; try apply settles_refl. by apply IH. }
  apply bytes_eqb_true in E3 as ->. destruct (m_handler s) as [h|] eqn:Eh.
  - rewrite bind_run. intros Hd. pose proof (settles_serve (call_with (wait_response fuel)) h msg s Et) as Hserve.
    destruct (Rpc.serve _ _ _ _ s) as [[[]|e| |] s1] eqn:Es; cbn [fst snd] in *.
    + eapply settles_trans; [apply Hserve; [|apply Ok_defined]; intros; by apply settled_call_with|]. by apply IH.
    + apply Hserve; [|done]. intros. by apply settled_call_with.
    + by destruct Hd.
    + by destruct Hd.
  - rewrite bind_run. cbn [lift]. intros Hd. apply settles_ignore; [by right|].
    destruct (dump msg); cbn [fst snd] in *; try apply settles_refl. by apply IH.
Qed.

Lemma settled_call fuel m a : settled (call fuel m a).
Proof. apply settled_call_with, settled_wait. Qed.
Lemma settled_resume fuel co : settled (resume_coroutine to_msgpack from_msgpack dump fuel co).
Proof. unfold resume_coroutine. pose proof (settled_exec (call fuel) co (settled_call fuel)). settled. Qed.

(** Notifications put aside stay put aside while others are dealt with. *)
Lemma settles_frame b s1 s2 : settles [] s1 s2 → settles [] (set_deferred (app b) s1) (set_deferred (app b) s2).
Proof.
  intros [h (rs & ss & us & ds & r & t & d & L) st]. split; [by destruct s1, s2| |by destruct s1, s2].
  exists rs, ss, us, ds. destruct s1, s2; cbn in *. split_and!; [done..|]. intros H. destruct (L H) as [A B]. split; [done|].
  rewrite !(Permutation_app_swap_app _ b), B. done.
Qed.

Abbreviation dispatch := (dispatch_notification to_msgpack from_msgpack dump).

Lemma settles_dispatched x b s : settles [] (set_deferred (app (x :: b)) s) (set_deferred (app b) (set_dispatched x s)).
Proof.
  split; [by destruct s| |by destruct s].
  exists [], [], [], [x]. destruct s; cbn. rewrite !app_nil_r. split_and!; auto. by apply writes_same.
Qed.

Lemma settles_dispatch_body fuel h msg s :
  defined (dispatch fuel h msg s).1 → settles [] (set_dispatched msg s) (dispatch fuel h msg s).2.
Proof.
  unfold dispatch_notification. rewrite bind_run. cbn [modify]. apply steps_swallow.
  pose proof (λ p, settled_exec (call fuel) p (settled_call fuel)). settled.
Qed.

Lemma settles_dispatch fuel h msg s :
  request_id msg = None → is_notification msg = true →
  defined (dispatch fuel h msg s).1 → settles [msg] s (dispatch fuel h msg s).2.
Proof.
  intros Hr Hn Hd. eapply settles_trans; [|by apply settles_dispatch_body].
  split; [by destruct s| |by destruct s].
  exists [], [], [], [msg]. destruct s; cbn. rewrite Hr, Hn, !app_nil_r. split_and!; auto. by apply writes_same.
Qed.

Lemma settles_batch fuel h b : ∀ s,
  defined (for_each (dispatch fuel h) b s).1 → settles [] (set_deferred (app b) s) (for_each (dispatch fuel h) b s).2.
Proof.
  induction b as [|x b IH]; intros s; cbn [for_each].
  { intros _. cbn. destruct s. apply settles_refl. }
  rewrite bind_run. pose proof (settles_dispatch_body fuel h x s) as Hx.
  assert (∀ e, (dispatch fuel h x s).1 ≠ Throw e) as Ho by (intros e; apply swallow_no_throw).
  destruct (dispatch fuel h x s) as [[[]|e| |] s1]; cbn [fst snd] in *; try (by destruct (Ho e)); try by intros [? ?].
  intros Hd. etransitivity; [apply settles_dispatched|]. etransitivity; [|by apply IH].
  apply settles_frame, Hx, Ok_defined.
Qed.

Lemma settled_drain_deferred n fuel h : settled (drain_deferred to_msgpack from_msgpack dump n fuel h).
Proof.
  induction n as [|n IH]; [apply steps_lift, _|]. intros s. cbn [drain_deferred]. rewrite bind_run. cbn [gets].
  destruct (m_deferred_notifications s) as [|x b] eqn:Eb; [intros _; apply settles_refl|].
  rewrite bind_run. cbn [modify]. rewrite bind_run. pose proof (settles_batch fuel h (x :: b) (set_deferred (λ _, []) s)) as Hb.
  assert (set_deferred (app (x :: b)) (set_deferred (λ _, []) s) = s) as Es
    by (destruct s; cbn in *; by rewrite Eb, app_nil_r).
  rewrite Es in Hb. destruct (for_each _ _ _) as [[[]|e| |] s1]; cbn [fst snd] in *; try by intros [? ?].
  - intros Hd. etransitivity; [apply Hb, Ok_defined|]. by apply IH.
  - intros _. apply Hb, Throw_defined.
Qed.

Lemma settled_drain_pending n fuel : settled (drain_pending_coroutines to_msgpack from_msgpack dump n fuel).
Proof.
  pose proof (settled_resume fuel). induction n as [|n IH]; cbn [drain_pending_coroutines]; settled.
Qed.

Lemma settled_serve_message n fuel h : settled (serve_message to_msgpack from_msgpack dump n fuel h).
Proof.
  unfold serve_message. apply settled_read; [settled|]. intros msg s. rewrite bind_run. cbn [lift].
  destruct (value_string _ _ _) as [t|e| |] eqn:Et; cbn [fst snd]; try by intros [? ?].
  2: { intros _. apply settles_ignore; [|apply settles_refl]. destruct (kind_of_none msg); [by rewrite Et|by left]. }
  destruct (kind_of_type _ _ Et) as [Hn Hr].
  assert (∀ m : SM rpc_client (), (defined (m s).1 → settles [msg] s (m s).2) →
    defined ((m ≫= λ _, drain_deferred to_msgpack from_msgpack dump n fuel h ≫= λ _,
               drain_pending_coroutines to_msgpack from_msgpack dump n fuel ≫= λ _, mret true) s).1 →
    settles [msg] s ((m ≫= λ _, drain_deferred to_msgpack from_msgpack dump n fuel h ≫= λ _,
               drain_pending_coroutines to_msgpack from_msgpack dump n fuel ≫= λ _, mret true) s).2) as Hk.
  { intros m Hm. rewrite bind_run. destruct (m s) as [[[]|e| |] s1]; cbn [fst snd] in *; try by intros [? ?].
    - intros Hd. eapply settles_trans; [apply Hm, Ok_defined|]. revert Hd.
      apply steps_bind; [exact _|apply settled_drain_deferred|]. intros _.
      apply steps_bind; [exact _|apply settled_drain_pending|]. settled.
    - intros _. apply Hm, Throw_defined. }
  apply Hk. destruct (bytes_eqb t TYPE_REQUEST) eqn:E1.
  - apply bytes_eqb_true in E1 as ->. apply settles_serve; [done|]. apply settled_call.
  - destruct (bytes_eqb t TYPE_NOTIFY) eqn:E2; [apply settles_dispatch; auto|].
    intros _. apply settles_ignore; [left; auto|]. apply settles_refl.
Qed.

Lemma settled_run_loop n fuel h polls : settled (run_loop to_msgpack from_msgpack dump n fuel h polls).
Proof.
  pose proof (settled_drain_pending n fuel). pose proof (settled_serve_message n fuel h). pose proof (settled_resume fuel).
  induction polls as [|p polls IH]; cbn [run_loop]; unfold resume_watched; settled.
Qed.

(** ** How a call ends *)

Lemma answer_no_throw id m s e : (answer id m s).1 ≠ Throw e.
Proof.
  unfold answer, catching, respond, respond_error. rewrite bind_run.
  destruct (m s) as [[r|e'| |] s1]; try done; rewrite bind_run; unfold send_message; by destruct (write_msg _ _ _) as [[ok out] o].
Qed.

Lemma serve_throw callf h msg s e : value_string #"type" [] msg = Ok TYPE_REQUEST →
  (serve callf h msg s).1 = Throw e → is_ok (parse_request msg) = false.
Proof.
  intros Ht. unfold serve, parse_request. rewrite Ht. cbn [mbind outcome_bind]. rewrite bytes_eqb_refl. rewrite bind_run. cbn [lift].
  destruct (value_int _ _ msg); try done. rewrite bind_run. cbn [lift mbind outcome_bind].
  destruct (value_string #"method" _ msg); try done. rewrite bind_run. cbn [lift mbind outcome_bind].
  destruct (value_json _ _ msg); try done. by intros []%answer_no_throw.
Qed.

Lemma received_mono s s' msg : settles [] s s' → msg ∈ received s → msg ∈ received s'.
Proof. intros [_ (rs & ss & us & ds & -> & _) _]. set_solver. Qed.

Definition ends_well (id : Z) (r : outcome json * rpc_client) : Prop := r.1 ≠ UB → call_outcome dump id r.

Lemma ends_well_ill id o s msg : msg ∈ received s → well_formed dump msg = false → ends_well id (o, s).
Proof. intros Hm Hw _. right; right. by exists msg. Qed.

Lemma wait_outcome fuel : ∀ id s, stash_ok s → (size (inbox s) < fuel)%nat → (∀ j, fueled (dump j)) →
  ends_well id (wait_response fuel id s).
Proof.
  induction fuel as [|fuel IH]; intros id s Hst Hs Hdump; [lia|].
  cbn [Rpc.wait_response]. rewrite bind_run. cbn [gets].
  destruct (m_connected s) eqn:Ec; cbn [negb]; [|by right; left].
  rewrite bind_run. cbn [gets]. destruct (m_stashed_responses s !! id) as [resp|] eqn:El.
  { left. destruct (Hst _ _ El). exists resp. rewrite bind_run. cbn. by destruct s. }
  rewrite bind_run. unfold read_message, read_msg.
  destruct (read_frame _ _ _) as [[buf i]|] eqn:Ef; cbn [mbind option_bind]; [|right; left; by destruct s].
  apply read_frame_sound in Ef as (_ & _ & Hi & _).
  destruct (from_msgpack buf) as [msg|]; [|right; left; by destruct s].
  cbn [mbind option_bind]. set (s1 := set_received i msg s).
  assert (msg ∈ received s1) as Hm by (subst s1; destruct s; cbn; set_solver).
  assert (stash_ok s1) as Hst1.
  { intros k x Hk. destruct (Hst k x) as [? ?]; [by subst s1; destruct s|]. split; [|done]. subst s1; destruct s; cbn in *; set_solver. }
  assert (size (inbox s1) < fuel)%nat as Hs1 by (subst s1; destruct s; cbn in *; lia). clearbody s1.
  cbn beta iota. rewrite bind_run. cbn [lift].
  destruct (value_string #"type" [] msg) as [t|e| |] eqn:Et;
    try (apply (ends_well_ill _ _ _ msg Hm); unfold well_formed; by rewrite Et).
  rewrite bind_run. cbn [gets]. destruct (bytes_eqb t TYPE_RESPONSE) eqn:E1.
  { rewrite bind_run. cbn [lift].
    destruct (value_int _ _ msg) as [rid|e| |] eqn:Ei;
      try (apply (ends_well_ill _ _ _ msg Hm); unfold well_formed; by rewrite Et, E1, Ei).
    apply bytes_eqb_true in E1 as ->. destruct (Z.eqb_spec rid id) as [->|Hne]; [intros _; left; by exists msg|].
    rewrite bind_run. cbn [modify]. apply IH; [|by destruct s1|done].
    intros k x. destruct s1; cbn in *. intros [[<- <-]|[_ Hk]]%lookup_insert_Some; [done|by apply Hst1]. }
  destruct (bytes_eqb t TYPE_NOTIFY) eqn:E2.
  { rewrite bind_run. cbn [modify]. apply IH; [|by destruct s1|done]. by destruct s1. }
  assert (ends_well id ((lift (dump msg) ≫= λ _, wait_response fuel id) s1)) as Hlog.
  { rewrite bind_run. cbn [lift]. destruct (dump msg) eqn:Ed; [by apply IH|..];
      apply (ends_well_ill _ _ _ msg Hm); unfold well_formed; by rewrite Et, E1, E2, Ed. }
  destruct (bytes_eqb t TYPE_REQUEST) eqn:E3; [|done].
  destruct (m_handler s1) as [h|] eqn:Eh; [|done].
  rewrite bind_run. pose proof (serve_throw (call_with (wait_response fuel)) h msg s1) as Hthrow.
  pose proof (bytes_eqb_true t TYPE_REQUEST) as [Ht _]. specialize (Ht E3) as ->.
  pose proof (settles_serve (call_with (wait_response fuel)) h msg s1 Et) as Hserve.
  assert (ends fuel (serve (call_with (wait_response fuel)) h msg)) as Hend.
  { pose proof (ends_wait fuel Hdump). ends. }
  destruct (Hend s1 Hs1) as [Hf Hsz].
  destruct (Rpc.serve _ _ _ _ s1) as [[[]|e| |] s2]; cbn [fst snd] in *.
  - destruct Hserve as [_ _ Hst2]; [|apply Ok_defined|].
    { intros. apply settled_call_with, settled_wait. }
    apply IH; [|lia|done]. apply Hst2; auto.
  - destruct Hserve as [_ (rs & ss & us & ds & Hr & _) _]; [|apply Throw_defined|].
    { intros. apply settled_call_with, settled_wait. }
    apply (ends_well_ill _ _ _ msg); [rewrite Hr; set_solver|].
    unfold well_formed. rewrite Et, (Hthrow e Et eq_refl). cbn. by rewrite andb_false_r.
  - by intros [].
  - done.
Qed.
End lemmas.

(** ** The properties *)

(** A call ends, whatever the Lua handlers it serves meanwhile do: with
    fuel above what is left to read on the socket the wait does not run out,
    and the call returns the result (or throws the error) of a received
    response that carries its own id, unless the link went down or the peer
    sent a message that cannot be read.  Responses taken in by nested calls
    are kept for the call they belong to. *)
Theorem rpc_call_ends to_msgpack from_msgpack dump fuel method params s :
  stash_ok s → (size (inbox s) < fuel)%nat → (∀ j, fueled (dump j)) →
  let r := call to_msgpack from_msgpack dump fuel method params s in
  fueled r.1 ∧ (r.1 ≠ UB → call_outcome dump (m_next_id s) r ∧ stash_ok r.2).
Proof.
  intros Hst Hs Hd r. split.
  - eapply (ends_call_with to_msgpack fuel); [|exact Hs]. by apply ends_wait.
  - intros Hub. assert (defined r.1) as Hdef.
    { split; [done|]. eapply (ends_call_with to_msgpack fuel); [|exact Hs]. by apply ends_wait. }
    split; [|by apply (settled_call to_msgpack from_msgpack dump fuel method params s Hdef)].
    revert Hub. subst r. unfold call, call_with. rewrite bind_run. cbn [gets].
    destruct (m_connected s) eqn:Ec; cbn [negb]; [|by right; left].
    rewrite bind_run. cbn [gets]. rewrite bind_run. cbn [modify]. rewrite bind_run.
    unfold send_message. destruct (write_msg _ _ _) as [[[] out] o]; cbn [negb]; [|right; left; by destruct s].
    apply wait_outcome; [by destruct s|by destruct s|done].
Qed.

(** C8: The main loop loses nothing and does nothing twice.  Over any run from
    a new connection, however calls nest and coroutines interleave, the requests
    read are exactly those answered, once each, where an answer is written or its
    write failed; the notifications read are those handed to the handler plus
    those still kept for it.  While the connection is up no write has failed, so
    that every request read has its answer on the wire, which holds the frames of
    the messages sent, whole and in order.  The run is one that ends, whose
    notifications and coroutines do not start others for ever, and reads no
    request or response with a number for an id that does not fit an [int]. *)
Theorem rpc_conversation to_msgpack from_msgpack dump n fuel h polls i o :
  let r := run to_msgpack from_msgpack dump n fuel h polls (rpc_new i o) in
  defined r.1 →
  omap request_id (received r.2) ≡ₚ omap answered_id (sent r.2 ++ unsent r.2) ∧
  List.filter is_notification (received r.2) ≡ₚ dispatched r.2 ++ m_deferred_notifications r.2 ∧
  (m_connected r.2 = true → unsent r.2 = []) ∧
  (unsent r.2 = [] → wire r.2 = concat (map (λ msg, frame (to_msgpack msg)) (sent r.2))).
Proof.
  intros r Hd. subst r. unfold run in *. rewrite bind_run in *. cbn [modify] in *.
  destruct (settled_run_loop to_msgpack from_msgpack dump n fuel h polls _ Hd) as [_ (rs & ss & us & ds & Hr & (Ht & Hu & Hc & Hw) & Hds & L) _].
  rewrite Hr, Ht, Hu, Hds. cbn [set_handler rpc_new received sent unsent wire dispatched m_connected app] in *. destruct L as [A B]; [done|].
  rewrite app_nil_r in B. split_and!; [done..| |done]. by intros [_ ->]%Hc.
Qed.

(** *** A concrete conversation *)

Definition demo_pack (j : json) : bytes := match j with JObj o => concat (map fst o) | _ => [] end.
(** One byte for each of the messages below. *)
Definition demo_unpack (l : list json) (b : bytes) : option json := match b with [c] => l !! Z.to_nat (b2z c) | _ => None end.
Definition demo_print (j : json) : outcome bytes := Ok [].
Definition demo_frame (k : Z) : recv_event := Chunk (frame [z2b k]).

Definition demo_messages : list json :=
  [ request_msg 7 #"evaluate" JNull; notify_msg #"config_changed" (JInt 1); notify_msg #"config_changed" (JInt 2);
    result_msg 1 (JStr #"ok"); result_msg 2 (JStr #"nested") ].

(** A handler that calls back while it serves [evaluate]. *)
Definition demo_handler (method : bytes) (params : json) : prog :=
  if bytes_eqb method #"evaluate" then Call #"version" JNull (λ r, match r with inl v => Return v | inr e => Raise e end)
  else Return JNull.

Definition demo_client : rpc_client :=
  set_handler demo_handler (rpc_new [demo_frame 1; demo_frame 0; demo_frame 3; demo_frame 4] []).

Lemma rpc_call_ends_witness :
  let r := call demo_pack (demo_unpack demo_messages) demo_print 100 #"ready" JNull demo_client in
  r.1 = Ok (JStr #"ok") ∧ fueled r.1 ∧ call_outcome demo_print 1 r ∧ stash_ok r.2.
Proof.
  intros r. assert (r.1 = Ok (JStr #"ok")) as Hr by by vm_compute.
  destruct (rpc_call_ends demo_pack (demo_unpack demo_messages) demo_print 100 #"ready" JNull demo_client) as [H1 H2].
  - done.
  - vm_compute. lia.
  - done.
  - split; [exact Hr|]. split; [exact H1|]. apply H2. change (r.1 ≠ UB). rewrite Hr. done.
Defined.

(** The second run's connection takes the request of the handler and no more. *)
Lemma rpc_conversation_witness :
  let conversation o := run demo_pack (demo_unpack demo_messages) demo_print 10 100 demo_handler
             (repeat (Ready true false []) 2) (rpc_new [demo_frame 0; demo_frame 1; demo_frame 3; demo_frame 2] o) in
  let holds r :=
    omap request_id (received r.2) ≡ₚ omap answered_id (sent r.2 ++ unsent r.2) ∧
    List.filter is_notification (received r.2) ≡ₚ dispatched r.2 ++ m_deferred_notifications r.2 ∧
    (m_connected r.2 = true → unsent r.2 = []) ∧
    (unsent r.2 = [] → wire r.2 = concat (map (λ msg, frame (demo_pack msg)) (sent r.2))) in
  let good := conversation [] in let bad := conversation [Accepts 4; Accepts 30; SendFailed] in
  length (received good.2) = 4%nat ∧ m_connected good.2 = true ∧ length (unsent bad.2) = 1%nat ∧ holds good ∧ holds bad.
Proof.
  cbv zeta. split; [by vm_compute|]. split; [by vm_compute|]. split; [by vm_compute|]. split; apply rpc_conversation; by vm_compute.
Defined.

(** Notifications can be handed over in another order than they were sent: one
    that arrives while a resumed coroutine waits for a response is put aside,
    and the next one read by the main loop overtakes it. *)
Theorem notifications_can_be_reordered :
  let co := Call #"version" JNull (λ _, Return JNull) in
  let s := set_watches (insert 5 co) (rpc_new [demo_frame 1; demo_frame 3; demo_frame 2] []) in
  let r := run demo_pack (demo_unpack demo_messages) demo_print 10 100 demo_handler [Ready true false [5]] s in
  r.1 = Ok () ∧
  List.filter is_notification (received r.2) = [notify_msg #"config_changed" (JInt 1); notify_msg #"config_changed" (JInt 2)] ∧
  dispatched r.2 = [notify_msg #"config_changed" (JInt 2); notify_msg #"config_changed" (JInt 1)].
Proof. by vm_compute. Qed.

(** A notification put aside by a resumed coroutine is not handed over when
    the loop turns, only when another message arrives. *)
Theorem deferred_notification_waits :
  let co := Call #"version" JNull (λ _, Return JNull) in
  let s := set_watches (insert 5 co) (rpc_new [demo_frame 1; demo_frame 3] []) in
  let r := run demo_pack (demo_unpack demo_messages) demo_print 10 100 demo_handler
             (Ready false false [5] :: repeat (Ready false false []) 3) s in
  r.1 = Ok () ∧ dispatched r.2 = [] ∧ m_deferred_notifications r.2 = [notify_msg #"config_changed" (JInt 1)].
Proof. by vm_compute. Qed.
