(* ===== verification/Patches.v ===== *)
(** * Patches: the patch list and the loopback connection

    [instrumentation/internal/patch_registry.cc], [loopback_ipc.cc] and
    [patch_update_notifier.h].  Plugins register patches of the client's
    scripts; the web helper that applies them gets the list over a pipe, when
    it connects and whenever the list changes, and sends back log lines and
    patch events.  The list is taken and written under different locks, so the
    order of the frames depends on the threads: the connection is a step
    relation over their interleavings. *)

From S2P Require Import Prelude State Json StarFile Ring Recorder Frames.

(** ** The registry *)

Record PatchTransform := Transform { t_match : bytes; t_replace : bytes }.
Record PatchEntry := Patch { p_plugin : bytes; p_file : bytes; p_find : bytes; p_transforms : list PatchTransform }.

Definition registry : Type := gmap bytes (list PatchEntry).

Definition patch_registry_set (plugin : bytes) (patches : list PatchEntry) (g : registry) : registry := <[plugin := patches]> g.
Definition patch_registry_remove (plugin : bytes) (g : registry) : registry := delete plugin g.

Definition transform_json (t : PatchTransform) : json := jobj [(#"match", JStr (t_match t)); (#"replace", JStr (t_replace t))].
Definition patch_json (e : PatchEntry) : json :=
  jobj [(#"plugin", JStr (p_plugin e)); (#"file", JStr (p_file e)); (#"find", JStr (p_find e));
        (#"transforms", JArr (map transform_json (p_transforms e)))].

(** The order of the plugins is the hash map's. *)
Definition patch_registry_to_json (g : registry) : json :=
  JArr (concat (map (λ '(_, entries), map patch_json entries) (map_to_list g))).

Definition build_patch_list_payload (g : registry) : json :=
  jobj [(#"type", JStr #"patch_list"); (#"patches", patch_registry_to_json g)].

(** A plugin's request to replace its patches: an entry without a file or a
    text to find is left out. *)
Definition parse_transform (t : json) : outcome PatchTransform :=
  m ← value_string #"match" [] t; r ← value_string #"replace" [] t; Ok (Transform m r).

Fixpoint parse_transforms (l : list json) : outcome (list PatchTransform) :=
  match l with
  | [] => Ok []
  | t :: l => t ← parse_transform t; l ← parse_transforms l; Ok (t :: l)
  end.

Definition parse_patch (plugin : bytes) (p : json) : outcome PatchEntry :=
  file ← value_string #"file" [] p;
  find ← value_string #"find" [] p;
  ts ← match jget #"transforms" p with Some (JArr l) => parse_transforms l | _ => Ok [] end;
  Ok (Patch plugin file find ts).

Fixpoint parse_patches (plugin : bytes) (l : list json) : outcome (list PatchEntry) :=
  match l with
  | [] => Ok []
  | p :: l =>
      e ← parse_patch plugin p;
      es ← parse_patches plugin l;
      Ok (if negb (bytes_eqb (p_file e) []) && negb (bytes_eqb (p_find e) []) then e :: es else es)
  end.

(** ** The connection

    [build_patch_list_payload] and [conn_write_frame] are separate steps of
    the connection's own thread and of a listener call.  [patch_update_notifier]
    runs its listeners under its mutex, so at most one listener call is under
    way; [add_listener] takes the same mutex. *)

Inductive conn_pc :=
  | Start                      (* not yet a listener *)
  | Listening                  (* listener installed, not ready *)
  | Built1 (payload : registry)
  | Wrote1
  | ReadySet                   (* ready: listener calls write from here on *)
  | Built2 (payload : registry)
  | Reading                    (* in [reader_loop] *)
  | Failing                    (* the first write failed; ready is set all the same *)
  | Dropped.                   (* the initial write failed, or the reader ended *)

(** A call of [notify]: the mutex is held, or the payload is built. *)
Inductive notify_pc := Entered | Built (payload : registry).

Record conn_state := Conn {
  g_patches : registry;
  changed : nat;               (* changes whose [notify] has not entered yet *)
  notifying : option notify_pc;
  pc : conn_pc;
  alive : bool;
  frames : list registry;      (* the lists written to the pipe *)
}.

Definition is_listener (p : conn_pc) : bool := match p with Start | Dropped => false | _ => true end.
Definition is_ready (p : conn_pc) : bool := match p with ReadySet | Built2 _ | Reading | Failing => true | _ => false end.

Inductive step : conn_state → conn_state → Prop :=
  (** A plugin's patches change; its thread goes on to [notify]. *)
  | step_change g n nt p a f g' : step (Conn g n nt p a f) (Conn g' (S n) nt p a f)
  | step_enter g n p a f : step (Conn g (S n) None p a f) (Conn g n (Some Entered) p a f)
  | step_skip g n p a f : is_listener p && is_ready p && a = false → step (Conn g n (Some Entered) p a f) (Conn g n None p a f)
  | step_build g n p f : is_listener p && is_ready p = true → step (Conn g n (Some Entered) p true f) (Conn g n (Some (Built g)) p true f)
  | step_write g n b p a f : step (Conn g n (Some (Built b)) p a f) (Conn g n None p a (f ++ [b]))
  | step_write_fails g n b p a f : step (Conn g n (Some (Built b)) p a f) (Conn g n None p false f)
  (** The connection's thread. *)
  | step_listen g n a f : step (Conn g n None Start a f) (Conn g n None Listening a f)
  | step_build1 g n nt a f : step (Conn g n nt Listening a f) (Conn g n nt (Built1 g) a f)
  | step_write1 g n nt b a f : step (Conn g n nt (Built1 b) a f) (Conn g n nt Wrote1 a (f ++ [b]))
  | step_ready g n nt a f : step (Conn g n nt Wrote1 a f) (Conn g n nt ReadySet a f)
  | step_build2 g n nt a f : step (Conn g n nt ReadySet a f) (Conn g n nt (Built2 g) a f)
  | step_write2 g n nt b a f : step (Conn g n nt (Built2 b) a f) (Conn g n nt Reading a (f ++ [b]))
  | step_fail1 g n nt b a f : step (Conn g n nt (Built1 b) a f) (Conn g n nt Failing a f)
  | step_drop1 g n nt a f : step (Conn g n nt Failing a f) (Conn g n nt Dropped false f)
  | step_drop2 g n nt b a f : step (Conn g n nt (Built2 b) a f) (Conn g n nt Dropped false f)
  | step_end g n nt a f : step (Conn g n nt Reading a f) (Conn g n nt Dropped false f).

Definition conn_init (g : registry) : conn_state := Conn g 0 None Start true [].

(** Every change has been notified and every listener call is over. *)
Definition quiet (s : conn_state) : Prop := changed s = O ∧ notifying s = None.

(** ** Messages of the web helper *)

Section reader.
  Context `{T : target} {L : Type}.

(** What [reader_loop] acts on: the recorder of patch events and the lines
    printed to Millennium's log. *)
Record loopback := Loopback { patches_recorded : recorder patch_event L; printed : list bytes; delivered : list (L * patch_event) }.

Definition patch_event_of (msg : json) : outcome patch_event :=
  event_type ← value_string #"event_type" [] msg;
  plugin ← value_string #"plugin" [] msg;
  other ← value_string #"other_plugin" [] msg;
  filename ← value_string #"filename" [] msg;
  detail ← value_string #"detail" [] msg;
  find_pattern ← value_string #"find_pattern" [] msg;
  transform_patterns ← value_string #"transform_patterns" [] msg;
  before_text ← value_string #"before_text" [] msg;
  after_text ← value_string #"after_text" [] msg;
  timestamp ← value_u64 #"timestamp_us" 0 msg;
  Ok (PatchEvent event_type plugin other filename detail find_pattern transform_patterns before_text after_text timestamp).

Definition print_line (m : bytes) (s : loopback) : loopback := Loopback (patches_recorded s) (printed s ++ [m]) (delivered s).
Definition record_patch (ev : patch_event) (s : loopback) : loopback :=
  let '(r, calls) := patch_notify ev (patches_recorded s) in Loopback r (printed s) (delivered s ++ calls).

(** One message; [None] is a frame that does not decode. *)
Definition loopback_message (msg : option json) : SM loopback () :=
  match msg with
  | None => mret tt
  | Some msg =>
      match jget #"type" msg with
      | Some (JStr type) =>
          swallow (
            if bytes_eqb type #"log" then
              _ ← lift (value_string #"level" #"info" msg);
              message ← lift (value_string #"message" [] msg);
              modify (print_line message)
            else if bytes_eqb type #"patch_event" then
              ev ← lift (patch_event_of msg);
              if negb (bytes_eqb (event_type ev) []) then modify (record_patch ev) else mret tt
            else mret tt)
      | _ => mret tt
      end
  end.

(** [reader_loop] on the pipe, until a frame cannot be read; a connection whose
    write failed ends it earlier.  Interrupted reads are not retried. *)
Fixpoint loopback_loop (from_msgpack : bytes → option json) (fuel : nat) (s : list recv_event) : SM loopback () :=
  match fuel with
  | O => lift NoFuel
  | S fuel =>
      match read_frame false LOOPBACK_LIMIT s with
      | None => mret tt
      | Some (buf, s) => _ ← loopback_message (from_msgpack buf); loopback_loop from_msgpack fuel s
      end
  end.
End reader.
Arguments loopback : clear implicits.

(** ** Lemmas *)

Lemma registry_remove_ne plugin g n : n ≠ plugin → patch_registry_remove plugin g !! n = g !! n.
Proof. intros Hn. apply lookup_delete_ne. congruence. Qed.
Lemma registry_remove_eq plugin g : patch_registry_remove plugin g !! plugin = None.
Proof. apply lookup_delete_eq. Qed.
Lemma registry_set_ne plugin l g n : n ≠ plugin → patch_registry_set plugin l g !! n = g !! n.
Proof. intros Hn. apply lookup_insert_ne. congruence. Qed.

(** ** The list reaches the web helper *)

(** The current list has been written, or somebody is going to take it. *)
Definition covered (sent : list registry → registry → Prop) (s : conn_state) : Prop :=
  changed s ≠ O ∨
  match notifying s with
  | Some Entered => True
  | Some (Built b) => b = g_patches s
  | None => sent (frames s) (g_patches s)
  end.

(** No frame of the current list is owed yet, or the connection is failing. *)
Definition before_build2 (p : conn_pc) : bool :=
  match p with Start | Listening | Built1 _ | Wrote1 | ReadySet | Failing => true | _ => false end.

Definition list_inv (s : conn_state) : Prop :=
  alive s = true → pc s ≠ Dropped ∧ (∀ b, notifying s = Some (Built b) → b = g_patches s ∨ changed s ≠ O) ∧
  (before_build2 (pc s) = true ∨ pc s = Built2 (g_patches s) ∨ covered (λ f g, g ∈ f) s).

Lemma elem_of_snoc {A} (x y : A) l : x ∈ l ∨ x = y → x ∈ l ++ [y].
Proof. intros [?| ->]; apply elem_of_app; [by left|right]. by apply list_elem_of_singleton. Qed.

Lemma list_inv_step s s' : list_inv s → step s s' → list_inv s'.
Proof.
  unfold list_inv, covered. intros H Hs. destruct Hs; cbn in *; intros Ha; try discriminate; try (destruct a; [|discriminate]);
    destruct (H eq_refl) as (Hd & Hb & Hc); (split; [congruence|split; [by auto; naive_solver|]]); try (by auto).
  - destruct p; try discriminate; try congruence; by left.
  - destruct Hc as [?|[?|[?| ->]]]; auto 6. right; right; right. auto using elem_of_snoc.
  - right; right. destruct Hc as [?|[[= ->]|[?|Hc]]]; [discriminate| |by left|].
    + destruct nt as [[|b']|]; [by right| |right; by auto using elem_of_snoc]. destruct (Hb b' eq_refl); auto.
    + right. destruct nt as [[|b']|]; auto using elem_of_snoc.
Qed.

Lemma list_inv_reachable s s' : list_inv s → rtc step s s' → list_inv s'.
Proof. intros H Hr. induction Hr; [done|]. eauto using list_inv_step. Qed.

(** From [Reading] on the only writer is the listener, and the last frame is
    the current list. *)
Definition last_inv (s : conn_state) : Prop := alive s = true → pc s = Reading ∧ covered (λ f g, last f = Some g) s.

Lemma last_inv_step s s' : last_inv s → step s s' → last_inv s'.
Proof.
  unfold last_inv, covered. intros H Hs. destruct Hs; cbn in *; intros Ha; try discriminate; try (destruct a; [|discriminate]);
    destruct (H eq_refl) as [Hp Hc]; subst; try discriminate; (split; [done|]); cbn in *; auto.
  destruct Hc as [?| ->]; [by left|]. right. by rewrite last_snoc.
Qed.

Lemma last_inv_reachable s s' : last_inv s → rtc step s s' → last_inv s'.
Proof. intros H Hr. induction Hr; [done|]. eauto using last_inv_step. Qed.

(** C35: The web helper gets the patches.  In every interleaving of plugins
    that change patches and the thread of a connection, once the changes have
    been notified and the connection has not failed, the list of patches as it
    stands has been written to the connection; and it is the last list
    written for every change made after the connection's own initial frames. *)
Theorem patch_list_delivered g s :
  rtc step (conn_init g) s →
  (quiet s → alive s = true → pc s = Reading → g_patches s ∈ frames s) ∧
  (∀ g' s', pc s = Reading → rtc step (Conn g' (S (changed s)) (notifying s) (pc s) (alive s) (frames s)) s' →
    quiet s' → alive s' = true → last (frames s') = Some (g_patches s')).
Proof.
  intros Hr. split.
  - intros [Hc Hn] Ha Hp. assert (list_inv s) as Hi.
    { apply (list_inv_reachable (conn_init g)); [|done]. split; [done|]. split; [done|by left]. }
    destruct (Hi Ha) as (_ & _ & [H|[H|[H|H]]]); rewrite ?Hp, ?Hn in H; done.
  - intros g' s' Hp Hr' [Hc Hn] Ha. assert (last_inv s') as Hi.
    { eapply last_inv_reachable; [|exact Hr']. split; [done|]. by left. }
    destruct (Hi Ha) as (_ & [H|H]); [done|]. by rewrite Hn in H.
Qed.

Definition demo_patches (n : bytes) : registry := {[ #"p" := [Patch #"p" n n []] ]}.

(** The initial frames, then a change that is notified. *)
Lemma demo_run (g g' : registry) :
  rtc step (conn_init g) (Conn g 0 None Reading true [g; g]) ∧
  rtc step (Conn g' 1 None Reading true [g; g]) (Conn g' 0 None Reading true [g; g; g']).
Proof.
  split.
  - eapply rtc_l; [apply step_listen|]. eapply rtc_l; [apply step_build1|]. eapply rtc_l; [apply step_write1|].
    eapply rtc_l; [apply step_ready|]. eapply rtc_l; [apply step_build2|]. eapply rtc_l; [apply step_write2|]. reflexivity.
  - eapply rtc_l; [apply step_enter|]. eapply rtc_l; [by apply step_build|]. eapply rtc_l; [apply step_write|]. reflexivity.
Qed.

Lemma patch_list_delivered_witness :
  let g := demo_patches #"a" in let g' := demo_patches #"b" in
  g ∈ [g; g] ∧ last [g; g; g'] = Some g'.
Proof.
  intros g g'. destruct (demo_run g g') as [H1 H2].
  destruct (patch_list_delivered g (Conn g 0 None Reading true [g; g]) H1) as [A B]. split; [by apply A|].
  exact (B g' (Conn g' 0 None Reading true [g; g; g']) eq_refl H2 (conj eq_refl eq_refl) eq_refl).
Defined.

(** A list taken before a change can be written after the list that has the
    change: the connection's second frame is not ordered with the listener. *)
Theorem stale_patch_list_can_be_last (g g' : registry) :
  rtc step (conn_init g) (Conn g' 0 None Reading true [g; g'; g]).
Proof.
  eapply rtc_l; [apply step_listen|]. eapply rtc_l; [apply step_build1|]. eapply rtc_l; [apply step_write1|].
  eapply rtc_l; [apply step_ready|]. eapply rtc_l; [apply step_build2|]. eapply rtc_l; [apply (step_change _ _ _ _ _ _ g')|].
  eapply rtc_l; [apply step_enter|]. eapply rtc_l; [by apply step_build|]. eapply rtc_l; [apply step_write|].
  eapply rtc_l; [apply step_write2|]. reflexivity.
Qed.

(** ** The reader survives what the web helper sends *)

Definition u64_field (k : bytes) (j : json) : Prop := ∀ f, jget k j ≠ Some (JFloat f).

Lemma value_u64_defined k d j : u64_field k j → defined (value_u64 k d j).
Proof.
  unfold u64_field, value_u64. destruct j; try done. cbn. intros H. destruct (obj_get k o) as [[]|]; try done. by edestruct H.
Qed.
#[local] Hint Resolve value_u64_defined : cxx.

(** Whatever a frame holds, the reader goes on to the next one. *)
Lemma loopback_message_ok `{T : target} {L} msg (s : loopback L) :
  (∀ j, msg = Some j → u64_field #"timestamp_us" j) → ∃ s', loopback_message msg s = (Ok (), s').
Proof.
  intros Hu. assert (∀ j, msg = Some j → defined (patch_event_of j)) as Hd.
  { intros j Hj. unfold patch_event_of. specialize (Hu j Hj). solve_defined; auto with cxx. }
  unfold loopback_message. destruct msg as [j|]; [|by eexists].
  destruct (jget #"type" j) as [[| | | |type| |]|]; try (by eexists). specialize (Hd j eq_refl).
  match goal with |- ∃ s', swallow ?m s = _ => assert (total m) as Ht end.
  { total. }
  specialize (Ht s). unfold swallow. destruct ((_ : SM (loopback L) ()) s) as [[[]|e| |] s']; [by exists s'|by exists s'|by destruct Ht..].
Qed.
