(* ===== verification/Process.v ===== *)
(** * Process: Millennium's side of the plugin channel

    [engine/child_process.cc]: one [PluginProcess] for each plugin backend.
    Callers register a request and wait; a reader thread takes the frames the
    child sends, completes the waiting calls, serves the child's requests
    through the installed handler and, when the channel closes, fails what is
    still waiting and decides whether the child crashed.  An exception that
    leaves the reader thread's function is [std::terminate]. *)

From S2P Require Import Prelude State Json Frames Ring Recorder CdpClient Rpc.

Definition waiting_table : Type := gmap Z nat.

(** The object; [world] is what the installed handler acts on, [outgoing] the
    messages given to [send_frame].  A caller's promise is a number. *)
Record process (W : Type) := Process {
  m_plugin_name : bytes;
  m_running : bool;
  m_shutdown_initiated : bool;
  p_next_id : Z;
  p_pending : waiting_table;
  p_promises : gmap nat completion;
  p_issued : nat;
  m_request_handler : option (bytes → bytes → json → SM W json);
  world : W;
  outgoing : list json;
}.
Arguments Process {_} _ _ _ _ _ _ _ _ _ _.
Arguments m_plugin_name {_} _.
Arguments m_running {_} _.
Arguments m_shutdown_initiated {_} _.
Arguments p_next_id {_} _.
Arguments p_pending {_} _.
Arguments p_promises {_} _.
Arguments p_issued {_} _.
Arguments m_request_handler {_} _.
Arguments world {_} _.
Arguments outgoing {_} _.

Section process.
  Context {W : Type}.
  Implicit Types p : process W.

Definition set_running (b : bool) p : process W :=
  let 'Process n _ sh i pe pr k h w o := p in Process n b sh i pe pr k h w o.
Definition set_tables (pe : waiting_table) (pr : gmap nat completion) p : process W :=
  let 'Process n r sh i _ _ k h w o := p in Process n r sh i pe pr k h w o.
Definition set_world (w : W) p : process W :=
  let 'Process n r sh i pe pr k h _ o := p in Process n r sh i pe pr k h w o.
Definition push_frame (msg : json) p : process W :=
  let 'Process n r sh i pe pr k h w o := p in Process n r sh i pe pr k h w (o ++ [msg]).

Definition set_request_handler (h : bytes → bytes → json → SM W json) p : process W :=
  let 'Process n r sh i pe pr k _ w o := p in Process n r sh i pe pr k (Some h) w o.

Definition send_frame (msg : json) : SM (process W) () := modify (push_frame msg).

(** [call] up to the send: the request it sends, its promise and id. *)
Definition call_begin (method : bytes) (params : json) p : Z * nat * process W :=
  let 'Process n r sh id pe pr k h w o := p in
  (id, k, Process n r sh (i32 (id + 1)) (<[id := k]> pe) pr (S k) h w (o ++ [request_msg id method params])).

(** [call] after a failed send or a timeout: the entry is dropped. *)
Definition call_abandon (id : Z) p : process W := set_tables (delete id (p_pending p)) (p_promises p) p.

Definition notify_child (method : bytes) (params : json) : SM (process W) () := send_frame (notify_msg method params).

(** The handler runs on the world. *)
Definition run_handler (h : bytes → bytes → json → SM W json) (method : bytes) (params : json) : SM (process W) json := λ p,
  let '(r, w) := h (m_plugin_name p) method params (world p) in (r, set_world w p).

Definition fulfil (h : nat) (c : completion) p : process W := set_tables (p_pending p) (complete h c (p_promises p)) p.

(** One message of the reader thread. *)
Definition reader_message (msg : json) : SM (process W) () :=
  type ← lift (value_string #"type" [] msg);
  if bytes_eqb type TYPE_RESPONSE then
    id ← lift (value_int #"id" (-1) msg);
    entry ← gets (λ p, p_pending p !! id);
    _ ← modify (call_abandon id);
    match entry with
    | Some h =>
        if contains #"error" msg then
          e ← lift (idx #"error" msg); what ← lift (get_string e); modify (fulfil h (Exn what))
        else v ← lift (value_json #"result" JNull msg); modify (fulfil h (Value v))
    | None => mret tt
    end
  else if bytes_eqb type TYPE_REQUEST then
    id ← lift (value_int #"id" (-1) msg);
    method ← lift (value_string #"method" [] msg);
    params ← lift (value_json #"params" (JObj []) msg);
    handler ← gets m_request_handler;
    match handler with
    | Some h =>
        catching (result ← run_handler h method params; send_frame (result_msg id result))
          (λ e, send_frame (error_msg id e))
    | None => send_frame (error_msg id #"no handler registered")
    end
  else if bytes_eqb type TYPE_NOTIFY then
    method ← lift (value_string #"method" [] msg);
    params ← lift (value_json #"params" JNull msg);
    handler ← gets m_request_handler;
    match handler with
    | Some h => swallow (_ ← run_handler h method params; mret tt)
    | None => mret tt
    end
  else mret tt.

(** Everything that still waits fails. *)
Definition fail_pending (what : bytes) p : process W :=
  set_tables ∅ (complete_all (map_to_list (p_pending p)).*2 (Exn what) (p_promises p)) p.

(** The reader thread after a read failed, and the destructor's last step. *)
Definition reader_exit p : process W := fail_pending (#"child disconnected: " ++ m_plugin_name p) (set_running false p).
Definition destroy p : process W := fail_pending #"plugin process terminated" (set_running false p).

(** The reader thread on the frames of a socket; the count bounds the frames. *)
Fixpoint reader_loop (from_msgpack : bytes → option json) (fuel : nat) (s : list recv_event) : SM (process W) () :=
  match fuel with
  | O => lift NoFuel
  | S fuel =>
      running ← gets m_running;
      if negb running then modify reader_exit else
      match read_msg from_msgpack s with
      | None => modify reader_exit
      | Some (msg, s) => _ ← reader_message msg; reader_loop from_msgpack fuel s
      end
  end.
End process.

(** ** Starting a child *)

(** What the operating system and the child answer while a child is started:
    each call's success, and the response to [init] ([None]: none in 30 s). *)
Record spawn_os := SpawnOs {
  os_socket : bool;
  os_bind : bool;
  os_listen : bool;
  os_fork : bool;
  os_connected : bool;
  os_accept : bool;
  os_init_sent : bool;
  os_init_answer : option completion;
}.

(** The response to [init] must be an object whose ["ok"] is true. *)
Definition init_accepted (answer : option completion) : bool :=
  match answer with
  | Some (Value result) => match value_bool #"ok" false result with Ok ok => ok | _ => false end
  | _ => false
  end.

(** [spawn_plugin_process]: the process object once [init] is answered. *)
Definition spawn_plugin_process {W} (os : spawn_os) (plugin_name : bytes) (init_params : json)
    (handler : bytes → bytes → json → SM W json) (w : W) : option (process W) :=
  if negb (os_socket os) then None else
  if negb (os_bind os) then None else
  if negb (os_listen os) then None else
  if negb (os_fork os) then None else
  if negb (os_connected os) then None else
  if negb (os_accept os) then None else
  if negb (os_init_sent os) then None else
  match os_init_answer os with
  | Some answer =>
      if init_accepted (Some answer)
      then Some (Process plugin_name true false 1 ∅ {[ 0%nat := answer ]} 1 (Some handler) w [request_msg 0 #"init" init_params])
      else None
  | None => None
  end.

(** ** The child's exit (POSIX) *)

Inductive exit_status := Exited (code : Z) | Signaled (sig : Z).
(** The child as the kernel sees it: running, dead with a status nobody has
    collected, or collected. *)
Inductive child := Alive | Zombie (st : exit_status) | Reaped.

(** [waitpid(pid, &status, WNOHANG)]: 0, the status, or [ECHILD]. *)
Inductive waited := NotYet | Status (st : exit_status) | Echild.
Definition waitpid (c : child) : waited * child :=
  match c with Alive => (NotYet, Alive) | Zombie st => (Status st, Reaped) | Reaped => (Echild, Reaped) end.

(** [is_alive] for a positive pid. *)
Definition is_alive (c : child) : bool * child :=
  let '(r, c) := waitpid c in (match r with NotYet => true | _ => false end, c).

(** [detect_child_exit]: [now] at the first look, [later] 200 ms after it when
    the child was still running.  The crash events it raises. *)
Definition detect_child_exit (shutdown_initiated : bool) (name dump_dir : bytes) (now later : child) : list crash_event :=
  if shutdown_initiated then [] else
  let r := match waitpid now with (NotYet, _) => (waitpid later).1 | (r, _) => r end in
  match r with
  | NotYet => []
  | Echild => [CrashEvent name 0 dump_dir []]
  | Status (Signaled sig) => [CrashEvent name sig dump_dir []]
  | Status (Exited code) => if code =? 0 then [] else [CrashEvent name code dump_dir []]
  end.

(** ** Lemmas *)

(** A message the reader thread can take: an object with a text type, integer
    ids, text methods and errors. *)
Definition readable (msg : json) : bool :=
  match value_string #"type" [] msg with
  | Ok t =>
      if bytes_eqb t TYPE_RESPONSE then
        is_ok (value_int #"id" (-1) msg) && match jget #"error" msg with Some e => is_string e | None => true end
      else if bytes_eqb t TYPE_REQUEST then is_ok (value_int #"id" (-1) msg) && is_ok (value_string #"method" [] msg)
      else if bytes_eqb t TYPE_NOTIFY then is_ok (value_string #"method" [] msg)
      else true
  | _ => false
  end.

(** What a waiting call gets from a response. *)
Definition call_completion (msg : json) : completion :=
  match jget #"error" msg with
  | Some (JStr what) => Exn what
  | _ => Value (default JNull (jget #"result" msg))
  end.

Lemma value_int_id id fields : i32 id = id → obj_get #"id" fields = Some (JInt id) → value_int #"id" (-1) (JObj fields) = Ok id.
Proof. intros Hi Ho. unfold value_int. rewrite Ho. unfold get_int. by rewrite Hi. Qed.

Section lemmas.
  Context {W : Type}.
  Implicit Types p : process W.

(** A response completes the call that waits for it and nothing else. *)
Lemma reader_response msg id h p :
  is_response id msg → readable msg = true → p_pending p !! id = Some h →
  reader_message msg p = (Ok (), set_tables (delete id (p_pending p)) (complete h (call_completion msg) (p_promises p)) p).
Proof.
  intros [Ht Hi] Hr Hp. unfold readable in Hr. rewrite Ht, bytes_eqb_refl, Hi in Hr. cbn [is_ok andb] in Hr.
  unfold reader_message. run_simpl. rewrite Ht, bytes_eqb_refl. run_simpl. rewrite Hi. run_simpl. rewrite Hp.
  unfold contains, call_completion. destruct msg as [| | | | | |fields]; try done. unfold idx, value_json, jget in *.
  destruct (obj_get #"error" fields) as [e|].
  - destruct e; try done. run_simpl. by destruct p.
  - destruct (obj_get #"result" fields); run_simpl; by destruct p.
Qed.

(** The reader thread survives every readable message, whatever the handler
    throws. *)
Lemma reader_readable msg p :
  (∀ f method params w, m_request_handler p = Some f → defined (f (m_plugin_name p) method params w).1) →
  readable msg = true → ∃ p', reader_message msg p = (Ok (), p').
Proof.
  intros Hf Hr. unfold readable in Hr. unfold reader_message.
  destruct (value_string #"type" [] msg) as [t|e| |] eqn:Et; try done. run_simpl.
  assert (∃ fields, msg = JObj fields) as [fields ->] by (destruct msg; try done; by eexists).
  destruct (bytes_eqb t TYPE_RESPONSE) eqn:E1.
  { destruct (value_int _ _ _) as [id|e| |] eqn:Ei; try done. run_simpl. cbn [is_ok andb] in Hr.
    destruct (p_pending p !! id) as [h|]; [|eexists; reflexivity]. unfold contains, idx, value_json, jget in *.
    destruct (obj_get #"error" fields) as [[]|]; try done; [eexists; reflexivity|]. destruct (obj_get #"result" fields); eexists; reflexivity. }
  assert (∀ k d, ∃ params, value_json k d (JObj fields) = Ok params) as Hj.
  { intros k d. cbn. destruct (obj_get k fields); eexists; reflexivity. }
  destruct (bytes_eqb t TYPE_REQUEST) eqn:E2.
  { destruct (value_int _ _ _) as [id|e| |] eqn:Ei; try done. run_simpl. cbn [is_ok andb] in Hr.
    destruct (value_string _ _ _) as [m|e| |] eqn:Em; try done. run_simpl.
    destruct (Hj #"params" (JObj [])) as [params ->]. run_simpl.
    destruct (m_request_handler p) as [f|] eqn:Eh; [|eexists; reflexivity].
    unfold catching. rewrite bind_run. unfold run_handler. specialize (Hf f m params (world p) eq_refl).
    destruct (f _ _ _ _) as [[r|e| |] w]; try (by destruct Hf); eexists; reflexivity. }
  destruct (bytes_eqb t TYPE_NOTIFY) eqn:E3; [|eexists; reflexivity].
  destruct (value_string _ _ _) as [m|e| |] eqn:Em; try done. run_simpl.
  destruct (Hj #"params" JNull) as [params ->]. run_simpl.
  destruct (m_request_handler p) as [f|] eqn:Eh; [|eexists; reflexivity].
  unfold swallow. rewrite bind_run. unfold run_handler. specialize (Hf f m params (world p) eq_refl).
  destruct (f _ _ _ _) as [[r|e| |] w]; try (by destruct Hf); eexists; reflexivity.
Qed.
End lemmas.

(** A call waits or has its answer. *)
Definition waits_or_done {W} (p : process W) (k : nat) : Prop :=
  (∃ id, p_pending p !! id = Some k) ∨ is_Some (p_promises p !! k).

Lemma waits_or_done_tables {W} (p p' : process W) k :
  p_pending p' = p_pending p → p_promises p' = p_promises p → waits_or_done p k → waits_or_done p' k.
Proof. unfold waits_or_done. by intros -> ->. Qed.

Lemma run_handler_tables {W} h m a (p p' : process W) o :
  run_handler h m a p = (o, p') → p_pending p' = p_pending p ∧ p_promises p' = p_promises p.
Proof. unfold run_handler. destruct (h _ _ _ _) as [r w]. intros [= _ <-]. by destruct p. Qed.

Lemma fulfil_keeps {W} (p : process W) id h c k :
  p_pending p !! id = Some h → waits_or_done p k → waits_or_done (fulfil h c (call_abandon id p)) k.
Proof.
  intros Hp Hk. unfold waits_or_done in *. destruct p; cbn in *. destruct (decide (k = h)) as [->|Hne].
  - right. apply complete_Some.
  - destruct Hk as [[id' Hk]|[c' Hk]].
    + left. exists id'. apply lookup_delete_Some. split; [|done]. intros ->. congruence.
    + right. exists c'. by apply complete_mono.
Qed.

(** No message loses a caller. *)
Lemma reader_message_keeps {W} msg (p p' : process W) k :
  reader_message msg p = (Ok (), p') → waits_or_done p k → waits_or_done p' k.
Proof.
  unfold reader_message. run_simpl. destruct (value_string #"type" [] msg) as [t|e| |]; try done.
  destruct (bytes_eqb t TYPE_RESPONSE).
  { run_simpl. destruct (value_int _ _ _) as [id|e| |]; try done. run_simpl.
    destruct (p_pending p !! id) as [h|] eqn:Ep; run_simpl.
    - destruct (contains _ _); run_simpl.
      + destruct (idx _ _) as [e| | |]; try done. run_simpl. destruct (get_string e) as [w| | |]; try done.
        intros [= <-]. by apply fulfil_keeps.
      + destruct (value_json _ _ _) as [v| | |]; try done. intros [= <-]. by apply fulfil_keeps.
    - intros [= <-] Hk. destruct Hk as [[id' Hk]|Hk]; [left; exists id'|right; by destruct p].
      destruct p; cbn in *. apply lookup_delete_Some. split; [|done]. intros ->. congruence. }
  destruct (bytes_eqb t TYPE_REQUEST).
  { run_simpl. destruct (value_int _ _ _) as [id|e| |]; try done. run_simpl.
    destruct (value_string _ _ _) as [m|e| |]; try done. run_simpl.
    destruct (value_json _ _ _) as [a|e| |]; try done. run_simpl.
    destruct (m_request_handler p) as [h|]; [|intros [= <-]; apply waits_or_done_tables; by destruct p].
    unfold catching. run_simpl. destruct (run_handler h m a p) as [o p1] eqn:Eh. apply run_handler_tables in Eh as [H1 H2].
    destruct o; try done; intros [= <-]; apply waits_or_done_tables; destruct p1; cbn in *; congruence. }
  destruct (bytes_eqb t TYPE_NOTIFY); [|by intros [= <-]].
  run_simpl. destruct (value_string _ _ _) as [m|e| |]; try done. run_simpl.
  destruct (value_json _ _ _) as [a|e| |]; try done. run_simpl.
  destruct (m_request_handler p) as [h|]; [|by intros [= <-]].
  unfold swallow. run_simpl. destruct (run_handler h m a p) as [o p1] eqn:Eh. apply run_handler_tables in Eh as [H1 H2].
  destruct o; try done; intros [= <-]; by apply waits_or_done_tables.
Qed.

Lemma reader_message_handler {W} msg (p p' : process W) :
  reader_message msg p = (Ok (), p') → m_request_handler p' = m_request_handler p ∧ m_plugin_name p' = m_plugin_name p.
Proof.
  assert (PreOrder (λ p p' : process W, m_request_handler p' = m_request_handler p ∧ m_plugin_name p' = m_plugin_name p)) as HP.
  { split; [done|]. intros ??? [? ?] [? ?]. split; congruence. }
  assert (∀ h m a, steps (λ p p' : process W, m_request_handler p' = m_request_handler p ∧ m_plugin_name p' = m_plugin_name p) (run_handler h m a)) as HR.
  { intros h m a q _. unfold run_handler. destruct (h _ _ _ _) as [r w]. by destruct q. }
  assert (steps (λ p p' : process W, m_request_handler p' = m_request_handler p ∧ m_plugin_name p' = m_plugin_name p) (reader_message msg)) as HS.
  { unfold reader_message, send_frame. steps; apply steps_modify; by intros []. }
  intros E. specialize (HS p). rewrite E in HS. apply HS, Ok_defined.
Qed.

Lemma fail_pending_done {W} what (p : process W) k : waits_or_done p k → is_Some (p_promises (fail_pending what p) !! k).
Proof.
  intros Hk. unfold waits_or_done in Hk. destruct p; cbn in *. destruct Hk as [[id Hk]|[c Hk]].
  - apply complete_all_Some. apply list_elem_of_fmap. exists (id, k). split; [done|]. by apply elem_of_map_to_list.
  - exists c. by apply complete_all_mono.
Qed.

(** ** The two sides together *)

(** A child's handler that answers at once, and the message it answers with. *)
Definition reply_prog (reply : json + bytes) : prog := match reply with inl r => Return r | inr e => Raise e end.
Definition reply_msg (id : Z) (reply : json + bytes) : json :=
  match reply with inl r => result_msg id r | inr e => error_msg id e end.
Definition reply_completion (reply : json + bytes) : completion :=
  match reply with inl r => Value r | inr e => Exn e end.

Lemma request_fields id method params :
  value_string #"type" [] (request_msg id method params) = Ok TYPE_REQUEST ∧
  value_int #"id" (-1) (request_msg id method params) = Ok (i32 id) ∧
  value_string #"method" [] (request_msg id method params) = Ok method ∧
  value_json #"params" JNull (request_msg id method params) = Ok params.
Proof. done. Qed.

Lemma read_msg_frame from_msgpack buf msg rest s :
  Forall (delivers true) s → stream s = frame buf ++ rest → framable MAX_FRAME_SIZE buf → from_msgpack buf = Some msg →
  ∃ s', read_msg from_msgpack s = Some (msg, s') ∧ stream s' = rest ∧ Forall (delivers true) s'.
Proof.
  intros Hd Hs Hb Hf. destruct (read_frame_complete true MAX_FRAME_SIZE s buf rest Hd Hs Hb) as (s' & E & S1 & D1); [done|].
  exists s'. unfold read_msg. rewrite E. cbn [mbind option_bind]. by rewrite Hf.
Qed.

Lemma read_msg_end from_msgpack s : Forall (delivers true) s → stream s = [] → read_msg from_msgpack s = None.
Proof.
  intros Hd Hs. unfold read_msg. destruct (read_frame _ _ _) as [[buf s']|] eqn:E; [|done].
  apply read_frame_sound in E as ((? & _) & (h & _ & E) & _). rewrite Hs in E. symmetry in E.
  apply app_nil in E as [_ E]. apply app_nil in E as [-> _]. unfold len in *. cbn in *. lia.
Qed.

Section together.
  Variable to_msgpack : json → bytes.
  Variable from_msgpack : bytes → option json.
  Variable dump : json → outcome bytes.

Lemma send_idle msg s : outlet s = [] → send_message to_msgpack msg s = (Ok true, set_sent true [] (frame (to_msgpack msg)) msg s).
Proof. intros Ho. unfold send_message, write_msg. rewrite Ho, write_frame_idle. done. Qed.

Lemma answer_reply callf id reply s : outlet s = [] →
  answer to_msgpack id (exec to_msgpack callf (reply_prog reply)) s =
    (Ok (), set_sent true [] (frame (to_msgpack (reply_msg id reply))) (reply_msg id reply) s).
Proof.
  intros Ho. unfold answer, catching, respond, respond_error.
  destruct reply as [r|e]; cbn [reply_prog exec reply_msg]; run_simpl; rewrite send_idle by done; run_simpl; done.
Qed.

(** An idle child reads a request and writes its answer. *)
Lemma child_serves (h : bytes → json → prog) id method params reply i n fuel :
  i32 id = id → h method params = reply_prog reply →
  from_msgpack (to_msgpack (request_msg id method params)) = Some (request_msg id method params) →
  framable MAX_FRAME_SIZE (to_msgpack (request_msg id method params)) →
  Forall (delivers true) i → stream i = frame (to_msgpack (request_msg id method params)) →
  let c := run to_msgpack from_msgpack dump (S n) fuel h [Ready true false []] (rpc_new i []) in
  c.1 = Ok () ∧ wire c.2 = frame (to_msgpack (reply_msg id reply)).
Proof.
  intros Hid Hh Hrt Hfr Hd Hs. rewrite <- (app_nil_r (frame _)) in Hs.
  destruct (read_msg_frame from_msgpack _ _ _ _ Hd Hs Hfr Hrt) as (i' & E & _ & _).
  destruct (request_fields id method params) as (F1 & F2 & F3 & F4). rewrite Hid in F2.
  unfold run, rpc_new. run_simpl. cbn [set_handler run_loop]. run_simpl. cbn [m_connected negb drain_pending_coroutines].
  run_simpl. cbn [m_pending_coroutines]. run_simpl. cbn [List.filter for_each]. run_simpl.
  unfold serve_message, read_message. run_simpl. cbn [inbox]. rewrite E. cbn [set_received]. run_simpl. rewrite F1. run_simpl.
  change (bytes_eqb TYPE_REQUEST TYPE_REQUEST) with true. cbn iota.
  unfold serve. run_simpl. rewrite F2. run_simpl. rewrite F3. run_simpl. rewrite F4.
  rewrite Hh, answer_reply by done. cbn [set_sent app]. run_simpl.
  cbn [drain_deferred drain_pending_coroutines]. run_simpl. cbn [m_deferred_notifications]. run_simpl.
  cbn [m_pending_coroutines]. run_simpl. cbn [run_loop]. run_simpl. done.
Qed.

Lemma reply_response id reply : i32 id = id → is_response id (reply_msg id reply) ∧ readable (reply_msg id reply) = true.
Proof.
  intros Hi. destruct reply; cbn [reply_msg]; unfold is_response, result_msg, error_msg.
  - split; [split; [done|]|]; [by apply value_int_id|]. done.
  - split; [split; [done|]|]; [by apply value_int_id|]. done.
Qed.

Lemma reply_completion_ok id reply : call_completion (reply_msg id reply) = reply_completion reply.
Proof. by destruct reply. Qed.
End together.

(** A call into a plugin comes back with what the plugin's handler
    answered.  The request Millennium writes, read by an idle plugin process
    from any pieces the socket delivers, is served by its handler; the bytes
    the plugin process writes, read by Millennium's reader thread from any
    pieces, complete the caller's promise with the handler's result, or with
    its error as an exception. *)
Theorem plugin_call_served {W} to_msgpack from_msgpack dump (p : process W) h method params reply i i' n fuel fuel' :
  let id := p_next_id p in
  let req := request_msg id method params in
  let resp := reply_msg id reply in
  m_running p = true → i32 id = id → p_promises p !! p_issued p = None →
  h method params = reply_prog reply →
  from_msgpack (to_msgpack req) = Some req → from_msgpack (to_msgpack resp) = Some resp →
  framable MAX_FRAME_SIZE (to_msgpack req) → framable MAX_FRAME_SIZE (to_msgpack resp) →
  Forall (delivers true) i → stream i = (write_msg to_msgpack req []).1.2 →
  let c := run to_msgpack from_msgpack dump (S n) fuel h [Ready true false []] (rpc_new i []) in
  Forall (delivers true) i' → stream i' = wire c.2 →
  let '(_, k, p1) := call_begin method params p in
  let r := reader_loop from_msgpack (S (S fuel')) i' p1 in
  r.1 = Ok () ∧ p_promises r.2 !! k = Some (reply_completion reply).
Proof.
  intros id req resp Hrun Hid Hfresh Hh Hreq Hresp Freq Fresp Hd Hs c Hd' Hs'.
  unfold write_msg in Hs. rewrite write_frame_idle in Hs. cbn [fst snd] in Hs.
  destruct (child_serves to_msgpack from_msgpack dump h id method params reply i n fuel Hid Hh Hreq Freq Hd Hs) as [_ Hw].
  fold c resp in Hw. rewrite Hw, <- (app_nil_r (frame _)) in Hs'.
  destruct (read_msg_frame from_msgpack _ _ _ _ Hd' Hs' Fresp Hresp) as (i2 & E & S2 & D2).
  assert (call_begin method params p = (id, p_issued p, (call_begin method params p).2)) as -> by (by destruct p).
  set (p1 := (call_begin method params p).2).
  assert (m_running p1 = true ∧ p_pending p1 !! id = Some (p_issued p) ∧ p_promises p1 = p_promises p) as (R1 & R2 & R3).
  { subst p1 id. destruct p. split_and!; [done| |done]. exact (lookup_insert_eq _ _ _). }
  clearbody p1. intros r. subst r. destruct (reply_response id reply Hid) as [Hr1 Hr2].
  cbn [reader_loop]. run_simpl. rewrite R1. cbn [negb]. rewrite E. run_simpl.
  unfold resp. rewrite (reader_response _ id (p_issued p) p1 Hr1 Hr2 R2). rewrite reply_completion_ok, R3.
  set (p2 := set_tables _ _ p1). assert (m_running p2 = true) as R4 by (subst p2; by destruct p1).
  assert (p_promises p2 !! p_issued p = Some (reply_completion reply)) as R5.
  { subst p2. unfold complete. rewrite Hfresh. destruct p1. exact (lookup_insert_eq _ _ _). }
  clearbody p2. run_simpl. rewrite R4. cbn [negb]. rewrite read_msg_end by done. cbn [modify fst snd].
  split; [done|]. destruct p2; cbn in *. by apply complete_all_mono.
Qed.

(** The messages the reader thread can take off a socket. *)
Fixpoint incoming (from_msgpack : bytes → option json) (fuel : nat) (s : list recv_event) : list json :=
  match fuel with
  | O => []
  | S fuel => match read_msg from_msgpack s with Some (msg, s) => msg :: incoming from_msgpack fuel s | None => [] end
  end.

(** The reader thread ends in an exception, or in the conversion of a number to
    an [int] it does not fit. *)
Definition fatal {A} (m : outcome A) : Prop := m = UB ∨ ∃ what, m = Throw what.

(** A message that is not readable is fatal or passed over. *)
Lemma reader_unreadable {W} msg (p : process W) : readable msg = false →
  fatal (reader_message msg p).1 ∨ ∃ p', reader_message msg p = (Ok (), p').
Proof.
  assert (∀ k d j, defined (value_string k d j)) as Hs by (intros k d []; cbn; try (destruct (obj_get k _) as [[]|]); by split).
  assert (∀ k d j, value_int k d j ≠ NoFuel) as Hi by (intros; unfold value_int, get_int; repeat case_match; done).
  unfold fatal, readable, reader_message. run_simpl. pose proof (Hs #"type" [] msg). destruct (value_string #"type" [] msg) as [t|e| |] eqn:Et; run_simpl; [|by eauto|by destruct H..].
  assert (∃ fields, msg = JObj fields) as [fields ->] by (destruct msg; try done; by eexists).
  destruct (bytes_eqb t TYPE_RESPONSE).
  { specialize (Hi #"id" (-1) (JObj fields)). destruct (value_int _ _ _) as [id|e| |]; run_simpl; [|by eauto..|done]. cbn [is_ok andb].
    destruct (p_pending p !! id) as [h|]; [|by eauto]. unfold contains, idx, jget. destruct (obj_get #"error" fields) as [e|]; [|done]. run_simpl. destruct e; by eauto. }
  destruct (bytes_eqb t TYPE_REQUEST).
  { specialize (Hi #"id" (-1) (JObj fields)). destruct (value_int _ _ _) as [id|e| |]; run_simpl; [|by eauto..|done]. cbn [is_ok andb].
    specialize (Hs #"method" [] (JObj fields)). destruct (value_string #"method" _ _); run_simpl; [done|by eauto|by destruct Hs..]. }
  destruct (bytes_eqb t TYPE_NOTIFY); [|done].
  specialize (Hs #"method" [] (JObj fields)). destruct (value_string #"method" _ _); run_simpl; [done|by eauto|by destruct Hs..].
Qed.

(** C7: No caller is left waiting.  The reader thread takes what the child
    sends, in any pieces, and ends (a bound on what the socket can still
    deliver is enough fuel).  Either it runs until the channel closes, and by
    then every call that was waiting, and every call already answered, has its
    result or an exception; or an exception leaves its function, which ends the
    program, or a number is converted to an [int] it does not fit, and then the
    child has sent a message that is not readable: no object, or one whose type,
    id, method or error has the wrong type.  The handler of the child's requests
    returns or throws. *)
Theorem process_calls_completed {W} from_msgpack s (p : process W) k :
  (∀ f method params w, m_request_handler p = Some f → defined (f (m_plugin_name p) method params w).1) →
  waits_or_done p k →
  let fuel := S (size s) in
  let r := reader_loop from_msgpack fuel s p in
  (r.1 = Ok () ∧ m_running r.2 = false ∧ p_pending r.2 = ∅ ∧ is_Some (p_promises r.2 !! k)) ∨
  fatal r.1 ∧ Exists (λ msg, readable msg = false) (incoming from_msgpack fuel s).
Proof.
  intros Hf Hk. cbv zeta. assert (size s < S (size s))%nat as Hfuel by lia. revert Hfuel.
  generalize (S (size s)). intros fuel. revert s p Hf Hk. induction fuel as [|fuel IH]; intros s p Hf Hk Hs; [lia|].
  assert (∀ q : process W, waits_or_done q k →
    m_running (reader_exit q) = false ∧ p_pending (reader_exit q) = ∅ ∧ is_Some (p_promises (reader_exit q) !! k)) as Hexit.
  { intros q Hq. split_and!; [by destruct q..|]. apply fail_pending_done. revert Hq. apply waits_or_done_tables; by destruct q. }
  cbn [reader_loop incoming]. run_simpl. destruct (m_running p); cbn [negb]; [|by left; split; [|apply Hexit]].
  destruct (read_msg from_msgpack s) as [[msg s']|] eqn:E; [|by left; split; [|apply Hexit]].
  unfold read_msg in E. apply bind_Some in E as ([buf i] & Ef & E). apply bind_Some in E as (msg' & Em & E).
  injection E as -> ->. apply read_frame_sound in Ef as (_ & _ & Hi & _). run_simpl.
  assert (∀ p', reader_message msg p = (Ok (), p') →
    let r := reader_loop from_msgpack fuel s' p' in
    (r.1 = Ok () ∧ m_running r.2 = false ∧ p_pending r.2 = ∅ ∧ is_Some (p_promises r.2 !! k)) ∨
    fatal r.1 ∧ Exists (λ msg, readable msg = false) (msg :: incoming from_msgpack fuel s')) as Hnext.
  { intros p' Ep. assert (size s' < fuel)%nat as Hlt by lia. destruct (IH s' p') as [Ho|[Ht He]]; [| | |by left|right; split; [done|by right]].
    - destruct (reader_message_handler _ _ _ Ep) as [-> ->]. done.
    - by eapply reader_message_keeps.
    - exact Hlt. }
  destruct (readable msg) eqn:Er.
  - destruct (reader_readable msg p Hf Er) as [p' Ep]. specialize (Hnext p' Ep). rewrite Ep. exact Hnext.
  - destruct (reader_unreadable msg p Er) as [He|[p' Ep]].
    + right. split; [|by left]. destruct (reader_message msg p) as [o p']. cbn [fst] in He. destruct He as [->|[e ->]]; [by left|right; by exists e].
    + specialize (Hnext p' Ep). rewrite Ep. exact Hnext.
Qed.

(** *** Concrete inputs *)

Definition demo_process : process unit := Process #"demo" true false 1 ∅ ∅ 0 None tt [].
Definition demo_req : json := request_msg 1 #"evaluate" (JStr #"x").
Definition demo_resp : json := result_msg 1 (JInt 5).
Definition demo_to (j : json) : bytes := if decide (j = demo_req) then [x01] else [x02].
Definition demo_from (b : bytes) : option json := if decide (b = [x01]) then Some demo_req else Some demo_resp.

Lemma plugin_call_served_witness :
  let i := [Chunk [x01; x00]; Interrupted; Chunk [x00; x00; x01]] in
  let c := run demo_to demo_from demo_print 1 0 (λ _ _, Return (JInt 5)) [Ready true false []] (rpc_new i []) in
  let i' := [Chunk [x01]; Chunk [x00; x00; x00; x02]] in
  let r := reader_loop demo_from 2 i' (call_begin #"evaluate" (JStr #"x") demo_process).2 in
  wire c.2 = [x01; x00; x00; x00; x02] ∧ r.1 = Ok () ∧ p_promises r.2 !! 0%nat = Some (Value (JInt 5)).
Proof.
  split; [by vm_compute|].
  apply (plugin_call_served demo_to demo_from demo_print demo_process (λ _ _, Return (JInt 5)) #"evaluate" (JStr #"x") (inl (JInt 5))
           [Chunk [x01; x00]; Interrupted; Chunk [x00; x00; x01]] [Chunk [x01]; Chunk [x00; x00; x00; x02]] 0 0 0); try done.
  - repeat constructor; done.
  - repeat constructor; done.
Defined.

(** The response and then a frame cut short; the response and then one with an
    id that is a text. *)
Definition demo_wild (b : bytes) : option json := if decide (b = [x03]) then Some (JObj [(#"id", JStr #"x"); (#"type", JStr TYPE_RESPONSE)]) else Some demo_resp.
Lemma process_calls_completed_witness :
  let p := (call_begin #"evaluate" JNull demo_process).2 in
  let outcome s := let r := reader_loop demo_wild (S (size s)) s p in
    (r.1 = Ok () ∧ m_running r.2 = false ∧ p_pending r.2 = ∅ ∧ is_Some (p_promises r.2 !! 0%nat)) ∨
    fatal r.1 ∧ Exists (λ msg, readable msg = false) (incoming demo_wild (S (size s)) s) in
  outcome [Chunk (frame [x02]); Chunk [x07]] ∧ outcome [Chunk (frame [x02]); Chunk (frame [x03])] ∧
  (reader_loop demo_wild 20 [Chunk (frame [x03])] p).1 = Throw json_error.
Proof.
  split; [|split].
  - apply (process_calls_completed demo_wild [Chunk (frame [x02]); Chunk [x07]]); [done|left; by exists 1].
  - apply (process_calls_completed demo_wild [Chunk (frame [x02]); Chunk (frame [x03])]); [done|left; by exists 1].
  - by vm_compute.
Defined.

(** The reader thread has no exception boundary: a message that is not an
    object, or a response whose error is not text, ends the host process. *)
Theorem malformed_message_terminates_host {W} (p : process W) h :
  reader_message (JInt 1) p = (Throw json_error, p) ∧
  (p_pending p !! 1 = Some h → (reader_message (jobj [(#"type", JStr #"res"); (#"id", JInt 1); (#"error", JInt 5)]) p).1 = Throw json_error).
Proof.
  split; [done|]. intros Hp. unfold reader_message. run_simpl.
  change (value_string #"type" [] _) with (Ok TYPE_RESPONSE). cbn iota. change (bytes_eqb TYPE_RESPONSE TYPE_RESPONSE) with true.
  run_simpl. change (value_int _ _ _) with (Ok 1). cbn iota. run_simpl. rewrite Hp. done.
Qed.

(** A plugin that exits cleanly is reported as crashed when its exit status
    was collected first, as [is_alive] does. *)
Theorem clean_exit_reported_as_crash name dir :
  let c := (is_alive (Zombie (Exited 0))).2 in
  detect_child_exit false name dir (Zombie (Exited 0)) Reaped = [] ∧
  detect_child_exit false name dir c c = [CrashEvent name 0 dir []].
Proof. done. Qed.
