(* ===== verification/Lifecycle.v ===== *)
(** * Lifecycle: when all backends are ready

    [engine/lifecycle.cc]: the [backend_event_dispatcher].  Plugin backends
    report that they have loaded or failed; callbacks that wait for all enabled
    backends run when as many have reported as are enabled.  What the plugin
    manager answers for the enabled backends is an argument of each operation;
    callbacks act on a world of their own and do not call the dispatcher back,
    as the two callbacks the program installs do not. *)

From S2P Require Import Prelude State.

Inductive backend_ready_event := BACKEND_LOAD_SUCCESS | BACKEND_LOAD_FAILED.
#[export] Instance backend_ready_event_eq : EqDecision backend_ready_event.
Proof. solve_decision. Defined.

(** [backend_event_dispatcher::plugin_t] *)
Record report := Report { r_name : bytes; r_event : backend_ready_event }.

(** [listeners] has one event; [invoked] is the order in which callbacks were
    called. *)
Record dispatcher (Cb W : Type) := Dispatcher {
  is_ready_for_cb : bool;
  emittedPlugins : list report;
  missedEvents : nat;
  listeners : option (list Cb);
  invoked : list Cb;
  cb_world : W;
}.
Arguments Dispatcher {_ _} _ _ _ _ _ _.
Arguments is_ready_for_cb {_ _} _.
Arguments emittedPlugins {_ _} _.
Arguments missedEvents {_ _} _.
Arguments listeners {_ _} _.
Arguments invoked {_ _} _.
Arguments cb_world {_ _} _.

Section dispatcher.
  Context {Cb W : Type}.
  Variable run_cb : Cb → SM W ().
  Implicit Types d : dispatcher Cb W.
  Abbreviation M := (SM (dispatcher Cb W)).

Definition set_emitted (l : list report) d : dispatcher Cb W :=
  Dispatcher (is_ready_for_cb d) l (missedEvents d) (listeners d) (invoked d) (cb_world d).
Definition set_listeners (l : option (list Cb)) d : dispatcher Cb W :=
  Dispatcher (is_ready_for_cb d) (emittedPlugins d) (missedEvents d) l (invoked d) (cb_world d).
Definition set_ready d : dispatcher Cb W :=
  Dispatcher true (emittedPlugins d) (missedEvents d) (listeners d) (invoked d) (cb_world d).
Definition add_missed d : dispatcher Cb W :=
  Dispatcher (is_ready_for_cb d) (emittedPlugins d) (S (missedEvents d)) (listeners d) (invoked d) (cb_world d).

(** A callback is called with the lock released. *)
Definition call_cb (cb : Cb) : M () := λ d,
  let '(r, w) := run_cb cb (cb_world d) in
  (r, Dispatcher (is_ready_for_cb d) (emittedPlugins d) (missedEvents d) (listeners d) (invoked d ++ [cb]) w).

(** The names in the log line; the last separator is cut off. *)
Definition backends_with (ev : backend_ready_event) (l : list report) : bytes :=
  let s := concat (map (λ r, r_name r ++ #", ") (List.filter (λ r, bool_decide (r_event r = ev)) l)) in
  if bytes_eqb s [] then #"none" else #"[" ++ take (length s - 2) s ++ #"]".
Definition str_get_failed_backends d : bytes := backends_with BACKEND_LOAD_FAILED (emittedPlugins d).
Definition str_get_successful_backends d : bytes := backends_with BACKEND_LOAD_SUCCESS (emittedPlugins d).

Definition are_all_backends_ready (enabled : outcome (list bytes)) : M bool :=
  backends ← lift enabled;
  d ← gets id;
  mret (bool_decide (length (emittedPlugins d) = length backends)).

Definition update (enabled : outcome (list bytes)) : M () :=
  ready ← are_all_backends_ready enabled;
  if (ready : bool) then
    l ← gets listeners;
    match l with
    | Some callbacks =>
        _ ← modify (set_listeners (Some []));
        _ ← for_each (λ cb, swallow (call_cb cb)) callbacks;
        modify set_ready
    | None => modify add_missed
    end
  else mret tt.

(** The report of a plugin replaces its earlier one in place. *)
Fixpoint emit (r : report) (l : list report) : list report :=
  match l with
  | [] => [r]
  | x :: l => if bytes_eqb (r_name x) (r_name r) then r :: l else x :: emit r l
  end.

Definition backend_loaded_event_hdlr (enabled : outcome (list bytes)) (plugin : report) : M () :=
  _ ← modify (λ d, set_emitted (emit plugin (emittedPlugins d)) d);
  update enabled.

Definition backend_unloaded_event_hdlr (enabled : outcome (list bytes)) (name : bytes) (isShuttingDown : bool) : M () :=
  _ ← modify (λ d, set_emitted (List.filter (λ r, negb (bytes_eqb (r_name r) name)) (emittedPlugins d)) d);
  if negb isShuttingDown then update enabled else mret tt.

Definition reset : M () :=
  modify (λ d, Dispatcher (is_ready_for_cb d) [] 0 None (invoked d) (cb_world d)).

Definition on_all_backends_ready (enabled : outcome (list bytes)) (callback : Cb) : M () :=
  _ ← modify (λ d, set_listeners (Some (default [] (listeners d) ++ [callback])) d);
  update enabled.

Definition dispatcher_new (w : W) : dispatcher Cb W := Dispatcher false [] 0 None [] w.

(** Operations, each with the backends enabled when it runs. *)
Inductive lifecycle_op := Loaded (r : report) | Unloaded (name : bytes) (isShuttingDown : bool) | OnReady (cb : Cb).

Definition run_op (enabled : list bytes) (op : lifecycle_op) : M () :=
  match op with
  | Loaded r => backend_loaded_event_hdlr (Ok enabled) r
  | Unloaded name sd => backend_unloaded_event_hdlr (Ok enabled) name sd
  | OnReady cb => on_all_backends_ready (Ok enabled) cb
  end.

Fixpoint run_ops (ops : list (list bytes * lifecycle_op)) : M () :=
  match ops with
  | [] => mret tt
  | (enabled, op) :: ops => _ ← run_op enabled op; run_ops ops
  end.

(** ** Lemmas *)

Definition pending d : list Cb := default [] (listeners d).
Definition names d : list bytes := map r_name (emittedPlugins d).
Definition registered (op : lifecycle_op) : list Cb := match op with OnReady cb => [cb] | _ => [] end.
Definition looks (op : lifecycle_op) : bool := match op with Unloaded _ sd => negb sd | _ => true end.

  Hypothesis callbacks_defined : ∀ cb w, defined (run_cb cb w).1.

Lemma call_all callbacks d : ∃ w',
  for_each (λ cb, swallow (call_cb cb)) callbacks d =
    (Ok (), Dispatcher (is_ready_for_cb d) (emittedPlugins d) (missedEvents d) (listeners d) (invoked d ++ callbacks) w').
Proof.
  revert d. induction callbacks as [|cb cbs IH]; intros d; cbn [for_each].
  { exists (cb_world d). rewrite app_nil_r. by destruct d. }
  rewrite bind_run. unfold swallow at 1, call_cb at 1. specialize (callbacks_defined cb (cb_world d)).
  destruct (run_cb cb (cb_world d)) as [[[]|e| |] w]; try (by destruct callbacks_defined); cbn beta iota.
  all: destruct (IH (Dispatcher (is_ready_for_cb d) (emittedPlugins d) (missedEvents d) (listeners d) (invoked d ++ [cb]) w)) as [w' ->].
  all: exists w'; cbn; by rewrite <- app_assoc.
Qed.

(** [update] runs everything that waits when the counts agree, and nothing
    otherwise. *)
Lemma update_spec enabled d :
  ∃ d', update (Ok enabled) d = (Ok (), d') ∧ emittedPlugins d' = emittedPlugins d ∧
    if decide (length (names d) = length enabled)
    then invoked d' = invoked d ++ pending d ∧ pending d' = []
    else invoked d' = invoked d ∧ pending d' = pending d.
Proof.
  unfold names. rewrite length_map. unfold update, are_all_backends_ready. run_simpl. unfold id. destruct (decide _) as [Hl|Hl].
  - rewrite bool_decide_true by done. run_simpl. destruct (listeners d) as [l|] eqn:El.
    + run_simpl. destruct (call_all l (set_listeners (Some []) d)) as [w ->]. run_simpl. eexists. split; [done|].
      unfold pending. rewrite El. by destruct d.
    + run_simpl. eexists. split; [done|]. unfold pending. destruct d; cbn in *. subst. by rewrite app_nil_r.
  - rewrite bool_decide_false by done. run_simpl. by exists d.
Qed.

End dispatcher.
Arguments lifecycle_op : clear implicits.

Lemma emit_names r l : map r_name (emit r l) = if decide (r_name r ∈ map r_name l) then map r_name l else map r_name l ++ [r_name r].
Proof.
  induction l as [|x l IH]; [done|]. cbn [emit]. destruct (bytes_eqb _ _) eqn:E.
  - apply bytes_eqb_true in E. cbn. rewrite E. rewrite decide_True; [done|left].
  - cbn. rewrite IH. assert (r_name x ≠ r_name r) as Hn. { intros Hx. rewrite Hx, bytes_eqb_refl in E. done. }
    do 2 destruct (decide _) as [?|?]; try done; exfalso; set_solver.
Qed.

Lemma emit_NoDup r l : NoDup (map r_name l) → NoDup (map r_name (emit r l)).
Proof.
  intros Hl. rewrite emit_names. case_decide; [done|]. apply NoDup_app. split; [done|]. split; [set_solver|apply NoDup_singleton].
Qed.

Lemma filter_names_NoDup f l : NoDup (map r_name l) → NoDup (map r_name (List.filter f l)).
Proof.
  induction l as [|x l IH]; [done|]. cbn. intros [Hx Hl]%NoDup_cons. destruct (f x); [|by auto]. cbn. apply NoDup_cons. split; [|by auto].
  intros Hin. apply Hx. apply list_elem_of_In, in_map_iff in Hin as (y & Hy & Hin). apply filter_In in Hin as [Hin _].
  apply list_elem_of_In, in_map_iff. by exists y.
Qed.

Section runs.
  Context {Cb W : Type}.
  Variable run_cb : Cb → SM W ().
  Hypothesis callbacks_defined : ∀ cb w, defined (run_cb cb w).1.
  Implicit Types d : dispatcher Cb W.

(** What one operation does to the reports, and to the callbacks. *)
Lemma run_op_spec enabled op d :
  NoDup (names d) →
  ∃ d', run_op run_cb enabled op d = (Ok (), d') ∧ NoDup (names d') ∧
    if decide (looks op = true ∧ length (names d') = length enabled)
    then invoked d' = invoked d ++ pending d ++ registered op ∧ pending d' = []
    else invoked d' = invoked d ∧ pending d' = pending d ++ registered op.
Proof.
  intros Hn. destruct op as [r|name sd|cb]; cbn [run_op registered].
  - unfold backend_loaded_event_hdlr. run_simpl.
    destruct (update_spec run_cb callbacks_defined enabled (set_emitted (emit r (emittedPlugins d)) d)) as (d' & -> & He & Hu).
    exists d'. split; [done|]. unfold names in *. rewrite He in *. cbn [set_emitted emittedPlugins] in *. split.
    { by apply emit_NoDup. }
    rewrite app_nil_r. repeat case_decide; naive_solver.
  - unfold backend_unloaded_event_hdlr. run_simpl.
    set (d1 := set_emitted (List.filter _ _) d). assert (NoDup (names d1)) as Hn1 by (by apply filter_names_NoDup).
    rewrite app_nil_r. destruct sd; cbn [negb looks].
    { exists d1. split; [done|]. split; [done|]. rewrite decide_False by naive_solver. by destruct d. }
    destruct (update_spec run_cb callbacks_defined enabled d1) as (d' & -> & He & Hu). exists d'. split; [done|].
    unfold names in *. rewrite He in *. split; [done|]. repeat case_decide; destruct d; rewrite ?app_nil_r; naive_solver.
  - unfold on_all_backends_ready. run_simpl.
    destruct (update_spec run_cb callbacks_defined enabled (set_listeners (Some (default [] (listeners d) ++ [cb])) d)) as (d' & -> & He & Hu).
    exists d'. split; [done|]. unfold names in *. rewrite He in *. split; [by destruct d|]. unfold pending in *.
    repeat case_decide; destruct d; naive_solver.
Qed.

Lemma run_ops_spec ops d :
  NoDup (names d) →
  ∃ d', run_ops run_cb ops d = (Ok (), d') ∧ NoDup (names d') ∧
    invoked d' ++ pending d' = invoked d ++ pending d ++ concat (map (λ o, registered o.2) ops).
Proof.
  revert d. induction ops as [|[enabled op] ops IH]; intros d Hn; cbn [run_ops].
  { exists d. split; [done|]. split; [done|]. by rewrite app_nil_r. }
  destruct (run_op_spec enabled op d Hn) as (d1 & H1 & Hn1 & Hc). rewrite bind_run, H1.
  destruct (IH d1 Hn1) as (d2 & -> & Hn2 & Heq). exists d2. split; [done|]. split; [done|]. rewrite Heq. cbn.
  case_decide; destruct Hc as [-> ->]; cbn; by rewrite <- ?app_assoc.
Qed.
End runs.

(** Callbacks wait for the backends and run once.  After any sequence of
    reports, unloads and registrations, whatever the callbacks throw, the
    callbacks called so far followed by those that wait are the registered
    ones, in order: none is lost, none runs twice.  An operation after which
    as many backends have reported as are enabled leaves none waiting, and an
    operation that calls any has, when every report is from an enabled backend,
    a report from every enabled backend. *)
Theorem ready_callbacks_run_once {Cb W} (run_cb : Cb → SM W ()) ops enabled op w :
  (∀ cb w, defined (run_cb cb w).1) →
  ∃ d d', run_ops run_cb ops (dispatcher_new w) = (Ok (), d) ∧ run_op run_cb enabled op d = (Ok (), d') ∧
    invoked d' ++ pending d' = concat (map (λ o, registered o.2) ops) ++ registered op ∧
    (looks op = true → length (names d') = length enabled → pending d' = []) ∧
    (invoked d' ≠ invoked d → names d' ⊆ enabled → enabled ⊆ names d').
Proof.
  intros Hcb. destruct (run_ops_spec run_cb Hcb ops (dispatcher_new w)) as (d & Hd & Hn & Heq); [apply NoDup_nil_2|].
  destruct (run_op_spec run_cb Hcb enabled op d Hn) as (d' & Hd' & Hn' & Hc). exists d, d'. split; [done|]. split; [done|].
  cbn [invoked pending listeners dispatcher_new default app] in Heq. case_decide as Hx; destruct Hc as [-> Hp]; rewrite Hp.
  - destruct Hx as [Hl Hlen]. split; [|split; [done|]].
    { rewrite app_nil_r, app_assoc, Heq. done. }
    intros _ Hs x Hx. apply list_elem_of_In. revert x Hx. unfold names in *.
    assert (incl enabled (map r_name (emittedPlugins d'))) as Hi.
    { apply NoDup_length_incl; [by apply NoDup_ListNoDup|by rewrite Hlen|]. intros y Hy. apply list_elem_of_In, Hs. by apply list_elem_of_In. }
    intros x Hx. apply Hi. by apply list_elem_of_In.
  - split; [by rewrite app_assoc, Heq|]. split; [naive_solver|done].
Qed.

(** Two backends start; the callback, which throws, is registered first. *)
Definition demo_cb (n : nat) : SM (list nat) () := λ l, (Throw #"no connection", l ++ [n]).
Definition demo_ops : list (list bytes * lifecycle_op nat) :=
  let on := [ #"a"; #"b"] in
  [(on, OnReady 1%nat); (on, Loaded (Report #"a" BACKEND_LOAD_SUCCESS)); (on, OnReady 2%nat)].

Lemma ready_callbacks_run_once_witness :
  ∃ d d', run_ops demo_cb demo_ops (dispatcher_new []) = (Ok (), d) ∧
    run_op demo_cb [ #"a"; #"b"] (Loaded (Report #"b" BACKEND_LOAD_FAILED)) d = (Ok (), d') ∧
    invoked d = [] ∧ invoked d' ++ pending d' = [1; 2]%nat.
Proof.
  destruct (ready_callbacks_run_once demo_cb demo_ops [ #"a"; #"b"] (Loaded (Report #"b" BACKEND_LOAD_FAILED)) []) as (d & d' & H1 & H2 & H3 & _).
  { done. }
  exists d, d'. split; [done|]. split; [done|]. split; [|exact H3].
  vm_compute in H1. by injection H1 as <-.
Defined.

(** The test compares counts.  While [x] is still loading, turning off two of
    the loaded backends at once calls the callbacks: the first unload leaves
    as many reports as there are enabled backends. *)
Theorem ready_before_every_backend :
  let on := [ #"a"; #"c"; #"d"; #"x"] in let off := [ #"a"; #"x"] in
  let loaded n := (on, Loaded (Report n BACKEND_LOAD_SUCCESS)) in
  let r := run_ops demo_cb [loaded #"a"; loaded #"c"; loaded #"d"; (on, OnReady 1%nat); (off, Unloaded #"c" false)] (dispatcher_new []) in
  invoked r.2 = [1%nat] ∧ names r.2 = [ #"a"; #"d"].
Proof. by vm_compute. Qed.
