(* ===== verification/CoreIpc.v ===== *)
(** * CoreIpc: calls between frontends and backends

    [engine/core_ipc.cc] and [lua_host/lua_interop.cc]: the messages of the
    pages (call a backend function, a frontend has loaded, the settings of a
    plugin) and of the plugin backends (call a frontend function).  The
    debugger's answer to an evaluated script, the built-in functions, the
    plugin processes and the text forms of doubles and JSON are parameters. *)

From Stdlib Require Import SpecFloat.
From S2P Require Import Prelude State Json StarFile Css Ring Recorder Config Base64 PluginConfig.

(** What the handlers act on: the settings, and what was sent out: notes of
    changed settings, entries of the call recorder, evaluated scripts, plugins
    told that their frontend has loaded. *)
Record ipc_world (Store : Type) := IpcWorld {
  w_store : Store;
  w_notes : list note;
  w_recorded : list ffi_call_entry;
  w_scripts : list (bytes * bool);
  w_loaded : list bytes;
}.
Arguments IpcWorld {_} _ _ _ _ _.
Arguments w_store {_} _.
Arguments w_notes {_} _.
Arguments w_recorded {_} _.
Arguments w_scripts {_} _.
Arguments w_loaded {_} _.

Section world.
  Context {Store : Type}.
  Implicit Types w : ipc_world Store.
Definition put_store (s : Store) w : ipc_world Store := IpcWorld s (w_notes w) (w_recorded w) (w_scripts w) (w_loaded w).
Definition add_notes (l : list note) w : ipc_world Store := IpcWorld (w_store w) (w_notes w ++ l) (w_recorded w) (w_scripts w) (w_loaded w).
Definition add_record (e : ffi_call_entry) w : ipc_world Store := IpcWorld (w_store w) (w_notes w) (w_recorded w ++ [e]) (w_scripts w) (w_loaded w).
Definition add_script (s : bytes) (by_value : bool) w : ipc_world Store :=
  IpcWorld (w_store w) (w_notes w) (w_recorded w) (w_scripts w ++ [(s, by_value)]) (w_loaded w).
Definition add_loaded (p : bytes) w : ipc_world Store := IpcWorld (w_store w) (w_notes w) (w_recorded w) (w_scripts w) (w_loaded w ++ [p]).
End world.

(** [j[k]] on a value that may be changed: a missing key reads as null. *)
Definition mut_idx (k : bytes) (j : json) : outcome json :=
  match j with
  | JObj o => Ok (default JNull (obj_get k o))
  | JNull => Ok JNull
  | _ => Throw json_error
  end.

(** [get<int64_t>()] of an integer. *)
Definition i64 (z : Z) : Z := (z + 2 ^ 63) mod 2 ^ 64 - 2 ^ 63.

(** The enumerations of [core_ipc.h]. *)
Definition CALL_SERVER_METHOD : Z := 0.
Definition FRONT_END_LOADED : Z := 1.
Definition CALL_FRONTEND_METHOD : Z := 2.
Definition PLUGIN_CONFIG : Z := 3.
Definition CONFIG_GET : Z := 0.
Definition CONFIG_SET : Z := 1.
Definition CONFIG_DELETE : Z := 2.
Definition CONFIG_GET_ALL : Z := 3.
Definition CONFIG_DELETE_ALL : Z := 4.
Definition INTERNAL_ERROR : Z := 1.

(** [javascript_parameter]: the argument kinds a frontend call passes on. *)
Inductive javascript_parameter := PBool (b : bool) | PInt (z : Z) | PDouble (f : spec_float) | PString (s : bytes).

(** The arguments of [call_frontend_method]: what is not a string, a boolean
    or a number is skipped. *)
Definition javascript_parameters (args : list json) : list javascript_parameter :=
  omap (λ arg, match arg with
               | JStr s => Some (PString s)
               | JBool b => Some (PBool b)
               | JFloat f => Some (PDouble f)
               | JInt z => Some (PInt (i64 z))
               | _ => None
               end) args.

Fixpoint join_args (l : list bytes) : bytes :=
  match l with [] => [] | [x] => x | x :: l => x ++ #", " ++ join_args l end.

Definition newline : byte := x0a.
Definition line (s : bytes) : bytes := s ++ [newline].

(** The check in front of a frontend call. *)
Definition error_handler (plugin : bytes) : bytes :=
  line [] ++
  line #"        if (typeof window !== 'undefined' && typeof window.MillenniumFrontEndError === 'undefined') {" ++
  line #"            window.MillenniumFrontEndError = class MillenniumFrontEndError extends Error {" ++
  line #"                constructor(message) {" ++
  line #"                    super(message);" ++
  line #"                    this.name = 'MillenniumFrontEndError';" ++
  line #"                }" ++
  line #"            }" ++
  line #"        }" ++
  line (#"        if (typeof PLUGIN_LIST === 'undefined' || !PLUGIN_LIST?.['" ++ plugin ++ #"']) {") ++
  line #"            throw new window.MillenniumFrontEndError('frontend not loaded yet!');" ++
  line #"        }" ++
  #"    ".

Section ipc.
  Context `{SettingsStore Store}.
  Variable dump : json → outcome bytes.
  (** [json::parse] without exceptions. *)
  Variable parse : bytes → option json.
  Variable fmt_double : spec_float → bytes.
  (** The debugger's answer to [Runtime.evaluate], or the exception of the
      call. *)
  Variable cdp_evaluate : bytes → bool → outcome json.
  (** The order in which the compiler evaluates the arguments of a
      constructor. *)
  Variable left_to_right : bool.
  (** [function_map] of the built-in backend, when it still exists. *)
  Variable functions : option (list (bytes * (list bytes * (json → SM (ipc_world Store) json)))).
  (** [backend_manager::evaluate], when the manager still exists. *)
  Variable bm_evaluate : option (bytes → json → SM (ipc_world Store) json).
  Variable all_plugins : list plugin_t.
  (** The duration and time stamp of a recorded call. *)
  Variable clock : spec_float * Z.
  Abbreviation M := (SM (ipc_world Store)).

(** ** Scripts in the frontend *)

Definition render_parameter (p : javascript_parameter) : bytes :=
  match p with
  | PString s => atob (Base64Encode s)
  | PBool b => if b then #"true" else #"false"
  | PInt z => fmt_int z
  | PDouble f => fmt_double f
  end.

Definition compile_javascript_expression (plugin methodName : bytes) (fnParams : list javascript_parameter) : bytes :=
  error_handler plugin ++ #"window.PLUGIN_LIST['" ++ plugin ++ #"']." ++ methodName ++ #"(" ++
  join_args (map render_parameter fnParams) ++ #");".

(** The payload and whether it is a result.  The payload of an exception is
    moved into the result in the same expression that reads its text. *)
Definition evaluate_javascript_expression (script : bytes) (return_by_value : bool) : M (json * bool) :=
  _ ← modify (add_script script return_by_value);
  catching
    (result ← lift (cdp_evaluate script return_by_value);
     if contains #"exceptionDetails" result then
       details ← lift (mut_idx #"exceptionDetails" result);
       exception ← lift (mut_idx #"exception" details);
       description ← lift (mut_idx #"description" exception);
       _ ← lift (get_string (if left_to_right then JNull else description));
       mret (description, false)
     else
       value ← lift (mut_idx #"result" result);
       mret (value, true))
    (λ _, mret (JNull, false)).

Definition to_json (pluginName : bytes) (r : json * bool) : json :=
  jobj [(#"returnJson", r.1); (#"pluginName", JStr pluginName); (#"success", JBool r.2)].

Definition call_frontend_method (call : json) : M json :=
  data ← lift (idx #"data" call);
  params ← (if contains #"argumentList" data
            then args ← lift (idx #"argumentList" data); mret (javascript_parameters (elements args))
            else mret []);
  pluginName ← lift (j ← idx #"pluginName" data; get_string j);
  methodName ← lift (j ← idx #"methodName" data; get_string j);
  return_by_value ← lift (value_bool #"return_by_value" false data);
  eval_result ← evaluate_javascript_expression (compile_javascript_expression pluginName methodName params) return_by_value;
  _ ← (if bytes_eqb pluginName [] then mret tt else
         args ← lift (dump data);
         result ← lift (dump (to_json pluginName eval_result));
         caller ← lift (value_string #"caller" [] data);
         modify (add_record (FfiCallEntry pluginName methodName #"be_to_fe" args result clock.1 clock.2 caller)));
  mret (to_json pluginName eval_result).

(** ** Calls of backend functions *)

(** [ipc_message_hdlr]: arguments given by position get the registered names. *)
Fixpoint zip_args (names : list bytes) (args : list json) : list (bytes * json) :=
  match names, args with n :: names, a :: args => (n, a) :: zip_args names args | _, _ => [] end.

Definition ipc_message_hdlr (fs : list (bytes * (list bytes * (json → M json)))) (functionName : bytes) (args : json) : M json :=
  if bytes_eqb functionName #"__builtins__.__millennium_plugin_settings_parser__" then lift (Throw #"Not applicable to this plugin") else
  match obj_get functionName fs with
  | None => lift (Throw (#"Function not found: " ++ functionName))
  | Some (param_names, fn) => fn match args with JArr l => jobj (zip_args param_names l) | _ => args end
  end.

(** [vm_call_result]: the success flag and the value. *)
Definition handle_core_server_method (call : json) : M (bool * json) :=
  catching
    (match functions with
     | None => mret (false, JStr #"millennium_backend is no longer available")
     | Some fs =>
         data ← lift (idx #"data" call);
         functionName ← lift (j ← idx #"methodName" data; get_string j);
         args ← (if contains #"argumentList" data then lift (idx #"argumentList" data) else mret (JObj []));
         result ← ipc_message_hdlr fs functionName args;
         mret (true, result)
     end)
    (λ e, mret (false, JStr e)).

Definition lua_value (val : json) : json :=
  match val with
  | JStr s => default (JStr s) (parse s)
  | JInt z => JInt (i64 z)
  | _ => val
  end.

Definition lua_evaluate (pluginName : bytes) (script : json) : M (bool * json) :=
  match bm_evaluate with
  | None => mret (false, JStr #"backend_manager is no longer available")
  | Some evaluate =>
      result ← evaluate pluginName script;
      match jget #"success" result with
      | Some (JBool true) => mret (true, match jget #"value" result with Some v => lua_value v | None => JNull end)
      | _ => error ← lift (value_string #"error" #"unknown error from child process" result); mret (false, JStr error)
      end
  end.

Definition call_server_method (call : json) : M json :=
  data ← lift (idx #"data" call);
  if negb (contains #"pluginName" data) then
    mret (JObj [(#"success", JBool false); (#"returnJson", JStr #"no plugin backend specified")])
  else
    pluginName ← lift (j ← idx #"pluginName" data; get_string j);
    response ← (if bytes_eqb pluginName #"core" then handle_core_server_method call else lua_evaluate pluginName data);
    mret (JObj [(#"success", JBool response.1); (#"pluginName", JStr pluginName); (#"returnJson", response.2)]).

Definition lua_call_frontend_loaded (pluginName : bytes) : M () :=
  match bm_evaluate with None => mret tt | Some _ => modify (add_loaded pluginName) end.

Definition on_front_end_loaded (call : json) : M json :=
  data ← lift (idx #"data" call);
  pluginName ← lift (j ← idx #"pluginName" data; get_string j);
  _ ← match List.find (λ p, bytes_eqb (plugin_name p) pluginName) all_plugins with
      | Some p =>
          useBackend ← lift (value_bool #"useBackend" true (plugin_json p));
          if useBackend : bool then lua_call_frontend_loaded pluginName else mret tt
      | None => mret tt
      end;
  id ← (if contains #"iteration" call then lift (idx #"iteration" call) else mret JNull);
  mret (JObj [(#"id", id); (#"success", JBool true)]).

(** ** Settings of plugins *)

(** [plugin_config] on the shared store: the operations of [PluginConfig],
    with what they leave behind when a later step throws. *)
Definition store_set (t : notify_targets) (src : origin) (plugin_name key : bytes) (value : json) : M result :=
  if bytes_eqb key [] then mret (fail #"missing key") else
  s ← gets w_store;
  err ← lift (validate_limits dump s plugin_name key value);
  if negb (bytes_eqb err []) then mret (fail err) else
  s ← lift (s_set s (base_path plugin_name ++ [ #"config"]) key value true);
  _ ← modify (put_store s);
  s ← lift (s_save s);
  _ ← modify (put_store s);
  notes ← lift (notify_change dump t src plugin_name key value);
  _ ← modify (add_notes notes);
  mret success.

Definition store_write (plugin_name : bytes) (config : json) : M () :=
  s ← gets w_store;
  s ← lift (s_set s (base_path plugin_name) #"config" config true);
  _ ← modify (put_store s);
  s ← lift (s_save s);
  _ ← modify (put_store s);
  mret tt.

Definition store_del (t : notify_targets) (src : origin) (plugin_name key : bytes) : M result :=
  if is_reserved_name plugin_name then mret (fail (#"reserved plugin name: " ++ plugin_name)) else
  if bytes_eqb key [] then mret (fail #"missing key") else
  s ← gets w_store;
  config ← lift (del_read s plugin_name key);
  _ ← store_write plugin_name config;
  notes ← lift (notify_change dump t src plugin_name key JNull);
  _ ← modify (add_notes notes);
  mret success.

Definition store_delete_all (plugin_name : bytes) : M result :=
  if bytes_eqb plugin_name [] then mret (fail #"missing pluginName") else
  if is_reserved_name plugin_name then mret (fail (#"reserved plugin name: " ++ plugin_name)) else
  _ ← store_write plugin_name (JObj []);
  mret success.

(** [to_result] *)
Definition to_result (r : result) : M (bool * json) :=
  if r.1 then mret (true, r.2) else text ← lift (get_string r.2); mret (false, JStr text).

Definition handle_plugin_config (pluginName : bytes) (method : Z) (data : json) : M (bool * json) :=
  args ← (if contains #"argumentList" data then lift (idx #"argumentList" data) else mret (JObj []));
  let targets := NotifyTargets false (match bm_evaluate with Some _ => true | None => false end) in
  catching
    (if method =? CONFIG_SET then
       value ← (if contains #"value" args then lift (idx #"value" args) else mret JNull);
       key ← lift (value_string #"key" [] args);
       r ← store_set targets o_frontend pluginName key value; to_result r
     else if method =? CONFIG_GET then
       key ← lift (value_string #"key" [] args); s ← gets w_store; to_result (get s pluginName key)
     else if method =? CONFIG_DELETE then
       key ← lift (value_string #"key" [] args);
       r ← store_del targets o_frontend pluginName key; to_result r
     else if method =? CONFIG_GET_ALL then s ← gets w_store; to_result (get_all s pluginName)
     else if method =? CONFIG_DELETE_ALL then r ← store_delete_all pluginName; to_result r
     else mret (false, JStr #"unknown config method"))
    (λ e, mret (false, JStr e)).

Definition plugin_config_method (call : json) : M json :=
  data ← lift (idx #"data" call);
  if negb (contains #"pluginName" data) then mret JNull else
  pluginName ← lift (j ← idx #"pluginName" data; get_string j);
  method ← lift (value_int #"methodName" (-1) data);
  if (method <? 0) || (CONFIG_DELETE_ALL <? method) then
    mret (JObj [(#"success", JBool false); (#"returnJson", JStr (#"unknown config method: " ++ fmt_int method))])
  else
    response ← handle_plugin_config pluginName method data;
    mret (JObj [(#"success", JBool response.1); (#"pluginName", JStr pluginName); (#"returnJson", response.2)]).

(** ** The entry *)

Definition error_response (e : bytes) : json :=
  JObj [(#"error", JStr (if bytes_eqb e json_error then #"JSON parsing error: " ++ e
                         else #"An error occurred while processing the message: " ++ e));
        (#"type", JInt INTERNAL_ERROR)].

Definition process_message (payload : json) : M json :=
  catching
    (messageId ← lift (j ← idx #"id" payload; get_int j);
     if messageId =? CALL_SERVER_METHOD then call_server_method payload
     else if messageId =? FRONT_END_LOADED then on_front_end_loaded payload
     else if messageId =? CALL_FRONTEND_METHOD then call_frontend_method payload
     else if messageId =? PLUGIN_CONFIG then plugin_config_method payload
     else mret JNull)
    (λ e, mret (error_response e)).
End ipc.

(** ** Settings stay with their plugin *)

(** What a plugin's settings operations leave alone: the settings of other
    plugins, and the list of enabled plugins. *)
Definition others_kept `{SettingsStore Store} (plugin : bytes) (w w' : ipc_world Store) : Prop :=
  ∀ q, foreign plugin q ∨ q = enabled_path → s_find (w_store w') q = s_find (w_store w) q.

#[export] Instance others_kept_preorder `{SettingsStore Store} plugin : PreOrder (others_kept plugin).
Proof. split; [done|]. intros a b c Hab Hbc q Hq. by rewrite Hbc, Hab. Qed.

Section isolation.
  Context `{SettingsStore Store}.
  Variable dump : json → outcome bytes.
  Variable plugin : bytes.
  Abbreviation M := (SM (ipc_world Store)).
  Abbreviation kept := (steps (others_kept plugin)).

Lemma kept_modify f : (∀ w, w_store (f w) = w_store w) → kept (modify f).
Proof. intros Hf. apply steps_modify. intros w q _. by rewrite Hf. Qed.

Lemma kept_write_path segs k v skip s s' q :
  is_reserved_name plugin = false → s_set s (base_path plugin ++ segs) k v skip = Ok s' →
  foreign plugin q ∨ q = enabled_path → s_find s' q = s_find s q.
Proof.
  intros Hr Hs Hq. eapply s_set_frame; [exact Hs|]. rewrite <- app_assoc. apply foreign_diverge.
  destruct Hq as [Hq| ->]; [done|by apply enabled_foreign].
Qed.

(** A change of the plugin's own settings that is then saved. *)
Lemma kept_write {A} segs k v (f : Store → M A) :
  is_reserved_name plugin = false →
  (∀ s, kept (f s)) →
  kept (s ← gets w_store; s ← lift (s_set s (base_path plugin ++ segs) k v true); _ ← modify (put_store s);
        s ← lift (s_save s); _ ← modify (put_store s); f s).
Proof.
  intros Hr Hf w. run_simpl. destruct (s_set _ _ _ _ _) as [s1|e| |] eqn:E1; cbn [fst snd]; try by intros [? ?].
  run_simpl. assert (others_kept plugin w (put_store s1 w)) as K1 by (intros q Hq; by eapply kept_write_path).
  destruct (s_save s1) as [s2|e| |] eqn:E2; cbn [fst snd]; try by intros [? ?].
  run_simpl. intros Hd. etransitivity; [exact K1|]. etransitivity; [|by apply Hf].
  intros q Hq. cbn. by apply s_save_frame.
Qed.

Lemma kept_store_write config : is_reserved_name plugin = false → kept (store_write plugin config).
Proof. intros Hr. apply (kept_write [] #"config" config (λ _, mret tt) Hr). intros _. apply steps_ret, _. Qed.

Lemma kept_store_set t src key v : kept (store_set dump t src plugin key v).
Proof.
  intros w. unfold store_set. destruct (bytes_eqb key []); [done|]. run_simpl.
  destruct (validate_limits _ _ _ _ _) as [err|e| |] eqn:Ev; cbn [fst snd]; try by intros [? ?].
  destruct (bytes_eqb err []) eqn:Ee; [|done]. apply bytes_eqb_true in Ee as ->. apply validate_not_reserved in Ev.
  apply (kept_write [ #"config"] key v (λ _, notes ← lift (notify_change dump t src plugin key v); _ ← modify (add_notes notes); mret success) Ev).
  pose proof (λ n, kept_modify (add_notes n) (λ w, eq_refl)). steps.
Qed.

Lemma kept_store_del t src key : kept (store_del dump t src plugin key).
Proof.
  unfold store_del. destruct (is_reserved_name plugin) eqn:Hr; [apply steps_ret, _|].
  pose proof (λ c, kept_store_write c Hr). pose proof (λ n, kept_modify (add_notes n) (λ w, eq_refl)). steps.
Qed.
Lemma kept_store_delete_all : kept (store_delete_all plugin).
Proof.
  unfold store_delete_all. destruct (is_reserved_name plugin) eqn:Hr; [steps|].
  pose proof (λ c, kept_store_write c Hr). steps.
Qed.

Lemma kept_handle_plugin_config bm method data : kept (handle_plugin_config dump bm plugin method data).
Proof.
  unfold handle_plugin_config, to_result.
  pose proof kept_store_set. pose proof kept_store_del. pose proof kept_store_delete_all. steps.
Qed.
End isolation.

(** ** Every message is answered *)

Section answers.
  Context `{SettingsStore Store}.
  Variable dump : json → outcome bytes.
  Variable parse : bytes → option json.
  Variable fmt_double : spec_float → bytes.
  Variable cdp_evaluate : bytes → bool → outcome json.
  Variable left_to_right : bool.
  Variable functions : option (list (bytes * (list bytes * (json → SM (ipc_world Store) json)))).
  Variable bm_evaluate : option (bytes → json → SM (ipc_world Store) json).
  Variable all_plugins : list plugin_t.
  Variable clock : spec_float * Z.
  Hypothesis dump_defined : ∀ j, defined (dump j).
  Hypothesis cdp_defined : ∀ s b, defined (cdp_evaluate s b).
  Hypothesis functions_total : ∀ fs f names fn args, functions = Some fs → obj_get f fs = Some (names, fn) → total (fn args).
  Hypothesis evaluate_total : ∀ evaluate p script, bm_evaluate = Some evaluate → total (evaluate p script).

(** A number that is converted to [int] without undefined behaviour. *)
Definition int_there (j : option json) : Prop := ∀ v, j = Some v → defined (get_int v).
(** The fields that the handler of the message [id] looks up without a check; a
    value that is not an object has no fields and is an exception. *)
Definition handler_fields (id : Z) (payload : json) : Prop :=
  if id =? CALL_SERVER_METHOD then ∃ data, jget #"data" payload = Some data ∧
    (jget #"pluginName" data = Some (JStr #"core") → contains #"methodName" data = true)
  else if id =? FRONT_END_LOADED then ∃ data, jget #"data" payload = Some data ∧ (is_object data = true → contains #"pluginName" data = true)
  else if id =? CALL_FRONTEND_METHOD then ∃ data, jget #"data" payload = Some data ∧
    (is_object data = true → contains #"pluginName" data = true ∧ contains #"methodName" data = true)
  else if id =? PLUGIN_CONFIG then ∃ data, jget #"data" payload = Some data ∧ (contains #"pluginName" data = true → int_there (jget #"methodName" data))
  else True.
Definition message_fields (payload : json) : Prop :=
  is_object payload = true → contains #"id" payload = true ∧ int_there (jget #"id" payload) ∧
    ∀ v id, jget #"id" payload = Some v → get_int v = Ok id → handler_fields id payload.

#[local] Hint Resolve dump_defined cdp_defined s_set_defined s_save_defined : cxx.

Lemma mut_idx_defined k j : defined (mut_idx k j).
Proof. by destruct j. Qed.
#[local] Hint Resolve mut_idx_defined : cxx.

Lemma idx_string_defined k j : contains k j = true → defined (x ← idx k j; get_string x).
Proof. intros Hk. apply bind_defined; [by apply contains_idx_defined|]. intros. apply get_string_defined. Qed.
#[local] Hint Resolve idx_string_defined : cxx.

Lemma validate_defined (s : Store) p k v : defined (validate_limits dump s p k v).
Proof. unfold validate_limits. solve_defined; auto with cxx. Qed.
Lemma notify_defined t src p k v : defined (notify_change dump t src p k v).
Proof. unfold notify_change. solve_defined; auto with cxx. Qed.
Lemma del_read_defined (s : Store) p k : defined (del_read s p k).
Proof. unfold del_read, erase. solve_defined. Qed.
#[local] Hint Resolve validate_defined notify_defined del_read_defined : cxx.

Lemma total_handle_plugin_config p method data : total (handle_plugin_config dump bm_evaluate p method data).
Proof. unfold handle_plugin_config, to_result, store_set, store_del, store_delete_all, store_write. total. Qed.

Lemma total_evaluate_js s b : total (evaluate_javascript_expression (Store:=Store) cdp_evaluate left_to_right s b).
Proof. unfold evaluate_javascript_expression. total. Qed.

Lemma idx_there k j v : jget k j = Some v → idx k j = Ok v.
Proof. intros Hv. destruct j; try done. unfold idx, jget in *. by rewrite Hv. Qed.
Lemma idx_object_defined k j : (is_object j = true → contains k j = true) → defined (idx k j).
Proof. intros Hk. destruct j; try apply Throw_defined. by apply contains_idx_defined, Hk. Qed.
Lemma idx_object_string_defined k j : (is_object j = true → contains k j = true) → defined (x ← idx k j; get_string x).
Proof. intros Hk. apply bind_defined; [by apply idx_object_defined|]. intros. apply get_string_defined. Qed.
#[local] Hint Resolve idx_object_string_defined : cxx.
Lemma contains_object k j : contains k j = true → is_object j = true.
Proof. by destruct j. Qed.

Lemma total_core call data : jget #"data" call = Some data → contains #"methodName" data = true →
  total (handle_core_server_method functions call).
Proof.
  intros Hd Hm. unfold handle_core_server_method. apply total_catching; [|total].
  destruct functions as [fs|] eqn:Ef; [|total]. rewrite (idx_there _ _ _ Hd). apply total_lift_bind; [apply Ok_defined|]. intros d [= <-]. apply total_lift_bind; [auto with cxx|]. intros f _.
  apply total_bind; [destruct (contains #"argumentList" data) eqn:Ec; total|]. intros args. apply total_bind; [|total].
  unfold ipc_message_hdlr. destruct (bytes_eqb f _); [total|]. destruct (obj_get f fs) as [[names fn]|] eqn:Eg; [|total].
  by eapply functions_total.
Qed.

Lemma total_handlers payload id : handler_fields id payload →
  total (if id =? CALL_SERVER_METHOD then call_server_method parse functions bm_evaluate payload
         else if id =? FRONT_END_LOADED then on_front_end_loaded bm_evaluate all_plugins payload
         else if id =? CALL_FRONTEND_METHOD then call_frontend_method dump fmt_double cdp_evaluate left_to_right clock payload
         else if id =? PLUGIN_CONFIG then plugin_config_method dump bm_evaluate payload
         else mret JNull).
Proof.
  unfold handler_fields. destruct (id =? CALL_SERVER_METHOD).
  { intros (data & Hdata & Hf). unfold call_server_method. rewrite (idx_there _ _ _ Hdata). apply total_lift_bind; [apply Ok_defined|]. intros d [= <-].
    destruct (contains #"pluginName" data) eqn:Hplugin; cbn [negb]; [|total]. apply total_lift_bind; [auto with cxx|]. intros p Hp. apply total_bind; [|total].
    destruct (bytes_eqb p #"core") eqn:Ep.
    - apply bytes_eqb_true in Ep as ->. eapply total_core; [exact Hdata|]. apply Hf. unfold contains in Hplugin. destruct (jget #"pluginName" data) as [v|] eqn:Ev; [|done].
      rewrite (idx_there _ _ _ Ev) in Hp. destruct v; try done. by injection Hp as ->.
    - unfold lua_evaluate. destruct bm_evaluate as [ev|] eqn:Eb; [|total]. apply total_bind; [by eapply evaluate_total|]. total. }
  destruct (id =? FRONT_END_LOADED).
  { intros (data & Hdata & Hf). unfold on_front_end_loaded, lua_call_frontend_loaded. rewrite (idx_there _ _ _ Hdata). apply total_lift_bind; [apply Ok_defined|]. intros d [= <-].
    apply total_lift_bind; [auto with cxx|]. intros p _. total. }
  destruct (id =? CALL_FRONTEND_METHOD).
  { intros (data & Hdata & Hf). unfold call_frontend_method. rewrite (idx_there _ _ _ Hdata). apply total_lift_bind; [apply Ok_defined|]. intros d [= <-].
    apply total_bind; [destruct (contains #"argumentList" data) eqn:Ec; total|]. intros params.
    apply total_lift_bind; [apply idx_object_string_defined; by intros []%Hf|]. intros p _. apply total_lift_bind; [apply idx_object_string_defined; by intros []%Hf|]. intros m _.
    apply total_lift_bind; [auto with cxx|]. intros b _. apply total_bind; [apply total_evaluate_js|]. total. }
  destruct (id =? PLUGIN_CONFIG); [|total]. intros (data & Hdata & Hf).
  unfold plugin_config_method. rewrite (idx_there _ _ _ Hdata). apply total_lift_bind; [apply Ok_defined|]. intros d [= <-].
  destruct (contains #"pluginName" data) eqn:Hplugin; cbn [negb]; [|total]. apply total_lift_bind; [auto with cxx|]. intros p _.
  assert (defined (value_int #"methodName" (-1) data)) as Hv.
  { specialize (Hf eq_refl). destruct data; try done. unfold value_int, int_there, jget in *. destruct (obj_get _ _); [by apply Hf|apply Ok_defined]. }
  apply total_lift_bind; [done|]. intros k _. destruct (orb _ _); [total|].
  apply total_bind; [apply total_handle_plugin_config|total].
Qed.

Lemma total_process_message payload :
  message_fields payload →
  total (process_message dump parse fmt_double cdp_evaluate left_to_right functions bm_evaluate all_plugins clock payload).
Proof.
  intros Hm. unfold process_message. apply total_catching; [|total]. apply total_lift_bind.
  - apply bind_defined; [apply idx_object_defined; by intros []%Hm|]. intros v Hv. destruct payload; try done. destruct (Hm eq_refl) as (_ & Hi & _). apply Hi. unfold idx, jget in *. destruct (obj_get _ _); [by injection Hv as ->|done].
  - intros id Hid. apply total_handlers. apply bind_Ok in Hid as (v & Hv & Hid). destruct payload; try done. destruct (Hm eq_refl) as (_ & _ & Hf). apply (Hf v id); [|done]. unfold idx, jget in *. destruct (obj_get _ _); [by injection Hv as ->|done].
Qed.
End answers.

(** Settings messages of a page reach only the settings of the plugin they
    name: whatever the message asks for and however it ends, the settings of
    every other plugin and the list of enabled plugins read the same
    afterwards. *)
Theorem ipc_config_isolated `{SettingsStore Store} dump parse fmt_double cdp_evaluate ltr functions bm plugins clock
    payload data id plugin (w : ipc_world Store) :
  jget #"id" payload = Some (JInt id) → i32 id = PLUGIN_CONFIG →
  jget #"data" payload = Some data → jget #"pluginName" data = Some (JStr plugin) →
  let r := process_message dump parse fmt_double cdp_evaluate ltr functions bm plugins clock payload w in
  defined r.1 → ∀ q, foreign plugin q ∨ q = enabled_path → s_find (w_store r.2) q = s_find (w_store w) q.
Proof.
  intros Hid Hi Hdata Hp r. subst r.
  assert (∀ k v j, jget k j = Some v → idx k j = Ok v) as Hidx.
  { intros k v j Hv. destruct j; try done. unfold idx, jget in *. by rewrite Hv. }
  change (defined ((process_message dump parse fmt_double cdp_evaluate ltr functions bm plugins clock payload) w).1 →
    others_kept plugin w (process_message dump parse fmt_double cdp_evaluate ltr functions bm plugins clock payload w).2).
  generalize w. change (steps (others_kept plugin) (process_message dump parse fmt_double cdp_evaluate ltr functions bm plugins clock payload)).
  unfold process_message. apply steps_catching; [exact _| |steps].
  rewrite (Hidx _ _ _ Hid). cbn [mbind outcome_bind get_int]. intros w0. run_simpl. rewrite Hi. change (PLUGIN_CONFIG =? CALL_SERVER_METHOD) with false.
  change (PLUGIN_CONFIG =? FRONT_END_LOADED) with false. change (PLUGIN_CONFIG =? CALL_FRONTEND_METHOD) with false.
  change (PLUGIN_CONFIG =? PLUGIN_CONFIG) with true. cbn iota. unfold plugin_config_method. run_simpl. rewrite (Hidx _ _ _ Hdata). cbn beta iota.
  assert (contains #"pluginName" data = true) as -> by (unfold contains; by rewrite Hp). cbn [negb].
  run_simpl. rewrite (Hidx _ _ _ Hp). cbn [mbind outcome_bind get_string]. revert w0.
  pose proof (λ m, kept_handle_plugin_config dump plugin bm m data). steps.
Qed.

(** C28: Every message is answered: when it has the fields its handler looks up
    without a check ([message_fields], which is different for each kind of
    message), the result is an answer and not an exception, whatever the debugger,
    the plugin processes, the built-in functions, the printer of JSON or the
    settings store throw; each of them is assumed to return or to throw. *)
Theorem ipc_messages_answered `{SettingsStore Store} dump parse fmt_double cdp_evaluate ltr functions bm plugins clock
    payload (w : ipc_world Store) :
  (∀ j, defined (dump j)) → (∀ s b, defined (cdp_evaluate s b)) →
  (∀ fs f names fn args, functions = Some fs → obj_get f fs = Some (names, fn) → total (fn args)) →
  (∀ evaluate p script, bm = Some evaluate → total (evaluate p script)) →
  message_fields payload →
  ∃ answer w', process_message dump parse fmt_double cdp_evaluate ltr functions bm plugins clock payload w = (Ok answer, w').
Proof.
  intros H1 H2 H3 H4 Hm.
  pose proof (total_process_message dump parse fmt_double cdp_evaluate ltr functions bm plugins clock H1 H2 H3 H4 payload Hm w) as Hd.
  pose proof (λ e, catching_ret_no_throw (messageId ← lift (j ← idx #"id" payload; get_int j);
     if messageId =? CALL_SERVER_METHOD then call_server_method parse functions bm payload
     else if messageId =? FRONT_END_LOADED then on_front_end_loaded bm plugins payload
     else if messageId =? CALL_FRONTEND_METHOD then call_frontend_method dump fmt_double cdp_evaluate ltr clock payload
     else if messageId =? PLUGIN_CONFIG then plugin_config_method dump bm payload
     else mret JNull) error_response w e) as Ht.
  unfold process_message in *. destruct (catching _ _ w) as [[a|e| |] w']; cbn [fst] in *.
  - by exists a, w'.
  - by destruct (Ht e).
  - by destruct Hd.
  - by destruct Hd.
Qed.

(** *** Concrete inputs *)

#[local] Existing Instance demo_store.

Definition demo_world : ipc_world (config_manager nat * disk) := IpcWorld demo_state [] [] [] [].
Definition demo_cdp (script : bytes) (by_value : bool) : outcome json := Throw #"not connected".
Definition demo_message (method : Z) : json :=
  jobj [(#"id", JInt 3);
        (#"data", jobj [(#"pluginName", JStr #"p"); (#"methodName", JInt method);
                        (#"argumentList", jobj [(#"key", JStr #"a"); (#"value", JInt 7)])])].
Definition demo_ipc (payload : json) : SM (ipc_world (config_manager nat * disk)) json :=
  process_message demo_dump (λ _, None) (λ _, []) demo_cdp false None None [] (S754_zero false, 0) payload.

Lemma ipc_config_isolated_witness :
  let r := demo_ipc (demo_message CONFIG_SET) demo_world in
  jget #"success" (match r.1 with Ok j => j | _ => JNull end) = Some (JBool true) ∧
  s_find (w_store r.2) [ #"plugins"; #"p"; #"config"; #"a"] = Some (JInt 7) ∧
  s_find (w_store r.2) enabled_path = s_find (w_store demo_world) enabled_path.
Proof.
  intros r. split; [by vm_compute|]. split; [by vm_compute|].
  refine (ipc_config_isolated demo_dump (λ _, None) (λ _, []) demo_cdp false None None [] (S754_zero false, 0)
    (demo_message CONFIG_SET) (default JNull (jget #"data" (demo_message CONFIG_SET))) 3 #"p" demo_world _ _ _ _ _ enabled_path _);
    try reflexivity; [|by right].
  change (defined r.1). assert (is_ok r.1 = true) as Hr by (by vm_compute). destruct r.1; done.
Defined.

(** A frontend that has loaded names no method. *)
Definition demo_loaded : json := jobj [(#"id", JInt 1); (#"data", jobj [(#"pluginName", JStr #"p")])].
Lemma ipc_messages_answered_witness :
  (∃ answer w', demo_ipc (demo_message CONFIG_DELETE) demo_world = (Ok answer, w')) ∧
  (∃ answer w', demo_ipc demo_loaded demo_world = (Ok answer, w')).
Proof.
  split; (apply ipc_messages_answered; [done..|]); (split; [done|]); (split; [by intros v [= <-]|]); intros v id [= <-] [= <-]; (eexists; split; [reflexivity|]).
  - intros _ v [= <-]. apply Ok_defined.
  - done.
Defined.

(** A page can make the host read a key that is not there: the message's [id]
    and [data] are looked up without a check. *)
Theorem missing_fields_are_undefined :
  (demo_ipc (jobj [(#"call_id", JInt 1)]) demo_world).1 = UB ∧
  (demo_ipc (jobj [(#"id", JInt 0)]) demo_world).1 = UB.
Proof. done. Qed.

(** Arguments a frontend function cannot take are skipped, and the later ones
    move forward; unsigned values above the range of [int64_t] change sign. *)
Theorem frontend_arguments_shift (s : bytes) :
  javascript_parameters [JNull; JStr s] = [PString s] ∧ javascript_parameters [JInt (2 ^ 63)] = [PInt (- 2 ^ 63)].
Proof. done. Qed.

(** The text of an exception in the frontend is lost where arguments are
    evaluated from left to right, and an error of the debugger always. *)
Theorem exception_text_lost `{SettingsStore Store} (w : ipc_world Store) script v text :
  let answer := jobj [(#"exceptionDetails", jobj [(#"exception", jobj [(#"description", JStr text)])])] in
  (evaluate_javascript_expression (λ _ _, Ok answer) false script v w).1 = Ok (JStr text, false) ∧
  (evaluate_javascript_expression (λ _ _, Ok answer) true script v w).1 = Ok (JNull, false) ∧
  (evaluate_javascript_expression (λ _ _, Throw text) false script v w).1 = Ok (JNull, false).
Proof. done. Qed.

(** A call that succeeded in the frontend is reported as failed when the
    recorder cannot print its arguments. *)
Theorem recorder_fails_call :
  let call := jobj [(#"id", JInt 2); (#"data", jobj [(#"pluginName", JStr #"p"); (#"methodName", JStr #"f")])] in
  let run dump := process_message dump (λ _, None) (λ _, []) (λ _ _, Ok (jobj [(#"result", JInt 1)])) false None None [] (S754_zero false, 0) call demo_world in
  (∃ a, (run demo_dump).1 = Ok a ∧ jget #"success" a = Some (JBool true)) ∧
  (run (λ _, Throw json_error)).1 = Ok (error_response json_error).
Proof. split; [by eexists|done]. Qed.
