(* ===== verification/FfiBinder.v ===== *)
(** * FfiBinder: the bindings pages call

    [engine/ffi_binder.cc]: pages reach Millennium through bindings that the
    debugger reports as events.  The binder routes them: calls of backend
    functions (answered by a script in the page), the proxy through which
    plugins use the debugger (with methods it refuses, event subscriptions and
    relays between a plugin's two worlds), the extension route, and two
    reporting bindings.  Text parsing and printing, the debugger's answers and
    the message handler behind the calls are parameters. *)

From Stdlib Require Import SpecFloat.
From S2P Require Import Prelude State Json Css Ring Recorder CdpClient CoreIpc.

(** ** Constants *)

Definition binding_name : bytes := #"__private_millennium_ffi_do_not_use__".
Definition sdk_ready_binding_name : bytes := #"__millennium_sdk_ready__".
Definition frontend_binding_name : bytes := #"MILLENNIUM_PRIVATE_INTERNAL_FOREIGN_FUNCTION_INTERFACE_DO_NOT_USE".
Definition extension_binding_name : bytes := #"__millennium_extension_route__".
Definition extension_frontend_response_name : bytes := #"MILLENNIUM_CHROME_DEV_TOOLS_PROTOCOL_DO_NOT_USE_OR_OVERRIDE_ONMESSAGE".
Definition cdp_proxy_binding_name : bytes := #"__millennium_cdp_proxy__".
Definition plugin_console_binding_name : bytes := #"__millennium_plugin_console_binding__".
Definition millennium_cdp_reject : bytes := #"window.__millennium_cdp_reject__".
Definition millennium_cdp_resolve : bytes := #"window.__millennium_cdp_resolve__".

Definition BLOCKED_CDP_METHODS_ALWAYS : list bytes :=
  [ #"Debugger.pause"; #"Emulation.setScriptExecutionDisabled"; #"Debugger.setBreakpointOnException"; #"Target.setAutoAttach";
    #"Target.setDiscoverTargets"; #"Target.exposeDevToolsProtocol"; #"Network.clearBrowserCookies"; #"Network.clearBrowserCache";
    #"Network.setCookies"; #"Network.deleteCookies"; #"Emulation.setDeviceMetricsOverride"].
Definition BLOCKED_CDP_METHODS_SHARED_JS : list bytes :=
  [ #"Page.navigate"; #"Page.reload"; #"Page.close"; #"Page.crash"; #"Page.stopLoading"; #"Page.setDocumentContent"; #"Page.setBypassCSP";
    #"Page.addScriptToEvaluateOnNewDocument"; #"Page.removeScriptToEvaluateOnNewDocument"].
Definition mem (x : bytes) (l : list bytes) : bool := existsb (bytes_eqb x) l.

(** ** State *)

Record plugin_ctx := PluginCtx {
  main_ctx_id : Z;
  isolated_ctx_id : Z;
  main_session_id : bytes;
  isolated_session_id : bytes;
}.
Definition new_ctx : plugin_ctx := PluginCtx (-1) (-1) [] [].

(** A command sent to the debugger: method, parameters, session. *)
Record command := Command { c_method : bytes; c_params : json; c_session : option bytes }.

(** The listeners of the binder: its own three, and one that passes an event
    on to the plugins. *)
Inductive listener := Internal (event : bytes) | Dispatch (event : bytes).

(** The binder, the client's listener table, and what left the binder: the
    commands, the recorded calls, the reports of the SDK and of consoles.
    [inner] is the state of the message handler. *)
Record binder (W : Type) := Binder {
  m_plugin_ctxs : gmap bytes plugin_ctx;
  m_ctx_to_plugin : gmap Z bytes;
  m_event_subs : gmap bytes (gset bytes);
  m_event_sub_tokens : gmap bytes Z;
  m_internal_tokens : list Z;
  client : events listener;
  commands : list command;
  recorded : list ffi_call_entry;
  sdk_events : list sdk_ready_event;
  console : list (bytes * bytes * bytes * bytes * bytes * Z);
  inner : W;
}.
Arguments Binder {_} _ _ _ _ _ _ _ _ _ _ _.
Arguments m_plugin_ctxs {_} _.
Arguments m_ctx_to_plugin {_} _.
Arguments m_event_subs {_} _.
Arguments m_event_sub_tokens {_} _.
Arguments m_internal_tokens {_} _.
Arguments client {_} _.
Arguments commands {_} _.
Arguments recorded {_} _.
Arguments sdk_events {_} _.
Arguments console {_} _.
Arguments inner {_} _.

Section binder.
  Context {W : Type}.
  Implicit Types b : binder W.

Definition set_ctxs (x : gmap bytes plugin_ctx) b : binder W :=
  let 'Binder _ c s t i e cm r sd co w := b in Binder x c s t i e cm r sd co w.
Definition set_ctx_to_plugin (x : gmap Z bytes) b : binder W :=
  let 'Binder p _ s t i e cm r sd co w := b in Binder p x s t i e cm r sd co w.
Definition set_subs (s : gmap bytes (gset bytes)) (t : gmap bytes Z) (e : events listener) b : binder W :=
  let 'Binder p c _ _ i _ cm r sd co w := b in Binder p c s t i e cm r sd co w.
Definition add_internal (tok : Z) (e : events listener) b : binder W :=
  let 'Binder p c s t i _ cm r sd co w := b in Binder p c s t (i ++ [tok]) e cm r sd co w.
Definition add_command (x : command) b : binder W :=
  let 'Binder p c s t i e cm r sd co w := b in Binder p c s t i e (cm ++ [x]) r sd co w.
Definition add_recorded (x : ffi_call_entry) b : binder W :=
  let 'Binder p c s t i e cm r sd co w := b in Binder p c s t i e cm (r ++ [x]) sd co w.
Definition add_sdk (x : sdk_ready_event) b : binder W :=
  let 'Binder p c s t i e cm r sd co w := b in Binder p c s t i e cm r (sd ++ [x]) co w.
Definition add_console (x : bytes * bytes * bytes * bytes * bytes * Z) b : binder W :=
  let 'Binder p c s t i e cm r sd co w := b in Binder p c s t i e cm r sd (co ++ [x]) w.
Definition set_inner (x : W) b : binder W :=
  let 'Binder p c s t i e cm r sd co _ := b in Binder p c s t i e cm r sd co x.

(** Changes of one plugin's contexts, made on first use. *)
Definition ctx_of (plugin : bytes) b : plugin_ctx := default new_ctx (m_plugin_ctxs b !! plugin).
Definition set_main (plugin : bytes) (ctx_id : Z) (session : bytes) b : binder W :=
  let c := ctx_of plugin b in
  set_ctxs (<[plugin := PluginCtx ctx_id (isolated_ctx_id c) session (isolated_session_id c)]> (m_plugin_ctxs b)) b.

Definition register_isolated_ctx (plugin_name : bytes) (ctx_id : Z) (session_id : bytes) b : binder W :=
  let c := ctx_of plugin_name b in
  let b := set_ctxs (<[plugin_name := PluginCtx (main_ctx_id c) ctx_id (main_session_id c) session_id]> (m_plugin_ctxs b)) b in
  set_ctx_to_plugin (<[ctx_id := plugin_name]> (m_ctx_to_plugin b)) b.

(** ** Subscriptions *)

(** [subscribe] of the proxy; [shutdown] is the client's. *)
Definition subscribe (shutdown : bool) (plugin_name event : bytes) (ctx_id : Z) (session_id : bytes) b : binder W :=
  let subs := default ∅ (m_event_subs b !! event) in
  let b' := set_main plugin_name ctx_id session_id b in
  let all := <[event := {[plugin_name]} ∪ subs]> (m_event_subs b) in
  if decide (subs = ∅) then
    let '(token, e) := on shutdown event (Dispatch event) (client b) in
    set_subs all (<[event := token]> (m_event_sub_tokens b)) e b'
  else set_subs all (m_event_sub_tokens b) (client b) b'.

Definition unsubscribe (plugin_name event : bytes) b : binder W :=
  match m_event_subs b !! event with
  | None => b
  | Some subs =>
      let rest := subs ∖ {[plugin_name]} in
      if decide (rest = ∅) then
        match m_event_sub_tokens b !! event with
        | Some token => set_subs (delete event (m_event_subs b)) (delete event (m_event_sub_tokens b)) (off token (client b)) b
        | None => set_subs (delete event (m_event_subs b)) (m_event_sub_tokens b) (client b) b
        end
      else set_subs (<[event := rest]> (m_event_subs b)) (m_event_sub_tokens b) (client b) b
  end.

Definition execution_ctx_destroyed (dead_ctx_id : Z) b : binder W :=
  let b := set_ctx_to_plugin (delete dead_ctx_id (m_ctx_to_plugin b)) b in
  set_ctxs ((λ c, if main_ctx_id c =? dead_ctx_id
                  then PluginCtx (-1) (isolated_ctx_id c) (main_session_id c) (isolated_session_id c) else c) <$> m_plugin_ctxs b) b.

(** [init] and the destructor. *)
Definition init_listener (event : bytes) b : binder W :=
  let '(token, e) := on false event (Internal event) (client b) in add_internal token e b.
Definition init b : binder W :=
  init_listener #"Runtime.executionContextDestroyed"
    (init_listener #"Runtime.executionContextCreated" (init_listener #"Runtime.bindingCalled" b)).
Definition destroy b : binder W :=
  let e := foldl (λ e t, off t e) (client b) (map_to_list (m_event_sub_tokens b)).*2 in
  set_subs (m_event_subs b) ∅ (foldl (λ e t, off t e) e (m_internal_tokens b)) b.
End binder.

Definition binder_new {W} (w : W) : binder W := Binder ∅ ∅ ∅ ∅ [] events_init [] [] [] [] w.

(** ** Handlers *)

Section handlers.
  Context {W : Type}.
  Variable parse : bytes → outcome json.
  Variable dump : json → outcome bytes.
  (** The debugger's answer to a command, or the exception of the wait. *)
  Variable cdp : command → outcome json.
  (** [ipc_main::process_message]. *)
  Variable process : json → SM W json.
  Variable shared_js_session : bytes.
  Variable shutdown : bool.
  (** The duration and time stamp of a recorded call. *)
  Variable clock : spec_float * Z.
  Abbreviation M := (SM (binder W)).

(** [send_host]: with and without waiting for the answer. *)
Definition send_host (method : bytes) (params : json) (session : option bytes) : M () :=
  modify (add_command (Command method params session)).
Definition send_host_get (method : bytes) (params : json) (session : option bytes) : M json :=
  _ ← send_host method params session; lift (cdp (Command method params session)).

Definition evaluate_params (ctx : json) (expression : bytes) : json := jobj [(#"contextId", ctx); (#"expression", JStr expression)].

(** [fn(a, b)] *)
Definition call2 (fn a b : bytes) : bytes := fn ++ #"(" ++ a ++ #", " ++ b ++ #")".

Definition callback_into_js (params : json) (request_id : Z) (result : json) : M () :=
  ctx ← lift (idx #"executionContextId" params);
  text ← lift (dump result);
  session ← lift (j ← idx #"sessionId" params; get_string j);
  eval_result ← send_host_get #"Runtime.evaluate"
    (evaluate_params ctx (call2 (#"window." ++ frontend_binding_name ++ #".__handleResponse") (fmt_int request_id) text)) (Some session);
  if contains #"exceptionDetails" eval_result then details ← lift (idx #"exceptionDetails" eval_result); _ ← lift (dump details); mret tt
  else mret tt.

Definition is_valid_request (params : json) : outcome bool :=
  if negb (contains #"name" params) then Ok false else
  name ← (j ← idx #"name" params; get_string j);
  if negb (bytes_eqb name binding_name) then Ok false else
  if negb (contains #"payload" params) || negb (contains #"executionContextId" params) then Ok false else
  if negb (contains #"sessionId" params) then Ok false else
  session ← idx #"sessionId" params;
  Ok (is_string session).

Definition parse_payload (params : json) : outcome json :=
  text ← (j ← idx #"payload" params; get_string j); parse text.

(** *** The extension route *)

Definition error_reply (call_id : Z) (e : bytes) : json :=
  jobj [(#"id", JInt call_id); (#"error", jobj [(#"message", JStr e)])].

Definition extension_reply (context_id : Z) (session_id : bytes) (response : json) : M () :=
  text ← lift (dump response);
  send_host #"Runtime.evaluate"
    (evaluate_params (JInt context_id) (#"window." ++ extension_frontend_response_name ++ #".__handleCDPResponse(" ++ text ++ #")"))
    (Some session_id).

(** The call id is assigned before the rest of the payload is read. *)
Definition extension_route_hdlr (params : json) : M () :=
  if negb (contains #"payload" params) || negb (contains #"executionContextId" params) || negb (contains #"sessionId" params) then
    _ ← lift (dump params); mret tt
  else
  context_id ← lift (j ← idx #"executionContextId" params; get_int j);
  session_id ← lift (j ← idx #"sessionId" params; get_string j);
  payload ← attempt (lift (parse_payload params));
  let call_id := match payload with inl p => p ← at_ #"id" p; get_int p | inr e => Throw e end in
  let id := match call_id with Ok i => i | _ => -1 end in
  catching
    (p ← match payload with inl p => mret p | inr e => lift (Throw e) end;
     call_id ← lift call_id;
     method ← lift (j ← at_ #"method" p; get_string j);
     cdp_params ← lift (value_json #"params" (JObj []) p);
     opt_session ← (if contains #"sessionId" p then s ← lift (j ← idx #"sessionId" p; get_string j); mret (Some s) else mret None);
     response ← catching
       (result ← send_host_get method cdp_params opt_session; mret (jobj [(#"id", JInt call_id); (#"result", result)]))
       (λ e, mret (error_reply call_id e));
     extension_reply context_id session_id response)
    (λ e, swallow (extension_reply context_id session_id (error_reply id e))).

(** *** The proxy *)

Definition settle (fn : bytes) (callback_id : Z) (text : bytes) (ctx : Z) (session : bytes) : M () :=
  send_host #"Runtime.evaluate" (evaluate_params (JInt ctx) (call2 fn (fmt_int callback_id) text)) (Some session).

(** [deliver]: to the plugin's main world as it is now. *)
Definition deliver (plugin_name : bytes) (callback_id main_ctx_id : Z) (session_id : bytes) (value : json) (is_error : bool) : M () :=
  target ← gets (λ b, match m_plugin_ctxs b !! plugin_name with
                      | Some c => if FfiBinder.main_ctx_id c =? -1 then (main_ctx_id, session_id) else (FfiBinder.main_ctx_id c, main_session_id c)
                      | None => (main_ctx_id, session_id)
                      end);
  text ← lift (dump value);
  settle (if is_error then millennium_cdp_reject else millennium_cdp_resolve) callback_id text target.1 target.2.

Definition is_blocked (method : bytes) (target_session : option bytes) : bool :=
  mem method BLOCKED_CDP_METHODS_ALWAYS ||
  (match target_session with Some s => bytes_eqb s shared_js_session | None => false end && mem method BLOCKED_CDP_METHODS_SHARED_JS).

Definition cdp_proxy_call (plugin_name : bytes) (callback_id : Z) (method : bytes) (params : json) (session_id : bytes)
    (main_ctx_id : Z) (target_session : option bytes) : M () :=
  if is_blocked method target_session then
    text ← lift (dump (JStr (#"Millennium prohibits calls to '" ++ method ++ #"' for user safety")));
    settle millennium_cdp_reject callback_id text main_ctx_id session_id
  else
    catching
      (result ← send_host_get method params target_session;
       deliver plugin_name callback_id main_ctx_id session_id result false)
      (λ e, deliver plugin_name callback_id main_ctx_id session_id (JStr e) true).

Definition relay (is_error : bool) (payload : json) (ctx_id : Z) : M () :=
  callback_id ← lift (value_int #"callbackId" (-1) payload);
  if callback_id =? -1 then mret tt else
  target ← gets (λ b, name ← m_ctx_to_plugin b !! ctx_id; m_plugin_ctxs b !! name);
  match target with
  | None => mret tt
  | Some c =>
      if main_ctx_id c =? -1 then mret tt
      else if is_error then
        error ← lift (value_string #"error" #"unknown error" payload);
        text ← lift (dump (JStr error));
        settle millennium_cdp_reject callback_id text (main_ctx_id c) (main_session_id c)
      else
        result ← lift (value_json #"result" (JObj []) payload);
        text ← lift (dump result);
        settle millennium_cdp_resolve callback_id text (main_ctx_id c) (main_session_id c)
  end.

Definition cdp_proxy_hdlr (params : json) : M () :=
  if negb (contains #"payload" params) || negb (contains #"executionContextId" params) || negb (contains #"sessionId" params) then mret tt else
  match parse_payload params with
  | Ok payload =>
      action ← lift (value_string #"action" [] payload);
      session_id ← lift (j ← idx #"sessionId" params; get_string j);
      ctx_id ← lift (j ← idx #"executionContextId" params; get_int j);
      if bytes_eqb action #"cdp_call" then
        plugin_name ← lift (value_string #"pluginName" [] payload);
        callback_id ← lift (value_int #"callbackId" (-1) payload);
        method ← lift (value_string #"method" [] payload);
        cdp_params ← lift (value_json #"params" (JObj []) payload);
        let target_session := match jget #"sessionId" payload with Some (JStr s) => Some s | _ => None end in
        if bytes_eqb plugin_name [] || (callback_id =? -1) || bytes_eqb method [] then mret tt else
        _ ← modify (set_main plugin_name ctx_id session_id);
        cdp_proxy_call plugin_name callback_id method cdp_params session_id ctx_id target_session
      else if bytes_eqb action #"relay" || bytes_eqb action #"relay_error" then relay (bytes_eqb action #"relay_error") payload ctx_id
      else if bytes_eqb action #"subscribe" || bytes_eqb action #"unsubscribe" then
        plugin_name ← lift (value_string #"pluginName" [] payload);
        event ← lift (value_string #"event" [] payload);
        if bytes_eqb plugin_name [] || bytes_eqb event [] then mret tt else
        modify (if bytes_eqb action #"subscribe" then subscribe shutdown plugin_name event ctx_id session_id else unsubscribe plugin_name event)
      else mret tt
  | Throw _ => mret tt
  | UB => lift UB
  | NoFuel => lift NoFuel
  end.

(** The main worlds that get an event. *)
Definition event_targets (event : bytes) (b : binder W) : list (Z * bytes) :=
  match m_event_subs b !! event with
  | None => []
  | Some subs =>
      omap (λ p, c ← m_plugin_ctxs b !! p; if main_ctx_id c =? -1 then None else Some (main_ctx_id c, main_session_id c)) (stdpp.base.elements subs)
  end.

Definition cdp_event_dispatch (event : bytes) (params : json) : M () :=
  targets ← gets (event_targets event);
  for_each (λ t, text ← lift (dump (jobj [(#"method", JStr event); (#"params", params)]));
                 send_host #"Runtime.evaluate" (evaluate_params (JInt t.1) (#"window.__millennium_cdp_event__(" ++ text ++ #")")) (Some t.2))
           targets.

(** *** Reports *)

(** The fields read before one of them throws are kept. *)
Definition sdk_ready_fields (payload : json) : SM sdk_ready_event () :=
  v ← lift (value_string #"sdk_version" [] payload);
  _ ← modify (λ e, SdkReadyEvent v (millennium_version e) (api_total e) (api_missing e));
  v ← lift (value_string #"millennium_version" [] payload);
  _ ← modify (λ e, SdkReadyEvent (sdk_version e) v (api_total e) (api_missing e));
  n ← lift (value_int #"api_total" 0 payload);
  _ ← modify (λ e, SdkReadyEvent (sdk_version e) (millennium_version e) n (api_missing e));
  match jget #"api_missing" payload with
  | Some (JArr l) =>
      modify (λ e, SdkReadyEvent (sdk_version e) (millennium_version e) (api_total e)
                     (omap (λ k, match k with JStr s => Some s | _ => None end) l))
  | _ => mret tt
  end.

Definition sdk_ready_hdlr (params : json) : M () :=
  let new := SdkReadyEvent [] [] 0 [] in
  match jget #"payload" params with
  | Some (JStr text) =>
      match swallow (payload ← lift (parse text); sdk_ready_fields payload) new with
      | (Ok _, ev) => modify (add_sdk ev)
      | (Throw e, _) => lift (Throw e)
      | (UB, _) => lift UB
      | (NoFuel, _) => lift NoFuel
      end
  | _ => modify (add_sdk new)
  end.

Definition plugin_console_hdlr (params : json) : M () :=
  if negb (contains #"payload" params) then mret tt else
  match parse_payload params with
  | Ok payload =>
      plugin ← lift (value_string #"plugin" [] payload);
      level ← lift (value_string #"level" #"log" payload);
      msg ← lift (value_string #"message" [] payload);
      source ← lift (value_string #"source" #"frontend" payload);
      file ← lift (value_string #"file" [] payload);
      line ← lift (value_int #"line" 0 payload);
      if bytes_eqb plugin [] then mret tt else modify (add_console (plugin, level, msg, source, file, line))
  | Throw _ => mret tt
  | UB => lift UB
  | NoFuel => lift NoFuel
  end.

(** *** Calls of backend functions *)

Definition run_process (payload : json) : M json := λ b,
  let '(r, w) := process payload (inner b) in (r, set_inner w b).

(** The recorder's entry; it must not fail the call. *)
Definition record_call (payload result : json) : M () :=
  msg_id ← lift (value_int #"id" (-1) payload);
  data ← lift (value_json #"data" (JObj []) payload);
  plugin ← lift (value_string #"pluginName" [] data);
  method ← match jget #"methodName" data with
           | Some (JStr s) => mret s
           | Some (JInt z) => mret (#"plugin_config:" ++ fmt_int (i32 z))
           | _ => mret []
           end;
  if bytes_eqb plugin [] || (msg_id =? FRONT_END_LOADED) then mret tt else
  args ← lift (dump data);
  text ← lift (dump result);
  caller ← lift (value_string #"caller" [] payload);
  modify (add_recorded (FfiCallEntry plugin method #"fe_to_be" args text clock.1 clock.2 caller)).

Definition ffi_error (e : bytes) : json := JObj [(#"success", JBool false); (#"returnJson", JStr e)].

Definition binding_call (params : json) : M () :=
  payload ← attempt (lift (parse_payload params));
  catching
    (payload ← match payload with inl p => mret p | inr e => lift (Throw e) end;
     if negb (contains #"call_id" payload) then lift (Throw #"binding payload missing 'call_id' field") else
     request_id ← lift (j ← idx #"call_id" payload; get_int j);
     result ← run_process payload;
     _ ← swallow (record_call payload result);
     callback_into_js params request_id result)
    (λ e,
     match payload with
     | inl p =>
         match jget #"call_id" p with
         | Some j => if is_number j then id ← lift (get_int j); callback_into_js params id (ffi_error e) else mret tt
         | None => mret tt
         end
     | inr _ => mret tt
     end).

Definition binding_call_hdlr (params : json) : M () :=
  if negb (contains #"name" params) then mret tt else
  name ← lift (j ← idx #"name" params; get_string j);
  if bytes_eqb name extension_binding_name then extension_route_hdlr params
  else if bytes_eqb name cdp_proxy_binding_name then cdp_proxy_hdlr params
  else if bytes_eqb name sdk_ready_binding_name then sdk_ready_hdlr params
  else if bytes_eqb name plugin_console_binding_name then plugin_console_hdlr params
  else
    valid ← lift (is_valid_request params);
    if negb valid then _ ← lift (dump params); mret tt else binding_call params.

(** *** Execution contexts *)

Definition add_binding (name : bytes) (context_id : Z) (session_id : bytes) : M () :=
  swallow (_ ← send_host_get #"Runtime.addBinding" (jobj [(#"name", JStr name); (#"executionContextId", JInt context_id)]) (Some session_id);
           mret tt).

Definition execution_ctx_created_hdlr (params : json) : M () :=
  if negb (contains #"context" params) || negb (contains #"sessionId" params) then mret tt else
  session_id ← lift (j ← idx #"sessionId" params; get_string j);
  context ← lift (idx #"context" params);
  if negb (contains #"id" context) then mret tt else
  context_id ← lift (j ← idx #"id" context; get_int j);
  _ ← add_binding binding_name context_id session_id;
  _ ← add_binding extension_binding_name context_id session_id;
  _ ← add_binding cdp_proxy_binding_name context_id session_id;
  _ ← add_binding sdk_ready_binding_name context_id session_id;
  add_binding plugin_console_binding_name context_id session_id.

Definition execution_ctx_destroyed_hdlr (params : json) : M () :=
  if negb (contains #"executionContextId" params) then mret tt else
  dead_ctx_id ← lift (j ← idx #"executionContextId" params; get_int j);
  modify (execution_ctx_destroyed dead_ctx_id).
End handlers.

(** ** Subscriptions and listeners *)

Definition is_dispatch (l : Z * listener) : bool := match l.2 with Dispatch _ => true | Internal _ => false end.

Inductive binder_op :=
  | Subscribe (plugin event : bytes) (ctx : Z) (session : bytes)
  | Unsubscribe (plugin event : bytes)
  | MainWorld (plugin : bytes) (ctx : Z) (session : bytes)
  | IsolatedWorld (plugin : bytes) (ctx : Z) (session : bytes)
  | ContextDestroyed (ctx : Z).

(** The critical sections of the handlers. *)
Definition binder_step {W} (b : binder W) (o : binder_op) : binder W :=
  match o with
  | Subscribe p e c s => subscribe false p e c s b
  | Unsubscribe p e => unsubscribe p e b
  | MainWorld p c s => set_main p c s b
  | IsolatedWorld p c s => register_isolated_ctx p c s b
  | ContextDestroyed c => execution_ctx_destroyed c b
  end.

(** [n] tokens were given out, and [regs] are the registrations in force. *)
Record binder_inv {W} (n : Z) (regs : list registration) (b : binder W) : Prop := {
  bi_repr : event_repr n regs (client b);
  bi_token e t : m_event_sub_tokens b !! e = Some t ↔ (e, t, Dispatch e) ∈ regs;
  bi_kind e t cb : (e, t, cb) ∈ regs → cb = Dispatch e ∨ cb = Internal e ∧ t ∈ m_internal_tokens b;
  bi_subs e : is_Some (m_event_sub_tokens b !! e) ↔ is_Some (m_event_subs b !! e);
  bi_nonempty e s : m_event_subs b !! e = Some s → s ≠ ∅;
}.

Section subscriptions.
  Context {W : Type}.
  Implicit Types b : binder W.

(** Changes that do not touch subscriptions. *)
Lemma binder_inv_same n regs b b' :
  client b' = client b → m_event_sub_tokens b' = m_event_sub_tokens b → m_event_subs b' = m_event_subs b →
  m_internal_tokens b' = m_internal_tokens b → binder_inv n regs b → binder_inv n regs b'.
Proof. intros H1 H2 H3 H4 [R T K S N]. split; rewrite ?H1, ?H2, ?H3, ?H4; auto. Qed.

Lemma token_event n regs b e e' t cb cb' :
  binder_inv n regs b → (e, t, cb) ∈ regs → (e', t, cb') ∈ regs → e = e'.
Proof. intros [R _ _ _ _]. by apply (token_unique n regs (client b)). Qed.

Lemma binder_inv_subscribe n regs b p e c s :
  binder_inv n regs b → 0 <= n < INT_MAX →
  ∃ n' regs', n' <= n + 1 ∧ 0 <= n' ∧ binder_inv n' regs' (subscribe false p e c s b).
Proof.
  intros I Hn. unfold subscribe. destruct (decide (default ∅ (m_event_subs b !! e) = ∅)) as [He|He].
  - assert (m_event_subs b !! e = None) as Hs.
    { destruct (m_event_subs b !! e) as [x|] eqn:E; [|done]. by destruct (bi_nonempty _ _ _ I _ _ E). }
    assert (m_event_sub_tokens b !! e = None) as Ht.
    { apply eq_None_not_Some. intros H%(bi_subs _ _ _ I). rewrite Hs in H. by destruct H. }
    assert (∀ t, (e, t, Dispatch e) ∉ regs) as Hno by (intros t Hin%(bi_token _ _ _ I); congruence).
    pose proof (event_repr_on n regs (client b) e (Dispatch e) (bi_repr _ _ _ I) Hn) as R'.
    assert ((on false e (Dispatch e) (client b)).1 = n + 1) as Htok.
    { cbn. rewrite (er_next _ _ _ (bi_repr _ _ _ I)). unfold i32, INT_MAX in *. rewrite Z.mod_small; lia. }
    destruct (on false e (Dispatch e) (client b)) as [tok ev]. cbn [fst snd] in *. subst tok.
    exists (n + 1), (regs ++ [(e, n + 1, Dispatch e)]). split_and!; [lia..|].
    destruct I as [R T K S N]. split; destruct b; cbn in *.
    + done.
    + intros e' t. rewrite lookup_insert_Some, elem_of_app, list_elem_of_singleton, T. split; [naive_solver|].
      intros [Hin|[= -> -> _]]; [|by left]. right. split; [|done]. intros ->. by apply Hno in Hin.
    + intros e' t cb. rewrite elem_of_app, list_elem_of_singleton. intros [Hin|[= -> -> ->]]; [by apply K|by left].
    + intros e'. rewrite !lookup_insert_is_Some, S. done.
    + intros e' x [[<- <-]|[_ Hx]]%lookup_insert_Some; [set_solver|by eapply N].
  - exists n, regs. split_and!; [lia..|]. destruct (m_event_subs b !! e) as [x|] eqn:Ex; [|done].
    destruct I as [R T K S N]. split; destruct b; cbn in *; auto.
    + intros e'. rewrite lookup_insert_is_Some, S. split; [|naive_solver]. intros Hs. destruct (decide (e = e')); auto.
    + intros e' y [[<- <-]|[_ Hy]]%lookup_insert_Some; [set_solver|by eapply N].
Qed.

Lemma binder_inv_unsubscribe n regs b p e : binder_inv n regs b → ∃ regs', binder_inv n regs' (unsubscribe p e b).
Proof.
  intros I. unfold unsubscribe. destruct (m_event_subs b !! e) as [x|] eqn:Ex; [|by exists regs].
  destruct (decide (x ∖ {[p]} = ∅)) as [He|He].
  - destruct (m_event_sub_tokens b !! e) as [t|] eqn:Et.
    2: { assert (is_Some (m_event_sub_tokens b !! e)) as [? ?]; [apply (bi_subs _ _ _ I); by rewrite Ex|congruence]. }
    exists (List.filter (λ r, negb (reg_token r =? t)) regs).
    assert ((e, t, Dispatch e) ∈ regs) as Hin by (by apply (bi_token _ _ _ I)).
    pose proof (λ e' t' cb H, token_event n regs b e' e t' cb (Dispatch e) I H) as Hev.
    pose proof (event_repr_off n regs (client b) t (bi_repr _ _ _ I)) as R'.
    destruct I as [R T K S N]. split; destruct b; cbn in *.
    + done.
    + intros e' t'. rewrite lookup_delete_Some, elem_of_off, T. unfold reg_token. cbn. split.
      * intros [Hne H']. split; [done|]. intros ->. by apply Hne, eq_sym, (Hev e' t (Dispatch e')).
      * intros [H' Hne]. split; [|done]. intros <-. apply Hne. apply T in H'. congruence.
    + intros e' t' cb. rewrite elem_of_off. intros [H' _]. by apply K.
    + intros e'. rewrite !lookup_delete_is_Some, S. done.
    + intros e' y. rewrite lookup_delete_Some. intros [_ Hy]. by eapply N.
  - exists regs. destruct I as [R T K S N]. split; destruct b; cbn in *; auto.
    + intros e'. rewrite lookup_insert_is_Some, S. split; [|naive_solver]. intros Hs. destruct (decide (e = e')); auto.
    + intros e' y [[<- <-]|[_ Hy]]%lookup_insert_Some; [done|by eapply N].
Qed.

Lemma binder_inv_step n regs b o :
  binder_inv n regs b → 0 <= n < INT_MAX → ∃ n' regs', n' <= n + 1 ∧ 0 <= n' ∧ binder_inv n' regs' (binder_step b o).
Proof.
  intros I Hn. destruct o; cbn [binder_step].
  - by eapply binder_inv_subscribe.
  - destruct (binder_inv_unsubscribe n regs b plugin event I) as [regs' I']. exists n, regs'. split_and!; [lia..|done].
  - exists n, regs. split_and!; [lia..|]. revert I. apply binder_inv_same; by destruct b.
  - exists n, regs. split_and!; [lia..|]. revert I. apply binder_inv_same; by destruct b.
  - exists n, regs. split_and!; [lia..|]. revert I. apply binder_inv_same; by destruct b.
Qed.
End subscriptions.

Section runs.
  Context {W : Type}.
  Implicit Types b : binder W.

Lemma binder_inv_init (w : W) : ∃ regs, binder_inv 3 regs (init (binder_new w)).
Proof.
  eexists. split.
  - eapply (event_repr_on 2); [|cbv; done]. eapply (event_repr_on 1); [|cbv; done]. eapply (event_repr_on 0); [|cbv; done].
    apply event_repr_init.
  - intros e t. cbn. rewrite !elem_of_cons. split; [done|]. intros [H|[H|[H|H]]]; try discriminate. by apply not_elem_of_nil in H.
  - intros e t cb. cbn. rewrite !elem_of_cons.
    intros [[= -> -> ->]|[[= -> -> ->]|[[= -> -> ->]|H]]]; [right; split; [done|]..|by apply not_elem_of_nil in H]; vm_compute (i32 _); set_solver.
  - intros e. cbn. rewrite !lookup_empty. split; by intros [].
  - intros e s. cbn. by rewrite lookup_empty.
Qed.

Lemma binder_inv_run ops : ∀ n regs b, binder_inv n regs b → 0 <= n → n + len ops <= INT_MAX →
  ∃ n' regs', binder_inv n' regs' (foldl binder_step b ops).
Proof.
  induction ops as [|o ops IH]; intros n regs b I H0 Hn; [by exists n, regs|]. unfold len in *. cbn [length foldl] in *.
  destruct (binder_inv_step n regs b o I) as (n' & regs' & Hn' & H0' & I'); [lia|]. eapply IH; [exact I'|done|lia].
Qed.

Lemma NoDup_only {A} (l : list A) a : NoDup l → a ∈ l → (∀ x, x ∈ l → x = a) → l = [a].
Proof.
  intros Hn Ha Hl. destruct l as [|x [|y l]]; [by apply not_elem_of_nil in Ha|by rewrite (Hl x) by left|].
  exfalso. rewrite (Hl x), (Hl y) in Hn by set_solver. inversion Hn as [|?? Hx]; subst. apply Hx. left.
Qed.

Lemma NoDup_filter_view (f : Z * listener → bool) e regs :
  NoDup (reg_token <$> regs) → NoDup (List.filter f (view e regs)).
Proof.
  intros Hn. assert (NoDup (view e regs)) as Hv.
  { unfold view. induction regs as [|[[e' t] cb] regs IH]; [constructor|]. apply NoDup_cons in Hn as [Ht Hn].
    cbn [List.filter]. destruct (bytes_eqb _ e); [|by apply IH]. rewrite fmap_cons. apply NoDup_cons. split; [|by apply IH].
    intros ([[e2 t2] cb2] & [= E1 E2] & Hin)%list_elem_of_fmap. apply Ht. apply list_elem_of_fmap. exists (e2, t2, cb2). split; [done|].
    apply list_elem_of_In, List.filter_In in Hin as [Hin _]. by apply list_elem_of_In. }
  induction Hv as [|x l Hx Hl IH]; [constructor|]. cbn [List.filter]. destruct (f x); [|done]. constructor; [|done].
  intros [Hin _]%list_elem_of_In%List.filter_In. by apply Hx, list_elem_of_In.
Qed.

Lemma elem_of_dispatch (f : Z * listener → bool) e t cb regs :
  (t, cb) ∈ List.filter f (view e regs) ↔ f (t, cb) = true ∧ (e, t, cb) ∈ regs.
Proof. rewrite list_elem_of_In, List.filter_In, <- list_elem_of_In, elem_of_view. naive_solver. Qed.

Lemma dispatch_listeners n regs b e : binder_inv n regs b →
  List.filter is_dispatch (listeners_of e (client b)) =
    match m_event_sub_tokens b !! e with Some t => [(t, Dispatch e)] | None => [] end.
Proof.
  intros I. rewrite (er_view _ _ _ (bi_repr _ _ _ I)).
  assert (∀ t cb, (t, cb) ∈ List.filter is_dispatch (view e regs) → cb = Dispatch e ∧ m_event_sub_tokens b !! e = Some t) as Hall.
  { intros t cb [Hd Hin]%elem_of_dispatch. destruct (bi_kind _ _ _ I _ _ _ Hin) as [->|[-> _]]; [|done].
    split; [done|]. by apply (bi_token _ _ _ I). }
  destruct (m_event_sub_tokens b !! e) as [t|] eqn:Et.
  - apply NoDup_only.
    + apply NoDup_filter_view, (er_unique _ _ _ (bi_repr _ _ _ I)).
    + apply elem_of_dispatch. split; [done|]. by apply (bi_token _ _ _ I).
    + intros [t' cb] [-> [= ->]]%Hall. done.
  - destruct (List.filter is_dispatch (view e regs)) as [|[t cb] l] eqn:El; [done|].
    destruct (Hall t cb) as [_ H]; [by left|done].
Qed.

(** Removing tokens one after the other. *)
Lemma event_repr_off_list n ts : ∀ regs (ev : events listener), event_repr n regs ev →
  ∃ regs', event_repr n regs' (foldl (λ e t, off t e) ev ts) ∧ ∀ r, r ∈ regs' → r ∈ regs ∧ reg_token r ∉ ts.
Proof.
  induction ts as [|t ts IH]; intros regs ev R; cbn [foldl].
  { exists regs. split; [done|]. intros r Hr. split; [done|]. apply not_elem_of_nil. }
  destruct (IH _ _ (event_repr_off n regs ev t R)) as (regs' & R' & Hr'). exists regs'. split; [done|].
  intros r Hr. destruct (Hr' r Hr) as [[Hin Hne]%elem_of_off Hts]. split; [done|]. apply not_elem_of_cons. done.
Qed.

Lemma destroy_listeners n regs b e : binder_inv n regs b → listeners_of e (client (destroy b)) = [].
Proof.
  intros I. destruct (event_repr_off_list n (map_to_list (m_event_sub_tokens b)).*2 _ _ (bi_repr _ _ _ I)) as (r1 & R1 & H1).
  destruct (event_repr_off_list n (m_internal_tokens b) _ _ R1) as (r2 & R2 & H2).
  assert (r2 = []) as ->.
  { destruct r2 as [|[[e' t] cb] r2]; [done|]. exfalso. destruct (H2 (e', t, cb)) as [Hin Hi]; [by left|].
    destruct (H1 _ Hin) as [Hin' Ht]. destruct (bi_kind _ _ _ I _ _ _ Hin') as [->|[_ Ht']]; [|done].
    apply Ht. apply list_elem_of_fmap. exists (e', t). split; [done|]. apply elem_of_map_to_list. by apply (bi_token _ _ _ I). }
  unfold destroy. destruct b; cbn [set_subs client] in *. by rewrite (er_view _ _ _ R2).
Qed.
End runs.

(** The debugger's events are listened to exactly while a plugin wants
    them.  After any sequence of subscriptions, unsubscriptions and changes of
    worlds (short of exhausting the client's 31-bit tokens), the client holds
    one passing-on listener for an event that has subscribers and none for one
    that has not; and once the binder is destroyed no listener of it is left. *)
Theorem subscriptions_match_listeners {W} (w : W) ops e :
  len ops <= INT_MAX - 3 →
  let b := foldl binder_step (init (binder_new w)) ops in
  List.filter is_dispatch (listeners_of e (client b)) =
    match m_event_sub_tokens b !! e with Some t => [(t, Dispatch e)] | None => [] end ∧
  (is_Some (m_event_sub_tokens b !! e) ↔ ∃ p subs, m_event_subs b !! e = Some subs ∧ p ∈ subs) ∧
  listeners_of e (client (destroy b)) = [].
Proof.
  intros Hl b. destruct (binder_inv_init w) as [regs0 I0].
  destruct (binder_inv_run ops 3 regs0 _ I0) as (n & regs & I); [lia|lia|]. fold b in I. split_and!.
  - by eapply dispatch_listeners.
  - rewrite (bi_subs _ _ _ I). split.
    + intros [s Hs]. destruct (set_choose_L s) as [p Hp]; [by eapply (bi_nonempty _ _ _ I)|]. by exists p, s.
    + intros (p & s & Hs & _). by exists s.
  - by eapply destroy_listeners.
Qed.

Lemma subscriptions_match_listeners_witness :
  let ops := [Subscribe #"a" #"Page.load" 1 #"s"; Subscribe #"b" #"Page.load" 2 #"s"; Unsubscribe #"a" #"Page.load"] in
  let b := foldl binder_step (init (binder_new tt)) ops in
  List.filter is_dispatch (listeners_of #"Page.load" (client b)) = [(4, Dispatch #"Page.load")].
Proof.
  intros ops b.
  destruct (subscriptions_match_listeners tt ops #"Page.load") as (H & _); [by vm_compute|].
  etransitivity; [exact H|]. by vm_compute.
Defined.

(** ** What the proxy sends *)

(** The commands a run sent. *)
Definition sends {W} (ok : command → Prop) (b b' : binder W) : Prop := ∃ cs, commands b' = commands b ++ cs ∧ Forall ok cs.

#[export] Instance sends_preorder {W} (ok : command → Prop) : PreOrder (@sends W ok).
Proof.
  split.
  - intros b. exists []. by rewrite app_nil_r.
  - intros b1 b2 b3 (c1 & E1 & F1) (c2 & E2 & F2). exists (c1 ++ c2). split; [by rewrite E2, E1, app_assoc|by apply Forall_app].
Qed.

Section proxy.
  Context {W : Type}.
  Variable parse : bytes → outcome json.
  Variable dump : json → outcome bytes.
  Variable cdp : command → outcome json.
  Variable shared : bytes.
  Variable shutdown : bool.
  Variable ok : command → Prop.
  Abbreviation only := (steps (@sends W ok)).

Lemma only_modify f : (∀ b, commands (f b) = commands b) → only (modify f).
Proof. intros H. apply steps_modify. intros b. exists []. by rewrite H, app_nil_r. Qed.
Lemma only_send m p s : ok (Command m p s) → only (send_host m p s).
Proof. intros H. apply steps_modify. intros b. exists [Command m p s]. by destruct b; repeat constructor. Qed.
Lemma only_send_get m p s : ok (Command m p s) → only (send_host_get cdp m p s).
Proof. intros H. unfold send_host_get. apply steps_bind; [exact _|by apply only_send|steps]. Qed.

(** Answers to plugins are allowed, and so is what is not blocked. *)
  Hypothesis evaluate_ok : ∀ p s, ok (Command #"Runtime.evaluate" p s).
  Hypothesis unblocked_ok : ∀ m p s, is_blocked shared m s = false → ok (Command m p s).

Lemma only_settle fn id t c s : only (settle fn id t c s).
Proof. apply only_send, evaluate_ok. Qed.

Lemma only_cdp_proxy_call p id m a s c t : only (cdp_proxy_call dump cdp shared p id m a s c t).
Proof.
  unfold cdp_proxy_call, deliver. pose proof only_settle. destruct (is_blocked shared m t) eqn:Eb; [steps|].
  pose proof (only_send_get m a t (unblocked_ok _ _ _ Eb)). steps.
Qed.

Lemma only_cdp_proxy params : only (cdp_proxy_hdlr parse dump cdp shared shutdown params).
Proof.
  unfold cdp_proxy_hdlr, relay. pose proof only_settle. pose proof only_cdp_proxy_call.
  assert (∀ p c s, only (modify (set_main p c s))) by (intros; apply only_modify; by intros []).
  assert (∀ (x : bool) p e c s, only (modify (if x then subscribe shutdown p e c s else unsubscribe p e))).
  { intros x p e c s. apply only_modify. intros b. destruct x.
    - unfold subscribe. destruct (decide _); [|by destruct b]. destruct (on _ _ _ _). by destruct b.
    - unfold unsubscribe. repeat case_match; by destruct b. }
  steps.
Qed.
End proxy.

(** The methods Millennium refuses for the user's safety never reach the
    debugger through the plugins' proxy: every command the proxy handler sends,
    whatever the page asks for, is outside the list that is always refused,
    and outside the page list when it goes to the shared context's session. *)
Theorem blocked_methods_never_sent {W} parse dump cdp shared shutdown params (b : binder W) :
  let r := cdp_proxy_hdlr parse dump cdp shared shutdown params b in
  defined r.1 →
  ∃ cs, commands r.2 = commands b ++ cs ∧
    Forall (λ c, c_method c ∉ BLOCKED_CDP_METHODS_ALWAYS ∧
                 (c_session c = Some shared → c_method c ∉ BLOCKED_CDP_METHODS_SHARED_JS)) cs.
Proof.
  intros r Hd.
  assert (∀ m l, mem m l = false → m ∉ l) as Hmem.
  { intros m l H Hin. unfold mem in H. apply list_elem_of_In in Hin. apply not_true_iff_false in H. apply H.
    apply existsb_exists. exists m. split; [done|]. apply bytes_eqb_refl. }
  refine (only_cdp_proxy parse dump cdp shared shutdown
    (λ c, c_method c ∉ BLOCKED_CDP_METHODS_ALWAYS ∧ (c_session c = Some shared → c_method c ∉ BLOCKED_CDP_METHODS_SHARED_JS)) _ _ params b Hd).
  - intros p s. split; [by apply Hmem|]. intros _. by apply Hmem.
  - intros m p s Hb. unfold is_blocked in Hb. apply orb_false_iff in Hb as [H1 H2]. cbn. split; [by apply Hmem|].
    intros ->. rewrite bytes_eqb_refl in H2. by apply Hmem.
Qed.

Definition demo_text (j : json) : outcome bytes := Ok #"{}".
Definition demo_answer (c : command) : outcome json := Ok (JObj []).

(** A call of [method] through a binding. *)
Definition demo_call (binding method : bytes) : json * (bytes → outcome json) :=
  (jobj [(#"name", JStr binding); (#"payload", JStr #"x"); (#"executionContextId", JInt 7); (#"sessionId", JStr #"s")],
   λ _, Ok (jobj [(#"id", JInt 5); (#"action", JStr #"cdp_call"); (#"pluginName", JStr #"p"); (#"callbackId", JInt 1);
                  (#"method", JStr method); (#"sessionId", JStr #"shared")])).

Lemma blocked_methods_never_sent_witness :
  let c := demo_call cdp_proxy_binding_name #"Page.reload" in
  let r := cdp_proxy_hdlr c.2 demo_text demo_answer #"shared" false c.1 (binder_new tt) in
  map c_method (commands r.2) = [ #"Runtime.evaluate"] ∧
  ∃ cs, commands r.2 = [] ++ cs ∧
    Forall (λ c, c_method c ∉ BLOCKED_CDP_METHODS_ALWAYS ∧
                 (c_session c = Some #"shared" → c_method c ∉ BLOCKED_CDP_METHODS_SHARED_JS)) cs.
Proof.
  intros c r. split; [by vm_compute|].
  apply (blocked_methods_never_sent c.2 demo_text demo_answer #"shared" false c.1 (binder_new tt)). by vm_compute.
Defined.

(** The extension route forwards the same methods unchecked. *)
Theorem extension_route_unchecked :
  let c := demo_call extension_binding_name #"Debugger.pause" in
  let r := binding_call_hdlr c.2 demo_text demo_answer (λ _ w, (Ok JNull, w)) #"shared" false (S754_zero false, 0) c.1 (binder_new tt) in
  map c_method (commands r.2) = [ #"Debugger.pause"; #"Runtime.evaluate"].
Proof. by vm_compute. Qed.

(** ** Calls are answered *)

Lemma jget_idx k v j : jget k j = Some v → idx k j = Ok v.
Proof. intros Hv. destruct j; try done. unfold idx, jget in *. by rewrite Hv. Qed.

Lemma jget_contains k v j : jget k j = Some v → contains k j = true.
Proof. intros Hv. unfold contains. by rewrite Hv. Qed.

Section answered.
  Context {W : Type}.
  Variable parse : bytes → outcome json.
  Variable dump : json → outcome bytes.
  Variable cdp : command → outcome json.
  Variable process : json → SM W json.
  Variable clock : spec_float * Z.
  Hypothesis dump_defined : ∀ j, defined (dump j).

(** Recording a call touches nothing but the record, and does not fail it. *)
Lemma record_call_harmless payload result (b : binder W) :
  defined (value_int #"id" (-1) payload) →
  ∃ b', swallow (record_call dump clock payload result) b = (Ok (), b') ∧ commands b' = commands b ∧ inner b' = inner b.
Proof.
  intros Hid. assert (defined (record_call dump clock payload result b).1) as Hd.
  { assert (total (record_call (W:=W) dump clock payload result)) as Ht; [|apply Ht].
    unfold record_call. apply total_lift_bind; [done|]. total. }
  pose (R := λ b b' : binder W, commands b' = commands b ∧ inner b' = inner b).
  assert (PreOrder R) as HR by (split; [done|]; intros ??? [? ?] [? ?]; split; congruence).
  assert (steps R (record_call dump clock payload result)) as HS.
  { unfold record_call. assert (∀ x, steps R (modify (add_recorded x))) by (intros; apply steps_modify; by intros []). steps. }
  specialize (HS b Hd). unfold swallow.
  destruct (record_call dump clock payload result b) as [[[]|e| |] b']; cbn [fst snd] in *; [by exists b'|by exists b'|by destruct Hd..].
Qed.

Definition answer_command (ctx : json) (session : bytes) (id : Z) (text : bytes) : command :=
  Command #"Runtime.evaluate"
    (evaluate_params ctx (call2 (#"window." ++ frontend_binding_name ++ #".__handleResponse") (fmt_int id) text)) (Some session).

Lemma callback_runs params id answer ctx session text (b : binder W) :
  jget #"executionContextId" params = Some ctx → jget #"sessionId" params = Some (JStr session) → dump answer = Ok text →
  cdp (answer_command ctx session id text) = Ok (JObj []) →
  callback_into_js dump cdp params id answer b = (Ok (), add_command (answer_command ctx session id text) b).
Proof.
  intros Hc Hs Ht Ha. unfold callback_into_js. run_simpl. rewrite (jget_idx _ _ _ Hc). cbn beta iota. run_simpl. rewrite Ht. cbn beta iota. run_simpl.
  rewrite (jget_idx _ _ _ Hs). cbn [mbind outcome_bind get_string]. unfold send_host_get, send_host. run_simpl.
  fold (answer_command ctx session id text). by rewrite Ha.
Qed.
End answered.

(** A page's call is answered exactly once.  A well-formed call of the
    page's binding runs the message handler once and then sends one command,
    to the page and context it came from: the script that settles the call
    with its id and the handler's result, or with the text of the exception
    the handler threw.  Whatever goes wrong in the recorder changes neither. *)
Theorem ffi_call_answered {W} parse dump cdp process shared shutdown clock params payload ptext id ctx session text (b : binder W) :
  jget #"name" params = Some (JStr binding_name) →
  jget #"payload" params = Some (JStr ptext) → parse ptext = Ok payload →
  jget #"executionContextId" params = Some ctx → jget #"sessionId" params = Some (JStr session) →
  jget #"call_id" payload = Some (JInt id) → i32 id = id →
  (∀ j, defined (dump j)) → defined (value_int #"id" (-1) payload) → defined (process payload (inner b)).1 →
  dump (match (process payload (inner b)).1 with Ok r => r | Throw e => ffi_error e | _ => JNull end) = Ok text →
  cdp (answer_command ctx session id text) = Ok (JObj []) →
  let r := binding_call_hdlr parse dump cdp process shared shutdown clock params b in
  r.1 = Ok () ∧ commands r.2 = commands b ++ [answer_command ctx session id text] ∧ inner r.2 = (process payload (inner b)).2.
Proof.
  intros Hn Hp Hparse Hc Hs Hid Hi Hdump Hvid Hproc Ht Ha.
  pose proof jget_idx as Hidx. pose proof jget_contains as Hcon.
  assert (is_valid_request params = Ok true) as Hvalid.
  { unfold is_valid_request. rewrite (Hcon _ _ _ Hn), (Hcon _ _ _ Hp), (Hcon _ _ _ Hc), (Hcon _ _ _ Hs), (Hidx _ _ _ Hn), (Hidx _ _ _ Hs). done. }
  assert (parse_payload parse params = Ok payload) as Hpay.
  { unfold parse_payload. rewrite (Hidx _ _ _ Hp). cbn [mbind outcome_bind get_string]. done. }
  intros r. subst r. unfold binding_call_hdlr. rewrite (Hcon _ _ _ Hn). cbn [negb]. run_simpl. rewrite (Hidx _ _ _ Hn).
  cbn [mbind outcome_bind get_string].
  change (bytes_eqb binding_name extension_binding_name) with false. change (bytes_eqb binding_name cdp_proxy_binding_name) with false.
  change (bytes_eqb binding_name sdk_ready_binding_name) with false. change (bytes_eqb binding_name plugin_console_binding_name) with false.
  cbn iota. run_simpl. rewrite Hvalid. cbn [negb]. unfold binding_call. run_simpl. unfold attempt, catching at 1 3. run_simpl. rewrite Hpay.
  cbn beta iota. run_simpl. unfold catching. run_simpl. rewrite (Hcon _ _ _ Hid). cbn [negb]. run_simpl. rewrite (Hidx _ _ _ Hid).
  cbn [mbind outcome_bind get_int]. rewrite Hi. cbn beta iota. run_simpl. unfold run_process.
  destruct (process payload (inner b)) as [[res|e| |] w]; cbn [fst snd] in *; try by destruct Hproc.
  - run_simpl. destruct (record_call_harmless dump clock Hdump payload res (set_inner w b) Hvid) as (b1 & -> & C1 & I1). cbn beta iota.
    rewrite (callback_runs dump cdp params id res ctx session text b1 Hc Hs Ht Ha). cbn [fst snd].
    split; [done|]. destruct b, b1. cbn in *. by rewrite C1, I1.
  - rewrite Hid. cbn [is_number]. cbn beta iota. run_simpl. cbn [get_int]. rewrite Hi. cbn beta iota.
    rewrite (callback_runs dump cdp params id (ffi_error e) ctx session text _ Hc Hs Ht Ha). by destruct b.
Qed.

Lemma ffi_call_answered_witness :
  let params := jobj [(#"name", JStr binding_name); (#"payload", JStr #"x"); (#"executionContextId", JInt 7); (#"sessionId", JStr #"s")] in
  let r := binding_call_hdlr (λ _, Ok (jobj [(#"id", JInt 0); (#"call_id", JInt 41)])) demo_text demo_answer
             (λ _ w, (Throw #"no such plugin", S w)) #"shared" false (S754_zero false, 0) params (binder_new 0%nat) in
  r.1 = Ok () ∧ commands r.2 = [] ++ [answer_command (JInt 7) #"s" 41 #"{}"] ∧ inner r.2 = 1%nat.
Proof.
  intros params. apply (ffi_call_answered (λ _, Ok (jobj [(#"id", JInt 0); (#"call_id", JInt 41)])) demo_text demo_answer
    (λ _ w, (Throw #"no such plugin", S w)) #"shared" false (S754_zero false, 0) params
    (jobj [(#"id", JInt 0); (#"call_id", JInt 41)]) #"x" 41 (JInt 7) #"s" #"{}" (binder_new 0%nat)); try reflexivity; try (by intros ?); done.
Defined.
