(* ===== verification/Url.v ===== *)
(** * Url: URL coding, target policies and command lines

    Models [src/src/include/millennium/url_parser.h] (on POSIX systems),
    [src/src/engine/target_url.cc], [include/millennium/mime_types.h] and
    [src/src/util/cmdline_parser.cc].  The URL parser of curl and
    [std::regex_match] are parameters. *)

From S2P Require Import Prelude.

(** ** URL coding *)

Definition unreserved (c : byte) : bool :=
  isalnum c || beqb c "-"%byte || beqb c "_"%byte || beqb c "."%byte || beqb c "~"%byte || beqb c "/"%byte.

Definition HEX : bytes := #"0123456789ABCDEF".
Definition hex_char (d : Z) : byte := nth (Z.to_nat d) HEX "?"%byte.

(** [std::uppercase << std::hex << int(c)]: no leading zero. *)
Definition hex_upper (z : Z) : bytes :=
  if z <? 16 then [hex_char z] else [hex_char (z / 16); hex_char (z mod 16)].

Definition encode_byte (c : byte) : bytes :=
  if unreserved c then [c]
  else if beqb c " "%byte then #"+"
  else "%"%byte :: hex_upper (b2z c).

Definition encode_url (value : bytes) : bytes := concat (encode_byte <$> value).

Definition plat_encode_url (path : bytes) : bytes :=
  encode_url match path with c :: rest => if beqb c "/"%byte then rest else path | [] => path end.

(** The value of a hexadecimal digit. *)
Definition hex_val (c : byte) : Z :=
  if isdigit c then b2z c - 48 else b2z (tolower c) - 87.

Fixpoint decode_url (url : bytes) : bytes :=
  match url with
  | [] => []
  | c :: rest =>
      if beqb c "%"%byte then
        match rest with
        | a :: b :: rest' =>
            if isxdigit a && isxdigit b then z2b (hex_val a * 16 + hex_val b) :: decode_url rest'
            else decode_url rest
        | _ => decode_url rest
        end
      else if beqb c "+"%byte then " "%byte :: decode_url rest
      else c :: decode_url rest
  end.

Definition get_url_from_path (baseAddress path : bytes) : bytes := baseAddress ++ plat_encode_url path.

Definition strip_query (path : bytes) : bytes :=
  match find_char "?"%byte path with Some q => take q path | None => path end.

Definition get_path_from_url (path : bytes) : bytes := #"/" ++ decode_url (strip_query path).

(** ** Targets *)

Definition ends_with (s suffix : bytes) : bool :=
  (len suffix <=? len s) && bytes_eqb (drop (length s - length suffix) s) suffix.

Definition is_domain_match (host domain : bytes) : bool :=
  if bytes_eqb host domain then true
  else if (len domain <? len host) &&
          bool_decide (host !! (length host - length domain - 1)%nat = Some "."%byte) &&
          ends_with host domain then true
  else false.

Record target_url := TargetUrl {
  m_valid : bool;
  m_scheme : bytes;
  m_host : bytes;
  m_raw_url : bytes;
}.

(** [while (!m_host.empty() && m_host.back() == '.') m_host.pop_back()] *)
Fixpoint strip_dots (rev_host : bytes) : bytes :=
  match rev_host with
  | c :: h => if beqb c "."%byte then strip_dots h else rev_host
  | [] => []
  end.
Definition strip_trailing_dots (host : bytes) : bytes := rev (strip_dots (rev host)).

Definition k_steam_tlds : list bytes :=
  [ #"steampowered.com"; #"steamcommunity.com"; #"steamgames.com"; #"steam-chat.com"; #"steamstatic.com"].
Definition k_steam_loopback : bytes := #"steamloopback.host".

Definition forbidden_domains : list bytes :=
  [ #"paypal.com"; #"paypalobjects.com"; #"recaptcha.net"; #"youtube.com"; #"youtube-nocookie.com";
    #"youtu.be"; #"ytimg.com"; #"googlevideo.com"; #"googleusercontent.com"; #"studioyoutube.com";
    #"chromewebstore.google.com"].

Section target.
  (** [curl_url_set] and [curl_url_get]: the host and scheme of a URL. *)
  Variable curl_parse : bytes → option (bytes * bytes).

Definition mk_target (url : bytes) : target_url :=
  match curl_parse url with
  | Some (host, scheme) => TargetUrl true (tolower <$> scheme) (tolower <$> strip_trailing_dots host) url
  | None => TargetUrl false [] [] url
  end.
End target.

Definition is_valid (t : target_url) : bool := m_valid t.

Definition is_safe_for_network_hooks (t : target_url) : bool :=
  if negb (m_valid t) then false
  else if negb (bytes_eqb (m_scheme t) #"http") && negb (bytes_eqb (m_scheme t) #"https") then false
  else negb (existsb (is_domain_match (m_host t)) forbidden_domains).

Definition is_safe_for_js (t : target_url) : bool :=
  if negb (m_valid t) then false
  else if is_domain_match (m_host t) #"checkout.steampowered.com" then false
  else is_safe_for_network_hooks t.

Definition is_steam_owned (t : target_url) : bool :=
  if negb (m_valid t) then false
  else if bytes_eqb (m_host t) k_steam_loopback then true
  else existsb (is_domain_match (m_host t)) k_steam_tlds.

Inductive TagTypes := STYLESHEET | JAVASCRIPT.
#[export] Instance TagTypes_eq_dec : EqDecision TagTypes.
Proof. solve_decision. Defined.

(** The patterns are compiled regular expressions of type [Re]. *)
Record hook_t (Re : Type) := Hook { path : bytes; url_pattern : Re; type : TagTypes }.
Arguments Hook {_} _ _ _.
Arguments path {_} _.
Arguments url_pattern {_} _.
Arguments type {_} _.
Record hook_item (Re : Type) := HookItem { hook : hook_t Re; id : Z }.
Arguments HookItem {_} _ _.
Arguments hook {_} _.
Arguments id {_} _.

Definition allows_webkit_injection {Re} (regex_match : bytes → Re → bool) (hooks : list (hook_item Re)) (t : target_url) : bool :=
  if negb (m_valid t) then false
  else if negb (is_safe_for_js t) then false
  else if bytes_eqb (m_host t) k_steam_loopback then false
  else if is_steam_owned t then true
  else existsb (λ h, regex_match (m_raw_url t) (url_pattern (hook h))) hooks.

(** ** MIME types *)

Inductive file_type := CSS | JS | JSON | TTF | OTF | WOFF | WOFF2 | PNG | JPEG | JPG | GIF | WEBP | SVG | HTML | UNKNOWN.
#[export] Instance file_type_eq_dec : EqDecision file_type.
Proof. solve_decision. Defined.

Definition file_types : list (file_type * bytes * bytes * bool) :=
  [(CSS, #".css", #"text/css", false); (JS, #".js", #"application/javascript", false);
   (JSON, #".json", #"application/json", false); (TTF, #".ttf", #"font/ttf", true);
   (OTF, #".otf", #"font/otf", true); (WOFF, #".woff", #"font/woff", true);
   (WOFF2, #".woff2", #"font/woff2", true); (PNG, #".png", #"image/png", true);
   (JPEG, #".jpeg", #"image/jpeg", true); (JPG, #".jpg", #"image/jpeg", true);
   (GIF, #".gif", #"image/gif", true); (WEBP, #".webp", #"image/webp", true);
   (SVG, #".svg", #"image/svg+xml", true); (HTML, #".html", #"text/html", false)].

(** [path.extension()]: from the last dot of the file name, unless that is
    its first character. *)
Definition extension (p : bytes) : bytes :=
  let name := match rfind_char "/"%byte p with Some i => drop (S i) p | None => p end in
  if bytes_eqb name #".." then [] else
  match rfind_char "."%byte name with Some (S i) => drop (S i) name | _ => [] end.

Definition get_file_type (p : bytes) : file_type :=
  match List.find (λ e, bytes_eqb (extension p) e.1.1.2) file_types with Some e => e.1.1.1 | None => UNKNOWN end.
Definition get_mime_str (t : file_type) : bytes :=
  match List.find (λ e, bool_decide (e.1.1.1 = t)) file_types with Some e => e.1.2 | None => #"text/plain" end.
Definition is_bin_file (t : file_type) : bool :=
  match List.find (λ e, bool_decide (e.1.1.1 = t)) file_types with Some e => e.2 | None => false end.

(** ** Command lines (POSIX) *)

Record command := Command { exec : bytes; params : list bytes }.

Definition executable (c : command) : bytes :=
  let sep := match rfind_char "/"%byte (exec c), rfind_char "\"%byte (exec c) with
             | Some s, Some b => Some (Nat.max s b)
             | Some s, None => Some s
             | None, b => b
             end in
  match sep with Some i => drop (S i) (exec c) | None => exec c end.

(** A parameter with this key, with or without a value. *)
Definition has_key (key p : bytes) : bool :=
  bytes_eqb p key || ((len key <? len p) && prefixb key p && bool_decide (p !! length key = Some "="%byte)).

Fixpoint replace_first (key entry : bytes) (ps : list bytes) : option (list bytes) :=
  match ps with
  | [] => None
  | p :: ps => if has_key key p then Some (entry :: ps) else (λ ps, p :: ps) <$> replace_first key entry ps
  end.

Definition param_entry (key : bytes) (value : option bytes) : bytes :=
  match value with Some v => key ++ #"=" ++ v | None => key end.

Definition ensure_param (key : bytes) (value : option bytes) (c : command) : command :=
  let entry := param_entry key value in
  Command (exec c) match replace_first key entry (params c) with Some ps => ps | None => entry :: params c end.

Definition remove_param (key : bytes) (c : command) : command :=
  Command (exec c) (List.filter (λ p, negb (has_key key p)) (params c)).

Definition dquote : byte := "034"%byte.
Definition squote : byte := "'"%byte.
Definition backslash : byte := "\"%byte.
Definition tab : byte := "009"%byte.

Definition is_quote_char (c : byte) : bool := beqb c dquote || beqb c squote.

Definition quote_token (s : bytes) : bytes :=
  if negb (existsb (λ c, beqb c " "%byte || beqb c tab || beqb c dquote || beqb c squote) s) then s
  else dquote :: concat ((λ c, if beqb c dquote || beqb c backslash then [backslash; c] else [c]) <$> s) ++ [dquote].

Definition build (c : command) : bytes :=
  quote_token (exec c) ++ concat ((λ p, " "%byte :: quote_token p) <$> params c).

(** The loop of [parse]; the tokens are flushed in order, the first one is
    the executable. *)
Fixpoint parse_loop (s : bytes) (in_quotes : option byte) (token : bytes) (tokens : list bytes) : list bytes :=
  match s with
  | [] => match token with [] => tokens | _ => tokens ++ [token] end
  | c :: s =>
      if is_quote_char c && match in_quotes with None => true | Some q => beqb c q end then
        parse_loop s (match in_quotes with None => Some c | Some _ => None end) token tokens
      else if beqb c " "%byte && match in_quotes with None => true | Some _ => false end then
        match token with
        | [] => parse_loop s in_quotes [] tokens
        | _ => parse_loop s in_quotes [] (tokens ++ [token])
        end
      else parse_loop s in_quotes (token ++ [c]) tokens
  end.

Definition parse (full_cmd : bytes) : command :=
  match parse_loop full_cmd None [] [] with
  | [] => Command [] []
  | e :: ps => Command e ps
  end.

Example parse_quotes : params (parse (#"steam -a " ++ dquote :: #"b c" ++ [dquote])) = [ #"-a"; #"b c"].
Proof. vm_compute. reflexivity. Qed.
Example ext_tar : extension #"/a.b/x.tar.gz" = #".gz".
Proof. vm_compute. reflexivity. Qed.

(** ** Lemmas on URL coding *)

Lemma encode_url_app a b : encode_url (a ++ b) = encode_url a ++ encode_url b.
Proof. unfold encode_url. by rewrite fmap_app, concat_app. Qed.

Lemma encode_url_cons c s : encode_url (c :: s) = encode_byte c ++ encode_url s.
Proof. done. Qed.

(** One encoded byte decodes to itself. *)
Lemma decode_encode_byte c rest : 16 <= b2z c → decode_url (encode_byte c ++ rest) = c :: decode_url rest.
Proof. intros Hc. destruct c; first [exfalso; vm_compute in Hc; congruence | reflexivity]. Qed.

Lemma decode_encode s : Forall (λ c, 16 <= b2z c) s → decode_url (encode_url s) = s.
Proof.
  induction 1 as [|c s Hc Hs IH]; [done|]. rewrite encode_url_cons, decode_encode_byte by done. by rewrite IH.
Qed.

(** The characters an encoded text is made of. *)
Definition url_char (c : byte) : bool := unreserved c || beqb c "+"%byte || beqb c "%"%byte.

Lemma encode_byte_chars c : forallb url_char (encode_byte c) = true.
Proof. by destruct c. Qed.

Lemma encode_url_chars s : Forall (λ c, url_char c = true) (encode_url s).
Proof.
  induction s as [|c s IH]; [constructor|]. rewrite encode_url_cons. apply Forall_app. split; [|done].
  apply Forall_forall. intros x Hx. pose proof (encode_byte_chars c) as H. rewrite forallb_forall in H.
  by apply H, list_elem_of_In.
Qed.

Lemma encode_no_query s : "?"%byte ∉ encode_url s.
Proof.
  intros Hin. pose proof (encode_url_chars s) as H. eapply Forall_forall in H; [|exact Hin]. done.
Qed.

(** ** Lemmas on domains *)

Lemma ends_with_iff s suffix : ends_with s suffix = true ↔ ∃ p, s = p ++ suffix.
Proof.
  unfold ends_with. rewrite andb_true_iff, bytes_eqb_true, Z.leb_le. unfold len. split.
  - intros [Hl He]. exists (take (length s - length suffix) s). rewrite <- He at 2. by rewrite take_drop.
  - intros [p ->]. rewrite length_app. split; [lia|]. replace (length p + length suffix - length suffix)%nat with (length p) by lia.
    apply drop_app_length.
Qed.

Lemma is_domain_match_iff host domain :
  is_domain_match host domain = true ↔ host = domain ∨ ∃ p, host = p ++ "."%byte :: domain.
Proof.
  unfold is_domain_match. destruct (bytes_eqb host domain) eqn:E.
  { apply bytes_eqb_true in E. naive_solver. }
  apply bytes_eqb_false in E. destruct (ends_with host domain) eqn:Ee.
  - apply ends_with_iff in Ee as [p ->]. rewrite andb_true_r. unfold len. rewrite length_app.
    replace (length p + length domain - length domain - 1)%nat with (length p - 1)%nat by lia.
    destruct p as [|c p _] using rev_ind; [done|]. rewrite length_app. cbn [length].
    replace (length p + 1 - 1)%nat with (length p) by lia.
    rewrite lookup_app_l by (rewrite length_app; cbn [length]; lia). rewrite list_lookup_middle by done.
    destruct (Z.ltb_spec (Z.of_nat (length domain)) (Z.of_nat (length p + 1 + length domain))); [|lia]. cbn [andb].
    case_bool_decide as Hc.
    + injection Hc as ->. split; [|done]. intros _. right. exists p. by rewrite <- app_assoc.
    + split; [done|]. intros [He|[p' He]]; [done|]. exfalso. apply Hc. rewrite <- app_assoc in He. cbn in He.
      apply app_inj_2 in He; [|done]. destruct He as [_ He]. congruence.
  - rewrite andb_false_r. split; [done|]. intros [->|[p ->]]; [done|].
    assert (ends_with (p ++ "."%byte :: domain) domain = true) as Ht; [|congruence].
    apply ends_with_iff. exists (p ++ #"."). by rewrite <- app_assoc.
Qed.

(** ** Lemmas on command lines *)

(** The tokens that survive [build] and [parse]: not empty, no double quote,
    and no backslash if they have to be quoted. *)
Definition needs_quotes (s : bytes) : bool :=
  existsb (λ c, beqb c " "%byte || beqb c tab || beqb c dquote || beqb c squote) s.

Definition token_ok (s : bytes) : Prop :=
  s ≠ [] ∧ dquote ∉ s ∧ (needs_quotes s = true → backslash ∉ s).

Lemma token_ok_of_bool s :
  negb (bytes_eqb s []) && forallb (λ x, negb (beqb x dquote)) s &&
  (negb (needs_quotes s) || forallb (λ x, negb (beqb x backslash)) s) = true → token_ok s.
Proof.
  rewrite !andb_true_iff, orb_true_iff, !negb_true_iff, bytes_eqb_false. intros [[Hne Hd] Hb].
  split_and!; [done|by apply notin_of_bool|]. intros Hn. destruct Hb as [Hb|Hb]; [congruence|by apply notin_of_bool].
Qed.

Lemma parse_plain s : ∀ rest token tokens,
  needs_quotes s = false → parse_loop (s ++ rest) None token tokens = parse_loop rest None (token ++ s) tokens.
Proof.
  induction s as [|c s IH]; intros rest token tokens Hs; [by rewrite app_nil_r|].
  unfold needs_quotes in *. cbn [existsb] in Hs. apply orb_false_iff in Hs as [Hc Hs].
  apply orb_false_iff in Hc as [Hc Hsq]. apply orb_false_iff in Hc as [Hc Hdq]. apply orb_false_iff in Hc as [Hsp _].
  cbn [app parse_loop]. unfold is_quote_char. rewrite Hdq, Hsq, Hsp. cbn [orb andb]. rewrite IH by done. by rewrite <- app_assoc.
Qed.

Lemma parse_quoted s : ∀ rest token tokens,
  dquote ∉ s → parse_loop (s ++ rest) (Some dquote) token tokens = parse_loop rest (Some dquote) (token ++ s) tokens.
Proof.
  induction s as [|c s IH]; intros rest token tokens Hs; [by rewrite app_nil_r|].
  apply not_elem_of_cons in Hs as [Hc Hs]. assert (beqb c dquote = false) as Hb by (by apply beqb_false, not_eq_sym).
  cbn [app parse_loop]. rewrite Hb, !andb_false_r. rewrite IH by done. by rewrite <- app_assoc.
Qed.

Lemma quote_plain s : dquote ∉ s → backslash ∉ s →
  concat ((λ c, if beqb c dquote || beqb c backslash then [backslash; c] else [c]) <$> s) = s.
Proof.
  induction s as [|c s IH]; intros Hd Hb; [done|]. apply not_elem_of_cons in Hd as [Hd1 Hd2], Hb as [Hb1 Hb2]. cbn.
  assert (beqb c dquote = false) as -> by (by apply beqb_false, not_eq_sym).
  assert (beqb c backslash = false) as -> by (by apply beqb_false, not_eq_sym). cbn. f_equal. by apply IH.
Qed.

Lemma parse_token s rest tokens :
  token_ok s → parse_loop (quote_token s ++ rest) None [] tokens = parse_loop rest None s tokens.
Proof.
  intros (Hne & Hd & Hb). unfold quote_token. fold (needs_quotes s). destruct (needs_quotes s) eqn:En; cbn [negb].
  - rewrite quote_plain by (done || by apply Hb). cbn [app parse_loop].
    change (is_quote_char dquote) with true. cbn [andb]. rewrite <- app_assoc, parse_quoted by done.
    cbn [app parse_loop]. change (is_quote_char dquote) with true. by rewrite beqb_refl.
  - by rewrite parse_plain.
Qed.

Lemma parse_space s rest tokens : s ≠ [] → parse_loop (" "%byte :: rest) None s tokens = parse_loop rest None [] (tokens ++ [s]).
Proof. intros. cbn [parse_loop]. by destruct s. Qed.

Lemma parse_params ps : ∀ s tokens,
  s ≠ [] → Forall token_ok ps →
  parse_loop (concat ((λ p, " "%byte :: quote_token p) <$> ps)) None s tokens = tokens ++ s :: ps.
Proof.
  induction ps as [|p ps IH]; intros s tokens Hs Hps; [cbn; by destruct s|].
  apply Forall_cons in Hps as [Hp Hps]. cbn [fmap list_fmap concat]. change ((" "%byte :: quote_token p) ++ ?x) with (" "%byte :: (quote_token p ++ x)).
  rewrite parse_space, parse_token by done. destruct Hp as [Hp _].
  fold (fmap (M := list) (λ p, " "%byte :: quote_token p) ps). rewrite IH by done. by rewrite <- app_assoc.
Qed.

Lemma has_key_entry key value : has_key key (param_entry key value) = true.
Proof.
  unfold has_key, param_entry. destruct value as [v|]; [|by rewrite bytes_eqb_refl].
  apply orb_true_iff. right. rewrite !andb_true_iff, bool_decide_eq_true. split_and!.
  - apply Z.ltb_lt. unfold len. rewrite !length_app. change (length #"=") with 1%nat. lia.
  - induction key as [|c key IH]; [done|]. cbn. by rewrite beqb_refl.
  - change (key ++ #"=" ++ v) with (key ++ "="%byte :: v). by rewrite list_lookup_middle.
Qed.

Lemma replace_first_spec key entry ps :
  match replace_first key entry ps with
  | None => Forall (λ p, has_key key p = false) ps
  | Some ps' => ∃ l p r, ps = l ++ p :: r ∧ has_key key p = true ∧ Forall (λ p, has_key key p = false) l ∧ ps' = l ++ entry :: r
  end.
Proof.
  induction ps as [|p ps IH]; cbn [replace_first]; [constructor|]. destruct (has_key key p) eqn:E.
  - exists [], p, ps. split_and!; [done..|constructor|done].
  - destruct (replace_first key entry ps) as [ps'|]; cbn.
    + destruct IH as (l & x & r & -> & Hx & Hl & ->). exists (p :: l), x, r. split_and!; try done. by constructor.
    + by constructor.
Qed.

(** ** Properties *)

(** URL coding.  Text whose bytes are all at least 0x10 decodes from its
    encoding; a path turned into a URL and back is the same path; and the
    encoding of any text consists of letters, digits and [-_.~/+%], so it
    cannot leave an HTML attribute. *)
Theorem url_roundtrip s :
  (Forall (λ c, 16 <= b2z c) s →
     decode_url (encode_url s) = s ∧ get_path_from_url (plat_encode_url ("/"%byte :: s)) = "/"%byte :: s) ∧
  Forall (λ c, url_char c = true) (encode_url s).
Proof.
  split; [|apply encode_url_chars]. intros Hs. split; [by apply decode_encode|].
  unfold get_path_from_url, plat_encode_url, strip_query. rewrite beqb_refl.
  rewrite (proj2 (find_char_None _ _)) by apply encode_no_query. by rewrite decode_encode.
Qed.

(** Control characters do not survive: their code is written with one
    hexadecimal digit, which the decoder does not accept. *)
Theorem url_control_not_roundtrip c s :
  b2z c < 16 → decode_url (encode_url (c :: "z"%byte :: s)) ≠ c :: "z"%byte :: s.
Proof.
  intros Hc. rewrite encode_url_cons, (encode_url_cons "z"%byte). destruct c; try (exfalso; vm_compute in Hc; congruence); done.
Qed.

Lemma url_control_not_roundtrip_witness : decode_url (encode_url ("010"%byte :: #"z")) ≠ "010"%byte :: #"z".
Proof. apply (url_control_not_roundtrip "010"%byte []). vm_compute. reflexivity. Defined.

(** Which pages are modified.  A host matches a domain only if it is the
    domain or one of its subdomains; a target that may be modified has an
    http scheme and lies outside every forbidden domain; one that may run
    scripts lies outside the Steam checkout too; and webkit injection happens
    only on such targets, never on the loopback host. *)
Theorem target_policy {Re} (regex_match : bytes → Re → bool) hooks t :
  (∀ host domain, is_domain_match host domain = true ↔ host = domain ∨ ∃ p, host = p ++ "."%byte :: domain) ∧
  (is_safe_for_network_hooks t = true →
     m_scheme t ∈ [ #"http"; #"https"] ∧
     ∀ d, d ∈ forbidden_domains → m_host t ≠ d ∧ ∀ p, m_host t ≠ p ++ "."%byte :: d) ∧
  (is_safe_for_js t = true → is_safe_for_network_hooks t = true ∧
     m_host t ≠ #"checkout.steampowered.com" ∧ ∀ p, m_host t ≠ p ++ "."%byte :: #"checkout.steampowered.com") ∧
  (allows_webkit_injection regex_match hooks t = true →
     is_safe_for_js t = true ∧ m_host t ≠ k_steam_loopback ∧
     (is_steam_owned t = true ∨ ∃ h, h ∈ hooks ∧ regex_match (m_raw_url t) (url_pattern (hook h)) = true)).
Proof.
  assert (∀ d, is_domain_match (m_host t) d = false → m_host t ≠ d ∧ ∀ p, m_host t ≠ p ++ "."%byte :: d) as Hno.
  { intros d Hd. split; [intros E|intros p E]; assert (is_domain_match (m_host t) d = true) by (apply is_domain_match_iff; eauto); congruence. }
  split; [apply is_domain_match_iff|]. split_and!.
  - unfold is_safe_for_network_hooks. destruct (m_valid t); cbn [negb]; [|done].
    destruct (bytes_eqb (m_scheme t) #"http") eqn:E1, (bytes_eqb (m_scheme t) #"https") eqn:E2; cbn [negb andb]; try done;
      rewrite negb_true_iff; intros Hf; (split;
      [first [apply bytes_eqb_true in E1; rewrite E1; left | apply bytes_eqb_true in E2; rewrite E2; right; left]|];
      intros d Hd; apply Hno; destruct (is_domain_match (m_host t) d) eqn:Em; [|done];
      assert (existsb (is_domain_match (m_host t)) forbidden_domains = true) by (apply existsb_exists; exists d; split; [by apply list_elem_of_In|done]); congruence).
  - unfold is_safe_for_js. destruct (m_valid t); cbn [negb]; [|done].
    destruct (is_domain_match (m_host t) #"checkout.steampowered.com") eqn:Em; [done|]. intros Hs. split; [done|]. by apply Hno.
  - unfold allows_webkit_injection. destruct (m_valid t); cbn [negb]; [|done]. destruct (is_safe_for_js t); cbn [negb]; [|done].
    destruct (bytes_eqb (m_host t) k_steam_loopback) eqn:El; [done|]. apply bytes_eqb_false in El.
    destruct (is_steam_owned t); [by auto|]. intros (h & Hin & Hm)%existsb_exists. split_and!; [done..|]. right. exists h.
    split; [by apply list_elem_of_In|done].
Qed.

(** A command line survives [build] and [parse]: for an executable and
    parameters that are not empty and have no double quote, nor a backslash
    where quoting is needed, parsing the built line gives the same command. *)
Theorem cmdline_roundtrip c : token_ok (exec c) → Forall token_ok (params c) → parse (build c) = c.
Proof.
  intros He Hp. unfold parse, build. rewrite parse_token by done. destruct He as [He _].
  rewrite parse_params by done. by destruct c.
Qed.

Definition demo_command : command := Command #"/opt/my steam" [ #"-dev"; #"-x=a b"; #"it's"].

Lemma cmdline_roundtrip_witness : parse (build demo_command) = demo_command.
Proof.
  apply cmdline_roundtrip; [apply token_ok_of_bool; vm_compute; reflexivity|].
  repeat (apply Forall_cons; split; [apply token_ok_of_bool; vm_compute; reflexivity|]). constructor.
Defined.

(** A quoted token with a backslash comes back with the backslash
    doubled: [quote_token] escapes it and [parse] does not undo the escape. *)
Theorem cmdline_backslash_doubled :
  ∃ c, params c = [ #"a b\c"] ∧ params (parse (build c)) = [ #"a b\\c"].
Proof. exists (Command #"steam" [ #"a b\c"]). vm_compute. done. Qed.

(** Setting and removing a parameter.  [ensure_param] leaves the entry in
    place of the first parameter with that key, or in front when there is
    none, and keeps the others in order; [remove_param] removes exactly the
    parameters with the key. *)
Theorem ensure_remove_param key value c :
  let c' := ensure_param key value c in
  exec c' = exec c ∧
  ((∃ l p r, params c = l ++ p :: r ∧ has_key key p = true ∧ Forall (λ p, has_key key p = false) l ∧
      params c' = l ++ param_entry key value :: r) ∨
   Forall (λ p, has_key key p = false) (params c) ∧ params c' = param_entry key value :: params c) ∧
  ensure_param key value c' = c' ∧
  params (remove_param key c') = params (remove_param key c).
Proof.
  unfold ensure_param. cbn [exec params]. pose proof (replace_first_spec key (param_entry key value) (params c)) as Hs.
  split; [done|]. destruct (replace_first key _ (params c)) as [ps'|].
  - destruct Hs as (l & p & r & Hp & Hk & Hl & ->). split; [left; eauto 8|]. split.
    + f_equal. pose proof (replace_first_spec key (param_entry key value) (l ++ param_entry key value :: r)) as Hs'.
      destruct (replace_first key (param_entry key value) (l ++ param_entry key value :: r)) as [ps2|] eqn:E.
      * clear Hs' Hp. revert ps2 E. induction Hl as [|x l Hx Hl IH]; intros ps2; cbn.
        -- rewrite has_key_entry. by intros [= <-].
        -- rewrite Hx. destruct (replace_first _ _ (l ++ _)); [|done]. cbn. intros [= <-]. f_equal. by apply IH.
      * apply Forall_app in Hs' as [_ Hs']. apply Forall_cons in Hs' as [Hs' _]. by rewrite has_key_entry in Hs'.
    + cbn [remove_param params]. rewrite Hp, !List.filter_app. cbn. by rewrite Hk, has_key_entry.
  - split; [by right|]. split; [cbn; by rewrite has_key_entry|]. cbn. by rewrite has_key_entry.
Qed.
