(* ===== verification/HttpHooks.v ===== *)
(** * HttpHooks: interception of page loads

    Models [src/src/engine/http_hooks.cc] with the state of
    [include/millennium/http_hooks.h], [plugin_webkit_store.cc] and the theme
    hooks of [src/src/bindings/webkit.cc].  A handler returns the messages it
    sends to the debugger; the reply to a request it waits for, file reads,
    regular expressions and the built-in virtual files are parameters. *)

From S2P Require Import Prelude Json StarFile Config Base64 PluginConfig Url.

(** ** The hook list *)

Record network_hook_ctl (Re : Type) := NetworkHookCtl {
  m_hook_list : list (hook_item Re);
  g_hookedModuleId : Z;
  m_virtual_resources : gmap bytes (outcome bytes);
  m_dynamic_css_provider : option (outcome (bytes * bytes));
}.
Arguments NetworkHookCtl {_} _ _ _ _.
Arguments m_hook_list {_} _.
Arguments g_hookedModuleId {_} _.
Arguments m_virtual_resources {_} _.
Arguments m_dynamic_css_provider {_} _.

Definition m_ftp_url : bytes := #"https://millennium.ftp/".
Definition m_themes_url : bytes := #"https://millennium.host/v1/themes/".
Definition m_legacy_hook_url : bytes := #"https://pseudo.millennium.app/".
Definition m_legacy_virt_js_url : bytes := #"https://js.millennium.app/".
Definition m_legacy_virt_css_url : bytes := #"https://css.millennium.app/".
Definition m_ftpUrls : list bytes :=
  [m_ftp_url; m_themes_url; m_legacy_virt_js_url; m_legacy_virt_css_url; m_legacy_hook_url].

Definition make_headers (headers : list (bytes * bytes)) : json :=
  JArr ((λ h, jobj [(#"name", JStr h.1); (#"value", JStr h.2)]) <$> headers).

(** ** Tags *)

Record processed_hooks := Processed { m_css : bytes; m_preloads : bytes; m_scripts : bytes }.

Definition nl : byte := "010"%byte.
Definition quoted (s : bytes) : bytes := dquote :: s ++ [dquote].

Definition stylesheet_tag (href : bytes) : bytes :=
  #"<link rel=" ++ quoted #"stylesheet" ++ #" href=" ++ quoted href ++ #">" ++ [nl].
Definition preload_tag (href : bytes) : bytes :=
  #"<link rel=" ++ quoted #"modulepreload" ++ #" href=" ++ quoted href ++ #" fetchpriority=" ++ quoted #"high" ++ #">" ++ [nl].
Definition script_tag (href : bytes) : bytes :=
  #"<script type=" ++ quoted #"module" ++ #" src=" ++ quoted href ++ #"></script>" ++ [nl].
Definition style_tag (sid css : bytes) : bytes :=
  #"<style id=" ++ quoted sid ++ #">" ++ css ++ #"</style>" ++ [nl].

Definition add_stylesheet (href : bytes) (p : processed_hooks) : processed_hooks :=
  Processed (m_css p ++ stylesheet_tag href) (m_preloads p) (m_scripts p).
Definition add_script_module (href : bytes) (p : processed_hooks) : processed_hooks :=
  Processed (m_css p) (m_preloads p ++ preload_tag href) (m_scripts p ++ script_tag href).
Definition add_inline_style (sid css : bytes) (p : processed_hooks) : processed_hooks :=
  Processed (m_css p ++ style_tag sid css) (m_preloads p) (m_scripts p).
Definition hooks_empty (p : processed_hooks) : bool :=
  bytes_eqb (m_css p) [] && bytes_eqb (m_preloads p) [] && bytes_eqb (m_scripts p) [].

Definition inject_into_document_head (original content : bytes) : bytes :=
  match find_sub #"</head>" original with
  | None => original
  | Some headPos => take headPos original ++ content ++ drop headPos original
  end.

Definition redirect_codes : list Z := [303; 301; 302; 307; 308].

Section http_hooks.
  Context {Re : Type}.
  Variable regex_match : bytes → Re → bool.
  Variable curl_parse : bytes → option (bytes * bytes).
  Variable millennium_path : bytes.
  (** [INTERNAL_FTP_CALL_DATA] *)
  Variable internal_files : bytes → option (outcome bytes).
  (** The contents seen by [std::ifstream], and [platform::read_file_bytes]. *)
  Variable read_stream : bytes → option bytes.
  Variable read_file_bytes : bytes → outcome bytes.
  (** The reply to [Fetch.getResponseBody]. *)
  Variable get_response_body : json → outcome json.
  Implicit Types c : network_hook_ctl Re.

Definition send : Type := bytes * json.

Definition register_virtual_resource (url : bytes) (producer : outcome bytes) c : network_hook_ctl Re :=
  NetworkHookCtl (m_hook_list c) (g_hookedModuleId c) (<[url := producer]> (m_virtual_resources c)) (m_dynamic_css_provider c).
Definition unregister_virtual_resource (url : bytes) c : network_hook_ctl Re :=
  NetworkHookCtl (m_hook_list c) (g_hookedModuleId c) (delete url (m_virtual_resources c)) (m_dynamic_css_provider c).
Definition get_hook_list c : list (hook_item Re) := m_hook_list c.

Definition add_hook (h : hook_t Re) c : Z * network_hook_ctl Re :=
  let i := g_hookedModuleId c in
  (i, NetworkHookCtl (m_hook_list c ++ [HookItem h i]) (u64 (i + 1)) (m_virtual_resources c) (m_dynamic_css_provider c)).

Definition remove_hook (moduleId : Z) c : bool * network_hook_ctl Re :=
  let rest := List.filter (λ h, negb (id h =? moduleId)) (m_hook_list c) in
  (len rest <? len (m_hook_list c),
   NetworkHookCtl rest (g_hookedModuleId c) (m_virtual_resources c) (m_dynamic_css_provider c)).

(** ** Virtual file requests *)

Definition request_url (message : json) : outcome bytes :=
  req ← idx #"request" message; url ← idx #"url" req; get_string url.

Definition is_substring (p s : bytes) : bool := match find_sub p s with Some _ => true | None => false end.

Definition is_vfs_request (message : json) : outcome bool :=
  url ← request_url message; Ok (existsb (λ u, is_substring u url) m_ftpUrls).

(** The first of the URLs that occurs, cut out. *)
Fixpoint cut_address (addrs : list bytes) (url : bytes) : bytes :=
  match addrs with
  | [] => url
  | addr :: addrs =>
      match find_sub addr url with
      | Some pos => take pos url ++ drop (pos + length addr) url
      | None => cut_address addrs url
      end
  end.

Definition path_from_url (requestUrl : bytes) : bytes :=
  match find_sub m_themes_url requestUrl with
  | Some pos =>
      let relativePath := strip_query (drop (pos + length m_themes_url) requestUrl) in
      path_join (path_join millennium_path #"themes") (decode_url relativePath)
  | None => get_path_from_url (cut_address m_ftpUrls requestUrl)
  end.

(** What is served: the text in Base64, its type, the code and the phrase. *)
Definition serve_disk (url : bytes) : bytes * file_type * Z * bytes :=
  let localFilePath := path_from_url url in
  let stream := read_stream localFilePath in
  let '(code, phrase) := match stream with
                         | Some _ => (200, #"OK millennium")
                         | None => (404, #"millennium couldn't read " ++ localFilePath)
                         end in
  let fileType := get_file_type localFilePath in
  let content := if is_bin_file fileType
                 then match read_file_bytes localFilePath with Ok b => Base64Encode_vec b | _ => [] end
                 else Base64Encode (default [] stream) in
  (content, fileType, code, phrase).

Definition serve (c : network_hook_ctl Re) (url : bytes) : outcome (bytes * file_type * Z * bytes) :=
  let '(content, fileType) :=
    match m_virtual_resources c !! url with
    | Some (Ok js) => (Base64Encode js, JS)
    | Some _ => ([], JS)
    | None => ([], UNKNOWN)
    end in
  '(content, fileType) ←
    (if bytes_eqb content [] then
       match internal_files url with
       | Some producer => js ← producer; Ok (Base64Encode js, JS)
       | None => Ok (content, fileType)
       end
     else Ok (content, fileType));
  Ok (if bytes_eqb content [] then serve_disk url else (content, fileType, 200, #"OK millennium")).

Definition vfs_request_handler (message : json) c : outcome (list send) :=
  url ← request_url message;
  '(content, fileType, code, phrase) ← serve c url;
  requestId ← idx #"requestId" message;
  Ok [(#"Fetch.fulfillRequest",
       jobj [(#"responseCode", JInt code); (#"requestId", requestId);
             (#"responseHeaders", make_headers [(#"Access-Control-Allow-Origin", #"*"); (#"Content-Type", get_mime_str fileType)]);
             (#"responsePhrase", JStr phrase); (#"body", JStr content)])].

(** ** Documents *)

Definition hook_matches (t : target_url) (h : hook_item Re) : bool :=
  regex_match (m_raw_url t) (url_pattern (hook h)) &&
  negb (bool_decide (type (hook h) = JAVASCRIPT) && negb (is_safe_for_js t)).

Definition hook_href (h : hook_item Re) : bytes := m_themes_url ++ plat_encode_url (path (hook h)).

(** The loop of [apply_user_webkit_hooks]. *)
Fixpoint apply_hooks (t : target_url) (hooks : list (hook_item Re)) (matched : bool) (p : processed_hooks) : bool * processed_hooks :=
  match hooks with
  | [] => (matched, p)
  | h :: hooks =>
      if negb (regex_match (m_raw_url t) (url_pattern (hook h))) then apply_hooks t hooks matched p
      else if bool_decide (type (hook h) = JAVASCRIPT) && negb (is_safe_for_js t) then apply_hooks t hooks matched p
      else apply_hooks t hooks true
             match type (hook h) with
             | STYLESHEET => add_stylesheet (hook_href h) p
             | JAVASCRIPT => add_script_module (hook_href h) p
             end
  end.

(** The inline styles that follow when a hook applied; the provider may
    throw. *)
Definition add_dynamic_css (matched : bool) c (p : processed_hooks) : outcome processed_hooks :=
  match matched, m_dynamic_css_provider c with
  | true, Some provider =>
      '(rootColors, sliderCss) ← provider;
      let p := if bytes_eqb rootColors [] then p else add_inline_style #"RootColors" rootColors p in
      Ok (if bytes_eqb sliderCss [] then p else add_inline_style #"MillenniumSliderConditions" sliderCss p)
  | _, _ => Ok p
  end.

Definition apply_user_webkit_hooks (t : target_url) c : outcome processed_hooks :=
  let '(matched, p) := apply_hooks t (get_hook_list c) false (Processed [] [] []) in add_dynamic_css matched c p.

Definition set_dynamic_css_provider (provider : outcome (bytes * bytes)) c : network_hook_ctl Re :=
  NetworkHookCtl (m_hook_list c) (g_hookedModuleId c) (m_virtual_resources c) (Some provider).

Definition continue_response (params : json) : outcome (list send) := Ok [(#"Fetch.continueResponse", params)].

Definition mime_doc_request_handler (message : json) c : outcome (list send) :=
  requestId ← value_string #"requestId" [] message;
  requestUrl ← request_url message;
  rid ← idx #"requestId" message;
  let params := jobj [(#"requestId", rid)] in
  resourceType ← value_string #"resourceType" [] message;
  if negb (bytes_eqb resourceType #"Document") then continue_response params else
  status ← idx #"responseStatusCode" message;
  statusCode ← get_int status;
  let target := mk_target curl_parse requestUrl in
  if negb (is_safe_for_network_hooks target) then continue_response params else
  if existsb (Z.eqb statusCode) redirect_codes then continue_response params else
  hooks ← apply_user_webkit_hooks target c;
  if hooks_empty hooks then continue_response params else
  response ← get_response_body params;
  responseBody ← value_string #"body" [] response;
  isBase64 ← value_bool #"base64Encoded" false response;
  let decodedBody := if (isBase64 : bool) then Base64Decode responseBody else responseBody in
  if bytes_eqb requestUrl [] || bytes_eqb decodedBody [] then
    r ← continue_response params; Ok ((#"Fetch.getResponseBody", params) :: r)
  else
  let patched := inject_into_document_head decodedBody (m_preloads hooks ++ m_css hooks ++ m_scripts hooks) in
  responseMessage ← value_string #"responseStatusText" #"OK" message;
  responseHeaders ← value_json #"responseHeaders" (JArr []) message;
  Ok [(#"Fetch.getResponseBody", params);
      (#"Fetch.fulfillRequest",
       jobj [(#"requestId", JStr requestId); (#"responseCode", JInt statusCode);
             (#"responseHeaders", responseHeaders);
             (#"responsePhrase", JStr (if bytes_eqb responseMessage [] then #"OK" else responseMessage));
             (#"body", JStr (Base64Encode patched))])].

(** The handler of [Fetch.requestPaused]: an exception is logged. *)
Definition on_request_paused (message : json) c : outcome (list send) :=
  try_catch
    (_ ← request_url message;
     vfs ← is_vfs_request message;
     if (vfs : bool) then vfs_request_handler message c else mime_doc_request_handler message c)
    (λ _, Ok []).

(** The patterns of [init]. *)
Definition fetch_pattern (url : bytes) : json :=
  jobj [(#"urlPattern", JStr url); (#"requestStage", JStr #"Request")].
Definition document_pattern (url : bytes) : json :=
  jobj [(#"urlPattern", JStr url); (#"resourceType", JStr #"Document"); (#"requestStage", JStr #"Response")].
Definition fetch_patterns : list json :=
  ((λ u, fetch_pattern (u ++ #"*")) <$> [m_ftp_url; m_themes_url; m_legacy_hook_url; m_legacy_virt_js_url; m_legacy_virt_css_url]) ++
  [document_pattern (#"https://" ++ k_steam_loopback ++ #"/*")] ++
  concat ((λ tld, [document_pattern (#"https://*." ++ tld ++ #"/*"); document_pattern (#"https://" ++ tld ++ #"/*")]) <$> k_steam_tlds).
End http_hooks.

(** ** Theme hooks *)

Record webkit_item := WebkitItem { match_pattern : bytes; wi_path : bytes; fileType : bytes }.

(** The items of the "Conditions" of a theme for the values chosen by the
    user. *)
Definition affect_items (value_key : bytes) (control_flow : json) : list webkit_item :=
  if negb (is_object control_flow) then [] else
  match jget #"affects" control_flow, jget #"src" control_flow with
  | Some (JArr affects), Some (JStr src) =>
      omap (λ m, match m with JStr m => Some (WebkitItem m src value_key) | _ => None end) affects
  | _, _ => []
  end.

Definition condition_items (theme_conditions : json) (item : bytes) (condition : json) : list webkit_item :=
  match jget item theme_conditions with
  | Some (JStr current_value) =>
      match jget #"values" condition with
      | Some (JObj values) =>
          match obj_get current_value values with
          | Some (JObj flows) => concat ((λ '(k, f), affect_items k f) <$> flows)
          | _ => []
          end
      | _ => []
      end
  | _ => []
  end.

Definition patch_items (patch : json) : outcome (list webkit_item) :=
  match jget #"MatchRegexString" patch with
  | None => Ok []
  | Some re =>
      regex ← get_string re;
      Ok (concat ((λ inject_type,
            match jget inject_type patch with
            | None => []
            | Some targets =>
                omap (λ t, match t with JStr t => Some (WebkitItem regex t inject_type) | _ => None end)
                  (if is_string targets then [targets] else elements targets)
            end) <$> [ #"TargetCss"; #"TargetJs"]))
  end.

Fixpoint all_patch_items (patches : list json) : outcome (list webkit_item) :=
  match patches with
  | [] => Ok []
  | p :: ps => a ← patch_items p; b ← all_patch_items ps; Ok (a ++ b)
  end.

Definition identifier (i : webkit_item) : bytes := match_pattern i ++ #"|" ++ wi_path i.

Fixpoint unique_items (seen : list bytes) (items : list webkit_item) : list webkit_item :=
  match items with
  | [] => []
  | i :: items =>
      if bool_decide (identifier i ∈ seen) then unique_items seen items
      else i :: unique_items (identifier i :: seen) items
  end.

(** [items()] of the "Conditions"; [theme_conditions] comes from the
    settings. *)
Definition parse_conditional_data (conditional_patches theme_conditions : json) : outcome (list webkit_item) :=
  let conds := match jget #"Conditions" conditional_patches with
               | Some cs => concat ((λ '(item, c), condition_items theme_conditions item c) <$> items cs)
               | None => []
               end in
  patches ← match jget #"Patches" conditional_patches with
            | Some (JArr ps) => all_patch_items ps
            | _ => Ok []
            end;
  Ok (unique_items [] (conds ++ patches)).

Section theme_hooks.
  Context {Re : Type}.
  (** [std::regex(s)]; the constructor throws on a bad pattern. *)
  Variable compile : bytes → option Re.

(** The hook controller and the ids this manager registered. *)
Record theme_webkit_mgr := ThemeWebkit { ctl : network_hook_ctl Re; m_registered_hooks : list Z }.

Definition add_browser_hook (p regex : bytes) (ty : TagTypes) (m : theme_webkit_mgr) : outcome (Z * theme_webkit_mgr) :=
  match compile regex with
  | None => Throw #"regex_error"
  | Some re =>
      let '(i, c) := add_hook (Hook p re ty) (ctl m) in
      Ok (i, ThemeWebkit c (m_registered_hooks m ++ [i]))
  end.

Fixpoint erase_first (i : Z) (l : list Z) : list Z :=
  match l with [] => [] | j :: l => if j =? i then l else j :: erase_first i l end.

Definition remove_browser_hook (hookId : Z) (m : theme_webkit_mgr) : bool * theme_webkit_mgr :=
  if existsb (Z.eqb hookId) (m_registered_hooks m) then
    let '(ok, c) := remove_hook hookId (ctl m) in
    (ok, ThemeWebkit c (erase_first hookId (m_registered_hooks m)))
  else (false, m).

Definition unregister_all (m : theme_webkit_mgr) : theme_webkit_mgr :=
  ThemeWebkit (foldl (λ c i, (remove_hook i c).2) (ctl m) (m_registered_hooks m)) [].

(** The loop of [add_conditional_data]; an exception ends it. *)
Fixpoint add_items (theme_name : bytes) (items : list webkit_item) (m : theme_webkit_mgr) : theme_webkit_mgr :=
  match items with
  | [] => m
  | i :: items =>
      if bytes_eqb (wi_path i) [] || bytes_eqb (match_pattern i) [] then add_items theme_name items m else
      let full_path := path_join theme_name (wi_path i) in
      let add ty := match add_browser_hook full_path (match_pattern i) ty m with
                    | Ok (_, m') => add_items theme_name items m'
                    | _ => m
                    end in
      if bytes_eqb (fileType i) #"TargetCss" then add STYLESHEET
      else if bytes_eqb (fileType i) #"TargetJs" then add JAVASCRIPT
      else add_items theme_name items m
  end.

Definition add_conditional_data (data theme_conditions : json) (theme_name : bytes) (m : theme_webkit_mgr) : theme_webkit_mgr :=
  match parse_conditional_data data theme_conditions with
  | Ok its => add_items theme_name its m
  | _ => m
  end.
End theme_hooks.

(** ** Plugin webkit scripts *)

Record webkit_store_item := StoreItem { si_plugin_name : bytes; abs_webkit_path : bytes; si_format : plugin_format }.

Definition item_eqb (a b : webkit_store_item) : bool :=
  bytes_eqb (si_plugin_name a) (si_plugin_name b) && bytes_eqb (abs_webkit_path a) (abs_webkit_path b).

Definition store_add (i : webkit_store_item) (s : list webkit_store_item) : list webkit_store_item := s ++ [i].
Fixpoint store_remove (i : webkit_store_item) (s : list webkit_store_item) : bool * list webkit_store_item :=
  match s with
  | [] => (false, [])
  | x :: s => if item_eqb x i then (true, s) else let '(ok, s') := store_remove i s in (ok, x :: s')
  end.
Definition store_clear (s : list webkit_store_item) : list webkit_store_item := [].

(** ** Lemmas *)

Section hook_lemmas.
  Context {Re : Type} (regex_match : bytes → Re → bool).

(** The hrefs of the hooks of a kind that apply to a target, in order. *)
Definition hrefs (t : target_url) (ty : TagTypes) (hooks : list (hook_item Re)) : list bytes :=
  hook_href <$> List.filter (λ h, hook_matches regex_match t h && bool_decide (type (hook h) = ty)) hooks.

Lemma apply_hooks_spec t hooks : ∀ m p,
  apply_hooks regex_match t hooks m p =
    (m || existsb (hook_matches regex_match t) hooks,
     Processed (m_css p ++ concat (stylesheet_tag <$> hrefs t STYLESHEET hooks))
               (m_preloads p ++ concat (preload_tag <$> hrefs t JAVASCRIPT hooks))
               (m_scripts p ++ concat (script_tag <$> hrefs t JAVASCRIPT hooks))).
Proof.
  induction hooks as [|h hooks IH]; intros m p; cbn [apply_hooks].
  { cbn. rewrite orb_false_r, !app_nil_r. by destruct p. }
  unfold hrefs, hook_matches. cbn [existsb List.filter].
  destruct (regex_match (m_raw_url t) (url_pattern (hook h))); cbn [negb andb].
  2:{ rewrite IH. done. }
  assert (bool_decide (STYLESHEET = JAVASCRIPT) = false ∧ bool_decide (JAVASCRIPT = STYLESHEET) = false ∧
    bool_decide (STYLESHEET = STYLESHEET) = true ∧ bool_decide (JAVASCRIPT = JAVASCRIPT) = true) as (E1 & E2 & E3 & E4) by done.
  destruct (type (hook h)) eqn:Et; rewrite ?E1, ?E2, ?E3, ?E4; cbn [negb andb].
  - rewrite IH. unfold add_stylesheet, hrefs, hook_matches. cbn [m_css m_preloads m_scripts orb].
    rewrite orb_true_r, fmap_cons, fmap_cons. cbn [concat]. rewrite <- ?app_assoc. done.
  - destruct (is_safe_for_js t) eqn:Es; cbn [negb andb orb].
    + rewrite IH. unfold add_script_module, hrefs, hook_matches. cbn [m_css m_preloads m_scripts].
      rewrite orb_true_r, Es, !fmap_cons. cbn [concat]. rewrite <- ?app_assoc. done.
    + rewrite IH. unfold hrefs, hook_matches. rewrite Es. done.
Qed.

Lemma hrefs_unsafe t hooks : is_safe_for_js t = false → hrefs t JAVASCRIPT hooks = [].
Proof.
  intros Hs. unfold hrefs. induction hooks as [|h hooks IH]; [done|]. cbn [List.filter]. unfold hook_matches at 1. rewrite Hs.
  destruct (type (hook h)) eqn:Et; cbn; rewrite ?andb_false_r; exact IH.
Qed.
End hook_lemmas.

Lemma add_dynamic_css_styles {Re} matched (c : network_hook_ctl Re) p r :
  add_dynamic_css matched c p = Ok r →
  m_scripts r = m_scripts p ∧ m_preloads r = m_preloads p ∧ m_css p `prefix_of` m_css r.
Proof.
  unfold add_dynamic_css. destruct matched; [|by intros <-%Ok_inj]. destruct (m_dynamic_css_provider c) as [provider|]; [|by intros <-%Ok_inj].
  intros H. apply bind_Ok in H as ([rc sc] & _ & H). apply Ok_inj in H as <-.
  destruct (bytes_eqb rc []), (bytes_eqb sc []); unfold add_inline_style; cbn [m_scripts m_preloads m_css]; split_and!; try done;
    rewrite <- ?app_assoc; eexists; reflexivity.
Qed.

(** Registration: the ids of the list are below the counter. *)
Definition hooks_wf {Re} (c : network_hook_ctl Re) : Prop :=
  Forall (λ h, 0 <= id h < g_hookedModuleId c) (m_hook_list c).

Lemma add_items_extends {Re} (compile : bytes → option Re) name items : ∀ m,
  0 <= g_hookedModuleId (ctl m) → g_hookedModuleId (ctl m) + len items < 2 ^ 64 →
  ∃ new, m_hook_list (ctl (add_items compile name items m)) = m_hook_list (ctl m) ++ new ∧
    m_registered_hooks (add_items compile name items m) = m_registered_hooks m ++ (id <$> new) ∧
    Forall (λ h, g_hookedModuleId (ctl m) <= id h) new.
Proof.
  induction items as [|i items IH]; intros m Hg Hb; cbn [add_items].
  { exists []. rewrite !app_nil_r. done. }
  assert (len (i :: items) = 1 + len items) as Hl by (unfold len; cbn [length]; lia).
  rewrite Hl in Hb. clear Hl. pose proof (len_nonneg items).
  assert (∃ new, m_hook_list (ctl m) = m_hook_list (ctl m) ++ new ∧
    m_registered_hooks m = m_registered_hooks m ++ (id <$> new) ∧ Forall (λ h, g_hookedModuleId (ctl m) <= id h) new) as Hnone.
  { exists []. rewrite !app_nil_r. done. }
  destruct (_ || _); [apply IH; lia|].
  assert (∀ ty, ∃ new, let m' := match add_browser_hook compile (path_join name (wi_path i)) (match_pattern i) ty m with
        | Ok (_, m') => add_items compile name items m' | _ => m end in
     m_hook_list (ctl m') = m_hook_list (ctl m) ++ new ∧ m_registered_hooks m' = m_registered_hooks m ++ (id <$> new) ∧
     Forall (λ h, g_hookedModuleId (ctl m) <= id h) new) as Hadd.
  { intros ty. unfold add_browser_hook. destruct (compile (match_pattern i)) as [re|]; [|exact Hnone]. cbn.
    set (m' := ThemeWebkit _ _). destruct (IH m') as (new & Hl & Hr & Hf).
    1-2: unfold m'; cbn; unfold u64; rewrite Z.mod_small; lia.
    exists (HookItem (Hook (path_join name (wi_path i)) re ty) (g_hookedModuleId (ctl m)) :: new).
    rewrite Hl, Hr. unfold m'. cbn. rewrite <- !app_assoc. split_and!; [done..|]. constructor; [done|].
    eapply Forall_impl; [exact Hf|]. cbn. unfold u64. rewrite Z.mod_small by lia. intros; lia. }
  destruct (bytes_eqb (fileType i) #"TargetCss"); [apply Hadd|].
  destruct (bytes_eqb (fileType i) #"TargetJs"); [apply Hadd|apply IH; lia].
Qed.

Lemma filter_all_true {A} (f : A → bool) l : Forall (λ x, f x = true) l → List.filter f l = l.
Proof. induction 1 as [|x l Hx _ IH]; [done|]. cbn. by rewrite Hx, IH. Qed.

Lemma filter_all_false {A} (f : A → bool) l : Forall (λ x, f x = false) l → List.filter f l = [].
Proof. induction 1 as [|x l Hx _ IH]; [done|]. cbn. by rewrite Hx, IH. Qed.

Lemma existsb_false (i : Z) l : (∀ j, j ∈ l → i ≠ j) → existsb (Z.eqb i) l = false.
Proof.
  induction l as [|j l IH]; intros H; [done|]. cbn. apply orb_false_iff. split.
  - apply Z.eqb_neq, H. by left.
  - apply IH. intros k Hk. apply H. by right.
Qed.

Lemma remove_hooks_filter {Re} ids : ∀ c : network_hook_ctl Re,
  m_hook_list (foldl (λ c i, (remove_hook i c).2) c ids) =
    List.filter (λ h, negb (existsb (Z.eqb (id h)) ids)) (m_hook_list c).
Proof.
  induction ids as [|i ids IH]; intros c; cbn [foldl].
  - symmetry. apply filter_all_true, Forall_true. done.
  - rewrite IH. cbn [remove_hook snd m_hook_list existsb].
    induction (m_hook_list c) as [|h l IHl]; [done|]. cbn [List.filter].
    destruct (id h =? i); cbn [negb orb List.filter]; [done|]. by rewrite IHl.
Qed.

(** A message that settles a paused request. *)
Definition is_reply (s : send) : bool := bytes_eqb s.1 #"Fetch.continueResponse" || bytes_eqb s.1 #"Fetch.fulfillRequest".

Lemma value_string_jget k d j s : value_string k d j = Ok s → jget k j = Some (JStr s) ∨ jget k j = None ∧ s = d.
Proof.
  destruct j; try done. cbn. destruct (obj_get k o) as [v|]; [|intros [= ->]; by right].
  destruct v; try done. intros [= ->]. by left.
Qed.

Lemma idx_jget k j v : idx k j = Ok v → jget k j = Some v.
Proof. destruct j; try done. cbn. destruct (obj_get k o); [|done]. by intros [= ->]. Qed.

(** What a handler sends for a message: requests that wait, then one reply
    with the id of the request. *)
Definition replies_once (message : json) (sends : list send) : Prop :=
  ∃ pre reply, sends = pre ++ [reply] ∧ Forall (λ s, is_reply s = false) pre ∧ is_reply reply = true ∧
    jget #"requestId" reply.2 = jget #"requestId" message.

Lemma replies_continue message rid pre : idx #"requestId" message = Ok rid → Forall (λ s, is_reply s = false) pre →
  replies_once message (pre ++ [(#"Fetch.continueResponse", jobj [(#"requestId", rid)])]).
Proof. intros Hr Hp. eexists pre, _. split_and!; [done..|]. by rewrite (idx_jget _ _ _ Hr). Qed.

Lemma replies_continue_only message rid : idx #"requestId" message = Ok rid →
  replies_once message [(#"Fetch.continueResponse", jobj [(#"requestId", rid)])].
Proof. intros Hr. apply (replies_continue message rid []); [done|constructor]. Qed.

(** ** Properties *)

(** What is injected.  The tags are exactly those of the hooks whose
    pattern matches the URL, in the order of the list, scripts left out where
    scripts are not safe; so no script or preload reaches a page outside the
    safe targets (the Steam checkout among them); and every address is the
    themes URL followed by URL characters, which cannot close the attribute. *)
Theorem injected_tags {Re} (regex_match : bytes → Re → bool) t (c : network_hook_ctl Re) p :
  apply_user_webkit_hooks regex_match t c = Ok p →
  m_scripts p = concat (script_tag <$> hrefs regex_match t JAVASCRIPT (m_hook_list c)) ∧
  m_preloads p = concat (preload_tag <$> hrefs regex_match t JAVASCRIPT (m_hook_list c)) ∧
  (concat (stylesheet_tag <$> hrefs regex_match t STYLESHEET (m_hook_list c))) `prefix_of` m_css p ∧
  (is_safe_for_js t = false → m_scripts p = [] ∧ m_preloads p = []) ∧
  (∀ ty href, href ∈ hrefs regex_match t ty (m_hook_list c) →
     ∃ w, href = m_themes_url ++ w ∧ Forall (λ x, url_char x = true) w).
Proof.
  unfold apply_user_webkit_hooks, get_hook_list. rewrite apply_hooks_spec. cbn [m_css m_preloads m_scripts app orb].
  set (q := Processed _ _ _). intros (-> & -> & Hc)%add_dynamic_css_styles. split_and!; [done..| |].
  - intros Hs. cbn. by rewrite !hrefs_unsafe.
  - intros ty href (h & -> & _)%list_elem_of_fmap. eexists. split; [done|]. unfold plat_encode_url. apply encode_url_chars.
Qed.

(** Every paused document is settled.  When the handler returns, it has
    sent exactly one reply (continue or fulfil), last, with the id of the
    request. *)
Theorem document_handler_replies_once {Re} (regex_match : bytes → Re → bool) curl_parse get_body message (c : network_hook_ctl Re) sends :
  mime_doc_request_handler regex_match curl_parse get_body message c = Ok sends → replies_once message sends.
Proof.
  unfold mime_doc_request_handler. intros H.
  apply bind_Ok in H as (requestId & Hid & H). apply bind_Ok in H as (url & Hu & H). apply bind_Ok in H as (rid & Hr & H).
  apply bind_Ok in H as (rt & _ & H). cbv zeta in H.
  assert (∀ x, Ok [(#"Fetch.continueResponse", jobj [(#"requestId", rid)])] = Ok x → replies_once message x) as Hc.
  { intros x Hx. apply Ok_inj in Hx as <-. by apply replies_continue_only. }
  destruct (negb (bytes_eqb rt #"Document")); [by apply Hc|]. apply bind_Ok in H as (st & _ & H). apply bind_Ok in H as (code & _ & H).
  destruct (negb _); [by apply Hc|]. destruct (existsb _ _); [by apply Hc|].
  apply bind_Ok in H as (hooks & _ & H). destruct (hooks_empty _); [by apply Hc|].
  apply bind_Ok in H as (resp & _ & H). apply bind_Ok in H as (body & _ & H). apply bind_Ok in H as (b64 & _ & H).
  destruct (_ || _).
  - apply bind_Ok in H as (r & Hr' & H). apply Ok_inj in Hr' as <-. apply Ok_inj in H as <-.
    apply (replies_continue message rid [_]); [done|]. by constructor.
  - apply bind_Ok in H as (ph & _ & H). apply bind_Ok in H as (hs & _ & H). apply Ok_inj in H as <-.
    eexists [_], _. split_and!; [done|by constructor|done|]. transitivity (Some (JStr requestId)); [reflexivity|].
    apply value_string_jget in Hid as [->|[Hn _]]; [done|]. apply idx_jget in Hr. congruence.
Qed.

(** When the document is modified, the body sent is the Base64 of the
    original with the content put right before its first closing head tag, or
    unchanged when it has none; no byte of the original is lost. *)
Theorem inject_preserves_document original content :
  (find_sub #"</head>" original = None → inject_into_document_head original content = original) ∧
  (∀ i, find_sub #"</head>" original = Some i →
     ∃ a b, original = a ++ #"</head>" ++ b ∧ length a = i ∧ find_sub #"</head>" a = None ∧
       Base64Decode (Base64Encode (inject_into_document_head original content)) = a ++ content ++ #"</head>" ++ b).
Proof.
  unfold inject_into_document_head. split; [by intros ->|]. intros i Hi. rewrite Hi, encode_decode.
  destruct (find_sub_Some _ _ _ Hi) as (r & Hs & Hl). exists (take i original), r.
  assert (drop i original = #"</head>" ++ r) as ->.
  { apply (app_inv_head (take i original)). by rewrite take_drop. }
  split_and!; [done|rewrite length_take; lia| |done].
  apply find_sub_None. intros a b' Ht.
  assert (find_sub #"</head>" original ≠ None) by congruence.
  pose proof (find_sub_first #"</head>" original i a (b' ++ drop i original) Hi) as Hmin.
  rewrite <- (take_drop i original) in Hmin at 1. rewrite Ht, <- !app_assoc in Hmin. specialize (Hmin eq_refl).
  apply (f_equal length) in Ht. rewrite length_take, !length_app in Ht. change (length #"</head>") with 7%nat in Ht. lia.
Qed.

(** Removing a theme leaves no trace.  After the hooks of a theme are
    registered and then unregistered, the list of hooks is what it was: every
    hook of the theme is gone (whatever items the theme has, and wherever a bad
    pattern ended the registration) and no other hook is touched. *)
Theorem theme_unregister_restores {Re} (compile : bytes → option Re) data conds name (m : theme_webkit_mgr) :
  hooks_wf (ctl m) → 0 <= g_hookedModuleId (ctl m) → m_registered_hooks m = [] →
  (∀ its, parse_conditional_data data conds = Ok its → g_hookedModuleId (ctl m) + len its < 2 ^ 64) →
  m_hook_list (ctl (unregister_all (add_conditional_data compile data conds name m))) = m_hook_list (ctl m).
Proof.
  intros Hwf Hg Hr Hb. unfold add_conditional_data, unregister_all. cbn [ctl].
  destruct (parse_conditional_data data conds) as [its| | |] eqn:E; [|rewrite Hr; done..].
  destruct (add_items_extends compile name its m Hg (Hb its eq_refl)) as (new & Hl & -> & Hnew).
  rewrite remove_hooks_filter, Hl, Hr, List.filter_app. cbn [app].
  rewrite (filter_all_false _ new), (filter_all_true _ (m_hook_list (ctl m))); [by rewrite app_nil_r|..].
  - eapply Forall_impl; [exact Hwf|]. intros h Hh. apply negb_true_iff, existsb_false. intros i (x & -> & Hx)%list_elem_of_fmap.
    rewrite Forall_forall in Hnew. specialize (Hnew x Hx). cbn beta in *. lia.
  - apply Forall_forall. intros h Hh. apply negb_false_iff, existsb_exists. exists (id h). split; [|lia].
    apply list_elem_of_In, list_elem_of_fmap. eauto.
Qed.

Definition ex_regex : bytes → bytes → bool := λ url p, is_substring p url.
Definition ex_ctl : network_hook_ctl bytes :=
  NetworkHookCtl [HookItem (Hook #"dark/a.css" #"store" STYLESHEET) 3] 4 ∅ None.
Definition ex_message : json :=
  jobj [(#"requestId", JStr #"r1"); (#"request", jobj [(#"url", JStr #"https://store.steampowered.com/")]);
        (#"resourceType", JStr #"Document"); (#"responseStatusCode", JInt 200)].
Definition ex_curl : bytes → option (bytes * bytes) := λ _, Some (#"store.steampowered.com", #"https").
Definition ex_body : outcome json := Ok (jobj [(#"body", JStr #"<head></head>")]).
Definition ex_sends : list send :=
  match mime_doc_request_handler ex_regex ex_curl (λ _, ex_body) ex_message ex_ctl with Ok s => s | _ => [] end.

Lemma injected_tags_witness :
  m_scripts (Processed (stylesheet_tag (m_themes_url ++ #"dark/a.css")) [] []) = concat (script_tag <$> []).
Proof.
  refine (proj1 (injected_tags ex_regex (mk_target ex_curl #"https://store.steampowered.com/") ex_ctl
    (Processed (stylesheet_tag (m_themes_url ++ #"dark/a.css")) [] []) _)).
  vm_compute. reflexivity.
Defined.

Lemma document_handler_replies_once_witness : replies_once ex_message ex_sends ∧ length ex_sends = 2%nat.
Proof.
  split; [|vm_compute; reflexivity].
  apply (document_handler_replies_once ex_regex ex_curl (λ _, ex_body) ex_message ex_ctl ex_sends). vm_compute. reflexivity.
Defined.

Definition ex_theme : json :=
  jobj [(#"Patches", JArr [jobj [(#"MatchRegexString", JStr #"store"); (#"TargetCss", JArr [JStr #"a.css"; JStr #"b.css"])]])].

Lemma theme_unregister_restores_witness :
  m_hook_list (ctl (add_conditional_data (Some (A:=bytes)) ex_theme JNull #"dark" (ThemeWebkit ex_ctl []))) ≠ m_hook_list ex_ctl ∧
  m_hook_list (ctl (unregister_all (add_conditional_data (Some (A:=bytes)) ex_theme JNull #"dark" (ThemeWebkit ex_ctl [])))) =
    m_hook_list ex_ctl.
Proof.
  split; [vm_compute; discriminate|].
  apply (theme_unregister_restores (Some (A:=bytes)) ex_theme JNull #"dark" (ThemeWebkit ex_ctl [])).
  - unfold hooks_wf. cbn. repeat constructor; cbn; lia.
  - cbn. lia.
  - reflexivity.
  - intros its H. vm_compute in H. injection H as <-. vm_compute. reflexivity.
Defined.

(** A request can be left unanswered.  When the debugger cannot give the
    body of a document that has hooks, the exception ends the handler and
    nothing is sent, so the page waits for a reply that never comes. *)
Theorem body_failure_leaves_request_paused e vfs_root ftp rs rb :
  on_request_paused ex_regex ex_curl vfs_root ftp rs rb (λ _, Throw e) ex_message ex_ctl = Ok [] ∧
  length ex_sends = 2%nat.
Proof. split; vm_compute; reflexivity. Qed.

(** An address of the virtual file system is recognised wherever it
    stands in a URL: any page whose URL holds one, as in a query string, is
    answered from the disk instead of the network. *)
Theorem vfs_request_by_substring message pre addr post :
  request_url message = Ok (pre ++ addr ++ post) → addr ∈ m_ftpUrls → is_vfs_request message = Ok true.
Proof.
  intros Hu Ha. unfold is_vfs_request. rewrite Hu. cbn. f_equal.
  apply (existsb_exists (λ u, is_substring u (pre ++ addr ++ post)) m_ftpUrls). exists addr. split; [by apply list_elem_of_In|].
  unfold is_substring. destruct (find_sub addr _) eqn:E; [done|]. by destruct (proj1 (find_sub_None _ _) E pre post).
Qed.

Lemma vfs_request_by_substring_witness :
  is_vfs_request (jobj [(#"request", jobj [(#"url", JStr (#"https://store.steampowered.com/?u=" ++ m_themes_url ++ #"dark/a.css"))])]) = Ok true.
Proof. apply (vfs_request_by_substring _ #"https://store.steampowered.com/?u=" m_themes_url #"dark/a.css"); [reflexivity|]. by right; left. Defined.
