(* ===== verification/Theme.v ===== *)
(** * Theme: the theme settings

    Models [src/src/bindings/theme_cfg.cc] and the theme part of
    [src/src/bindings/scan.cc].  The store listens to every change of the
    settings it makes itself: its handler runs inside [CONFIG.set], so the
    operations take the listener as an argument and the handler is the
    recursion through it.  An exception keeps the changes made before it: the
    operations are in a state and exception monad.

    The themes folder, stylesheet files, JSON equality and printing and
    regular expressions are parameters. *)

From S2P Require Import Prelude State Json StarFile Css Config Base64 PluginConfig Url HttpHooks.

(** ** State and effects *)

(** What is found at [themes/<name>/skin.json]. *)
Inductive skin := NoSkin | Unreadable | BadJson | Skin (j : json).

(** [data] is the settings tree of [CONFIG], [saved] the text last written to
    the settings file; the other fields are those of [theme_config_store]. *)
Record theme_store (Re : Type) := ThemeStore {
  data : json;
  saved : bytes;
  m_theme_webkit_mgr : @theme_webkit_mgr Re;
  theme_data : json;
  active_theme_name : bytes;
  colors : list (bytes * json);
}.
Arguments ThemeStore {_} _ _ _ _ _ _.
Arguments data {_} _.
Arguments saved {_} _.
Arguments m_theme_webkit_mgr {_} _.
Arguments theme_data {_} _.
Arguments active_theme_name {_} _.
Arguments colors {_} _.

Abbreviation M Re := (SM (theme_store Re)).

Definition set_data {Re} (j : json) (st : theme_store Re) : theme_store Re :=
  ThemeStore j (saved st) (m_theme_webkit_mgr st) (theme_data st) (active_theme_name st) (colors st).
Definition set_saved {Re} (t : bytes) (st : theme_store Re) : theme_store Re :=
  ThemeStore (data st) t (m_theme_webkit_mgr st) (theme_data st) (active_theme_name st) (colors st).
Definition set_webkit {Re} (m : @theme_webkit_mgr Re) (st : theme_store Re) : theme_store Re :=
  ThemeStore (data st) (saved st) m (theme_data st) (active_theme_name st) (colors st).
Definition set_active {Re} (t : json) (n : bytes) (st : theme_store Re) : theme_store Re :=
  ThemeStore (data st) (saved st) (m_theme_webkit_mgr st) t n (colors st).
Definition set_colors {Re} (c : list (bytes * json)) (st : theme_store Re) : theme_store Re :=
  ThemeStore (data st) (saved st) (m_theme_webkit_mgr st) (theme_data st) (active_theme_name st) c.

Section theme.
  Context {Re : Type}.
  Variable json_eq : json → json → bool.
  Variable dump dump4 : json → outcome bytes.
  Variable compile : bytes → option Re.
  Variable themes_path : bytes.
  (** The names of the folders under [themes_path], in any order. *)
  Variable theme_dirs : list bytes.
  Variable skin_file : bytes → skin.
  Variable read_css : bytes → option bytes.
  (** The listener that [CONFIG] calls. *)
  Variable listener : M Re ().

(** ** The settings store as the handlers see it *)

Definition cget (segments : list bytes) (def : json) : M Re json :=
  gets (λ st, default def (get_path (data st) segments)).

Definition save_to_disk : M Re () :=
  j ← gets data; text ← lift (dump j); modify (set_saved text).

Definition cset (segments : list bytes) (last : bytes) (value : json) (skipPropagation : bool) : M Re () :=
  j ← gets data;
  '(j, _, changed) ← lift (set_path json_eq segments last value j);
  _ ← modify (set_data j);
  if (changed : bool) && negb skipPropagation then _ ← swallow listener; save_to_disk else mret tt.

Definition active_path : list bytes := [ #"themes"; #"activeTheme"].
Definition get_active : M Re bytes := j ← cget active_path JNull; lift (get_string j).

(** ** Themes on disk *)

Definition IsValid (theme_native_name : bytes) : bool :=
  match skin_file theme_native_name with Skin _ => true | _ => false end.

(** The folders in the order of their names. *)
Fixpoint collect_themes (dirs : list (bytes * ())) : outcome (list json) :=
  match dirs with
  | [] => Ok []
  | (d, _) :: dirs =>
      match skin_file d with
      | NoSkin | Unreadable => collect_themes dirs
      | BadJson => Throw json_error
      | Skin j => l ← collect_themes dirs; Ok (jobj [(#"native", JStr d); (#"data", j)] :: l)
      end
  end.
Definition FindAllThemes : outcome (list json) := collect_themes (obj_of ((λ d, (d, ())) <$> theme_dirs)).

(** ** Validation *)

Definition validate_theme : M Re () :=
  j ← cget active_path JNull;
  _ ← (if is_null j then cset [ #"themes"] #"activeTheme" (JStr #"default") false else mret tt);
  active ← get_active;
  if negb (bytes_eqb active #"default") && negb (IsValid active)
  then cset [ #"themes"] #"activeTheme" (JStr #"default") false else mret tt.

Definition change_theme (theme_name : bytes) : M Re () := cset [ #"themes"] #"activeTheme" (JStr theme_name) false.

Definition get_active_theme : M Re json :=
  active ← get_active;
  mret match skin_file active with
       | Skin j => jobj [(#"native", JStr active); (#"data", j)]
       | _ => jobj [(#"failed", JBool true)]
       end.

(** ** Conditions *)

Definition to_string_int (j : json) : outcome bytes := n ← get_int j; Ok (fmt_int n).

Definition slider_default (condition_value slider : json) : outcome bytes :=
  match jget #"default" condition_value with
  | Some (JStr s) => Ok s
  | Some (JInt z) => to_string_int (JInt z)
  | Some (JFloat f) => to_string_int (JFloat f)
  | _ => match jget #"min" slider with Some m => to_string_int m | None => Ok #"0" end
  end.

Definition first_key (values : json) : bytes := match values with JObj ((k, _) :: _) => k | _ => [] end.

Definition values_default (condition_value values : json) : bytes :=
  let d := match jget #"default" condition_value with Some (JStr s) => s | _ => first_key values end in
  if contains d values then d else first_key values.

Definition conditions_path (theme_name : bytes) : list bytes := [ #"themes"; #"conditions"; theme_name].

Definition is_slider (condition_value : json) : option json :=
  match jget #"slider" condition_value with Some (JObj o) => Some (JObj o) | _ => None end.
Definition has_values (condition_value : json) : option json :=
  match jget #"values" condition_value with Some (JObj (kv :: o)) => Some (JObj (kv :: o)) | _ => None end.

(** The body of the inner loop of [setup_conditionals]. *)
Definition setup_condition (theme_name : bytes) (c : bytes * json) : M Re () :=
  let '(condition_name, condition_value) := c in
  match is_slider condition_value, has_values condition_value with
  | None, None => mret tt
  | Some slider, _ =>
      current_conditions ← cget (conditions_path theme_name) (JObj []);
      default_value ← lift (slider_default condition_value slider);
      match jget condition_name current_conditions with
      | Some (JStr _) => mret tt
      | _ => cset (conditions_path theme_name) condition_name (JStr default_value) false
      end
  | None, Some values =>
      current_conditions ← cget (conditions_path theme_name) (JObj []);
      let default_value := values_default condition_value values in
      match jget condition_name current_conditions with
      | Some (JStr current_value) =>
          if contains current_value values then mret tt
          else cset (conditions_path theme_name) condition_name (JStr default_value) false
      | _ => cset (conditions_path theme_name) condition_name (JStr default_value) false
      end
  end.

(** The body of the outer loop. *)
Definition setup_theme_conditions (theme : json) : M Re () :=
  match jget #"data" theme with
  | Some d =>
      if contains #"failed" theme then mret tt else
      conditions ← lift (value_json #"Conditions" (JObj []) d);
      if negb (is_object conditions) then mret tt else
      theme_name ← lift (value_string #"native" [] theme);
      for_each (setup_condition theme_name) (items conditions)
  | None => mret tt
  end.

Definition setup_conditionals : M Re () :=
  conds ← cget [ #"themes"; #"conditions"] (JObj []);
  _ ← (if is_object conds then mret tt else cset [ #"themes"] #"conditions" (JObj []) false);
  themes ← lift FindAllThemes;
  _ ← for_each setup_theme_conditions themes;
  save_to_disk.

Definition set_condition (theme : bytes) (newData : json) (condition : bytes) : M Re json :=
  _ ← cset (conditions_path theme) condition newData true;
  _ ← save_to_disk;
  mret (jobj [(#"success", JBool true)]).

Definition get_theme_conditionals : M Re bytes :=
  conds ← cget [ #"themes"; #"conditions"] JNull;
  if is_object conds then lift (dump4 conds) else mret #"{}".

(** ** Page hooks of the active theme *)

Definition add_page_hook (path : bytes) (ty : TagTypes) : M Re () :=
  m ← gets m_theme_webkit_mgr;
  '(_, m) ← lift (add_browser_hook compile path #".*" ty m);
  modify (set_webkit m).

Definition start_item_hook (name : bytes) (d : json) (item : bytes) (ty : TagTypes) : M Re () :=
  match jget item d with
  | Some v => file ← lift (get_string v); add_page_hook (path_join name file) ty
  | None => mret tt
  end.

Definition start_webkit_hook (theme : json) (name : bytes) : M Re () :=
  if contains #"failed" theme then mret tt else
  d ← lift (idx #"data" theme);
  _ ← start_item_hook name d #"Steam-WebKit" STYLESHEET;
  _ ← start_item_hook name d #"webkitCSS" STYLESHEET;
  _ ← start_item_hook name d #"webkitJS" JAVASCRIPT;
  conds ← cget (conditions_path name) (JObj []);
  modify (λ st, set_webkit (add_conditional_data compile d conds name (m_theme_webkit_mgr st)) st).

(** ** Colours *)

Definition theme_colors_path : list bytes := [ #"themes"; #"themeColors"].

(** The three fields of a colour that must be there with the right kind. *)
Definition color_fields (color : json) : option (bytes * bytes * json) :=
  match jget #"color" color, jget #"defaultColor" color, jget #"type" color with
  | Some (JStr c), Some (JStr d), Some (JInt t) => Some (c, d, JInt t)
  | _, _, _ => None
  end.

Definition setup_color (nativeName : bytes) (color : json) : M Re () :=
  match color_fields color with
  | None => mret tt
  | Some (colorName, defaultHex, t) =>
      typeEnum ← lift (get_int t);
      colorValue ← lift (convert_from_hex defaultHex (color_type_of_int typeEnum));
      match colorValue with
      | None => mret tt
      | Some v =>
          existing ← cget (theme_colors_path ++ [nativeName; colorName]) JNull;
          if is_string existing then mret tt
          else cset (theme_colors_path ++ [nativeName]) colorName (JStr v) true
      end
  end.

Definition setup_theme_colors (theme : json) : M Re () :=
  if contains #"failed" theme then mret tt else
  match jget #"data" theme with
  | None => mret tt
  | Some d =>
      match jget #"RootColors" d with
      | None => mret tt
      | Some root =>
          nativeName ← lift (get_string (default JNull (jget #"native" theme)));
          rootFile ← lift (get_string root);
          cs ← lift (parse_root_colors (read_css (path_join (path_join themes_path nativeName) rootFile)));
          _ ← modify (λ st, set_colors (obj_insert nativeName cs (colors st)) st);
          all ← cget theme_colors_path JNull;
          _ ← (if is_null all then cset [ #"themes"] #"themeColors" (JObj []) true else mret tt);
          mine ← cget (theme_colors_path ++ [nativeName]) JNull;
          _ ← (if is_null mine then cset theme_colors_path nativeName (JObj []) true else mret tt);
          for_each (setup_color nativeName) (elements cs)
      end
  end.

Definition setup_colors : M Re () :=
  all_themes ← lift FindAllThemes;
  _ ← for_each setup_theme_colors all_themes;
  save_to_disk.

(** One declaration per string value. *)
Definition color_declaration (kv : bytes * json) : bytes :=
  match kv.2 with JStr (c :: v) => kv.1 ++ #": " ++ (c :: v) ++ #";" | _ => [] end.

Definition get_colors : M Re bytes :=
  name ← gets active_theme_name;
  themeColors ← cget (theme_colors_path ++ [name]) JNull;
  mret (if is_object themeColors
        then #":root {" ++ concat (color_declaration <$> items themeColors) ++ #"}"
        else #":root {}").

(** [color["hex"]] from the value saved for the colour. *)
Definition color_option (saved_colors color : json) : outcome json :=
  cname ← match jget #"color" color with Some v => get_string v | None => Throw json_error end;
  match jget cname saved_colors with
  | Some (JStr s) =>
      t ← match jget #"type" color with Some v => get_int v | None => Throw json_error end;
      hex ← convert_to_hex s (color_type_of_int t);
      match hex with Some h => set_key #"hex" (JStr h) color | None => Ok color end
  | _ => Ok color
  end.

Fixpoint map_colors (f : json → outcome json) (l : list json) : outcome (list json) :=
  match l with
  | [] => Ok []
  | c :: l => c' ← f c; l' ← map_colors f l; Ok (c' :: l')
  end.

Definition get_color_options (theme_name : bytes) : M Re json :=
  cs ← gets colors;
  match obj_get theme_name cs with
  | None => mret (JArr [])
  | Some root_colors =>
      saved_colors ← cget (theme_colors_path ++ [theme_name]) JNull;
      l ← lift (map_colors (color_option saved_colors) (elements root_colors));
      mret (JArr l)
  end.

Definition set_theme_color (theme color_name new_color : bytes) (color_type : Z) : M Re json :=
  parsed_color ← lift (convert_from_hex new_color (color_type_of_int color_type));
  match parsed_color with
  | None => mret JNull
  | Some c =>
      _ ← cset (theme_colors_path ++ [theme]) color_name (JStr c) true;
      _ ← save_to_disk;
      mret (JStr c)
  end.

Definition set_accent_color (new_color : bytes) : M Re () := cset [ #"general"] #"accentColor" (JStr new_color) false.
Definition reset_accent_color : M Re () := set_accent_color #"DEFAULT_ACCENT_COLOR".

(** The declaration of one slider, if its value is saved. *)
Definition slider_declaration (saved_conds : json) (kv : bytes * json) : outcome bytes :=
  match is_slider kv.2, jget kv.1 saved_conds with
  | Some slider, Some (JStr value) =>
      match jget #"cssVariable" slider with
      | Some (JStr css_var) =>
          unit ← value_string #"unit" [] slider;
          Ok (#" " ++ css_var ++ #": " ++ value ++ unit ++ #";")
      | _ => Ok []
      end
  | _, _ => Ok []
  end.

Fixpoint slider_declarations (saved_conds : json) (kvs : list (bytes * json)) : outcome bytes :=
  match kvs with
  | [] => Ok []
  | kv :: kvs => d ← slider_declaration saved_conds kv; ds ← slider_declarations saved_conds kvs; Ok (d ++ ds)
  end.

Definition get_slider_css : M Re bytes :=
  t ← gets theme_data;
  name ← gets active_theme_name;
  match jget #"data" t with
  | None => mret #":root {}"
  | Some d =>
      if contains #"failed" t then mret #":root {}" else
      conditions ← lift (value_json #"Conditions" (JObj []) d);
      saved_conds ← cget (conditions_path name) (JObj []);
      match conditions with
      | JObj (kv :: kvs) =>
          if is_object saved_conds then
            ds ← lift (slider_declarations saved_conds (kv :: kvs)); mret (#":root {" ++ ds ++ #" }")
          else mret #":root {}"
      | _ => mret #":root {}"
      end
  end.

(** ** The handler *)

Definition setup_theme_hooks : M Re () :=
  t ← get_active_theme;
  _ ← modify (λ st, set_active t (active_theme_name st) st);
  name ← get_active;
  _ ← modify (λ st, set_active (theme_data st) name st);
  _ ← setup_conditionals;
  (* the members, which a nested run may have replaced *)
  t ← gets theme_data;
  name ← gets active_theme_name;
  _ ← start_webkit_hook t name;
  setup_colors.

Definition config_change_body : M Re () :=
  _ ← validate_theme;
  _ ← modify (λ st, set_webkit (unregister_all (m_theme_webkit_mgr st)) st);
  setup_theme_hooks.

(** ** Migration of the old settings file *)

(** One of the two tables of the old file, copied under [key]. *)
Definition migrate_entry (key theme_name : bytes) (kv : bytes * json) : M Re () :=
  cset [ #"themes"; key; theme_name] kv.1 kv.2 true.

Definition migrate_theme (key : bytes) (kv : bytes * json) : M Re () :=
  let '(theme_name, entries) := kv in
  all ← cget [ #"themes"; key] JNull;
  _ ← (if is_object all then mret tt else cset [ #"themes"] key (JObj []) true);
  mine ← cget [ #"themes"; key; theme_name] JNull;
  _ ← (if is_object mine then mret tt else cset [ #"themes"; key] theme_name (JObj []) true);
  for_each (migrate_entry key theme_name) (items entries).

Definition migrate_table (old_key key : bytes) (old_config : json) : M Re () :=
  match jget old_key old_config with
  | Some (JObj o) => for_each (migrate_theme key) o
  | _ => mret tt
  end.

(** A value copied; [text] where its text is logged first. *)
Definition migrate_value (old_key : bytes) (text : bool) (parent key : bytes) (old_config : json) : M Re () :=
  match jget old_key old_config with
  | Some v =>
      _ ← lift (if text then get_string v else Ok []);
      cset [parent] key v true
  | None => mret tt
  end.

(** Whether the old file is removed. *)
Definition migrate_old_config (old : skin) : M Re bool :=
  match old with
  | Skin old_config =>
      _ ← migrate_table #"conditions" #"conditions" old_config;
      _ ← migrate_table #"colors" #"themeColors" old_config;
      _ ← migrate_value #"active" true #"themes" #"activeTheme" old_config;
      _ ← migrate_value #"accentColor" true #"general" #"accentColor" old_config;
      _ ← migrate_value #"styles" false #"themes" #"allowedStyles" old_config;
      _ ← migrate_value #"scripts" false #"themes" #"allowedScripts" old_config;
      mret true
  | _ => mret false
  end.
End theme.

Section handler.
  Context {Re : Type}.
  Variable json_eq : json → json → bool.
  Variable dump : json → outcome bytes.
  Variable compile : bytes → option Re.
  Variable themes_path : bytes.
  Variable theme_dirs : list bytes.
  Variable skin_file : bytes → skin.
  Variable read_css : bytes → option bytes.

(** [fuel] bounds the depth of the nested notifications. *)
Fixpoint on_config_change_hdlr (fuel : nat) : M Re () :=
  config_change_body json_eq dump compile themes_path theme_dirs skin_file read_css
    match fuel with
    | O => λ st, (NoFuel, st)
    | S fuel => on_config_change_hdlr fuel
    end.

(** The constructor: the first run has no listener yet. *)
Definition theme_config_store (old : skin) : M Re bool :=
  let none := λ st, (Ok tt, st) in
  removed ← migrate_old_config json_eq dump none old;
  _ ← config_change_body json_eq dump compile themes_path theme_dirs skin_file read_css none;
  mret removed.
End handler.

(** ** Lemmas: paths *)

Lemma get_path_app j p q : p ≠ [] → q ≠ [] →
  get_path j (p ++ q) = match get_path j p with Some j' => get_path j' q | None => None end.
Proof.
  revert j. induction p as [|s p IH]; intros j Hp Hq; [done|]. cbn [app].
  rewrite get_path_cons by (by destruct p, q).
  destruct p as [|s' p]; [done|]. rewrite (get_path_cons s (s' :: p)) by done.
  destruct (jget s j); [|done]. by apply IH.
Qed.

(** Every node above the one that is set is an object afterwards. *)
Lemma set_path_prefix json_eq segs : ∀ k v j j' old changed p q,
  set_path json_eq segs k v j = Ok (j', old, changed) → segs = p ++ q → p ≠ [] →
  ∃ o, get_path j' p = Some (JObj o).
Proof.
  induction segs as [|s segs IH]; intros k v j j' old changed p q H Hs Hp; [by destruct p|].
  destruct p as [|s' p]; [done|]. injection Hs as <- Hs.
  assert (∃ c' o, set_path json_eq segs k v (child_of s j) = Ok (c', old, changed) ∧ j' = JObj (obj_insert s c' o)) as (c' & o & Hr & ->).
  { destruct j; try done; cbn [set_path] in H; apply bind_Ok in H as ([[c' old'] ch'] & Hr & H);
      apply Ok_inj in H; injection H as <- <- <-; first [exists c', o; split; [exact Hr|reflexivity]|exists c', []; split; [exact Hr|reflexivity]]. }
  assert (is_object c' = true) as Hobj.
  { clear -Hr. destruct segs as [|s' segs]; cbn [set_path] in Hr.
    - apply Ok_inj in Hr. unfold set_last in Hr. destruct (negb _); injection Hr as <- _ _; done.
    - destruct (child_of s j); try done; apply bind_Ok in Hr as ([[? ?] ?] & _ & Hr); apply Ok_inj in Hr; injection Hr as <- _ _; done. }
  destruct p as [|s' p].
  - cbn [get_path]. rewrite jget_insert, bytes_eqb_refl. destruct c'; try done. eauto.
  - rewrite get_path_cons, jget_insert, bytes_eqb_refl by done. by eapply IH.
Qed.

(** ** The handler's work that is left

    A condition is settled when its setting is a string and, for a list of
    values, one of them. *)

Definition theme_conditions (theme : json) : list (bytes * bytes * json) :=
  match jget #"data" theme, value_string #"native" [] theme with
  | Some d, Ok t =>
      if contains #"failed" theme then [] else
      match value_json #"Conditions" (JObj []) d with
      | Ok (JObj o) =>
          (λ c, (t, c.1, c.2)) <$> List.filter (λ c, match is_slider c.2, has_values c.2 with None, None => false | _, _ => true end) o
      | _ => []
      end
  | _, _ => []
  end.

Definition allowed (v : json) (s : bytes) : bool :=
  match is_slider v, has_values v with None, Some values => contains s values | _, _ => true end.

Definition condition_path (t c : bytes) : list bytes := conditions_path t ++ [c].

Definition unsettled (j : json) (x : bytes * bytes * json) : bool :=
  match default JNull (get_path j (condition_path x.1.1 x.1.2)) with JStr s => negb (allowed x.2 s) | _ => true end.

Section progress.
  Variable theme_dirs : list bytes.
  Variable skin_file : bytes → skin.

Definition all_conditions : list (bytes * bytes * json) :=
  match FindAllThemes theme_dirs skin_file with Ok l => concat (theme_conditions <$> l) | _ => [] end.

(** The active theme has to be reset; the table of conditions has to be. *)
Definition active_bad (j : json) : bool :=
  match default JNull (get_path j active_path) with
  | JNull => true
  | JStr a => negb (bytes_eqb a #"default") && negb (IsValid skin_file a)
  | _ => false
  end.
Definition conds_bad (j : json) : bool :=
  match get_path j [ #"themes"; #"conditions"] with Some (JObj _) | None => false | _ => true end.

Definition work (j : json) : nat :=
  Nat.b2n (active_bad j) + Nat.b2n (conds_bad j) + length (List.filter (unsettled j) all_conditions).

(** No work comes back. *)
Definition improves (j j' : json) : Prop :=
  (active_bad j' = true → active_bad j = true) ∧ (conds_bad j' = true → conds_bad j = true) ∧
  ∀ x, x ∈ all_conditions → unsettled j' x = true → unsettled j x = true.

Lemma improves_refl j : improves j j.
Proof. by split_and!. Qed.
Lemma improves_trans a b c : improves a b → improves b c → improves a c.
Proof. unfold improves. naive_solver. Qed.

Lemma filter_length_le {A} (f g : A → bool) l : (∀ x, x ∈ l → g x = true → f x = true) →
  (length (List.filter g l) <= length (List.filter f l))%nat.
Proof.
  induction l as [|x l IH]; intros H; [done|]. cbn.
  assert (∀ y, y ∈ l → g y = true → f y = true) as Hl by (intros y Hy; apply H; by right). specialize (IH Hl).
  destruct (g x) eqn:E; [rewrite (H x) by (done || by left)|destruct (f x)]; cbn; lia.
Qed.

Lemma filter_length_lt {A} (f g : A → bool) l x : (∀ x, x ∈ l → g x = true → f x = true) →
  x ∈ l → f x = true → g x = false → (length (List.filter g l) < length (List.filter f l))%nat.
Proof.
  intros H Hx Hf Hg. apply list_elem_of_split in Hx as (l1 & l2 & ->). rewrite !List.filter_app, !length_app. cbn. rewrite Hf, Hg. cbn.
  assert (length (List.filter g l1) <= length (List.filter f l1))%nat by (apply filter_length_le; set_solver).
  assert (length (List.filter g l2) <= length (List.filter f l2))%nat by (apply filter_length_le; set_solver). lia.
Qed.

Lemma improves_work j j' : improves j j' → (work j' <= work j)%nat.
Proof.
  intros (Ha & Hc & Hu). unfold work. pose proof (filter_length_le _ _ _ Hu).
  destruct (active_bad j'), (conds_bad j'), (active_bad j), (conds_bad j); cbn; naive_solver lia.
Qed.

Lemma improves_work_lt j j' : improves j j' →
  (active_bad j = true ∧ active_bad j' = false) ∨ (conds_bad j = true ∧ conds_bad j' = false) ∨
  (∃ x, x ∈ all_conditions ∧ unsettled j x = true ∧ unsettled j' x = false) → (work j' < work j)%nat.
Proof.
  intros Hi Hd. pose proof (improves_work _ _ Hi). destruct Hi as (Ha & Hc & Hu). unfold work in *. pose proof (filter_length_le _ _ _ Hu).
  destruct Hd as [[E1 E2]|[[E1 E2]|(x & Hx & E1 & E2)]]; [rewrite E1, E2 in *..|pose proof (filter_length_lt _ _ _ x Hu Hx E1 E2)];
    destruct (active_bad j'), (conds_bad j'), (active_bad j), (conds_bad j); cbn in *; naive_solver lia.
Qed.
End progress.

(** ** What each write does to that work *)

Lemma themes_diverge a b p q : bytes_eqb a b = false → diverge (#"themes" :: a :: p) (#"themes" :: b :: q).
Proof. intros Hab. right. split; [done|]. left. by apply bytes_eqb_false. Qed.

Lemma NoDup_fmap_in {A B} (f : A → B) l : NoDup (f <$> l) → ∀ x y, x ∈ l → y ∈ l → f x = f y → x = y.
Proof.
  induction l as [|a l IH]; intros Hnd x y Hx Hy Hf; [by apply not_elem_of_nil in Hx|].
  cbn in Hnd. apply NoDup_cons in Hnd as [Ha Hnd].
  apply elem_of_cons in Hx as [->|Hx], Hy as [->|Hy]; [done|..|by apply IH].
  - destruct Ha. rewrite Hf. by apply list_elem_of_fmap_2.
  - destruct Ha. rewrite <- Hf. by apply list_elem_of_fmap_2.
Qed.

Section writes.
  Variable json_eq : json → json → bool.
  Variable theme_dirs : list bytes.
  Variable skin_file : bytes → skin.
  Abbreviation improves := (improves theme_dirs skin_file).
  Abbreviation all_conditions := (all_conditions theme_dirs skin_file).

Lemma same_reads_improve j j' :
  default JNull (get_path j' active_path) = default JNull (get_path j active_path) →
  get_path j' [ #"themes"; #"conditions"] = get_path j [ #"themes"; #"conditions"] →
  (∀ t c, default JNull (get_path j' (condition_path t c)) = default JNull (get_path j (condition_path t c))) →
  improves j j'.
Proof. intros Ha Hc Hu. unfold improves, active_bad, conds_bad, unsettled. rewrite Ha, Hc. split_and!; try done. intros x _. by rewrite Hu. Qed.

Lemma write_colors segs k v j j' old changed rest :
  set_path json_eq segs k v j = Ok (j', old, changed) → segs ++ [k] = #"themes" :: #"themeColors" :: rest → improves j j'.
Proof.
  intros H Hs. apply set_path_spec in H as (_ & _ & _ & Hd). rewrite Hs in Hd.
  apply same_reads_improve; intros; rewrite Hd; try done; by apply themes_diverge.
Qed.

Lemma write_active v j j' old changed :
  set_path json_eq [ #"themes"] #"activeTheme" (JStr v) j = Ok (j', old, changed) →
  v = #"default" → improves j j' ∧ (changed = true → active_bad skin_file j' = false).
Proof.
  intros H ->. apply set_path_spec in H as (-> & _ & Hg & Hd). cbn [app] in *.
  assert (changed = true → active_bad skin_file j' = false) as Hc.
  { intros ->. unfold active_bad. change active_path with [ #"themes"; #"activeTheme"]. rewrite Hg. done. }
  split; [|exact Hc]. split_and!.
  - destruct changed; [by rewrite Hc|]. unfold active_bad, active_path. by rewrite Hg.
  - unfold conds_bad. rewrite Hd; [done|]. by apply themes_diverge.
  - intros x _. unfold unsettled. rewrite Hd; [done|]. by apply themes_diverge.
Qed.

Lemma write_conditions j j' old changed conds :
  set_path json_eq [ #"themes"] #"conditions" (JObj []) j = Ok (j', old, changed) →
  get_path j [ #"themes"; #"conditions"] = Some conds → is_object conds = false →
  improves j j' ∧ conds_bad j = true ∧ (changed = true → conds_bad j' = false).
Proof.
  intros H Hj Ho. apply set_path_spec in H as (-> & _ & Hg & Hd). cbn [app] in *. rewrite Hj in Hg. cbn [default] in Hg.
  assert (∀ t c, get_path j (condition_path t c) = None) as Hnone.
  { intros t c. change (condition_path t c) with ([ #"themes"; #"conditions"] ++ [t; c]). rewrite get_path_app, Hj by done.
    by apply get_path_nonobject. }
  assert (conds_bad j = true) as Hbad by (unfold conds_bad; rewrite Hj; by destruct conds).
  split; [split_and!|split; [done|]].
  - unfold active_bad. rewrite Hd; [done|]. by apply themes_diverge.
  - done.
  - intros x _ _. unfold unsettled. by rewrite Hnone.
  - intros ->. unfold conds_bad. destruct (get_path j' _) as [[]|]; done.
Qed.

Lemma write_condition t c s v j j' old changed :
  NoDup ((λ x, (x.1.1, x.1.2)) <$> all_conditions) →
  set_path json_eq (conditions_path t) c (JStr s) j = Ok (j', old, changed) →
  (t, c, v) ∈ all_conditions → allowed v s = true → unsettled j (t, c, v) = true →
  improves j j' ∧ (changed = true → unsettled j' (t, c, v) = false).
Proof.
  intros Hnd H Hin Hal Hun. pose proof (set_path_prefix _ _ _ _ _ _ _ _ [ #"themes"; #"conditions"] [t] H eq_refl ltac:(done)) as [o Ho].
  apply set_path_spec in H as (-> & _ & Hg & Hd). fold (condition_path t c) in *.
  assert (changed = true → unsettled j' (t, c, v) = false) as Hset.
  { intros ->. unfold unsettled. cbn [fst snd]. rewrite Hg. by rewrite Hal. }
  split; [|exact Hset]. split_and!.
  - unfold active_bad. rewrite Hd; [done|]. by apply themes_diverge.
  - unfold conds_bad. by rewrite Ho.
  - intros [[t' c'] v'] Hx. destruct (decide (t' = t ∧ c' = c)) as [[-> ->]|Hne].
    + intros _. assert (v' = v) as ->; [|done].
      pose proof (NoDup_fmap_in _ _ Hnd (t, c, v') (t, c, v) Hx Hin eq_refl). congruence.
    + unfold unsettled. cbn [fst snd]. rewrite Hd; [done|]. unfold condition_path, conditions_path. cbn [app].
      right. split; [done|]. right. split; [done|]. cbn.
      destruct (decide (t = t')) as [->|]; [|by left]. right. split; [done|]. left. naive_solver.
Qed.
End writes.

(** ** Results that do not run out of fuel *)

Lemma fueled_set_path json_eq segs : ∀ k v j, fueled (set_path json_eq segs k v j).
Proof. induction segs as [|s segs IH]; intros k v j; cbn [set_path]; fueled. Qed.
#[export] Hint Resolve fueled_set_path : fueled.

Lemma fueled_stoi b s : fueled (stoi b s).
Proof. unfold stoi. fueled. Qed.
Lemma fueled_substr s p c : fueled (substr s p c).
Proof. unfold substr. fueled. Qed.
Lemma fueled_value_at l i : fueled (value_at l i).
Proof. unfold value_at. fueled. Qed.
#[export] Hint Resolve fueled_stoi fueled_substr fueled_value_at : fueled.
Lemma fueled_stoi_all l : fueled (stoi_all l).
Proof. induction l; cbn [stoi_all]; fueled. Qed.
Lemma fueled_inside s : fueled (inside s).
Proof. unfold inside. fueled. Qed.
#[export] Hint Resolve fueled_stoi_all fueled_inside : fueled.
Lemma fueled_convert_from_hex s ty : fueled (convert_from_hex s ty).
Proof. unfold convert_from_hex, format_color. fueled. Qed.
Lemma fueled_convert_to_hex s ty : fueled (convert_to_hex s ty).
Proof. unfold convert_to_hex. fueled. Qed.
#[export] Hint Resolve fueled_convert_from_hex fueled_convert_to_hex : fueled.
Lemma fueled_generate ps m : fueled (generate_color_metadata ps m).
Proof. induction ps; cbn [generate_color_metadata]; fueled. Qed.
#[export] Hint Resolve fueled_generate : fueled.
Lemma fueled_parse_root_colors f : fueled (parse_root_colors f).
Proof. unfold parse_root_colors. fueled. Qed.
Lemma fueled_collect_themes skin_file l : fueled (collect_themes skin_file l).
Proof. induction l; cbn [collect_themes]; fueled. Qed.
Lemma fueled_slider_default a b : fueled (slider_default a b).
Proof. unfold slider_default, to_string_int. fueled. Qed.
#[export] Hint Resolve fueled_parse_root_colors fueled_collect_themes fueled_slider_default : fueled.

(** ** Runs that make progress *)

Section progress_runs.
  Context {Re : Type}.
  Variable json_eq : json → json → bool.
  Variable dump : json → outcome bytes.
  Variable compile : bytes → option Re.
  Variable themes_path : bytes.
  Variable theme_dirs : list bytes.
  Variable skin_file : bytes → skin.
  Variable read_css : bytes → option bytes.
  Variable listener : M Re ().
  Variable n : nat.
  Abbreviation improves := (improves theme_dirs skin_file).
  Abbreviation all_conditions := (all_conditions theme_dirs skin_file).
  Abbreviation work := (work theme_dirs skin_file).
  Hypothesis dump_fueled : ∀ j, fueled (dump j).
  Hypothesis conditions_unique : NoDup ((λ x, (x.1.1, x.1.2)) <$> all_conditions).

(** From a state, the run ends and brings no work back. *)
Definition runs {A} (m : M Re A) (st : theme_store Re) : Prop :=
  fueled (m st).1 ∧ improves (data st) (data (m st).2).
Definition good {A} (m : M Re A) : Prop := ∀ st, (work (data st) <= n)%nat → runs m st.
  Hypothesis listener_good : ∀ st, (work (data st) < n)%nat → runs listener st.

Lemma runs_bind {A B} (m : M Re A) (f : A → M Re B) st :
  runs m st → (∀ a st', m st = (Ok a, st') → runs (f a) st') → runs (m ≫= f) st.
Proof.
  intros [H1 H2] Hf. unfold runs, mbind, SM_bind. destruct (m st) as [[a|e| |] st'] eqn:E; cbn in *; try done.
  destruct (Hf a st' eq_refl) as [H3 H4]. split; [done|]. by eapply improves_trans.
Qed.

Lemma runs_work {A} (m : M Re A) st a st' :
  runs m st → m st = (a, st') → (work (data st) <= n)%nat → (work (data st') <= n)%nat.
Proof. intros [_ H] E. rewrite E in H. apply improves_work in H. cbn in H. lia. Qed.

Lemma good_bind {A B} (m : M Re A) (f : A → M Re B) : good m → (∀ a, good (f a)) → good (m ≫= f).
Proof. intros Hm Hf st Hst. apply runs_bind; [by apply Hm|]. intros a st' E. apply Hf. eapply runs_work; [by apply Hm|done..]. Qed.

Lemma good_ret {A} (a : A) : good (mret a).
Proof. intros st _. split; [done|apply improves_refl]. Qed.
Lemma good_lift {A} (o : outcome A) : fueled o → good (lift o).
Proof. intros Ho st _. split; [done|apply improves_refl]. Qed.
Lemma good_lift_bind {A B} (o : outcome A) (f : A → M Re B) :
  fueled o → (∀ a, o = Ok a → good (f a)) → good (lift o ≫= f).
Proof.
  intros Ho Hf st Hst. apply runs_bind; [by apply good_lift|]. intros a st' [= E <-]. by apply Hf.
Qed.
Lemma good_gets {A} (f : theme_store Re → A) : good (gets f).
Proof. intros st _. split; [done|apply improves_refl]. Qed.
Lemma good_modify f : (∀ st, data (f st) = data st) → good (modify f).
Proof. intros Hf st _. split; [done|]. cbn. rewrite Hf. apply improves_refl. Qed.
Lemma good_for_each {A} (f : A → M Re ()) l : (∀ x, x ∈ l → good (f x)) → good (for_each f l).
Proof.
  induction l as [|x l IH]; intros Hl; cbn [for_each]; [apply good_ret|].
  apply good_bind; [apply Hl; by left|]. intros _. apply IH. intros y Hy. apply Hl. by right.
Qed.
Lemma good_save : good (save_to_disk dump).
Proof.
  apply good_bind; [apply good_gets|]. intros j. apply good_bind; [by apply good_lift|]. intros t. by apply good_modify.
Qed.

(** A write runs if it brings no work back and, when the listener is called,
    does some. *)
Lemma runs_cset segs k v skip st : (work (data st) <= n)%nat →
  (∀ j' old changed, set_path json_eq segs k v (data st) = Ok (j', old, changed) →
     improves (data st) j' ∧ (changed = true → skip = false → (work j' < work (data st))%nat)) →
  runs (cset json_eq dump listener segs k v skip) st.
Proof.
  intros Hst H. apply runs_bind; [by apply good_gets|]. intros j st0 [= <- <-].
  apply runs_bind; [by apply good_lift; [apply fueled_set_path|]|]. intros [[j' old] changed] st0 [= E <-].
  destruct (H _ _ _ E) as [Hi Hw]. apply runs_bind; [by split|]. intros [] st1 [= <-].
  destruct (changed && negb skip) eqn:Ec; [|split; [done|apply improves_refl]].
  apply andb_true_iff in Ec as [-> Es]. apply negb_true_iff in Es. specialize (Hw eq_refl Es).
  assert (runs (swallow listener) (set_data j' st)) as Hs.
  { destruct (listener_good (set_data j' st)) as [Hl1 Hl2]; [cbn; lia|].
    unfold runs, swallow. destruct (listener (set_data j' st)) as [[a|e| |] s]; done. }
  apply runs_bind; [done|]. intros [] st2 E2. apply good_save.
  eapply runs_work; [done..|]. cbn. lia.
Qed.

Lemma good_cget segs def : good (cget segs def).
Proof. apply good_gets. Qed.
Lemma good_get_active : good get_active.
Proof. apply good_bind; [apply good_cget|]. intros j. apply good_lift, fueled_get_string. Qed.

Lemma runs_reset_active st : (work (data st) <= n)%nat → active_bad skin_file (data st) = true →
  runs (cset json_eq dump listener [ #"themes"] #"activeTheme" (JStr #"default") false) st.
Proof.
  intros Hst Hb. apply runs_cset; [done|]. intros j' old changed E.
  destruct (write_active json_eq theme_dirs skin_file _ _ _ _ _ E eq_refl) as [Hi Hc]. split; [done|].
  intros Hch _. apply improves_work_lt; auto.
Qed.

Lemma good_validate_theme : good (validate_theme json_eq dump skin_file listener).
Proof.
  intros st Hst. apply runs_bind; [by apply good_cget|]. intros j st0 [= <- <-].
  assert (runs (if is_null (default JNull (get_path (data st) active_path))
    then cset json_eq dump listener [ #"themes"] #"activeTheme" (JStr #"default") false else mret ()) st) as H1.
  { destruct (is_null _) eqn:E; [|by apply good_ret]. apply runs_reset_active; [done|]. unfold active_bad. by destruct (default _ _). }
  apply runs_bind; [done|]. intros [] st1 E1. pose proof (runs_work _ _ _ _ H1 E1 Hst) as Hst1.
  apply runs_bind; [by apply good_get_active|]. intros active st2 E2.
  assert (get_string (default JNull (get_path (data st1) active_path)) = Ok active ∧ st2 = st1) as [Ea ->] by (by injection E2 as ? ->).
  destruct (negb _ && negb _) eqn:E; [|by apply good_ret]. apply runs_reset_active; [done|].
  unfold active_bad. destruct (default JNull (get_path (data st1) active_path)); try done. cbn in Ea. by injection Ea as ->.
Qed.

Lemma current_condition j t c :
  default JNull (jget c (default (JObj []) (get_path j (conditions_path t)))) = default JNull (get_path j (condition_path t c)).
Proof. unfold condition_path. rewrite get_path_app by done. by destruct (get_path j (conditions_path t)). Qed.

Lemma runs_set_condition st t c v s :
  (work (data st) <= n)%nat → (t, c, v) ∈ all_conditions → allowed v s = true → unsettled (data st) (t, c, v) = true →
  runs (cset json_eq dump listener (conditions_path t) c (JStr s) false) st.
Proof.
  intros Hst Hin Hal Hun. apply runs_cset; [done|]. intros j' old changed E.
  destruct (write_condition json_eq theme_dirs skin_file _ _ _ v _ _ _ _ conditions_unique E Hin Hal Hun) as [Hi Hc]. split; [done|].
  intros Hch _. apply improves_work_lt; eauto 10.
Qed.

Lemma values_default_allowed v values : is_slider v = None → has_values v = Some values → allowed v (values_default v values) = true.
Proof.
  intros Hs Hv. unfold allowed. rewrite Hs, Hv. unfold values_default.
  assert (contains (first_key values) values = true) as Hk.
  { unfold has_values in Hv. destruct (jget _ v) as [[| | | | | |[|[k x] o]]|]; try done. injection Hv as <-.
    unfold contains. cbn. by rewrite bytes_eqb_refl. }
  cbv zeta. match goal with |- contains (if contains ?d _ then _ else _) _ = true => by destruct (contains d values) eqn:E end.
Qed.

Lemma good_setup_condition t c v :
  (is_slider v = None → has_values v = None → False) → (t, c, v) ∈ all_conditions →
  good (setup_condition json_eq dump listener t (c, v)).
Proof.
  intros Hk Hin st Hst. cbn [setup_condition].
  assert (∀ s, jget c (default (JObj []) (get_path (data st) (conditions_path t))) = s →
    unsettled (data st) (t, c, v) = match default JNull s with JStr s => negb (allowed v s) | _ => true end) as Hu.
  { intros s <-. rewrite current_condition. done. }
  destruct (is_slider v) as [slider|] eqn:Es.
  - apply runs_bind; [by apply good_cget|]. intros cc st0 [= <- <-].
    apply runs_bind; [apply good_lift; [apply fueled_slider_default|done]|]. intros d st0 [= _ <-].
    specialize (Hu _ eq_refl). assert (∀ s, allowed v s = true) as Hal by (intros s; unfold allowed; by rewrite Es).
    destruct (jget c _) as [[]|]; first [by apply good_ret|eapply runs_set_condition; by eauto].
  - destruct (has_values v) as [values|] eqn:Ev; [|by destruct (Hk eq_refl eq_refl)].
    pose proof (values_default_allowed v values Es Ev) as Hd.
    apply runs_bind; [by apply good_cget|]. intros cc st0 [= <- <-]. specialize (Hu _ eq_refl). cbv zeta.
    assert (∀ s, allowed v s = contains s values) as Hal by (intros s; unfold allowed; by rewrite Es, Ev).
    destruct (jget c _) as [[]|]; try (eapply runs_set_condition; by eauto).
    cbn in Hu. rewrite Hal in Hu. destruct (contains s values); [by apply good_ret|]. eapply runs_set_condition; by eauto.
Qed.

Lemma skip_condition t c v : is_slider v = None → has_values v = None → good (setup_condition json_eq dump listener t (c, v)).
Proof. intros Hs Hv. cbn [setup_condition]. rewrite Hs, Hv. apply good_ret. Qed.

Lemma theme_conditions_in theme l : FindAllThemes theme_dirs skin_file = Ok l → theme ∈ l →
  ∀ x, x ∈ theme_conditions theme → x ∈ all_conditions.
Proof.
  intros Hl Ht x Hx. unfold Theme.all_conditions. rewrite Hl. apply list_elem_of_In, in_concat.
  exists (theme_conditions theme). split; [|by apply list_elem_of_In]. by apply list_elem_of_In, list_elem_of_fmap_2.
Qed.

Lemma good_setup_theme_conditions theme : (∀ x, x ∈ theme_conditions theme → x ∈ all_conditions) →
  good (setup_theme_conditions json_eq dump listener theme).
Proof.
  intros Hin. unfold setup_theme_conditions. unfold theme_conditions in Hin.
  destruct (jget #"data" theme) as [d|]; [|apply good_ret]. destruct (contains #"failed" theme); [apply good_ret|].
  apply good_lift_bind; [apply fueled_value_json|]. intros conditions Ec. rewrite Ec in Hin.
  destruct conditions as [| | | | | |o]; try apply good_ret. cbn [is_object negb].
  apply good_lift_bind; [apply fueled_value_string|]. intros t Et. rewrite Et in Hin. cbn [items].
  apply good_for_each. intros [c v] Hc.
  destruct (is_slider v) as [sl|] eqn:Es; [|destruct (has_values v) as [vs|] eqn:Ev; [|by apply skip_condition]].
  all: apply good_setup_condition; [congruence|]; apply Hin, list_elem_of_fmap; exists (c, v); (split; [done|]);
    apply list_elem_of_In, filter_In; (split; [by apply list_elem_of_In|]); cbn; by rewrite ?Es, ?Ev.
Qed.

Lemma runs_reset_conditions st : (work (data st) <= n)%nat →
  runs (if is_object (default (JObj []) (get_path (data st) [ #"themes"; #"conditions"])) then mret ()
    else cset json_eq dump listener [ #"themes"] #"conditions" (JObj []) false) st.
Proof.
  intros Hst. destruct (is_object _) eqn:E; [by apply good_ret|]. apply runs_cset; [done|]. intros j' old changed Es.
  destruct (get_path (data st) [ #"themes"; #"conditions"]) as [conds|] eqn:Eg; [|done].
  destruct (write_conditions json_eq theme_dirs skin_file _ _ _ _ _ Es Eg E) as (Hi & Hb & Hc). split; [done|].
  intros Hch _. apply improves_work_lt; auto.
Qed.

Lemma good_setup_conditionals : good (setup_conditionals json_eq dump theme_dirs skin_file listener).
Proof.
  intros st Hst. apply runs_bind; [by apply good_cget|]. intros conds st0 [= <- <-].
  pose proof (runs_reset_conditions st Hst) as H1.
  apply runs_bind; [done|]. intros [] st1 E1. pose proof (runs_work _ _ _ _ H1 E1 Hst) as Hst1.
  revert st1 Hst1 E1. cut (good (themes ← lift (FindAllThemes theme_dirs skin_file);
    _ ← for_each (setup_theme_conditions json_eq dump listener) themes; save_to_disk dump)); [auto|].
  apply good_lift_bind; [apply fueled_collect_themes|]. intros l Hl. apply good_bind; [|intros; apply good_save].
  apply good_for_each. intros theme Ht. by apply good_setup_theme_conditions, (theme_conditions_in theme l).
Qed.

Lemma good_colors_write segs k v rest : segs ++ [k] = #"themes" :: #"themeColors" :: rest →
  good (cset json_eq dump listener segs k v true).
Proof.
  intros Hp st Hst. apply runs_cset; [done|]. intros j' old changed E. split; [|done]. by eapply write_colors.
Qed.

Lemma good_setup_color name color : good (setup_color json_eq dump listener name color).
Proof.
  unfold setup_color. destruct (color_fields color) as [[[c d] t]|]; [|apply good_ret].
  apply good_lift_bind; [apply fueled_get_int|]. intros ty _. apply good_lift_bind; [apply fueled_convert_from_hex|].
  intros [v|] _; [|apply good_ret]. apply good_bind; [apply good_cget|]. intros e.
  destruct (is_string e); [apply good_ret|]. by eapply good_colors_write.
Qed.

Lemma good_setup_colors : good (setup_colors json_eq dump themes_path theme_dirs skin_file read_css listener).
Proof.
  apply good_lift_bind; [apply fueled_collect_themes|]. intros l _. apply good_bind; [|intros; apply good_save].
  apply good_for_each. intros theme _. unfold setup_theme_colors. destruct (contains _ theme); [apply good_ret|].
  destruct (jget #"data" theme) as [d|]; [|apply good_ret]. destruct (jget #"RootColors" d) as [root|]; [|apply good_ret].
  apply good_lift_bind; [apply fueled_get_string|]. intros name _.
  apply good_lift_bind; [apply fueled_get_string|]. intros file _. apply good_lift_bind; [apply fueled_parse_root_colors|]. intros cs _.
  apply good_bind; [by apply good_modify|]. intros _. apply good_bind; [apply good_cget|]. intros all.
  apply good_bind; [destruct (is_null all); [by eapply good_colors_write|apply good_ret]|]. intros _.
  apply good_bind; [apply good_cget|]. intros mine.
  apply good_bind; [destruct (is_null mine); [by eapply good_colors_write|apply good_ret]|]. intros _.
  apply good_for_each. intros c _. apply good_setup_color.
Qed.

Lemma good_start_item_hook name d item ty : good (start_item_hook compile name d item ty).
Proof.
  unfold start_item_hook. destruct (jget item d) as [v|]; [|apply good_ret].
  apply good_lift_bind; [apply fueled_get_string|]. intros file _. apply good_bind; [apply good_gets|]. intros m.
  apply good_lift_bind; [|intros [i m'] _; by apply good_modify]. unfold add_browser_hook. destruct (compile _); done.
Qed.

Lemma good_start_webkit_hook theme name : good (start_webkit_hook compile theme name).
Proof.
  unfold start_webkit_hook. destruct (contains _ theme); [apply good_ret|]. apply good_lift_bind; [apply fueled_idx|]. intros d _.
  do 3 (apply good_bind; [apply good_start_item_hook|]; intros _). apply good_bind; [apply good_cget|]. intros conds. by apply good_modify.
Qed.

Lemma good_get_active_theme : good (get_active_theme skin_file).
Proof. apply good_bind; [apply good_get_active|]. intros. apply good_ret. Qed.

Lemma good_setup_theme_hooks :
  good (setup_theme_hooks json_eq dump compile themes_path theme_dirs skin_file read_css listener).
Proof.
  apply good_bind; [apply good_get_active_theme|].
  intros t. apply good_bind; [by apply good_modify|]. intros _. apply good_bind; [apply good_get_active|]. intros name.
  apply good_bind; [by apply good_modify|]. intros _. apply good_bind; [apply good_setup_conditionals|]. intros _.
  apply good_bind; [apply good_gets|]. intros t'. apply good_bind; [apply good_gets|]. intros name'.
  apply good_bind; [apply good_start_webkit_hook|]. intros _. apply good_setup_colors.
Qed.

Lemma good_config_change_body :
  good (config_change_body json_eq dump compile themes_path theme_dirs skin_file read_css listener).
Proof.
  apply good_bind; [apply good_validate_theme|]. intros _. apply good_bind; [by apply good_modify|]. intros _.
  apply good_setup_theme_hooks.
Qed.

(** ** What holds after a run that ends normally *)

  Hypothesis json_eq_string : ∀ j s, json_eq j (JStr s) = true → j = JStr s.

Definition ensures {A} (m : M Re A) (Q : json → Prop) : Prop :=
  ∀ st a st', (work (data st) <= n)%nat → m st = (Ok a, st') → Q (data st').
Definition stable (Q : json → Prop) : Prop := ∀ j j', improves j j' → Q j → Q j'.

Lemma bind_inv {A B} (m : M Re A) (f : A → M Re B) st b st' :
  (m ≫= f) st = (Ok b, st') → ∃ a st1, m st = (Ok a, st1) ∧ f a st1 = (Ok b, st').
Proof. unfold mbind, SM_bind. destruct (m st) as [[a|e| |] st1]; try done. eauto. Qed.

Lemma ensures_later {A B} (m : M Re A) (f : A → M Re B) Q : good m → (∀ a, ensures (f a) Q) → ensures (m ≫= f) Q.
Proof.
  intros Hm Hf st b st' Hst H. apply bind_inv in H as (a & st1 & E1 & E2). eapply Hf; [|exact E2].
  eapply runs_work; [by apply Hm|done..].
Qed.

Lemma ensures_first {A B} (m : M Re A) (f : A → M Re B) Q :
  good m → stable Q → ensures m Q → (∀ a, good (f a)) → ensures (m ≫= f) Q.
Proof.
  intros Hm HQ He Hf st b st' Hst H. apply bind_inv in H as (a & st1 & E1 & E2).
  assert (work (data st1) <= n)%nat as Hst1 by (eapply runs_work; [by apply Hm|done..]).
  destruct (Hf a st1 Hst1) as [_ Hi]. rewrite E2 in Hi. eapply HQ; [exact Hi|]. exact (He _ _ _ Hst E1).
Qed.

Lemma ensures_lift_bind {A B} (o : outcome A) (f : A → M Re B) Q : fueled o →
  (∀ a, o = Ok a → ensures (f a) Q) → ensures (lift o ≫= f) Q.
Proof. intros Ho Hf st b st' Hst H. apply bind_inv in H as (a & st1 & [= E1 <-] & E2). exact (Hf a E1 _ _ _ Hst E2). Qed.

Lemma ensures_for_each {A} (f : A → M Re ()) l x Q :
  (∀ y, y ∈ l → good (f y)) → stable Q → x ∈ l → ensures (f x) Q → ensures (for_each f l) Q.
Proof.
  intros Hg HQ Hx He. induction l as [|y l IH]; [by apply not_elem_of_nil in Hx|]. cbn [for_each].
  assert (∀ y, y ∈ l → good (f y)) as Hl by (intros; apply Hg; by right).
  apply elem_of_cons in Hx as [->|Hx].
  - apply ensures_first; [apply Hg; by left|done|done|]. intros _. by apply good_for_each.
  - apply ensures_later; [apply Hg; by left|]. intros _. by apply IH.
Qed.

(** After a write the value is there, up to what a stable predicate sees. *)
Lemma cset_ensures segs k s st st' (Q : json → Prop) : (work (data st) <= n)%nat → stable Q →
  (∀ j' old changed, set_path json_eq segs k (JStr s) (data st) = Ok (j', old, changed) →
     (changed = true → (work j' < work (data st))%nat)) →
  (∀ j', default JNull (get_path j' (segs ++ [k])) = JStr s → Q j') →
  cset json_eq dump listener segs k (JStr s) false st = (Ok (), st') → Q (data st').
Proof.
  intros Hst HQ Hw Hval H. apply bind_inv in H as (j & st0 & [= <- <-] & H).
  apply bind_inv in H as ([[j' old] changed] & st0 & [= E <-] & H). apply bind_inv in H as ([] & st1 & [= <-] & H).
  pose proof (Hw _ _ _ E) as Hlt. apply set_path_spec in E as (_ & Hch & Hg & _).
  assert (Q j') as Hq.
  { apply Hval. rewrite Hg. destruct changed; [done|]. symmetry in Hch. apply negb_false_iff in Hch. by apply json_eq_string. }
  destruct changed; [|injection H as <-; exact Hq]. specialize (Hlt eq_refl). cbn [negb andb] in H.
  apply bind_inv in H as ([] & st2 & Hs & Hsv).
  assert (improves j' (data st2)) as Hi2.
  { destruct (listener_good (set_data j' st)) as [_ Hi]; [cbn; lia|]. unfold swallow in Hs.
    destruct (listener (set_data j' st)) as [[[]|e| |] s2]; try done; injection Hs as <-; exact Hi. }
  apply bind_inv in Hsv as (j2 & s2 & [= <- <-] & Hsv). apply bind_inv in Hsv as (t & s2 & [= _ <-] & [= <-]).
  cbn. by eapply HQ.
Qed.

Definition settled_active (j : json) : Prop := active_bad skin_file j = false.
Definition settled_condition (x : bytes * bytes * json) (j : json) : Prop := unsettled j x = false.

Lemma settled_active_stable : stable settled_active.
Proof. intros j j' (Ha & _) H. unfold settled_active in *. destruct (active_bad skin_file j'); [|done]. by rewrite Ha in H. Qed.
Lemma settled_condition_stable x : x ∈ all_conditions → stable (settled_condition x).
Proof. intros Hx j j' (_ & _ & Hu) H. unfold settled_condition in *. destruct (unsettled j' x) eqn:E; [|done]. by rewrite (Hu x Hx E) in H. Qed.

Lemma validate_theme_ensures : ensures (validate_theme json_eq dump skin_file listener) settled_active.
Proof.
  intros st [] st' Hst H. apply bind_inv in H as (j & st0 & [= <- <-] & H). apply bind_inv in H as ([] & st1 & E1 & H).
  assert (work (data st1) <= n)%nat as Hst1.
  { eapply runs_work; [|exact E1|exact Hst]. destruct (is_null _) eqn:E; [|by apply good_ret].
    apply runs_reset_active; [done|]. unfold active_bad. by destruct (default JNull _). }
  apply bind_inv in H as (active & st2 & E2 & H).
  assert (get_string (default JNull (get_path (data st1) active_path)) = Ok active ∧ st2 = st1) as [Ea ->] by (by injection E2 as ? ->).
  assert (default JNull (get_path (data st1) active_path) = JStr active) as Eg.
  { destruct (default JNull (get_path (data st1) active_path)); try done. cbn in Ea. by injection Ea as ->. }
  destruct (negb _ && negb _) eqn:E.
  - eapply (cset_ensures [ #"themes"] #"activeTheme" #"default" st1 st'); [done|exact settled_active_stable| | |exact H].
    + intros j' old changed Es Hch. destruct (write_active json_eq theme_dirs skin_file _ _ _ _ _ Es eq_refl) as [Hi Hc].
      apply improves_work_lt; [done|]. left. split; [|auto]. unfold active_bad. by rewrite Eg.
    + intros j' Hj. unfold settled_active, active_bad, active_path. cbn [app] in Hj. by rewrite Hj.
  - injection H as <-. unfold settled_active, active_bad. by rewrite Eg.
Qed.

Lemma setup_condition_ensures t c v : (is_slider v = None → has_values v = None → False) → (t, c, v) ∈ all_conditions →
  ensures (setup_condition json_eq dump listener t (c, v)) (settled_condition (t, c, v)).
Proof.
  intros Hk Hin st [] st' Hst H. cbn [setup_condition] in H.
  assert (unsettled (data st) (t, c, v) =
    match default JNull (jget c (default (JObj []) (get_path (data st) (conditions_path t)))) with JStr s => negb (allowed v s) | _ => true end) as Hu.
  { by rewrite current_condition. }
  assert (∀ s st', allowed v s = true → unsettled (data st) (t, c, v) = true →
    cset json_eq dump listener (conditions_path t) c (JStr s) false st = (Ok (), st') → settled_condition (t, c, v) (data st')) as Hset.
  { intros s st2 Hal Hun Hc. eapply (cset_ensures (conditions_path t) c s st st2); [done|by apply settled_condition_stable| | |exact Hc].
    - intros j' old changed Es Hch.
      destruct (write_condition json_eq theme_dirs skin_file _ _ _ v _ _ _ _ conditions_unique Es Hin Hal Hun) as [Hi Hc'].
      apply improves_work_lt; [done|]. right. right. eauto 10.
    - intros j' Hj. unfold settled_condition, unsettled. cbn [fst snd]. unfold condition_path. rewrite Hj. by rewrite Hal. }
  destruct (is_slider v) as [slider|] eqn:Es.
  - apply bind_inv in H as (cc & st0 & [= <- <-] & H). apply bind_inv in H as (d & st0 & [= _ <-] & H).
    assert (∀ s, allowed v s = true) as Hal by (intros s; unfold allowed; by rewrite Es).
    destruct (jget c _) as [[]|]; try (eapply Hset; [apply Hal|exact Hu|exact H]).
    injection H as <-. unfold settled_condition. rewrite Hu. cbn. by rewrite Hal.
  - destruct (has_values v) as [values|] eqn:Ev; [|by destruct (Hk eq_refl eq_refl)].
    pose proof (values_default_allowed v values Es Ev) as Hd.
    apply bind_inv in H as (cc & st0 & [= <- <-] & H). cbv zeta in H.
    assert (∀ s, allowed v s = contains s values) as Hal by (intros s; unfold allowed; by rewrite Es, Ev).
    destruct (jget c _) as [[]|]; try (eapply Hset; [exact Hd|exact Hu|exact H]).
    cbn in Hu. rewrite Hal in Hu. destruct (contains s values); [|eapply Hset; [exact Hd|exact Hu|exact H]].
    injection H as <-. exact Hu.
Qed.

Lemma theme_conditions_ensures theme x : (∀ x, x ∈ theme_conditions theme → x ∈ all_conditions) → x ∈ theme_conditions theme →
  ensures (setup_theme_conditions json_eq dump listener theme) (settled_condition x).
Proof.
  intros Hin Hx. pose proof (Hin x Hx) as Hall. unfold setup_theme_conditions. unfold theme_conditions in Hin, Hx.
  destruct (jget #"data" theme) as [d|]; [|by apply not_elem_of_nil in Hx].
  destruct (value_string #"native" [] theme) as [t|e| |] eqn:Et; try (by apply not_elem_of_nil in Hx).
  destruct (contains #"failed" theme); [by apply not_elem_of_nil in Hx|].
  destruct (value_json #"Conditions" (JObj []) d) as [conds|e| |] eqn:Ec; try (by apply not_elem_of_nil in Hx).
  apply ensures_lift_bind; [done|]. intros ? [= <-].
  destruct conds as [| | | | | |o]; try (by apply not_elem_of_nil in Hx). cbn [is_object negb].
  apply ensures_lift_bind; [done|]. intros ? [= <-]. cbn [items].
  apply list_elem_of_fmap in Hx as ([c v] & -> & Hcv%list_elem_of_In). apply filter_In in Hcv as [Hcv Hk]. cbn [fst snd] in *.
  apply (ensures_for_each _ _ (c, v)); [|by apply settled_condition_stable|by apply list_elem_of_In|].
  - intros [c' v'] Hc'. destruct (is_slider v') as [sl|] eqn:Es; [|destruct (has_values v') as [vs|] eqn:Ev; [|by apply skip_condition]].
    all: apply good_setup_condition; [congruence|]; apply Hin, list_elem_of_fmap; exists (c', v'); (split; [done|]);
      apply list_elem_of_In, filter_In; (split; [by apply list_elem_of_In|]); cbn; by rewrite ?Es, ?Ev.
  - apply setup_condition_ensures; [|done]. intros E1 E2. by rewrite E1, E2 in Hk.
Qed.

Lemma setup_conditionals_ensures x : x ∈ all_conditions →
  ensures (setup_conditionals json_eq dump theme_dirs skin_file listener) (settled_condition x).
Proof.
  intros Hx st [] st' Hst H. pose proof (settled_condition_stable x Hx) as HQ.
  apply bind_inv in H as (conds & st0 & [= <- <-] & H). apply bind_inv in H as ([] & st1 & E1 & H).
  assert (work (data st1) <= n)%nat as Hst1.
  { eapply runs_work; [|exact E1|exact Hst]. by apply runs_reset_conditions. }
  revert st1 st' Hst1 E1 H. cut (ensures (themes ← lift (FindAllThemes theme_dirs skin_file);
    _ ← for_each (setup_theme_conditions json_eq dump listener) themes; save_to_disk dump) (settled_condition x)).
  { intros He st1 st' Hst1 _ H. exact (He _ _ _ Hst1 H). }
  apply ensures_lift_bind; [apply fueled_collect_themes|]. intros l Hl.
  assert (∀ theme, theme ∈ l → good (setup_theme_conditions json_eq dump listener theme)) as Hg.
  { intros theme Ht. apply good_setup_theme_conditions. by apply (theme_conditions_in theme l). }
  assert (∃ theme, theme ∈ l ∧ x ∈ theme_conditions theme) as (theme & Ht & Hxt).
  { revert Hx. unfold Theme.all_conditions. rewrite Hl. rewrite list_elem_of_In, in_concat. intros (cs & Hcs & Hin).
    apply list_elem_of_In, list_elem_of_fmap in Hcs as (theme & -> & Ht). exists theme. split; [done|]. by apply list_elem_of_In. }
  apply ensures_first; [by apply good_for_each|done| |intros; apply good_save].
  apply (ensures_for_each _ _ theme); [done|done|done|]. apply theme_conditions_ensures; [|done]. by apply (theme_conditions_in theme l).
Qed.

Lemma config_change_body_ensures :
  ensures (config_change_body json_eq dump compile themes_path theme_dirs skin_file read_css listener)
    (λ j, settled_active j ∧ ∀ x, x ∈ all_conditions → settled_condition x j).
Proof.
  assert (∀ t name, good (_ ← start_webkit_hook compile t name; setup_colors json_eq dump themes_path theme_dirs skin_file read_css listener)) as Hend.
  { intros t name. apply good_bind; [apply good_start_webkit_hook|]. intros _. apply good_setup_colors. }
  assert (good (setup_theme_hooks json_eq dump compile themes_path theme_dirs skin_file read_css listener)) as Hhooks by apply good_setup_theme_hooks.
  intros st [] st' Hst H. split.
  - revert H. revert st st' Hst. cut (ensures (config_change_body json_eq dump compile themes_path theme_dirs skin_file read_css listener) settled_active).
    { intros He st st' Hst H. exact (He _ _ _ Hst H). }
    apply ensures_first; [apply good_validate_theme|exact settled_active_stable|apply validate_theme_ensures|].
    intros _. apply good_bind; [by apply good_modify|]. intros _. exact Hhooks.
  - intros x Hx. revert H. revert st st' Hst.
    cut (ensures (config_change_body json_eq dump compile themes_path theme_dirs skin_file read_css listener) (settled_condition x)).
    { intros He st st' Hst H. exact (He _ _ _ Hst H). }
    apply ensures_later; [apply good_validate_theme|]. intros _. apply ensures_later; [by apply good_modify|]. intros _.
    unfold setup_theme_hooks. apply ensures_later; [apply good_get_active_theme|]. intros t. apply ensures_later; [by apply good_modify|].
    intros _. apply ensures_later; [apply good_get_active|]. intros name. apply ensures_later; [by apply good_modify|]. intros _.
    apply ensures_first; [apply good_setup_conditionals|by apply settled_condition_stable|by apply setup_conditionals_ensures|].
    intros _. apply good_bind; [apply good_gets|]. intros t'. apply good_bind; [apply good_gets|]. intros name'. apply Hend.
Qed.
End progress_runs.

(** The handler with fuel for the work that is left. *)
Section handler_lemmas.
  Context {Re : Type}.
  Variable json_eq : json → json → bool.
  Variable dump : json → outcome bytes.
  Variable compile : bytes → option Re.
  Variable themes_path : bytes.
  Variable theme_dirs : list bytes.
  Variable skin_file : bytes → skin.
  Variable read_css : bytes → option bytes.
  Abbreviation handler := (on_config_change_hdlr (Re:=Re) json_eq dump compile themes_path theme_dirs skin_file read_css).
  Hypothesis dump_fueled : ∀ j, fueled (dump j).
  Hypothesis conditions_unique : NoDup ((λ x, (x.1.1, x.1.2)) <$> all_conditions theme_dirs skin_file).

Lemma handler_good n : good theme_dirs skin_file n (handler n).
Proof.
  induction n as [|n IH]; cbn [on_config_change_hdlr]; apply good_config_change_body; try done.
  - intros st Hst. lia.
  - intros st Hst. apply IH. lia.
Qed.

Lemma handler_ensures n : (∀ j s, json_eq j (JStr s) = true → j = JStr s) →
  ensures theme_dirs skin_file n (handler n)
    (λ j, settled_active skin_file j ∧ ∀ x, x ∈ all_conditions theme_dirs skin_file → settled_condition x j).
Proof.
  intros Heq. destruct n as [|n]; cbn [on_config_change_hdlr]; apply config_change_body_ensures; try done.
  - intros st Hst. lia.
  - intros st Hst. apply handler_good. lia.
Qed.
End handler_lemmas.

Lemma work_bound theme_dirs skin_file j : (work theme_dirs skin_file j <= 2 + length (all_conditions theme_dirs skin_file))%nat.
Proof.
  unfold work. pose proof (List.filter_length_le (unsettled j) (all_conditions theme_dirs skin_file)).
  destruct (active_bad skin_file j), (conds_bad j); cbn; lia.
Qed.

Lemma obj_of_units (l : list bytes) : ∀ (o : list (bytes * ())) d, d ∈ l ∨ obj_get d o = Some () →
  obj_get d (foldl (λ o kv, obj_insert kv.1 kv.2 o) o ((λ d, (d, ())) <$> l)) = Some ().
Proof.
  induction l as [|x l IH]; intros o d [Hd|Hd]; cbn; [by apply not_elem_of_nil in Hd|done|..].
  - apply IH. apply elem_of_cons in Hd as [->|Hd]; [right; apply obj_get_insert_eq|by left].
  - apply IH. right. rewrite obj_get_insert. by destruct (bytes_eqb x d).
Qed.

(** ** Properties *)

(** C36: the handler of settings changes comes to an end although it changes
    settings itself and is called again by each such change: every nested
    call has one problem less to repair, so two levels more than there are
    theme conditions are enough from any state of the settings. *)
Theorem handler_terminates {Re} json_eq dump (compile : bytes → option Re) themes_path theme_dirs skin_file read_css fuel st :
  (∀ j, dump j ≠ NoFuel) → NoDup ((λ x, (x.1.1, x.1.2)) <$> all_conditions theme_dirs skin_file) →
  (2 + length (all_conditions theme_dirs skin_file) <= fuel)%nat →
  (on_config_change_hdlr json_eq dump compile themes_path theme_dirs skin_file read_css fuel st).1 ≠ NoFuel.
Proof.
  intros Hd Hu Hf. apply (handler_good json_eq dump compile themes_path theme_dirs skin_file read_css Hd Hu fuel st).
  pose proof (work_bound theme_dirs skin_file (data st)). lia.
Qed.

(** When the handler returns normally the settings are repaired: the
    active theme is set and, if it is a name, is "default" or a theme on
    disk, and every condition of every theme on disk has a value that its
    definition allows. *)
Theorem handler_repairs {Re} json_eq dump (compile : bytes → option Re) themes_path theme_dirs skin_file read_css fuel st st' :
  (∀ j, dump j ≠ NoFuel) → (∀ j s, json_eq j (JStr s) = true → j = JStr s) →
  NoDup ((λ x, (x.1.1, x.1.2)) <$> all_conditions theme_dirs skin_file) →
  (2 + length (all_conditions theme_dirs skin_file) <= fuel)%nat →
  on_config_change_hdlr json_eq dump compile themes_path theme_dirs skin_file read_css fuel st = (Ok (), st') →
  get_path (data st') active_path ≠ None ∧
  (∀ a, get_path (data st') active_path = Some (JStr a) → a = #"default" ∨ IsValid skin_file a = true) ∧
  (∀ t c v, (t, c, v) ∈ all_conditions theme_dirs skin_file →
     ∃ s, get_path (data st') [ #"themes"; #"conditions"; t; c] = Some (JStr s) ∧ allowed v s = true).
Proof.
  intros Hd Heq Hu Hf H. pose proof (work_bound theme_dirs skin_file (data st)) as Hw.
  assert (work theme_dirs skin_file (data st) <= fuel)%nat as Hst by lia.
  destruct (handler_ensures json_eq dump compile themes_path theme_dirs skin_file read_css Hd Hu fuel Heq st () st' Hst H) as [Ha Hc].
  unfold settled_active, active_bad in Ha. split_and!.
  - intros E. by rewrite E in Ha.
  - intros a E. rewrite E in Ha. cbn in Ha. apply andb_false_iff in Ha as [Ha|Ha]; apply negb_false_iff in Ha; [|by right].
    left. by apply bytes_eqb_true.
  - intros t c v Hin. apply Hc in Hin. unfold settled_condition, unsettled in Hin. cbn [fst snd] in Hin.
    change [ #"themes"; #"conditions"; t; c] with (condition_path t c).
    destruct (get_path (data st') (condition_path t c)) as [[]|]; try done. apply negb_false_iff in Hin. eauto.
Qed.

(** One theme folder whose file is not JSON makes the search for themes throw,
    for all themes. *)
Theorem bad_skin_hides_all_themes theme_dirs skin_file d :
  d ∈ theme_dirs → skin_file d = BadJson → FindAllThemes theme_dirs skin_file = Throw json_error.
Proof.
  intros Hd Hb. unfold FindAllThemes, obj_of. pose proof (obj_of_units theme_dirs [] d (or_introl Hd)) as Hg.
  apply obj_get_In in Hg. revert Hg. generalize (foldl (λ o kv, obj_insert kv.1 kv.2 o) [] ((λ d, (d, ())) <$> theme_dirs)).
  intros l Hg. induction l as [|[x []] l IH]; [by apply not_elem_of_nil in Hg|]. cbn [collect_themes].
  apply elem_of_cons in Hg as [[= <-]|Hg]; [by rewrite Hb|]. specialize (IH Hg).
  destruct (skin_file x); [exact IH|exact IH|done|]. by rewrite IH.
Qed.

(** ** An example: a theme with two conditions that are not set yet *)

Definition demo_skin : json :=
  jobj [(#"webkitCSS", JStr #"a.css");
        (#"Conditions", jobj [(#"Blur", jobj [(#"default", JStr #"on"); (#"values", jobj [(#"off", jobj []); (#"on", jobj [])])]);
                              (#"Size", jobj [(#"slider", jobj [(#"min", JInt 4); (#"cssVariable", JStr #"--s")])])])].
Definition demo_file (name : bytes) : skin := if bytes_eqb name #"dark" then Skin demo_skin else NoSkin.
Definition demo_store (d : json) : theme_store bytes :=
  ThemeStore d [] (ThemeWebkit (NetworkHookCtl [] 0 ∅ None) []) JNull [] [].
Definition demo_settings : json := jobj [(#"themes", jobj [(#"activeTheme", JStr #"dark")])].
Definition demo_json_eq (a b : json) : bool := bool_decide (a = b).
Definition demo_handler : nat → M bytes () :=
  on_config_change_hdlr demo_json_eq (λ _, Ok []) Some #"/themes" [ #"dark"] demo_file (λ _, None).

Lemma demo_unique : NoDup ((λ x, (x.1.1, x.1.2)) <$> all_conditions [ #"dark"] demo_file).
Proof. refine (proj1 (bool_decide_eq_true _) _). vm_compute. reflexivity. Qed.

Lemma handler_terminates_witness : (demo_handler 4 (demo_store demo_settings)).1 ≠ NoFuel.
Proof.
  apply (handler_terminates demo_json_eq (λ _, Ok []) Some #"/themes" [ #"dark"] demo_file (λ _, None) 4).
  - done.
  - exact demo_unique.
  - vm_compute. lia.
Defined.

Lemma handler_repairs_witness :
  let st' := (demo_handler 4 (demo_store demo_settings)).2 in
  ∃ s, get_path (data st') [ #"themes"; #"conditions"; #"dark"; #"Size"] = Some (JStr s).
Proof.
  destruct (handler_repairs demo_json_eq (λ _, Ok []) Some #"/themes" [ #"dark"] demo_file (λ _, None) 4
    (demo_store demo_settings) (demo_handler 4 (demo_store demo_settings)).2) as (_ & _ & H).
  - done.
  - intros j s Hj. by apply bool_decide_eq_true in Hj.
  - exact demo_unique.
  - vm_compute. lia.
  - vm_compute. reflexivity.
  - destruct (H #"dark" #"Size" (jobj [(#"slider", jobj [(#"min", JInt 4); (#"cssVariable", JStr #"--s")])])) as (s & Hs & _).
    + refine (proj1 (bool_decide_eq_true _) _). vm_compute. reflexivity.
    + exists s. exact Hs.
Defined.

(** The nested runs register the page hooks of the theme too, and nothing
    removes them before the outer run registers them again: the first change
    after a theme with two unset conditions appears leaves three copies of
    each hook. *)
Theorem nested_runs_duplicate_hooks :
  let hooks st := (λ h, path (hook h)) <$> m_hook_list (ctl (m_theme_webkit_mgr st)) in
  let once := (demo_handler 4 (demo_store demo_settings)).2 in
  hooks once = [ #"dark/a.css"; #"dark/a.css"; #"dark/a.css"] ∧
  hooks (demo_handler 4 once).2 = [ #"dark/a.css"].
Proof. split; vm_compute; reflexivity. Qed.
