(* ===== verification/WebkitWorld.v ===== *)
(** * WebkitWorld: Millennium in web pages

    [engine/plugin_webkit_world_mgr.cc]: the manager that attaches to page
    targets of the browser, exposes Millennium's binding and registers the
    plugins' scripts.  Handlers of target events run one at a time; the
    debugger's answer to a command is a parameter, as are the text of the build
    location and the paths of the preload script. *)

From S2P Require Import Prelude State Json StarFile Css Config PluginConfig Ring Recorder CdpClient CoreIpc Url HttpHooks FfiBinder.

Record target_context := TargetContext {
  session_id : bytes;
  script_id : bytes;
  star_script_ids : list bytes;
  attaching : bool;
}.

(** The manager, and the commands it sent. *)
Record world_mgr := WorldMgr {
  m_attached_targets : gmap bytes target_context;
  m_attachments_in_flight : gset bytes;
  m_shutdown : bool;
  m_sent : list FfiBinder.command;
}.

Definition set_targets (m : gmap bytes target_context) (w : world_mgr) : world_mgr :=
  WorldMgr m (m_attachments_in_flight w) (m_shutdown w) (m_sent w).
Definition set_in_flight (x : gset bytes) (w : world_mgr) : world_mgr := WorldMgr (m_attached_targets w) x (m_shutdown w) (m_sent w).
Definition push_command (c : FfiBinder.command) (w : world_mgr) : world_mgr :=
  WorldMgr (m_attached_targets w) (m_attachments_in_flight w) (m_shutdown w) (m_sent w ++ [c]).

Definition set_attaching (b : bool) (c : target_context) : target_context := TargetContext (session_id c) (script_id c) (star_script_ids c) b.
Definition set_script (i : bytes) (c : target_context) : target_context := TargetContext (session_id c) i (star_script_ids c) (attaching c).
Definition set_star_scripts (l : list bytes) (c : target_context) : target_context := TargetContext (session_id c) (script_id c) l (attaching c).

(** The first target with a session, in the order of the hash map. *)
Definition target_of (p : target_context → bool) (m : gmap bytes target_context) : option (bytes * target_context) :=
  find (λ x, p x.2) (map_to_list m).
Definition has_session (sid : bytes) (c : target_context) : bool := bytes_eqb (session_id c) sid.

Section world.
  Context {Re : Type}.
  Variable regex_match : bytes → Re → bool.
  Variable curl_parse : bytes → option (bytes * bytes).
  (** The debugger's answer to a command. *)
  Variable cdp : FfiBinder.command → outcome json.
  (** The hooks, the plugin scripts for pages and the enabled plugins. *)
  Variable hooks : list (hook_item Re).
  Variable webkit_items : list webkit_store_item.
  Variable enabled : list bytes.
  Variables location preload_path api_token : bytes.
  Abbreviation M := (SM world_mgr).

(** [send_host(method, params, session).get()] *)
Definition send_get (method : bytes) (params : json) (session : option bytes) : M json :=
  let c := FfiBinder.Command method params session in
  _ ← modify (push_command c); lift (cdp c).

Definition is_valid_target_url (url : bytes) : bool := allows_webkit_injection regex_match hooks (mk_target curl_parse url).

(** ** Scripts *)

Definition module_list : bytes :=
  foldl (λ acc item, match si_format item with
                     | star => acc
                     | loose_files =>
                         (if bytes_eqb acc [] then acc else acc ++ #",") ++ quoted (get_url_from_path m_ftp_url (abs_webkit_path item))
                     end) [] webkit_items.
Definition plugin_list : bytes := concat (map (λ p, #"'" ++ p ++ #"',") enabled).

Definition ftp_path : bytes := m_ftp_url ++ preload_path.
Definition ftp_base : bytes := m_ftp_url ++ api_token.

Definition compile_api_shim : bytes :=
  line [] ++
  line #"/**" ++
  line #" * This file is auto-generated by Millennium" ++
  line (#" * " ++ location) ++
  line #" */" ++
  line (#"console.log(" ++ quoted #"%cMillennium%c loading webkit modules..." ++ #", " ++
        quoted #"background: white; color: black; padding: 2px 6px; border-radius: 6px;" ++ #", " ++ quoted [] ++ #");") ++
  line [] ++
  line (#"import('" ++ ftp_path ++ #"')") ++
  line (#".then(module => (new module.default).startBrowser([" ++ plugin_list ++ #"], [" ++ module_list ++ #"], [], '" ++ ftp_base ++ #"'))") ++
  line (#".catch((error) => console.error(" ++ quoted #"%cMillennium%c failed to load webkit modules." ++ #", " ++
        quoted #"background: black; color: red; padding: 2px 6px; border-radius: 2px;" ++ #", " ++ quoted [] ++ #", error));").

Definition star_script (plugin webkit_url : bytes) : bytes :=
  line #"(async () => {" ++
  line #"try {" ++
  line (#"    const _preload = await import('" ++ ftp_path ++ #"');") ++
  line (#"    await (new _preload.default).startBrowser([], [], [], '" ++ ftp_base ++ #"');") ++
  line (#"    const _r = await fetch('" ++ webkit_url ++ #"');") ++
  line #"    const _s = await _r.text();" ++
  line #"    (0, eval)(_s);" ++
  line #"} catch (e) {" ++
  line (#"    console.error('%cMillennium%c webkit plugin " ++ plugin ++
        #" failed to load', 'background:black;color:red;padding:2px 6px;border-radius:2px', '', e);") ++
  line #"}" ++
  #"})();".

Definition world_name (plugin : bytes) : bytes := #"millennium-webkit-" ++ plugin.
Definition webkit_url (plugin : bytes) : bytes := m_ftp_url ++ #"star/" ++ plugin ++ #"/webkit.js".

(** A script is taken back; a failure is ignored. *)
Definition remove_script (sid script : bytes) : M () :=
  swallow (_ ← send_get #"Page.removeScriptToEvaluateOnNewDocument" (jobj [(#"identifier", JStr script)]) (Some sid); mret tt).

(** The scripts of packed plugins run in worlds of their own: registered for
    the next document, or run in the current one. *)
Definition register_star (sid plugin : bytes) : M () :=
  result ← send_get #"Page.addScriptToEvaluateOnNewDocument"
    (jobj [(#"source", JStr (star_script plugin (webkit_url plugin))); (#"worldName", JStr (world_name plugin))]) (Some sid);
  match jget #"identifier" result with
  | Some (JStr i) =>
      modify (λ w, match target_of (has_session sid) (m_attached_targets w) with
                   | Some (tid, c) => set_targets (<[tid := set_star_scripts (star_script_ids c ++ [i]) c]> (m_attached_targets w)) w
                   | None => w
                   end)
  | _ => mret tt
  end.

Definition run_star (sid plugin : bytes) (frame : option bytes) : M (option bytes) :=
  frame_id ← match frame with
             | Some f => mret f
             | None =>
                 ft ← send_get #"Page.getFrameTree" (JObj []) (Some sid);
                 lift (t ← mut_idx #"frameTree" ft; f ← mut_idx #"frame" t; i ← mut_idx #"id" f; get_string i)
             end;
  attempted ← attempt (
    world_result ← send_get #"Page.createIsolatedWorld"
      (jobj [(#"frameId", JStr frame_id); (#"worldName", JStr (world_name plugin)); (#"grantUniversalAccess", JBool false)]) (Some sid);
    ctx_id ← lift (j ← mut_idx #"executionContextId" world_result; get_int j);
    _ ← send_get #"Runtime.evaluate"
      (jobj [(#"expression", JStr (star_script plugin (webkit_url plugin))); (#"contextId", JInt ctx_id)]) (Some sid);
    mret tt);
  mret (Some frame_id).

Fixpoint expose_items (sid : bytes) (can_reload : bool) (frame : option bytes) (items : list webkit_store_item) : M () :=
  match items with
  | [] => mret tt
  | item :: items =>
      match si_format item with
      | loose_files => expose_items sid can_reload frame items
      | star =>
          if can_reload then
            _ ← swallow (register_star sid (si_plugin_name item)); expose_items sid can_reload frame items
          else
            frame ← catching (run_star sid (si_plugin_name item) frame) (λ _, mret frame);
            expose_items sid can_reload frame items
      end
  end.

Definition expose_star_webkit_to_ctx (sid : bytes) (can_reload : bool) : M () :=
  stale ← gets (λ w, target_of (has_session sid) (m_attached_targets w));
  _ ← match stale with
      | Some (tid, c) =>
          _ ← modify (λ w, set_targets (<[tid := set_star_scripts [] c]> (m_attached_targets w)) w);
          for_each (remove_script sid) (star_script_ids c)
      | None => mret tt
      end;
  expose_items sid can_reload None webkit_items.

(** ** Attaching *)

Definition expose_body (sid : bytes) (can_reload : bool) : M () :=
  _ ← send_get #"Runtime.addBinding" (jobj [(#"name", JStr binding_name)]) (Some sid);
  stale ← gets (λ w, target_of (λ c, has_session sid c && negb (bytes_eqb (script_id c) [])) (m_attached_targets w));
  _ ← match stale with
      | Some (tid, c) =>
          _ ← modify (λ w, set_targets (<[tid := set_script [] c]> (m_attached_targets w)) w);
          remove_script sid (script_id c)
      | None => mret tt
      end;
  result ← send_get #"Page.addScriptToEvaluateOnNewDocument" (jobj [(#"source", JStr compile_api_shim)]) (Some sid);
  _ ← (if contains #"identifier" result then
         target ← gets (λ w, target_of (has_session sid) (m_attached_targets w));
         match target with
         | Some (tid, c) =>
             i ← lift (j ← idx #"identifier" result; get_string j);
             modify (λ w, set_targets (<[tid := set_script i c]> (m_attached_targets w)) w)
         | None => mret tt
         end
       else mret tt);
  _ ← expose_star_webkit_to_ctx sid can_reload;
  if can_reload then _ ← send_get #"Page.reload" (JObj []) (Some sid); mret tt
  else _ ← send_get #"Runtime.evaluate" (jobj [(#"expression", JStr compile_api_shim)]) (Some sid); mret tt.

Definition expose_millennium_to_ctx (sid : bytes) (can_reload : bool) : M () := swallow (expose_body sid can_reload).

(** The entry of a target whose attachment failed can be tried again. *)
Definition attach_failed (target_id : bytes) : M () :=
  modify (λ w, set_targets (alter (set_attaching false) target_id (m_attached_targets w)) w).

Definition attach_body (target_id url : bytes) : M () :=
  attach_result ← send_get #"Target.attachToTarget" (jobj [(#"targetId", JStr target_id); (#"flatten", JBool true)]) None;
  match jget #"sessionId" attach_result with
  | Some (JStr sid) =>
      _ ← send_get #"Runtime.enable" (JObj []) (Some sid);
      _ ← send_get #"Page.enable" (JObj []) (Some sid);
      _ ← send_get #"Page.setBypassCSP" (jobj [(#"enabled", JBool true)]) (Some sid);
      tree ← send_get #"Page.getFrameTree" (JObj []) (Some sid);
      match jget #"frameTree" tree with
      | Some ft =>
          match jget #"frame" ft with
          | Some frame =>
              let is_top_level := negb (contains #"parentId" frame) in
              let can_reload := is_top_level && is_steam_owned (mk_target curl_parse url) in
              _ ← modify (λ w, set_targets (<[target_id := TargetContext sid [] [] false]> (m_attached_targets w)) w);
              expose_millennium_to_ctx sid can_reload
          | None => attach_failed target_id
          end
      | None => attach_failed target_id
      end
  | _ => attach_failed target_id
  end.

(** Whether the target is taken: a new entry, or one that is neither being
    attached nor attached. *)
Definition claim_target (target_id : bytes) : M bool := λ w,
  match m_attached_targets w !! target_id with
  | None => (Ok true, set_targets (<[target_id := TargetContext [] [] [] true]> (m_attached_targets w)) w)
  | Some c =>
      if attaching c || negb (bytes_eqb (session_id c) []) then (Ok false, w)
      else (Ok true, set_targets (<[target_id := set_attaching true c]> (m_attached_targets w)) w)
  end.

Definition attach_to_target (target_id url : bytes) : M () :=
  shutdown ← gets m_shutdown;
  if (shutdown : bool) then mret tt else
  taken ← claim_target target_id;
  if negb taken then mret tt else
  catching (attach_body target_id url) (λ _, attach_failed target_id).

(** The guard against a second attachment of the same target. *)
Definition attach_once (target_id url : bytes) : M () :=
  busy ← gets (λ w, bool_decide (target_id ∈ m_attachments_in_flight w));
  if (busy : bool) then mret tt else
  _ ← modify (λ w, set_in_flight ({[target_id]} ∪ m_attachments_in_flight w) w);
  shutdown ← gets m_shutdown;
  _ ← (if (shutdown : bool) then mret tt else attach_to_target target_id url);
  modify (λ w, set_in_flight (m_attachments_in_flight w ∖ {[target_id]}) w).

Definition target_create_hdlr (params : json) : M () :=
  match jget #"targetInfo" params with
  | None => mret tt
  | Some info =>
      if negb (contains #"canAccessOpener" info) || negb (contains #"url" info) || negb (contains #"targetId" info) then mret tt else
      opener ← lift (j ← idx #"canAccessOpener" info; get_bool j);
      if (opener : bool) then mret tt else
      url ← lift (j ← idx #"url" info; get_string j);
      target_id ← lift (j ← idx #"targetId" info; get_string j);
      if negb (is_valid_target_url url) then mret tt else
      shutdown ← gets m_shutdown;
      if (shutdown : bool) then mret tt else attach_once target_id url
  end.

Definition target_destroy_hdlr (params : json) : M () :=
  if negb (contains #"targetId" params) then mret tt else
  target_id ← lift (j ← idx #"targetId" params; get_string j);
  modify (λ w, set_targets (delete target_id (m_attached_targets w)) w).

Definition target_change_hdlr (params : json) : M () :=
  match jget #"targetInfo" params with
  | None => mret tt
  | Some info =>
      if negb (contains #"targetId" info) then mret tt else
      target_id ← lift (j ← idx #"targetId" info; get_string j);
      opener ← (if contains #"canAccessOpener" info then lift (j ← idx #"canAccessOpener" info; get_bool j) else mret false);
      if (opener : bool) then mret tt else
      let url := match jget #"url" info with Some (JStr u) => u | _ => [] end in
      if negb (is_valid_target_url url) then mret tt else
      attached ← gets (λ w, match m_attached_targets w !! target_id with Some c => negb (bytes_eqb (session_id c) []) | None => false end);
      if (attached : bool) then mret tt else attach_once target_id url
  end.

(** Target events, as the debugger delivers them; an exception of a handler
    ends that handler only. *)
Inductive target_event := Created (params : json) | Destroyed (params : json) | Changed (params : json).

Definition on_target_event (e : target_event) : M () :=
  swallow match e with
          | Created p => target_create_hdlr p
          | Destroyed p => target_destroy_hdlr p
          | Changed p => target_change_hdlr p
          end.

Definition world_new : world_mgr := WorldMgr ∅ ∅ false [FfiBinder.Command #"Target.setDiscoverTargets" (jobj [(#"discover", JBool true)]) None].
Definition world_shutdown (w : world_mgr) : world_mgr := WorldMgr (m_attached_targets w) (m_attachments_in_flight w) true (m_sent w).
End world.

(** ** What the handlers send and change *)

(** The commands sent in between all satisfy a predicate. *)
Definition sends_only (P : FfiBinder.command → Prop) (w w' : world_mgr) : Prop := ∃ cs, m_sent w' = m_sent w ++ cs ∧ Forall P cs.
#[export] Instance sends_only_preorder P : PreOrder (sends_only P).
Proof.
  split; [exists []; by rewrite app_nil_r|]. intros a b c (x & Hx & Px) (y & Hy & Py). exists (x ++ y).
  rewrite Hy, Hx, app_assoc. split; [done|]. by apply Forall_app.
Qed.

(** No attachment of [t] is under way. *)
Definition calm (t : bytes) (w : world_mgr) : Prop := ∀ c, m_attached_targets w !! t = Some c → attaching c = false.

(** Calm targets stay calm, except perhaps [X]; nothing else is in flight. *)
Definition stays_calm (X : list bytes) (w w' : world_mgr) : Prop :=
  m_attachments_in_flight w' = m_attachments_in_flight w ∧ m_shutdown w' = m_shutdown w ∧ ∀ t, t ∉ X → calm t w → calm t w'.
#[export] Instance stays_calm_preorder X : PreOrder (stays_calm X).
Proof. split; [done|]. intros a b c (A1 & A2 & A3) (B1 & B2 & B3). split; [congruence|]. split; [congruence|]. auto. Qed.

Lemma target_of_Some p m tid c : target_of p m = Some (tid, c) → m !! tid = Some c.
Proof. unfold target_of. intros [Hin _]%find_some. apply list_elem_of_In in Hin. by apply elem_of_map_to_list in Hin. Qed.

#[local] Hint Extern 0 (_ ≠ _) => (apply bytes_eqb_false; reflexivity) : steps.

Section steps.
  Context {Re : Type}.
  Variable regex_match : bytes → Re → bool.
  Variable curl_parse : bytes → option (bytes * bytes).
  Variable cdp : FfiBinder.command → outcome json.
  Variable hooks : list (hook_item Re).
  Variable webkit_items : list webkit_store_item.
  Variable enabled : list bytes.
  Variables location preload_path api_token : bytes.
  Abbreviation M := (SM world_mgr).

(** *** Commands *)
Section sent.
  Variable P : FfiBinder.command → Prop.

Lemma sent_get method params session : P (FfiBinder.Command method params session) → steps (sends_only P) (send_get cdp method params session).
Proof.
  intros HP. unfold send_get. apply steps_bind; [exact _| |intros; apply steps_lift, _]. apply steps_modify. intros w.
  exists [FfiBinder.Command method params session]. split; [done|]. by constructor.
Qed.

Lemma sent_modify f : (∀ w, m_sent (f w) = m_sent w) → steps (sends_only P) (modify f).
Proof. intros Hf. apply steps_modify. intros w. exists []. split; [by rewrite Hf, app_nil_r|done]. Qed.

Lemma sent_targets (f : world_mgr → gmap bytes target_context) : steps (sends_only P) (modify (λ w, set_targets (f w) w)).
Proof. by apply sent_modify. Qed.

  Hypothesis other : ∀ method params session, method ≠ #"Page.reload" → P (FfiBinder.Command method params session).

Lemma sent_other method params session : method ≠ #"Page.reload" → steps (sends_only P) (send_get cdp method params session).
Proof. intros Hm. by apply sent_get, other. Qed.

Lemma sent_items sid can frame items : steps (sends_only P) (expose_items cdp preload_path api_token sid can frame items).
Proof.
  pose proof sent_other. pose proof sent_targets. revert frame. induction items as [|i items IH]; intros frame; cbn [expose_items]; [apply steps_ret, _|].
  unfold register_star, run_star.
  assert (∀ i, steps (sends_only P) (modify (λ w, match target_of (has_session sid) (m_attached_targets w) with
    | Some (tid, c) => set_targets (<[tid:=set_star_scripts (star_script_ids c ++ [i]) c]> (m_attached_targets w)) w | None => w end))).
  { intros x. apply sent_modify. intros w. by destruct (target_of _ _) as [[]|]. }
  steps.
Qed.

Lemma sent_expose sid can : (can = true → ∀ params session, P (FfiBinder.Command #"Page.reload" params session)) →
  steps (sends_only P) (expose_millennium_to_ctx cdp webkit_items enabled location preload_path api_token sid can).
Proof.
  intros Hr. pose proof sent_targets. pose proof sent_items. pose proof sent_other.
  assert (steps (sends_only P) (if can then _ ← send_get cdp #"Page.reload" (JObj []) (Some sid); mret tt
    else _ ← send_get cdp #"Runtime.evaluate" (jobj [(#"expression", JStr (compile_api_shim webkit_items enabled location preload_path api_token))]) (Some sid);
         mret tt)) as Hlast.
  { destruct can; (apply steps_bind; [exact _| |steps]); [apply sent_get; by apply Hr|auto with steps]. }
  unfold expose_millennium_to_ctx, expose_body, expose_star_webkit_to_ctx, remove_script. steps.
Qed.

Lemma sent_attach target_id url :
  (is_steam_owned (mk_target curl_parse url) = true → ∀ params session, P (FfiBinder.Command #"Page.reload" params session)) →
  steps (sends_only P) (attach_to_target curl_parse cdp webkit_items enabled location preload_path api_token target_id url).
Proof.
  intros Hr. unfold attach_to_target, attach_body, attach_failed. pose proof sent_targets. pose proof sent_other.
  assert (∀ sid top, steps (sends_only P) (expose_millennium_to_ctx cdp webkit_items enabled location preload_path api_token sid
    (top && is_steam_owned (mk_target curl_parse url)))) as He.
  { intros sid top. apply sent_expose. intros [_ Hs]%andb_true_iff. by apply Hr. }
  assert (steps (sends_only P) (claim_target target_id)) as Hclaim.
  { intros w _. exists []. unfold claim_target. split; [|done]. rewrite app_nil_r.
    destruct (_ !! _) as [c|]; [|done]. by destruct (_ || _). }
  steps.
Qed.
End sent.

(** *** Attachments under way *)

Lemma calm_get method params session X : steps (stays_calm X) (send_get cdp method params session).
Proof. unfold send_get. apply steps_bind; [exact _| |intros; apply steps_lift, _]. apply steps_modify. intros w. by split. Qed.

(** Changing the scripts of a target keeps its state. *)
Lemma calm_update tid c c' w X :
  m_attached_targets w !! tid = Some c → attaching c' = attaching c → stays_calm X w (set_targets (<[tid := c']> (m_attached_targets w)) w).
Proof.
  intros Hc Ha. split; [done|]. split; [done|]. intros t _ Ht x. cbn. destruct (decide (t = tid)) as [->|Hne].
  - rewrite lookup_insert_eq. intros [= <-]. rewrite Ha. by apply Ht.
  - rewrite lookup_insert_ne by done. apply Ht.
Qed.

Lemma calm_items sid can frame items X : steps (stays_calm X) (expose_items cdp preload_path api_token sid can frame items).
Proof.
  pose proof calm_get. revert frame. induction items as [|i items IH]; intros frame; cbn [expose_items]; [apply steps_ret, _|].
  unfold register_star, run_star.
  assert (∀ i, steps (stays_calm X) (modify (λ w, match target_of (has_session sid) (m_attached_targets w) with
    | Some (tid, c) => set_targets (<[tid:=set_star_scripts (star_script_ids c ++ [i]) c]> (m_attached_targets w)) w | None => w end))).
  { intros x. apply steps_modify. intros w. destruct (target_of _ _) as [[tid c]|] eqn:E; [|reflexivity].
    eapply calm_update; [by eapply target_of_Some|done]. }
  steps.
Qed.

(** A target read and then changed. *)
Lemma calm_stale p (g : target_context → target_context) (k : bytes → target_context → M ()) X :
  (∀ c, attaching (g c) = attaching c) → (∀ tid c, steps (stays_calm X) (k tid c)) →
  steps (stays_calm X) (stale ← gets (λ w, target_of p (m_attached_targets w));
    match stale with
    | Some (tid, c) => _ ← modify (λ w, set_targets (<[tid := g c]> (m_attached_targets w)) w); k tid c
    | None => mret tt
    end).
Proof.
  intros Hg Hk w. run_simpl. destruct (target_of p (m_attached_targets w)) as [[tid c]|] eqn:E; [|done]. run_simpl. intros Hd.
  etransitivity; [eapply calm_update; [by eapply target_of_Some|apply Hg]|]. by apply Hk.
Qed.

Lemma calm_expose sid can X : steps (stays_calm X) (expose_millennium_to_ctx cdp webkit_items enabled location preload_path api_token sid can).
Proof.
  pose proof calm_get. pose proof calm_items.
  assert (∀ sid c, steps (stays_calm X) (for_each (remove_script cdp sid) c)) as Hrm by (unfold remove_script; intros; steps).
  assert (steps (stays_calm X) (expose_star_webkit_to_ctx cdp webkit_items preload_path api_token sid can)).
  { unfold expose_star_webkit_to_ctx. apply steps_bind_assoc; [exact _| |by auto]. apply calm_stale; [done|]. intros tid c. apply Hrm. }
  unfold expose_millennium_to_ctx. apply steps_swallow. unfold expose_body.
  apply steps_bind; [exact _|auto|]. intros _. apply steps_bind_assoc; [exact _| |].
  { apply calm_stale; [done|]. intros tid c. unfold remove_script. steps. }
  intros _. apply steps_bind; [exact _|auto|]. intros result. apply steps_bind; [exact _| |steps].
  destruct (contains #"identifier" result); [|apply steps_ret, _]. intros w. run_simpl.
  destruct (target_of _ _) as [[tid c]|] eqn:E; [|done]. rewrite bind_run. unfold lift at 1 2.
  destruct (j ← idx #"identifier" result; get_string j) as [i|e| |]; try done. cbn [modify fst snd]. intros _.
  eapply calm_update; [by eapply target_of_Some|done].
Qed.

Abbreviation attach := (attach_to_target curl_parse cdp webkit_items enabled location preload_path api_token).

Lemma calm_insert t c X w : t ∈ X → stays_calm X w (set_targets (<[t := c]> (m_attached_targets w)) w).
Proof. intros Ht. split; [done|]. split; [done|]. intros t' Hn Hc x. cbn. rewrite lookup_insert_ne; [apply Hc|by intros ->]. Qed.

Lemma calm_failed t X : steps (stays_calm X) (attach_failed t).
Proof.
  apply steps_modify. intros w. split; [done|]. split; [done|]. intros t' _ Hc x. cbn. destruct (decide (t' = t)) as [->|Hne].
  - rewrite lookup_alter_eq. destruct (m_attached_targets w !! t); [|done]. by intros [= <-].
  - rewrite lookup_alter_ne by done. apply Hc.
Qed.

Lemma calm_failed_here t w w' : attach_failed t w = (Ok (), w') → calm t w'.
Proof.
  intros [= <-] x. cbn. rewrite lookup_alter_eq. destruct (m_attached_targets w !! t); [|done]. by intros [= <-].
Qed.

Lemma attach_body_calm t url : steps (stays_calm [t]) (attach_body curl_parse cdp webkit_items enabled location preload_path api_token t url).
Proof.
  pose proof calm_get. pose proof calm_expose. pose proof (calm_failed t [t]).
  assert (∀ c, steps (stays_calm [t]) (modify (λ w, set_targets (<[t := c]> (m_attached_targets w)) w))).
  { intros c. apply steps_modify. intros w. apply calm_insert. left. }
  unfold attach_body. steps.
Qed.

(** An attachment that returns has been recorded as attached or as failed. *)
Lemma attach_body_done t url w w' :
  attach_body curl_parse cdp webkit_items enabled location preload_path api_token t url w = (Ok (), w') → calm t w'.
Proof.
  unfold attach_body. intros (r & w1 & _ & H)%bind_Ok_inv. destruct (jget #"sessionId" r) as [[| | | |sid| |]|]; try (by eapply calm_failed_here).
  do 4 (apply bind_Ok_inv in H as (? & ? & _ & H)). destruct (jget #"frameTree" _) as [ft|]; [|by eapply calm_failed_here].
  destruct (jget #"frame" ft) as [frame|]; [|by eapply calm_failed_here]. apply bind_Ok_inv in H as (? & w2 & [= _ <-] & H).
  pose proof (steps_ran _ _ _ _ _ (calm_expose _ _ []) H) as (_ & _ & Hc). apply Hc; [set_solver|].
  intros c. cbn. rewrite lookup_insert_eq. by intros [= <-].
Qed.

  (** The debugger answers or the call fails; context ids are integers. *)
  Hypothesis cdp_defined : ∀ c, defined (cdp c).
  Hypothesis cdp_ids : ∀ c r f, cdp c = Ok r → jget #"executionContextId" r ≠ Some (JFloat f).
  #[local] Hint Resolve cdp_defined mut_idx_defined : cxx.

Lemma total_get method params session : total (send_get cdp method params session).
Proof. unfold send_get. total. Qed.
#[local] Hint Resolve total_get : total.

Lemma total_get_bind {A} method params session (k : json → M A) :
  (∀ r, cdp (FfiBinder.Command method params session) = Ok r → total (k r)) → total (r ← send_get cdp method params session; k r).
Proof.
  intros Hk w. apply bind_run_defined; [apply total_get|]. intros r w1 Hr. apply Hk. unfold send_get in Hr. rewrite bind_run in Hr. by injection Hr.
Qed.

Lemma total_run_star sid plugin frame : total (run_star cdp preload_path api_token sid plugin frame).
Proof.
  unfold run_star.
  assert (∀ ft, defined (t ← mut_idx #"frameTree" ft; f ← mut_idx #"frame" t; i ← mut_idx #"id" f; get_string i)) by (intros; solve_defined; auto with cxx).
  apply total_bind; [total|]. intros frame_id. apply total_bind; [|total]. unfold attempt. apply total_catching; [|total].
  apply total_bind; [|total]. apply total_get_bind. intros r Hr. apply total_lift_bind; [|total].
  apply bind_defined; [auto with cxx|]. intros j Hj. pose proof (λ f, cdp_ids _ _ f Hr) as Hi.
  destruct r; try done; cbn in Hj; try discriminate; injection Hj as <-; cbn in Hi; [done|]. destruct (obj_get _ o) as [[]|]; try done. by edestruct Hi.
Qed.
#[local] Hint Resolve total_run_star : total.

Lemma total_items sid can frame items : total (expose_items cdp preload_path api_token sid can frame items).
Proof.
  revert frame. induction items as [|i items IH]; intros frame; cbn [expose_items]; [apply total_ret|]. unfold register_star. total.
Qed.
#[local] Hint Resolve total_items : total.

Lemma total_attach target_id url : total (attach target_id url).
Proof.
  assert (total (claim_target target_id)).
  { intros w. unfold claim_target. destruct (_ !! _) as [c|]; [|done]. by destruct (_ || _). }
  assert (∀ r : json, contains #"identifier" r = true → defined (j ← idx #"identifier" r; get_string j)).
  { intros r Hr. apply bind_defined; [by apply contains_idx_defined|]. intros. apply get_string_defined. }
  unfold attach_to_target, attach_body, attach_failed, expose_millennium_to_ctx, expose_body, expose_star_webkit_to_ctx, remove_script. total.
Qed.

(** No attachment is under way. *)
Definition settled (w : world_mgr) : Prop := m_attachments_in_flight w = ∅ ∧ ∀ t, calm t w.

Lemma attach_settles t url w : (∀ t, calm t w) → ∃ w', attach t url w = (Ok (), w') ∧
  m_attachments_in_flight w' = m_attachments_in_flight w ∧ ∀ t, calm t w'.
Proof.
  intros Hc. pose proof (total_attach t url w) as Hd. revert Hd. unfold attach_to_target. run_simpl.
  destruct (m_shutdown w); [by exists w|]. rewrite bind_run. unfold claim_target.
  assert (∀ w1, m_attachments_in_flight w1 = m_attachments_in_flight w → (∀ t', t' ≠ t → calm t' w1) →
    defined (catching (attach_body curl_parse cdp webkit_items enabled location preload_path api_token t url) (λ _, attach_failed t) w1).1 →
    ∃ w', catching (attach_body curl_parse cdp webkit_items enabled location preload_path api_token t url) (λ _, attach_failed t) w1 = (Ok (), w') ∧
      m_attachments_in_flight w' = m_attachments_in_flight w ∧ ∀ t, calm t w') as Hbody.
  { intros w1 Hf Hc1. unfold catching. pose proof (attach_body_calm t url w1) as Hs. pose proof (attach_body_done t url w1) as Hdone.
    destruct (attach_body _ _ _ _ _ _ _ t url w1) as [[[]|e| |] w2]; cbn [fst snd] in *; intros Hd; [| |by destruct Hd..].
    - destruct (Hs (Ok_defined _)) as (Hf2 & _ & Hc2). exists w2. split; [done|]. split; [congruence|]. intros t'.
      destruct (decide (t' = t)) as [->|Hne]; [by apply Hdone|]. apply Hc2; [set_solver|by apply Hc1].
    - destruct (Hs (Throw_defined _)) as (Hf2 & _ & Hc2). eexists. split; [reflexivity|]. split; [cbn; congruence|]. intros t'.
      destruct (decide (t' = t)) as [->|Hne]; [by eapply calm_failed_here|].
      destruct (calm_failed t [] w2 (Ok_defined _)) as (_ & _ & Hc3). apply Hc3; [set_solver|]. apply Hc2; [set_solver|by apply Hc1]. }
  assert (∀ c t', t' ≠ t → calm t' (set_targets (<[t := c]> (m_attached_targets w)) w)) as Hins.
  { intros c t' Hne x. cbn. rewrite lookup_insert_ne by done. apply Hc. }
  destruct (m_attached_targets w !! t) as [c|] eqn:E.
  - destruct (attaching c || _); cbn [negb]; [intros _; by exists w|]. intros Hd. apply Hbody; [done|apply Hins|exact Hd].
  - cbn [negb]. intros Hd. apply Hbody; [done|apply Hins|exact Hd].
Qed.

Abbreviation on_event := (on_target_event regex_match curl_parse cdp hooks webkit_items enabled location preload_path api_token).
Abbreviation once := (attach_once curl_parse cdp webkit_items enabled location preload_path api_token).

Lemma once_settles t url w : settled w → ∃ w', once t url w = (Ok (), w') ∧ settled w'.
Proof.
  intros [Hf Hc]. unfold attach_once. run_simpl. rewrite Hf. rewrite bool_decide_false by set_solver. run_simpl.
  assert (∀ w1, m_attachments_in_flight w1 = {[t]} ∪ ∅ → (∀ t, calm t w1) →
    settled (set_in_flight (m_attachments_in_flight w1 ∖ {[t]}) w1)) as Hend.
  { intros w1 H1 H2. split; [|exact H2]. cbn. rewrite H1. apply leibniz_equiv. set_solver. }
  cbn [m_shutdown set_in_flight]. destruct (m_shutdown w); run_simpl.
  - eexists. split; [reflexivity|]. apply Hend; [cbn; by rewrite Hf|exact Hc].
  - destruct (attach_settles t url (set_in_flight ({[t]} ∪ ∅) w) Hc) as (w' & E & H1 & H2). rewrite Hf in *.
    rewrite E. run_simpl. eexists. split; [reflexivity|]. by apply Hend.
Qed.

(** The page an event is about. *)
Definition event_info (e : target_event) : option json :=
  match e with Created p | Changed p => jget #"targetInfo" p | Destroyed _ => None end.
Definition event_target (e : target_event) : option bytes :=
  info ← event_info e; match jget #"targetId" info with Some (JStr t) => Some t | _ => None end.
Definition event_url (e : target_event) : bytes :=
  match event_info e with
  | Some info => match jget #"url" info with Some (JStr u) => u | _ => [] end
  | None => []
  end.

(** What a creation or change of a target comes to: nothing, an exception, or
    an attachment of that target, whose page is valid. *)
Inductive event_result (e : target_event) (w : world_mgr) : outcome () * world_mgr → Prop :=
  | er_nothing : event_result e w (Ok (), w)
  | er_throw x : event_result e w (Throw x, w)
  | er_attach t : event_target e = Some t → is_valid_target_url regex_match curl_parse hooks (event_url e) = true →
      event_result e w (once t (event_url e) w).

Lemma create_result params w :
  event_result (Created params) w
    (target_create_hdlr regex_match curl_parse cdp hooks webkit_items enabled location preload_path api_token params w).
Proof.
  unfold target_create_hdlr. destruct (jget #"targetInfo" params) as [info|] eqn:Ei; [|constructor].
  destruct (_ || _ || _) eqn:Eg; [constructor|]. apply orb_false_iff in Eg as [[E1 E2]%orb_false_iff E3]. apply negb_false_iff in E1, E2, E3.
  destruct (contains_idx _ _ E1) as (v1 & J1 & I1), (contains_idx _ _ E2) as (v2 & J2 & I2), (contains_idx _ _ E3) as (v3 & J3 & I3).
  run_simpl. rewrite I1. destruct v1; try constructor. cbn [mbind outcome_bind get_bool]. destruct b; [constructor|]. run_simpl.
  rewrite I2. destruct v2 as [| | | |url| |]; try constructor. cbn [mbind outcome_bind get_string]. run_simpl.
  rewrite I3. destruct v3 as [| | | |t| |]; try constructor. cbn [mbind outcome_bind get_string]. run_simpl.
  destruct (is_valid_target_url _ _ _ url) eqn:Ev; cbn [negb]; [|constructor]. run_simpl. destruct (m_shutdown w); [constructor|].
  assert (event_url (Created params) = url) as Hu by (unfold event_url, event_info; by rewrite Ei, J2). rewrite <- Hu in *.
  constructor; [|done]. unfold event_target, event_info. rewrite Ei. cbn [mbind option_bind]. by rewrite J3.
Qed.

Lemma change_result params w :
  event_result (Changed params) w
    (target_change_hdlr regex_match curl_parse cdp hooks webkit_items enabled location preload_path api_token params w).
Proof.
  unfold target_change_hdlr. destruct (jget #"targetInfo" params) as [info|] eqn:Ei; [|constructor].
  destruct (contains #"targetId" info) eqn:E1; cbn [negb]; [|constructor]. destruct (contains_idx _ _ E1) as (v1 & J1 & I1).
  run_simpl. rewrite I1. destruct v1 as [| | | |t| |]; try constructor. cbn [mbind outcome_bind get_string]. run_simpl.
  assert (∀ o : M bool, (∃ x, o w = (Throw x, w)) ∨ (∃ b, o w = (Ok b, w)) → ∀ k, (∀ b, event_result (Changed params) w (k b w)) →
    event_result (Changed params) w (match o w with (Ok a, st) => k a st | (Throw e, st) => (Throw e, st) | (UB, st) => (UB, st) | (NoFuel, st) => (NoFuel, st) end)) as Hbind.
  { intros o [[x ->]|[b ->]] k Hk; [constructor|apply Hk]. }
  apply Hbind.
  { destruct (contains #"canAccessOpener" info) eqn:E2; [|right; by eexists]. destruct (contains_idx _ _ E2) as (v2 & _ & I2). unfold lift. rewrite I2.
    destruct v2; first [left; by eexists | right; by eexists]. }
  intros [|]; [constructor|]. fold (event_url (Changed params)).
  assert (match jget #"url" info with Some (JStr u) => u | _ => [] end = event_url (Changed params)) as -> by (unfold event_url, event_info; by rewrite Ei).
  destruct (is_valid_target_url _ _ _ _) eqn:Ev; cbn [negb]; [|constructor]. run_simpl.
  match goal with |- context [if ?b then _ else _] => destruct b end; [constructor|].
  constructor; [|done]. unfold event_target, event_info. rewrite Ei. cbn [mbind option_bind]. by rewrite J1.
Qed.

Lemma event_settles e w : settled w → ∃ w', on_event e w = (Ok (), w') ∧ settled w'.
Proof.
  intros Hw. unfold on_target_event, swallow. destruct e as [params|params|params].
  - destruct (create_result params w); [by exists w..|]. destruct (once_settles t (event_url (Created params)) w Hw) as (w' & -> & Hs). by exists w'.
  - unfold target_destroy_hdlr. destruct (contains #"targetId" params) eqn:E1; cbn [negb]; [|by exists w].
    destruct (contains_idx _ _ E1) as (v1 & _ & I1). run_simpl. rewrite I1. destruct v1; try (by exists w). eexists. split; [reflexivity|].
    destruct Hw as [Hf Hc]. split; [done|]. intros t c. cbn. rewrite lookup_delete_Some. intros [_ Ht]. by eapply Hc.
  - destruct (change_result params w); [by exists w..|]. destruct (once_settles t (event_url (Changed params)) w Hw) as (w' & -> & Hs). by exists w'.
Qed.

Lemma run_settles events w : settled w → ∃ w', for_each on_event events w = (Ok (), w') ∧ settled w'.
Proof.
  revert w. induction events as [|e events IH]; intros w Hw; [by exists w|]. cbn [for_each]. rewrite bind_run.
  destruct (event_settles e w Hw) as (w1 & -> & H1). by apply IH.
Qed.

(** A target that is attached is left alone. *)
Lemma once_attached t url w c : settled w → m_attached_targets w !! t = Some c → session_id c ≠ [] → m_sent (once t url w).2 = m_sent w.
Proof.
  intros [Hf _] Hc Hs. unfold attach_once. run_simpl. rewrite Hf. rewrite bool_decide_false by set_solver. run_simpl.
  cbn [m_shutdown set_in_flight]. destruct (m_shutdown w) eqn:Em; run_simpl; [done|]. unfold attach_to_target. run_simpl. cbn [m_shutdown set_in_flight].
  rewrite Em. run_simpl. unfold claim_target. cbn [m_attached_targets set_in_flight]. rewrite Hc.
  assert (bytes_eqb (session_id c) [] = false) as -> by (by apply bytes_eqb_false). by rewrite orb_true_r.
Qed.
End steps.

(** Page targets are attached once, and again only after a failure.  After
    any sequence of target events, whatever the debugger answers, the handlers
    have returned, no attachment is left marked as under way, so a target whose
    attachment failed can be tried again, and an event about a target that is
    attached sends nothing. *)
Theorem targets_attached_once {Re} regex_match curl_parse cdp (hooks : list (hook_item Re)) items enabled location preload token events :
  (∀ c, defined (cdp c)) → (∀ c r f, cdp c = Ok r → jget #"executionContextId" r ≠ Some (JFloat f)) →
  let on_event := on_target_event regex_match curl_parse cdp hooks items enabled location preload token in
  ∃ w, for_each on_event events world_new = (Ok (), w) ∧ settled w ∧
    ∀ e t c, event_target e = Some t → m_attached_targets w !! t = Some c → session_id c ≠ [] → m_sent (on_event e w).2 = m_sent w.
Proof.
  intros Hd Hi on_event. destruct (run_settles regex_match curl_parse cdp hooks items enabled location preload token Hd Hi events world_new) as (w & Hw & Hs).
  { split; [done|]. intros t c Ht. change ((∅ : gmap bytes target_context) !! t = Some c) in Ht. by rewrite lookup_empty in Ht. }
  exists w. split; [exact Hw|]. split; [done|]. intros e t c He Hc Hsess. subst on_event. unfold on_target_event.
  assert (∀ m : SM world_mgr (), event_result regex_match curl_parse cdp hooks items enabled location preload token e w (m w) →
    m_sent (swallow m w).2 = m_sent w) as Hr.
  { intros m. unfold swallow. intros [| |t' Ht _]; [done..|]. assert (t' = t) as -> by congruence.
    pose proof (once_attached curl_parse cdp items enabled location preload token Hd Hi t (event_url e) w c Hs Hc Hsess) as H1.
    by destruct (attach_once _ _ _ _ _ _ _ _ _ _) as [[]]. }
  destruct e as [params|params|params]; [apply Hr, create_result|done|apply Hr, change_result].
Qed.

(** A debugger that answers, and a page of the store. *)
Definition demo_cdp (c : FfiBinder.command) : outcome json :=
  if bytes_eqb (c_method c) #"Target.attachToTarget" then Ok (jobj [(#"sessionId", JStr #"s1")])
  else if bytes_eqb (c_method c) #"Page.getFrameTree" then Ok (jobj [(#"frameTree", jobj [(#"frame", jobj [(#"id", JStr #"f")])])])
  else if bytes_eqb (c_method c) #"Page.addScriptToEvaluateOnNewDocument" then Ok (jobj [(#"identifier", JStr #"7")])
  else Ok (JObj []).
Definition demo_page : target_event :=
  Created (jobj [(#"targetInfo", jobj [(#"targetId", JStr #"t"); (#"url", JStr #"https://store.steampowered.com/"); (#"canAccessOpener", JBool false)])]).

Lemma targets_attached_once_witness :
  let on_event := on_target_event ex_regex ex_curl demo_cdp [] [] [] #"build" #"preload.js" #"token" in
  let w := (for_each on_event [demo_page] world_new).2 in
  length (m_sent w) = 9%nat ∧ m_sent (on_event demo_page w).2 = m_sent w.
Proof.
  intros on_event w. split; [by vm_compute|].
  destruct (targets_attached_once ex_regex ex_curl demo_cdp [] [] [] #"build" #"preload.js" #"token" [demo_page]) as (w' & Hw & _ & H).
  - intros c. unfold demo_cdp. by repeat case_match.
  - intros c r f. unfold demo_cdp. repeat case_match; by intros [= <-].
  - subst w. fold on_event in Hw, H. rewrite Hw. cbn [snd]. apply (H demo_page #"t" (TargetContext #"s1" #"7" [] false)); [by vm_compute| |done].
    change w' with (Ok (A := ()) tt, w').2. rewrite <- Hw. by vm_compute.
Defined.

(** What an event may send: commands for a valid page, and a reload only of a
    page Steam owns. *)
Definition page_command {Re} regex_match curl_parse (hooks : list (hook_item Re)) (e : target_event) (c : FfiBinder.command) : Prop :=
  is_valid_target_url regex_match curl_parse hooks (event_url e) = true ∧
  (c_method c = #"Page.reload" → is_steam_owned (mk_target curl_parse (event_url e)) = true).

Lemma sent_once curl_parse cdp items enabled location preload token t url P :
  (∀ method params session, method ≠ #"Page.reload" → P (FfiBinder.Command method params session)) →
  (is_steam_owned (mk_target curl_parse url) = true → ∀ params session, P (FfiBinder.Command #"Page.reload" params session)) →
  steps (sends_only P) (attach_once curl_parse cdp items enabled location preload token t url).
Proof.
  intros Ho Hr. pose proof (sent_attach curl_parse cdp items enabled location preload token P Ho t url Hr).
  assert (∀ f : world_mgr → gset bytes, steps (sends_only P) (modify (λ w, set_in_flight (f w) w))) by (intros f; by apply sent_modify).
  unfold attach_once. steps.
Qed.


