(* ===== verification/Inject.v ===== *)
(** * Inject: Millennium's frontend in the client's main page

    The rest of [engine/plugin_loader.cc]: the debugger connection
    ([devtools_connection_hdlr], [init_devtools]), the scripts it generates, and
    the jobs of [inject_frontend_shims], which register the frontend for every
    new document, reload the page and give each plugin a world of its own.  The
    browser is a parameter: its state and what it does with a command. *)

From S2P Require Import Prelude State Json StarFile Css Config PluginConfig Ring Recorder CoreIpc Url HttpHooks FfiBinder WebkitWorld.
From Stdlib Require Import SpecFloat.

(** ** Scripts *)

Definition join_strings (items : list bytes) (sep : bytes) : bytes :=
  match items with [] => [] | x :: l => foldl (λ out item, out ++ sep ++ item) x l end.

Section scripts.
  Variables preload_path api_token version : bytes.

Definition cdp_generate_bootstrap_module (modules : list bytes) : bytes :=
  let list := quoted (join_strings modules ([quote] ++ #", " ++ [quote])) in
  #"import('" ++ ftp_path preload_path ++ #"').then(m => (new m.default).startClient('" ++ version ++ #"', [" ++ list ++ #"]))".

(** The scripts of the enabled plugins, after the built-in one. *)
Definition frontend_script (p : plugin_t) : option bytes :=
  match format p with
  | star => if has_frontend_js p then Some (m_ftp_url ++ #"star/" ++ plugin_name p ++ #"/bundle.js") else None
  | loose_files => Some (get_url_from_path m_ftp_url (plugin_frontend_dir p))
  end.
Definition script_list (enabled : list plugin_t) : list bytes :=
  (m_ftp_url ++ api_token ++ #"/millennium-frontend.js") :: omap frontend_script enabled.
Definition cdp_generate_shim_module (enabled : list plugin_t) : bytes := cdp_generate_bootstrap_module (script_list enabled).
End scripts.

(** The page is told of a crash; the exit code as an unsigned number. *)
Definition make_crash_js (dump : json → outcome bytes) (ev : crash_event) : outcome bytes :=
  let name := if bytes_eqb (display_name ev) [] then cr_plugin_name ev else display_name ev in
  text ← dump (jobj [(#"plugin", JStr (cr_plugin_name ev)); (#"displayName", JStr name); (#"exitCode", JInt (u32 (exit_code ev)));
                     (#"crashDumpDir", JStr (Recorder.crash_dump_dir ev))]);
  Ok (#"window.dispatchEvent(new CustomEvent('millennium-plugin-crash',{detail:" ++ text ++ #"}));").

(** A crash without a display name takes the plugin's. *)
Definition with_display_name (all_plugins : option (list plugin_t)) (ev : crash_event) : outcome crash_event :=
  if negb (bytes_eqb (display_name ev) []) then Ok ev else
  name ← match all_plugins with
         | Some l =>
             match find (λ p, bytes_eqb (plugin_name p) (cr_plugin_name ev)) l with
             | Some p => value_string #"common_name" (cr_plugin_name ev) (plugin_json p)
             | None => Ok []
             end
         | None => Ok []
         end;
  let name := if bytes_eqb name [] then cr_plugin_name ev else name in
  Ok (CrashEvent (cr_plugin_name ev) (exit_code ev) (Recorder.crash_dump_dir ev) name).
Definition crash_listener (dump : json → outcome bytes) (all_plugins : option (list plugin_t)) (ipc : bool) (ev : crash_event) : outcome (option bytes) :=
  ev ← with_display_name all_plugins ev;
  if negb ipc then Ok None else js ← make_crash_js dump ev; Ok (Some js).

(** ** Injection *)

(** The loader's state about the page, the worlds announced to the binder, and
    the browser. *)
Record injector (B : Type) := Injector {
  document_script_id : bytes;
  m_skip_next_inject_reload : bool;
  m_shared_js_target_id : bytes;
  shared_js_session : bytes;
  i_contexts : list (bytes * Z * bytes);
  i_browser : B;
}.
Arguments Injector {_} _ _ _ _ _ _.
Arguments document_script_id {_} _.
Arguments m_skip_next_inject_reload {_} _.
Arguments m_shared_js_target_id {_} _.
Arguments shared_js_session {_} _.
Arguments i_contexts {_} _.
Arguments i_browser {_} _.

Section inject.
  Context {B : Type}.
  Implicit Types i : injector B.
  Abbreviation M := (SM (injector B)).
Definition set_document_script x i : injector B := let 'Injector _ b c d e f := i in Injector x b c d e f.
Definition set_skip x i : injector B := let 'Injector a _ c d e f := i in Injector a x c d e f.
Definition set_target x i : injector B := let 'Injector a b _ d e f := i in Injector a b x d e f.
Definition set_session x i : injector B := let 'Injector a b c _ e f := i in Injector a b c x e f.
Definition add_context x i : injector B := let 'Injector a b c d e f := i in Injector a b c d (e ++ [x]) f.
Definition set_browser x i : injector B := let 'Injector a b c d e _ := i in Injector a b c d e x.

  (** What the browser answers to a command, and does. *)
  Variable cdp : FfiBinder.command → SM B json.
  Variables preload_path api_token version : bytes.
  (** The enabled plugins, and whether the binder exists. *)
  Variable enabled : list plugin_t.
  Variable has_binder : bool.
  Variable isolated_ctx_script : bytes.

Definition ask (method : bytes) (params : json) (session : option bytes) : M json := λ i,
  let '(r, b) := cdp (FfiBinder.Command method params session) (i_browser i) in (r, set_browser b i).
(** [cdp->send]: to the session of the main page. *)
Definition send_page (method : bytes) (params : json) : M json := s ← gets shared_js_session; ask method params (Some s).

Definition add_binding (name : bytes) : M () := _ ← send_page #"Runtime.addBinding" (jobj [(#"name", JStr name)]); mret tt.
Definition insert_ipc : M () :=
  _ ← send_page #"Runtime.enable" (JObj []);
  _ ← add_binding binding_name;
  _ ← add_binding extension_binding_name;
  add_binding cdp_proxy_binding_name.

(** A world for one plugin; a failure does not keep the others from theirs. *)
Definition create_world (session : bytes) (p : plugin_t) : M () :=
  swallow (
    frame_result ← send_page #"Page.getFrameTree" (JObj []);
    frame_id ← lift (t ← mut_idx #"frameTree" frame_result; f ← mut_idx #"frame" t; x ← mut_idx #"id" f; get_string x);
    world_result ← send_page #"Page.createIsolatedWorld"
      (jobj [(#"frameId", JStr frame_id); (#"worldName", JStr (#"millennium-" ++ plugin_name p)); (#"grantUniversalAccess", JBool false)]);
    ctx_id ← lift (j ← mut_idx #"executionContextId" world_result; get_int j);
    _ ← send_page #"Runtime.evaluate" (jobj [(#"expression", JStr isolated_ctx_script); (#"contextId", JInt ctx_id)]);
    if has_binder then modify (add_context (plugin_name p, ctx_id, session)) else mret tt).
Definition create_isolated_worlds : M () :=
  session ← gets shared_js_session;
  if bytes_eqb isolated_ctx_script [] then mret tt else for_each (create_world session) enabled.

(** The page is asked to reload until the answer is empty. *)
Fixpoint reload_loop (fuel : nat) : M () :=
  match fuel with
  | O => lift NoFuel
  | S fuel =>
      result ← send_page #"Page.reload" (jobj [(#"ignoreCache", JBool true)]);
      if json_empty result then mret tt else reload_loop fuel
  end.
Definition reload (fuel : nat) (reload_frontend : bool) : M () :=
  if reload_frontend then
    _ ← modify (set_skip true);
    reloaded ← attempt (reload_loop fuel);
    match reloaded with
    | inl _ => create_isolated_worlds
    | inr _ => modify (set_skip false)
    end
  else create_isolated_worlds.

(** Up to three attempts; an answer without an identifier is one too. *)
Definition add_script_once (source : bytes) : M bool :=
  catching (
    result ← send_page #"Page.addScriptToEvaluateOnNewDocument" (jobj [(#"source", JStr source)]);
    match jget #"identifier" result with
    | Some (JStr x) => _ ← modify (set_document_script x); mret true
    | _ => mret false
    end) (λ _, mret false).
Fixpoint add_script (attempts : nat) (source : bytes) : M () :=
  match attempts with
  | O => mret tt
  | S attempts => done ← add_script_once source; if (done : bool) then mret tt else add_script attempts source
  end.
Definition insert_millennium : M () :=
  _ ← send_page #"Page.enable" (JObj []);
  old ← gets document_script_id;
  _ ← (if bytes_eqb old [] then mret tt else
       _ ← swallow (_ ← send_page #"Page.removeScriptToEvaluateOnNewDocument" (jobj [(#"identifier", JStr old)]); mret tt);
       modify (set_document_script []));
  add_script 3 (cdp_generate_shim_module preload_path api_token version enabled).

(** The job that runs once the backends are ready. *)
Definition inject_job (fuel : nat) (reload_frontend : bool) : M () :=
  _ ← insert_ipc;
  _ ← insert_millennium;
  reload fuel reload_frontend.

(** ** Connecting *)

(** The first target with the title of the main page. *)
Fixpoint find_shared (targets : list json) : outcome (option json) :=
  match targets with
  | [] => Ok None
  | t :: targets => title ← value_string #"title" [] t; if bytes_eqb title #"SharedJSContext" then Ok (Some t) else find_shared targets
  end.
(** The targets are polled until the main page is there. *)
Fixpoint find_page (fuel : nat) : M () :=
  match fuel with
  | O => lift NoFuel
  | S fuel =>
      targets ← ask #"Target.getTargets" (JObj []) None;
      match jget #"targetInfos" targets with
      | Some (JArr l) =>
          found ← lift (find_shared l);
          match found with
          | Some t =>
              target_id ← lift (x ← at_ #"targetId" t; get_string x);
              _ ← modify (set_target target_id);
              result ← ask #"Target.attachToTarget" (jobj [(#"targetId", JStr target_id); (#"flatten", JBool true)]) None;
              session ← lift (x ← at_ #"sessionId" result; get_string x);
              modify (set_session session)
          | None => find_page fuel
          end
      | _ => find_page fuel
      end
  end.
(** [m_skip_next_inject_reload.exchange(false)] decides about the reload. *)
Definition should_reload : M bool := skip ← gets m_skip_next_inject_reload; _ ← modify (set_skip false); mret (negb skip).
Definition init_devtools (fuel : nat) : M bool := _ ← find_page fuel; should_reload.

(** A connection: the loader keeps what it knows, the browser may be another
    one. *)
Definition connected_job (polls fuel : nat) : M () :=
  r ← init_devtools polls; inject_job fuel r.
End inject.

(** ** The scripts of the page *)

Definition add_method : bytes := #"Page.addScriptToEvaluateOnNewDocument".
Definition remove_method : bytes := #"Page.removeScriptToEvaluateOnNewDocument".

(** What the debugger protocol promises about scripts for new documents: a
    script that is added gets a name of its own, a registered script can be
    removed, a command that fails changes nothing, and nothing else touches
    them. *)
Class PageScripts {B} (cdp : FfiBinder.command → SM B json) := {
  registered : B → list (bytes * bytes);
  add_registers src s b :
    let '(r, b') := cdp (FfiBinder.Command add_method (jobj [(#"source", JStr src)]) s) b in
    match r with
    | Ok j => ∃ x, jget #"identifier" j = Some (JStr x) ∧ x ≠ [] ∧ x ∉ (registered b).*1 ∧ registered b' = registered b ++ [(x, src)]
    | _ => registered b' = registered b
    end;
  remove_unregisters x s b :
    let '(r, b') := cdp (FfiBinder.Command remove_method (jobj [(#"identifier", JStr x)]) s) b in
    match r with
    | Ok _ => registered b' = List.filter (λ p, negb (bytes_eqb p.1 x)) (registered b)
    | _ => registered b' = registered b ∧ x ∉ (registered b).*1
    end;
  others_keep method params s b : method ≠ add_method → method ≠ remove_method →
    registered (cdp (FfiBinder.Command method params s) b).2 = registered b;
}.

Section unique.
  Context {B : Type} (cdp : FfiBinder.command → SM B json) `{!PageScripts cdp}.
  Variables preload_path api_token version : bytes.
  Variable enabled : list plugin_t.
  Variable has_binder : bool.
  Variable isolated_ctx_script : bytes.
  Implicit Types i : injector B.
  Abbreviation M := (SM (injector B)).

(** The page has no script of the loader, or the one the loader knows. *)
Definition owned i : Prop :=
  registered (i_browser i) = [] ∨ (document_script_id i ≠ [] ∧ ∃ src, registered (i_browser i) = [(document_script_id i, src)]).

(** The scripts and what the loader knows of them stay, however a run ends. *)
Definition scripts_kept {A} (m : M A) : Prop := ∀ i,
  registered (i_browser (m i).2) = registered (i_browser i) ∧ document_script_id (m i).2 = document_script_id i.

Lemma kept_ret {A} (a : A) : scripts_kept (mret a).
Proof. by intros i. Qed.
Lemma kept_lift {A} (o : outcome A) : scripts_kept (lift o).
Proof. by intros i. Qed.
Lemma kept_gets {A} (f : injector B → A) : scripts_kept (gets f).
Proof. by intros i. Qed.
Lemma kept_bind {A C} (m : M A) (k : A → M C) : scripts_kept m → (∀ a, scripts_kept (k a)) → scripts_kept (m ≫= k).
Proof.
  intros Hm Hk i. rewrite bind_run. specialize (Hm i). destruct (m i) as [[a|e| |] i1]; cbn [snd] in *; try done.
  destruct (Hk a i1) as [-> ->]. done.
Qed.
Lemma kept_catching {A} (m : M A) h : scripts_kept m → (∀ e, scripts_kept (h e)) → scripts_kept (catching m h).
Proof.
  intros Hm Hh i. unfold catching. specialize (Hm i). destruct (m i) as [[a|e| |] i1]; cbn [snd] in *; try done. destruct (Hh e i1) as [-> ->]. done.
Qed.
Lemma kept_swallow (m : M ()) : scripts_kept m → scripts_kept (swallow m).
Proof. intros Hm i. unfold swallow. specialize (Hm i). by destruct (m i) as [[a|e| |] i1]. Qed.
Lemma page_kept_modify (f : injector B → injector B) :
  (∀ i, i_browser (f i) = i_browser i ∧ document_script_id (f i) = document_script_id i) → scripts_kept (modify f).
Proof. intros Hf i. destruct (Hf i) as [E1 E2]. cbn. by rewrite E1. Qed.
Lemma kept_for_each {A} (f : A → M ()) l : (∀ x, scripts_kept (f x)) → scripts_kept (for_each f l).
Proof. intros Hf. induction l; cbn [for_each]; [apply kept_ret|]. by apply kept_bind. Qed.
Lemma kept_ask method params s : method ≠ add_method → method ≠ remove_method → scripts_kept (ask cdp method params s).
Proof.
  intros Ha Hr i. unfold ask. pose proof (others_keep method params s (i_browser i) Ha Hr) as Hk. destruct (cdp _ _) as [r b]. by destruct i.
Qed.
Lemma kept_send method params : method ≠ add_method → method ≠ remove_method → scripts_kept (send_page cdp method params).
Proof. intros Ha Hr. apply kept_bind; [apply kept_gets|]. intros s. by apply kept_ask. Qed.

#[local] Hint Extern 0 (_ ≠ _) => (apply bytes_eqb_false; reflexivity) : kept.
#[local] Hint Resolve kept_ret kept_lift kept_gets kept_send kept_ask : kept.
Ltac kept := repeat first
  [ progress intros
  | solve [eauto with kept]
  | apply page_kept_modify; by intros []
  | apply kept_bind | apply kept_catching | apply kept_swallow | apply kept_for_each
  | match goal with |- scripts_kept (match ?x with _ => _ end) => destruct x end
  | progress cbn beta iota zeta ].

Lemma page_kept_ipc : scripts_kept (insert_ipc cdp).
Proof. unfold insert_ipc, add_binding. kept. Qed.
Lemma kept_worlds : scripts_kept (create_isolated_worlds cdp enabled has_binder isolated_ctx_script).
Proof. unfold create_isolated_worlds, create_world. kept. Qed.
Lemma kept_reload_loop fuel : scripts_kept (reload_loop cdp fuel).
Proof. induction fuel; cbn [reload_loop]; kept. Qed.
Lemma kept_reload fuel r : scripts_kept (reload cdp enabled has_binder isolated_ctx_script fuel r).
Proof. pose proof kept_worlds. pose proof (kept_reload_loop fuel). unfold reload, attempt. kept. Qed.
Lemma kept_page fuel : scripts_kept (find_page cdp fuel).
Proof. induction fuel; cbn [find_page]; kept. Qed.
Lemma kept_connect polls : scripts_kept (init_devtools cdp polls).
Proof. pose proof (kept_page polls). unfold init_devtools, should_reload. kept. Qed.

Lemma owned_kept {A} (m : M A) i : scripts_kept m → owned i → owned (m i).2.
Proof. intros Hm. destruct (Hm i) as [E1 E2]. unfold owned. by rewrite E1, E2. Qed.

(** Adding to a page without a script. *)
Lemma add_once_owned src i : registered (i_browser i) = [] →
  let r := add_script_once cdp src i in
  (r.1 = Ok true ∧ document_script_id r.2 ≠ [] ∧ registered (i_browser r.2) = [(document_script_id r.2, src)]) ∨
  (r.1 ≠ Ok true ∧ registered (i_browser r.2) = []).
Proof.
  intros Hi. unfold add_script_once, catching, send_page. rewrite bind_run, bind_run. cbn [gets]. unfold ask.
  pose proof (add_registers src (Some (shared_js_session i)) (i_browser i)) as Ha. fold add_method.
  destruct i as [d k t ss cs b0]. cbn [i_browser shared_js_session set_browser] in *.
  destruct (cdp _ b0) as [[j|e| |] b]; cbn beta iota in *; [|by right; split; [|rewrite <- Hi]..].
  destruct Ha as (x & Hx & Hne & _ & Hreg). rewrite Hx. left. rewrite Hi in Hreg. done.
Qed.

Lemma add_script_owned attempts src : ∀ i, registered (i_browser i) = [] →
  let r := add_script cdp attempts src i in
  (document_script_id r.2 ≠ [] ∧ registered (i_browser r.2) = [(document_script_id r.2, src)]) ∨ registered (i_browser r.2) = [].
Proof.
  induction attempts as [|n IH]; intros i Hi; cbn [add_script]; [by right|]. rewrite bind_run.
  destruct (add_once_owned src i Hi) as [(E & Hd & Hr)|[E Hr]]; destruct (add_script_once cdp src i) as [[[]|e| |] i1]; cbn [fst snd] in *; try done; auto.
Qed.

(** The old script is gone before a new one is added. *)
Lemma remove_old i : owned i → document_script_id i ≠ [] →
  registered (i_browser (swallow (_ ← send_page cdp remove_method (jobj [(#"identifier", JStr (document_script_id i))]); mret tt) i).2) = [].
Proof.
  intros Hi Hd. unfold swallow, send_page. rewrite bind_run, bind_run. cbn [gets]. unfold ask.
  pose proof (remove_unregisters (document_script_id i) (Some (shared_js_session i)) (i_browser i)) as Hr.
  destruct (cdp _ (i_browser i)) as [r b]. assert (registered b = []) as Hb; [|destruct i, r; cbn [snd] in *; done].
  destruct Hi as [Hi|(_ & src & Hi)]; rewrite Hi in Hr; cbn [List.filter fst] in Hr; rewrite ?bytes_eqb_refl in Hr; destruct r; try naive_solver;
    destruct Hr as [_ []]; left.
Qed.

Lemma insert_owned i :
  owned i → let r := insert_millennium cdp preload_path api_token version enabled i in
  owned r.2 ∧ (r.1 = Ok tt → registered (i_browser r.2) ≠ [] →
    registered (i_browser r.2) = [(document_script_id r.2, cdp_generate_shim_module preload_path api_token version enabled)]).
Proof.
  intros Hi. unfold insert_millennium. rewrite bind_run.
  pose proof (kept_send #"Page.enable" (JObj []) ltac:(by apply bytes_eqb_false) ltac:(by apply bytes_eqb_false) i) as [K1 K2].
  destruct (send_page cdp #"Page.enable" (JObj []) i) as [r i1]. cbn [snd] in K1, K2.
  assert (owned i1) as Hi1 by (unfold owned; by rewrite K1, K2). clear Hi K1 K2. destruct r; try done. rewrite bind_run. cbn [gets]. rewrite bind_run.
  set (src := cdp_generate_shim_module _ _ _ _). assert (∀ i2, registered (i_browser i2) = [] →
    let r := add_script cdp 3 src i2 in owned r.2 ∧ (r.1 = Ok tt → registered (i_browser r.2) ≠ [] → registered (i_browser r.2) = [(document_script_id r.2, src)])) as Hadd.
  { intros i2 H2. destruct (add_script_owned 3 src i2 H2) as [[Hd Hr]|Hr]; split; try done; [right; eauto|by left]. }
  destruct (bytes_eqb (document_script_id i1) []) eqn:E.
  - apply Hadd. destruct Hi1 as [?|[Hd _]]; [done|]. apply bytes_eqb_true in E. done.
  - apply bytes_eqb_false in E. rewrite bind_run. pose proof (remove_old i1 Hi1 E) as Hr.
    pose proof (swallow_no_throw (_ ← send_page cdp remove_method (jobj [(#"identifier", JStr (document_script_id i1))]); mret tt) i1) as Hn. fold remove_method.
    destruct (swallow _ i1) as [[[]|e| |] i2]; cbn [fst snd modify] in *.
    + apply Hadd. by destruct i2.
    + by edestruct Hn.
    + split; [by left|done].
    + split; [by left|done].
Qed.

Abbreviation job := (inject_job cdp preload_path api_token version enabled has_binder isolated_ctx_script).

Lemma job_owned fuel r i : owned i →
  owned (job fuel r i).2 ∧ ((job fuel r i).1 = Ok tt → registered (i_browser (job fuel r i).2) ≠ [] →
    registered (i_browser (job fuel r i).2) = [(document_script_id (job fuel r i).2, cdp_generate_shim_module preload_path api_token version enabled)]).
Proof.
  intros Hi. unfold inject_job. rewrite bind_run. pose proof (owned_kept _ i page_kept_ipc Hi) as H1.
  destruct (insert_ipc cdp i) as [[a|e| |] i1]; cbn [fst snd] in *; try done. rewrite bind_run. destruct (insert_owned i1 H1) as [H2 H2'].
  destruct (insert_millennium _ _ _ _ _ i1) as [[[]|e| |] i2]; cbn [fst snd] in *; try done.
  destruct (kept_reload fuel r i2) as [K1 K2]. rewrite K1, K2. split; [|intros _; by apply H2']. unfold owned. by rewrite K1, K2.
Qed.

(** A job of the loader, or a connection to a page that is new. *)
Inductive inject_op := Job (fuel : nat) (reload_frontend : bool) | Connection (b : B) (polls fuel : nat).
Definition new_page (op : inject_op) : Prop := match op with Connection b _ _ => registered b = [] | _ => True end.
Definition inject_step i (op : inject_op) : injector B :=
  match op with
  | Job fuel r => (job fuel r i).2
  | Connection b polls fuel => (connected_job cdp preload_path api_token version enabled has_binder isolated_ctx_script polls fuel (set_browser b i)).2
  end.

Lemma inject_step_owned i op : new_page op → owned i → owned (inject_step i op).
Proof.
  destruct op as [fuel r|b polls fuel]; cbn [inject_step new_page]; intros Hb Hi; [by apply job_owned|].
  assert (owned (set_browser b i)) as H1 by (left; by destruct i). unfold connected_job. rewrite bind_run. pose proof (owned_kept _ _ (kept_connect polls) H1) as H2.
  destruct (init_devtools cdp polls (set_browser b i)) as [[r|e| |] i1]; cbn [snd] in *; try done. by apply job_owned.
Qed.
End unique.


(** A browser that names a script by something longer than every name it has,
    and fails on a frame tree. *)
Definition demo_page_cdp (c : FfiBinder.command) : SM (list (bytes * bytes)) json := λ l,
  if bytes_eqb (c_method c) add_method then
    match jget #"source" (c_params c) with
    | Some (JStr src) => let x := x41 :: concat l.*1 in (Ok (jobj [(#"identifier", JStr x)]), l ++ [(x, src)])
    | _ => (Throw #"source", l)
    end
  else if bytes_eqb (c_method c) remove_method then
    match jget #"identifier" (c_params c) with
    | Some (JStr x) =>
        if bool_decide (x ∈ l.*1) then (Ok (JObj []), List.filter (λ p, negb (bytes_eqb p.1 x)) l) else (Throw #"unknown", l)
    | _ => (Throw #"identifier", l)
    end
  else if bytes_eqb (c_method c) #"Page.getFrameTree" then (Throw #"no frame", l)
  else (Ok (JObj []), l).

Lemma concat_longer (x : bytes) l : x ∈ l → (length x <= length (concat l))%nat.
Proof. induction 1 as [x l|x y l _ IH]; cbn [concat]; rewrite length_app; lia. Qed.

#[export] Instance demo_page_scripts : PageScripts demo_page_cdp.
Proof.
  refine {| registered l := l |}.
  - intros src s b. unfold demo_page_cdp. cbn [c_method c_params]. rewrite bytes_eqb_refl. eexists. split; [reflexivity|]. split; [done|].
    split; [|done]. intros Hin%concat_longer. cbn [length] in Hin. lia.
  - intros x s b. unfold demo_page_cdp. cbn [c_method c_params]. rewrite bytes_eqb_refl. change (bytes_eqb remove_method add_method) with false. cbn iota.
    change (jget #"identifier" _) with (Some (JStr x)). cbn iota. by case_bool_decide.
  - intros method params s b Ha Hr. unfold demo_page_cdp. cbn [c_method]. apply bytes_eqb_false in Ha, Hr. rewrite Ha, Hr. cbn iota. by destruct (bytes_eqb method #"Page.getFrameTree").
Defined.


(** ** Reloads *)

(** A connection right after one that reloaded the page does not reload it
    again. *)
Theorem reload_not_repeated {B} (cdp : FfiBinder.command → SM B json) polls (i : injector B) r i' :
  m_skip_next_inject_reload i = true → init_devtools cdp polls i = (Ok r, i') → r = false ∧ m_skip_next_inject_reload i' = false.
Proof.
  intros Hs (u & i1 & Hf & Hr)%bind_Ok_inv.
  assert (m_skip_next_inject_reload i1 = true) as H1.
  { assert (∀ method params s i, m_skip_next_inject_reload (ask cdp method params s i).2 = m_skip_next_inject_reload i) as Ha.
    { intros method params s i0. unfold ask. destruct (cdp _ _). by destruct i0. }
    revert i Hs Hf. induction polls as [|n IH]; intros i Hs; cbn [find_page]; [done|]. intros (t & i2 & E & Hf)%bind_Ok_inv.
    pose proof (Ha #"Target.getTargets" (JObj []) None i) as H2. rewrite E in H2. cbn [snd] in H2. rewrite Hs in H2.
    destruct (jget #"targetInfos" t) as [[| | | | |l|]|]; try by eapply IH. apply bind_Ok_inv in Hf as (found & i3 & [= _ <-] & Hf).
    destruct found as [x|]; [|by eapply IH]. apply bind_Ok_inv in Hf as (tid & i3 & [= _ <-] & Hf). apply bind_Ok_inv in Hf as (v & i3 & [= _ <-] & Hf).
    apply bind_Ok_inv in Hf as (res & i4 & E4 & Hf). match type of E4 with ask _ ?m ?p ?s ?i0 = _ => pose proof (Ha m p s i0) as H4 end.
    rewrite E4 in H4. cbn [snd] in H4. apply bind_Ok_inv in Hf as (ses & i5 & [= _ <-] & [= _ <-]). trans (m_skip_next_inject_reload i4); [by destruct i4|]. rewrite H4. by destruct i2. }
  unfold should_reload in Hr. rewrite bind_run in Hr. cbn [gets] in Hr. rewrite bind_run, H1 in Hr. injection Hr as <- <-. by destruct i1.
Qed.

(** The reload is repeated for as long as the debugger's answer is not empty:
    no bound makes the loop end. *)
Theorem reload_can_hang (fuel : nat) (i : injector ()) :
  (reload_loop (λ _ b, (Ok (jobj [(#"loaderId", JStr #"1")]), b)) fuel i).1 = NoFuel.
Proof. revert i. induction fuel as [|n IH]; intros i; cbn [reload_loop]; [done|]. rewrite bind_run. unfold send_page, ask. rewrite bind_run. cbn [gets]. apply IH. Qed.
