(* ===== verification/Backend.v ===== *)
(** * Backend: the plugin loader and its backend processes

    [engine/backend_mgr.cc] and the parts of [engine/plugin_loader.cc] that
    start and stop plugins: the table of child processes, the list of enabled
    plugins, what is served and injected for them.  The settings are a client
    of [SettingsStore]; the operating system's answers when a child is started
    are the [spawn_os] of [Process]. *)

From S2P Require Import Prelude State Json StarFile Css Ring Recorder MepProtocol Config.
From S2P Require Import PluginConfig CdpClient Rpc Patches Process Lifecycle CoreIpc Url HttpHooks.

(** A running child: its [init] parameters, its state, whether the request
    handler is installed, and the messages sent to it after [init]. *)
Record child_proc := ChildProc {
  cp_init : json;
  cp_child : child;
  cp_handled : bool;
  cp_messages : list json;
}.

(** The callbacks that wait for the backends: the Steam hooks, and the
    injection of the frontend, which a thread pool runs. *)
Inductive ready_cb := SteamHooks | InjectFrontend (reload_frontend : bool).
Definition run_ready_cb (cb : ready_cb) : SM (list ready_cb) () := modify (λ l, l ++ [cb]).

Record loader (Store Re L : Type) := Loader {
  l_ipc : ipc_world Store;
  l_dispatcher : dispatcher ready_cb (list ready_cb);
  m_processes : gmap bytes child_proc;
  m_has_shutdown : bool;
  l_spawns : nat;
  l_handler : bool;
  l_patches : registry;
  l_patch_notices : nat;
  l_hooks : @theme_webkit_mgr Re;
  l_webkit : list webkit_store_item;
  m_plugin_ptr : list plugin_t;
  m_enabledPluginsPtr : list plugin_t;
  l_crashes : crash_event_bus L;
  l_loggers : list (plugin_logger L);
  l_files : gmap bytes bytes;
}.
Arguments Loader {_ _ _} _ _ _ _ _ _ _ _ _ _ _ _ _ _ _.
Arguments l_ipc {_ _ _} _.
Arguments l_dispatcher {_ _ _} _.
Arguments m_processes {_ _ _} _.
Arguments m_has_shutdown {_ _ _} _.
Arguments l_spawns {_ _ _} _.
Arguments l_handler {_ _ _} _.
Arguments l_patches {_ _ _} _.
Arguments l_patch_notices {_ _ _} _.
Arguments l_hooks {_ _ _} _.
Arguments l_webkit {_ _ _} _.
Arguments m_plugin_ptr {_ _ _} _.
Arguments m_enabledPluginsPtr {_ _ _} _.
Arguments l_crashes {_ _ _} _.
Arguments l_loggers {_ _ _} _.
Arguments l_files {_ _ _} _.

Section setters.
  Context {Store Re L : Type}.
  Implicit Types s : loader Store Re L.
  Implicit Types X : list bytes.
Definition set_ipc x s : loader Store Re L := let 'Loader _ b c d e f g h i j k l m n o := s in Loader x b c d e f g h i j k l m n o.
Definition set_dispatcher x s : loader Store Re L := let 'Loader a _ c d e f g h i j k l m n o := s in Loader a x c d e f g h i j k l m n o.
Definition set_processes x s : loader Store Re L := let 'Loader a b _ d e f g h i j k l m n o := s in Loader a b x d e f g h i j k l m n o.
Definition set_shutdown s : loader Store Re L := let 'Loader a b c _ e f g h i j k l m n o := s in Loader a b c true e f g h i j k l m n o.
Definition count_spawn s : loader Store Re L := let 'Loader a b c d e f g h i j k l m n o := s in Loader a b c d (S e) f g h i j k l m n o.
Definition set_handler s : loader Store Re L := let 'Loader a b c d e _ g h i j k l m n o := s in Loader a b c d e true g h i j k l m n o.
Definition set_patches x s : loader Store Re L := let 'Loader a b c d e f _ h i j k l m n o := s in Loader a b c d e f x h i j k l m n o.
Definition notify_patches s : loader Store Re L := let 'Loader a b c d e f g h i j k l m n o := s in Loader a b c d e f g (S h) i j k l m n o.
Definition set_hooks x s : loader Store Re L := let 'Loader a b c d e f g h _ j k l m n o := s in Loader a b c d e f g h x j k l m n o.
Definition set_webkit x s : loader Store Re L := let 'Loader a b c d e f g h i _ k l m n o := s in Loader a b c d e f g h i x k l m n o.
Definition set_snapshots x y s : loader Store Re L := let 'Loader a b c d e f g h i j _ _ m n o := s in Loader a b c d e f g h i j x y m n o.
Definition set_crashes x s : loader Store Re L := let 'Loader a b c d e f g h i j k l _ n o := s in Loader a b c d e f g h i j k l x n o.
Definition set_loggers x s : loader Store Re L := let 'Loader a b c d e f g h i j k l m _ o := s in Loader a b c d e f g h i j k l m x o.
Definition set_files x s : loader Store Re L := let 'Loader a b c d e f g h i j k l m n _ := s in Loader a b c d e f g h i j k l m n x.
End setters.

(** [p.parent_path()] of a POSIX path: the last name and the separators in
    front of it are cut off, but not the root. *)
Fixpoint rev_drop_name (r : bytes) : bytes :=
  match r with [] => [] | c :: r' => if Byte.eqb c "/"%byte then r else rev_drop_name r' end.
Fixpoint rev_drop_slashes (r : bytes) : bytes :=
  match r with [] => [] | c :: r' => if Byte.eqb c "/"%byte then rev_drop_slashes r' else r end.
Definition parent_path (p : bytes) : bytes :=
  let r := rev_drop_name (reverse p) in
  match rev_drop_slashes r, r with
  | [], _ :: _ => #"/"
  | r', _ => reverse r'
  end.

Section backend.
  Context `{T : target} `{SettingsStore Store} {Re L : Type}.
  (** The plugins on disk, and file contents. *)
  Variable all_plugins : list plugin_t.
  Variable read_file : bytes → option bytes.
  Variable file_exists : bytes → bool.
  Variables steam_path plugins_path : bytes.
  Variable crash_dump_dir : bytes → bytes.
  (** The outcome of each start of a child. *)
  Variable os : nat → bytes → spawn_os.
  (** [PluginProcess::call] of a running child. *)
  Variable child_call : bytes → bytes → json → outcome json.
  (** Whether the debugger is connected. *)
  Variable connected : bool.
  Abbreviation M := (SM (loader Store Re L)).
  Implicit Types s : loader Store Re L.
  Implicit Types X : list bytes.

Definition on_dispatcher {A} (m : SM (dispatcher ready_cb (list ready_cb)) A) : M A := λ s,
  let '(r, d) := m (l_dispatcher s) in (r, set_dispatcher d s).

Definition store_of s : Store := w_store (l_ipc s).

Definition enabled_names s : outcome (list bytes) :=
  l ← get_enabled_backends (store_of s) all_plugins; Ok (map plugin_name l).

(** ** backend_manager *)

Definition asset_json (x : bytes * AssetEntry) : json :=
  jobj [(#"name", JStr x.1); (#"file_offset", JInt (file_offset x.2)); (#"compressed_length", JInt (compressed_length x.2));
        (#"uncompressed_length", JInt (uncompressed_length x.2))].

(** What a child is told about itself. *)
Definition init_params (plugin : plugin_t) : outcome json :=
  match format plugin with
  | loose_files =>
      Ok (jobj [(#"plugin_name", JStr (plugin_name plugin));
                (#"backend_dir", JStr (parent_path (plugin_backend_dir plugin)));
                (#"backend_file", JStr (plugin_backend_dir plugin));
                (#"steam_path", JStr steam_path);
                (#"crash_dump_dir", JStr (crash_dump_dir (plugin_name plugin)));
                (#"plugin_format", JInt 0)])
  | star =>
      index ← star_read_asset_index (read_file (plugin_base_dir plugin));
      Ok (jobj ([(#"plugin_name", JStr (plugin_name plugin));
                 (#"backend_file", JStr (plugin_base_dir plugin));
                 (#"steam_path", JStr steam_path);
                 (#"crash_dump_dir", JStr (crash_dump_dir (plugin_name plugin)))] ++
                (if bytes_eqb (backend_entry plugin) [] then [] else [(#"backend_entry", JStr (backend_entry plugin))]) ++
                [(#"asset_index", JArr (map asset_json (map_to_list index)));
                 (#"plugin_format", JInt 1)]))
  end.

Definition spawn_plugin (plugin : plugin_t) : M bool :=
  let name := plugin_name plugin in
  init ← lift (init_params plugin);
  n ← gets l_spawns;
  handled ← gets l_handler;
  _ ← modify count_spawn;
  match spawn_plugin_process (W:=()) (os n name) name init (λ _ _ _, mret JNull) tt with
  | None =>
      enabled ← gets enabled_names;
      _ ← on_dispatcher (backend_loaded_event_hdlr run_ready_cb enabled (Report name BACKEND_LOAD_FAILED));
      mret false
  | Some _ =>
      _ ← modify (λ s, set_processes (<[name := ChildProc init Alive handled []]> (m_processes s)) s);
      mret true
  end.

(** [is_alive] collects the status of a dead child. *)
Definition is_any_backend_running (name : bytes) : M bool := λ s,
  match m_processes s !! name with
  | Some p =>
      let '(alive, c) := is_alive (cp_child p) in
      (Ok alive, set_processes (<[name := ChildProc (cp_init p) c (cp_handled p) (cp_messages p)]> (m_processes s)) s)
  | None => (Ok false, s)
  end.

(** The loop stops at the first child that is alive. *)
Fixpoint all_stopped (names : list bytes) : M bool :=
  match names with
  | [] => mret true
  | name :: names => alive ← is_any_backend_running name; if (alive : bool) then mret false else all_stopped names
  end.
Definition has_all_backends_stopped : M bool := names ← gets (λ s, (map_to_list (m_processes s)).*1); all_stopped names.

(** The process object's destructor ends the child. *)
Definition destroy_plugin (name : bytes) (isShuttingDown : bool) : M bool :=
  process ← gets (λ s, m_processes s !! name);
  _ ← match process with
      | Some _ =>
          _ ← modify (λ s, set_processes (delete name (m_processes s)) s);
          _ ← modify (λ s, set_patches (patch_registry_remove name (l_patches s)) s);
          modify notify_patches
      | None => mret tt
      end;
  enabled ← gets enabled_names;
  _ ← on_dispatcher (backend_unloaded_event_hdlr run_ready_cb enabled name isShuttingDown);
  mret true.

Definition destroy_all_plugins (isShuttingDown : bool) : M bool :=
  names ← gets (λ s, (map_to_list (m_processes s)).*1);
  _ ← for_each (λ name, _ ← destroy_plugin name isShuttingDown; mret tt) names;
  mret true.

Definition shutdown : M () := modify (λ s, if m_has_shutdown s then s else set_processes ∅ (set_shutdown s)).

Definition has_any_backends s : bool := negb (bool_decide (m_processes s = ∅)).

Definition not_running (name : bytes) : json :=
  jobj [(#"success", JBool false); (#"error", JStr (#"plugin not running: " ++ name))].

Definition evaluate (name : bytes) (script : json) : M json :=
  process ← gets (λ s, m_processes s !! name);
  match process with
  | None => mret (not_running name)
  | Some _ =>
      catching (lift (child_call name #"evaluate" script))
        (λ e, mret (jobj [(#"success", JBool false); (#"error", JStr e)]))
  end.

Definition notify_process (name method : bytes) (params : json) : M () :=
  modify (λ s, match m_processes s !! name with
               | Some p =>
                   let msgs := cp_messages p ++ [notify_msg method params] in
                   set_processes (<[name := ChildProc (cp_init p) (cp_child p) (cp_handled p) msgs]> (m_processes s)) s
               | None => s
               end).
Definition notify_frontend_loaded (name : bytes) : M () := notify_process name #"on_frontend_loaded" JNull.

Definition set_child_request_handler : M () :=
  modify (λ s, set_processes ((λ p, ChildProc (cp_init p) (cp_child p) true (cp_messages p)) <$> m_processes s) (set_handler s)).

(** ** plugin_loader *)

Definition install_handler : M () :=
  installed ← gets l_handler;
  if (installed : bool) then mret tt else set_child_request_handler.

(** Spawns a plugin's backend unless it runs. *)
Definition start_backend (plugin : plugin_t) : M () :=
  running ← is_any_backend_running (plugin_name plugin);
  if (running : bool) then mret tt else _ ← spawn_plugin plugin; mret tt.

Definition start_plugin_backends : M () :=
  _ ← install_handler;
  enabled ← gets m_enabledPluginsPtr;
  for_each start_backend enabled.

(** One packed plugin's scripts under the virtual host. *)
Definition register_resource (enabled : bool) (plugin : plugin_t) (c : network_hook_ctl Re) : network_hook_ctl Re :=
  match format plugin with
  | loose_files => c
  | star =>
      let base := m_ftp_url ++ #"star/" ++ plugin_name plugin ++ #"/" in
      let one (has : bool) (file : bytes) (section : star_js_section) c :=
        if has then
          if enabled then register_virtual_resource (base ++ file) (star_read_javascript (read_file (plugin_base_dir plugin)) section) c
          else unregister_virtual_resource (base ++ file) c
        else c in
      one (has_webkit_js plugin) #"webkit.js" webkit (one (has_frontend_js plugin) #"bundle.js" frontend c)
  end.

Definition register_packed_plugin_resources (plugins : list plugin_t) s : loader Store Re L :=
  let c := foldl (λ c p, register_resource (is_enabled (store_of s) (plugin_name p)) p c) (ctl (l_hooks s)) plugins in
  set_hooks (ThemeWebkit c (m_registered_hooks (l_hooks s))) s.

(** The scripts for web pages, one item for an enabled plugin that has one. *)
Definition webkit_item_of (plugin : plugin_t) : option webkit_store_item :=
  match format plugin with
  | star =>
      if has_webkit_js plugin then Some (StoreItem (plugin_name plugin) (path_join (path_join #"/star" (plugin_name plugin)) #"webkit.js") star)
      else None
  | loose_files =>
      let abs_path := path_join plugins_path (plugin_webkit_path plugin) in
      if file_exists abs_path then Some (StoreItem (plugin_name plugin) abs_path loose_files) else None
  end.

Definition setup_webkit_shims s : loader Store Re L :=
  set_webkit (omap webkit_item_of (List.filter (λ p, is_enabled (store_of s) (plugin_name p)) all_plugins)) s.

Definition inject_frontend_shims (reload_frontend : bool) : M () :=
  _ ← modify setup_webkit_shims;
  if negb connected then mret tt else
  enabled ← gets enabled_names;
  on_dispatcher (on_all_backends_ready run_ready_cb enabled (InjectFrontend reload_frontend)).

Definition set_enabled_setting (x : bytes * bool) : M () :=
  s ← gets store_of;
  s ← lift (set_plugin_enabled s x.1 x.2);
  modify (λ l, set_ipc (put_store s (l_ipc l)) l).

Definition disable_plugin (name : bytes) : M () :=
  _ ← destroy_plugin name false;
  modify (λ s, set_crashes (acknowledge_crash name (l_crashes s)) s).

(** The plugins just enabled, unless they run already. *)
Definition enable_plugin (x : bytes * bool) : M () :=
  if negb x.2 then mret tt else
  running ← is_any_backend_running x.1;
  if (running : bool) then mret tt else
  enabled ← gets m_enabledPluginsPtr;
  match find (λ p, bytes_eqb (plugin_name p) x.1) enabled with
  | Some plugin => _ ← spawn_plugin plugin; mret tt
  | None => mret tt
  end.

Definition set_plugins_enabled (plugins : list (bytes * bool)) (reload_frontend : bool) : M () :=
  _ ← for_each set_enabled_setting plugins;
  _ ← for_each disable_plugin (map fst (List.filter (λ x, negb x.2) plugins));
  _ ← modify (λ s, set_snapshots all_plugins (m_enabledPluginsPtr s) s);
  s ← gets store_of;
  backends ← lift (get_enabled_backends s all_plugins);
  _ ← modify (set_snapshots all_plugins backends);
  _ ← modify (register_packed_plugin_resources all_plugins);
  _ ← (if existsb snd plugins then _ ← install_handler; for_each enable_plugin plugins else mret tt);
  inject_frontend_shims reload_frontend.

Definition set_plugin_enable (name : bytes) (enabled reload_frontend : bool) : M () :=
  set_plugins_enabled [(name, enabled)] reload_frontend.

Definition loader_new (st : Store) (c : network_hook_ctl Re) : loader Store Re L :=
  Loader (IpcWorld st [] [] [] []) (dispatcher_new []) ∅ false 0 false ∅ 0 (ThemeWebkit c []) [] [] [] (CrashBus table_empty [] []) [] ∅.
End backend.

(** ** What an operation on some plugins leaves alone *)

Definition core (p : child_proc) : json * child * list json := (cp_init p, cp_child p, cp_messages p).

(** The process, the patches and the reports of the other plugins. *)
Definition only {Store Re L} (X : list bytes) (s s' : loader Store Re L) : Prop :=
  ∀ n, n ∉ X → core <$> m_processes s' !! n = core <$> m_processes s !! n ∧ l_patches s' !! n = l_patches s !! n ∧
    ∀ ev, Report n ev ∈ emittedPlugins (l_dispatcher s') ↔ Report n ev ∈ emittedPlugins (l_dispatcher s).

#[export] Instance only_preorder {Store Re L} X : PreOrder (@only Store Re L X).
Proof.
  split; [by intros s n Hn|]. intros a b c Hab Hbc n Hn. destruct (Hab n Hn) as (A1 & A2 & A3), (Hbc n Hn) as (B1 & B2 & B3).
  split; [congruence|]. split; [congruence|]. intros ev. by rewrite B3, A3.
Qed.

Lemma update_emitted enabled d : emittedPlugins (update run_ready_cb enabled d).2 = emittedPlugins d.
Proof.
  destruct enabled as [l|e| |]; try done. destruct (update_spec run_ready_cb (λ _ _, Ok_defined _) l d) as (d' & -> & He & _). done.
Qed.

Lemma emit_elem r r' l : r_name r' ≠ r_name r → r' ∈ emit r l ↔ r' ∈ l.
Proof.
  intros Hn. induction l as [|x l IH]; cbn [emit]; [rewrite list_elem_of_singleton; set_solver|].
  destruct (bytes_eqb _ _) eqn:E; rewrite ?elem_of_cons, ?IH; [|done]. apply bytes_eqb_true in E. naive_solver.
Qed.

Lemma emit_here r l : r ∈ emit r l.
Proof. induction l as [|x l IH]; cbn [emit]; [by left|]. destruct (bytes_eqb _ _); [by left|by right]. Qed.

Lemma filter_elem r name l : r_name r ≠ name → r ∈ List.filter (λ r, negb (bytes_eqb (r_name r) name)) l ↔ r ∈ l.
Proof.
  intros Hn%bytes_eqb_false. rewrite !list_elem_of_In, filter_In, Hn. tauto.
Qed.

Section frames.
  Context `{T : target} `{SettingsStore Store} {Re L : Type}.
  Variable all_plugins : list plugin_t.
  Variable read_file : bytes → option bytes.
  Variable file_exists : bytes → bool.
  Variables steam_path plugins_path : bytes.
  Variable crash_dump_dir : bytes → bytes.
  Variable os : nat → bytes → spawn_os.
  Variable connected : bool.
  Abbreviation M := (SM (loader Store Re L)).
  Implicit Types s : loader Store Re L.
  Implicit Types X : list bytes.

Lemma on_dispatcher_only X (m : SM (dispatcher ready_cb (list ready_cb)) ()) :
  (∀ d r, r_name r ∉ X → r ∈ emittedPlugins (m d).2 ↔ r ∈ emittedPlugins d) → steps (only X) (on_dispatcher m : M ()).
Proof.
  intros Hm s _. unfold on_dispatcher. specialize (Hm (l_dispatcher s)). destruct (m (l_dispatcher s)) as [r d]. intros n Hn.
  destruct s; cbn in *. split; [done|]. split; [done|]. intros ev. by apply Hm.
Qed.

Lemma loaded_only X enabled r : r_name r ∈ X → steps (only X) (on_dispatcher (backend_loaded_event_hdlr run_ready_cb enabled r) : M ()).
Proof.
  intros Hr. apply on_dispatcher_only. intros d r' Hr'. unfold backend_loaded_event_hdlr. run_simpl. rewrite update_emitted.
  cbn. apply emit_elem. intros E. by rewrite E in Hr'.
Qed.

Lemma unloaded_only X enabled name sd : name ∈ X → steps (only X) (on_dispatcher (backend_unloaded_event_hdlr run_ready_cb enabled name sd) : M ()).
Proof.
  intros Hr. apply on_dispatcher_only. intros d r' Hr'. unfold backend_unloaded_event_hdlr. run_simpl.
  assert (r_name r' ≠ name) as Hne by (by intros <-).
  destruct sd; cbn [negb]; [by apply filter_elem|]. rewrite update_emitted. by apply filter_elem.
Qed.

Lemma registered_only X enabled cb : steps (only X) (on_dispatcher (on_all_backends_ready run_ready_cb enabled cb) : M ()).
Proof. apply on_dispatcher_only. intros d r' _. unfold on_all_backends_ready. run_simpl. by rewrite update_emitted. Qed.

Lemma modify_only X (f : loader Store Re L → loader Store Re L) :
  (∀ s, m_processes (f s) = m_processes s ∧ l_patches (f s) = l_patches s ∧ l_dispatcher (f s) = l_dispatcher s) → steps (only X) (modify f).
Proof. intros Hf. apply steps_modify. intros s n _. destruct (Hf s) as (-> & -> & ->). done. Qed.

Lemma processes_only (X : list bytes) (f : gmap bytes child_proc → gmap bytes child_proc) s :
  (∀ n, n ∉ X → core <$> f (m_processes s) !! n = core <$> m_processes s !! n) → only X s (set_processes (f (m_processes s)) s).
Proof. intros Hf n Hn. specialize (Hf n Hn). by destruct s. Qed.

(** ** The operations of the loader *)

Abbreviation spawn := (spawn_plugin all_plugins read_file steam_path crash_dump_dir os : plugin_t → M bool).
Abbreviation enable := (enable_plugin all_plugins read_file steam_path crash_dump_dir os : bytes * bool → M ()).
Abbreviation disable := (disable_plugin all_plugins : bytes → M ()).
Abbreviation inject := (inject_frontend_shims all_plugins file_exists plugins_path connected : bool → M ()).

Lemma running_only X name : name ∈ X → steps (only X) (is_any_backend_running name : M bool).
Proof.
  intros Hx s _. unfold is_any_backend_running. destruct (m_processes s !! name) as [p|] eqn:E; [|reflexivity].
  destruct (is_alive _) as [a c]. cbn [snd]. apply (processes_only X (λ m, <[name:=_]> m)). intros n Hn. rewrite lookup_insert_ne; [done|by intros ->].
Qed.

Lemma spawn_only X plugin : plugin_name plugin ∈ X → steps (only X) (spawn plugin).
Proof.
  intros Hx. unfold spawn_plugin.
  assert (∀ init h, steps (only X) (modify (λ s, set_processes (<[plugin_name plugin := ChildProc init Alive h []]> (m_processes s)) s) : M ())) as Hp.
  { intros init h. apply steps_modify. intros s. apply (processes_only X (λ m, <[plugin_name plugin:=_]> m)).
    intros n Hn. rewrite lookup_insert_ne; [done|by intros <-]. }
  assert (steps (only X) (modify count_spawn : M ())) by (apply modify_only; by intros []).
  pose proof (λ e, loaded_only X e (Report (plugin_name plugin) BACKEND_LOAD_FAILED) Hx).
  steps.
Qed.

Lemma destroy_only X name sd : name ∈ X → steps (only X) (destroy_plugin all_plugins name sd : M bool).
Proof.
  intros Hx. unfold destroy_plugin. pose proof (λ e, unloaded_only X e name sd Hx).
  assert (steps (only X) (modify notify_patches : M ())) by (apply modify_only; by intros []).
  assert (steps (only X) (modify (λ s, set_processes (delete name (m_processes s)) s) : M ())).
  { apply steps_modify. intros s. apply (processes_only X (λ m : gmap bytes child_proc, delete name m)). intros n Hn. cbn beta. rewrite (lookup_delete_ne (m_processes s)); [done|by intros ->]. }
  assert (steps (only X) (modify (λ s, set_patches (patch_registry_remove name (l_patches s)) s) : M ())).
  { apply steps_modify. intros s n Hn. destruct s; cbn [l_patches set_patches m_processes l_dispatcher]. rewrite registry_remove_ne; [done|by intros ->]. }
  steps.
Qed.

Lemma disable_only X name : name ∈ X → steps (only X) (disable name).
Proof.
  intros Hx. unfold disable_plugin. apply steps_bind; [exact _|by apply destroy_only|]. intros _.
  apply modify_only. by intros [].
Qed.

Lemma enable_only X x : (x.2 = true → x.1 ∈ X) → steps (only X) (enable x).
Proof.
  intros Hx. unfold enable_plugin. destruct x as [name [|]]; cbn [fst snd negb] in *; [|apply steps_ret; exact _]. specialize (Hx eq_refl).
  apply steps_bind; [exact _|by apply running_only|]. intros [|]; [apply steps_ret; exact _|].
  apply steps_bind; [exact _|apply steps_gets; exact _|]. intros enabled.
  destruct (find _ enabled) as [plugin|] eqn:E; [|apply steps_ret; exact _].
  apply find_some in E as [_ E]. apply bytes_eqb_true in E. apply steps_bind; [exact _|apply spawn_only; by rewrite E|]. intros _. apply steps_ret; exact _.
Qed.

Lemma install_only X : steps (only X) (install_handler : M ()).
Proof.
  unfold install_handler, set_child_request_handler. apply steps_bind; [exact _|apply steps_gets; exact _|]. intros [|]; [apply steps_ret; exact _|].
  apply steps_modify. intros s n Hn. destruct s; cbn. rewrite lookup_fmap. by destruct (_ !! n).
Qed.

Lemma setting_only X x : steps (only X) (set_enabled_setting x : M ()).
Proof.
  unfold set_enabled_setting. assert (∀ st, steps (only X) (modify (λ l, set_ipc (put_store st (l_ipc l)) l) : M ())).
  { intros st. apply modify_only. by intros []. }
  steps.
Qed.

Lemma inject_only X reload : steps (only X) (inject reload).
Proof.
  unfold inject_frontend_shims. assert (steps (only X) (modify (setup_webkit_shims all_plugins file_exists plugins_path) : M ())).
  { apply modify_only. by intros []. }
  pose proof (λ e, registered_only X e (InjectFrontend reload)). steps.
Qed.
End frames.

(** ** Enabling and disabling plugins *)

(** A loop reaches what each round establishes and later rounds keep. *)
Lemma for_each_reaches {St A} (R : St → St → Prop) `{!PreOrder R} (P : A → St → Prop) (f : A → SM St ()) l s s' :
  (∀ x, steps R (f x)) → (∀ x s s', f x s = (Ok (), s') → P x s') → (∀ x s s', R s s' → P x s → P x s') →
  for_each f l s = (Ok (), s') → ∀ x, x ∈ l → P x s'.
Proof.
  intros Hs HP HR. revert s. induction l as [|y l IH]; intros s; cbn [for_each]; [set_solver|]. rewrite bind_run.
  destruct (f y s) as [[[]|e| |] s1] eqn:E; try done. intros Hl x [->|Hx]%elem_of_cons; [|by eapply IH].
  apply (HR y s1); [|by eapply HP]. pose proof (steps_for_each R f l Hs s1) as H1. rewrite Hl in H1. by apply H1.
Qed.

Lemma steps_for_each_in {St A} (R : St → St → Prop) `{!PreOrder R} (f : A → SM St ()) l :
  (∀ x, x ∈ l → steps R (f x)) → steps R (for_each f l).
Proof.
  induction l as [|x l IH]; intros Hf; cbn [for_each]; [by apply steps_ret|]. apply steps_bind; [exact _|apply Hf; left|].
  intros _. apply IH. intros y Hy. apply Hf. by right.
Qed.

(** Patches are registered by running children only. *)
Definition patched_running {Store Re L} (s : loader Store Re L) : Prop :=
  ∀ n, m_processes s !! n = None → l_patches s !! n = None.

(** A plugin's backend runs, or its failure is on record. *)
Definition started {Store Re L} (n : bytes) (s : loader Store Re L) : Prop :=
  is_Some (m_processes s !! n) ∨ Report n BACKEND_LOAD_FAILED ∈ emittedPlugins (l_dispatcher s).

(** What stopping plugins keeps: stopped stays stopped. *)
Definition stops {Store Re L} (s s' : loader Store Re L) : Prop :=
  (∀ n, m_processes s !! n = None → m_processes s' !! n = None) ∧ (patched_running s → patched_running s').

(** What starting plugins keeps. *)
Definition starts {Store Re L} (s s' : loader Store Re L) : Prop :=
  store_of s' = store_of s ∧ m_enabledPluginsPtr s' = m_enabledPluginsPtr s ∧
  (∀ n, started n s → started n s') ∧ (patched_running s → patched_running s').

#[export] Instance stops_preorder {Store Re L} : PreOrder (@stops Store Re L).
Proof. split; [done|]. intros a b c [A1 A2] [B1 B2]. split; auto. Qed.
#[export] Instance starts_preorder {Store Re L} : PreOrder (@starts Store Re L).
Proof. split; [done|]. intros a b c (A1 & A2 & A3 & A4) (B1 & B2 & B3 & B4). split; [congruence|]. split; [congruence|]. auto. Qed.

Lemma only_patched {Store Re L} (s s' : loader Store Re L) : only [] s s' → patched_running s → patched_running s'.
Proof.
  intros Ho Hp n Hn. destruct (Ho n ltac:(set_solver)) as (H1 & -> & _). apply Hp. rewrite Hn in H1. by destruct (m_processes s !! n).
Qed.

Definition off (plugins : list (bytes * bool)) : list bytes := map fst (List.filter (λ x, negb x.2) plugins).
Definition on (plugins : list (bytes * bool)) : list bytes := map fst (List.filter (λ x, x.2) plugins).

Lemma switched_off_elem n plugins : n ∈ off plugins ↔ (n, false) ∈ plugins.
Proof.
  unfold off. rewrite list_elem_of_In, in_map_iff, list_elem_of_In. split.
  - intros ([m b] & <- & [Hin Hb]%filter_In). by destruct b.
  - intros Hin. exists (n, false). split; [done|]. by apply filter_In.
Qed.
Lemma switched_on_elem n plugins : n ∈ on plugins ↔ (n, true) ∈ plugins.
Proof.
  unfold on. rewrite list_elem_of_In, in_map_iff, list_elem_of_In. split.
  - intros ([m b] & <- & [Hin Hb]%filter_In). by destruct b.
  - intros Hin. exists (n, true). split; [done|]. by apply filter_In.
Qed.

Lemma elem_of_fst {B} n (b : B) (l : list (bytes * B)) : (n, b) ∈ l → n ∈ l.*1.
Proof. intros Hin. apply list_elem_of_fmap. by exists (n, b). Qed.

Section enabling.
  Context `{T : target} `{SettingsStore Store} {Re L : Type}.
  Variable all_plugins : list plugin_t.
  Variable read_file : bytes → option bytes.
  Variable file_exists : bytes → bool.
  Variables steam_path plugins_path : bytes.
  Variable crash_dump_dir : bytes → bytes.
  Variable os : nat → bytes → spawn_os.
  Variable connected : bool.
  Abbreviation M := (SM (loader Store Re L)).
  Implicit Types s : loader Store Re L.
Abbreviation spawn := (spawn_plugin all_plugins read_file steam_path crash_dump_dir os : plugin_t → M bool).
Abbreviation enable := (enable_plugin all_plugins read_file steam_path crash_dump_dir os : bytes * bool → M ()).
Abbreviation disable := (disable_plugin all_plugins : bytes → M ()).
Abbreviation inject := (inject_frontend_shims all_plugins file_exists plugins_path connected : bool → M ()).

Lemma on_dispatcher_ok {A} (m : SM (dispatcher ready_cb (list ready_cb)) A) s a s' :
  on_dispatcher m s = (Ok a, s') → ∃ d, m (l_dispatcher s) = (Ok a, d) ∧ s' = set_dispatcher d s.
Proof. unfold on_dispatcher. destruct (m (l_dispatcher s)) as [r d]. intros [= -> <-]. eauto. Qed.

(** Stopping a plugin, whatever its callbacks or the settings throw. *)
Lemma destroy_effect name sd s :
  m_processes (destroy_plugin all_plugins name sd s).2 = delete name (m_processes s) ∧
  l_patches (destroy_plugin all_plugins name sd s).2 =
    match m_processes s !! name with Some _ => patch_registry_remove name (l_patches s) | None => l_patches s end.
Proof.
  unfold destroy_plugin. run_simpl. destruct (m_processes s !! name) as [p|] eqn:E; run_simpl.
  all: unfold on_dispatcher; destruct (backend_unloaded_event_hdlr _ _ _ _ _) as [[[]|e| |] d]; destruct s; cbn in *; split; try done.
  all: by rewrite delete_id.
Qed.

Lemma disable_effect name s :
  m_processes (disable name s).2 = delete name (m_processes s) ∧
  l_patches (disable name s).2 = match m_processes s !! name with Some _ => patch_registry_remove name (l_patches s) | None => l_patches s end.
Proof.
  unfold disable_plugin. rewrite bind_run. destruct (destroy_effect name false s) as [H1 H2].
  destruct (destroy_plugin all_plugins name false s) as [[r|e| |] s1]; cbn [fst snd modify] in *; try done. by destruct s1.
Qed.

Lemma disable_stops name : steps stops (disable name).
Proof.
  intros s _. destruct (disable_effect name s) as [H1 H2]. split.
  - intros n Hn. rewrite H1. by apply lookup_delete_None; right.
  - intros Hp n. rewrite H1, H2, lookup_delete_None. intros Hn. destruct (decide (n = name)) as [->|Hne].
    + destruct (m_processes s !! name) eqn:E; [apply registry_remove_eq|by apply Hp].
    + destruct Hn as [->|Hn]; [done|]. destruct (m_processes s !! name); [rewrite registry_remove_ne by done|]; by apply Hp.
Qed.

Lemma starts_modify (f : loader Store Re L → loader Store Re L) :
  (∀ s, store_of (f s) = store_of s ∧ m_enabledPluginsPtr (f s) = m_enabledPluginsPtr s ∧ l_patches (f s) = l_patches s ∧
    l_dispatcher (f s) = l_dispatcher s ∧ ∀ n, is_Some (m_processes s !! n) → is_Some (m_processes (f s) !! n)) →
  steps starts (modify f).
Proof.
  intros Hf. apply steps_modify. intros s. destruct (Hf s) as (H1 & H2 & H3 & H4 & H5). split; [done|]. split; [done|]. split.
  - intros n [Hn|Hn]; [left; by apply H5|right; by rewrite H4].
  - intros Hp n Hn. rewrite H3. apply Hp. apply eq_None_not_Some. intros Hs%H5. by rewrite Hn in Hs; destruct Hs.
Qed.

Lemma starts_dispatcher (m : SM (dispatcher ready_cb (list ready_cb)) ()) :
  (∀ d n, Report n BACKEND_LOAD_FAILED ∈ emittedPlugins d → Report n BACKEND_LOAD_FAILED ∈ emittedPlugins (m d).2) →
  steps starts (on_dispatcher m : M ()).
Proof.
  intros Hm s _. unfold on_dispatcher. specialize (Hm (l_dispatcher s)). destruct (m (l_dispatcher s)) as [r d]. destruct s; cbn in *.
  split; [done|]. split; [done|]. split; [|done]. intros n [Hn|Hn]; [by left|right; by apply Hm].
Qed.

Lemma insert_keeps (name : bytes) (p : child_proc) (m : gmap bytes child_proc) n : is_Some (m !! n) → is_Some (<[name:=p]> m !! n).
Proof. intros Hn. apply lookup_insert_is_Some'. by right. Qed.

Lemma running_starts name : steps starts (is_any_backend_running name : M bool).
Proof.
  intros s _. unfold is_any_backend_running. destruct (m_processes s !! name) as [p|]; [|reflexivity]. destruct (is_alive _) as [a c].
  cbn [snd]. refine (starts_modify (λ s, set_processes (<[name := ChildProc (cp_init p) c (cp_handled p) (cp_messages p)]> (m_processes s)) s) _ s _); [|done].
  intros []. repeat (split; [done|]). intros n. apply insert_keeps.
Qed.

Lemma spawn_starts plugin : steps starts (spawn plugin).
Proof.
  unfold spawn_plugin.
  assert (∀ init h, steps starts (modify (λ s, set_processes (<[plugin_name plugin := ChildProc init Alive h []]> (m_processes s)) s) : M ())).
  { intros init h. apply starts_modify. intros []. repeat (split; [done|]). intros n. apply insert_keeps. }
  assert (steps starts (modify count_spawn : M ())) by (apply starts_modify; by intros []).
  assert (∀ e, steps starts (on_dispatcher (backend_loaded_event_hdlr run_ready_cb e (Report (plugin_name plugin) BACKEND_LOAD_FAILED)) : M ())).
  { intros e. apply starts_dispatcher. intros d n Hn. unfold backend_loaded_event_hdlr. run_simpl. rewrite update_emitted. cbn.
    destruct (decide (n = plugin_name plugin)) as [->|Hne]; [apply emit_here|by apply emit_elem]. }
  steps.
Qed.

Lemma enable_starts x : steps starts (enable x).
Proof. unfold enable_plugin. pose proof running_starts. pose proof spawn_starts. steps. Qed.

Lemma install_starts : steps starts (install_handler : M ()).
Proof.
  unfold install_handler, set_child_request_handler. apply steps_bind; [exact _|apply steps_gets; exact _|]. intros [|]; [apply steps_ret; exact _|].
  apply starts_modify. intros []. repeat (split; [done|]). intros n. cbn. rewrite lookup_fmap. intros [p ->]. by eexists.
Qed.

Lemma inject_starts reload : steps starts (inject reload).
Proof.
  unfold inject_frontend_shims.
  assert (steps starts (modify (setup_webkit_shims all_plugins file_exists plugins_path) : M ())) by (apply starts_modify; by intros []).
  assert (∀ e, steps starts (on_dispatcher (on_all_backends_ready run_ready_cb e (InjectFrontend reload)) : M ())).
  { intros e. apply starts_dispatcher. intros d n Hn. unfold on_all_backends_ready. run_simpl. by rewrite update_emitted. }
  steps.
Qed.

Lemma spawn_started plugin s b s' : spawn plugin s = (Ok b, s') → started (plugin_name plugin) s'.
Proof.
  unfold spawn_plugin. run_simpl. destruct (init_params _ _ _ _) as [init|e| |]; try done. run_simpl. destruct (spawn_plugin_process _ _ _ _ _).
  - run_simpl. intros [= _ <-]. left. destruct s; cbn. rewrite lookup_insert_eq. by eexists.
  - run_simpl. intros (? & s1 & (d & Hd & ->)%on_dispatcher_ok & [= _ <-])%bind_Ok_inv. right.
    unfold backend_loaded_event_hdlr in Hd. revert Hd. run_simpl. intros Hd. destruct s; cbn in *.
    match type of Hd with update _ ?e ?d0 = _ => pose proof (update_emitted e d0) as He end. rewrite Hd in He. cbn in He. rewrite He. apply emit_here.
Qed.

Lemma running_some name s s' : is_any_backend_running name s = (Ok true, s') → is_Some (m_processes s' !! name).
Proof.
  unfold is_any_backend_running. destruct (m_processes s !! name) as [p|]; [|done]. destruct (is_alive _) as [a c]. intros [= _ <-].
  destruct s; cbn. rewrite lookup_insert_eq. by eexists.
Qed.

Lemma enable_started x s s' :
  enable x s = (Ok (), s') → x.2 = true → x.1 ∈ map plugin_name (m_enabledPluginsPtr s') → started x.1 s'.
Proof.
  intros He Hx. destruct (steps_ran _ _ _ _ _ (enable_starts x) He) as (_ & -> & _).
  unfold enable_plugin in He. rewrite Hx in He. cbn [negb] in He. apply bind_Ok_inv in He as ([|] & s1 & H1 & He).
  - injection He as <-. intros _. left. by apply running_some in H1.
  - destruct (steps_ran _ _ _ _ _ (running_starts x.1) H1) as (_ & Hp & _).
    apply bind_Ok_inv in He as (l & ? & [= <- <-] & He). rewrite Hp in He. intros Hin. destruct (find _ _) as [plugin|] eqn:Ef.
    + apply find_some in Ef as [_ Ef%bytes_eqb_true]. apply bind_Ok_inv in He as (b & s2 & H2 & [= <-]). apply spawn_started in H2. by rewrite Ef in H2.
    + exfalso. apply list_elem_of_In, in_map_iff in Hin as (p & Hp1 & Hp2). apply (find_none _ _ Ef) in Hp2. by rewrite Hp1, bytes_eqb_refl in Hp2.
Qed.

Lemma phase_disable names s s' :
  for_each disable names s = (Ok (), s') → only names s s' ∧ stops s s' ∧ ∀ n, n ∈ names → m_processes s' !! n = None.
Proof.
  intros Hr. split; [|split].
  - eapply steps_ran; [|exact Hr]. apply steps_for_each_in; [exact _|]. intros n Hn. by apply disable_only.
  - eapply steps_ran; [|exact Hr]. apply steps_for_each; [exact _|]. apply disable_stops.
  - eapply (for_each_reaches stops (λ n s, m_processes s !! n = None)); [apply disable_stops| | |exact Hr].
    + intros n a b Hd. destruct (disable_effect n a) as [Hp _]. rewrite Hd in Hp. cbn in Hp. rewrite Hp. apply lookup_delete_eq.
    + intros n a b [Hs _]. apply Hs.
Qed.

Lemma phase_enable plugins s s' :
  (if existsb snd plugins then _ ← install_handler; for_each enable plugins else mret tt : M ()) s = (Ok (), s') →
  only (on plugins) s s' ∧ starts s s' ∧ ∀ n, (n, true) ∈ plugins → n ∈ map plugin_name (m_enabledPluginsPtr s') → started n s'.
Proof.
  destruct (existsb snd plugins) eqn:E.
  - intros (? & s1 & H1 & H2)%bind_Ok_inv.
    assert (only (on plugins) s1 s' ∧ starts s1 s') as [Ho Hs].
    { split; eapply steps_ran; [|exact H2| |exact H2].
      - apply steps_for_each_in; [exact _|]. intros [n b] Hx. apply enable_only. cbn. intros ->. by apply switched_on_elem.
      - apply steps_for_each; [exact _|]. apply enable_starts. }
    split; [etransitivity; [|exact Ho]; eapply steps_ran; [apply install_only|exact H1]|].
    split; [etransitivity; [|exact Hs]; eapply steps_ran; [apply install_starts|exact H1]|].
    intros n Hn. refine (for_each_reaches starts (λ x s, x.2 = true → x.1 ∈ map plugin_name (m_enabledPluginsPtr s) → started x.1 s)
      enable plugins s1 s' enable_starts enable_started _ H2 (n, true) Hn eq_refl).
    intros y a b (_ & -> & Hk & _) Hx Hx1 Hx2. by apply Hk, Hx.
  - intros [= <-]. split; [reflexivity|]. split; [reflexivity|]. intros n Hn. exfalso.
    apply not_true_iff_false in E. apply E. apply existsb_exists. exists (n, true). split; [by apply list_elem_of_In|done].
Qed.
End enabling.

(** Enabling and disabling plugins.  When [set_plugins_enabled] returns,
    every plugin it was told to disable has no process and no patches; every
    plugin it was told to enable that has a backend runs, or its failure to
    start is on record; and the processes and patches of all other plugins are
    as before. *)
Theorem set_plugins_enabled_settles `{T : target} `{SettingsStore Store} {Re L} all_plugins read_file file_exists steam_path plugins_path
    crash_dump_dir os connected plugins reload (s s' : loader Store Re L) :
  NoDup plugins.*1 → patched_running s →
  set_plugins_enabled all_plugins read_file file_exists steam_path plugins_path crash_dump_dir os connected plugins reload s = (Ok (), s') →
  patched_running s' ∧
  (∀ n, (n, false) ∈ plugins → m_processes s' !! n = None ∧ l_patches s' !! n = None) ∧
  (∀ n backends, (n, true) ∈ plugins → enabled_names all_plugins s' = Ok backends → n ∈ backends → started n s') ∧
  (∀ n, n ∉ plugins.*1 → core <$> m_processes s' !! n = core <$> m_processes s !! n ∧ l_patches s' !! n = l_patches s !! n).
Proof.
  intros Hnd Hpr (u & s1 & H1 & Hrun)%bind_Ok_inv. destruct u. apply bind_Ok_inv in Hrun as ([] & s2 & H2 & Hrun).
  apply bind_Ok_inv in Hrun as (? & s3 & [= _ <-] & Hrun). apply bind_Ok_inv in Hrun as (st & ? & [= <- <-] & Hrun).
  apply bind_Ok_inv in Hrun as (backends & ? & Hb & Hrun). injection Hb as Hb <-.
  apply bind_Ok_inv in Hrun as (? & ? & [= _ <-] & Hrun). apply bind_Ok_inv in Hrun as (? & ? & [= _ <-] & Hrun).
  set (s4 := register_packed_plugin_resources _ _ _) in Hrun.
  apply bind_Ok_inv in Hrun as ([] & s5 & H5 & H6).
  assert (only [] s s1) as O1. { eapply steps_ran; [|exact H1]. apply steps_for_each; [exact _|]. apply setting_only. }
  apply phase_disable in H2 as (O2 & S2 & G2). fold (off plugins) in O2, G2.
  assert (only [] s2 s4) as O3 by (intros n _; by destruct s2).
  apply phase_enable in H5 as (O5 & S5 & G5).
  pose proof (steps_ran _ _ _ _ _ (inject_only _ _ _ _ [] reload) H6) as O6. pose proof (steps_ran _ _ _ _ _ (inject_starts _ _ _ _ reload) H6) as S6.
  assert (starts s4 s') as S4 by (by etransitivity).
  assert (patched_running s') as Hfin. { apply S4. eapply only_patched; [exact O3|]. apply S2. by eapply only_patched. }
  split; [done|]. split; [|split].
  - intros n Hn. assert (m_processes s' !! n = None) as Hp; [|by split; [|apply Hfin]].
    assert (n ∉ on plugins) as Hoff.
    { intros Hon%switched_on_elem. apply list_elem_of_lookup in Hn as [i Hi], Hon as [j Hj].
      assert (i = j) as -> by (eapply NoDup_lookup; [exact Hnd|rewrite list_lookup_fmap, Hi; done|by rewrite list_lookup_fmap, Hj]). congruence. }
    specialize (G2 n ltac:(by apply switched_off_elem)). destruct (O3 n ltac:(set_solver)) as [C3 _], (O5 n Hoff) as [C5 _], (O6 n ltac:(set_solver)) as [C6 _].
    rewrite C5, C3, G2 in C6. by destruct (m_processes s' !! n).
  - intros n l Hn Hl Hin. apply S6. apply G5; [done|]. destruct S4 as (E1 & E2 & _), S5 as (_ & E3 & _). rewrite E3.
    unfold enabled_names in Hl. rewrite E1 in Hl. assert (store_of s4 = store_of s2) as Es by (by destruct s2). rewrite Es in Hl.
    assert (store_of s2 = store_of (set_snapshots all_plugins (m_enabledPluginsPtr s2) s2)) as Es' by (by destruct s2). rewrite Es', Hb in Hl.
    injection Hl as <-. by destruct s2.
  - intros n Hn. assert (n ∉ off plugins ∧ n ∉ on plugins) as [N1 N2].
    { split; [intros Hx%switched_off_elem|intros Hx%switched_on_elem]; by apply elem_of_fst in Hx. }
    destruct (O1 n ltac:(set_solver)) as (A1 & A2 & _), (O2 n N1) as (B1 & B2 & _), (O3 n ltac:(set_solver)) as (C1 & C2 & _),
      (O5 n N2) as (D1 & D2 & _), (O6 n ltac:(set_solver)) as (E1 & E2 & _). split; congruence.
Qed.

#[local] Existing Instance demo_store.
#[local] Existing Instance target32.

(** Of two running plugins one is disabled while a third is enabled and fails
    to start. *)
Definition demo_plugin (name : bytes) : plugin_t :=
  Plugin name (jobj [(#"backendType", JStr #"lua")]) #"/p" (#"/p/" ++ name ++ #"/main.lua") [] [] false loose_files false false false [].
Definition demo_child : child_proc := ChildProc JNull Alive true [].
Definition demo_fails (n : nat) (name : bytes) : spawn_os := SpawnOs true true true true false false false None.
Definition demo_loader : loader (config_manager nat * disk) nat nat :=
  set_processes (<[ #"q" := demo_child]> (<[ #"p" := demo_child]> ∅))
    (set_patches (<[ #"q" := [Patch #"q" #"f" #"x" []]]> ∅)
      (loader_new demo_state (NetworkHookCtl [] 0 ∅ None))).
Definition demo_change : SM (loader (config_manager nat * disk) nat nat) () :=
  set_plugins_enabled [demo_plugin #"q"; demo_plugin #"p"; demo_plugin #"d"] (λ _, None) (λ _, false) #"/s" #"/p" (λ n, n) demo_fails false
    [(#"q", false); (#"d", true)] true.

Lemma demo_patched : patched_running demo_loader.
Proof.
  intros n. cbn [demo_loader set_processes set_patches loader_new m_processes l_patches]. intros Hn. apply lookup_insert_None in Hn as [_ Hn].
  apply lookup_insert_None. by split.
Qed.

Lemma set_plugins_enabled_settles_witness :
  ∃ s', demo_change demo_loader = (Ok (), s') ∧ m_processes s' !! #"q" = None ∧ l_patches s' !! #"q" = None ∧ started #"d" s' ∧
    core <$> m_processes s' !! #"p" = Some (core demo_child).
Proof.
  assert ((demo_change demo_loader).1 = Ok ()) as Hok by (vm_compute; reflexivity).
  assert (enabled_names [demo_plugin #"q"; demo_plugin #"p"; demo_plugin #"d"] (demo_change demo_loader).2 = Ok [ #"p"; #"d"]) as Hen by (vm_compute; reflexivity).
  destruct (demo_change demo_loader) as [o s'] eqn:E. cbn [fst snd] in Hok, Hen. subst o.
  exists s'. split; [done|].
  assert (NoDup [(#"q", false); (#"d", true)].*1) as Hnd by (apply (bool_decide_unpack _); vm_compute; exact I).
  destruct (set_plugins_enabled_settles _ _ _ _ _ _ _ _ _ _ demo_loader s' Hnd demo_patched E) as (_ & H1 & H2 & H3).
  destruct (H1 #"q" ltac:(left)) as [P1 P2]. split; [done|]. split; [done|]. split.
  - apply (H2 #"d" [ #"p"; #"d"]); [right; left|exact Hen|right; left].
  - destruct (H3 #"p") as [-> _]; [|reflexivity]. apply (bool_decide_unpack _). vm_compute. exact I.
Defined.
