(* ===== verification/ChildApi.v ===== *)
(** * ChildApi: what a plugin's backend can ask for

    The request handler of [engine/plugin_loader.cc] (613-1084), installed on
    every child process: calls of the plugin's frontend, browser hooks, log
    lines, versions and paths, HTTP requests and downloads, the plugin's
    settings and its patches.  libcurl, the Steam and install paths and the
    clock are parameters; [long] has 32 bits, as in the builds for Windows and
    32-bit Linux. *)

From Stdlib Require Import SpecFloat.
From S2P Require Import Prelude State Json StarFile Css Semver Ring Recorder MepProtocol.
From S2P Require Import Config Base64 PluginConfig CdpClient Rpc Patches Process Lifecycle CoreIpc.
From S2P Require Import Url HttpHooks Backend.

(** ** HTTP *)

Inductive curl_value := CStr (s : bytes) | CLong (z : Z) | CList (l : list bytes).
Definition curl_opts : Type := list (bytes * curl_value).

(** What a transfer delivers: header lines, body chunks, the result code and
    the status. *)
Record curl_run := CurlRun { cr_headers : list bytes; cr_chunks : list bytes; cr_code : Z; cr_status : Z }.

Definition MAX_RESPONSE_BODY : Z := 64 * 1024 * 1024.

(** The write callback on the chunks; it aborts the transfer at the limit. *)
Fixpoint receive_body (data : bytes) (chunks : list bytes) : bytes * bool :=
  match chunks with
  | [] => (data, false)
  | c :: chunks => if MAX_RESPONSE_BODY <? len data + len c then (data, true) else receive_body (data ++ c) chunks
  end.

Fixpoint strip_eol (r : bytes) : bytes :=
  match r with [] => [] | c :: r' => if Byte.eqb c x0d || Byte.eqb c x0a then strip_eol r' else r end.
Fixpoint strip_spaces (v : bytes) : bytes :=
  match v with [] => [] | c :: v' => if Byte.eqb c " "%byte then strip_spaces v' else v end.

(** The header callback on one line. *)
Definition header_cb (headers : list (bytes * json)) (buf : bytes) : list (bytes * json) :=
  let line := reverse (strip_eol (reverse buf)) in
  match find_sub #":" line with
  | Some colon => obj_insert (take colon line) (JStr (strip_spaces (drop (S colon) line))) headers
  | None => headers
  end.

Fixpoint header_list (l : list (bytes * json)) : outcome (list bytes) :=
  match l with
  | [] => Ok []
  | (k, v) :: l => v ← get_string v; rest ← header_list l; Ok (c_str (k ++ #": " ++ v) :: rest)
  end.

Definition request_headers (params : json) : outcome curl_opts :=
  match jget #"headers" params with
  | Some (JObj o) => l ← header_list o; Ok [(#"HTTPHEADER", CList l)]
  | _ => Ok []
  end.

Definition bool_opt (b : bool) (v : Z) : curl_value := CLong (if b then v else 0).

Definition body_opts (data : bytes) : curl_opts :=
  if bytes_eqb data [] then [] else [(#"POSTFIELDS", CStr data); (#"POSTFIELDSIZE", CLong (len data))].

Definition method_opts (http_method data : bytes) : curl_opts :=
  if bytes_eqb http_method #"POST" then (#"POST", CLong 1) :: body_opts data
  else if bytes_eqb http_method #"PUT" || bytes_eqb http_method #"PATCH" || bytes_eqb http_method #"DELETE" || bytes_eqb http_method #"OPTIONS"
  then (#"CUSTOMREQUEST", CStr http_method) :: body_opts data
  else if bytes_eqb http_method #"HEAD" then [(#"NOBODY", CLong 1)] else [].

Definition auth_opts (params : json) : outcome curl_opts :=
  match jget #"auth" params with
  | Some (JObj o) =>
      user ← value_string #"user" [] (JObj o); pass ← value_string #"pass" [] (JObj o);
      Ok [(#"USERPWD", CStr (c_str (user ++ #":" ++ pass))); (#"HTTPAUTH", CLong 1)]
  | _ => Ok []
  end.

Definition error_json (e : bytes) : json := jobj [(#"error", JStr e)].

Section http.
  (** [curl_easy_init] and [curl_easy_perform]; [None] when there is no
      handle. *)
  Variable curl : option (curl_opts → curl_run).
  Variable curl_easy_strerror : Z → bytes.

Definition http_request (params : json) : outcome json :=
  url ← value_string #"url" [] params;
  http_method ← value_string #"method" #"GET" params;
  data ← value_string #"data" [] params;
  timeout ← value_int #"timeout" 30 params;
  follow_redirects ← value_bool #"follow_redirects" true params;
  verify_ssl ← value_bool #"verify_ssl" true params;
  user_agent ← value_string #"user_agent" #"Millennium/1.0" params;
  proxy ← value_string #"proxy" [] params;
  match curl with
  | None => Ok (error_json #"failed to initialize curl")
  | Some perform =>
      headers ← request_headers params;
      auth ← auth_opts params;
      let opts := [(#"URL", CStr (c_str url)); (#"TIMEOUT", CLong timeout); (#"USERAGENT", CStr (c_str user_agent));
                   (#"FOLLOWLOCATION", bool_opt follow_redirects 1); (#"SSL_VERIFYPEER", bool_opt verify_ssl 1);
                   (#"SSL_VERIFYHOST", bool_opt verify_ssl 2); (#"NOSIGNAL", CLong 1)]
                  ++ headers ++ method_opts http_method data ++ auth ++
                  (if bytes_eqb proxy [] then [] else [(#"PROXY", CStr (c_str proxy))]) in
      let run := perform opts in
      let '(body, exceeded) := receive_body [] (cr_chunks run) in
      if (exceeded : bool) then Ok (error_json #"response body exceeded 64 MB limit") else
      if negb (cr_code run =? 0) then Ok (error_json (curl_easy_strerror (cr_code run))) else
      Ok (jobj [(#"body", JStr body); (#"status", JInt (cr_status run)); (#"headers", JObj (foldl header_cb [] (cr_headers run)))])
  end.
End http.

(** ** Requests *)

Section api.
  Context `{SettingsStore Store} {Re L : Type}.
  Variable dump : json → outcome bytes.
  Variable parse : bytes → option json.
  Variable fmt_double : spec_float → bytes.
  Variable cdp_evaluate : bytes → bool → outcome json.
  Variable left_to_right : bool.
  Variable clock : spec_float * Z.
  Variable all_plugins : list plugin_t.
  (** [std::regex(s)] *)
  Variable compile : bytes → option Re.
  Variable curl : option (curl_opts → curl_run).
  Variable curl_easy_strerror : Z → bytes.
  Variable fopen : bytes → bool.
  Variables steam_path install_path : outcome bytes.
  Variable version : bytes.
  Variables date time : bytes.
  Variable now : Z.
  (** Which parts of the program still exist: the loader, the frontend's IPC,
      the built-in backend and its hook manager. *)
  Variables self_alive ipc_connected backend_alive hooks_alive : bool.
  Abbreviation M := (SM (loader Store Re L)).

Definition on_ipc {A} (m : SM (ipc_world Store) A) : M A := λ s, let '(r, w) := m (l_ipc s) in (r, set_ipc w s).

Definition ok_json : json := jobj [(#"success", JBool true)].

Definition frontend_call (plugin : bytes) (params : json) : outcome json :=
  methodName ← value_string #"methodName" [] params;
  args ← (if contains #"params" params then idx #"params" params else Ok (JArr []));
  caller ← value_string #"caller" [] params;
  return_by_value ← value_bool #"return_by_value" false params;
  Ok (jobj [(#"id", JInt CALL_FRONTEND_METHOD);
            (#"data", jobj [(#"pluginName", JStr plugin); (#"methodName", JStr methodName); (#"argumentList", args);
                            (#"caller", JStr caller); (#"return_by_value", JBool return_by_value)])]).

Definition request_frontend (plugin : bytes) (params : json) : M json :=
  if negb ipc_connected then mret (jobj [(#"success", JBool false); (#"error", JStr #"frontend not connected yet")]) else
  call ← lift (frontend_call plugin params);
  on_ipc (process_message dump parse fmt_double cdp_evaluate left_to_right None None all_plugins clock call).

Definition request_ready (plugin : bytes) : M json :=
  enabled ← gets (enabled_names all_plugins);
  _ ← on_dispatcher (backend_loaded_event_hdlr run_ready_cb enabled (Report plugin BACKEND_LOAD_SUCCESS));
  mret ok_json.

(** The hook manager, or the answer without one. *)
Definition with_hooks (f : M json) : M json :=
  if negb backend_alive then mret (error_json #"backend not available")
  else if negb hooks_alive then mret (error_json #"webkit_mgr not available") else f.

Definition request_add_hook (type : TagTypes) (params : json) : M json :=
  with_hooks (
    content ← lift (value_string #"content" [] params);
    pattern ← lift (value_string #"pattern" #".*" params);
    hooks ← gets l_hooks;
    r ← lift (add_browser_hook compile content pattern type hooks);
    _ ← modify (set_hooks r.2);
    mret (jobj [(#"id", JInt r.1)])).

Definition request_remove_hook (params : json) : M json :=
  with_hooks (
    hook_id ← lift (value_u64 #"hook_id" 0 params);
    hooks ← gets l_hooks;
    let '(ok, hooks) := remove_browser_hook hook_id hooks in
    _ ← modify (set_hooks hooks);
    mret (jobj [(#"success", JBool ok)])).

(** [params.is_object() ? params.value(k, def) : def] *)
Definition opt_value {A} (f : json → outcome A) (def : A) (params : json) : outcome A :=
  if is_object params then f params else Ok def.

Definition log_to (plugin : bytes) (f : plugin_logger L → plugin_logger L) (reg : list (plugin_logger L)) : list (plugin_logger L) :=
  let '(i, reg) := get_or_create_plugin_logger date plugin reg in alter f i reg.

Definition request_log (plugin : bytes) (params : json) : M json :=
  level ← lift (opt_value (value_string #"level" #"info") #"info" params);
  message ← lift (opt_value (value_string #"message" []) [] params);
  v2 ← lift (opt_value (value_bool #"v2" false) false params);
  timestamp_us ← lift (opt_value (value_u64 #"timestamp_us" 0) 0 params);
  src_file ← lift (if is_object params && v2 then value_string #"file" [] params else Ok []);
  src_line ← lift (if is_object params && v2 then value_int #"line" 0 params else Ok 0);
  let add lg :=
    if bytes_eqb level #"error" then (error now time message v2 timestamp_us src_file src_line lg).1
    else if bytes_eqb level #"warn" then (warn now time message v2 timestamp_us src_file src_line lg).1
    else (log now message v2 timestamp_us src_file src_line lg).1 in
  _ ← modify (λ s, set_loggers (log_to plugin add (l_loggers s)) s);
  mret ok_json.

Definition path_answer (p : outcome bytes) : outcome json :=
  match p with
  | Ok p => Ok (jobj [(#"path", JStr p)])
  | Throw e => Ok (jobj [(#"path", JStr []); (#"error", JStr e)])
  | UB => UB
  | NoFuel => NoFuel
  end.

Definition request_is_enabled (params : json) : M json :=
  name ← lift (value_string #"name" [] params);
  s ← gets store_of;
  mret (jobj [(#"enabled", JBool (is_enabled s name))]).

Definition skip_v (s : bytes) : bytes :=
  match s with c :: s' => if Byte.eqb c "v"%byte || Byte.eqb c "V"%byte then s' else s | [] => [] end.

Definition cmp_version (params : json) : outcome json :=
  v1 ← value_string #"v1" [] params;
  v2 ← value_string #"v2" [] params;
  match cmp (skip_v (c_str v1)) (skip_v (c_str v2)) with
  | Ok r => Ok (jobj [(#"result", JInt r)])
  | Throw _ => Ok (jobj [(#"result", JInt (-2))])
  | UB => UB
  | NoFuel => NoFuel
  end.

(** The file is opened, and emptied, before the transfer. *)
Definition request_download (params : json) : M json :=
  url ← lift (value_string #"url" [] params);
  dest ← lift (value_string #"path" [] params);
  timeout ← lift (value_int #"timeout" 0 params);
  follow_redirects ← lift (value_bool #"follow_redirects" true params);
  verify_ssl ← lift (value_bool #"verify_ssl" true params);
  user_agent ← lift (value_string #"user_agent" #"Millennium/1.0" params);
  if bytes_eqb dest [] then mret (error_json #"path is required") else
  let file := c_str dest in
  if negb (fopen file) then mret (error_json (#"failed to open file: " ++ dest)) else
  let put content := modify (λ s, set_files (<[file := content]> (l_files s)) s) in
  _ ← put [];
  match curl with
  | None => mret (error_json #"failed to initialize curl")
  | Some perform =>
      headers ← lift (request_headers params);
      let opts := [(#"URL", CStr (c_str url)); (#"USERAGENT", CStr (c_str user_agent));
                   (#"FOLLOWLOCATION", bool_opt follow_redirects 1); (#"SSL_VERIFYPEER", bool_opt verify_ssl 1);
                   (#"SSL_VERIFYHOST", bool_opt verify_ssl 2); (#"NOSIGNAL", CLong 1)]
                  ++ (if 0 <? timeout then [(#"TIMEOUT", CLong timeout)] else []) ++ headers in
      let run := perform opts in
      let body := concat (cr_chunks run) in
      _ ← put body;
      if negb (cr_code run =? 0) then
        _ ← modify (λ s, set_files (delete file (l_files s)) s);
        mret (error_json (curl_easy_strerror (cr_code run)))
      else mret (jobj [(#"success", JBool true); (#"status", JInt (cr_status run)); (#"bytes_written", JInt (len body))])
  end.

(** Only the frontend is told of a change the plugin itself makes. *)
Definition child_targets : notify_targets := NotifyTargets ipc_connected false.

Definition config_answer (r : result) : json := if r.1 then ok_json else jobj [(#"error", r.2)].

Definition request_config_get (plugin : bytes) (params : json) : M json :=
  key ← lift (value_string #"key" [] params);
  s ← gets store_of;
  let r := get s plugin key in
  mret (if r.1 then jobj [(#"value", r.2)] else jobj [(#"error", r.2)]).

Definition request_config_set (plugin : bytes) (params : json) : M json :=
  value ← lift (if contains #"value" params then idx #"value" params else Ok JNull);
  key ← lift (value_string #"key" [] params);
  r ← on_ipc (store_set dump child_targets o_lua_child plugin key value);
  mret (config_answer r).

Definition request_config_delete (plugin : bytes) (params : json) : M json :=
  key ← lift (value_string #"key" [] params);
  r ← on_ipc (store_del dump child_targets o_lua_child plugin key);
  mret (config_answer r).

Definition request_config_all (plugin : bytes) : M json :=
  s ← gets store_of;
  mret (jobj [(#"config", (get_all s plugin).2)]).

Definition request_patches (plugin : bytes) (params : json) : M json :=
  patches ← lift (if is_object params then idx #"patches" params else Ok params);
  _ ← match patches with
      | JArr (p :: l) =>
          entries ← lift (parse_patches plugin (p :: l));
          _ ← modify (λ s, set_patches (patch_registry_set plugin entries (l_patches s)) s);
          modify notify_patches
      | _ => mret tt
      end;
  mret ok_json.

Definition child_request (plugin method : bytes) (params : json) : M json :=
  if negb self_alive then mret (error_json #"plugin_loader shutting down") else
  if bytes_eqb method #"call_frontend_method" then request_frontend plugin params else
  if bytes_eqb method #"ready" then request_ready plugin else
  if bytes_eqb method #"add_browser_css" then request_add_hook STYLESHEET params else
  if bytes_eqb method #"add_browser_js" then request_add_hook JAVASCRIPT params else
  if bytes_eqb method #"remove_browser_module" then request_remove_hook params else
  if bytes_eqb method #"log" then request_log plugin params else
  if bytes_eqb method #"version" then mret (jobj [(#"version", JStr version)]) else
  if bytes_eqb method #"steam_path" then lift (path_answer steam_path) else
  if bytes_eqb method #"install_path" then lift (path_answer install_path) else
  if bytes_eqb method #"is_plugin_enabled" then request_is_enabled params else
  if bytes_eqb method #"cmp_version" then lift (cmp_version params) else
  if bytes_eqb method #"http_request" then lift (http_request curl curl_easy_strerror params) else
  if bytes_eqb method #"http_download" then request_download params else
  if bytes_eqb method #"config_get" then request_config_get plugin params else
  if bytes_eqb method #"config_set" then request_config_set plugin params else
  if bytes_eqb method #"config_delete" then request_config_delete plugin params else
  if bytes_eqb method #"config_get_all" then request_config_all plugin else
  if bytes_eqb method #"patches" then request_patches plugin params else
  mret (error_json (#"unknown method: " ++ method)).
End api.

(** ** A plugin's requests stay with the plugin *)

(** What a request of [plugin] leaves alone: the settings of the other
    plugins and the list of enabled plugins, the processes, the patches,
    reports and logs of the other plugins, the state of the loader, and the
    scripts served under the virtual host. *)
Definition request_frame `{SettingsStore Store} {Re L} (plugin : bytes) (s s' : loader Store Re L) : Prop :=
  others_kept plugin (l_ipc s) (l_ipc s') ∧ only [plugin] s s' ∧ m_processes s' = m_processes s ∧
  m_enabledPluginsPtr s' = m_enabledPluginsPtr s ∧ m_virtual_resources (ctl (l_hooks s')) = m_virtual_resources (ctl (l_hooks s)) ∧
  (m_has_shutdown s', l_spawns s', l_handler s', l_webkit s', m_plugin_ptr s', l_crashes s') =
  (m_has_shutdown s, l_spawns s, l_handler s, l_webkit s, m_plugin_ptr s, l_crashes s) ∧
  ∀ i lg, l_loggers s !! i = Some lg → pluginName lg ≠ plugin → l_loggers s' !! i = Some lg.

(** What the plugins share: the browser hooks and the files.  A request to add
    a hook only appends to the list, one to remove a hook takes out those with
    the id it names, a download writes the path it names, and no other request
    changes either. *)
Definition shared_frame {Store Re L} (method : bytes) (params : json) (s s' : loader Store Re L) : Prop :=
  (if bytes_eqb method #"add_browser_css" || bytes_eqb method #"add_browser_js"
   then m_hook_list (ctl (l_hooks s)) `prefix_of` m_hook_list (ctl (l_hooks s'))
   else if bytes_eqb method #"remove_browser_module"
   then ∀ h, value_u64 #"hook_id" 0 params ≠ Ok (id h) → h ∈ m_hook_list (ctl (l_hooks s')) ↔ h ∈ m_hook_list (ctl (l_hooks s))
   else l_hooks s' = l_hooks s) ∧
  ∀ f, (method = #"http_download" ∧ ∃ dest, value_string #"path" [] params = Ok dest ∧ f = c_str dest) ∨ l_files s' !! f = l_files s !! f.

#[export] Instance shared_frame_preorder {Store Re L} method params : PreOrder (@shared_frame Store Re L method params).
Proof.
  split; [intros a; split; [by repeat case_match|by right]|]. intros a b c [A1 A2] [B1 B2]. split.
  - repeat case_match; [by etransitivity|..|congruence]. intros h Hh. by rewrite B1, A1.
  - intros f. destruct (A2 f) as [?|<-]; [by left|]. apply B2.
Qed.

#[export] Instance request_frame_preorder `{SettingsStore Store} {Re L} plugin : PreOrder (request_frame (Re:=Re) (L:=L) plugin).
Proof.
  split; [done|]. intros a b c (A1 & A2 & A3 & A4 & A5 & A6 & A7) (B1 & B2 & B3 & B4 & B5 & B6 & B7).
  split; [by etransitivity|]. split; [by etransitivity|]. split_and!; try congruence. eauto.
Qed.

Section isolation.
  Context `{SettingsStore Store} {Re L : Type}.
  Variable plugin : bytes.
  Abbreviation M := (SM (loader Store Re L)).
  Abbreviation framed := (steps (request_frame plugin)).

Lemma framed_ipc {A} (m : SM (ipc_world Store) A) : steps (others_kept plugin) m → framed (on_ipc m : M A).
Proof.
  intros Hm s. unfold on_ipc. specialize (Hm (l_ipc s)). destruct (m (l_ipc s)) as [r w]. cbn [fst snd] in *. intros Hd.
  specialize (Hm Hd). destruct s. split; [exact Hm|]. by split_and!.
Qed.

Lemma framed_modify (f : loader Store Re L → loader Store Re L) :
  (∀ s, l_ipc (f s) = l_ipc s ∧ m_processes (f s) = m_processes s ∧ (∀ n, n ≠ plugin → l_patches (f s) !! n = l_patches s !! n) ∧
    l_dispatcher (f s) = l_dispatcher s ∧ m_enabledPluginsPtr (f s) = m_enabledPluginsPtr s ∧
    m_virtual_resources (ctl (l_hooks (f s))) = m_virtual_resources (ctl (l_hooks s)) ∧
    (m_has_shutdown (f s), l_spawns (f s), l_handler (f s), l_webkit (f s), m_plugin_ptr (f s), l_crashes (f s)) =
    (m_has_shutdown s, l_spawns s, l_handler s, l_webkit s, m_plugin_ptr s, l_crashes s) ∧
    (∀ i lg, l_loggers s !! i = Some lg → pluginName lg ≠ plugin → l_loggers (f s) !! i = Some lg)) → framed (modify f).
Proof.
  intros Hf. apply steps_modify. intros s. destruct (Hf s) as (H1 & H2 & H3 & H4 & H5 & H6 & H7 & H8).
  split; [by rewrite H1|]. split; [|by split_and!]. intros n Hn. rewrite H2, H4, H3 by (intros ->; apply Hn; left). done.
Qed.

Lemma framed_ready enabled : framed (on_dispatcher (backend_loaded_event_hdlr run_ready_cb enabled (Report plugin BACKEND_LOAD_SUCCESS)) : M ()).
Proof.
  intros s Hd. pose proof (loaded_only [plugin] enabled (Report plugin BACKEND_LOAD_SUCCESS) ltac:(left) s Hd) as Ho. revert Ho. unfold on_dispatcher.
  destruct (backend_loaded_event_hdlr _ _ _ _) as [r d]. intros Ho. split; [by destruct s|]. split; [exact Ho|]. by destruct s.
Qed.

(** Calling the own frontend touches no settings. *)
Lemma kept_frontend dump parse fmt_double cdp ltr plugins clock params call :
  frontend_call plugin params = Ok call →
  steps (others_kept plugin) (process_message dump parse fmt_double cdp ltr None None plugins clock call : SM (ipc_world Store) json).
Proof.
  unfold frontend_call. intros Hc. inv_ok. subst call. unfold process_message.
  apply steps_catching; [exact _| |intros e; apply steps_ret, _]. intros w. rewrite bind_run.
  match goal with |- context [idx #"id" ?j] => assert (idx #"id" j = Ok (JInt 2)) as -> by reflexivity end.
  cbn [mbind outcome_bind get_int]. unfold lift at 1 2. cbn iota. change (i32 2 =? CALL_SERVER_METHOD) with false.
  change (i32 2 =? FRONT_END_LOADED) with false. change (i32 2 =? CALL_FRONTEND_METHOD) with true. cbn iota.
  match goal with |- defined (?m w).1 → _ => assert (steps (others_kept plugin) m) as Hs; [|apply Hs] end.
  unfold call_frontend_method, evaluate_javascript_expression.
  pose proof (λ e, kept_modify plugin (add_record e) (λ w, eq_refl)). pose proof (λ s b, kept_modify plugin (add_script s b) (λ w, eq_refl)).
  steps.
Qed.

Lemma framed_frontend dump parse fmt_double cdp ltr clock plugins ipc params :
  framed (request_frontend dump parse fmt_double cdp ltr clock plugins ipc plugin params : M json).
Proof.
  unfold request_frontend. destruct (negb ipc); [apply steps_ret, _|]. intros s. rewrite bind_run. unfold lift.
  destruct (frontend_call plugin params) as [call|e| |] eqn:E; try done. apply framed_ipc. by eapply kept_frontend.
Qed.

Lemma framed_hooks hooks (s : loader Store Re L) :
  m_virtual_resources (ctl hooks) = m_virtual_resources (ctl (l_hooks s)) → request_frame plugin s (set_hooks hooks s).
Proof. intros Hh. split; [by destruct s|]. split; [by destruct s|]. by destruct s. Qed.

Lemma framed_add_hook compile backend hooks ty params : framed (request_add_hook compile backend hooks ty params : M json).
Proof.
  unfold request_add_hook, with_hooks. destruct (negb backend); [apply steps_ret, _|]. destruct (negb hooks); [apply steps_ret, _|].
  apply steps_bind; [exact _|apply steps_lift, _|]. intros content. apply steps_bind; [exact _|apply steps_lift, _|]. intros pattern.
  intros s. run_simpl. unfold add_browser_hook. destruct (compile pattern) as [re|]; [|done]. run_simpl. intros _. by apply framed_hooks.
Qed.

Lemma framed_remove_hook backend hooks params : framed (request_remove_hook backend hooks params : M json).
Proof.
  unfold request_remove_hook, with_hooks. destruct (negb backend); [apply steps_ret, _|]. destruct (negb hooks); [apply steps_ret, _|].
  apply steps_bind; [exact _|apply steps_lift, _|]. intros id s. run_simpl. unfold remove_browser_hook.
  destruct (existsb _ _); run_simpl; intros _; by apply framed_hooks.
Qed.
End isolation.

(** A line goes to the plugin's own logger. *)
Lemma log_to_others {L} date plugin (f : plugin_logger L → plugin_logger L) reg i lg :
  reg !! i = Some lg → pluginName lg ≠ plugin → log_to date plugin f reg !! i = Some lg.
Proof.
  intros Hi Hn. unfold log_to, get_or_create_plugin_logger. destruct (find_logger plugin reg) as [k|] eqn:E.
  - apply find_logger_Some in E as (lg' & Hk & Hp). rewrite list_lookup_alter_ne; [done|]. intros ->. congruence.
  - apply lookup_lt_Some in Hi as Hl. rewrite list_lookup_alter_ne by lia. by rewrite lookup_app_l.
Qed.

Section shared.
  Context `{SettingsStore Store} {Re L : Type}.
  Variables (method : bytes) (params : json).
  Abbreviation M := (SM (loader Store Re L)).
  Abbreviation shared := (steps (shared_frame method params)).

Lemma same_shared (s s' : loader Store Re L) : l_hooks s' = l_hooks s → l_files s' = l_files s → shared_frame method params s s'.
Proof. intros Hh Hf. unfold shared_frame. rewrite Hh, Hf. split; [by repeat case_match|by right]. Qed.
Lemma shared_modify (f : loader Store Re L → loader Store Re L) : (∀ s, l_hooks (f s) = l_hooks s ∧ l_files (f s) = l_files s) → shared (modify f).
Proof. intros Hf. apply steps_modify. intros s. destruct (Hf s). by apply same_shared. Qed.
Lemma shared_ipc {A} (m : SM (ipc_world Store) A) : shared (on_ipc m : M A).
Proof. intros s _. unfold on_ipc. destruct (m (l_ipc s)) as [r w]. apply same_shared; by destruct s. Qed.
Lemma shared_dispatcher {A} (m : SM (dispatcher ready_cb (list ready_cb)) A) : shared (on_dispatcher m : M A).
Proof. intros s _. unfold on_dispatcher. destruct (m _) as [r d]. apply same_shared; by destruct s. Qed.

Lemma shared_hooks (f : theme_webkit_mgr → theme_webkit_mgr) (s : loader Store Re L) :
  (if bytes_eqb method #"add_browser_css" || bytes_eqb method #"add_browser_js"
   then m_hook_list (ctl (l_hooks s)) `prefix_of` m_hook_list (ctl (f (l_hooks s)))
   else if bytes_eqb method #"remove_browser_module"
   then ∀ h, value_u64 #"hook_id" 0 params ≠ Ok (id h) → h ∈ m_hook_list (ctl (f (l_hooks s))) ↔ h ∈ m_hook_list (ctl (l_hooks s))
   else f (l_hooks s) = l_hooks s) → shared_frame method params s (set_hooks (f (l_hooks s)) s).
Proof. intros Hf. destruct s; cbn in *. split; [exact Hf|by right]. Qed.

Lemma shared_add_hook compile backend hooks ty :
  method = #"add_browser_css" ∨ method = #"add_browser_js" → shared (request_add_hook compile backend hooks ty params : M json).
Proof.
  intros Hm. assert (bytes_eqb method #"add_browser_css" || bytes_eqb method #"add_browser_js" = true) as Hb by (by destruct Hm as [-> | ->]).
  unfold request_add_hook, with_hooks. destruct (negb backend); [apply steps_ret, _|]. destruct (negb hooks); [apply steps_ret, _|].
  apply steps_bind; [exact _|apply steps_lift, _|]. intros content. apply steps_bind; [exact _|apply steps_lift, _|]. intros pattern.
  intros s. run_simpl. unfold add_browser_hook. destruct (compile pattern) as [re|]; [|done]. run_simpl. intros _.
  apply (shared_hooks (λ m, ThemeWebkit (add_hook (Hook content re ty) (ctl m)).2 (m_registered_hooks m ++ [_]))). rewrite Hb. cbn. by eexists.
Qed.
Lemma shared_remove_hook backend hooks : method = #"remove_browser_module" → shared (request_remove_hook backend hooks params : M json).
Proof.
  intros Hm. unfold request_remove_hook, with_hooks. destruct (negb backend); [apply steps_ret, _|]. destruct (negb hooks); [apply steps_ret, _|].
  intros s. run_simpl. destruct (value_u64 #"hook_id" 0 params) as [i|e| |] eqn:Ei; try done. run_simpl. rewrite (surjective_pairing (remove_browser_hook _ _)). run_simpl.
  intros _. apply (shared_hooks (λ m, (remove_browser_hook i m).2)). assert (bytes_eqb method #"add_browser_css" || bytes_eqb method #"add_browser_js" = false ∧ bytes_eqb method #"remove_browser_module" = true) as [-> ->] by (by subst).
  unfold remove_browser_hook. destruct (existsb _ _); [|done]. unfold remove_hook. cbn [snd ctl m_hook_list]. intros h Hh. rewrite !list_elem_of_In, filter_In. split; [by intros []|]. intros Hin. split; [done|].
  apply negb_true_iff, Z.eqb_neq. intros E. rewrite Ei, E in Hh. done.
Qed.
Lemma shared_download curl strerror fopen : method = #"http_download" → shared (request_download curl strerror fopen params : M json).
Proof.
  intros Hm. unfold request_download. apply steps_bind; [exact _|apply steps_lift, _|]. intros url. intros s. rewrite bind_run. unfold lift at 1.
  destruct (value_string #"path" [] params) as [dest|e| |] eqn:Ed; try done.
  assert (∀ f : gmap bytes bytes → gmap bytes bytes, (∀ m k, k ≠ c_str dest → f m !! k = m !! k) → shared (modify (λ s, set_files (f (l_files s)) s) : M ())) as Hput.
  { intros f Hf. apply steps_modify. intros s'. split; [destruct s'; by repeat case_match|]. intros k. destruct (decide (k = c_str dest)) as [->|Hk]; [left; split; [done|by exists dest]|].
    right. destruct s'. by apply Hf. }
  assert (∀ b, shared (modify (λ s, set_files (<[c_str dest := b]> (l_files s)) s) : M ())).
  { intros b. apply (Hput (insert (c_str dest) b)). intros m k Hk. by apply lookup_insert_ne. }
  assert (shared (modify (λ s, set_files (delete (c_str dest) (l_files s)) s) : M ())).
  { apply (Hput (delete (c_str dest))). intros m k Hk. by apply lookup_delete_ne. }
  match goal with |- defined (?m s).1 → _ => assert (shared m) as Hs; [|apply Hs] end. steps.
Qed.
End shared.

Lemma child_request_shared `{SettingsStore Store} {Re L} dump parse fmt_double cdp_evaluate ltr clock all_plugins compile curl strerror
    fopen steam_path install_path version date time now alive ipc backend hooks plugin method params :
  steps (shared_frame method params)
    (child_request dump parse fmt_double cdp_evaluate ltr clock all_plugins compile curl strerror fopen steam_path install_path version
       date time now alive ipc backend hooks plugin method params : SM (loader Store Re L) json).
Proof.
  pose proof (λ A, shared_ipc (Store:=Store) (Re:=Re) (L:=L) method params (A:=A)). pose proof (λ A, shared_dispatcher (Store:=Store) (Re:=Re) (L:=L) method params (A:=A)).
  assert (∀ l, steps (shared_frame method params) (modify (λ s, set_loggers (l (l_loggers s)) s) : SM (loader Store Re L) ())) by (intros l; apply shared_modify; by intros []).
  assert (∀ l, steps (shared_frame method params) (modify (λ s, set_patches (patch_registry_set plugin l (l_patches s)) s) : SM (loader Store Re L) ())) by (intros l; apply shared_modify; by intros []).
  assert (steps (shared_frame method params) (modify notify_patches : SM (loader Store Re L) ())) by (apply shared_modify; by intros []).
  unfold child_request, request_frontend, request_ready, request_log, request_is_enabled,
    request_config_get, request_config_set, request_config_delete, request_config_all, request_patches.
  destruct (bytes_eqb method #"add_browser_css") eqn:E1; [apply bytes_eqb_true in E1; pose proof (shared_add_hook (Store:=Store) (Re:=Re) (L:=L) method params compile backend hooks STYLESHEET (or_introl E1)); steps|].
  destruct (bytes_eqb method #"add_browser_js") eqn:E2; [apply bytes_eqb_true in E2; pose proof (shared_add_hook (Store:=Store) (Re:=Re) (L:=L) method params compile backend hooks JAVASCRIPT (or_intror E2)); steps|].
  destruct (bytes_eqb method #"remove_browser_module") eqn:E3; [apply bytes_eqb_true in E3; pose proof (shared_remove_hook (Store:=Store) (Re:=Re) (L:=L) method params backend hooks E3); steps|].
  destruct (bytes_eqb method #"http_download") eqn:E4; [apply bytes_eqb_true in E4; pose proof (shared_download (Store:=Store) (Re:=Re) (L:=L) method params curl strerror fopen E4); steps|].
  steps.
Qed.

Lemma child_request_framed `{SettingsStore Store} {Re L} dump parse fmt_double cdp_evaluate ltr clock all_plugins compile curl strerror
    fopen steam_path install_path version date time now alive ipc backend hooks plugin method params :
  steps (request_frame plugin)
    (child_request dump parse fmt_double cdp_evaluate ltr clock all_plugins compile curl strerror fopen steam_path install_path version
       date time now alive ipc backend hooks plugin method params : SM (loader Store Re L) json).
Proof.
  unfold child_request, request_ready, request_log, request_is_enabled, request_download,
    request_config_get, request_config_set, request_config_delete, request_config_all, request_patches.
  assert (∀ f, steps (request_frame plugin) (modify (λ s, set_loggers (log_to date plugin f (l_loggers s)) s) : SM (loader Store Re L) ())).
  { intros f. apply framed_modify. intros s. pose proof (log_to_others date plugin f (l_loggers s)). by destruct s; split_and!. }
  assert (∀ f, steps (request_frame plugin) (modify (λ s, set_files (f (l_files s)) s) : SM (loader Store Re L) ())).
  { intros f. apply framed_modify. intros []. by split_and!. }
  assert (steps (request_frame plugin) (modify notify_patches : SM (loader Store Re L) ())) by (apply framed_modify; intros []; by split_and!).
  assert (∀ l, steps (request_frame plugin) (modify (λ s, set_patches (patch_registry_set plugin l (l_patches s)) s) : SM (loader Store Re L) ())).
  { intros l. apply framed_modify. intros []. split_and!; try done. intros n Hn. cbn. by apply registry_set_ne. }
  pose proof (framed_ready (Store:=Store) (Re:=Re) (L:=L) plugin).
  pose proof (framed_frontend (Store:=Store) (Re:=Re) (L:=L) plugin). pose proof (framed_add_hook (Store:=Store) (Re:=Re) (L:=L) plugin).
  pose proof (framed_remove_hook (Store:=Store) (Re:=Re) (L:=L) plugin).
  pose proof (λ t src k v, framed_ipc (Re:=Re) (L:=L) plugin _ (kept_store_set dump plugin t src k v)).
  pose proof (λ t src k, framed_ipc (Re:=Re) (L:=L) plugin _ (kept_store_del dump plugin t src k)).
  steps.
Qed.


(** ** Every request is answered *)

Definition no_doubles (params : json) : Prop := ∀ k f, jget k params ≠ Some (JFloat f).

Lemma value_int_plain k d params : no_doubles params → defined (value_int k d params).
Proof. intros Hn. specialize (Hn k). destruct params; try done. cbn in *. destruct (obj_get k o) as [[]|]; try done. by edestruct Hn. Qed.
Lemma value_u64_plain k d params : no_doubles params → defined (value_u64 k d params).
Proof. intros Hn. apply value_u64_defined. intros f. apply Hn. Qed.
Lemma header_list_defined l : defined (header_list l).
Proof. induction l as [|[k v] l IH]; [done|]. cbn [header_list]. solve_defined; auto with cxx. Qed.
Lemma validate_parts_defined l str ctx : defined (validate_parts l str ctx).
Proof. induction l; [done|]. cbn [validate_parts]. solve_defined; auto with cxx. Qed.
#[local] Hint Resolve validate_parts_defined : cxx.
Lemma validate_text_defined str ctx : defined (validate str ctx).
Proof. unfold validate. solve_defined; auto with cxx. Qed.
#[local] Hint Resolve validate_text_defined : cxx.
Lemma extract_defined sep core ctx msg : defined (extract sep core ctx msg).
Proof. unfold extract. solve_defined; auto with cxx. Qed.
Lemma parse_int_defined s : defined (parse_int s).
Proof. unfold parse_int. solve_defined. Qed.
#[local] Hint Resolve extract_defined parse_int_defined : cxx.
Lemma parse_version_defined s : defined (Semver.parse s).
Proof. unfold Semver.parse. solve_defined; auto with cxx. Qed.
#[local] Hint Resolve parse_version_defined : cxx.
Lemma cmp_parts_defined l k : defined (cmp_parts l k).
Proof. revert k. induction l; intros [|y k]; cbn [cmp_parts]; solve_defined; auto with cxx. Qed.
#[local] Hint Resolve cmp_parts_defined : cxx.
Lemma cmp_defined a b : defined (cmp a b).
Proof.
  unfold cmp, cmp_pre_release. solve_defined; auto with cxx.
Qed.
#[local] Hint Resolve cmp_defined value_int_plain value_u64_plain header_list_defined : cxx.

Lemma transforms_defined l : defined (parse_transforms l).
Proof. induction l; [done|]. cbn [parse_transforms]. unfold parse_transform. solve_defined; auto with cxx. Qed.
#[local] Hint Resolve transforms_defined : cxx.
Lemma patches_defined plugin l : defined (parse_patches plugin l).
Proof. induction l; [done|]. cbn [parse_patches]. unfold parse_patch. solve_defined; auto with cxx. Qed.
Lemma request_headers_defined params : defined (request_headers params).
Proof. unfold request_headers. solve_defined; auto with cxx. Qed.
#[local] Hint Resolve patches_defined request_headers_defined : cxx.
Lemma http_request_defined curl strerror params : no_doubles params → defined (http_request curl strerror params).
Proof. intros Hn. unfold http_request, auth_opts. solve_defined; auto with cxx. Qed.
Lemma frontend_call_defined plugin params : defined (frontend_call plugin params).
Proof. unfold frontend_call. solve_defined; auto with cxx. Qed.
Lemma path_answer_defined p : defined p → defined (path_answer p).
Proof. intros Hp. destruct p; try done; by destruct Hp. Qed.
Lemma cmp_version_defined params : defined (cmp_version params).
Proof.
  unfold cmp_version. apply bind_defined; [auto with cxx|]. intros v1 _. apply bind_defined; [auto with cxx|]. intros v2 _.
  pose proof (cmp_defined (skip_v (c_str v1)) (skip_v (c_str v2))). destruct (cmp _ _); try done; by destruct H.
Qed.
#[local] Hint Resolve http_request_defined frontend_call_defined path_answer_defined cmp_version_defined : cxx.

Lemma total_on_ipc `{SettingsStore Store} {Re L A} (m : SM (ipc_world Store) A) : total m → total (on_ipc m : SM (loader Store Re L) A).
Proof. intros Hm s. unfold on_ipc. specialize (Hm (l_ipc s)). by destruct (m (l_ipc s)). Qed.

Lemma total_ready `{SettingsStore Store} {Re L} plugins plugin : (∀ s : Store, defined (get_enabled_backends s plugins)) →
  total (request_ready plugins plugin : SM (loader Store Re L) json).
Proof.
  intros Hp s. unfold request_ready. apply bind_run_defined; [apply Ok_defined|]. intros e s1 [= <- <-]. apply bind_run_defined; [|intros; apply Ok_defined].
  unfold on_dispatcher, backend_loaded_event_hdlr. run_simpl. unfold enabled_names. specialize (Hp (store_of s)).
  destruct (get_enabled_backends (store_of s) plugins) as [l|e| |]; [|done|by destruct Hp..].
  cbn [mbind outcome_bind]. match goal with |- context [update run_ready_cb (Ok ?l) ?d] =>
    destruct (update_spec run_ready_cb (λ _ _, Ok_defined _) l d) as (d' & -> & _) end. done.
Qed.

Lemma enabled_backends_defined `{SettingsStore Store} (s : Store) plugins : defined (get_enabled_backends s plugins).
Proof. induction plugins; [done|]. cbn [get_enabled_backends]. solve_defined; auto with cxx. Qed.
#[local] Hint Resolve enabled_backends_defined total_ready : total.

Section answered.
  Context `{SettingsStore Store} {Re L : Type}.
  Variable dump : json → outcome bytes.
  Variable cdp_evaluate : bytes → bool → outcome json.
  Variables steam_path install_path : outcome bytes.
  Hypothesis dump_defined : ∀ j, defined (dump j).
  Hypothesis cdp_defined : ∀ s b, defined (cdp_evaluate s b).
  Hypothesis paths_defined : defined steam_path ∧ defined install_path.

Lemma total_store_set t src p k v : total (store_set dump t src p k v : SM (ipc_world Store) result).
Proof.
  pose proof (s_set_defined (Store:=Store)). pose proof (s_save_defined (Store:=Store)). pose proof (validate_defined dump dump_defined). pose proof (notify_defined dump dump_defined). unfold store_set. total.
Qed.
Lemma total_store_del t src p k : total (store_del dump t src p k : SM (ipc_world Store) result).
Proof.
  pose proof (s_set_defined (Store:=Store)). pose proof (s_save_defined (Store:=Store)). pose proof (del_read_defined (Store:=Store)). pose proof (notify_defined dump dump_defined). unfold store_del, store_write. total.
Qed.

Lemma frontend_call_fields plugin params call : frontend_call plugin params = Ok call → message_fields call.
Proof.
  unfold frontend_call. intros Hc. inv_ok. subst call. intros _. split; [done|]. split; [by intros v [= <-]|]. intros v id [= <-] [= <-]. by eexists.
Qed.

Lemma total_frontend parse fmt_double ltr clock plugins ipc plugin params :
  total (request_frontend dump parse fmt_double cdp_evaluate ltr clock plugins ipc plugin params : SM (loader Store Re L) json).
Proof.
  unfold request_frontend. destruct (negb ipc); [apply total_ret|]. apply total_lift_bind; [auto with cxx|]. intros call Hc.
  apply total_on_ipc, total_process_message; try done. by eapply frontend_call_fields.
Qed.

Lemma total_child_request parse fmt_double ltr clock plugins compile curl strerror fopen version date time now alive ipc backend hooks plugin method params :
  no_doubles params → (method = #"patches" → is_object params = true → contains #"patches" params = true) →
  total (child_request dump parse fmt_double cdp_evaluate ltr clock plugins compile curl strerror fopen steam_path install_path version
           date time now alive ipc backend hooks plugin method params : SM (loader Store Re L) json).
Proof.
  intros Hn Hp. destruct paths_defined. pose proof total_store_set. pose proof total_store_del. pose proof total_frontend.
  pose proof (λ t src p k v, total_on_ipc (Re:=Re) (L:=L) _ (total_store_set t src p k v)).
  pose proof (λ t src p k, total_on_ipc (Re:=Re) (L:=L) _ (total_store_del t src p k)).
  assert (∀ c re ty h, defined (add_browser_hook (Re:=Re) compile c re ty h)) by (intros; unfold add_browser_hook; by destruct (compile _)).
  assert (total (request_patches plugin params : SM (loader Store Re L) json) ∨ bytes_eqb method #"patches" = false) as Hpat.
  { destruct (bytes_eqb method #"patches") eqn:E; [left|by right]. apply bytes_eqb_true in E. specialize (Hp E). unfold request_patches.
    apply total_lift_bind; [|total]. destruct (is_object params); auto with cxx. }
  unfold child_request, request_add_hook, request_remove_hook, with_hooks, request_log, request_is_enabled, request_download,
    request_config_get, request_config_set, request_config_delete, request_config_all, opt_value.
  destruct Hpat as [Hpat| ->]; total.
  all: apply total_lift; case_match; auto with cxx.
Qed.
End answered.

Lemma reader_request {W} h id method params (p : process W) :
  m_request_handler p = Some h → i32 id = id → defined (h (m_plugin_name p) method params (world p)).1 →
  ∃ reply p', reader_message (request_msg id method params) p = (Ok (), p') ∧ outgoing p' = outgoing p ++ [reply_msg id reply] ∧
    world p' = (h (m_plugin_name p) method params (world p)).2.
Proof.
  intros Hh Hi Hd. destruct (request_fields id method params) as (F1 & F2 & F3 & _). unfold reader_message. run_simpl. rewrite F1.
  change (bytes_eqb TYPE_REQUEST TYPE_RESPONSE) with false. change (bytes_eqb TYPE_REQUEST TYPE_REQUEST) with true. cbn iota.
  run_simpl. rewrite F2, Hi. run_simpl. rewrite F3. run_simpl.
  change (value_json #"params" (JObj []) (request_msg id method params)) with (Ok params). cbn iota. run_simpl. rewrite Hh. unfold catching.
  rewrite bind_run. unfold run_handler. destruct (h _ _ _ _) as [[r|e| |] w] eqn:E; cbn [fst snd] in *; try by destruct Hd.
  - exists (inl r). eexists. split; [reflexivity|]. by destruct p.
  - exists (inr e). eexists. split; [reflexivity|]. by destruct p.
Qed.

(** A backend's request is answered once and goes no further than the
    backend's own plugin.  The reader thread that takes a well-formed request,
    with the loader's handler installed, sends exactly one response, with the
    request's id, and the state it leaves differs only in what belongs to the
    plugin; whatever the handler throws becomes an error response. *)
Theorem child_requests_answered `{SettingsStore Store} {Re L} dump parse fmt_double cdp_evaluate ltr clock all_plugins compile curl strerror
    fopen steam_path install_path version date time now alive ipc backend hooks id method params (p : process (loader Store Re L)) :
  (∀ j, defined (dump j)) → (∀ s b, defined (cdp_evaluate s b)) →
  defined steam_path ∧ defined install_path →
  m_request_handler p = Some (child_request dump parse fmt_double cdp_evaluate ltr clock all_plugins compile curl strerror fopen steam_path
    install_path version date time now alive ipc backend hooks) →
  i32 id = id → no_doubles params → (method = #"patches" → is_object params = true → contains #"patches" params = true) →
  ∃ reply p', reader_message (request_msg id method params) p = (Ok (), p') ∧ outgoing p' = outgoing p ++ [reply_msg id reply] ∧
    is_response id (reply_msg id reply) ∧ request_frame (m_plugin_name p) (world p) (world p').
Proof.
  intros Hdump Hcdp Hpaths Hh Hi Hn Hpat.
  pose proof (total_child_request dump cdp_evaluate steam_path install_path Hdump Hcdp Hpaths parse fmt_double ltr clock all_plugins
    compile curl strerror fopen version date time now alive ipc backend hooks (m_plugin_name p) method params Hn Hpat (world p)) as Hd.
  destruct (reader_request _ id method params p Hh Hi Hd) as (reply & p' & H1 & H2 & H3). exists reply, p'. split_and!; [done..|by apply reply_response|].
  rewrite H3. by apply child_request_framed.
Qed.

(** The body of a response stays within its limit. *)
Lemma receive_body_bounded data chunks :
  len data <= MAX_RESPONSE_BODY → len (receive_body data chunks).1 <= MAX_RESPONSE_BODY.
Proof.
  revert data. induction chunks as [|c chunks IH]; intros data Hd; [done|]. cbn [receive_body]. destruct (Z.ltb_spec MAX_RESPONSE_BODY (len data + len c)); [done|].
  apply IH. unfold len in *. rewrite length_app. lia.
Qed.

(** ** Concrete requests *)

#[local] Existing Instance demo_store.

Definition demo_request (plugin method : bytes) (params : json) : SM (loader (config_manager nat * disk) nat nat) json :=
  child_request demo_dump (λ _, None) (λ _, []) demo_cdp false (S754_zero false, 0) [] (λ _, Some 0%nat) None (λ _, []) (λ _, true) (Ok #"/s")
    (Throw #"none") #"3" [] [] 0 true true true true plugin method params.


Definition demo_process : process (loader (config_manager nat * disk) nat nat) :=
  Process #"p" true false 1 ∅ ∅ 1 (Some demo_request) demo_loader [].

Lemma child_requests_answered_witness :
  ∃ reply p', reader_message (request_msg 9 #"config_delete" (jobj [(#"key", JStr #"a")])) demo_process = (Ok (), p') ∧
    outgoing p' = [] ++ [reply_msg 9 reply] ∧ is_response 9 (reply_msg 9 reply) ∧ request_frame #"p" demo_loader (world p').
Proof.
  apply (child_requests_answered demo_dump (λ _, None) (λ _, []) demo_cdp false (S754_zero false, 0) [] (λ _, Some 0%nat) None (λ _, []) (λ _, true)
    (Ok #"/s") (Throw #"none") #"3" [] [] 0 true true true true 9 #"config_delete" (jobj [(#"key", JStr #"a")]) demo_process); try done.
  - intros k f. cbn. by case_match.
Defined.

(** A backend can make the host read a key that is not there. *)
Theorem patches_key_unchecked : (demo_request #"p" #"patches" (JObj []) demo_loader).1 = UB.
Proof. by vm_compute. Qed.

(** A plugin can remove a browser hook another plugin added. *)
Theorem hooks_have_no_owner :
  let r := (_ ← demo_request #"p" #"add_browser_css" (jobj [(#"content", JStr #"x.css")]);
            demo_request #"q" #"remove_browser_module" (jobj [(#"hook_id", JInt 0)])) demo_loader in
  r.1 = Ok (jobj [(#"success", JBool true)]) ∧ m_hook_list (ctl (l_hooks r.2)) = [].
Proof. by vm_compute. Qed.

(** The reader thread of a plugin being stopped runs until the process object
    is gone, after its patches were removed: a patch list it still takes is
    registered for a plugin that no longer runs. *)
Theorem patches_outlive_plugin :
  let patch := jobj [(#"patches", JArr [jobj [(#"file", JStr #"f"); (#"find", JStr #"x")]])] in
  let r := (_ ← destroy_plugin [] #"q" false; demo_request #"q" #"patches" patch) demo_loader in
  bool_decide (is_Some (m_processes r.2 !! #"q")) = false ∧ l_patches r.2 !! #"q" = Some [Patch #"q" #"f" #"x" []].
Proof. by vm_compute. Qed.
