(* ===== verification/MepServer.v ===== *)
(** * MepServer: the developer protocol's server and its methods

    [mep/mep_server.cc] (connections, subscriptions of a client, the read loop)
    and [mep/mep_hooks.cc] (the table of methods), on top of the messages and
    the router of [MepProtocol], the recorders and buses of [Recorder], the
    patch registry and the loader.  One state holds everything the methods
    reach; clients, publishers and hang-ups take turns on it.  A message is a
    JSON value here, its bytes are the subject of [Frames]. *)

From S2P Require Import Prelude State Json Frames StarFile Css Ring Recorder MepProtocol Config.
From S2P Require Import PluginConfig CdpClient Rpc Patches Process Lifecycle CoreIpc Url HttpHooks Backend ChildApi.
From Stdlib Require Import SpecFloat DecimalN.

(** ** State *)

(** What a method's listener captures: the client, its subscription, the
    plugin asked for, whether it belongs to a [plugin.stream], and the least
    level of [plugin.logs]. *)
Record listener := Listener {
  ls_client : nat;
  ls_sub : bytes;
  ls_plugin : bytes;
  ls_stream : bool;
  ls_min : log_level;
}.

(** Where a listener can be registered; loggers by their place in the
    registry. *)
Inductive bus := LogBus (logger : nat) | CrashB | FfiB | ConsoleB | ExceptionB | PatchB | SdkB | UpdateB.
#[export] Instance bus_eq_dec : EqDecision bus.
Proof. solve_decision. Defined.

(** A connection: [cancel_map] has for each subscription the listener ids its
    cancel function reads, [cl_sent] what was written to the socket. *)
Record client := Client {
  cl_fd : Z;
  cl_open : bool;
  id_counter : Z;
  cancel_map : gmap bytes (list (bus * Z));
  cl_sent : list json;
}.
Definition client_new (fd : Z) : client := Client fd true 0 ∅ [].

Record mep (Store Re : Type) := Mep {
  m_loader : loader Store Re listener;
  m_ffi : recorder ffi_call_entry listener;
  m_console : recorder console_entry listener;
  m_exceptions : recorder exception_entry listener;
  m_patch_stream : recorder patch_event listener;
  m_sdk : sdk_ready_bus listener;
  m_updates : table listener;
  m_clients : list client;
}.
Arguments Mep {_ _} _ _ _ _ _ _ _ _.
Arguments m_loader {_ _} _.
Arguments m_ffi {_ _} _.
Arguments m_console {_ _} _.
Arguments m_exceptions {_ _} _.
Arguments m_patch_stream {_ _} _.
Arguments m_sdk {_ _} _.
Arguments m_updates {_ _} _.
Arguments m_clients {_ _} _.

Section setters.
  Context {Store Re : Type}.
  Implicit Types w : mep Store Re.
Definition set_loader x w : mep Store Re := let 'Mep _ b c d e f g h := w in Mep x b c d e f g h.
Definition set_ffi x w : mep Store Re := let 'Mep a _ c d e f g h := w in Mep a x c d e f g h.
Definition set_console x w : mep Store Re := let 'Mep a b _ d e f g h := w in Mep a b x d e f g h.
Definition set_exceptions x w : mep Store Re := let 'Mep a b c _ e f g h := w in Mep a b c x e f g h.
Definition set_patch_stream x w : mep Store Re := let 'Mep a b c d _ f g h := w in Mep a b c d x f g h.
Definition set_sdk x w : mep Store Re := let 'Mep a b c d e _ g h := w in Mep a b c d e x g h.
Definition set_updates x w : mep Store Re := let 'Mep a b c d e f _ h := w in Mep a b c d e f x h.
Definition set_clients x w : mep Store Re := let 'Mep a b c d e f g _ := w in Mep a b c d e f g x.

(** [m_listeners[m_next_id++] = fn] of [patch_update_notifier]. *)
Definition notifier_add (fn : listener) (t : table listener) : Z * table listener :=
  let id := m_id_counter t in (id, MkTable (<[id := fn]> (m_listeners t)) (i32 (id + 1))).

(** *** Clients *)

Definition upd_client (c : nat) (f : client → client) w : mep Store Re := set_clients (alter f c (m_clients w)) w.
Definition put_sent (j : json) (cl : client) : client :=
  Client (cl_fd cl) (cl_open cl) (id_counter cl) (cancel_map cl) (cl_sent cl ++ [j]).
Definition put_cancels m (cl : client) : client := Client (cl_fd cl) (cl_open cl) (id_counter cl) m (cl_sent cl).

(** [ctx->push]: the event is written to the client's socket. *)
Definition send_to (c : nat) (j : json) w : mep Store Re := upd_client c (put_sent j) w.

Definition sub_id (fd n : Z) : bytes := #"sub-" ++ fmt_int fd ++ #"-" ++ fmt_int n.

(** [subs->subscribe]: the cancel function reads ids that are not known yet. *)
Definition subscribe (c : nat) : SM (mep Store Re) bytes := λ w,
  match m_clients w !! c with
  | Some cl =>
      let n := i32 (id_counter cl + 1) in
      let i := sub_id (cl_fd cl) n in
      (Ok i, upd_client c (λ cl, Client (cl_fd cl) (cl_open cl) n (<[i := []]> (cancel_map cl)) (cl_sent cl)) w)
  | None => (UB, w)
  end.

(** [listener_id->store(id)] *)
Definition store_id (c : nat) (sub : bytes) (b : bus) (i : Z) w : mep Store Re :=
  upd_client c (λ cl, put_cancels (alter (λ l, l ++ [(b, i)]) sub (cancel_map cl)) cl) w.

(** *** Buses *)

Definition on_logger (i : nat) (f : plugin_logger listener → plugin_logger listener) w : mep Store Re :=
  set_loader (set_loggers (alter f i (l_loggers (m_loader w))) (m_loader w)) w.

Definition bus_remove (b : bus) (id : Z) w : mep Store Re :=
  match b with
  | LogBus i => on_logger i (log_remove_listener id) w
  | CrashB => set_loader (set_crashes (crash_remove_listener id (l_crashes (m_loader w))) (m_loader w)) w
  | FfiB => set_ffi (remove_listener id (m_ffi w)) w
  | ConsoleB => set_console (remove_listener id (m_console w)) w
  | ExceptionB => set_exceptions (remove_listener id (m_exceptions w)) w
  | PatchB => set_patch_stream (remove_listener id (m_patch_stream w)) w
  | SdkB => set_sdk (sdk_remove_listener id (m_sdk w)) w
  | UpdateB => set_updates (table_remove id (m_updates w)) w
  end.

(** A cancel function: every listener whose id is known is removed. *)
Definition cancel (l : list (bus * Z)) w : mep Store Re :=
  foldl (λ w x, if 0 <=? x.2 then bus_remove x.1 x.2 w else w) w l.

(** [subs->unsubscribe] *)
Definition unsubscribe_client (c : nat) (sub : bytes) : SM (mep Store Re) bool := λ w,
  match m_clients w !! c ≫= λ cl, cancel_map cl !! sub with
  | Some l => (Ok true, upd_client c (λ cl, put_cancels (delete sub (cancel_map cl)) cl) (cancel l w))
  | None => (Ok false, w)
  end.

(** The end of [handle_client]: every subscription is cancelled. *)
Definition hang_up (c : nat) w : mep Store Re :=
  match m_clients w !! c with
  | Some cl =>
      let w := foldl (λ w x, cancel x.2 w) w (map_to_list (cancel_map cl)) in
      upd_client c (λ cl, Client (cl_fd cl) false (id_counter cl) ∅ (cl_sent cl)) w
  | None => w
  end.
End setters.

(** ** Events *)

Definition level_rank (l : log_level) : Z := match l with info => 0 | warn_ => 1 | error_ => 2 end.

(** [duration_cast<milliseconds>] of a clock that counts nanoseconds. *)
Definition ms_of_ticks (t : Z) : Z := Z.quot t 1000000.

Definition ffi_fields (e : ffi_call_entry) : json :=
  jobj [(#"direction", JStr (fe_direction e)); (#"method", JStr (fe_method e)); (#"args", JStr (fe_args e));
        (#"result", JStr (fe_result e)); (#"duration_ms", JFloat (fe_duration_ms e)); (#"timestamp", JInt (ms_of_ticks (fe_timestamp e)));
        (#"caller", JStr (fe_caller e))].
Definition crash_fields (e : crash_event) : json :=
  jobj [(#"plugin", JStr (cr_plugin_name e)); (#"exit_code", JInt (exit_code e)); (#"crash_dump_dir", JStr (Recorder.crash_dump_dir e))].
Definition sdk_fields (e : sdk_ready_event) : json :=
  jobj [(#"millennium_version", JStr (millennium_version e)); (#"sdk_version", JStr (sdk_version e))].

Definition event (l : listener) (data : json) : json :=
  jobj [(#"type", JStr #"event"); (#"subscription_id", JStr (ls_sub l)); (#"data", data)].
Definition plugin_event (l : listener) (plugin : bytes) (data : json) : json :=
  jobj [(#"type", JStr #"event"); (#"subscription_id", JStr (ls_sub l)); (#"plugin", JStr plugin); (#"data", data)].

Section methods.
  Context `{T : target} `{SettingsStore Store} {Re : Type}.
  Abbreviation M := (SM (mep Store Re)).
  (** What [plugin_loader] needs, as in [Backend]. *)
  Variable all_plugins : list plugin_t.
  Variable read_file : bytes → option bytes.
  Variable file_exists : bytes → bool.
  Variables steam_path plugins_path : bytes.
  Variable crash_dump_dir : bytes → bytes.
  Variable os : nat → bytes → spawn_os.
  Variable connected : bool.
  (** JSON text, the wall-clock format of a time stamp, [std::sort] by a key,
      the date of a new logger, and the resources of a process. *)
  Variable dump : json → outcome bytes.
  Variable format_log_timestamp : Z → bytes.
  Variable std_sort : list (Z * json) → list (Z * json).
  Variable date : bytes.
  Variable get_metrics : bytes → Z * Z * spec_float.
  (** The build. *)
  Variables version commit build_type : bytes.
  (** Whether the frontend is connected. *)
  Variable ipc_connected : bool.

Definition log_fields (e : log_entry) : json :=
  jobj [(#"level", JStr (level_str (le_level e))); (#"message", JStr (le_message e));
        (#"timestamp", JStr (format_log_timestamp (le_timestamp_us e)))].

(** *** The listeners *)

(** A listener of a cancelled subscription, or of a client that is gone, does
    nothing. *)
Definition live (l : listener) (w : mep Store Re) : bool :=
  match m_clients w !! ls_client l with
  | Some cl => cl_open cl && bool_decide (is_Some (cancel_map cl !! ls_sub l))
  | None => false
  end.
Definition push_event (l : listener) (j : json) : M () := modify (λ w, if live l w then send_to (ls_client l) j w else w).

Definition on_log (x : listener * log_entry) : M () :=
  let '(l, e) := x in
  if ls_stream l then push_event l (plugin_event l (ls_plugin l) (normalize_log_entry e))
  else if level_rank (le_level e) <? level_rank (ls_min l) then mret tt
  else push_event l (plugin_event l (ls_plugin l) (log_fields e)).
Definition on_crash (x : listener * crash_event) : M () := push_event x.1 (event x.1 (crash_fields x.2)).
Definition on_ffi (x : listener * ffi_call_entry) : M () := push_event x.1 (plugin_event x.1 (ls_plugin x.1) (ffi_fields x.2)).
(** The entry is made presentable after the checks: a cancelled listener does
    not look at it. *)
Definition on_console (x : listener * console_entry) : M () :=
  let '(l, e) := x in
  if ls_stream l then
    alive ← gets (live l);
    if (alive : bool) then data ← lift (normalize_console_entry e); push_event l (plugin_event l (ls_plugin l) data) else mret tt
  else push_event l (plugin_event l (ls_plugin l) (ce_raw e)).
Definition on_exception (x : listener * exception_entry) : M () := push_event x.1 (plugin_event x.1 (ee_plugin x.2) (ee_raw x.2)).
Definition on_patch (x : listener * patch_event) : M () := push_event x.1 (plugin_event x.1 (ls_plugin x.1) (normalize_patch_entry x.2)).
Definition on_sdk (x : listener * sdk_ready_event) : M () := push_event x.1 (event x.1 (sdk_fields x.2)).
Definition on_update (l : listener) : M () := push_event l (event l (JObj [])).

Definition notify_updates : M () := ls ← gets (λ w, table_values (m_updates w)); for_each on_update ls.

(** Code of the loader, followed by the notices of changed patches it gave. *)
Definition on_loader {A} (m : SM (loader Store Re listener) A) : M A := λ w,
  let '(r, l) := m (m_loader w) in
  let n := (l_patch_notices l - l_patch_notices (m_loader w))%nat in
  match for_each (λ _, notify_updates) (replicate n tt) (set_loader l w) with
  | (Ok _, w) => (r, w)
  | (Throw e, w) => (Throw e, w)
  | (UB, w) => (UB, w)
  | (NoFuel, w) => (NoFuel, w)
  end.

(** A listener is registered; some buses call it at once. *)
Definition bus_add (b : bus) (plugin : bytes) (l : listener) : M Z := λ w,
  match b with
  | LogBus i =>
      match l_loggers (m_loader w) !! i with
      | Some lg => let '(id, lg) := log_add_listener l lg in (Ok id, on_logger i (λ _, lg) w)
      | None => (UB, w)
      end
  | CrashB =>
      let '(id, bus, calls) := crash_add_listener l (l_crashes (m_loader w)) in
      (_ ← for_each on_crash calls; mret id) (set_loader (set_crashes bus (m_loader w)) w)
  | FfiB => let '(id, r) := add_listener plugin l (m_ffi w) in (Ok id, set_ffi r w)
  | ConsoleB => let '(id, r) := add_listener plugin l (m_console w) in (Ok id, set_console r w)
  | ExceptionB => let '(id, r) := add_listener plugin l (m_exceptions w) in (Ok id, set_exceptions r w)
  | PatchB => let '(id, r) := add_listener plugin l (m_patch_stream w) in (Ok id, set_patch_stream r w)
  | SdkB => let '(id, bus, calls) := sdk_add_listener l (m_sdk w) in (_ ← for_each on_sdk calls; mret id) (set_sdk bus w)
  | UpdateB => let '(id, t) := notifier_add l (m_updates w) in (Ok id, set_updates t w)
  end.

(** A listener of a subscription, whose id is then known to its cancel
    function. *)
Definition attach (c : nat) (sub plugin : bytes) (stream : bool) (min : log_level) (b : bus) : M () :=
  id ← bus_add b plugin (Listener c sub plugin stream min);
  modify (store_id c sub b id).
Definition subscribe_to (c : nat) (plugin : bytes) (stream : bool) (min : log_level) (buses : list bus) : M bytes :=
  sub ← subscribe c;
  _ ← for_each (attach c sub plugin stream min) buses;
  mret sub.

(** ** Methods *)

Abbreviation running name := (on_loader (is_any_backend_running name)).
Abbreviation enabled name := (gets (λ w : mep Store Re, is_enabled (store_of (m_loader w)) name)).
Abbreviation ok req j := (mret (response_ok (rq_id req) j)).
Abbreviation err req text := (mret (response_err (rq_id req) text)).

Definition require_string (req : request_t) (key : bytes) : option bytes :=
  match jget key (rq_params req) with Some (JStr s) => Some s | _ => None end.

(** [if (!name) return err("missing required param: ...")] *)
Definition requiring (key : bytes) (k : request_t → bytes → M response_t) (req : request_t) : M response_t :=
  match require_string req key with
  | Some s => k req s
  | None => err req (#"missing required param: " ++ key)
  end.
Definition requiring_ctx (ctx : option nat) (k : nat → request_t → M response_t) (req : request_t) : M response_t :=
  match ctx with
  | Some c => k c req
  | None => err req (rq_method req ++ #" requires a live connection")
  end.

Definition find_plugin (plugins : list plugin_t) (name : bytes) : option plugin_t := find (λ p, bytes_eqb (plugin_name p) name) plugins.

Definition plugin_to_json (p : plugin_t) : M json :=
  let pj := plugin_json p in
  common ← lift (value_string #"common_name" (plugin_name p) pj);
  description ← lift (value_string #"description" [] pj);
  e ← enabled (plugin_name p);
  r ← running (plugin_name p);
  author ← lift (value_string #"author" [] pj);
  mret (jobj [(#"name", JStr (plugin_name p)); (#"common_name", JStr common); (#"description", JStr description);
              (#"enabled", JBool e); (#"running", JBool r); (#"version", default JNull (jget #"version" pj));
              (#"author", JStr author); (#"config", pj); (#"path", JStr (plugin_base_dir p))]).

Fixpoint map_run {A B} (f : A → M B) (l : list A) : M (list B) :=
  match l with [] => mret [] | x :: l => y ← f x; ys ← map_run f l; mret (y :: ys) end.

Definition shown : list plugin_t := List.filter (λ p, negb (is_internal p)) all_plugins.

Definition plugin_list (req : request_t) : M response_t := l ← map_run plugin_to_json shown; ok req (JArr l).

Definition with_plugin (k : request_t → plugin_t → M response_t) (req : request_t) (name : bytes) : M response_t :=
  match find_plugin all_plugins name with
  | Some p => k req p
  | None => err req (#"plugin not found: " ++ name)
  end.
Definition plugin_get : request_t → M response_t :=
  requiring #"name" (with_plugin (λ req p, j ← plugin_to_json p; ok req j)).

Abbreviation set_enable name on reload :=
  (on_loader (set_plugin_enable all_plugins read_file file_exists steam_path plugins_path crash_dump_dir os connected name on reload)).
Abbreviation destroy name := (on_loader (destroy_plugin all_plugins name false)).

Definition plugin_enable (on : bool) : request_t → M response_t :=
  requiring #"name" (λ req name, _ ← set_enable name on true; ok req (jobj [(#"name", JStr name); (#"enabled", JBool on)])).

Definition plugin_start : request_t → M response_t :=
  requiring #"name" (λ req name,
    r ← running name;
    if (r : bool) then err req (#"plugin backend is already running: " ++ name) else
    _ ← set_enable name true true;
    r ← running name;
    ok req (jobj [(#"name", JStr name); (#"running", JBool r)])).

Definition plugin_stop : request_t → M response_t :=
  requiring #"name" (λ req name, _ ← destroy name; ok req (jobj [(#"name", JStr name); (#"running", JBool false)])).

Definition plugin_restart : request_t → M response_t :=
  requiring #"name" (λ req name,
    let reload_ui := match jget #"reload_ui" (rq_params req) with Some (JBool b) => b | _ => false end in
    _ ← destroy name;
    _ ← set_enable name true reload_ui;
    r ← running name;
    ok req (jobj [(#"name", JStr name); (#"running", JBool r); (#"reload_ui", JBool reload_ui)])).

Definition plugin_status : request_t → M response_t :=
  requiring #"name" (λ req name, with_plugin (λ req p,
    r ← running name;
    e ← enabled name;
    ok req (jobj [(#"name", JStr name); (#"running", JBool r); (#"enabled", JBool e)])) req name).

(** *** Logs and events *)

Definition sub_field (sub : bytes) : bytes * json := (#"subscription_id", JStr sub).

Definition min_level (req : request_t) : log_level :=
  let text := match jget #"min_level" (rq_params req) with Some (JStr s) => s | _ => #"info" end in
  if bytes_eqb text #"error" then error_ else if bytes_eqb text #"warn" then warn_ else info.

Definition plugin_logs (ctx : option nat) : request_t → M response_t :=
  requiring_ctx ctx (λ c, requiring #"name" (λ req name,
    let min := min_level req in
    loggers ← gets (λ w : mep Store Re, l_loggers (m_loader w));
    match find_logger name loggers with
    | None => ok req (jobj [(#"subscription_id", JNull); (#"logs", JArr [])])
    | Some i =>
        let entries := match loggers !! i with Some lg => collect_logs lg | None => [] end in
        let initial := map log_fields (List.filter (λ e, level_rank min <=? level_rank (le_level e)) entries) in
        sub ← subscribe_to c name false min [LogBus i];
        ok req (jobj [sub_field sub; (#"logs", JArr initial)])
    end)).

Definition plugin_crash (ctx : option nat) : request_t → M response_t :=
  requiring_ctx ctx (λ c req, sub ← subscribe_to c [] false info [CrashB]; ok req (jobj [sub_field sub])).

(** The one body of the methods that end a subscription. *)
Definition unsubscribe_method (ctx : option nat) : request_t → M response_t :=
  requiring_ctx ctx (λ c, requiring #"subscription_id" (λ req sub,
    done ← unsubscribe_client c sub;
    if (done : bool) then ok req (jobj [sub_field sub]) else err req (#"unknown subscription_id: " ++ sub))).

Definition plugin_ffi (ctx : option nat) : request_t → M response_t :=
  requiring_ctx ctx (λ c, requiring #"name" (λ req name,
    r ← gets m_ffi;
    initial ← lift (get_recent name 200 r);
    sub ← subscribe_to c name false info [FfiB];
    ok req (jobj [sub_field sub; (#"calls", JArr (map ffi_fields initial))]))).

Definition plugin_console (ctx : option nat) : request_t → M response_t :=
  requiring_ctx ctx (λ c, requiring #"name" (λ req name,
    r ← gets m_console;
    initial ← lift (get_recent name 200 r);
    sub ← subscribe_to c name false info [ConsoleB];
    ok req (jobj [sub_field sub; (#"messages", JArr (map ce_raw initial))]))).

Definition plugin_stream (ctx : option nat) : request_t → M response_t :=
  requiring_ctx ctx (λ c, requiring #"name" (λ req name,
    found ← gets (λ w : mep Store Re, get_or_create_plugin_logger date name (l_loggers (m_loader w)));
    _ ← modify (λ w, set_loader (set_loggers found.2 (m_loader w)) w);
    snapshot ← match found.2 !! found.1 with
               | Some lg =>
                   console ← gets m_console;
                   patches ← gets m_patch_stream;
                   lift (collect_log_snapshot std_sort lg console patches 200)
               | None => lift UB
               end;
    sub ← subscribe_to c name true info [LogBus found.1; ConsoleB; PatchB];
    ok req (jobj [sub_field sub; (#"entries", snapshot)]))).

Definition runtime_exceptions (ctx : option nat) : request_t → M response_t :=
  requiring_ctx ctx (λ c req,
    let plugin := default [] (require_string req #"plugin") in
    r ← gets m_exceptions;
    initial ← lift (get_recent plugin 200 r);
    sub ← subscribe_to c plugin false info [ExceptionB];
    ok req (jobj [sub_field sub; (#"exceptions", JArr (map ee_raw initial))])).

Definition sdk_ready (ctx : option nat) : request_t → M response_t :=
  requiring_ctx ctx (λ c req,
    last ← gets (λ w : mep Store Re, sdk_get_last (m_sdk w));
    sub ← subscribe_to c [] false info [SdkB];
    ok req (jobj [sub_field sub; (#"ready", match last with Some ev => sdk_fields ev | None => JNull end)])).

Definition patch_updates (ctx : option nat) : request_t → M response_t :=
  requiring_ctx ctx (λ c req, sub ← subscribe_to c [] false info [UpdateB]; ok req (jobj [sub_field sub])).

(** *** The build and the processes *)

Definition millennium_version_of (req : request_t) : M response_t :=
  ok req (jobj [(#"version", JStr version); (#"commit", JStr commit); (#"build_type", JStr build_type)]).

Fixpoint count_plugins (l : list plugin_t) (n e r : Z) : M (Z * Z * Z) :=
  match l with
  | [] => mret (n, e, r)
  | p :: l =>
      on ← enabled (plugin_name p);
      up ← running (plugin_name p);
      count_plugins l (n + 1) (if (on : bool) then e + 1 else e) (if (up : bool) then r + 1 else r)
  end.
Definition millennium_status (req : request_t) : M response_t :=
  counts ← count_plugins shown 0 0 0;
  let '(n, e, r) := counts in
  ok req (jobj [(#"plugin_count", JInt n); (#"enabled_count", JInt e); (#"running_count", JInt r)]).

Definition metrics_json (name : bytes) (m : Z * Z * spec_float) : json :=
  let '(rss, heap, cpu) := m in
  jobj [(#"name", JStr name); (#"rss_bytes", JInt rss); (#"heap_bytes", JInt heap); (#"cpu_percent", JFloat cpu)].
(** Only a plugin with a process has resources. *)
Definition get_plugin_metrics (w : mep Store Re) (name : bytes) : Z * Z * spec_float :=
  if bool_decide (is_Some (m_processes (m_loader w) !! name)) then get_metrics name else (0, 0, S754_zero false).

Definition plugin_memory (req : request_t) : M response_t :=
  match require_string req #"name" with
  | Some name => with_plugin (λ req _, m ← gets (λ w, get_plugin_metrics w name); ok req (metrics_json name m)) req name
  | None => l ← gets (λ w, map (λ p, metrics_json (plugin_name p) (get_plugin_metrics w (plugin_name p))) shown); ok req (JArr l)
  end.

Definition api_health (req : request_t) : M response_t :=
  last ← gets (λ w : mep Store Re, sdk_get_last (m_sdk w));
  match last with
  | None => err req #"sdk.ready has not fired yet — call after subscribing to sdk.ready"
  | Some ev =>
      ok req (jobj [(#"healthy", JBool (bool_decide (api_missing ev = []))); (#"missing", JArr (map JStr (api_missing ev)));
                    (#"total", JInt (api_total ev))])
  end.

(** *** Settings *)

(** [make_mep_targets]: the frontend when there is one, and the backends. *)
Definition mep_targets : notify_targets := NotifyTargets ipc_connected true.

Definition result_response (req : request_t) (r : result) (value : json) : M response_t :=
  if r.1 then ok req value else text ← lift (get_string r.2); err req text.

Definition config_get : request_t → M response_t :=
  requiring #"name" (λ req name, requiring #"key" (λ req key,
    s ← gets (λ w : mep Store Re, store_of (m_loader w));
    let r := get s name key in
    result_response req r (jobj [(#"value", r.2)])) req).

Definition config_set : request_t → M response_t :=
  requiring #"name" (λ req name, requiring #"key" (λ req key,
    let value := default JNull (jget #"value" (rq_params req)) in
    r ← on_loader (on_ipc (store_set dump mep_targets o_external name key value));
    result_response req r r.2) req).

Definition config_delete : request_t → M response_t :=
  requiring #"name" (λ req name, requiring #"key" (λ req key,
    r ← on_loader (on_ipc (store_del dump mep_targets o_external name key));
    result_response req r r.2) req).

Definition config_get_all : request_t → M response_t :=
  requiring #"name" (λ req name,
    s ← gets (λ w : mep Store Re, store_of (m_loader w));
    ok req (jobj [(#"config", (get_all s name).2)])).

(** *** Patches and files *)

Definition patch_list (req : request_t) : M response_t :=
  g ← gets (λ w : mep Store Re, l_patches (m_loader w)); ok req (patch_registry_to_json g).

Definition file_of_patch (entry : json) : outcome json :=
  plugin ← value_string #"plugin" [] entry;
  pattern ← value_string #"file" [] entry;
  Ok (jobj [(#"plugin", JStr plugin); (#"pattern", JStr pattern)]).
Definition file_list (req : request_t) : M response_t :=
  g ← gets (λ w : mep Store Re, l_patches (m_loader w));
  l ← lift (map_outcome file_of_patch match patch_registry_to_json g with JArr l => l | _ => [] end);
  ok req (JArr l).

(** The whole stream is read; for one without an end see [blocks]. *)
Definition file_content : request_t → M response_t :=
  requiring #"path" (λ req path,
    match read_file path with
    | Some content => ok req (jobj [(#"content", JStr content)])
    | None => err req (#"could not open file: " ++ path)
    end).

(** ** The server *)

(** The methods in the order of their registration. *)
Definition methods (ctx : option nat) : list (bytes * (request_t → M response_t)) :=
  [(#"plugin.list", plugin_list); (#"plugin.get", plugin_get); (#"plugin.enable", plugin_enable true);
   (#"plugin.disable", plugin_enable false); (#"plugin.start", plugin_start); (#"plugin.stop", plugin_stop);
   (#"plugin.restart", plugin_restart); (#"plugin.status", plugin_status); (#"plugin.logs", plugin_logs ctx);
   (#"plugin.crash", plugin_crash ctx); (#"plugin.crash.unsubscribe", unsubscribe_method ctx);
   (#"plugin.logs.unsubscribe", unsubscribe_method ctx); (#"millennium.version", millennium_version_of);
   (#"millennium.status", millennium_status); (#"plugin.memory", plugin_memory); (#"plugin.ffi", plugin_ffi ctx);
   (#"plugin.ffi.unsubscribe", unsubscribe_method ctx); (#"plugin.console", plugin_console ctx);
   (#"plugin.console.unsubscribe", unsubscribe_method ctx); (#"plugin.stream", plugin_stream ctx);
   (#"plugin.stream.unsubscribe", unsubscribe_method ctx); (#"runtime.exceptions", runtime_exceptions ctx);
   (#"sdk.ready", sdk_ready ctx); (#"sdk.ready.unsubscribe", unsubscribe_method ctx);
   (#"runtime.exceptions.unsubscribe", unsubscribe_method ctx); (#"millennium.api_health", api_health);
   (#"plugin.config.get", config_get); (#"plugin.config.set", config_set); (#"plugin.config.delete", config_delete);
   (#"plugin.config.get_all", config_get_all); (#"patch.list", patch_list); (#"patch.updates", patch_updates ctx);
   (#"patch.updates.unsubscribe", unsubscribe_method ctx); (#"file.list", file_list); (#"file.content", file_content)].

(** A service whose run had undefined behaviour is marked.  The clients whose
    threads are in the router and do not come back: the first is in a handler
    that does not return, the others wait for the router's mutex. *)
Record service := Service { sv_world : mep Store Re; sv_undefined : bool; sv_waiting : list nat }.
Definition handler (m : request_t → M response_t) : handler_fn (St:=service) := λ req st,
  match m req (sv_world st) with
  | (Ok r, w) => (Service w (sv_undefined st) (sv_waiting st), Answer r)
  | (Throw e, w) => (Service w (sv_undefined st) (sv_waiting st), ThrowException e)
  | (_, w) => (Service w true (sv_waiting st), ThrowUnknown)
  end.
Definition register_mep_handlers (ctx : option nat) : router (St:=service) :=
  foldl (λ r x, register_handler x.1 (handler x.2) r) [] (methods ctx).

Definition on_world (f : mep Store Re → mep Store Re) (st : service) : service := Service (f (sv_world st)) (sv_undefined st) (sv_waiting st).

  (** Files that are read without end, as a device or a pipe that stays open. *)
  Variable endless : bytes → bool.
(** The handler of such a file does not return, and has changed nothing. *)
Definition blocks (req : request_t) : bool :=
  bytes_eqb (rq_method req) #"file.content" && match require_string req #"path" with Some path => endless path | None => false end.
Definition is_free (st : service) : bool := bool_decide (sv_waiting st = []).

(** One turn of [handle_client] with a frame read: [written] tells whether the
    response could be written.  A handler runs with the router's mutex held. *)
Definition refuse (c : nat) (text : bytes) (st : service) : service :=
  on_world (λ w, hang_up c (send_to c (response_to_json (response_err [] text)) w)) st.
Definition client_frame (from_msgpack : bytes → option json) (c : nat) (payload : bytes) (written : bool) (st : service) : service :=
  match from_msgpack payload with
  | None => refuse c #"invalid msgpack" st
  | Some j =>
      match from_json j with
      | Ok (Some req) =>
          if negb (is_free st) || blocks req then Service (sv_world st) (sv_undefined st) (sv_waiting st ++ [c]) else
          let '(st, resp) := dispatch (register_mep_handlers (Some c)) req st in
          on_world (λ w, if written then send_to c (response_to_json resp) w else hang_up c w) st
      | Ok None => refuse c #"malformed request" st
      | _ => Service (sv_world st) true (sv_waiting st)
      end
  end.

(** Events of other threads. *)
Inductive publication :=
  | PLog (logger : nat) (text : bytes) (e : log_entry) | PCrash (e : crash_event) | PFfi (e : ffi_call_entry)
  | PConsole (e : console_entry) | PException (e : exception_entry) | PPatch (e : patch_event) | PSdk (e : sdk_ready_event) | PUpdate.

Definition publish (p : publication) : M () := λ w,
  match p with
  | PLog i text e =>
      match l_loggers (m_loader w) !! i with
      | Some lg => let '(lg, calls) := append lg text e in for_each on_log calls (on_logger i (λ _, lg) w)
      | None => (Ok tt, w)
      end
  | PCrash e => let '(b, calls) := crash_notify e (l_crashes (m_loader w)) in for_each on_crash calls (set_loader (set_crashes b (m_loader w)) w)
  | PFfi e => let '(r, calls) := ffi_record e (m_ffi w) in for_each on_ffi calls (set_ffi r w)
  | PConsole e => let '(r, calls) := record_entry e (m_console w) in for_each on_console calls (set_console r w)
  | PException e => let '(r, calls) := record_entry e (m_exceptions w) in for_each on_exception calls (set_exceptions r w)
  | PPatch e => let '(r, calls) := patch_notify e (m_patch_stream w) in for_each on_patch calls (set_patch_stream r w)
  | PSdk e => let '(b, calls) := sdk_notify e (m_sdk w) in for_each on_sdk calls (set_sdk b w)
  | PUpdate => notify_updates w
  end.

(** A connection is accepted, sends a frame or ends; something happens
    elsewhere; a plugin's logger is made. *)
Inductive mep_op :=
  | Connect (fd : Z) | Incoming (c : nat) (payload : bytes) (written : bool) | HangUp (c : nat) | Publish (p : publication) | NewLogger (name : bytes).

Definition is_waiting (c : nat) (st : service) : bool := bool_decide (c ∈ sv_waiting st).
Definition is_open (c : nat) (w : mep Store Re) : bool := match m_clients w !! c with Some cl => cl_open cl | None => false end.

Definition mep_step (from_msgpack : bytes → option json) (st : service) (op : mep_op) : service :=
  match op with
  | Connect fd => on_world (λ w, set_clients (m_clients w ++ [client_new fd]) w) st
  | Incoming c payload written => if is_open c (sv_world st) && negb (is_waiting c st) then client_frame from_msgpack c payload written st else st
  | HangUp c => if is_waiting c st then st else on_world (hang_up c) st
  | Publish p =>
      let '(r, w) := publish p (sv_world st) in
      Service w (sv_undefined st || match r with UB | NoFuel => true | _ => false end) (sv_waiting st)
  | NewLogger name => on_world (λ w, set_loader (set_loggers (get_or_create_plugin_logger date name (l_loggers (m_loader w))).2 (m_loader w)) w) st
  end.

Definition mep_new (s : Store) (c : network_hook_ctl Re) : mep Store Re :=
  Mep (loader_new s c) recorder_empty recorder_empty recorder_empty recorder_empty (SdkBus table_empty None) table_empty [].
End methods.

(** ** Listeners and subscriptions *)

Section views.
  Context {Store Re : Type}.
  Implicit Types w : mep Store Re.

(** The listeners of a bus, by id, and the id of the next one. *)
Definition bus_view (b : bus) w : gmap Z listener :=
  match b with
  | LogBus i => match l_loggers (m_loader w) !! i with Some lg => m_listeners (log_listeners lg) | None => ∅ end
  | CrashB => m_listeners (crash_listeners (l_crashes (m_loader w)))
  | FfiB => snd <$> m_listeners (subscribers (m_ffi w))
  | ConsoleB => snd <$> m_listeners (subscribers (m_console w))
  | ExceptionB => snd <$> m_listeners (subscribers (m_exceptions w))
  | PatchB => snd <$> m_listeners (subscribers (m_patch_stream w))
  | SdkB => m_listeners (sdk_listeners (m_sdk w))
  | UpdateB => m_listeners (m_updates w)
  end.
Definition bus_next (b : bus) w : Z :=
  match b with
  | LogBus i => match l_loggers (m_loader w) !! i with Some lg => m_id_counter (log_listeners lg) + 1 | None => 1 end
  | CrashB => m_id_counter (crash_listeners (l_crashes (m_loader w))) + 1
  | FfiB => m_id_counter (subscribers (m_ffi w)) + 1
  | ConsoleB => m_id_counter (subscribers (m_console w)) + 1
  | ExceptionB => m_id_counter (subscribers (m_exceptions w)) + 1
  | PatchB => m_id_counter (subscribers (m_patch_stream w)) + 1
  | SdkB => m_id_counter (sdk_listeners (m_sdk w)) + 1
  | UpdateB => m_id_counter (m_updates w)
  end.

(** What a client is apart from the messages it got. *)
Definition quiet_of (cl : client) : Z * bool * Z * gmap bytes (list (bus * Z)) := (cl_fd cl, cl_open cl, id_counter cl, cancel_map cl).
Definition cancels w (c : nat) (sub : bytes) : option (list (bus * Z)) := m_clients w !! c ≫= λ cl, cancel_map cl !! sub.

(** The buses and the clients stay as they are; messages may be sent. *)
Definition same_links w w' : Prop :=
  (∀ b, bus_view b w' = bus_view b w ∧ bus_next b w' = bus_next b w) ∧ quiet_of <$> m_clients w' = quiet_of <$> m_clients w.
#[export] Instance same_links_preorder : PreOrder same_links.
Proof.
  split; [done|]. intros a b c [A1 A2] [B1 B2]. split; [|congruence]. intros x.
  destruct (A1 x), (B1 x). split; congruence.
Qed.

Lemma same_client w w' c : same_links w w' → quiet_of <$> m_clients w' !! c = quiet_of <$> m_clients w !! c.
Proof. intros [_ H]. rewrite <- !list_lookup_fmap. by rewrite H. Qed.
Lemma same_cancels w w' c sub : same_links w w' → cancels w' c sub = cancels w c sub.
Proof.
  intros H%(same_client _ _ c). unfold cancels. destruct (m_clients w' !! c), (m_clients w !! c); try done. cbn in *. by injection H as _ _ _ ->.
Qed.

(** A listener and the id its cancel function reads come together. *)
Record linked (n : Z) w : Prop := {
  ids_fresh b : 0 <= bus_next b w <= n + 1 ∧ ∀ i l, bus_view b w !! i = Some l → 0 <= i < bus_next b w;
  subs_fresh c cl : m_clients w !! c = Some cl → 0 <= id_counter cl <= n ∧
    ∀ sub, is_Some (cancel_map cl !! sub) → cl_open cl = true ∧ ∃ k, 0 < k <= id_counter cl ∧ sub = sub_id (cl_fd cl) k;
  links b i c sub : (∃ l, bus_view b w !! i = Some l ∧ ls_client l = c ∧ ls_sub l = sub) ↔ ∃ ids, cancels w c sub = Some ids ∧ (b, i) ∈ ids
}.

Lemma linked_mono n m w : n <= m → linked n w → linked m w.
Proof.
  intros Hm [H1 H2 H3]. split; [| |done].
  - intros b. destruct (H1 b). split; [lia|done].
  - intros c cl Hc. destruct (H2 c cl Hc). split; [lia|done].
Qed.

Lemma linked_same n w w' : same_links w w' → linked n w → linked n w'.
Proof.
  intros Hs [H1 H2 H3]. pose proof Hs as [Hb Hc]. split.
  - intros b. destruct (Hb b) as [-> ->]. apply H1.
  - intros c cl Hcl. pose proof (same_client _ _ c Hs) as Hq. rewrite Hcl in Hq.
    destruct (m_clients w !! c) as [cl0|] eqn:E; [|done]. cbn in Hq. injection Hq as -> -> -> ->. by eapply H2.
  - intros b i c sub. destruct (Hb b) as [-> _]. rewrite (same_cancels _ _ _ _ Hs). apply H3.
Qed.
End views.

(** Subscription names are distinct. *)
Lemma dec_inj n m : dec n = dec m → n = m.
Proof.
  unfold dec. intros He. apply (f_equal string_of_list_byte) in He. rewrite !string_of_list_byte_of_string in He.
  apply (f_equal NilZero.uint_of_string) in He.
  assert (∀ x, N.to_uint x ≠ Decimal.Nil) as Hnil. { intros x Hx. pose proof (DecimalN.Unsigned.of_to x) as Ho. rewrite Hx in Ho. subst x. done. }
  rewrite !NilZero.usu in He by apply Hnil. injection He as He. apply (f_equal N.of_uint) in He. by rewrite !DecimalN.Unsigned.of_to in He.
Qed.

Lemma sub_id_inj fd n m : 0 <= n → 0 <= m → sub_id fd n = sub_id fd m → n = m.
Proof.
  intros Hn Hm. unfold sub_id. intros He. do 3 apply app_inv_head in He. unfold fmt_int in He.
  destruct (Z.ltb_spec n 0), (Z.ltb_spec m 0); try lia. apply dec_inj in He. lia.
Qed.

Section primitives.
  Context `{T : target} `{SettingsStore Store} {Re : Type}.
  Implicit Types w : mep Store Re.

(** One bus changes, the others and the clients stay. *)
Definition one_bus (b : bus) (view : gmap Z listener) (next : Z) w w' : Prop :=
  (∀ b', bus_view b' w' = if decide (b' = b) then view else bus_view b' w) ∧
  (∀ b', bus_next b' w' = if decide (b' = b) then next else bus_next b' w) ∧ m_clients w' = m_clients w.

Lemma loggers_on i f w : l_loggers (m_loader (on_logger i f w)) = alter f i (l_loggers (m_loader w)).
Proof. by destruct w as [[]]. Qed.

Lemma one_logger i f lg w :
  l_loggers (m_loader w) !! i = Some lg →
  one_bus (LogBus i) (m_listeners (log_listeners (f lg))) (m_id_counter (log_listeners (f lg)) + 1) w (on_logger i f w).
Proof.
  intros Hi. assert (∀ b', b' ≠ LogBus i → bus_view b' (on_logger i f w) = bus_view b' w ∧ bus_next b' (on_logger i f w) = bus_next b' w) as Hne.
  { intros b' Hne. destruct b' as [j| | | | | | |]; [|by destruct w as [[]]..].
    cbn [bus_view bus_next]. rewrite loggers_on, list_lookup_alter_ne; [done|]. by intros ->. }
  assert (l_loggers (m_loader (on_logger i f w)) !! i = Some (f lg)) as Hl.
  { by rewrite loggers_on, list_lookup_alter_eq, Hi. }
  split; [|split; [|by destruct w as [[]]]]; intros b'; (destruct (decide (b' = LogBus i)) as [->|?]; [|by apply Hne]); cbn [bus_view bus_next]; by rewrite Hl.
Qed.

Lemma one_bus_remove b id w : one_bus b (delete id (bus_view b w)) (bus_next b w) w (bus_remove b id w).
Proof.
  destruct b as [i| | | | | | |]; cbn [bus_remove bus_view bus_next].
  { destruct (l_loggers (m_loader w) !! i) as [lg|] eqn:E; [by apply (one_logger i (log_remove_listener id) lg)|].
    assert (on_logger i (log_remove_listener id) w = w) as ->.
    { assert (alter (log_remove_listener id) i (l_loggers (m_loader w)) = l_loggers (m_loader w)) as Ha.
      { apply list_eq. intros j. destruct (decide (i = j)) as [->|]; [by rewrite list_lookup_alter_eq, E|by rewrite list_lookup_alter_ne]. }
      unfold on_logger. rewrite Ha. by destruct w as [[]]. }
    split; [|split; [|done]]; intros b'; (destruct (decide _) as [->|]; [|done]); cbn; rewrite E; [|done]. by rewrite delete_empty. }
  all: split; [|split; [|by destruct w]]; intros b'; destruct (decide (b' = _)) as [->|Hne]; destruct w as [[]]; cbn;
    rewrite ?fmap_delete; try done; by destruct b'.
Qed.

Lemma push_same l j : steps same_links (push_event l j : SM (mep Store Re) ()).
Proof.
  apply steps_modify. intros w. destruct (live l w); [|done]. unfold send_to, upd_client. split; [by destruct w|].
  destruct w. cbn [m_clients set_clients]. apply list_eq. intros i. rewrite !list_lookup_fmap. destruct (decide (i = ls_client l)) as [->|].
  - rewrite list_lookup_alter_eq. by destruct (_ !! _).
  - by rewrite list_lookup_alter_ne.
Qed.
#[local] Hint Resolve push_same : steps.

Lemma crash_calls_same calls : steps same_links (for_each on_crash calls : SM (mep Store Re) ()).
Proof. unfold on_crash. steps. Qed.
Lemma sdk_calls_same calls : steps same_links (for_each on_sdk calls : SM (mep Store Re) ()).
Proof. unfold on_sdk. steps. Qed.

Lemma bus_add_spec b plugin l w id w' :
  bus_add b plugin l w = (Ok id, w') → 0 <= bus_next b w < INT_MAX →
  id = bus_next b w ∧ ∃ w1, one_bus b (<[id := l]> (bus_view b w)) (id + 1) w w1 ∧ same_links w1 w'.
Proof.
  intros Hadd Hn. destruct b as [i| | | | | | |]; cbn [bus_add bus_view bus_next] in *.
  { destruct (l_loggers (m_loader w) !! i) as [lg|] eqn:E; [|done]. cbn in Hadd. rewrite i32_id in Hadd by lia. injection Hadd as <- <-.
    split; [done|]. eexists. split; [|reflexivity]. match goal with |- context [on_logger i ?f w] => exact (one_logger i f lg w E) end. }
  all: unfold crash_add_listener, sdk_add_listener, add_listener, table_add, notifier_add in Hadd; rewrite i32_id in Hadd by lia.
  1: apply bind_Ok_inv in Hadd as ([] & w2 & Hrun & [= <- <-]); apply (steps_ran _ _ _ _ _ (crash_calls_same _)) in Hrun.
  6: apply bind_Ok_inv in Hadd as ([] & w2 & Hrun & [= <- <-]); apply (steps_ran _ _ _ _ _ (sdk_calls_same _)) in Hrun.
  all: try (injection Hadd as <- <-); (split; [done|]); eexists; (split; [|first [exact Hrun|reflexivity]]);
    (split; [|split; [|by destruct w]]); intros b'; destruct (decide (b' = _)) as [->|Hne]; destruct w as [[]]; cbn;
    rewrite ?fmap_insert; try done; by destruct b'.
Qed.

(** *** Changes that keep listeners and cancel functions together *)

Lemma upd_views c f w b : bus_view b (upd_client c f w) = bus_view b w ∧ bus_next b (upd_client c f w) = bus_next b w.
Proof. by destruct w. Qed.
Lemma upd_clients c f w : m_clients (upd_client c f w) = alter f c (m_clients w).
Proof. by destruct w. Qed.

Lemma upd_lookup c f w c' cl :
  m_clients (upd_client c f w) !! c' = Some cl →
  (c' = c ∧ ∃ cl0, m_clients w !! c = Some cl0 ∧ cl = f cl0) ∨ (c' ≠ c ∧ m_clients w !! c' = Some cl).
Proof.
  rewrite upd_clients. destruct (decide (c' = c)) as [->|Hne].
  - rewrite list_lookup_alter_eq. destruct (m_clients w !! c); [|done]. intros [= <-]. left. eauto.
  - rewrite list_lookup_alter_ne by done. auto.
Qed.

Lemma upd_cancels c f w c' sub :
  cancels (upd_client c f w) c' sub =
    if decide (c' = c) then m_clients w !! c ≫= λ cl, cancel_map (f cl) !! sub else cancels w c' sub.
Proof.
  unfold cancels. rewrite upd_clients. destruct (decide (c' = c)) as [->|]; [rewrite list_lookup_alter_eq; by destruct (m_clients w !! c)|].
  by rewrite list_lookup_alter_ne.
Qed.

Lemma linked_subscribe n w c sub w' :
  linked n w → n < INT_MAX → (∀ cl, m_clients w !! c = Some cl → cl_open cl = true) → subscribe c w = (Ok sub, w') →
  linked (n + 1) w' ∧ cancels w' c sub = Some [].
Proof.
  intros [H1 H2 H3] Hn Ho. unfold subscribe. destruct (m_clients w !! c) as [cl|] eqn:Ec; [|done]. specialize (Ho cl eq_refl).
  destruct (H2 c cl Ec) as [Hcnt Hsub]. rewrite i32_id by lia. intros [= <- <-].
  assert (cancel_map cl !! sub_id (cl_fd cl) (id_counter cl + 1) = None) as Hfresh.
  { apply eq_None_not_Some. intros Hs. destruct (Hsub _ Hs) as (_ & k & Hk & Heq). apply sub_id_inj in Heq; lia. }
  split; [split|].
  - intros b. destruct (upd_views c (λ cl0, Client (cl_fd cl0) (cl_open cl0) (id_counter cl + 1) (<[sub_id (cl_fd cl) (id_counter cl + 1):=[]]> (cancel_map cl0)) (cl_sent cl0)) w b) as [-> ->].
    destruct (H1 b). split; [lia|done].
  - intros c' cl' [[-> (cl0 & Hcl0 & ->)]|[_ Hc']]%upd_lookup.
    + assert (cl0 = cl) as -> by congruence. cbn. split; [lia|]. intros s Hs. split; [done|].
      destruct (decide (s = sub_id (cl_fd cl) (id_counter cl + 1))) as [->|Hne].
      * exists (id_counter cl + 1). split; [lia|done].
      * rewrite lookup_insert_ne in Hs by done. destruct (Hsub s Hs) as (_ & k & Hk & ->). exists k. split; [lia|done].
    + destruct (H2 c' cl' Hc'). split; [lia|done].
  - intros b i c' s.
    destruct (upd_views c (λ cl0, Client (cl_fd cl0) (cl_open cl0) (id_counter cl + 1) (<[sub_id (cl_fd cl) (id_counter cl + 1):=[]]> (cancel_map cl0)) (cl_sent cl0)) w b) as [-> _].
    rewrite H3, upd_cancels. destruct (decide (c' = c)) as [->|]; [|done]. rewrite Ec. cbn.
    unfold cancels. rewrite Ec. cbn.
    destruct (decide (s = sub_id (cl_fd cl) (id_counter cl + 1))) as [->|Hne].
    + rewrite lookup_insert_eq, Hfresh. split; [by intros (? & ? & _)|]. intros (ids & [= <-] & []%not_elem_of_nil).
    + by rewrite lookup_insert_ne.
  - rewrite upd_cancels, decide_True by done. rewrite Ec. cbn. by rewrite lookup_insert_eq.
Qed.

(** The ids of a subscription after one more listener. *)
Lemma cancels_stored c sub b id w ids c' s :
  cancels w c sub = Some ids →
  cancels (store_id c sub b id w) c' s = if decide (c' = c ∧ s = sub) then Some (ids ++ [(b, id)]) else cancels w c' s.
Proof.
  intros Hc. unfold store_id. rewrite upd_cancels. destruct (decide (c' = c)) as [->|]; [|by rewrite decide_False by naive_solver].
  unfold cancels in *. destruct (m_clients w !! c) as [cl|]; [|done]. cbn in *. destruct (decide (s = sub)) as [->|].
  - by rewrite lookup_alter_eq, Hc, decide_True.
  - rewrite lookup_alter_ne by done. by rewrite decide_False by naive_solver.
Qed.

Lemma stored_client c sub b id w c' cl' :
  m_clients (store_id c sub b id w) !! c' = Some cl' →
  ∃ cl, m_clients w !! c' = Some cl ∧ cl_fd cl' = cl_fd cl ∧ cl_open cl' = cl_open cl ∧ id_counter cl' = id_counter cl ∧
    ∀ s, is_Some (cancel_map cl' !! s) → is_Some (cancel_map cl !! s).
Proof.
  intros [[-> (cl & Hcl & ->)]|[_ Hc']]%upd_lookup; [|by exists cl'].
  exists cl. split_and!; try done. intros s. cbn. destruct (decide (s = sub)) as [->|]; [by rewrite lookup_alter_eq, fmap_is_Some|by rewrite lookup_alter_ne].
Qed.

(** A new listener and its id make a link. *)
Lemma links_add n w b id l ids b' i c s :
  linked n w → bus_view b w !! id = None → cancels w (ls_client l) (ls_sub l) = Some ids →
  (∃ l', (if decide (b' = b) then <[id := l]> (bus_view b w) else bus_view b' w) !! i = Some l' ∧ ls_client l' = c ∧ ls_sub l' = s) ↔
  ∃ ids', (if decide (c = ls_client l ∧ s = ls_sub l) then Some (ids ++ [(b, id)]) else cancels w c s) = Some ids' ∧ (b', i) ∈ ids'.
Proof.
  intros Hl Hfresh Hc. destruct Hl as [_ _ H3]. destruct (decide (b' = b ∧ i = id)) as [[-> ->]|Hne].
  - rewrite decide_True, lookup_insert_eq by done. split.
    + intros (l' & [= <-] & <- & <-). rewrite decide_True by done. eexists. split; [done|]. apply elem_of_app. right. by left.
    + intros (ids' & Hids & Hin). destruct (decide _) as [[-> ->]|]; [by exists l|].
      destruct (proj2 (H3 b id c s)) as (l' & Hl' & _); [by exists ids'|]. congruence.
  - assert ((if decide (b' = b) then <[id := l]> (bus_view b w) else bus_view b' w) !! i = bus_view b' w !! i) as ->.
    { destruct (decide (b' = b)) as [->|]; [|done]. apply lookup_insert_ne. naive_solver. }
    rewrite (H3 b' i c s). destruct (decide _) as [[-> ->]|]; [|done]. rewrite Hc. split.
    + intros (? & [= <-] & ?). eexists. split; [done|]. apply elem_of_app. by left.
    + intros (? & [= <-] & [?|Hx%list_elem_of_singleton]%elem_of_app); [by eexists|]. injection Hx as -> ->. by destruct Hne.
Qed.

Lemma linked_attach n w c sub plugin stream min b ids w' :
  linked n w → n + 1 < INT_MAX → cancels w c sub = Some ids → attach c sub plugin stream min b w = (Ok (), w') →
  linked (n + 1) w' ∧ ∃ ids', cancels w' c sub = Some ids'.
Proof.
  intros Hl Hn Hc (id & w2 & Hadd & [= <-])%bind_Ok_inv. pose proof Hl as [H1 H2 H3].
  destruct (bus_add_spec _ _ _ _ _ _ Hadd) as (Hid & w1 & (Hv & Hx & Hcl) & Hs). { destruct (H1 b). lia. }
  assert (∀ c' s, cancels w2 c' s = cancels w c' s) as Hcan.
  { intros c' s. rewrite (same_cancels _ _ _ _ Hs). unfold cancels. by rewrite Hcl. }
  assert (bus_view b w !! id = None) as Hfresh.
  { destruct (bus_view b w !! id) eqn:E; [|done]. destruct (H1 b) as [_ Hi]. specialize (Hi _ _ E). lia. }
  assert (∀ b', bus_view b' (store_id c sub b id w2) = bus_view b' w1 ∧ bus_next b' (store_id c sub b id w2) = bus_next b' w1) as Hv2.
  { intros b'. unfold store_id. match goal with |- context [upd_client c ?f w2] => destruct (upd_views c f w2 b') as [-> ->] end. apply Hs. }
  split; [split|rewrite (cancels_stored _ _ _ _ _ ids), decide_True by (done || by rewrite Hcan); eauto].
  - intros b'. destruct (Hv2 b') as [-> ->]. rewrite Hv, Hx. destruct (H1 b') as [? Hi], (H1 b) as [? Hib].
    destruct (decide (b' = b)) as [->|]; [|split; [lia|done]]. split; [lia|]. intros i l'.
    destruct (decide (i = id)) as [->|]; [lia|]. rewrite lookup_insert_ne by done. intros Hl'%Hib. lia.
  - intros c' cl' (cl2 & Hc2 & -> & -> & -> & Hsome)%stored_client. pose proof (same_client _ _ c' Hs) as Hq. rewrite Hc2, Hcl in Hq.
    destruct (m_clients w !! c') as [cl|] eqn:Ecl; [|done]. injection Hq as -> -> -> Hm. rewrite Hm in Hsome. destruct (H2 c' cl Ecl) as [? Hsub].
    split; [lia|]. intros s Hs'%Hsome. by apply Hsub.
  - intros b' i c' s. destruct (Hv2 b') as [-> _]. rewrite Hv, (cancels_stored _ _ _ _ _ ids) by by rewrite Hcan. rewrite Hcan.
    by apply (links_add n w b id (Listener c sub plugin stream min) ids).
Qed.

Lemma cancel_cons x ids w : cancel (x :: ids) w = cancel ids (if 0 <=? x.2 then bus_remove x.1 x.2 w else w).
Proof. done. Qed.

Lemma cancel_clients ids w : m_clients (cancel ids w) = m_clients w.
Proof. revert w. induction ids as [|x ids IH]; intros w; [done|]. rewrite cancel_cons, IH. destruct (0 <=? x.2); [|done]. apply one_bus_remove. Qed.

Lemma cancel_effect ids w : Forall (λ x : bus * Z, 0 <= x.2) ids →
  m_clients (cancel ids w) = m_clients w ∧
  ∀ b, bus_next b (cancel ids w) = bus_next b w ∧ ∀ i, bus_view b (cancel ids w) !! i = if decide ((b, i) ∈ ids) then None else bus_view b w !! i.
Proof.
  intros Hpos. revert w. induction Hpos as [|[b0 i0] ids H0 _ IH]; intros w.
  { split; [done|]. intros b. split; [done|]. intros i. by rewrite decide_False by apply not_elem_of_nil. }
  rewrite cancel_cons. cbn [fst snd] in *. destruct (Z.leb_spec 0 i0); [|lia]. destruct (one_bus_remove b0 i0 w) as (Hv & Hx & Hc).
  destruct (IH (bus_remove b0 i0 w)) as [IHc IHv]. split; [congruence|]. intros b. destruct (IHv b) as [-> IHb]. rewrite Hx. split; [by destruct (decide (b = b0)) as [->|]|].
  intros i. rewrite IHb, Hv. destruct (decide ((b, i) ∈ ids)) as [Hin|Hin]; [by rewrite decide_True by by right|].
  destruct (decide (b = b0)) as [->|Hb]; [destruct (decide (i = i0)) as [->|Hi]|].
  - rewrite lookup_delete_eq, decide_True; [done|]. left.
  - rewrite lookup_delete_ne by done. rewrite decide_False; [done|]. rewrite not_elem_of_cons. naive_solver.
  - rewrite decide_False; [done|]. rewrite not_elem_of_cons. naive_solver.
Qed.

(** Subscriptions are taken away together with their listeners. *)
Lemma linked_cancel n w w' (D : nat → bytes → Prop) `{∀ c s, Decision (D c s)} ids :
  linked n w →
  (∀ b i, (b, i) ∈ ids ↔ ∃ c s ids0, D c s ∧ cancels w c s = Some ids0 ∧ (b, i) ∈ ids0) →
  (∀ b, bus_view b w' = bus_view b (cancel ids w) ∧ bus_next b w' = bus_next b (cancel ids w)) →
  (∀ c s, cancels w' c s = if decide (D c s) then None else cancels w c s) →
  (∀ c cl', m_clients w' !! c = Some cl' → ∃ cl, m_clients w !! c = Some cl ∧ cl_fd cl' = cl_fd cl ∧ id_counter cl' = id_counter cl ∧
     ((cl_open cl' = cl_open cl ∧ ∀ s, is_Some (cancel_map cl' !! s) → is_Some (cancel_map cl !! s)) ∨ cancel_map cl' = ∅)) →
  linked n w'.
Proof.
  intros Hl Hids Hview Hcan Hcl. pose proof Hl as [H1 H2 H3].
  assert (Forall (λ x : bus * Z, 0 <= x.2) ids) as Hpos.
  { apply Forall_forall. intros [b i] (c & s & ids0 & _ & Hx & Hin)%Hids. destruct (proj2 (H3 b i c s)) as (l & Hb & _); [by exists ids0|].
    destruct (H1 b) as [_ Hi]. specialize (Hi _ _ Hb). cbn. lia. }
  destruct (cancel_effect ids w Hpos) as [_ Heff]. split.
  - intros b. destruct (Hview b) as [-> ->], (Heff b) as [-> Hv], (H1 b) as [? Hi]. split; [done|]. intros i l. rewrite Hv.
    destruct (decide _); [done|]. apply Hi.
  - intros c cl' (cl & Ecl & -> & -> & Hx)%Hcl. destruct (H2 c cl Ecl) as [? Hsub]. split; [done|].
    destruct Hx as [[-> Hs]|Hx]; [intros s Hs'%Hs; by apply Hsub|]. rewrite Hx. intros s [? Hs]. by rewrite lookup_empty in Hs.
  - intros b i c s. destruct (Hview b) as [-> _], (Heff b) as [_ Hv]. rewrite Hv, Hcan. destruct (decide ((b, i) ∈ ids)) as [Hin|Hin].
    + split; [by intros (? & ? & _)|]. apply Hids in Hin as (c0 & s0 & ids0 & HD & Hc0 & Hin). intros (ids' & Hids' & Hin').
      destruct (decide (D c s)) as [|HnD]; [done|]. destruct (proj2 (H3 b i c s)) as (l & Hb & <- & <-); [by exists ids'|].
      destruct (proj2 (H3 b i c0 s0)) as (l' & Hb' & <- & <-); [by exists ids0|]. assert (l' = l) as -> by congruence. done.
    + rewrite (H3 b i c s). destruct (decide (D c s)) as [HD|]; [|done]. split; [|by intros (? & ? & _)].
      intros (ids' & Hids' & Hin'). destruct Hin. apply Hids. by exists c, s, ids'.
Qed.

Lemma linked_unsubscribe n w c sub : linked n w → linked n (unsubscribe_client c sub w).2.
Proof.
  intros Hl. unfold unsubscribe_client. destruct (_ ≫= _) as [ids|] eqn:E; [|done]. cbn [snd]. fold (cancels w c sub) in E.
  apply (linked_cancel n w _ (λ c' s, c' = c ∧ s = sub) ids Hl).
  - intros b i. split; [intros Hin; by exists c, sub, ids|]. intros (? & ? & ids0 & [-> ->] & Hx & ?). congruence.
  - intros b. apply upd_views.
  - intros c' s. rewrite upd_cancels. unfold cancels at 1. rewrite !cancel_clients. destruct (decide (c' = c)) as [->|]; [|by rewrite decide_False by naive_solver].
    unfold cancels in *. destruct (m_clients w !! c) as [cl|]; [|done]. cbn in *. destruct (decide (s = sub)) as [->|].
    + by rewrite lookup_delete_eq, decide_True.
    + rewrite lookup_delete_ne by done. by rewrite decide_False by naive_solver.
  - intros c' cl' Hc'. apply upd_lookup in Hc' as [[-> (cl & Hx & ->)]|[_ Hx]]; rewrite cancel_clients in Hx.
    + exists cl. split_and!; try done. left. split; [done|]. intros s [x Hs]. cbn in Hs. apply lookup_delete_Some in Hs as [_ ?]. by exists x.
    + exists cl'. split_and!; try done. by left.
Qed.

Lemma cancel_app l l' w : cancel (l ++ l') w = cancel l' (cancel l w).
Proof. unfold cancel. by rewrite foldl_app. Qed.

Lemma cancel_all (l : list (bytes * list (bus * Z))) w : foldl (λ w x, cancel x.2 w) w l = cancel (concat l.*2) w.
Proof. revert w. induction l as [|x l IH]; intros w; [done|]. cbn [foldl fmap list_fmap concat]. by rewrite cancel_app, IH. Qed.

Lemma linked_hang_up n w c : linked n w → linked n (hang_up c w).
Proof.
  intros Hl. unfold hang_up. destruct (m_clients w !! c) as [cl|] eqn:Ec; [|done]. rewrite cancel_all. set (ids := concat _).
  apply (linked_cancel n w _ (λ c' s, c' = c) (H0:=λ c' _, decide (c' = c)) ids Hl).
  - intros b i. unfold ids. rewrite list_elem_of_In, in_concat. split.
    + intros (l & Hl1%list_elem_of_In & Hin%list_elem_of_In). apply list_elem_of_fmap in Hl1 as ([s l'] & -> & Hin'%elem_of_map_to_list).
      exists c, s, l'. split; [done|]. unfold cancels. by rewrite Ec.
    + intros (? & s & ids0 & -> & Hx & Hin). unfold cancels in Hx. rewrite Ec in Hx. exists ids0. split; apply list_elem_of_In; [|done].
      apply list_elem_of_fmap. exists (s, ids0). split; [done|]. by apply elem_of_map_to_list.
  - intros b. apply upd_views.
  - intros c' s. rewrite upd_cancels. unfold cancels at 1. rewrite !cancel_clients. destruct (decide (c' = c)) as [->|]; [|done]. rewrite Ec. cbn. apply lookup_empty.
  - intros c' cl' Hc'. apply upd_lookup in Hc' as [[-> (cl0 & Hx & ->)]|[_ Hx]]; rewrite cancel_clients in Hx.
    + exists cl0. split_and!; try done. by right.
    + exists cl'. split_and!; try done. by left.
Qed.
End primitives.

(** ** Methods keep listeners and cancel functions together *)

(** Code of the loader leaves loggers and the listeners of crashes alone. *)
Definition bus_kept {Store Re} (s s' : loader Store Re listener) : Prop :=
  l_loggers s' = l_loggers s ∧ crash_listeners (l_crashes s') = crash_listeners (l_crashes s).
#[export] Instance bus_kept_preorder {Store Re} : PreOrder (bus_kept (Store:=Store) (Re:=Re)).
Proof. split; [done|]. intros a b c [A1 A2] [B1 B2]. split; congruence. Qed.

Section kept.
  Context `{T : target} `{SettingsStore Store} {Re : Type}.
  Variable all_plugins : list plugin_t.
  Variable read_file : bytes → option bytes.
  Variable file_exists : bytes → bool.
  Variables steam_path plugins_path : bytes.
  Variable crash_dump_dir : bytes → bytes.
  Variable os : nat → bytes → spawn_os.
  Variable connected : bool.
  Abbreviation M := (SM (loader Store Re listener)).
  Abbreviation kept := (steps bus_kept).

Lemma kept_dispatcher {A} (m : SM (dispatcher ready_cb (list ready_cb)) A) : kept (on_dispatcher m : M A).
Proof. intros s _. unfold on_dispatcher. destruct (m (l_dispatcher s)). by destruct s. Qed.
Lemma linked_kept_ipc {A} (m : SM (ipc_world Store) A) : kept (on_ipc m : M A).
Proof. intros s _. unfold on_ipc. destruct (m (l_ipc s)). by destruct s. Qed.
Lemma kept_running name : kept (is_any_backend_running name : M bool).
Proof. intros s _. unfold is_any_backend_running. destruct (_ !! _); [|done]. destruct (is_alive _). by destruct s. Qed.
Lemma kept_processes f : kept (modify (λ s, set_processes (f s) s) : M ()).
Proof. apply steps_modify. by intros []. Qed.
Lemma kept_patches f : kept (modify (λ s, set_patches (f s) s) : M ()).
Proof. apply steps_modify. by intros []. Qed.
Lemma linked_kept_modify (f : loader Store Re listener → loader Store Re listener) : (∀ s, bus_kept s (f s)) → kept (modify f).
Proof. intros Hf. by apply steps_modify. Qed.

Lemma kept_destroy name : kept (destroy_plugin all_plugins name false : M bool).
Proof.
  pose proof (@kept_dispatcher). pose proof kept_processes. pose proof kept_patches.
  assert (kept (modify notify_patches : M ())) by (apply linked_kept_modify; by intros []).
  unfold destroy_plugin. steps.
Qed.

Lemma kept_spawn p : kept (spawn_plugin all_plugins read_file steam_path crash_dump_dir os p : M bool).
Proof.
  pose proof (@kept_dispatcher). pose proof kept_processes. assert (kept (modify count_spawn : M ())) by (apply linked_kept_modify; by intros []).
  unfold spawn_plugin. steps.
Qed.

Lemma kept_enable name on reload :
  kept (set_plugin_enable all_plugins read_file file_exists steam_path plugins_path crash_dump_dir os connected name on reload : M ()).
Proof.
  pose proof (@kept_dispatcher). pose proof kept_destroy. pose proof kept_spawn. pose proof kept_running.
  assert (kept (modify (setup_webkit_shims all_plugins file_exists plugins_path) : M ())) by (apply linked_kept_modify; by intros []).
  assert (kept (modify (register_packed_plugin_resources read_file all_plugins) : M ())) by (apply linked_kept_modify; by intros []).
  assert (∀ l, kept (modify (set_snapshots all_plugins l) : M ())) by (intros; apply linked_kept_modify; by intros []).
  assert (kept (modify (λ s, set_snapshots all_plugins (m_enabledPluginsPtr s) s) : M ())) by (apply linked_kept_modify; by intros []).
  assert (∀ st, kept (modify (λ l, set_ipc (put_store st (l_ipc l)) l) : M ())) by (intros; apply linked_kept_modify; by intros []).
  assert (∀ n, kept (modify (λ s, set_crashes (acknowledge_crash n (l_crashes s)) s) : M ())) by (intros; apply linked_kept_modify; by intros []).
  assert (kept (set_child_request_handler : M ())) by (apply linked_kept_modify; by intros []).
  unfold set_plugin_enable, set_plugins_enabled, set_enabled_setting, disable_plugin, enable_plugin, install_handler, inject_frontend_shims. steps.
Qed.
End kept.

Lemma for_each_returns {St A} (f : A → SM St ()) l w : (∀ x w, ∃ w', f x w = (Ok tt, w')) → ∃ w', for_each f l w = (Ok tt, w').
Proof. intros Hf. revert w. induction l as [|x l IH]; intros w; cbn [for_each]; [by exists w|]. rewrite bind_run. destruct (Hf x w) as [w1 ->]. apply IH. Qed.

Section keeping.
  Context `{T : target} `{SettingsStore Store} {Re : Type}.
  Variable all_plugins : list plugin_t.
  Variable read_file : bytes → option bytes.
  Variable file_exists : bytes → bool.
  Variables steam_path plugins_path : bytes.
  Variable crash_dump_dir : bytes → bytes.
  Variable os : nat → bytes → spawn_os.
  Variable connected : bool.
  Variable dump : json → outcome bytes.
  Variable format_log_timestamp : Z → bytes.
  Variable std_sort : list (Z * json) → list (Z * json).
  Variable date : bytes.
  Variable get_metrics : bytes → Z * Z * spec_float.
  Variables version commit build_type : bytes.
  Variable ipc_connected : bool.
  Abbreviation M := (SM (mep Store Re)).
  Implicit Types w : mep Store Re.

Lemma notify_returns w : ∃ w', notify_updates w = (Ok tt, w') ∧ same_links w w'.
Proof.
  unfold notify_updates. run_simpl. destruct (for_each_returns on_update (table_values (m_updates w)) w) as [w' Hw]; [by intros x w0; eexists|].
  exists w'. split; [done|]. eapply (steps_ran _ _ _ _ _); [|exact Hw]. pose proof (push_same (Store:=Store) (Re:=Re)). unfold on_update. steps.
Qed.

Lemma notices_return n w : ∃ w', for_each (λ _, notify_updates) (replicate n tt) w = (Ok tt, w') ∧ same_links w w'.
Proof.
  revert w. induction n as [|n IH]; intros w; cbn [replicate for_each]; [by exists w|]. rewrite bind_run.
  destruct (notify_returns w) as (w1 & -> & H1), (IH w1) as (w2 & -> & H2). exists w2. split; [done|]. by etransitivity.
Qed.

Lemma on_loader_run {A} (m : SM (loader Store Re listener) A) w :
  ∃ w', on_loader m w = ((m (m_loader w)).1, w') ∧ same_links (set_loader (m (m_loader w)).2 w) w'.
Proof.
  unfold on_loader. destruct (m (m_loader w)) as [r l]. cbn [fst snd].
  match goal with |- context [replicate ?n tt] => destruct (notices_return n (set_loader l w)) as (w' & -> & Hs) end. by exists w'.
Qed.

Lemma on_loader_same {A} (m : SM (loader Store Re listener) A) : steps bus_kept m → steps same_links (on_loader m).
Proof.
  intros Hm w. destruct (on_loader_run m w) as (w' & -> & Hs). cbn [fst snd]. intros Hd. etransitivity; [|exact Hs].
  destruct (Hm _ Hd) as [Hl Hc]. split; [|by destruct w]. intros b.
  destruct b; cbn [bus_view bus_next]; destruct w; cbn [m_loader set_loader] in *; try done; by rewrite ?Hl, ?Hc.
Qed.

Abbreviation same := (steps (same_links (Store:=Store) (Re:=Re))).

(** A method keeps links when it changes none, or adds or takes one. *)
Definition keeps_links (c : nat) (m : M response_t) : Prop := ∀ n w, linked n w → n + 4 < INT_MAX →
  (∃ cl, m_clients w !! c = Some cl ∧ cl_open cl = true) → defined (m w).1 → linked (n + 4) (m w).2.

Lemma keeps_same c m : same m → keeps_links c m.
Proof. intros Hm n w Hl _ _ Hd. eapply linked_mono; [|eapply linked_same; [by apply Hm|done]]. lia. Qed.

(** Reading and preparing first. *)
Lemma keeps_after c {A} (m : M A) k : same m → (∀ a, keeps_links c (k a)) → keeps_links c (m ≫= k).
Proof.
  intros Hm Hk n w Hl Hn (cl & Hcl & Ho). rewrite bind_run. specialize (Hm w). destruct (m w) as [[a|e| |] w1]; cbn [fst snd] in *; intros Hd.
  - specialize (Hm (Ok_defined _)). apply Hk; [by eapply linked_same|done| |done].
    pose proof (same_client _ _ c Hm) as Hq. rewrite Hcl in Hq. destruct (m_clients w1 !! c) as [cl1|]; [|done]. injection Hq as _ Hq _ _. exists cl1. split; [done|congruence].
  - eapply linked_mono; [|eapply linked_same; [by apply Hm|done]]. lia.
  - by destruct Hd.
  - by destruct Hd.
Qed.

(** Registering a listener does not throw. *)
Lemma bus_add_ok b plugin l w : (∃ id w', bus_add b plugin l w = (Ok id, w')) ∨ (bus_add b plugin l w).1 = UB.
Proof.
  assert (∀ calls w, ∃ w', for_each on_crash calls w = (Ok tt, w')) as Hc. { intros calls w0. apply for_each_returns. by intros x w1; eexists. }
  assert (∀ calls w, ∃ w', for_each on_sdk calls w = (Ok tt, w')) as Hs. { intros calls w0. apply for_each_returns. by intros x w1; eexists. }
  destruct b as [i| | | | | | |]; cbn [bus_add].
  - destruct (_ !! i); [|by right]. left. by destruct (log_add_listener _ _); eexists _, _.
  - left. unfold crash_add_listener. destruct (table_add _ _) as [id t]. rewrite bind_run.
    match goal with |- context [for_each on_crash ?calls ?w0] => destruct (Hc calls w0) as [w' ->] end. by eexists _, _.
  - left. destruct (add_listener _ _ _). by eexists _, _.
  - left. destruct (add_listener _ _ _). by eexists _, _.
  - left. destruct (add_listener _ _ _). by eexists _, _.
  - left. destruct (add_listener _ _ _). by eexists _, _.
  - left. unfold sdk_add_listener. destruct (table_add _ _) as [id t]. rewrite bind_run.
    match goal with |- context [for_each on_sdk ?calls ?w0] => destruct (Hs calls w0) as [w' ->] end. by eexists _, _.
  - left. by eexists _, _.
Qed.

Lemma linked_attaches c sub plugin stream min buses : ∀ n w ids,
  linked n w → n + Z.of_nat (length buses) < INT_MAX → cancels w c sub = Some ids →
  defined (for_each (attach c sub plugin stream min) buses w).1 →
  ∃ w', for_each (attach c sub plugin stream min) buses w = (Ok tt, w') ∧ linked (n + Z.of_nat (length buses)) w'.
Proof.
  induction buses as [|b buses IH]; intros n w ids Hl Hn Hc Hd; cbn [for_each length] in *; [exists w; by rewrite Z.add_0_r|].
  rewrite bind_run in *. assert (∃ w1, attach c sub plugin stream min b w = (Ok tt, w1)) as [w1 E].
  { unfold attach in *. rewrite bind_run in *. destruct (bus_add_ok b plugin (Listener c sub plugin stream min) w) as [(id & w1 & ->)|Hub].
    - cbn [modify]. eauto.
    - destruct (bus_add _ _ _ _) as [[]]; try discriminate. by destruct Hd. }
  rewrite E in *. destruct (linked_attach _ _ _ _ _ _ _ _ _ _ Hl ltac:(lia) Hc E) as (Hl1 & ids1 & Hc1).
  destruct (IH (n + 1) w1 ids1 Hl1 ltac:(lia) Hc1 Hd) as (w' & -> & Hl'). exists w'. split; [done|]. by replace (n + Z.of_nat (S (length buses))) with (n + 1 + Z.of_nat (length buses)) by lia.
Qed.

(** Subscribing, then answering. *)
Lemma keeps_subscribe c plugin stream min buses k : (length buses <= 3)%nat → (∀ sub, same (k sub)) →
  keeps_links c (sub ← subscribe_to c plugin stream min buses; k sub).
Proof.
  intros Hlen Hk n w Hl Hn (cl & Hcl & Ho). unfold subscribe_to. rewrite bind_run, bind_run.
  destruct (subscribe c w) as [r w1] eqn:Es. destruct r as [sub|e| |]; [|unfold subscribe in Es; by rewrite Hcl in Es..].
  destruct (linked_subscribe n w c sub w1 Hl ltac:(lia) ltac:(intros; congruence) Es) as [Hl1 Hc1]. rewrite bind_run.
  destruct (for_each (attach c sub plugin stream min) buses w1) as [r2 w2] eqn:Ea. intros Hd.
  assert (defined r2) as Hd2 by (destruct r2; try done; by destruct Hd).
  destruct (linked_attaches c sub plugin stream min buses (n + 1) w1 [] Hl1 ltac:(lia) Hc1) as (w3 & E3 & Hl3); [by rewrite Ea|].
  rewrite Ea in E3. injection E3 as -> ->. rewrite ret_run in *. specialize (Hk sub w3 Hd).
  eapply linked_mono; [|by eapply linked_same]. lia.
Qed.

Lemma keeps_unsubscribe c sub k : (∀ b, same (k b)) → keeps_links c (done ← unsubscribe_client c sub; k done).
Proof.
  intros Hk n w Hl Hn _. rewrite bind_run. pose proof (linked_unsubscribe n w c sub Hl) as Hu. unfold unsubscribe_client in *.
  destruct (_ ≫= _); cbn [snd] in *; intros Hd; (eapply linked_mono; [|eapply linked_same; [by apply Hk|done]]); lia.
Qed.

Abbreviation methods_of ctx := (methods (Re:=Re) all_plugins read_file file_exists steam_path plugins_path crash_dump_dir os connected dump
  format_log_timestamp std_sort date get_metrics version commit build_type ipc_connected ctx).

Lemma same_map_run {A B} (f : A → M B) l : (∀ x, same (f x)) → same (map_run f l).
Proof. intros Hf. induction l as [|x l IH]; cbn [map_run]; steps. Qed.

Lemma same_running name : same (on_loader (is_any_backend_running name)).
Proof. apply on_loader_same, kept_running. Qed.
#[local] Hint Resolve same_running : steps.

Lemma same_plugin_json p : same (plugin_to_json p).
Proof. unfold plugin_to_json. steps. Qed.
#[local] Hint Resolve same_plugin_json : steps.

Lemma same_count l : ∀ n e r, same (count_plugins l n e r).
Proof. induction l as [|p l IH]; intros n e r; cbn [count_plugins]; steps. Qed.
#[local] Hint Resolve same_count : steps.

(** A new logger has no listeners. *)
Lemma same_new_logger name w :
  same_links w (set_loader (set_loggers (get_or_create_plugin_logger date name (l_loggers (m_loader w))).2 (m_loader w)) w).
Proof.
  set (ls := (get_or_create_plugin_logger date name (l_loggers (m_loader w))).2).
  assert (∀ i, match ls !! i with Some lg => m_listeners (log_listeners lg) | None => ∅ end =
    match l_loggers (m_loader w) !! i with Some lg => m_listeners (log_listeners lg) | None => ∅ end ∧
    match ls !! i with Some lg => m_id_counter (log_listeners lg) + 1 | None => 1 end =
    match l_loggers (m_loader w) !! i with Some lg => m_id_counter (log_listeners lg) + 1 | None => 1 end) as Hls.
  { intros i. subst ls. unfold get_or_create_plugin_logger. destruct (find_logger _ _); [done|]. cbn [snd].
    destruct (decide (i < length (l_loggers (m_loader w)))%nat) as [?|Hge]; [by rewrite lookup_app_l|].
    rewrite lookup_app_r by lia. rewrite (lookup_ge_None_2 (l_loggers (m_loader w))) by lia.
    destruct (i - length (l_loggers (m_loader w)))%nat as [|k]; [done|]. by destruct k. }
  split; [|by destruct w]. intros b. destruct b as [i| | | | | | |]; [|by destruct w as [[]]..]. cbn [bus_view bus_next].
  specialize (Hls i). by destruct w as [[]].
Qed.

Lemma keeps_requiring c key k req : (∀ req s, keeps_links c (k req s)) → keeps_links c (requiring key k req).
Proof. intros Hk. unfold requiring. destruct (require_string req key); [apply Hk|]. apply keeps_same, steps_ret, _. Qed.
Lemma keeps_ctx c k req : (∀ c req, keeps_links c (k c req)) → keeps_links c (requiring_ctx (Some c) k req).
Proof. intros Hk. apply Hk. Qed.

Ltac keeps := repeat first
  [ progress intros
  | apply keeps_subscribe; [cbn; lia|steps]
  | apply keeps_same; steps; fail
  | apply keeps_after; [steps; fail|]
  | match goal with |- keeps_links _ (match ?x with _ => _ end) => destruct x end
  | progress cbn beta iota zeta ].

Lemma stream_keeps c req : keeps_links c (plugin_stream std_sort date (Some c) req).
Proof.
  apply keeps_requiring. intros req' name n w Hl Hn Ho. rewrite bind_run. cbn [gets]. rewrite bind_run. cbn [modify]. intros Hd.
  set (found := get_or_create_plugin_logger date name (l_loggers (m_loader w))) in *.
  pose proof (same_new_logger name w) as Hs. fold found in Hs.
  match goal with |- linked _ (?m (set_loader _ _)).2 => assert (keeps_links c m) as Hk; [|apply Hk; [by eapply linked_same|done| |exact Hd]] end.
  - keeps.
  - by destruct w.
Qed.

Lemma methods_keep c : Forall (λ x, ∀ req, keeps_links c (x.2 req)) (methods_of (Some c)).
Proof.
  pose proof (λ n on r, on_loader_same _ (kept_enable (Re:=Re) all_plugins read_file file_exists steam_path plugins_path crash_dump_dir os connected n on r)) as Hen.
  pose proof (λ n, on_loader_same _ (kept_destroy (Store:=Store) (Re:=Re) all_plugins n)) as Hde.
  pose proof (λ A m, on_loader_same _ (linked_kept_ipc (A:=A) (Store:=Store) (Re:=Re) m)) as Hipc.
  pose proof (λ A B f l, same_map_run (A:=A) (B:=B) f l) as Hmap.
  assert (∀ req r v, same (result_response req r v)) by (intros; unfold result_response; steps).
  assert (∀ req k name, (∀ req p, same (k req p)) → same (with_plugin all_plugins k req name)) as Hwp by (intros; unfold with_plugin; steps).
  assert (∀ req k name, (∀ req p, same (k req p)) → keeps_links c (with_plugin all_plugins k req name)) as Hkp by (intros; by apply keeps_same, Hwp).
  assert (∀ req, keeps_links c (unsubscribe_method (Some c) req)) as Hun.
  { intros req. apply keeps_requiring. intros req' sub. apply keeps_unsubscribe. intros b. steps. }
  unfold methods. repeat apply List.Forall_cons; try exact Hun; try exact (stream_keeps c); try apply List.Forall_nil; cbn [snd]; intros req.
  all: unfold plugin_list, millennium_version_of, millennium_status, plugin_memory, api_health, patch_list, file_list, plugin_crash, runtime_exceptions,
    sdk_ready, patch_updates; try (apply keeps_requiring; intros req' name); unfold requiring_ctx, requiring; cbn beta iota zeta.
  all: try (apply Hkp; steps; fail). all: keeps. apply Hkp. steps.
Qed.

Lemma publish_same p : same (publish format_log_timestamp p).
Proof.
  pose proof (push_same (Store:=Store) (Re:=Re)) as Hp.
  assert (∀ {A} (f : listener * A → M ()) calls w w', (∀ x, same (f x)) → same_links w w' → defined (for_each f calls w').1 →
    same_links w (for_each f calls w').2) as Hcalls.
  { intros A f calls w w' Hf Hs Hd. etransitivity; [exact Hs|]. assert (same (for_each f calls)) as Hx by steps. by apply Hx. }
  intros w. destruct p as [i text e|e|e|e|e|e|e|]; cbn [publish].
  - destruct (l_loggers (m_loader w) !! i) as [lg|] eqn:E; [|done]. cbn [append]. intros Hd. apply Hcalls; [| |exact Hd].
    + intros [l x]. unfold on_log. steps.
    + match goal with |- same_links w (on_logger i ?f w) => destruct (one_logger i f lg w E) as (Hv & Hx & Hc) end. split; [|by rewrite Hc].
      intros b. rewrite Hv, Hx. destruct (decide (b = LogBus i)) as [->|]; [|done]. cbn [bus_view bus_next]. by rewrite E.
  - unfold crash_notify. destruct (bool_decide _); intros Hd; (apply Hcalls; [|by destruct w as [[]]|exact Hd]); intros x; apply Hp.
  - intros Hd. apply Hcalls; [|by destruct w|exact Hd]. intros x. apply Hp.
  - intros Hd. apply Hcalls; [|by destruct w|exact Hd]. intros [l x]. unfold on_console. steps.
  - intros Hd. apply Hcalls; [|by destruct w|exact Hd]. intros x. apply Hp.
  - intros Hd. apply Hcalls; [|by destruct w|exact Hd]. intros x. apply Hp.
  - intros Hd. apply Hcalls; [|by destruct w|exact Hd]. intros x. apply Hp.
  - intros _. destruct (notify_returns w) as (w' & -> & Hs). done.
Qed.

Lemma send_same c j w : same_links w (send_to c j w).
Proof.
  split; [intros b; apply upd_views|]. unfold send_to. rewrite upd_clients. apply list_eq. intros i. rewrite !list_lookup_fmap.
  destruct (decide (i = c)) as [->|]; [rewrite list_lookup_alter_eq; by destruct (_ !! _)|by rewrite list_lookup_alter_ne].
Qed.

(** A method that is found is one of the table. *)
Lemma registered_in (ms : list (bytes * (request_t → M response_t))) : ∀ r name h,
  obj_get name (foldl (λ r x, register_handler x.1 (handler x.2) r) r ms) = Some h →
  (∃ x, x ∈ ms ∧ x.1 = name ∧ h = handler x.2) ∨ obj_get name r = Some h.
Proof.
  induction ms as [|x ms IH]; intros r name h Hh; [by right|]. cbn [foldl] in Hh. apply IH in Hh as [(y & Hy & ? & ?)|Hh].
  - left. exists y. split; [by right|done].
  - unfold register_handler in Hh. destruct (decide (name = x.1)) as [->|Hne].
    + rewrite obj_get_insert_eq in Hh. injection Hh as <-. left. exists x. split; [by left|done].
    + rewrite obj_get_insert_ne in Hh by done. by right.
Qed.

Variable endless : bytes → bool.
Variable from_msgpack : bytes → option json.
Abbreviation dispatch_to c := (dispatch (register_mep_handlers all_plugins read_file file_exists steam_path plugins_path crash_dump_dir os connected dump
  format_log_timestamp std_sort date get_metrics version commit build_type ipc_connected (Some c))).
Abbreviation step_of := (mep_step (Re:=Re) all_plugins read_file file_exists steam_path plugins_path crash_dump_dir os connected dump
  format_log_timestamp std_sort date get_metrics version commit build_type ipc_connected endless from_msgpack).

Lemma dispatch_linked n c req (st : service (Re:=Re)) :
  linked n (sv_world st) → n + 4 < INT_MAX → is_open c (sv_world st) = true →
  sv_undefined (dispatch_to c req st).1 = false → sv_undefined st = false ∧ linked (n + 4) (sv_world (dispatch_to c req st).1).
Proof.
  intros Hl Hn Ho. unfold dispatch. destruct (obj_get _ _) as [h|] eqn:Eh; [|intros Hu; split; [done|]; eapply linked_mono; [|exact Hl]; lia].
  apply registered_in in Eh as [([name m] & Hin & _ & ->)|Eh]; [|done]. cbn [snd]. unfold handler.
  pose proof (methods_keep c) as Hk. rewrite Forall_forall in Hk. specialize (Hk _ Hin req n (sv_world st) Hl Hn). cbn [snd] in Hk.
  assert (∃ cl, m_clients (sv_world st) !! c = Some cl ∧ cl_open cl = true) as Hcl.
  { unfold is_open in Ho. destruct (m_clients (sv_world st) !! c) as [cl|]; [|done]. by exists cl. }
  specialize (Hk Hcl). destruct (m req (sv_world st)) as [[r|e| |] w']; cbn [fst snd sv_undefined sv_world] in *; try done;
    intros Hu; (split; [done|]); auto using Ok_defined, Throw_defined.
Qed.

Lemma step_linked n st op :
  linked n (sv_world st) → 0 <= n → n + 4 < INT_MAX → sv_undefined (step_of st op) = false → sv_undefined st = false ∧ linked (n + 4) (sv_world (step_of st op)).
Proof.
  intros Hl H0 Hn. assert (∀ w, linked n w → linked (n + 4) w) as Hmono by (intros w; apply linked_mono; lia).
  destruct op as [fd|c payload written|c|p|name]; cbn [mep_step].
  - intros Hu. split; [done|]. apply Hmono. destruct Hl as [H1 H2 H3]. destruct st as [w u q]. cbn in *. split.
    + intros b. specialize (H1 b). by destruct w.
    + intros c cl. destruct w. cbn. intros [Hc|[? Hc]]%lookup_app_Some; [by eapply H2|]. apply list_lookup_singleton_Some in Hc as [_ <-]. cbn.
      split; [lia|]. intros s [? Hs]. by rewrite lookup_empty in Hs.
    + intros b i c s. assert (bus_view b (set_clients (m_clients w ++ [client_new fd]) w) = bus_view b w) as -> by (by destruct w).
      rewrite H3. unfold cancels. destruct w. cbn. destruct (decide (c < length m_clients0)%nat); [by rewrite lookup_app_l|].
      rewrite lookup_app_r by lia. rewrite (lookup_ge_None_2 m_clients0) by lia. destruct (c - length m_clients0)%nat as [|k]; cbn; [by rewrite lookup_empty|].
      by destruct k.
  - destruct (is_open c (sv_world st)) eqn:Ho; [|by auto]. destruct (is_waiting c st); [by auto|]. cbn [andb negb]. unfold client_frame, refuse.
    destruct (from_msgpack payload) as [j|].
    2:{ intros Hu. split; [done|]. cbn [on_world sv_world]. apply Hmono, linked_hang_up. eapply linked_same; [apply send_same|done]. }
    destruct (from_json j) as [[req|]|e| |]; try done.
    2:{ intros Hu. split; [done|]. cbn [on_world sv_world]. apply Hmono, linked_hang_up. eapply linked_same; [apply send_same|done]. }
    destruct (_ || blocks endless req); [by auto|]. pose proof (dispatch_linked n c req st Hl Hn Ho) as Hd. destruct (dispatch_to c req st) as [st' resp]. cbn [fst] in Hd.
    cbn [on_world sv_world sv_undefined]. intros Hu. destruct (Hd Hu) as [Hu' Hl']. split; [done|].
    destruct written; [|by apply linked_hang_up]. eapply linked_same; [apply send_same|done].
  - destruct (is_waiting c st); [by auto|]. intros Hu. split; [done|]. cbn [on_world sv_world]. by apply Hmono, linked_hang_up.
  - pose proof (publish_same p (sv_world st)) as Hp. destruct (publish _ _ _) as [r w]. cbn [fst snd sv_undefined sv_world] in *.
    intros [Hu Hr]%orb_false_iff. split; [done|]. apply Hmono. eapply linked_same; [|done]. apply Hp. by destruct r.
  - intros Hu. split; [done|]. cbn [on_world sv_world]. apply Hmono. eapply linked_same; [apply same_new_logger|done].
Qed.

Lemma linked_new (s : Store) (c : network_hook_ctl Re) : linked 0 (mep_new s c).
Proof.
  assert (∀ b, bus_view b (mep_new s c) = ∅) as Hempty. { by intros [[]| | | | | | |]. }
  split.
  - intros b. rewrite Hempty. split; [by destruct b as [[]| | | | | | |]|]. intros i l Hx. by rewrite lookup_empty in Hx.
  - intros c' cl Hc. by destruct c'.
  - intros b i c' sub. rewrite Hempty. split; [by intros (l & Hx%lookup_empty_Some & _)|]. intros (ids & Hx & _). by destruct c'.
Qed.

Lemma undefined_stays st op : sv_undefined st = true → sv_undefined (step_of st op) = true.
Proof.
  intros Hu. destruct op as [fd|c payload written|c|p|name]; cbn [mep_step]; try done.
  - destruct (is_open c _), (is_waiting c st); try done. cbn [andb negb]. unfold client_frame, refuse. destruct (from_msgpack payload) as [j|]; [|done].
    destruct (from_json j) as [[req|]|e| |]; try done. destruct (_ || blocks endless req); [done|].
    assert (sv_undefined (dispatch_to c req st).1 = true) as Hd.
    { unfold dispatch. destruct (obj_get _ _) as [h|] eqn:Eh; [|done]. apply registered_in in Eh as [([name m] & Hin & _ & ->)|Eh]; [|done].
      unfold handler. cbn [snd]. by destruct (m req (sv_world st)) as [[]]. }
    by destruct (dispatch_to c req st).
  - by destruct (is_waiting c st).
  - destruct (publish _ _ _). cbn [sv_undefined]. by rewrite Hu.
Qed.

Lemma run_linked ops st n :
  linked n (sv_world st) → 0 <= n → n + 4 * len ops < INT_MAX → sv_undefined (foldl step_of st ops) = false →
  sv_undefined st = false ∧ linked (n + 4 * len ops) (sv_world (foldl step_of st ops)).
Proof.
  revert st n. induction ops as [|op ops IH]; intros st n Hl H0 Hn; cbn [foldl].
  { intros Hu. split; [done|]. unfold len. cbn [length]. by rewrite Z.mul_0_r, Z.add_0_r. }
  assert (len (op :: ops) = 1 + len ops) as Hlen by (unfold len; cbn [length]; lia). rewrite Hlen in *. pose proof (len_nonneg ops).
  intros Hu. destruct (sv_undefined (step_of st op)) eqn:Eu.
  { exfalso. revert Eu Hu. generalize (step_of st op). clear. induction ops as [|op ops IH]; intros st Eu; cbn [foldl]; [congruence|].
    by apply IH, undefined_stays. }
  destruct (step_linked n st op Hl H0 ltac:(lia) Eu) as [Hst Hl1]. split; [done|].
  destruct (IH _ _ Hl1 ltac:(lia) ltac:(lia) Hu) as [_ Hl']. by replace (n + 4 * (1 + len ops)) with (n + 4 + 4 * len ops) by lia.
Qed.
End keeping.
