(* ===== verification/MepService.v ===== *)
(** * MepService: every request of the developer protocol is answered

    The methods of [MepServer] have no undefined behaviour, answer with the
    identifier of the request, and write nothing else to the client but events
    of its subscriptions. *)

From S2P Require Import Prelude State Json Frames StarFile Css Ring Recorder MepProtocol Config.
From S2P Require Import PluginConfig Patches Process Lifecycle CoreIpc HttpHooks Backend ChildApi MepServer.
From Stdlib Require Import SpecFloat.

(** ** The loader's operations are defined *)

Lemma total_update enabled : defined enabled → total (update run_ready_cb enabled).
Proof.
  intros He. assert (∀ cb, total (call_cb run_ready_cb cb)) by (by intros cb d).
  unfold update, are_all_backends_ready. apply total_bind; [|total]. apply total_bind; [by apply total_lift|]. total.
Qed.

Section loader.
  Context `{T : target} `{SettingsStore Store} {Re : Type}.
  Variable all_plugins : list plugin_t.
  Variable read_file : bytes → option bytes.
  Variable file_exists : bytes → bool.
  Variables steam_path plugins_path : bytes.
  Variable crash_dump_dir : bytes → bytes.
  Variable os : nat → bytes → spawn_os.
  Variable connected : bool.
  Abbreviation M := (SM (loader Store Re listener)).

Lemma init_defined p : defined (init_params read_file steam_path crash_dump_dir p).
Proof.
  unfold init_params. destruct (format p); [apply Ok_defined|]. apply bind_defined; [|intros index _; apply Ok_defined].
  destruct (read_file (plugin_base_dir p)) as [content|]; [|exact (Ok_defined _)]. pose proof (star_read_asset_index_safe content) as Hs.
  by destruct (star_read_asset_index (Some content)).
Qed.

Lemma total_dispatcher {A} (m : SM (dispatcher ready_cb (list ready_cb)) A) : total m → total (on_dispatcher m : M A).
Proof. intros Hm s. unfold on_dispatcher. specialize (Hm (l_dispatcher s)). by destruct (m (l_dispatcher s)). Qed.

Lemma total_enabled {A} (k : outcome (list bytes) → M A) : (∀ e, defined e → total (k e)) → total (e ← gets (enabled_names all_plugins); k e).
Proof.
  intros Hk s. rewrite bind_run. cbn [gets]. apply Hk. unfold enabled_names. apply bind_defined; [apply enabled_backends_defined|]. intros l _. apply Ok_defined.
Qed.

Lemma total_running name : total (is_any_backend_running name : M bool).
Proof. intros s. unfold is_any_backend_running. destruct (_ !! _); [|done]. by destruct (is_alive _). Qed.

Lemma total_destroy name : total (destroy_plugin all_plugins name false : M bool).
Proof.
  unfold destroy_plugin. apply total_bind; [total|]. intros p. apply total_bind; [total|]. intros _. apply total_enabled. intros e He.
  apply total_bind; [|total]. apply total_dispatcher. pose proof (total_update e He). unfold backend_unloaded_event_hdlr. total.
Qed.

Lemma total_spawn p : total (spawn_plugin all_plugins read_file steam_path crash_dump_dir os p : M bool).
Proof.
  unfold spawn_plugin. apply total_bind; [apply total_lift, init_defined|]. intros i. do 2 (apply total_bind; [total|]; intros). apply total_bind; [total|]. intros _.
  destruct (spawn_plugin_process _ _ _ _ _); [total|]. apply total_enabled. intros e He. apply total_bind; [|total].
  apply total_dispatcher. pose proof (total_update e He). unfold backend_loaded_event_hdlr. total.
Qed.

Lemma total_inject reload : total (inject_frontend_shims all_plugins file_exists plugins_path connected reload : M ()).
Proof.
  unfold inject_frontend_shims. apply total_bind; [total|]. intros _. destruct (negb connected); [total|]. apply total_enabled. intros e He.
  apply total_dispatcher. pose proof (total_update e He). unfold on_all_backends_ready. total.
Qed.

Lemma total_enable name on reload :
  total (set_plugin_enable all_plugins read_file file_exists steam_path plugins_path crash_dump_dir os connected name on reload : M ()).
Proof.
  pose proof total_destroy. pose proof total_spawn. pose proof total_inject. pose proof total_running. pose proof (s_set_defined (Store:=Store)).
  assert (∀ st n b, defined (set_plugin_enabled (Store:=Store) st n b)) as Hse.
  { intros st n b. unfold set_plugin_enabled, set_enabled. solve_defined; auto. }
  unfold set_plugin_enable, set_plugins_enabled, set_enabled_setting, disable_plugin, enable_plugin, install_handler, set_child_request_handler.
  pose proof (enabled_backends_defined (Store:=Store)). total.
Qed.
End loader.

(** ** What a client gets to see *)

Definition is_event (j : json) : Prop := jget #"type" j = Some (JStr #"event").

(** Every client stays, open or not, and gets at most events. *)
Definition sends_events {Store Re} (w w' : mep Store Re) : Prop :=
  ∀ c cl, m_clients w !! c = Some cl → ∃ cl' evs, m_clients w' !! c = Some cl' ∧ cl_open cl' = cl_open cl ∧
    cl_sent cl' = cl_sent cl ++ evs ∧ Forall is_event evs.
#[export] Instance sends_events_preorder {Store Re} : PreOrder (sends_events (Store:=Store) (Re:=Re)).
Proof.
  split; [intros w c cl Hc; exists cl, []; by rewrite app_nil_r|]. intros a b d Hab Hbd c cl Hc.
  destruct (Hab c cl Hc) as (cl1 & e1 & H1 & O1 & S1 & E1), (Hbd c cl1 H1) as (cl2 & e2 & H2 & O2 & S2 & E2).
  exists cl2, (e1 ++ e2). split; [done|]. split; [congruence|]. rewrite S2, S1, app_assoc. split; [done|]. by apply Forall_app.
Qed.

(** An answer carries the identifier of its request. *)
Definition answers {St} (req : request_t) (m : SM St response_t) : Prop := ∀ w r w', m w = (Ok r, w') → rs_id r = rq_id req.

Section answers.
  Context {St : Type}.
Lemma answers_ret req (r : response_t) : rs_id r = rq_id req → answers req (mret r : SM St response_t).
Proof. intros Hr w r' w' [= <- _]. done. Qed.
Lemma answers_bind {A} req (m : SM St A) k : (∀ a, answers req (k a)) → answers req (m ≫= k).
Proof. intros Hk w r w' (a & w1 & _ & Hr)%bind_Ok_inv. by eapply Hk. Qed.
End answers.

Ltac answers := repeat first
  [ progress intros
  | solve [eauto]
  | apply answers_ret; reflexivity
  | apply answers_bind
  | match goal with |- answers _ (match ?x with _ => _ end) => destruct x end
  | progress cbn beta iota zeta ].

Section service.
  Context `{T : target} `{SettingsStore Store} {Re : Type}.
  Variable all_plugins : list plugin_t.
  Variable read_file : bytes → option bytes.
  Variable file_exists : bytes → bool.
  Variables steam_path plugins_path : bytes.
  Variable crash_dump_dir : bytes → bytes.
  Variable os : nat → bytes → spawn_os.
  Variable connected : bool.
  Variable dump : json → outcome bytes.
  Variable format_log_timestamp : Z → bytes.
  Variable std_sort : list (Z * json) → list (Z * json).
  Variable date : bytes.
  Variable get_metrics : bytes → Z * Z * spec_float.
  Variables version commit build_type : bytes.
  Variable ipc_connected : bool.
  Abbreviation M := (SM (mep Store Re)).
  Implicit Types w : mep Store Re.
  Abbreviation methods_of ctx := (methods (Re:=Re) all_plugins read_file file_exists steam_path plugins_path crash_dump_dir os connected dump
    format_log_timestamp std_sort date get_metrics version commit build_type ipc_connected ctx).

Lemma methods_answer ctx : Forall (λ x, ∀ req, answers req (x.2 req)) (methods_of ctx).
Proof.
  assert (∀ req req' k name, rq_id req' = rq_id req → (∀ p, answers req (k req' p)) → answers (St:=mep Store Re) req (with_plugin all_plugins k req' name)) as Hwp.
  { intros req req' k name He Hk. unfold with_plugin. destruct (find_plugin _ _); [apply Hk|]. by apply answers_ret. }
  assert (∀ req, answers req (unsubscribe_method (Re:=Re) (Store:=Store) ctx req)) as Hun.
  { intros req. unfold unsubscribe_method, requiring_ctx, requiring. destruct ctx; answers. }
  unfold methods. repeat apply List.Forall_cons; try exact Hun; try apply List.Forall_nil; cbn [snd]; intros req.
  all: unfold plugin_list, plugin_get, plugin_enable, plugin_start, plugin_stop, plugin_restart, plugin_status, millennium_version_of, millennium_status,
    plugin_memory, api_health, patch_list, file_list, file_content, plugin_logs, plugin_crash, plugin_ffi, plugin_console, plugin_stream,
    runtime_exceptions, sdk_ready, patch_updates, config_get, config_set, config_delete, config_get_all, result_response, requiring_ctx, requiring.
  all: try destruct ctx; cbn beta iota zeta; answers.
  all: (apply Hwp; [done|]); answers.
Qed.

(** *** Events only *)
Abbreviation events := (steps (sends_events (Store:=Store) (Re:=Re))).

Lemma events_clients (f : mep Store Re → mep Store Re) : (∀ w, m_clients (f w) = m_clients w) → events (modify f).
Proof. intros Hf. apply steps_modify. intros w c cl Hc. exists cl, []. rewrite Hf, app_nil_r. by split. Qed.

Lemma events_same c (f : client → client) w :
  (∀ cl, cl_open (f cl) = cl_open cl ∧ ∃ evs, cl_sent (f cl) = cl_sent cl ++ evs ∧ Forall is_event evs) → sends_events w (upd_client c f w).
Proof.
  intros Hf c' cl Hc. rewrite upd_clients. destruct (decide (c' = c)) as [->|].
  - rewrite list_lookup_alter_eq, Hc. destruct (Hf cl) as (Ho & evs & Hs & He). by exists (f cl), evs.
  - rewrite list_lookup_alter_ne by done. exists cl, []. by rewrite app_nil_r.
Qed.

Lemma events_push l j : is_event j → events (push_event l j).
Proof.
  intros Hj. apply steps_modify. intros w. destruct (live l w); [|reflexivity]. apply events_same. intros cl. split; [done|]. exists [j]. split; [done|]. by constructor.
Qed.

Lemma events_notify : events notify_updates.
Proof.
  unfold notify_updates. apply steps_bind; [exact _|apply steps_gets, _|]. intros ls. apply steps_for_each; [exact _|]. intros l. by apply events_push.
Qed.

Lemma events_loader {A} (m : SM (loader Store Re listener) A) : events (on_loader m).
Proof.
  intros w. unfold on_loader. destruct (m (m_loader w)) as [r l].
  match goal with |- context [replicate ?n tt] => assert (events (for_each (λ _, notify_updates) (replicate n tt))) as Hs; [|specialize (Hs (set_loader l w));
    destruct (notices_return n (set_loader l w)) as (w' & E & _); rewrite E in *] end.
  { apply steps_for_each; [exact _|]. intros []. apply events_notify. }
  intros _. specialize (Hs (Ok_defined _)). by destruct w.
Qed.

Lemma events_bus_add b plugin l : events (bus_add b plugin l).
Proof.
  assert (∀ f : mep Store Re → mep Store Re, (∀ w, m_clients (f w) = m_clients w) → ∀ w, sends_events w (f w)) as Hc.
  { intros f Hf w. pose proof (events_clients f Hf w) as Hx. apply Hx, Ok_defined. }
  intros w. destruct b as [i| | | | | | |]; cbn [bus_add].
  - destruct (_ !! i); [|by intros []]. destruct (log_add_listener _ _) as [id lg]. intros _. apply (Hc (on_logger i (λ _, lg))). by intros [].
  - unfold crash_add_listener. destruct (table_add _ _) as [id t]. intros Hd.
    match goal with |- context [set_loader ?x w] => transitivity (set_loader x w); [apply (Hc (set_loader x)); by intros []|] end. revert Hd. match goal with |- defined (?m ?w0).1 → _ => assert (events m) as Hm; [|apply Hm] end.
    pose proof (λ x, events_push x.1 (event x.1 (crash_fields x.2)) eq_refl). unfold on_crash. steps.
  - destruct (add_listener _ _ _) as [id r]. intros _. apply (Hc (set_ffi r)). by intros [].
  - destruct (add_listener _ _ _) as [id r]. intros _. apply (Hc (set_console r)). by intros [].
  - destruct (add_listener _ _ _) as [id r]. intros _. apply (Hc (set_exceptions r)). by intros [].
  - destruct (add_listener _ _ _) as [id r]. intros _. apply (Hc (set_patch_stream r)). by intros [].
  - unfold sdk_add_listener. destruct (table_add _ _) as [id t]. intros Hd.
    match goal with |- context [set_sdk ?x w] => transitivity (set_sdk x w); [apply (Hc (set_sdk x)); by intros []|] end. revert Hd. match goal with |- defined (?m ?w0).1 → _ => assert (events m) as Hm; [|apply Hm] end.
    pose proof (λ x, events_push x.1 (event x.1 (sdk_fields x.2)) eq_refl). unfold on_sdk. steps.
  - destruct (notifier_add _ _) as [id t]. intros _. apply (Hc (set_updates t)). by intros [].
Qed.

Lemma events_subscribe c plugin stream min buses : events (subscribe_to c plugin stream min buses).
Proof.
  pose proof events_bus_add. unfold subscribe_to.
  assert (events (subscribe c)) as Hsub.
  { intros w. unfold subscribe. destruct (m_clients w !! c); [|by intros []]. intros _. apply events_same. intros cl. split; [done|]. exists []. by rewrite app_nil_r. }
  assert (∀ sub b id, events (modify (store_id c sub b id))) as Hid.
  { intros sub b id. apply steps_modify. intros w. apply events_same. intros cl. split; [done|]. exists []. by rewrite app_nil_r. }
  unfold attach. steps.
Qed.

Lemma events_unsubscribe c sub : events (unsubscribe_client c sub).
Proof.
  intros w. unfold unsubscribe_client. destruct (_ ≫= _) as [l|]; [|reflexivity]. intros _. cbn [snd].
  etransitivity; [|apply events_same; intros cl; split; [done|]; exists []; by rewrite app_nil_r].
  pose proof (cancel_clients l w) as Hc. intros c' cl Hcl. exists cl, []. rewrite Hc, app_nil_r. by split.
Qed.

Lemma events_map_run {A B} (f : A → M B) l : (∀ x, events (f x)) → events (map_run f l).
Proof. intros Hf. induction l as [|x l IH]; cbn [map_run]; steps. Qed.
Lemma events_count l : ∀ n e r, events (count_plugins l n e r).
Proof. pose proof (@events_loader). induction l as [|p l IH]; intros n e r; cbn [count_plugins]; steps. Qed.

Lemma methods_events ctx : Forall (λ x, ∀ req, events (x.2 req)) (methods_of ctx).
Proof.
  pose proof (@events_loader) as Hl. pose proof events_subscribe. pose proof events_unsubscribe. pose proof events_count. pose proof (@events_map_run).
  assert (∀ p, events (plugin_to_json p)) by (intros; unfold plugin_to_json; steps).
  assert (∀ req k name, (∀ req p, events (k req p)) → events (with_plugin all_plugins k req name)) as Hwp by (intros; unfold with_plugin; steps).
  assert (∀ ls, events (modify (λ w, set_loader (set_loggers ls (m_loader w)) w))) by (intros; apply events_clients; by intros []).
  unfold methods. repeat apply List.Forall_cons; try apply List.Forall_nil; cbn [snd]; intros req.
  all: unfold plugin_list, plugin_get, plugin_enable, plugin_start, plugin_stop, plugin_restart, plugin_status, millennium_version_of, millennium_status,
    plugin_memory, api_health, patch_list, file_list, file_content, plugin_logs, plugin_crash, plugin_ffi, plugin_console, plugin_stream,
    runtime_exceptions, sdk_ready, patch_updates, config_get, config_set, config_delete, config_get_all, result_response, unsubscribe_method, requiring_ctx, requiring.
  all: try destruct ctx; cbn beta iota zeta; try (steps; fail).
  all: steps; apply Hwp; steps.
Qed.

(** *** Nothing undefined *)

Definition holds `{RecorderKind A} (h : list A) (r : recorder A listener) : Prop := ring_repr (H:=kind_size) h (history r).

(** The recorders hold what was recorded, and what they hold is presentable. *)
Record readable w : Prop := {
  rd_ffi : ∃ h, holds h (m_ffi w);
  rd_exceptions : ∃ h, holds h (m_exceptions w);
  rd_console : ∃ h, holds h (m_console w) ∧ Forall (λ e, ∃ ts, console_ok ts e) h;
  rd_patches : ∃ h, holds h (m_patch_stream w);
  rd_logs : Forall (λ lg, Forall (λ e, 0 <= le_timestamp_us e < 2 ^ 64) (logBuffer lg)) (l_loggers (m_loader w));
}.

Lemma recent_Ok `{RecorderKind A} h plugin max (r : recorder A listener) :
  holds h r → 0 <= max → get_recent plugin max r = Ok (recent_spec plugin max h).
Proof. intros Hr Hm. unfold get_recent, recent_spec. destruct newest_first; [by apply ring_recent_spec|by apply ring_oldest_spec]. Qed.

Lemma recent_in `{RecorderKind A} h plugin max (e : A) : e ∈ recent_spec plugin max h → e ∈ h.
Proof.
  unfold recent_spec, lastn. intros He.
  assert (e ∈ List.filter (keeps plugin) (drop (length h - RINGN (H:=kind_size)) h)) as Hf.
  { destruct newest_first; apply list_elem_of_lookup in He as [i He]; apply list_elem_of_lookup.
    - rewrite lookup_drop in He. by eexists.
    - apply lookup_take_Some in He as [He _]. by eexists. }
  apply list_elem_of_In, filter_In in Hf as [Hf%list_elem_of_In _]. by apply (subseteq_drop _ _) in Hf.
Qed.

Lemma snapshot_defined w lg : readable w → Forall (λ e, 0 <= le_timestamp_us e < 2 ^ 64) (logBuffer lg) →
  defined (collect_log_snapshot std_sort lg (m_console w) (m_patch_stream w) 200).
Proof.
  intros [_ _ (h & Hr & Hok) (h' & Hr') _] Hlog. unfold collect_log_snapshot.
  rewrite (recent_Ok _ _ _ _ Hr), (recent_Ok _ _ _ _ Hr') by done. cbn [mbind outcome_bind].
  match goal with |- context [map_outcome normalize_console_entry ?l] => set (ces := l) end.
  assert (Forall (λ e, ∃ ts, console_ok ts e) ces) as Hces.
  { apply Forall_forall. intros e He%recent_in. by eapply Forall_forall in Hok. }
  destruct (map_outcome_Ok normalize_console_entry ces) as (cs & -> & Hf2).
  { eapply Forall_impl; [exact Hces|]. intros e [ts He]. destruct (console_entry_stamped ts e He) as (j & ? & _). eauto. }
  cbn [mbind outcome_bind]. match goal with |- context [map_outcome entry_ts ?l] => destruct (map_outcome_Ok entry_ts l) as (keys & -> & _) end; [|done].
  apply Forall_app. split; [|apply Forall_app; split].
  - apply Forall_fmap. eapply Forall_impl; [exact Hlog|]. intros e He. eexists. by apply log_entry_stamped.
  - eapply console_all_stamped; [exact Hces|exact Hf2].
  - apply Forall_fmap, Forall_true. intros e. eexists. apply patch_entry_stamped.
Qed.

(** A subscription of a client to loggers that exist. *)
Definition bus_there (w : mep Store Re) (b : bus) : Prop := match b with LogBus i => is_Some (l_loggers (m_loader w) !! i) | _ => True end.

Lemma attach_there c sub plugin stream min b w : bus_there w b →
  ∃ w', attach c sub plugin stream min b w = (Ok tt, w') ∧ ∀ b', bus_there w b' → bus_there w' b'.
Proof.
  intros Hb. unfold attach. rewrite bind_run. set (l := Listener _ _ _ _ _).
  assert (∃ id w1, bus_add b plugin l w = (Ok id, w1) ∧ ∀ b', bus_there w b' → bus_there w1 b') as (id & w1 & -> & H1).
  { assert (∀ w1, (∀ i, is_Some (l_loggers (m_loader w) !! i) → is_Some (l_loggers (m_loader w1) !! i)) → ∀ b', bus_there w b' → bus_there w1 b') as Hloggers.
    { intros w1 Hi [i| | | | | | |]; cbn; auto. }
    assert (∀ {A} (f : listener * A → M ()) (g : listener * A → json) calls w1, (∀ x, f x = push_event x.1 (g x)) →
      ∃ w2, for_each f calls w1 = (Ok tt, w2) ∧ m_loader w2 = m_loader w1) as Hcalls.
    { intros A f g calls w1 Hf. revert w1. induction calls as [|x calls IH]; intros w1; cbn [for_each]; [by exists w1|]. rewrite bind_run, Hf. cbn [push_event modify].
      destruct (IH (if live x.1 w1 then send_to (ls_client x.1) (g x) w1 else w1)) as (w2 & -> & Hl). exists w2. split; [done|]. rewrite Hl. destruct (live x.1 w1); by destruct w1. }
    destruct b as [i| | | | | | |]; cbn [bus_add].
    - cbn in Hb. destruct (l_loggers (m_loader w) !! i) as [lg|] eqn:E; [|by destruct Hb]. destruct (log_add_listener _ _) as [id lg']. eexists _, _. split; [done|].
      apply Hloggers. intros j. rewrite loggers_on. destruct (decide (j = i)) as [->|]; [rewrite list_lookup_alter_eq, E; by eexists|by rewrite list_lookup_alter_ne].
    - unfold crash_add_listener. destruct (table_add _ _) as [id t]. rewrite bind_run.
      match goal with |- context [for_each on_crash ?calls ?w1] => destruct (Hcalls _ on_crash (λ x, event x.1 (crash_fields x.2)) calls w1) as (w2 & -> & Hl); [done|] end.
      eexists _, _. split; [done|]. apply Hloggers. rewrite Hl. by destruct w as [[]].
    - destruct (add_listener _ _ _). eexists _, _. split; [done|]. apply Hloggers. by destruct w.
    - destruct (add_listener _ _ _). eexists _, _. split; [done|]. apply Hloggers. by destruct w.
    - destruct (add_listener _ _ _). eexists _, _. split; [done|]. apply Hloggers. by destruct w.
    - destruct (add_listener _ _ _). eexists _, _. split; [done|]. apply Hloggers. by destruct w.
    - unfold sdk_add_listener. destruct (table_add _ _) as [id t]. rewrite bind_run.
      match goal with |- context [for_each on_sdk ?calls ?w1] => destruct (Hcalls _ on_sdk (λ x, event x.1 (sdk_fields x.2)) calls w1) as (w2 & -> & Hl); [done|] end.
      eexists _, _. split; [done|]. apply Hloggers. rewrite Hl. by destruct w as [[]].
    - eexists _, _. split; [done|]. apply Hloggers. by destruct w. }
  eexists. split; [done|]. intros b' Hb'%H1. by destruct w1.
Qed.

Lemma subscribe_defined c plugin stream min buses w :
  is_Some (m_clients w !! c) → Forall (bus_there w) buses → ∃ sub w', subscribe_to c plugin stream min buses w = (Ok sub, w').
Proof.
  intros [cl Hcl] Hb. unfold subscribe_to. rewrite bind_run. unfold subscribe. rewrite Hcl.
  match goal with |- context [upd_client c ?f w] => set (w1 := upd_client c f w); assert (Forall (bus_there w1) buses) as Hb1 by (by destruct w) end.
  rewrite bind_run. clearbody w1. clear Hb Hcl. revert w1 Hb1. induction buses as [|b buses IH]; intros w1 Hb1; cbn [for_each]; [by eexists _, _|].
  apply Forall_cons in Hb1 as [Hb Hbs]. rewrite bind_run.
  match goal with |- context [attach c ?s _ _ _ b w1] => destruct (attach_there c s plugin stream min b w1 Hb) as (w2 & -> & Hk) end.
  apply IH. eapply Forall_impl; [exact Hbs|]. apply Hk.
Qed.

  Hypothesis dump_defined : ∀ j, defined (dump j).

Lemma total_on_loader {A} (m : SM (loader Store Re listener) A) : total m → total (on_loader m).
Proof. intros Hm w. destruct (on_loader_run m w) as (w' & -> & _). apply Hm. Qed.

(** Where a client is connected and the recorders are readable. *)
Definition served (c : nat) (m : M response_t) : Prop := ∀ w, is_Some (m_clients w !! c) → readable w → defined (m w).1.

Lemma served_total c m : total m → served c m.
Proof. intros Hm w _ _. apply Hm. Qed.

Lemma served_subscribe c plugin stream min b (k : bytes → M response_t) : (∀ i, b ≠ LogBus i) → (∀ sub, total (k sub)) →
  served c (sub ← subscribe_to c plugin stream min [b]; k sub).
Proof.
  intros Hb Hk w Hc _. rewrite bind_run. destruct (subscribe_defined c plugin stream min [b] w Hc) as (sub & w' & ->); [|apply Hk].
  constructor; [|done]. destruct b; try done. by edestruct Hb.
Qed.

(** What was recorded is read before the subscription. *)
Lemma served_recent `{RecorderKind A} c (f : mep Store Re → recorder A listener) plugin (k : list A → M response_t) :
  (∀ w, readable w → ∃ h, holds h (f w)) → (∀ l, served c (k l)) → served c (r ← gets f; l ← lift (get_recent plugin 200 r); k l).
Proof.
  intros Hf Hk w Hc Hr. destruct (Hf w Hr) as [h Hh]. rewrite bind_run. cbn [gets]. rewrite bind_run. rewrite (recent_Ok h) by done. cbn [lift]. by apply Hk.
Qed.

Lemma served_stream c req : served c (plugin_stream std_sort date (Some c) req).
Proof.
  unfold plugin_stream, requiring_ctx, requiring. destruct (require_string req _) as [name|]; [|by apply served_total, total_ret].
  intros w Hc Hr. rewrite bind_run. cbn [gets]. rewrite bind_run. cbn [modify]. set (found := get_or_create_plugin_logger date name (l_loggers (m_loader w))).
  assert (∃ lg, found.2 !! found.1 = Some lg ∧ Forall (λ e, 0 <= le_timestamp_us e < 2 ^ 64) (logBuffer lg)) as (lg & Hlg & Hlog).
  { subst found. unfold get_or_create_plugin_logger. destruct (find_logger name (l_loggers (m_loader w))) as [i|] eqn:Ef; cbn [fst snd].
    - destruct (find_logger_Some _ _ _ Ef) as (lg & Hi & _). exists lg. split; [done|]. destruct Hr as [_ _ _ _ Hl]. by eapply Forall_lookup_1 in Hl.
    - exists (new_logger date name). split; [|done]. rewrite lookup_app_r by lia. by rewrite Nat.sub_diag. }
  rewrite Hlg. rewrite bind_run. set (w1 := set_loader _ w).
  assert (m_console w1 = m_console w ∧ m_patch_stream w1 = m_patch_stream w ∧ m_clients w1 = m_clients w ∧ l_loggers (m_loader w1) = found.2) as (E1 & E2 & E3 & E4)
    by (by destruct w as [[]]).
  rewrite bind_run. cbn [gets]. rewrite bind_run. cbn [gets lift]. rewrite E1, E2. pose proof (snapshot_defined w lg Hr Hlog) as Hs.
  destruct (collect_log_snapshot _ lg _ _ _) as [j|e| |]; [|done|by destruct Hs..].
  rewrite bind_run. destruct (subscribe_defined c name true info [LogBus found.1; ConsoleB; PatchB] w1) as (sub & w2 & ->); [by rewrite E3| |done].
  repeat constructor. cbn. rewrite E4, Hlg. by eexists.
Qed.

Lemma served_logs c req : served c (plugin_logs format_log_timestamp (Some c) req).
Proof.
  unfold plugin_logs, requiring_ctx, requiring. destruct (require_string req _) as [name|]; [|by apply served_total, total_ret].
  intros w Hc Hr. cbn zeta. rewrite bind_run. cbn [gets]. destruct (find_logger name (l_loggers (m_loader w))) as [i|] eqn:Ef; [|done].
  destruct (find_logger_Some _ _ _ Ef) as (lg & Hi & _). rewrite bind_run.
  destruct (subscribe_defined c name false (min_level req) [LogBus i] w Hc) as (sub & w2 & ->); [|done]. repeat constructor. cbn. rewrite Hi. by eexists.
Qed.

Lemma methods_served c : Forall (λ x, ∀ req, served c (x.2 req)) (methods_of (Some c)).
Proof.
  pose proof (λ n on r, total_on_loader _ (total_enable (Re:=Re) all_plugins read_file file_exists steam_path plugins_path crash_dump_dir os connected n on r)).
  pose proof (λ n, total_on_loader _ (total_destroy (Store:=Store) (Re:=Re) all_plugins n)).
  pose proof (λ n, total_on_loader _ (total_running (Store:=Store) (Re:=Re) n)).
  pose proof (λ t src p k v, total_on_loader _ (total_on_ipc (Re:=Re) (L:=listener) _ (total_store_set dump dump_defined t src p k v))).
  pose proof (λ t src p k, total_on_loader _ (total_on_ipc (Re:=Re) (L:=listener) _ (total_store_del dump dump_defined t src p k))).
  assert (∀ p, total (plugin_to_json (Re:=Re) (Store:=Store) p)) by (intros; unfold plugin_to_json; total).
  assert (∀ {A B} (f : A → M B) l, (∀ x, total (f x)) → total (map_run f l)) as Hmap by (intros A B f l Hf; induction l; cbn [map_run]; total).
  assert (∀ l n e r, total (count_plugins (Re:=Re) (Store:=Store) l n e r)) by (intros l; induction l; intros; cbn [count_plugins]; total).
  assert (∀ req k name, (∀ req p, total (k req p)) → total (with_plugin (Re:=Re) (Store:=Store) all_plugins k req name)) as Hwp by (intros; unfold with_plugin; total).
  assert (∀ req, served c (unsubscribe_method (Some c) req)) as Hun.
  { intros req. apply served_total. unfold unsubscribe_method, requiring_ctx, requiring. destruct (require_string _ _); [|total].
    apply total_bind; [|total]. intros w. unfold unsubscribe_client. by destruct (_ ≫= _). }
  assert (∀ l, defined (map_outcome file_of_patch l)).
  { intros l. induction l as [|x l IH]; [done|]. cbn [map_outcome]. unfold file_of_patch. solve_defined; auto with cxx. }
  unfold methods. repeat apply List.Forall_cons; try exact Hun; try exact (served_stream c); try exact (served_logs c); try apply List.Forall_nil; cbn [snd]; intros req.
  all: unfold plugin_list, plugin_get, plugin_enable, plugin_start, plugin_stop, plugin_restart, plugin_status, millennium_version_of, millennium_status,
    plugin_memory, api_health, patch_list, file_list, file_content, plugin_logs, plugin_crash, plugin_ffi, plugin_console,
    runtime_exceptions, sdk_ready, patch_updates, config_get, config_set, config_delete, config_get_all, result_response, requiring_ctx, requiring; cbn beta iota zeta.
  all: try (apply served_total; total; fail).
  all: try (match goal with |- context [require_string ?r #"name"] => destruct (require_string r #"name"); [|apply served_total; total; fail] end).
  all: try (apply served_total, Hwp; total; fail).
  all: try (apply served_subscribe; [done|total]; fail).
  - apply served_recent; [by intros w []|]. intros recent. apply served_subscribe; [done|total].
  - apply served_recent; [intros w []; naive_solver|]. intros recent. apply served_subscribe; [done|total].
  - apply served_recent; [by intros w []|]. intros recent. apply served_subscribe; [done|total].
  - intros w Hc Hr. rewrite bind_run. cbn [gets]. match goal with |- defined (?m w).1 => assert (served c m) as Hs; [|by apply Hs] end.
    apply served_subscribe; [done|total].
Qed.

End service.

(** ** What is recorded stays readable *)

(** An entry of a log, and one of the console, that can be presented: the time
    is in the range of its type, and so are the line numbers. *)
Definition log_ok (e : log_entry) : Prop := 0 <= le_timestamp_us e < 2 ^ 64.
Definition logs_ok {Store Re} (w : mep Store Re) : Prop := Forall (λ lg, Forall log_ok (logBuffer lg)) (l_loggers (m_loader w)).
Definition rings {Store Re} (w : mep Store Re) := (history (m_ffi w), history (m_exceptions w), history (m_console w), history (m_patch_stream w)).
Definition same_records {Store Re} (w w' : mep Store Re) : Prop := rings w' = rings w ∧ (logs_ok w → logs_ok w').
#[export] Instance same_records_preorder {Store Re} : PreOrder (same_records (Store:=Store) (Re:=Re)).
Proof. split; [done|]. intros a b c [A1 A2] [B1 B2]. split; [congruence|auto]. Qed.
(** At most [n] entries were recorded in each history. *)
Definition recorded_up_to `{T : target} {Store Re} (n : Z) (w : mep Store Re) : Prop :=
  (∃ h, holds h (m_ffi w) ∧ len h <= n) ∧ (∃ h, holds h (m_exceptions w) ∧ len h <= n) ∧
  (∃ h, holds h (m_console w) ∧ len h <= n ∧ Forall (λ e, ∃ ts, console_ok ts e) h) ∧ (∃ h, holds h (m_patch_stream w) ∧ len h <= n) ∧ logs_ok w.

Section records.
  Context `{T : target} `{SettingsStore Store} {Re : Type}.
  Variable all_plugins : list plugin_t.
  Variable read_file : bytes → option bytes.
  Variable file_exists : bytes → bool.
  Variables steam_path plugins_path : bytes.
  Variable crash_dump_dir : bytes → bytes.
  Variable os : nat → bytes → spawn_os.
  Variable connected : bool.
  Variable dump : json → outcome bytes.
  Variable format_log_timestamp : Z → bytes.
  Variable std_sort : list (Z * json) → list (Z * json).
  Variable date : bytes.
  Variable get_metrics : bytes → Z * Z * spec_float.
  Variables version commit build_type : bytes.
  Variable ipc_connected : bool.
  Abbreviation M := (SM (mep Store Re)).
  Implicit Types w : mep Store Re.
  Abbreviation methods_of ctx := (methods (Re:=Re) all_plugins read_file file_exists steam_path plugins_path crash_dump_dir os connected dump
    format_log_timestamp std_sort date get_metrics version commit build_type ipc_connected ctx).
  Abbreviation records := (steps (same_records (Store:=Store) (Re:=Re))).

Lemma records_upd c f w : same_records w (upd_client c f w).
Proof. by destruct w. Qed.
Lemma records_push l j : records (push_event l j).
Proof. apply steps_modify. intros w. destruct (live l w); [apply records_upd|reflexivity]. Qed.
Lemma records_notify : records notify_updates.
Proof. unfold notify_updates. apply steps_bind; [exact _|apply steps_gets, _|]. intros ls. apply steps_for_each; [exact _|]. intros l. apply records_push. Qed.
Lemma records_loader {A} (m : SM (loader Store Re listener) A) : steps bus_kept m → records (on_loader m).
Proof.
  intros Hm w. specialize (Hm (m_loader w)). unfold on_loader. destruct (m (m_loader w)) as [r l]. cbn [fst snd] in Hm.
  match goal with |- context [replicate ?n tt] => assert (records (for_each (λ _, notify_updates) (replicate n tt))) as Hs; [|specialize (Hs (set_loader l w));
    destruct (notices_return n (set_loader l w)) as (w' & E & _); rewrite E in *] end.
  { apply steps_for_each; [exact _|]. intros []. apply records_notify. }
  intros Hd. etransitivity; [|exact (Hs (Ok_defined _))]. destruct (Hm Hd) as [Hl _]. split; [by destruct w|]. unfold logs_ok. by destruct w; cbn in *; rewrite Hl.
Qed.
Lemma logs_on i f w : (∀ lg, l_loggers (m_loader w) !! i = Some lg → logBuffer (f lg) = logBuffer lg) → same_records w (on_logger i f w).
Proof.
  intros Hf. split; [by destruct w as [[]]|]. unfold logs_ok. rewrite loggers_on. intros Hl. apply Forall_lookup_2. intros j lg Hj.
  destruct (decide (j = i)) as [->|Hne]; [|rewrite list_lookup_alter_ne in Hj by done; by eapply Forall_lookup_1 in Hl].
  rewrite list_lookup_alter_eq in Hj. destruct (l_loggers (m_loader w) !! i) as [lg0|] eqn:E; [|done]. injection Hj as <-. rewrite Hf by done. by eapply Forall_lookup_1 in Hl.
Qed.
Lemma records_bus_add b plugin l : records (bus_add b plugin l).
Proof.
  intros w. destruct b as [i| | | | | | |]; cbn [bus_add].
  - destruct (_ !! i) as [lg|] eqn:E; [|by intros []]. unfold log_add_listener. destruct (table_add _ _) as [id t]. intros _. apply logs_on. intros lg' Hlg. rewrite E in Hlg. by injection Hlg as <-.
  - unfold crash_add_listener. destruct (table_add _ _) as [id t]. intros Hd.
    match goal with |- context [set_loader ?x w] => transitivity (set_loader x w); [by destruct w as [[]]|] end. revert Hd. match goal with |- defined (?m ?w0).1 → _ => assert (records m) as Hm; [|apply Hm] end.
    pose proof records_push. unfold on_crash. steps.
  - intros _. by destruct w.
  - intros _. by destruct w.
  - intros _. by destruct w.
  - intros _. by destruct w.
  - unfold sdk_add_listener. destruct (table_add _ _) as [id t]. intros Hd.
    match goal with |- context [set_sdk ?x w] => transitivity (set_sdk x w); [by destruct w|] end. revert Hd. match goal with |- defined (?m ?w0).1 → _ => assert (records m) as Hm; [|apply Hm] end.
    pose proof records_push. unfold on_sdk. steps.
  - intros _. by destruct w.
Qed.
Lemma records_subscribe c plugin stream min buses : records (subscribe_to c plugin stream min buses).
Proof.
  pose proof records_bus_add. unfold subscribe_to.
  assert (records (subscribe c)) as Hsub by (intros w; unfold subscribe; destruct (m_clients w !! c); [intros _; apply records_upd|by intros []]).
  assert (∀ sub b id, records (modify (store_id c sub b id))) as Hid by (intros sub b id; apply steps_modify; intros w; apply records_upd).
  unfold attach. steps.
Qed.
Lemma records_remove b id w : same_records w (bus_remove b id w).
Proof. destruct b; cbn [bus_remove]; [by apply logs_on|by destruct w as [[]]..]. Qed.
Lemma records_cancel l w : same_records w (cancel l w).
Proof. revert w. induction l as [|x l IH]; intros w; cbn [cancel foldl]; [reflexivity|]. etransitivity; [|apply IH]. destruct (0 <=? x.2); [apply records_remove|reflexivity]. Qed.
Lemma records_unsubscribe c sub : records (unsubscribe_client c sub).
Proof. intros w. unfold unsubscribe_client. destruct (_ ≫= _) as [l|]; [|reflexivity]. intros _. cbn [snd]. etransitivity; [apply records_cancel|apply records_upd]. Qed.
Lemma records_hang_up c w : same_records w (hang_up c w).
Proof.
  unfold hang_up. destruct (m_clients w !! c) as [cl|]; [|reflexivity]. etransitivity; [|apply records_upd]. generalize (map_to_list (cancel_map cl)). intros l. revert w.
  induction l as [|x l IH]; intros w; cbn [foldl]; [reflexivity|]. etransitivity; [apply records_cancel|apply IH].
Qed.
Lemma records_new_logger name w : same_records w (set_loader (set_loggers (get_or_create_plugin_logger date name (l_loggers (m_loader w))).2 (m_loader w)) w).
Proof.
  split; [by destruct w|]. unfold logs_ok. intros Hl. assert (∀ ls, l_loggers (m_loader (set_loader (set_loggers ls (m_loader w)) w)) = ls) as -> by (intros; by destruct w as [[]]).
  unfold get_or_create_plugin_logger. destruct (find_logger _ _); [done|]. apply Forall_app. split; [done|]. by repeat constructor.
Qed.
Lemma records_running name : records (on_loader (is_any_backend_running name)).
Proof. apply records_loader, kept_running. Qed.
#[local] Hint Resolve records_running : steps.
Lemma records_map_run {A B} (f : A → M B) l : (∀ x, records (f x)) → records (map_run f l).
Proof. intros Hf. induction l as [|x l IH]; cbn [map_run]; steps. Qed.
Lemma records_count l : ∀ n e r, records (count_plugins l n e r).
Proof. induction l as [|p l IH]; intros n e r; cbn [count_plugins]; steps. Qed.
Lemma records_stream c req : records (plugin_stream std_sort date (Some c) req).
Proof.
  pose proof records_subscribe. unfold plugin_stream, requiring_ctx, requiring. destruct (require_string req _) as [name|]; [|apply steps_ret, _].
  intros w. rewrite bind_run. cbn [gets]. rewrite bind_run. cbn [modify]. intros Hd.
  set (found := get_or_create_plugin_logger date name (l_loggers (m_loader w))) in *. pose proof (records_new_logger name w) as Hs. fold found in Hs. etransitivity; [exact Hs|].
  match goal with |- same_records _ (?m (set_loader _ _)).2 => assert (records m) as Hm; [|apply Hm; exact Hd] end. steps.
Qed.

Lemma methods_records c : Forall (λ x, ∀ req, records (x.2 req)) (methods_of (Some c)).
Proof.
  pose proof (λ n on r, records_loader _ (kept_enable (Re:=Re) all_plugins read_file file_exists steam_path plugins_path crash_dump_dir os connected n on r)) as Hen.
  pose proof (λ n, records_loader _ (kept_destroy (Store:=Store) (Re:=Re) all_plugins n)) as Hde.
  pose proof (λ A m, records_loader _ (linked_kept_ipc (A:=A) (Store:=Store) (Re:=Re) m)) as Hipc.
  pose proof records_subscribe. pose proof records_unsubscribe. pose proof records_count. pose proof (@records_map_run). pose proof (records_stream c) as Hstream.
  assert (∀ p, records (plugin_to_json p)) by (intros; unfold plugin_to_json; steps).
  assert (∀ req k name, (∀ req p, records (k req p)) → records (with_plugin all_plugins k req name)) as Hwp by (intros; unfold with_plugin; steps).
  unfold methods. repeat apply List.Forall_cons; try exact Hstream; try apply List.Forall_nil; cbn [snd]; intros req.
  all: unfold plugin_list, plugin_get, plugin_enable, plugin_start, plugin_stop, plugin_restart, plugin_status, millennium_version_of, millennium_status,
    plugin_memory, api_health, patch_list, file_list, file_content, plugin_logs, plugin_crash, plugin_ffi, plugin_console,
    runtime_exceptions, sdk_ready, patch_updates, config_get, config_set, config_delete, config_get_all, result_response, unsubscribe_method, requiring_ctx, requiring.
  all: cbn beta iota zeta; try (steps; fail).
  all: steps; apply Hwp; steps.
Qed.
End records.

(** *** What is published *)

(** An event as the service records them: presentable. *)
Definition publishable (p : publication) : Prop :=
  match p with PLog _ _ e => log_ok e | PConsole e => ∃ ts, console_ok ts e | _ => True end.
Definition op_ok (op : mep_op) : Prop := match op with Publish p => publishable p | _ => True end.

Section publishing.
  Context `{T : target} {Store Re : Type}.
  Variable format_log_timestamp : Z → bytes.
  Abbreviation M := (SM (mep Store Re)).
  Implicit Types w : mep Store Re.

Lemma recorded_same n w w' : same_records w w' → recorded_up_to n w → recorded_up_to n w'.
Proof. intros [Hr Hl] (H1 & H2 & H3 & H4 & H5). unfold recorded_up_to, holds in *. injection Hr as E1 E2 E3 E4. rewrite E1, E2, E3, E4. split_and!; auto. Qed.
Lemma recorded_mono n m w : n <= m → recorded_up_to n w → recorded_up_to m w.
Proof.
  intros Hm ((h1 & H1 & L1) & (h2 & H2 & L2) & (h3 & H3 & L3 & C3) & (h4 & H4 & L4) & H5).
  split; [exists h1; split; [done|lia]|]. split; [exists h2; split; [done|lia]|]. split; [exists h3; split_and!; [done|lia|done]|]. split; [exists h4; split; [done|lia]|done].
Qed.
Lemma recorded_readable n w : recorded_up_to n w → readable w.
Proof. intros ((h1 & H1 & L1) & (h2 & H2 & L2) & (h3 & H3 & L3 & C3) & (h4 & H4 & L4) & H5). split; eauto. Qed.
Lemma holds_record `{RecorderKind A} n (e : A) (r : recorder A listener) (P : A → Prop) : n + 1 < 2 ^ word_bits → P e → (∃ h, holds h r ∧ len h <= n ∧ Forall P h) →
  ∃ h, holds h (record_entry e r).1 ∧ len h <= n + 1 ∧ Forall P h.
Proof.
  intros Hn He (h & Hh & Hl & HP). assert (len (h ++ [e]) = len h + 1) as Hlen by (unfold len; rewrite length_app; cbn; lia). exists (h ++ [e]). split; [apply ring_push_repr; [done|lia]|]. split; [lia|].
  apply Forall_app. by split; [|constructor].
Qed.
Lemma holds_record' `{RecorderKind A} n (e : A) (r : recorder A listener) : n + 1 < 2 ^ word_bits → (∃ h, holds h r ∧ len h <= n) → ∃ h, holds h (record_entry e r).1 ∧ len h <= n + 1.
Proof. intros Hn (h & Hh & Hl). destruct (holds_record n e r (λ _, True) Hn I) as (h' & ? & ? & _); [exists h; split_and!; [done|done|by apply Forall_true]|]. by exists h'. Qed.

(** A call of a listener: no exception, and the histories stay. *)
Definition quiet (m : M ()) : Prop := ∀ w, ∃ w', m w = (Ok tt, w') ∧ same_records w w'.
Lemma quiet_push l j : quiet (push_event l j).
Proof. intros w. eexists. split; [reflexivity|]. destruct (live l w); [apply records_upd|reflexivity]. Qed.
Lemma quiet_ret : quiet (mret tt).
Proof. by intros w; exists w. Qed.
Lemma calls_run {A} (f : listener * A → M ()) calls : Forall (λ x, quiet (f x)) calls → quiet (for_each f calls).
Proof.
  induction 1 as [|x calls Hx _ IH]; [apply quiet_ret|]. intros w. cbn [for_each]. rewrite bind_run. destruct (Hx w) as (w1 & -> & H1). destruct (IH w1) as (w2 & -> & H2). exists w2. split; [done|]. by etransitivity.
Qed.
Lemma quiet_log x : quiet (on_log format_log_timestamp x).
Proof. destruct x as [l e]. unfold on_log. repeat case_match; first [apply quiet_push|apply quiet_ret]. Qed.
Lemma quiet_console l e : (∃ ts, console_ok ts e) → quiet (on_console (l, e)).
Proof.
  intros [ts He]. unfold on_console. destruct (ls_stream l); [|apply quiet_push]. intros w. rewrite bind_run. cbn [gets]. destruct (live l w); [|apply quiet_ret]. rewrite bind_run.
  destruct (console_entry_stamped ts e He) as (j & -> & _). apply quiet_push.
Qed.
Lemma publish_run p n w : recorded_up_to n w → n + 1 < 2 ^ word_bits → publishable p →
  ∃ w', publish format_log_timestamp p w = (Ok tt, w') ∧ recorded_up_to (n + 1) w'.
Proof.
  intros Hr Hn Hp. assert (∀ {A} (f : listener * A → M ()) calls w1, Forall (λ x, quiet (f x)) calls → recorded_up_to (n + 1) w1 →
    ∃ w', for_each f calls w1 = (Ok tt, w') ∧ recorded_up_to (n + 1) w') as Hcalls.
  { intros A f calls w1 Hf H1. destruct (calls_run f calls Hf w1) as (w' & E & Hs). exists w'. split; [done|]. by eapply recorded_same. }
  pose proof (recorded_mono n (n + 1) w ltac:(lia) Hr) as Hm. pose proof Hr as (H1 & H2 & H3 & H4 & H5). pose proof Hm as (M1 & M2 & M3 & M4 & _). destruct p as [i text e|e|e|e|e|e|e|]; cbn [publish publishable] in *.
  - destruct (l_loggers (m_loader w) !! i) as [lg|] eqn:E; [|by exists w]. cbn [append]. apply Hcalls.
    { apply Forall_true, quiet_log. }
    destruct w as [ld a1 a2 a3 a4 a5 a6 a7]. split_and!; try done. unfold logs_ok. rewrite loggers_on. apply Forall_lookup_2. intros j lg' Hj.
    destruct (decide (j = i)) as [->|Hne]; [|rewrite list_lookup_alter_ne in Hj by done; by eapply Forall_lookup_1 in H5].
    rewrite list_lookup_alter_eq in Hj. rewrite E in Hj. injection Hj as <-. cbn [logBuffer]. apply Forall_app. split; [by eapply Forall_lookup_1 in H5|by constructor].
  - unfold crash_notify. destruct (bool_decide _); (apply (Hcalls _ on_crash); [apply Forall_true; intros x; apply quiet_push|by destruct w as [[]]]).
  - unfold ffi_record. pose proof (holds_record' n e (m_ffi w) Hn H1) as Hh. destruct (record_entry e (m_ffi w)) as [r calls]. apply Hcalls; [apply Forall_true; intros x; apply quiet_push|]. by destruct w.
  - pose proof (holds_record n e (m_console w) _ Hn Hp H3) as Hh. cbn [record_entry fst] in Hh |- *. apply Hcalls; [|by destruct w]. apply Forall_fmap, Forall_true. intros l. by apply quiet_console.
  - pose proof (holds_record' n e (m_exceptions w) Hn H2) as Hh. destruct (record_entry e (m_exceptions w)) as [r calls]. apply Hcalls; [apply Forall_true; intros x; apply quiet_push|]. by destruct w.
  - unfold patch_notify. pose proof (holds_record' n e (m_patch_stream w) Hn H4) as Hh. destruct (record_entry e (m_patch_stream w)) as [r calls]. apply Hcalls; [apply Forall_true; intros x; apply quiet_push|]. by destruct w.
  - destruct (sdk_notify e (m_sdk w)) as [b calls]. apply Hcalls; [apply Forall_true; intros x; apply quiet_push|]. by destruct w.
  - destruct (notify_returns w) as (w' & E & _). exists w'. split; [done|]. eapply recorded_same; [|exact Hm]. eapply steps_ran; [apply records_notify|exact E].
Qed.
Lemma recorded_new (s : Store) (c : network_hook_ctl Re) : recorded_up_to 0 (mep_new s c).
Proof.
  split; [exists []; split; [apply ring_repr_empty|done]|]. split; [exists []; split; [apply ring_repr_empty|done]|]. split; [exists []; split; [apply ring_repr_empty|by split]|].
  split; [exists []; split; [apply ring_repr_empty|done]|]. by constructor.
Qed.
End publishing.

Section run.
  Context `{T : target} `{SettingsStore Store} {Re : Type}.
  Variable all_plugins : list plugin_t.
  Variable read_file : bytes → option bytes.
  Variable file_exists : bytes → bool.
  Variables steam_path plugins_path : bytes.
  Variable crash_dump_dir : bytes → bytes.
  Variable os : nat → bytes → spawn_os.
  Variable connected : bool.
  Variable dump : json → outcome bytes.
  Variable format_log_timestamp : Z → bytes.
  Variable std_sort : list (Z * json) → list (Z * json).
  Variable date : bytes.
  Variable get_metrics : bytes → Z * Z * spec_float.
  Variables version commit build_type : bytes.
  Variable ipc_connected : bool.
  Variable endless : bytes → bool.
  Variable from_msgpack : bytes → option json.
  Hypothesis dump_defined : ∀ j, defined (dump j).
  Implicit Types w : mep Store Re.
  Abbreviation methods_of ctx := (methods (Re:=Re) all_plugins read_file file_exists steam_path plugins_path crash_dump_dir os connected dump
    format_log_timestamp std_sort date get_metrics version commit build_type ipc_connected ctx).
  Abbreviation dispatch_to c := (dispatch (register_mep_handlers all_plugins read_file file_exists steam_path plugins_path crash_dump_dir os connected dump
    format_log_timestamp std_sort date get_metrics version commit build_type ipc_connected (Some c))).
  Abbreviation step_of := (mep_step (Re:=Re) all_plugins read_file file_exists steam_path plugins_path crash_dump_dir os connected dump
    format_log_timestamp std_sort date get_metrics version commit build_type ipc_connected endless from_msgpack).

(** The router answers, whatever the method. *)
Lemma dispatch_serves c req w cl q :
  m_clients w !! c = Some cl → readable w →
  let r := dispatch_to c req (Service w false q) in
  sv_undefined r.1 = false ∧ sv_waiting r.1 = q ∧ rs_id r.2 = rq_id req ∧ sends_events w (sv_world r.1) ∧ same_records w (sv_world r.1).
Proof.
  intros Hc Hr. unfold dispatch. destruct (obj_get _ _) as [h|] eqn:Eh; [|by split_and!].
  apply registered_in in Eh as [([name m] & Hin & _ & ->)|Eh]; [|done]. cbn [snd]. unfold handler. cbn [sv_world sv_undefined sv_waiting].
  pose proof (methods_served (Re:=Re) all_plugins read_file file_exists steam_path plugins_path crash_dump_dir os connected dump format_log_timestamp std_sort date get_metrics version commit build_type
    ipc_connected dump_defined c) as Hs.
  pose proof (methods_answer (Re:=Re) all_plugins read_file file_exists steam_path plugins_path crash_dump_dir os connected dump format_log_timestamp std_sort date get_metrics version commit build_type
    ipc_connected (Some c)) as Ha.
  pose proof (methods_events (Re:=Re) all_plugins read_file file_exists steam_path plugins_path crash_dump_dir os connected dump format_log_timestamp std_sort date get_metrics version commit build_type
    ipc_connected (Some c)) as He.
  pose proof (methods_records (Re:=Re) all_plugins read_file file_exists steam_path plugins_path crash_dump_dir os connected dump format_log_timestamp std_sort date get_metrics version commit build_type
    ipc_connected c) as Hk.
  rewrite Forall_forall in Hs. rewrite Forall_forall in Ha. rewrite Forall_forall in He. rewrite Forall_forall in Hk.
  specialize (Hs _ Hin req w ltac:(by eexists) Hr). specialize (Ha _ Hin req w). specialize (He _ Hin req w). specialize (Hk _ Hin req w). cbn [snd] in *. specialize (He Hs). specialize (Hk Hs).
  destruct (m req w) as [[r|e| |] w']; cbn [fst snd] in *; [|by split_and!|by destruct Hs..]. split_and!; [done|done|by eapply Ha|done|done].
Qed.

Lemma refuse_keeps c text st : sv_undefined (refuse (Store:=Store) (Re:=Re) c text st) = sv_undefined st ∧ same_records (sv_world st) (sv_world (refuse c text st)).
Proof. split; [done|]. cbn [refuse on_world sv_world]. etransitivity; [|apply records_hang_up]. apply records_upd. Qed.
Lemma step_recorded n st op : recorded_up_to n (sv_world st) → n + 1 < 2 ^ word_bits → op_ok op → sv_undefined st = false →
  sv_undefined (step_of st op) = false ∧ recorded_up_to (n + 1) (sv_world (step_of st op)).
Proof.
  intros Hr Hn Ho Hu. assert (∀ w, same_records (sv_world st) w → recorded_up_to (n + 1) w) as Hsame.
  { intros w Hs. eapply recorded_same; [exact Hs|]. apply (recorded_mono n); [lia|done]. }
  destruct op as [fd|c payload written|c|p|name]; cbn [mep_step op_ok] in *.
  - split; [done|]. cbn [on_world sv_world]. apply Hsame. by destruct (sv_world st).
  - destruct (is_open c (sv_world st)) eqn:Eo; [|split; [done|by apply Hsame]]. destruct (is_waiting c st); [split; [done|by apply Hsame]|]. cbn [andb negb]. unfold client_frame.
    assert (∀ text, sv_undefined (refuse c text st) = false ∧ recorded_up_to (n + 1) (sv_world (refuse c text st))) as Href.
    { intros text. destruct (refuse_keeps c text st) as [E Hs]. rewrite E. split; [done|by apply Hsame]. }
    destruct (from_msgpack payload) as [j|]; [|apply Href]. assert (∃ o, from_json j = Ok o) as [o Ej] by (rewrite from_json_cases; by repeat case_match; eexists). rewrite Ej. destruct o as [req|]; [|apply Href].
    destruct (_ || blocks endless req); [split; [done|by apply Hsame]|]. unfold is_open in Eo. destruct (m_clients (sv_world st) !! c) as [cl|] eqn:Ec; [|done].
    destruct st as [w u q]. cbn [sv_undefined sv_world] in *. subst u. destruct (dispatch_serves c req w cl q Ec (recorded_readable _ _ Hr)) as (Hu' & _ & _ & _ & Hk). destruct (dispatch_to c req _) as [st resp]. cbn [fst snd] in *.
    split; [done|]. cbn [on_world sv_world]. apply Hsame. etransitivity; [exact Hk|]. destruct written; [apply records_upd|apply records_hang_up].
  - destruct (is_waiting c st); [split; [done|by apply Hsame]|]. split; [done|]. cbn [on_world sv_world]. apply Hsame, records_hang_up.
  - destruct (publish_run format_log_timestamp p n (sv_world st) Hr Hn Ho) as (w' & E & Hw'). rewrite E. cbn [sv_undefined sv_world]. by rewrite Hu.
  - split; [done|]. cbn [on_world sv_world]. apply Hsame, records_new_logger.
Qed.
Lemma run_recorded ops st n : recorded_up_to n (sv_world st) → n + len ops < 2 ^ word_bits → Forall op_ok ops → sv_undefined st = false →
  sv_undefined (foldl step_of st ops) = false ∧ recorded_up_to (n + len ops) (sv_world (foldl step_of st ops)).
Proof.
  revert st n. induction ops as [|op ops IH]; intros st n Hr Hn Ho Hu; cbn [foldl]; [change (len (@nil mep_op)) with 0; by rewrite Z.add_0_r|].
  rewrite len_cons in *. pose proof (len_nonneg ops). apply Forall_cons in Ho as [Ho Hos]. destruct (step_recorded n st op Hr ltac:(lia) Ho Hu) as [Hu1 Hr1].
  destruct (IH _ (n + 1) Hr1 ltac:(lia) Hos Hu1) as [Hu2 Hr2]. split; [done|]. by replace (n + (1 + len ops)) with (n + 1 + len ops) by lia.
Qed.
End run.

Lemma hung_up {Store Re} c (w : mep Store Re) cl : m_clients w !! c = Some cl →
  ∃ cl', m_clients (hang_up c w) !! c = Some cl' ∧ cl_open cl' = false ∧ cancel_map cl' = ∅ ∧ cl_sent cl' = cl_sent cl.
Proof. intros Hc. unfold hang_up. rewrite Hc. eexists. rewrite upd_clients, cancel_all, cancel_clients, list_lookup_alter_eq, Hc. by split. Qed.

(** ** Theorems *)

(** A listener of a live subscription: the client is connected and its cancel
    function for the subscription removes the listener. *)
Definition owned_listener {Store Re} (w : mep Store Re) (b : bus) (i : Z) (l : listener) : Prop := ∃ cl ids,
  m_clients w !! ls_client l = Some cl ∧ cl_open cl = true ∧ cancel_map cl !! ls_sub l = Some ids ∧ (b, i) ∈ ids.

(** C39: Developer tools leave no listeners behind.  After any sequence of
    connections, requests, hang-ups and published events without undefined
    behaviour, every listener registered with a logger, recorder or bus
    belongs to a live subscription of an open connection, whose cancel
    function has its id; and every id such a function has is registered for
    that subscription.  The sequence is shorter than 2^29, so that no id of a
    listener wraps around. *)
Theorem mep_no_leaked_listeners `{T : target} `{SettingsStore Store} {Re} all_plugins read_file file_exists steam_path plugins_path crash_dump_dir os connected dump
    format_log_timestamp std_sort date get_metrics version commit build_type ipc endless from_msgpack ops (s : Store) (hooks : network_hook_ctl Re) :
  4 * len ops < INT_MAX →
  let step := mep_step all_plugins read_file file_exists steam_path plugins_path crash_dump_dir os connected dump format_log_timestamp std_sort date
                get_metrics version commit build_type ipc endless from_msgpack in
  let st := foldl step (Service (mep_new s hooks) false []) ops in
  sv_undefined st = false →
  (∀ b i l, bus_view b (sv_world st) !! i = Some l → owned_listener (sv_world st) b i l) ∧
  (∀ c cl sub ids b i, m_clients (sv_world st) !! c = Some cl → cancel_map cl !! sub = Some ids → (b, i) ∈ ids →
     ∃ l, bus_view b (sv_world st) !! i = Some l ∧ ls_client l = c ∧ ls_sub l = sub).
Proof.
  intros Hn step st Hu.
  destruct (run_linked all_plugins read_file file_exists steam_path plugins_path crash_dump_dir os connected dump format_log_timestamp std_sort date
    get_metrics version commit build_type ipc endless from_msgpack ops (Service (mep_new s hooks) false []) 0 (linked_new s hooks) ltac:(lia) ltac:(lia) Hu) as [_ Hl].
  fold step in Hl. fold st in Hl. destruct Hl as [_ H2 H3]. split.
  - intros b i l Hb. destruct (proj1 (H3 b i (ls_client l) (ls_sub l))) as (ids & Hc & Hin); [by exists l|]. unfold cancels in Hc.
    destruct (m_clients (sv_world st) !! ls_client l) as [cl|] eqn:E; [|done]. exists cl, ids. split_and!; try done.
    destruct (H2 _ _ E) as [_ Hs]. destruct (Hs (ls_sub l)) as [Ho _]; [by eexists|done].
  - intros c cl sub ids b i Hc Hs Hin. apply H3. exists ids. split; [|done]. unfold cancels. by rewrite Hc.
Qed.


(** ** Examples, in the Linux build *)

#[local] Existing Instance target32.
#[local] Existing Instance demo_store.

Definition demo_request_json (method : bytes) (params : list (bytes * json)) : json :=
  request_to_json (Request #"7" method (jobj params)).
Definition demo_unpack (p : bytes) : option json :=
  match p with
  | [x01] => Some (demo_request_json #"plugin.ffi" [(#"name", JStr #"p")])
  | [x02] => Some (demo_request_json #"plugin.crash" [])
  | [x03] => Some (demo_request_json #"file.content" [(#"path", JStr #"/dev/zero")])
  | _ => None
  end.
Definition demo_call : ffi_call_entry := FfiCallEntry #"p" #"m" #"fe_to_be" #"[]" #"1" (S754_zero false) 0 #"c".
Definition demo_ops : list mep_op :=
  [Connect 5; Connect 6; Incoming 0 [x01] true; Incoming 1 [x02] true; Publish (PFfi demo_call); Incoming 1 [] true].
Definition demo_step :=
  mep_step (Store:=config_manager nat * disk) (Re:=nat) [] (λ _, None) (λ _, false) [] [] (λ _, []) demo_fails false demo_dump (λ _, []) key_sort [] (λ _, (0, 0, S754_zero false)) [] [] []
    false (bytes_eqb #"/dev/zero") demo_unpack.
Definition demo_hooks : network_hook_ctl nat := ctl (l_hooks demo_loader).
Definition demo_settings : config_manager nat * disk := store_of demo_loader.

(** The client that asked for calls of [p] has a listener and gets the call;
    the other one is gone and has none. *)
Lemma mep_no_leaked_listeners_witness :
  let w := sv_world (foldl demo_step (Service (mep_new demo_settings demo_hooks) false []) demo_ops) in
  map (λ cl, length (cl_sent cl)) (m_clients w) = [2%nat; 2%nat] ∧
  ∃ cl ids, m_clients w !! 0%nat = Some cl ∧ cl_open cl = true ∧ cancel_map cl !! #"sub-5-1" = Some ids ∧ (FfiB, 1) ∈ ids.
Proof.
  intros w. split; [by vm_compute|].
  destruct (mep_no_leaked_listeners (Store:=config_manager nat * disk) (Re:=nat) [] (λ _, None) (λ _, false) [] [] (λ _, []) demo_fails false demo_dump (λ _, []) key_sort []
    (λ _, (0, 0, S754_zero false)) [] [] [] false (bytes_eqb #"/dev/zero") demo_unpack demo_ops demo_settings demo_hooks) as [H _]; [done|by vm_compute|].
  apply (H FfiB 1 (Listener 0 #"sub-5-1" #"p" false info)). by vm_compute.
Defined.


(** A request for the content of a device, and one of another client after it:
    neither is answered. *)
Theorem endless_file_blocks_router :
  let st := foldl demo_step (Service (mep_new demo_settings demo_hooks) false []) [Connect 5; Connect 6; Incoming 0 [x03] true; Incoming 1 [x01] true] in
  sv_waiting st = [0%nat; 1%nat] ∧ map cl_sent (m_clients (sv_world st)) = [ []; [] ].
Proof. by vm_compute. Qed.

(** Events are written by the thread that publishes them and responses by the
    client's own, header and payload in separate writes and without a lock:
    when two threads interleave, the client takes one frame's header for
    another's payload. *)
Theorem concurrent_frames_mix :
  let p := [x0a; x0b; x0c; x0d] in
  let q := [x0e] in
  fst <$> read_frame true (4 * 1024 * 1024) [Chunk (frame_header p ++ frame_header q ++ p ++ q)] = Some (frame_header q) ∧ frame_header q ≠ p ∧ frame_header q ≠ q.
Proof. by vm_compute. Qed.
