(* ===== verification/StrBuf.v ===== *)
(** * StrBuf: growing buffers and number text

    The buffers and number conversions at the head of [lua_host/api/json.c]:
    [strbuf_t] with its checked and unchecked appends, and [fpconv_g_fmt] and
    [fpconv_strtod] over the C library's [%g] and [strtod].  A buffer is its
    capacity and the bytes before its length; a write that does not fit the
    allocation is undefined, so the theorems about the encoder and the decoder
    show where the unchecked appends are safe.  The process never changes its
    locale, so the decimal point is a dot. *)

From Stdlib Require Import SpecFloat.
From S2P Require Import Prelude State Json.

(** ** [strbuf_t] *)

Definition SIZE_MAX `{T : target} : Z := 2 ^ word_bits - 1.
Definition STRBUF_DEFAULT_SIZE : Z := 1023.

(** [sb_live]: [buf] points to an allocation of [sb_size] bytes. *)
Record strbuf := StrBuf { sb_live : bool; sb_size : Z; sb_data : bytes }.

(** [die]: a message and [abort()]; no handler runs. *)
Definition abort_text : bytes := #"abort".
Definition die {A} : outcome A := Throw abort_text.

Section strbuf.
  Context `{T : target}.
  (** Whether the allocator can serve a request of this size. *)
  Variable alloc : Z → bool.

Definition strbuf_reset : SM strbuf () := modify (λ s, StrBuf (sb_live s) (sb_size s) []).
Definition strbuf_length : SM strbuf Z := gets (λ s, len (sb_data s)).
Definition strbuf_empty_length (s : strbuf) : Z := usize (sb_size s - len (sb_data s) - 1).
(** [memcpy(s->buf + s->length, c, len); s->length += len] *)
Definition strbuf_append_mem_unsafe (c : bytes) : SM strbuf () := λ s,
  if sb_live s && (len (sb_data s) + len c <=? sb_size s)
  then (Ok tt, StrBuf true (sb_size s) (sb_data s ++ c)) else (UB, s).
Definition strbuf_append_char_unsafe (c : byte) : SM strbuf () := strbuf_append_mem_unsafe [c].
(** [s->buf[s->length] = 0] *)
Definition strbuf_ensure_null : SM strbuf () := λ s,
  if sb_live s && (len (sb_data s) <? sb_size s) then (Ok tt, s) else (UB, s).
(** The length is only ever set back. *)
Definition strbuf_set_length (n : Z) : SM strbuf () := λ s,
  if (0 <=? n) && (n <=? len (sb_data s)) then (Ok tt, StrBuf (sb_live s) (sb_size s) (take (Z.to_nat n) (sb_data s))) else (UB, s).

Definition strbuf_init (n : Z) : SM strbuf () := λ s,
  let size := if n =? 0 then STRBUF_DEFAULT_SIZE else usize (n + 1) in
  if size <? n then (die, s) else
  let s := StrBuf (alloc size) size [] in
  if negb (alloc size) then (die, s) else strbuf_ensure_null s.
Definition strbuf_free : SM strbuf () := modify (λ s, StrBuf false (sb_size s) (sb_data s)).

Fixpoint double_size (fuel : nat) (newsize reqsize : Z) : outcome Z :=
  match fuel with
  | O => NoFuel
  | S fuel => if newsize <? reqsize then double_size fuel (usize (newsize * 2)) reqsize else Ok newsize
  end.
Definition calculate_new_size (s : strbuf) (n : Z) : outcome Z :=
  if n <=? 0 then die else
  let reqsize := usize (n + 1) in
  if reqsize <? n then die else
  if reqsize <? sb_size s then Ok reqsize else
  newsize ← (if SIZE_MAX / 2 <=? reqsize then Ok reqsize else double_size 65 (sb_size s) reqsize);
  if newsize <? reqsize then die else Ok newsize.
Definition strbuf_resize (n : Z) : SM strbuf () := λ s,
  match calculate_new_size s n with
  | Ok newsize =>
      if alloc newsize then (Ok tt, StrBuf (sb_live s) newsize (sb_data s)) else (die, StrBuf false newsize (sb_data s))
  | Throw e => (Throw e, s)
  | UB => (UB, s)
  | NoFuel => (NoFuel, s)
  end.

Definition strbuf_ensure_empty_length (n : Z) : SM strbuf () := λ s,
  if strbuf_empty_length s <? n then strbuf_resize (usize (len (sb_data s) + n)) s else (Ok tt, s).
Definition strbuf_append_mem (c : bytes) : SM strbuf () :=
  _ ← strbuf_ensure_empty_length (len c); strbuf_append_mem_unsafe c.
Definition strbuf_append_char (c : byte) : SM strbuf () :=
  _ ← strbuf_ensure_empty_length 1; strbuf_append_char_unsafe c.
(** One character at a time, growing when no space is left. *)
Fixpoint append_chars (space : Z) (str : bytes) : SM strbuf () :=
  match str with
  | [] => mret tt
  | c :: str =>
      space ← (if space <? 1 then
                 n ← strbuf_length;
                 _ ← strbuf_resize (usize (n + 1));
                 gets strbuf_empty_length
               else mret space);
      _ ← strbuf_append_char_unsafe c;
      append_chars (usize (space - 1)) str
  end.
Definition strbuf_append_string (str : bytes) : SM strbuf () :=
  space ← gets strbuf_empty_length; append_chars space str.

(** ** What the operations do *)

(** What the allocator can give is bounded by a part of the address space, a
    sixteenth: with strings near its half the sums of the code would wrap. *)
Definition MEM_MAX : Z := 2 ^ (word_bits - 4).
Lemma mem_max_word : 2 ^ word_bits = 16 * MEM_MAX ∧ 2 ^ (word_bits - 1) = 8 * MEM_MAX ∧ 2 ^ 28 <= MEM_MAX <= 2 ^ 60.
Proof. unfold MEM_MAX. destruct word_bits_cases as [-> | ->]; lia. Qed.
Lemma size_max_half : SIZE_MAX / 2 = 2 ^ (word_bits - 1) - 1.
Proof. unfold SIZE_MAX. destruct word_bits_cases as [-> | ->]; done. Qed.
Variable limit : Z.
Hypothesis Hlimit : limit <= MEM_MAX.
Hypothesis Halloc : ∀ n, alloc n = true → n <= limit.

(** The bytes, room for at least [n] more and for the terminator. *)
Definition holds (t : bytes) (n : Z) (s : strbuf) : Prop :=
  sb_live s = true ∧ sb_data s = t ∧ len t + n < sb_size s ∧ sb_size s <= limit.
Definition aborted (e : bytes) : Prop := e = abort_text.

Lemma holds_weaken t n m s : holds t n s → m <= n → holds t m s.
Proof. intros (? & ? & ? & ?) Hm. split_and!; auto; lia. Qed.

Lemma double_size_enough fuel n req : 0 < n → n * 2 ^ Z.of_nat fuel > 2 * req → 0 < req < 2 ^ (word_bits - 1) →
  ∃ k, double_size (S fuel) n req = Ok k ∧ req <= k ∧ (n < req → k < 2 * req) ∧ (req <= n → k = n).
Proof.
  intros Hn Hf Hr. destruct word_size as [Hw _]. revert n Hn Hf. induction fuel as [|fuel IH]; intros n Hn Hf.
  - cbn. destruct (Z.ltb_spec n req); [change (Z.of_nat 0) with 0 in Hf; rewrite Z.pow_0_r in Hf; lia|]. eexists. split; [done|]. lia.
  - change (double_size (S (S fuel)) n req) with (if n <? req then double_size (S fuel) (usize (n * 2)) req else Ok n).
    destruct (Z.ltb_spec n req) as [H|H]; [|eexists; split; [done|lia]].
    rewrite usize_id by (clear - Hr Hn H Hw; lia).
    destruct (IH (n * 2)) as (k & E & H1 & H2 & H3); [lia|rewrite Nat2Z.inj_succ, Z.pow_succ_r in Hf by lia; nia|].
    exists k. split; [done|]. split; [done|]. split; [|lia]. intros _. destruct (Z.lt_ge_cases (n * 2) req); [auto|]. rewrite H3 by done. lia.
Qed.

(** A buffer is resized to at least the length asked for. *)
Lemma wp_resize t n m s : holds t n s → 0 <= n → len t <= m → 0 < m →
  wp (strbuf_resize m) s (λ _ s', sb_live s' = true ∧ sb_data s' = t ∧ m < sb_size s' ∧ sb_size s' <= limit) (λ e _, aborted e).
Proof.
  intros (Hl & Hd & Hsz & Hmax) Hn Hm Hpos. unfold wp, strbuf_resize. pose proof (len_nonneg t). destruct mem_max_word as (Hw & Hw1 & Hw2).
  assert (safe (calculate_new_size s m) (λ k, m < k <= SIZE_MAX) ∧ ∀ e, calculate_new_size s m = Throw e → e = abort_text) as [Hc He].
  { unfold calculate_new_size, die. destruct (Z.leb_spec m 0); [lia|].
    pose proof (usize_range (m + 1)). unfold SIZE_MAX in *.
    destruct (Z.ltb_spec (usize (m + 1)) m) as [|Hov]; [split; [done|congruence]|].
    assert (usize (m + 1) = m + 1) as Hu.
    { destruct (Z.lt_ge_cases (m + 1) (2 ^ word_bits)); [apply usize_id; lia|]. exfalso. unfold usize in *.
      assert (m < 2 ^ word_bits) by lia. replace (m + 1) with (2 ^ word_bits) in Hov by lia. rewrite Z.mod_same in Hov by lia. lia. }
    rewrite Hu in *. destruct (Z.ltb_spec (m + 1) (sb_size s)); [split; [cbn; lia|congruence]|].
    pose proof size_max_half as Hhalf. unfold SIZE_MAX in Hhalf. rewrite Hhalf. destruct (Z.leb_spec (2 ^ (word_bits - 1) - 1) (m + 1)); bind_simpl.
    - destruct (Z.ltb_spec (m + 1) (m + 1)); [lia|]. split; [cbn; lia|congruence].
    - change 65%nat with (S 64). destruct (double_size_enough 64 (sb_size s) (m + 1)) as (k & -> & K1 & K2 & K3);
        [lia|change (Z.of_nat 64) with 64; nia|lia|].
      bind_simpl. destruct (Z.ltb_spec k (m + 1)); [lia|]. split; [cbn|congruence]. split; [lia|].
      destruct (Z.lt_ge_cases (sb_size s) (m + 1)); [|rewrite K3; lia]. specialize (K2 ltac:(done)). lia. }
  destruct (calculate_new_size s m) as [k|e| |]; cbn in Hc; [|by apply He|done..].
  destruct (alloc k) eqn:Ea; [|done]. apply Halloc in Ea. cbn [sb_live sb_data sb_size]. split_and!; auto; lia.
Qed.

Lemma wp_append_unsafe t n c s : holds t n s → len c <= n →
  wp (strbuf_append_mem_unsafe c) s (λ _ s', holds (t ++ c) (n - len c) s') (λ e _, aborted e).
Proof.
  intros (Hl & Hd & Hsz & Hmax) Hc. unfold wp, strbuf_append_mem_unsafe. rewrite Hl, Hd. cbn [andb].
  destruct (Z.leb_spec (len t + len c) (sb_size s)); [|lia]. unfold holds. cbn [sb_live sb_data sb_size]. rewrite len_app. split_and!; auto; lia.
Qed.

Lemma wp_ensure t n m s : holds t n s → 0 <= m → 0 <= n → m <= 2 ^ (word_bits - 1) →
  wp (strbuf_ensure_empty_length m) s (λ _ s', holds t m s') (λ e _, aborted e).
Proof.
  intros H Hm Hn Hov. pose proof H as (Hl & Hd & Hsz & Hmax). unfold wp, strbuf_ensure_empty_length, strbuf_empty_length.
  pose proof (len_nonneg t). destruct mem_max_word as (Hw0 & Hw1 & Hw2). rewrite Hd, usize_id by lia. destruct (Z.ltb_spec (sb_size s - len t - 1) m).
  - rewrite usize_id by lia. pose proof (wp_resize t n (len t + m) s H ltac:(lia) ltac:(lia) ltac:(lia)) as Hw. revert Hw. unfold wp.
    destruct (strbuf_resize _ s) as [[[]|e| |] s']; [|done..]. intros (? & ? & ? & ?). by split_and!.
  - split_and!; auto; lia.
Qed.

(** The checked appends. *)
Lemma wp_append_mem t c s : holds t 0 s → len c <= 2 ^ (word_bits - 1) →
  wp (strbuf_append_mem c) s (λ _ s', holds (t ++ c) 0 s') (λ e _, aborted e).
Proof.
  intros H Hov. unfold strbuf_append_mem. apply wp_bind. eapply wp_mono; [apply (wp_ensure t 0 (len c) s H); auto using len_nonneg; lia| |auto].
  intros [] s' H'. eapply wp_mono; [apply (wp_append_unsafe t (len c) c s' H'); lia| |auto]. intros [] s'' H''. by rewrite Z.sub_diag in H''.
Qed.
Lemma wp_append_char t c s : holds t 0 s →
  wp (strbuf_append_char c) s (λ _ s', holds (t ++ [c]) 0 s') (λ e _, aborted e).
Proof. intros H. apply (wp_append_mem t [c]); [done|]. change (len [c]) with 1. pose proof word_size. lia. Qed.

(** Characters that fit are appended without growing the buffer. *)
Lemma wp_append_string t n c s : holds t n s → len c <= n →
  wp (strbuf_append_string c) s (λ _ s', holds (t ++ c) (n - len c) s') (λ e _, aborted e).
Proof.
  intros H Hc. unfold strbuf_append_string. apply wp_bind, wp_gets.
  assert (n <= strbuf_empty_length s <= SIZE_MAX) as Hs.
  { destruct H as (Hl & Hd & Hsz & Hmax). unfold strbuf_empty_length, SIZE_MAX. destruct mem_max_word as (Hw & Hw1 & Hw2). rewrite Hd. pose proof (len_nonneg t). pose proof (len_nonneg c). rewrite usize_id; lia. }
  revert Hs. generalize (strbuf_empty_length s). revert t n s H Hc. induction c as [|x c IH]; intros t n s H Hc sp Hs; cbn [append_chars].
  - apply wp_ret. rewrite app_nil_r. change (len []) with 0. by rewrite Z.sub_0_r.
  - assert (len (x :: c) = 1 + len c) as Hx by (unfold len; cbn; lia). pose proof (len_nonneg c). rewrite Hx in Hc.
    destruct (Z.ltb_spec sp 1); [lia|]. apply wp_bind, wp_ret. apply wp_bind.
    eapply wp_mono; [apply (wp_append_unsafe t n [x] s H); change (len [x]) with 1; lia| |auto].
    intros [] s' H'. change (len [x]) with 1 in H'. unfold SIZE_MAX in *. rewrite usize_id by lia.
    eapply wp_mono; [apply (IH (t ++ [x]) (n - 1) s' H'); lia| |auto]. intros [] s'' H''. rewrite <- app_assoc in H''. cbn [app] in H''.
    eapply holds_weaken; [exact H''|]. lia.
Qed.

Lemma wp_init n s : 0 <= n → wp (strbuf_init n) s (λ _ s', holds [] (if n =? 0 then 1022 else n - 1) s' ∧ (n = 0 ∨ sb_size s' = n + 1)) (λ e _, aborted e).
Proof.
  intros Hn. unfold wp, strbuf_init. destruct (Z.eqb_spec n 0) as [->|Hn0].
  - cbn [Z.ltb]. change (STRBUF_DEFAULT_SIZE <? 0) with false. cbn iota. destruct (alloc STRBUF_DEFAULT_SIZE) eqn:E; [|done]. apply Halloc in E.
    cbn. split; [|by left]. unfold holds, STRBUF_DEFAULT_SIZE, len in *. cbn. split_and!; auto; lia.
  - destruct (Z.ltb_spec (usize (n + 1)) n) as [|Hov]; [done|]. destruct (alloc (usize (n + 1))) eqn:E; [|done]. apply Halloc in E. cbn [negb].
    pose proof (usize_range (n + 1)). assert (usize (n + 1) = n + 1) as Hu.
    { destruct (Z.lt_ge_cases (n + 1) (2 ^ word_bits)); [apply usize_id; lia|]. unfold usize in *. exfalso.
      assert (n + 1 = 2 ^ word_bits) by lia. replace (n + 1) with (2 ^ word_bits) in Hov by lia. rewrite Z.mod_same in Hov by lia. lia. }
    rewrite Hu in *. unfold strbuf_ensure_null. cbn [sb_live sb_data sb_size]. change (len (@nil byte)) with 0. cbn [andb].
    destruct (Z.ltb_spec 0 (n + 1)); [|lia]. split; [|by right]. unfold holds. cbn [sb_live sb_data sb_size]. change (len (@nil byte)) with 0. split_and!; auto; lia.
Qed.
End strbuf.
