(* ===== verification/Loopback.v ===== *)
(** * Loopback: patched resources of the Steam client

    The buffering proxy that serves the client's own files
    ([instrumentation/loopback/hook.c]).  The browser (CEF) opens the proxy;
    the proxy drains the client's handler completely, in its own call or
    through the handler's callbacks on other threads, patches what it has read
    and then lets the browser go on.  The object is counted: the browser holds
    references and the drain holds one across the asynchronous gaps.

    The C functions are modelled on the memory of one object: an access after
    it is freed, a copy beyond a buffer or a call of a null callback is
    undefined.  [lb_step] interleaves them: every iteration of the drain, the
    two halves of [lb_buf_finish], of [lb_buf_open]'s end and of
    [lb_buf_cancel] are steps of their own, since the browser, the handler and
    the drain run on different threads.  The embedded callback objects own no
    memory, and their counts are left out.

    Also here: which handler serves a request, and the hooks of the browser's
    handler functions. *)

From S2P Require Import Prelude State StrBuf.

(** The library is built for 64 bits on every platform
    ([loopback/CMakeLists.txt]). *)
#[local] Existing Instance target64.
Definition MEM_MAX : Z := 2 ^ 60.

(** ** The object *)

Inductive lb_state := LB_DRAINING | LB_READY | LB_FAILED | LB_CANCELLED.
#[export] Instance lb_state_eq : EqDecision lb_state.
Proof. solve_decision. Defined.
Definition LB_READ_CHUNK_SIZE : Z := 65536.

(** [raw_len] is the length of the bytes in [raw_data]; [live] is false after
    [free(h)]. *)
Record lb_buf := LbBuf {
  live : bool; ref_count : Z; state : lb_state; sync_phase : bool; inner_opened : bool; outer_open_cb : bool;
  read_chunk : bool; raw_data : option bytes; raw_cap : Z;
  served_data : option bytes; served_size : Z; mime_type : option bytes; pos : Z }.
Definition put_ref x h := let 'LbBuf a _ c d e f g i j k l m n := h in LbBuf a x c d e f g i j k l m n.
Definition put_state x h := let 'LbBuf a b _ d e f g i j k l m n := h in LbBuf a b x d e f g i j k l m n.
Definition put_sync x h := let 'LbBuf a b c _ e f g i j k l m n := h in LbBuf a b c x e f g i j k l m n.
Definition put_opened x h := let 'LbBuf a b c d _ f g i j k l m n := h in LbBuf a b c d x f g i j k l m n.
Definition put_outer x h := let 'LbBuf a b c d e _ g i j k l m n := h in LbBuf a b c d e x g i j k l m n.
Definition put_chunk x h := let 'LbBuf a b c d e f _ i j k l m n := h in LbBuf a b c d e f x i j k l m n.
Definition put_raw x y h := let 'LbBuf a b c d e f g _ _ k l m n := h in LbBuf a b c d e f g x y k l m n.
Definition put_served x y z h := let 'LbBuf a b c d e f g i j _ _ _ n := h in LbBuf a b c d e f g i j x y z n.
Definition put_pos x h := let 'LbBuf a b c d e f g i j k l m _ := h in LbBuf a b c d e f g i j k l m x.
Definition put_freed h := let 'LbBuf _ b c d e f g i j k l m n := h in LbBuf false b c d e f g i j k l m n.

(** What is done to the browser's callback, and how often the client's handler
    is released. *)
Inductive outer_call := OuterCont | OuterCancel.
Record world := World { obj : lb_buf; outer : list outer_call; inner_released : nat }.
Abbreviation M := (SM world).
Definition get {A} (f : lb_buf → A) : M A := λ w, if live (obj w) then (Ok (f (obj w)), w) else (UB, w).
Definition put (f : lb_buf → lb_buf) : M () := λ w,
  if live (obj w) then (Ok tt, World (f (obj w)) (outer w) (inner_released w)) else (UB, w).

Definition lb_buf_add_ref : M () := n ← get ref_count; put (put_ref (i32 (n + 1))).
Definition lb_buf_release : M bool :=
  n ← get ref_count;
  _ ← put (put_ref (i32 (n - 1)));
  if n =? 1 then
    _ ← modify (λ w, World (put_freed (obj w)) (outer w) (S (inner_released w)));
    mret true
  else mret false.

Definition create_proxy_buffered : world := World (LbBuf true 1 LB_DRAINING false false false false None 0 None 0 None 0) [] 0.

(** What [inner->open] and [inner->read] answer: the return value, the number
    the handler stores and the bytes it has written to the chunk. *)
Inductive open_answer := OpenRefused | OpenLater | OpenNow.
Record read_answer := ReadAnswer { rc : bool; bytes_read : Z; chunk : bytes }.

Section proxy.
  Variable alloc : Z → bool.
  (** [lb_patch_content] for the request's address: bytes, size and type, or an
      error. *)
  Variable patch_content : option bytes → option (bytes * Z * bytes).

Definition copy_in (data : bytes) : M () :=
  chunk ← get read_chunk; raw ← get raw_data; cap ← get raw_cap;
  let raw_len := len (default [] raw) in
  if chunk && (len data <=? LB_READ_CHUNK_SIZE) && negb (bool_decide (raw = None)) && (raw_len + len data <=? cap) then
    put (put_raw (Some (default [] raw ++ data)) cap)
  else lift UB.
Definition lb_buf_append (data : bytes) : M bool :=
  raw ← get raw_data; cap ← get raw_cap;
  let need := u64 (len (default [] raw) + len data) in
  if cap <? need then
    new_cap ← lift (double_size 65 (if cap =? 0 then 65536 else u64 (cap * 2)) need);
    if negb (alloc new_cap) then mret false else
    _ ← put (put_raw (Some (default [] raw)) new_cap);
    _ ← copy_in data; mret true
  else _ ← copy_in data; mret true.

Definition lb_buf_release_drain_buffers : M () := put (λ h, put_raw None 0 (put_chunk false h)).

(** [lb_buf_finish] up to the release of the buffers, and from there. *)
Definition lb_buf_settle (success : bool) : M () :=
  _ ← (if success then
         raw ← get raw_data;
         match patch_content ((λ d, take (Z.to_nat (u32 (len d))) d) <$> raw) with
         | Some (served, size, mime) => put (λ h, put_state LB_READY (put_served (Some served) size (Some mime) h))
         | None => put (put_state LB_FAILED)
         end
       else put (put_state LB_FAILED));
  lb_buf_release_drain_buffers.
Definition call_outer (c : outer_call) : M () :=
  cb ← get outer_open_cb;
  if (cb : bool) then modify (λ w, World (obj w) (outer w ++ [c]) (inner_released w)) else lift UB.
Definition lb_buf_resume : M () :=
  sync ← get sync_phase;
  _ ← (if negb sync then
         st ← get state;
         if bool_decide (st = LB_READY) then call_outer OuterCont else call_outer OuterCancel
       else mret tt);
  _ ← lb_buf_release; mret tt.
Definition lb_buf_finish (success : bool) : M () := _ ← lb_buf_settle success; lb_buf_resume.
Definition lb_buf_finish_cancelled : M () := _ ← lb_buf_release_drain_buffers; _ ← lb_buf_release; mret tt.

(** Where the drain stands: waiting for a callback of the handler, before an
    iteration of its loop, before one of the halves of [lb_buf_finish], done. *)
Inductive control := Idle | AwaitOpen | AwaitRead | Loop | Settle (success : bool) | Resume | Done.
#[export] Instance control_eq : EqDecision control.
Proof. solve_decision. Defined.
Definition unless_cancelled (m : M control) : M control :=
  st ← get state;
  if bool_decide (st = LB_CANCELLED) then _ ← lb_buf_finish_cancelled; mret Done else m.
(** The handler delivered [n] bytes. *)
Definition take_chunk (data : bytes) : M control :=
  ok ← lb_buf_append data;
  mret (if (ok : bool) then Loop else Settle false).

(** One iteration of [lb_buf_advance] *)
Definition lb_buf_iterate (a : read_answer) : M control := unless_cancelled (
  have ← get read_chunk;
  _ ← (if (have : bool) then mret tt else if alloc LB_READ_CHUNK_SIZE then put (put_chunk true) else mret tt);
  have ← get read_chunk;
  if negb have then mret (Settle false) else
  if rc a && (0 <? bytes_read a) then take_chunk (chunk a) else
  if rc a && (bytes_read a =? 0) then mret AwaitRead else
  if negb (rc a) && (bytes_read a =? 0) then mret (Settle true) else
  mret (Settle false)).

Definition lb_buf_opencb_cont : M control := unless_cancelled (_ ← put (put_opened true); mret Loop).
Definition lb_buf_opencb_cancel : M control := unless_cancelled (mret (Settle false)).
Definition lb_buf_readcb_cont (n : Z) (data : bytes) : M control := unless_cancelled (
  if 0 <? n then take_chunk data else mret (Settle (n =? 0))).

(** [lb_buf_open] up to the drain, and its end. *)
Definition lb_buf_open_begin (a : open_answer) : M control :=
  _ ← put (put_outer true);
  _ ← lb_buf_add_ref;
  _ ← put (put_sync true);
  match a with
  | OpenRefused => mret (Settle false)
  | OpenLater => mret AwaitOpen
  | OpenNow => _ ← put (put_opened true); mret Loop
  end.
Definition lb_buf_open_end : M () := put (put_sync false).
(** [*handle_request] and the result *)
Definition lb_buf_open_return : M (bool * bool) :=
  st ← get state;
  mret match st with LB_READY => (true, true) | LB_FAILED => (true, false) | _ => (false, true) end.

Definition lb_buf_read (bytes_to_read : Z) : M (bytes * bool) :=
  size ← get served_size; p ← get pos; served ← get served_data;
  let available := u64 (size - p) in
  let n := i32 (if u64 bytes_to_read <? available then u64 bytes_to_read else available) in
  if 0 <? n then
    data ← lift (match served with Some d => slice d p (p + n) | None => UB end);
    _ ← put (put_pos (p + n));
    mret (data, true)
  else mret ([], false).
(** Status, type, headers and length *)
Definition lb_buf_get_response_headers : M (Z * bytes * list (bytes * bytes) * Z) :=
  mime ← get mime_type; size ← get served_size;
  mret (200, default #"application/octet-stream" mime, [(#"X-Millennium-Hooked", #"1"); (#"Cache-Control", #"no-cache")], size).
(** [lb_buf_cancel]: the test, and what follows it. *)
Definition lb_buf_cancel_test : M bool := st ← get state; mret (bool_decide (st = LB_DRAINING)).
Definition lb_buf_cancel_end : M () := put (put_state LB_CANCELLED).

(** ** The calls run without interruption *)

(** Runs the drain until it waits or is done; the answers are those of the
    handler's [read]. *)
Fixpoint lb_buf_advance (c : control) (answers : list read_answer) : M control :=
  match c with
  | Settle success => _ ← lb_buf_finish success; mret Done
  | Loop => match answers with a :: answers => c ← lb_buf_iterate a; lb_buf_advance c answers | [] => lift NoFuel end
  | c => mret c
  end.
Definition lb_buf_open (a : open_answer) (answers : list read_answer) : M (control * (bool * bool)) :=
  c ← lb_buf_open_begin a;
  c ← lb_buf_advance c answers;
  _ ← lb_buf_open_end;
  r ← lb_buf_open_return;
  mret (c, r).
Definition lb_buf_cancel : M () := t ← lb_buf_cancel_test; if (t : bool) then lb_buf_cancel_end else mret tt.
Fixpoint read_all (sizes : list Z) : M bytes :=
  match sizes with [] => mret [] | n :: sizes => r ← lb_buf_read n; rest ← read_all sizes; mret (r.1 ++ rest) end.
End proxy.

(** ** Threads *)

(** The browser's call of [open]: not made, running, past the end of its
    synchronous phase, returned. *)
Inductive opening := NotOpened | Opening | Ending | Returned (r : bool * bool).
(** [in_open]: the drain runs inside [open]'s call.  [given]: the bytes the
    handler has delivered; [got]: those the browser has read; [cancelled]: the
    browser has cancelled. *)
Record system := System {
  mem : world; at_ : control; in_open : bool; open_at : opening; cancelling : bool; cancelled : bool;
  cef_refs : Z; given : bytes; got : bytes }.
Inductive event :=
  | Open (a : open_answer) | OpenEnd | OpenReturn
  | Iterate (a : read_answer) | DoSettle | DoResume
  | OpenCbCont | OpenCbCancel | ReadCbCont (n : Z) (data : bytes)
  | Read (n : Z) | CancelTest | CancelEnd | AddRef | Release.

(** A handler fills at most the chunk and says how much of it. *)
Definition answer_ok (rc : bool) (n : Z) (data : bytes) : bool := (n <=? LB_READ_CHUNK_SIZE) && (if rc && (0 <? n) then len data =? n else true).
Definition running (c : control) : bool := match c with Loop | Settle _ | Resume => true | _ => false end.
(** What each side may do: a callback is called once, when it was promised;
    the browser uses the object while it holds a reference, opens it once,
    reads after that, and gives up its last reference when none of its calls
    runs. *)
Definition allowed (e : event) (s : system) : bool :=
  match e with
  | Open _ => (0 <? cef_refs s) && match open_at s with NotOpened => true | _ => false end
  | OpenEnd => match open_at s with Opening => negb (in_open s && running (at_ s)) | _ => false end
  | OpenReturn => match open_at s with Ending => true | _ => false end
  | Iterate a => bool_decide (at_ s = Loop) && answer_ok (rc a) (bytes_read a) (chunk a)
  | DoSettle => match at_ s with Settle _ => true | _ => false end
  | DoResume => bool_decide (at_ s = Resume)
  | OpenCbCont | OpenCbCancel => bool_decide (at_ s = AwaitOpen)
  | ReadCbCont n data => bool_decide (at_ s = AwaitRead) && answer_ok true n data
  | Read n => (0 <? cef_refs s) && (0 <=? n) && (n <? 2 ^ 31) && match open_at s with Returned _ => true | _ => false end
  | CancelTest => (0 <? cef_refs s) && negb (cancelling s)
  | CancelEnd => cancelling s
  | AddRef => (0 <? cef_refs s) && (cef_refs s <? 2 ^ 30)
  | Release => (1 <? cef_refs s) || (cef_refs s =? 1) && negb (cancelling s) && match open_at s with Opening | Ending => false | _ => true end
  end.

Section threads.
  Variable alloc : Z → bool.
  Variable patch_content : option bytes → option (bytes * Z * bytes).

(** Runs [m] and records its result. *)
Definition perform {A} (m : M A) (s : system) (k : A → system → system) : outcome system :=
  let '(r, w) := m (mem s) in
  a ← r; Ok (k a (System w (at_ s) (in_open s) (open_at s) (cancelling s) (cancelled s) (cef_refs s) (given s) (got s))).
Definition goto (c : control) (s : system) : system := System (mem s) c (in_open s) (open_at s) (cancelling s) (cancelled s) (cef_refs s) (given s) (got s).
Definition on_other_thread (s : system) : system := System (mem s) (at_ s) false (open_at s) (cancelling s) (cancelled s) (cef_refs s) (given s) (got s).
Definition open_to (o : opening) (s : system) : system := System (mem s) (at_ s) (in_open s) o (cancelling s) (cancelled s) (cef_refs s) (given s) (got s).
Definition cancel_to (b c : bool) (s : system) : system := System (mem s) (at_ s) (in_open s) (open_at s) b c (cef_refs s) (given s) (got s).
Definition hold (n : Z) (s : system) : system := System (mem s) (at_ s) (in_open s) (open_at s) (cancelling s) (cancelled s) n (given s) (got s).
Definition give (data : bytes) (s : system) : system := System (mem s) (at_ s) (in_open s) (open_at s) (cancelling s) (cancelled s) (cef_refs s) (given s ++ data) (got s).
Definition receive (data : bytes) (s : system) : system := System (mem s) (at_ s) (in_open s) (open_at s) (cancelling s) (cancelled s) (cef_refs s) (given s) (got s ++ data).

Definition lb_step (e : event) (s : system) : outcome system :=
  match e with
  | Open a => perform (lb_buf_open_begin a) s (λ c s, goto c (open_to Opening (System (mem s) (at_ s) true (open_at s) (cancelling s) (cancelled s) (cef_refs s) (given s) (got s))))
  | OpenEnd => perform lb_buf_open_end s (λ _ s, open_to Ending (on_other_thread s))
  | OpenReturn => perform lb_buf_open_return s (λ r s, open_to (Returned r) s)
  | Iterate a => perform (lb_buf_iterate alloc a) s (λ c s, goto c (if rc a && (0 <? bytes_read a) then give (chunk a) s else s))
  | DoSettle => match at_ s with Settle b => perform (lb_buf_settle patch_content b) s (λ _ s, goto Resume s) | _ => Ok s end
  | DoResume => perform lb_buf_resume s (λ _ s, goto Done s)
  | OpenCbCont => perform lb_buf_opencb_cont s (λ c s, goto c (on_other_thread s))
  | OpenCbCancel => perform lb_buf_opencb_cancel s (λ c s, goto c (on_other_thread s))
  | ReadCbCont n data => perform (lb_buf_readcb_cont alloc n data) s (λ c s, goto c (on_other_thread (if 0 <? n then give data s else s)))
  | Read n => perform (lb_buf_read n) s (λ r s, receive r.1 s)
  | CancelTest => perform lb_buf_cancel_test s (λ t s, cancel_to t true s)
  | CancelEnd => perform lb_buf_cancel_end s (λ _ s, cancel_to false (cancelled s) s)
  | AddRef => perform lb_buf_add_ref s (λ _ s, hold (cef_refs s + 1) s)
  | Release => perform lb_buf_release s (λ _ s, hold (cef_refs s - 1) s)
  end.

Definition lb_start : system := System create_proxy_buffered Idle false NotOpened false false 1 [] [].
Inductive lb_reachable : system → Prop :=
  | lb_reach_start : lb_reachable lb_start
  | lb_reach_step s e s' : lb_reachable s → allowed e s = true → lb_step e s = Ok s' → lb_reachable s'.
End threads.

(** ** What holds under every interleaving *)

Definition draining (c : control) : bool := match c with Idle | Done => false | _ => true end.
(** A buffer nothing was read into is null. *)
Definition non_null (g : bytes) : option bytes := match g with [] => None | _ => Some g end.
Definition drained (g : bytes) : option bytes := (λ d, take (Z.to_nat (u32 (len d))) d) <$> non_null g.

Section invariant.
  Variable alloc : Z → bool.
  Variable patch_content : option bytes → option (bytes * Z * bytes).
  Variable limit : Z.
  Hypothesis Hlimit : limit <= MEM_MAX.
  Hypothesis Halloc : ∀ n, alloc n = true → n <= limit.
  Hypothesis Hpatch : ∀ d served size mime, patch_content d = Some (served, size, mime) → 0 <= size < 2 ^ 32 ∧ size <= len served.

(** The buffers of a drain that has not settled. *)
Record raw_ok (h : lb_buf) (c : control) (g : bytes) : Prop := {
  raw_cap_ok : len (default [] (raw_data h)) <= raw_cap h <= MEM_MAX;
  raw_null : raw_data h = None → raw_cap h = 0;
  raw_given : c ≠ Settle false → c ≠ Resume → c ≠ Done → raw_data h = non_null g;
  raw_chunk : c = AwaitRead → read_chunk h = true }.
Record served_ok (h : lb_buf) (c : control) (g taken : bytes) : Prop := {
  served_from : served_data h = None ∧ served_size h = 0 ∨
    (c = Resume ∨ c = Done) ∧ ∃ d m, patch_content (drained g) = Some (d, served_size h, m) ∧ served_data h = Some d ∧ mime_type h = Some m;
  served_ready : state h = LB_READY → served_data h ≠ None;
  served_pos : 0 <= pos h <= served_size h;
  served_taken : taken = take (Z.to_nat (pos h)) (default [] (served_data h)) }.
Record refs_ok (s : system) : Prop := {
  refs_count : ref_count (obj (mem s)) = cef_refs s + (if draining (at_ s) then 1 else 0);
  refs_live : live (obj (mem s)) = (0 <? ref_count (obj (mem s)));
  refs_cef : 0 <= cef_refs s <= 2 ^ 30;
  refs_calls : (open_at s = Opening ∨ open_at s = Ending ∨ cancelling s = true) → 0 < cef_refs s;
  refs_inner : inner_released (mem s) = (if live (obj (mem s)) then 0 else 1)%nat }.
Record flow_ok (s : system) : Prop := {
  flow_idle : at_ s = Idle ↔ open_at s = NotOpened;
  flow_cb : at_ s ≠ Idle → outer_open_cb (obj (mem s)) = true;
  flow_once : outer (mem s) = [] ∨ at_ s = Done ∧ ∃ c, outer (mem s) = [c] }.
Record inv (s : system) : Prop := {
  inv_refs : refs_ok s;
  inv_flow : flow_ok s;
  inv_raw : raw_ok (obj (mem s)) (at_ s) (given s);
  inv_served : served_ok (obj (mem s)) (at_ s) (given s) (got s) }.

Lemma inv_start : inv lb_start.
Proof. split; split; cbn; try done; try lia; auto. all: unfold MEM_MAX, len; cbn; lia. Qed.

Lemma i32_small z : - 2 ^ 31 <= z < 2 ^ 31 → i32 z = z.
Proof. intros. unfold i32. rewrite Z.mod_small by lia. lia. Qed.
Lemma len_pos_non_null (g d : bytes) : 0 < len d → non_null (g ++ d) = Some (g ++ d).
Proof. destruct d; [by unfold len|]. by destruct g. Qed.

(** The object while it is alive. *)
Lemma get_run {A} (f : lb_buf → A) h o ir : live h = true → get f (World h o ir) = (Ok (f h), World h o ir).
Proof. unfold get. cbn [obj]. by intros ->. Qed.
Lemma put_run f h o ir : live h = true → put f (World h o ir) = (Ok tt, World (f h) o ir).
Proof. unfold put. cbn [obj outer inner_released]. by intros ->. Qed.
Lemma release_run w : live (obj w) = true → 1 <= ref_count (obj w) < 2 ^ 31 →
  lb_buf_release w =
    if ref_count (obj w) =? 1 then (Ok true, World (put_freed (put_ref 0 (obj w))) (outer w) (S (inner_released w)))
    else (Ok false, World (put_ref (ref_count (obj w) - 1) (obj w)) (outer w) (inner_released w)).
Proof.
  destruct w as [[lv rf st sy io oc rd rw cp sd sz mt ps] o ir]. cbn [obj live ref_count]. intros -> Hr. unfold lb_buf_release, get, put, modify, mbind, SM_bind. cbn [obj live ref_count].
  rewrite i32_small by lia. cbn [obj live put_ref outer inner_released]. destruct (Z.eqb_spec rf 1) as [->|]; [done|]. done.
Qed.

Lemma copy_run g data w cap : live (obj w) = true → read_chunk (obj w) = true → raw_data (obj w) = Some g → raw_cap (obj w) = cap → len data <= LB_READ_CHUNK_SIZE → len g + len data <= cap →
  copy_in data w = (Ok tt, World (put_raw (Some (g ++ data)) cap (obj w)) (outer w) (inner_released w)).
Proof.
  destruct w as [[lv rf st sy io oc rd rw cp sd sz mt ps] o ir]. cbn [obj live read_chunk raw_data raw_cap]. intros -> -> -> -> Hd Hc. unfold copy_in, get, put, mbind, SM_bind. cbn [obj live read_chunk raw_data raw_cap default from_option]. change (id g) with g.
  destruct (Z.leb_spec (len data) LB_READ_CHUNK_SIZE); [|lia]. destruct (Z.leb_spec (len g + len data) cap); [|lia]. by rewrite bool_decide_false by done.
Qed.

(** A chunk is added, or there is no memory and nothing changes. *)
Lemma append_run h g data o ir : live h = true → read_chunk h = true → raw_data h = non_null g → len g <= raw_cap h <= MEM_MAX → (raw_data h = None → raw_cap h = 0) → 0 < len data <= LB_READ_CHUNK_SIZE →
  lb_buf_append alloc data (World h o ir) = (Ok false, World h o ir) ∧ (∃ k, k <= Z.max 65536 (2 * (len g + len data)) ∧ alloc k = false) ∨
  ∃ cap, len (g ++ data) <= cap <= MEM_MAX ∧ lb_buf_append alloc data (World h o ir) = (Ok true, World (put_raw (Some (g ++ data)) cap h) o ir).
Proof.
  intros Hl Hc Hg Hcap Hnull Hd. unfold lb_buf_append. rewrite bind_run, get_run by done. cbn beta iota. rewrite bind_run, get_run by done. cbn beta iota zeta.
  assert (default [] (raw_data h) = g) as -> by (rewrite Hg; by destruct g). pose proof (len_nonneg g). unfold MEM_MAX, LB_READ_CHUNK_SIZE in *.
  rewrite u64_id by lia. destruct (Z.ltb_spec (raw_cap h) (len g + len data)) as [Hlt|Hge].
  - set (c0 := if raw_cap h =? 0 then 65536 else u64 (raw_cap h * 2)).
    assert (65536 <= c0 ∨ 2 <= c0) as Hc0 by (subst c0; destruct (Z.eqb_spec (raw_cap h) 0); [lia|rewrite u64_id by lia; lia]).
    destruct (double_size_enough 64 c0 (len g + len data)) as (k & Ek & Hk & Hk1 & Hk2); [lia|change (Z.of_nat 64) with 64; lia|change (2 ^ (word_bits - 1)) with (2 ^ 63); lia|].
    rewrite bind_run. unfold lift. rewrite Ek. destruct (alloc k) eqn:Ea.
    2: { left. split; [done|]. exists k. split; [|done]. destruct (Z.lt_ge_cases c0 (len g + len data)); [lia|]. rewrite Hk2 by lia. subst c0. destruct (Z.eqb_spec (raw_cap h) 0); [lia|]. rewrite u64_id by lia. lia. }
    right. apply Halloc in Ea. exists k. rewrite len_app. split; [lia|].
    cbn [negb]. rewrite bind_run. rewrite put_run by done. cbn beta iota. rewrite bind_run, (copy_run g data _ k); [by destruct h|by destruct h|by destruct h|by destruct h|by destruct h|unfold LB_READ_CHUNK_SIZE; lia|lia].
  - right. exists (raw_cap h). rewrite len_app. split; [lia|]. assert (raw_data h = Some g) as Hs.
    { rewrite Hg. destruct g; [|done]. rewrite Hnull in Hge by done. unfold len in *. cbn in *. lia. }
    rewrite bind_run, (copy_run g data _ (raw_cap h)); [done|done|done|done|done|unfold LB_READ_CHUNK_SIZE; lia|lia].
Qed.

(** The fields a drain never touches. *)
Definition same_frame (h h' : lb_buf) : Prop := live h' = live h ∧ ref_count h' = ref_count h ∧ outer_open_cb h' = outer_open_cb h.
Lemma draining_live s : inv s → draining (at_ s) = true → live (obj (mem s)) = true ∧ 1 <= ref_count (obj (mem s)) < 2 ^ 31.
Proof. intros [[Hc Hl Hb _ _] _ _ _] Hd. rewrite Hd in Hc. rewrite Hl. destruct (Z.ltb_spec 0 (ref_count (obj (mem s)))); split; try done; lia. Qed.
Lemma held_live s : inv s → 0 < cef_refs s → live (obj (mem s)) = true ∧ 1 <= ref_count (obj (mem s)) < 2 ^ 31.
Proof. intros [[Hc Hl Hb _ _] _ _ _] Hd. rewrite Hl. destruct (Z.ltb_spec 0 (ref_count (obj (mem s)))); destruct (draining (at_ s)); split; try done; lia. Qed.

(** The drain goes on. *)
Lemma inv_goto s h' c io g : inv s → draining (at_ s) = true → draining c = true → same_frame (obj (mem s)) h' → raw_ok h' c g → served_ok h' c g (got s) →
  inv (System (World h' (outer (mem s)) (inner_released (mem s))) c io (open_at s) (cancelling s) (cancelled s) (cef_refs s) g (got s)).
Proof.
  intros [[R1 R2 R3 R4 R5] [F1 F2 F3] _ _] Hd Hc (Hl & Hr & Hcb) Hraw Hserved. rewrite Hd in R1.
  assert (at_ s ≠ Idle ∧ at_ s ≠ Done) as [Hi Hn] by (by destruct (at_ s)). assert (c ≠ Idle) by by intros ->.
  split; [split|split|exact Hraw|exact Hserved]; cbn [mem obj at_ open_at cef_refs outer inner_released cancelling]; rewrite ?Hl, ?Hr, ?Hcb, ?Hc; try done.
  - split; [done|]. by intros ?%F1.
  - intros _. by apply F2.
  - left. by destruct F3 as [|[]].
Qed.
(** The drain ends and gives up its reference. *)
Lemma inv_done s h' o' io g : inv s → draining (at_ s) = true → same_frame (obj (mem s)) h' → (o' = [] ∨ ∃ c, o' = [c]) → raw_ok h' Done g → served_ok h' Done g (got s) →
  ∃ b w', lb_buf_release (World h' o' (inner_released (mem s))) = (Ok b, w') ∧
    inv (System w' Done io (open_at s) (cancelling s) (cancelled s) (cef_refs s) g (got s)).
Proof.
  intros Hs Hd (Hl & Hr & Hcb) Ho Hraw Hserved. destruct (draining_live s Hs Hd) as [Hlive Hrange]. destruct Hs as [[R1 R2 R3 R4 R5] [F1 F2 F3] _ _]. rewrite Hd in R1.
  assert (at_ s ≠ Idle) as Hi by (by destruct (at_ s)). rewrite release_run by (cbn [obj]; rewrite ?Hl, ?Hr; done). cbn [obj outer inner_released]. rewrite Hr.
  rewrite Hlive in R5. rewrite R5. rewrite F2 in Hcb by done. rewrite Hlive in Hl.
  assert (Done = Idle ↔ open_at s = NotOpened) as Hf by (split; [done|by intros ?%F1]).
  destruct (Z.eqb_spec (ref_count (obj (mem s))) 1) as [E|E].
  - do 2 eexists. split; [done|]. destruct h'. cbn [put_ref put_freed live ref_count outer_open_cb] in *. subst.
    split; [split|split|by destruct Hraw|by destruct Hserved]; cbn [mem obj at_ open_at cef_refs outer inner_released cancelling live ref_count outer_open_cb draining]; try done; try lia.
    destruct Ho as [|Ho]; auto.
  - do 2 eexists. split; [done|]. destruct h'. cbn [put_ref put_freed live ref_count outer_open_cb] in *. subst.
    split; [split|split|by destruct Hraw|by destruct Hserved]; cbn [mem obj at_ open_at cef_refs outer inner_released cancelling live ref_count outer_open_cb draining]; try done; try lia.
    destruct Ho as [|Ho]; auto.
Qed.

Lemma raw_freed h g : raw_ok (put_raw None 0 (put_chunk false h)) Done g.
Proof. destruct h. split; cbn; done. Qed.
(** Frames of the changes: what they leave of the served data. *)
Lemma served_same h h' c c' g g' t : served_ok h c g t → (state h' = LB_READY → state h = LB_READY) → served_data h' = served_data h → served_size h' = served_size h → mime_type h' = mime_type h → pos h' = pos h →
  (served_data h ≠ None → (c' = Resume ∨ c' = Done) ∧ g' = g) → served_ok h' c' g' t.
Proof.
  intros [S1 S2 S3 S4] Hst Hd Hz Hm Hp Hc. split; rewrite ?Hd, ?Hz, ?Hm, ?Hp; auto. destruct S1 as [|[Hc1 (d & m & E1 & E2 & E3)]]; [auto|]. right.
  destruct Hc as [Hc ->]; [by rewrite E2|]. split; [done|]. exists d, m. auto.
Qed.
Lemma served_none s : inv s → at_ s ≠ Resume → at_ s ≠ Done → served_data (obj (mem s)) = None.
Proof. intros [_ _ _ [[[]|[[]]] _ _ _]]; done. Qed.

Definition steps_to (s : system) (g : bytes) (io : bool) (m : M control) : Prop :=
  ∃ c w', m (mem s) = (Ok c, w') ∧ inv (System w' c io (open_at s) (cancelling s) (cancelled s) (cef_refs s) g (got s)).

(** A callback or an iteration that finds the request cancelled ends the drain. *)
Lemma unless_cancelled_ok s g io m : inv s → draining (at_ s) = true → at_ s ≠ Resume → steps_to s g io m → steps_to s g io (unless_cancelled m).
Proof.
  intros Hs Hd Hr Hm. destruct (draining_live s Hs Hd) as [Hl _]. unfold steps_to, unless_cancelled in *. destruct (mem s) as [h o ir] eqn:Ew. cbn [obj] in *.
  rewrite bind_run, get_run by done. cbn beta iota. destruct (bool_decide (state h = LB_CANCELLED)); [|done].
  unfold lb_buf_finish_cancelled, lb_buf_release_drain_buffers. rewrite !bind_run, put_run by done. cbn beta iota. rewrite bind_run.
  assert (served_data h = None) as Hn by (pose proof (served_none s Hs Hr) as H; rewrite Ew in H; apply H; by destruct (at_ s)).
  edestruct (inv_done s (put_raw None 0 (put_chunk false h)) o io g Hs Hd) as (b & w' & E & Hi).
  - rewrite Ew. by destruct h.
  - destruct Hs as [_ [_ _ F] _ _]. rewrite Ew in F. cbn in F. destruct F as [|[]]; auto.
  - apply raw_freed.
  - eapply served_same; [apply Hs|..]; rewrite Ew; cbn [obj]; destruct h; try done. 
  - rewrite Ew in E. cbn [inner_released] in E. rewrite E. by exists Done, w'.
Qed.

Definition may_read (c : control) : bool := match c with AwaitRead | Loop => true | _ => false end.
(** The drain with its chunk allocated goes to [c]. *)
Lemma chunk_goto s c io : inv s → may_read (at_ s) = true → draining c = true → 
  inv (System (World (put_chunk true (obj (mem s))) (outer (mem s)) (inner_released (mem s))) c io (open_at s) (cancelling s) (cancelled s) (cef_refs s) (given s) (got s)).
Proof.
  intros Hs Hr Hc. assert (draining (at_ s) = true ∧ served_data (obj (mem s)) = None ∧ raw_data (obj (mem s)) = non_null (given s)) as (Hd & Hn & Hg).
  { split; [by destruct (at_ s)|]. split; [apply (served_none s Hs); by destruct (at_ s)|]. destruct Hs as [_ _ [_ _ H _] _]. apply H; by destruct (at_ s). }
  apply inv_goto; [done..| | |].
  - by destruct (obj (mem s)).
  - destruct Hs as [_ _ [H1 H2 H3 H4] _]. destruct (obj (mem s)). split; cbn in *; auto.
  - eapply served_same; [apply Hs|..]; destruct (obj (mem s)); cbn in *; try done. 
Qed.
Lemma take_chunk_to s data io : inv s → may_read (at_ s) = true → 0 < len data <= LB_READ_CHUNK_SIZE →
  ∃ c w', take_chunk alloc data (World (put_chunk true (obj (mem s))) (outer (mem s)) (inner_released (mem s))) = (Ok c, w') ∧
    inv (System w' c io (open_at s) (cancelling s) (cancelled s) (cef_refs s) (given s ++ data) (got s)).
Proof.
  intros Hs Hr Hd. pose proof (chunk_goto s Loop io Hs Hr eq_refl) as Hs1. set (h := put_chunk true (obj (mem s))) in *.
  destruct (draining_live _ Hs1 eq_refl) as [Hl _]. cbn [mem obj] in Hl. assert (read_chunk h = true) as Hch by (subst h; by destruct (obj (mem s))).
  assert (served_data h = None) as Hn by (apply (served_none _ Hs1); done).
  destruct (inv_raw _ Hs1) as [R1 R2 R3 R4]. cbn [mem obj at_ given] in *. specialize (R3 ltac:(done) ltac:(done) ltac:(done)).
  assert (len (given s) <= raw_cap h <= MEM_MAX) as Hcap by (rewrite R3 in R1; by destruct (given s)).
  unfold take_chunk. rewrite bind_run. destruct (append_run h (given s) data (outer (mem s)) (inner_released (mem s)) Hl Hch R3 Hcap R2 Hd) as [[-> _]|(cap & Hcap' & ->)].
  - exists (Settle false), (World h (outer (mem s)) (inner_released (mem s))). split; [done|].
    apply (inv_goto _ h (Settle false) io (given s ++ data) Hs1 eq_refl eq_refl); [done|by split|].
    eapply served_same; [apply Hs1|done..|]. cbn. by rewrite Hn.
  - do 2 eexists. split; [done|]. apply (inv_goto _ (put_raw (Some (given s ++ data)) cap h) Loop io (given s ++ data) Hs1 eq_refl eq_refl).
    + by destruct h.
    + split; [| |intros _ _ _|done]; destruct h; cbn in *; [done|done|]. rewrite len_pos_non_null; [done|lia].
    + eapply served_same; [apply Hs1|..]; destruct h; cbn in *; try done. 
Qed.

Lemma iterate_ok s a : inv s → at_ s = Loop → answer_ok (rc a) (bytes_read a) (chunk a) = true →
  steps_to s (if rc a && (0 <? bytes_read a) then given s ++ chunk a else given s) (in_open s) (lb_buf_iterate alloc a).
Proof.
  intros Hs Ha Hok. assert (may_read (at_ s) = true) as Hr by by rewrite Ha. apply unless_cancelled_ok; [done|by rewrite Ha|by rewrite Ha|].
  assert (draining (at_ s) = true) as Hd by by rewrite Ha. destruct (draining_live s Hs Hd) as [Hl _]. unfold steps_to.
  pose proof (λ c, chunk_goto s c (in_open s) Hs Hr) as Hgoto. pose proof (take_chunk_to s (chunk a) (in_open s) Hs Hr) as Htake.
  destruct (mem s) as [h o ir] eqn:Ew. cbn [obj outer inner_released] in *.
  rewrite bind_run, get_run by done. cbn beta iota. rewrite bind_run.
  assert (∃ b, (if read_chunk h then mret tt else if alloc LB_READ_CHUNK_SIZE then put (put_chunk true) else mret tt) (World h o ir) = (Ok tt, World (if b : bool then put_chunk true h else h) o ir) ∧ (b = false → read_chunk h = false)) as (b & -> & Hb).
  { destruct (read_chunk h) eqn:E; [exists true; split; [|done]; by destruct h; cbn in *; subst|]. destruct (alloc _); [|by exists false]. exists true. by rewrite put_run. }
  cbn beta iota. rewrite bind_run, get_run by (destruct b; [by destruct h|done]). cbn beta iota. destruct b.
  - assert (read_chunk (put_chunk true h) = true) as -> by by destruct h. cbn [negb]. unfold answer_ok in Hok. bool_to_prop.
    destruct (rc a) eqn:Erc; cbn [andb negb] in *.
    + destruct (Z.ltb_spec 0 (bytes_read a)); bool_to_prop; [apply Htake; lia|]. destruct (bytes_read a =? 0); [by exists AwaitRead, (World (put_chunk true h) o ir); split; [|apply Hgoto]|].
      exists (Settle false), (World (put_chunk true h) o ir). split; [done|by apply Hgoto].
    + destruct (bytes_read a =? 0); [exists (Settle true)|exists (Settle false)]; exists (World (put_chunk true h) o ir); (split; [done|by apply Hgoto]).
  - rewrite Hb by done. cbn [negb]. exists (Settle false), (World h o ir). split; [done|].
    pose proof (inv_goto s h (Settle false) (in_open s) (if rc a && (0 <? bytes_read a) then given s ++ chunk a else given s) Hs Hd eq_refl) as H. rewrite Ew in H. apply H; [done| |].
    + destruct (inv_raw s Hs) as [R1 R2 R3 R4]. rewrite Ew in *. by split.
    + pose proof (inv_served s Hs) as Hv. rewrite Ew in Hv. eapply served_same; [exact Hv|done..|]. pose proof (served_none s Hs) as Hn. rewrite Ew in Hn. cbn [obj] in Hn |- *. rewrite Hn; [done|by rewrite Ha..].
Qed.

Lemma settle_ok s b : inv s → at_ s = Settle b →
  ∃ w', lb_buf_settle patch_content b (mem s) = (Ok tt, w') ∧ inv (System w' Resume (in_open s) (open_at s) (cancelling s) (cancelled s) (cef_refs s) (given s) (got s)).
Proof.
  intros Hs Ha. assert (draining (at_ s) = true) as Hd by by rewrite Ha. destruct (draining_live s Hs Hd) as [Hl _]. pose proof (inv_served s Hs) as Hv.
  assert (served_data (obj (mem s)) = None) as Hn by (apply served_none; [done|by rewrite Ha..]).
  assert (∀ h1, same_frame (obj (mem s)) h1 → served_ok h1 Resume (given s) (got s) →
    inv (System (World (put_raw None 0 (put_chunk false h1)) (outer (mem s)) (inner_released (mem s))) Resume (in_open s) (open_at s) (cancelling s) (cancelled s) (cef_refs s) (given s) (got s))) as Hgo.
  { intros h1 Hf H1. apply inv_goto; [done..| | |]; [by destruct h1|destruct (raw_freed h1 (given s)); by split|by destruct h1, H1]. }
  assert (∀ h1, live h1 = true → lb_buf_release_drain_buffers (World h1 (outer (mem s)) (inner_released (mem s))) = (Ok tt, World (put_raw None 0 (put_chunk false h1)) (outer (mem s)) (inner_released (mem s)))) as Hrel.
  { intros h1 H1. unfold lb_buf_release_drain_buffers. by rewrite put_run. }
  assert (served_ok (put_state LB_FAILED (obj (mem s))) Resume (given s) (got s)) as Hfail.
  { eapply served_same; [exact Hv|..]; destruct (obj (mem s)); cbn in *; try done; auto. }
  unfold lb_buf_settle. rewrite bind_run. destruct (mem s) as [h o ir] eqn:Ew. cbn [obj outer inner_released] in *. destruct b.
  - rewrite bind_run, get_run by done. cbn beta iota. destruct (inv_raw s Hs) as [_ _ R _]. rewrite Ew, Ha in R. cbn [obj] in R. rewrite R by done. fold (drained (given s)).
    destruct (patch_content (drained (given s))) as [[[d sz] m]|] eqn:Ep.
    + rewrite put_run by done. cbn beta iota. rewrite Hrel by by destruct h. eexists. split; [done|]. apply Hgo; [by destruct h|].
      destruct Hv as [[[V1 V1']|[_ (? & ? & _ & V1 & _)]] V2 V3 V4]; [|congruence]. destruct (Hpatch _ _ _ _ Ep). destruct h. cbn in *. rewrite V1' in V3. assert (pos0 = 0) as -> by lia.
      split; cbn; [right; split; [auto|by exists d, m]|done|lia|done].
    + rewrite put_run by done. cbn beta iota. rewrite Hrel by by destruct h. eexists. split; [done|]. apply Hgo; [by destruct h|done].
  - rewrite put_run by done. cbn beta iota. rewrite Hrel by by destruct h. eexists. split; [done|]. apply Hgo; [by destruct h|done].
Qed.

Lemma resume_ok s : inv s → at_ s = Resume →
  ∃ w', lb_buf_resume (mem s) = (Ok tt, w') ∧ inv (System w' Done (in_open s) (open_at s) (cancelling s) (cancelled s) (cef_refs s) (given s) (got s)).
Proof.
  intros Hs Ha. assert (draining (at_ s) = true) as Hd by by rewrite Ha. destruct (draining_live s Hs Hd) as [Hl _].
  assert (∀ o', o' = [] ∨ (∃ c, o' = [c]) → ∃ b w', lb_buf_release (World (obj (mem s)) o' (inner_released (mem s))) = (Ok b, w') ∧ inv (System w' Done (in_open s) (open_at s) (cancelling s) (cancelled s) (cef_refs s) (given s) (got s))) as Hgo.
  { intros o' Ho. apply inv_done; [done..|done| |].
    - destruct (inv_raw s Hs) as [R1 R2 R3 R4]. by split.
    - eapply served_same; [apply Hs|done..|]. auto. }
  destruct (inv_flow s Hs) as [_ F2 F3]. rewrite Ha in F2, F3. specialize (F2 ltac:(done)). assert (outer (mem s) = []) as Ho by (by destruct F3 as [|[]]).
  destruct (mem s) as [h o ir] eqn:Ew. cbn [obj outer inner_released] in *. subst o. unfold lb_buf_resume. rewrite bind_run, get_run by done. cbn beta iota. rewrite bind_run.
  assert (∀ c, call_outer c (World h [] ir) = (Ok tt, World h [c] ir)) as Hcall.
  { intros c. unfold call_outer. rewrite bind_run, get_run by done. cbn beta iota. by rewrite F2. }
  assert (∀ o', o' = [] ∨ (∃ c, o' = [c]) → ∃ w', (_ ← lb_buf_release; mret tt) (World h o' ir) = (Ok tt, w') ∧ inv (System w' Done (in_open s) (open_at s) (cancelling s) (cancelled s) (cef_refs s) (given s) (got s))) as Hend.
  { intros o' Ho'. destruct (Hgo o' Ho') as (b & w' & E & Hi). exists w'. by rewrite bind_run, E. }
  destruct (sync_phase h); cbn [negb].
  - apply Hend. by left.
  - rewrite bind_run, get_run by done. cbn beta iota. destruct (bool_decide _); rewrite Hcall; cbn beta iota; apply Hend; eauto.
Qed.

(** A call of the browser that leaves the drain alone. *)
Lemma inv_touch s h' io oa ca cd t : inv s → 0 < cef_refs s → (oa = NotOpened ↔ open_at s = NotOpened) → same_frame (obj (mem s)) h' →
  read_chunk h' = read_chunk (obj (mem s)) → raw_data h' = raw_data (obj (mem s)) → raw_cap h' = raw_cap (obj (mem s)) → served_ok h' (at_ s) (given s) t →
  inv (System (World h' (outer (mem s)) (inner_released (mem s))) (at_ s) io oa ca cd (cef_refs s) (given s) t).
Proof.
  intros [[R1 R2 R3 R4 R5] [F1 F2 F3] [W1 W2 W3 W4] _] Hc Ho (Hl & Hr & Hcb) E1 E2 E3 Hv.
  split; [split|split|split|exact Hv]; cbn [mem obj at_ open_at cef_refs outer inner_released cancelling given]; rewrite ?Hl, ?Hr, ?Hcb, ?E1, ?E2, ?E3; try done; try by rewrite Ho.
Qed.

Lemma open_ok s a : inv s → 0 < cef_refs s → open_at s = NotOpened →
  ∃ c w', lb_buf_open_begin a (mem s) = (Ok c, w') ∧ inv (System w' c true Opening (cancelling s) (cancelled s) (cef_refs s) (given s) (got s)).
Proof.
  intros Hs Hc Ho. destruct (held_live s Hs Hc) as [Hl Hr]. destruct Hs as [[R1 R2 R3 R4 R5] [F1 F2 F3] [W1 W2 W3 W4] Hv]. apply F1 in Ho as Ha. rewrite Ha in *. cbn [draining] in R1. clear R2.
  destruct (mem s) as [h o ir] eqn:Ew. cbn [obj outer inner_released] in *. unfold lb_buf_open_begin, lb_buf_add_ref. rewrite bind_run, put_run by done. cbn beta iota.
  rewrite bind_run, bind_run, get_run by by destruct h. cbn beta iota. rewrite put_run by by destruct h. cbn beta iota. rewrite bind_run, put_run by by destruct h. cbn beta iota.
  assert (o = []) as -> by by destruct F3 as [|[]]. destruct h as [lv rf st sy iop oc rd rw cp sd sz mt ps]. cbn [live ref_count put_outer put_ref put_sync] in *. subst lv. rewrite i32_small by lia.
  assert (served_data (LbBuf true rf st sy iop oc rd rw cp sd sz mt ps) = None) as Hn by (destruct Hv as [[[]|[[] _]] _ _ _]; done). cbn in Hn. subst sd.
  assert (∀ c iop', draining c = true → c ≠ AwaitRead → inv (System (World (LbBuf true (rf + 1) st true iop' true rd rw cp None sz mt ps) [] ir) c true Opening (cancelling s) (cancelled s) (cef_refs s) (given s) (got s))) as Hgo.
  { intros c iop' Hdc Hc'. split; [split|split|split|]; cbn [mem obj at_ open_at cef_refs outer inner_released cancelling live ref_count outer_open_cb raw_data raw_cap read_chunk given] in *; try done; try lia.
    - rewrite Hdc. lia.
    - split; [by destruct c|done].
    - by left.
    - intros ? ? ?. by apply W3.
    - cbn [got]. eapply served_same; [exact Hv|done..]. }
  destruct a.
  - do 2 eexists. split; [done|]. by apply Hgo.
  - do 2 eexists. split; [done|]. by apply Hgo.
  - rewrite bind_run, put_run by done. do 2 eexists. split; [done|]. by apply Hgo.
Qed.

Lemma read_ok s n : inv s → 0 < cef_refs s → 0 <= n < 2 ^ 31 →
  ∃ r w', lb_buf_read n (mem s) = (Ok r, w') ∧ inv (System w' (at_ s) (in_open s) (open_at s) (cancelling s) (cancelled s) (cef_refs s) (given s) (got s ++ r.1)) ∧
    len r.1 = Z.min n (served_size (obj (mem s)) - pos (obj (mem s))) ∧ served_data (obj w') = served_data (obj (mem s)).
Proof.
  intros Hs Hc Hn. destruct (held_live s Hs Hc) as [Hl _]. destruct (inv_served s Hs) as [V1 V2 V3 V4].
  assert (∀ h' t, same_frame (obj (mem s)) h' → read_chunk h' = read_chunk (obj (mem s)) → raw_data h' = raw_data (obj (mem s)) → raw_cap h' = raw_cap (obj (mem s)) → served_ok h' (at_ s) (given s) t →
    inv (System (World h' (outer (mem s)) (inner_released (mem s))) (at_ s) (in_open s) (open_at s) (cancelling s) (cancelled s) (cef_refs s) (given s) t)) as Hgo.
  { intros. by apply inv_touch. }
  pose proof (inv_served s Hs) as Hv. destruct (mem s) as [h o ir] eqn:Ew. cbn [obj outer inner_released] in *. unfold lb_buf_read. rewrite bind_run, get_run by done. cbn beta iota. rewrite bind_run, get_run by done. cbn beta iota. rewrite bind_run, get_run by done. cbn beta iota zeta.
  assert (0 <= served_size h < 2 ^ 32 ∧ served_size h <= len (default [] (served_data h))) as [Hsz Hlen].
  { destruct V1 as [[-> ->]|[_ (d & m & E & -> & _)]]; [done|]. apply (Hpatch _ _ _ _ E). }
  rewrite !u64_id by lia. set (k := if n <? served_size h - pos h then n else served_size h - pos h).
  assert (0 <= k <= served_size h - pos h ∧ k < 2 ^ 31) as [Hk Hk'] by (subst k; destruct (Z.ltb_spec n (served_size h - pos h)); lia). rewrite i32_small by lia.
  destruct (Z.ltb_spec 0 k) as [Hpos|Hz].
  - destruct V1 as [[_ V1]|[Hat (d & m & E & Ed & Em)]]; [lia|]. rewrite Ed in *. cbn [default from_option] in *. change (id d) with d in *. unfold slice. rewrite bind_run.
    destruct (Z.leb_spec 0 (pos h)); [|lia]. destruct (Z.leb_spec (pos h) (pos h + k)); [|lia]. destruct (Z.leb_spec (pos h + k) (len d)); [|lia]. cbn [andb]. unfold lift.
    rewrite bind_run, put_run by done. do 2 eexists. split; [done|]. cbn [fst]. split.
    2: { replace (pos h + k - pos h) with k by lia. unfold len in *. rewrite length_take, length_drop. split; [subst k; destruct (Z.ltb_spec n (served_size h - pos h)); lia|destruct h; cbn in *; done]. }
    apply Hgo; try by destruct h.
    rewrite V4. destruct h. cbn in *. subst. split; cbn; [right; split; [done|by exists d, m]|done|lia|].
    replace (pos0 + k - pos0) with k by lia. rewrite Z2Nat.inj_add by lia. change (id d) with d. by rewrite take_take_drop.
  - do 2 eexists. split; [done|]. cbn [fst]. rewrite app_nil_r. split; [by apply Hgo|]. split; [|done]. change (len []) with 0. subst k. destruct (Z.ltb_spec n (served_size h - pos h)); lia.
Qed.

(** The drain goes on from a callback that brought no data. *)
Lemma callback_goto s c f : inv s → (at_ s = AwaitOpen ∨ at_ s = AwaitRead) → draining c = true → c ≠ AwaitRead →
  (∀ h, f h = h ∨ f h = put_opened true h) →
  inv (System (World (f (obj (mem s))) (outer (mem s)) (inner_released (mem s))) c false (open_at s) (cancelling s) (cancelled s) (cef_refs s) (given s) (got s)).
Proof.
  intros Hs Ha Hc Hr Hf. assert (draining (at_ s) = true ∧ served_data (obj (mem s)) = None) as [Hd Hn].
  { split; [|apply (served_none s Hs)]; by destruct Ha as [-> | ->]. }
  destruct (inv_raw s Hs) as [R1 R2 R3 R4]. apply inv_goto; [done..| | |]; (destruct (Hf (obj (mem s))) as [-> | ->]; [|destruct (obj (mem s)) eqn:Eo]); cbn in *; try done.
  - split; try done. intros _ _ _. apply R3; by destruct Ha as [-> | ->].
  - split; try done. intros _ _ _. apply R3; by destruct Ha as [-> | ->].
  - eapply served_same; [apply Hs|done..|]. by rewrite Hn.
  - eapply served_same; [apply Hs|..]; rewrite Eo; cbn; done.
Qed.
Lemma callback_ok s m c f : inv s → (at_ s = AwaitOpen ∨ at_ s = AwaitRead) → draining c = true → c ≠ AwaitRead → (∀ h, f h = h ∨ f h = put_opened true h) →
  m (mem s) = (Ok c, World (f (obj (mem s))) (outer (mem s)) (inner_released (mem s))) → steps_to s (given s) false (unless_cancelled m).
Proof.
  intros Hs Ha Hc Hr Hf E. apply unless_cancelled_ok; [done|by destruct Ha as [-> | ->]..|]. do 2 eexists. split; [exact E|by apply callback_goto].
Qed.
Lemma readcb_ok s n data : inv s → at_ s = AwaitRead → answer_ok true n data = true →
  steps_to s (if 0 <? n then given s ++ data else given s) false (lb_buf_readcb_cont alloc n data).
Proof.
  intros Hs Ha Hok. unfold lb_buf_readcb_cont. destruct (Z.ltb_spec 0 n) as [Hn|Hn].
  - apply unless_cancelled_ok; [done|by rewrite Ha..|]. unfold answer_ok in Hok. cbn [andb] in Hok. destruct (Z.ltb_spec 0 n); [|lia]. bool_to_prop.
    destruct (take_chunk_to s data false Hs) as (c & w' & E & Hi); [by rewrite Ha|lia|]. exists c, w'. split; [|done]. rewrite <- E. f_equal.
    destruct (inv_raw s Hs) as [_ _ _ R4]. specialize (R4 Ha). destruct (mem s) as [[] ? ?]. cbn in *. by subst.
  - eapply (callback_ok s _ (Settle (n =? 0)) id); [done|by right|done|done|intros h; by left|by destruct (mem s)].
Qed.

Lemma step_inv e s : inv s → allowed e s = true → ∃ s', lb_step alloc patch_content e s = Ok s' ∧ inv s'.
Proof.
  intros Hs Ha.
  assert (∀ h', same_frame (obj (mem s)) h' → read_chunk h' = read_chunk (obj (mem s)) → raw_data h' = raw_data (obj (mem s)) → raw_cap h' = raw_cap (obj (mem s)) →
    (state h' = LB_READY → state (obj (mem s)) = LB_READY) → served_data h' = served_data (obj (mem s)) → served_size h' = served_size (obj (mem s)) → mime_type h' = mime_type (obj (mem s)) → pos h' = pos (obj (mem s)) →
    0 < cef_refs s → ∀ io oa ca cd, (oa = NotOpened ↔ open_at s = NotOpened) →
    inv (System (World h' (outer (mem s)) (inner_released (mem s))) (at_ s) io oa ca cd (cef_refs s) (given s) (got s))) as Htouch.
  { intros h' H1 H2 H3 H4 H5 H6 H7 H8 H9 H10 io oa ca cd Ho. apply inv_touch; [done..|]. eapply served_same; [apply Hs|done..|]. intros Hn. split; [|done]. destruct (served_from _ _ _ _ (inv_served s Hs)) as [[]|[? _]]; done. }
  destruct e as [a| | |a| | | | |n data|n| | | |]; cbn [allowed] in Ha; unfold lb_step, perform.
  - bool_to_prop. destruct (open_at s) eqn:Eo; [|done..]. destruct (open_ok s a Hs ltac:(lia) Eo) as (c & w' & -> & Hi). eexists. split; [done|exact Hi].
  - destruct (open_at s) eqn:Eo; try done. assert (0 < cef_refs s) as Hc by (apply (refs_calls s (inv_refs s Hs)); auto). destruct (held_live s Hs Hc) as [Hl _].
    destruct (mem s) as [h o ir] eqn:Ew. cbn [obj outer inner_released] in *. unfold lb_buf_open_end. rewrite put_run by done. eexists. split; [done|]. apply Htouch; try done; by destruct h.
  - destruct (open_at s) eqn:Eo; try done. assert (0 < cef_refs s) as Hc by (apply (refs_calls s (inv_refs s Hs)); auto). destruct (held_live s Hs Hc) as [Hl _].
    destruct (mem s) as [h o ir] eqn:Ew. cbn [obj outer inner_released] in *. unfold lb_buf_open_return. rewrite bind_run, get_run by done. eexists. split; [done|]. by apply Htouch.
  - apply andb_true_iff in Ha as [Ha%bool_decide_eq_true Hok]. destruct (iterate_ok s a Hs Ha Hok) as (c & w' & -> & Hi). eexists. split; [done|]. destruct (rc a && (0 <? bytes_read a)); exact Hi.
  - destruct (at_ s) as [| | | |b| |] eqn:Eat; try done. destruct (settle_ok s b Hs Eat) as (w' & -> & Hi). eexists. split; [done|exact Hi].
  - apply bool_decide_eq_true in Ha. destruct (resume_ok s Hs Ha) as (w' & -> & Hi). eexists. split; [done|exact Hi].
  - apply bool_decide_eq_true in Ha. destruct (draining_live s Hs) as [Hl _]; [by rewrite Ha|]. assert (steps_to s (given s) false lb_buf_opencb_cont) as (c & w' & -> & Hi); [|eexists; split; [done|exact Hi]].
    eapply (callback_ok s _ Loop (put_opened true)); [done|by left|done|done|intros h; by right|]. destruct (mem s). by rewrite bind_run, put_run.
  - apply bool_decide_eq_true in Ha. assert (steps_to s (given s) false lb_buf_opencb_cancel) as (c & w' & -> & Hi); [|eexists; split; [done|exact Hi]].
    eapply (callback_ok s _ (Settle false) id); [done|by left|done|done|intros h; by left|by destruct (mem s)].
  - apply andb_true_iff in Ha as [Ha%bool_decide_eq_true Hok]. destruct (readcb_ok s n data Hs Ha Hok) as (c & w' & -> & Hi). eexists. split; [done|]. destruct (0 <? n); exact Hi.
  - bool_to_prop. destruct (open_at s) eqn:Eo; try done. destruct (read_ok s n Hs ltac:(lia) ltac:(lia)) as (x & w' & -> & Hi & _). eexists. split; [done|]. rewrite Eo in Hi. exact Hi.
  - bool_to_prop. destruct (held_live s Hs ltac:(lia)) as [Hl _]. destruct (mem s) as [h o ir] eqn:Ew. cbn [obj outer inner_released] in *.
    unfold lb_buf_cancel_test. rewrite bind_run, get_run by done. eexists. split; [done|]. apply Htouch; try done; lia.
  - assert (0 < cef_refs s) as Hc by (apply (refs_calls s (inv_refs s Hs)); auto). destruct (held_live s Hs Hc) as [Hl _]. destruct (mem s) as [h o ir] eqn:Ew. cbn [obj outer inner_released] in *.
    unfold lb_buf_cancel_end. rewrite put_run by done. eexists. split; [done|]. apply Htouch; try done; by destruct h.
  - bool_to_prop. destruct (held_live s Hs ltac:(lia)) as [Hl Hr]. destruct Hs as [[R1 R2 R3 R4 R5] [F1 F2 F3] Hraw Hv]. destruct (mem s) as [h o ir] eqn:Ew. cbn [obj outer inner_released] in *.
    unfold lb_buf_add_ref. rewrite bind_run, get_run by done. cbn beta iota. rewrite put_run by done. rewrite i32_small by (destruct (draining (at_ s)); lia). eexists. split; [done|].
    clear Htouch Ew. destruct h. cbn in R1, R2, R5, F2, Hl, Hr. split; [split|split|by destruct Hraw|by destruct Hv]; cbn; try done; try lia.
    rewrite Hl. destruct (draining (at_ s)); destruct (Z.ltb_spec 0 (ref_count0 + 1)); done || lia.
  - assert (1 <= cef_refs s ∧ (cef_refs s = 1 → cancelling s = false ∧ open_at s ≠ Opening ∧ open_at s ≠ Ending)) as [Hc Hlast].
    { apply orb_true_iff in Ha as [Ha|Ha]; bool_to_prop; [lia|]. split; [lia|]. intros _. by destruct (open_at s), (cancelling s). }
    destruct (held_live s Hs ltac:(lia)) as [Hl Hr]. destruct Hs as [[R1 R2 R3 R4 R5] [F1 F2 F3] Hraw Hv]. rewrite release_run by done.
    destruct (Z.eqb_spec (ref_count (obj (mem s))) 1) as [E|E]; (eexists; split; [done|]);
      clear Htouch Ha; destruct (mem s) as [h o ir]; destruct h; cbn in R1, R2, R5, F2, F3, Hl, Hr, E |- *;
      (split; [split|split|by destruct Hraw|by destruct Hv]; cbn; try done; try (destruct (draining (at_ s)); lia)).
    + intros H. exfalso. destruct (Z.eq_dec (cef_refs s) 1) as [H1|H1]; [destruct (Hlast H1) as (Hx & Hy & Hz); destruct H as [?|[?|?]]; congruence|destruct (draining (at_ s)); lia].
    + by rewrite R5, Hl.
    + rewrite Hl. destruct (Z.ltb_spec 0 (ref_count0 - 1)); [done|lia].
    + intros H. destruct (Z.eq_dec (cef_refs s) 1) as [H1|H1]; [|lia]. destruct (Hlast H1) as (Hx & Hy & Hz). exfalso. destruct H as [?|[?|?]]; congruence.
Qed.

Lemma reachable_inv s : lb_reachable alloc patch_content s → inv s.
Proof. induction 1 as [|s e s' _ IH He Hstep]; [apply inv_start|]. destruct (step_inv e s IH He) as (s'' & E & Hi). congruence. Qed.
Lemma got_served s : inv s → served_data (obj (mem s)) ≠ None → ∃ d sz m, patch_content (drained (given s)) = Some (d, sz, m) ∧ served_data (obj (mem s)) = Some d ∧
  served_size (obj (mem s)) = sz ∧ got s = take (Z.to_nat (len (got s))) d ∧ len (got s) = pos (obj (mem s)) ∧ len (got s) <= sz.
Proof.
  intros [_ _ _ [V1 V2 V3 V4]] Hn. destruct V1 as [[]|[_ (d & m & Ep & Ed & Em)]]; [done|]. destruct (Hpatch _ _ _ _ Ep). exists d, (served_size (obj (mem s))), m.
  assert (len (got s) = pos (obj (mem s))) as E. { rewrite V4, Ed. cbn [default from_option]. change (id d) with d. unfold len in *. rewrite length_take. lia. }
  split_and!; try done; [|lia]. rewrite E, V4, Ed. done.
Qed.
End invariant.

(** ** Properties *)

(** C32: However the threads of the browser, of the client's handler and of the drain
    interleave, as long as each keeps to its part of the protocol: no call
    touches the object after it is freed, copies outside a buffer or calls a
    null callback; the object is alive exactly while the browser or the drain
    holds a reference and the client's handler is released exactly once, with
    it; the browser's callback is called at most once. *)
Theorem loopback_memory_safe alloc patch_content limit s e :
  limit <= MEM_MAX → (∀ n, alloc n = true → n <= limit) →
  (∀ d served size mime, patch_content d = Some (served, size, mime) → 0 <= size < 2 ^ 32 ∧ size <= len served) →
  lb_reachable alloc patch_content s → allowed e s = true →
  (∃ s', lb_step alloc patch_content e s = Ok s') ∧
  live (obj (mem s)) = (0 <? cef_refs s) || draining (at_ s) ∧
  inner_released (mem s) = (if live (obj (mem s)) then 0 else 1)%nat ∧ (length (outer (mem s)) <= 1)%nat.
Proof.
  intros Hl Ha Hp Hs He. pose proof (reachable_inv alloc patch_content limit Hl Ha Hp s Hs) as Hi.
  destruct (step_inv alloc patch_content limit Hl Ha Hp e s Hi He) as (s' & E & _). split; [by exists s'|].
  destruct Hi as [[R1 R2 R3 R4 R5] [F1 F2 F3] _ _]. split_and!; [|done|by destruct F3 as [->|[_ [c ->]]]; cbn; lia].
  rewrite R2, R1. destruct (draining (at_ s)); [rewrite orb_true_r|rewrite orb_false_r]; destruct (Z.ltb_spec 0 (cef_refs s)); lia.
Qed.

(** C33: When the proxy is ready it serves the patched form of exactly the bytes the
    client's handler delivered, in order and complete, however they came, in
    the call of [open] or through callbacks: what the browser has read is
    always a beginning of it, and a read that brings nothing although the
    browser asks for some means that all of it has been read. *)
Theorem loopback_serves_patched alloc patch_content limit s n :
  limit <= MEM_MAX → (∀ n, alloc n = true → n <= limit) →
  (∀ d served size mime, patch_content d = Some (served, size, mime) → 0 <= size < 2 ^ 32 ∧ size <= len served) →
  lb_reachable alloc patch_content s → state (obj (mem s)) = LB_READY → allowed (Read n) s = true →
  ∃ served size mime s', patch_content (drained (given s)) = Some (served, size, mime) ∧
    lb_step alloc patch_content (Read n) s = Ok s' ∧
    got s' = take (Z.to_nat (Z.min (len (got s) + n) size)) served ∧
    (0 < n → got s' = got s → got s = take (Z.to_nat size) served).
Proof.
  intros Hl Ha Hp Hs Hready He. pose proof (reachable_inv alloc patch_content limit Hl Ha Hp s Hs) as Hi. pose proof He as He'. cbn [allowed] in He. bool_to_prop.
  destruct (got_served patch_content Hp s Hi (served_ready _ _ _ _ _ (inv_served _ _ Hi) Hready)) as (d & sz & m & Ep & Ed & Esz & Eg & Epos & Hsz).
  destruct (read_ok patch_content Hp s n Hi ltac:(lia) ltac:(lia)) as (r & w' & Er & Hi' & Hr & Hd). unfold lb_step, perform. rewrite Er. exists d, sz, m. eexists. split; [done|]. split; [done|].
  destruct (got_served patch_content Hp _ Hi') as (d' & sz' & m' & Ep' & _ & _ & Eg' & _ & _); [cbn [mem]; by rewrite Hd, Ed|]. cbn [given got] in Ep', Eg'. rewrite Ep in Ep'. injection Ep' as <- <- <-.
  unfold receive. cbn [got given]. rewrite Esz, <- Epos in Hr. split; [rewrite Eg', len_app, Hr; f_equal; lia|].
  intros Hn Heq. apply (f_equal len) in Heq. rewrite len_app, Hr in Heq. rewrite Eg. f_equal. lia.
Qed.

Definition data_answer (d : bytes) : read_answer := ReadAnswer true (len d) d.
Definition end_answer : read_answer := ReadAnswer false 0 [].
Lemma iterate_run alloc a h o ir : live h = true → state h ≠ LB_CANCELLED → alloc LB_READ_CHUNK_SIZE = true →
  lb_buf_iterate alloc a (World h o ir) =
    (if rc a && (0 <? bytes_read a) then take_chunk alloc (chunk a) else
     if rc a && (bytes_read a =? 0) then mret AwaitRead else
     if negb (rc a) && (bytes_read a =? 0) then mret (Settle true) else mret (Settle false)) (World (put_chunk true h) o ir).
Proof.
  intros Hl Hst Ha. unfold lb_buf_iterate, unless_cancelled. rewrite bind_run, get_run by done. cbn beta iota. rewrite bool_decide_false by done. rewrite bind_run, get_run by done. cbn beta iota. rewrite bind_run.
  assert ((if read_chunk h then mret tt else if alloc LB_READ_CHUNK_SIZE then put (put_chunk true) else mret tt) (World h o ir) = (Ok tt, World (put_chunk true h) o ir)) as ->.
  { destruct (read_chunk h) eqn:E; [destruct h; cbn in *; by subst|]. by rewrite Ha, put_run. }
  cbn beta iota. rewrite bind_run, get_run by by destruct h. cbn beta iota. by assert (read_chunk (put_chunk true h) = true) as -> by by destruct h.
Qed.
Lemma drain_chunks alloc patch_content chunks g h o ir : Forall (λ d, 0 < len d <= LB_READ_CHUNK_SIZE) chunks →
  (∀ n, n <= Z.max 65536 (2 * (len g + len (concat chunks))) → alloc n = true) → (∀ n, alloc n = true → n <= MEM_MAX) →
  live h = true → state h = LB_DRAINING → raw_data h = non_null g → len g <= raw_cap h <= MEM_MAX → (raw_data h = None → raw_cap h = 0) →
  ∃ h', lb_buf_advance alloc patch_content Loop ((data_answer <$> chunks) ++ [end_answer]) (World h o ir) = (_ ← lb_buf_finish patch_content true; mret Done) (World h' o ir) ∧
    raw_data h' = non_null (g ++ concat chunks) ∧ ∃ cap, h' = put_raw (non_null (g ++ concat chunks)) cap (put_chunk true h).
Proof.
  intros Hc. revert g h. induction Hc as [|d chunks Hd _ IH]; intros g h Halloc Hmax Hl Hst Hg Hcap Hnull.
  - exists (put_raw (raw_data h) (raw_cap h) (put_chunk true h)). cbn [concat]. rewrite app_nil_r, Hg. split; [|split; [by destruct h|by exists (raw_cap h)]].
    cbn [fmap list_fmap app lb_buf_advance]. rewrite bind_run, iterate_run; [|done|by rewrite Hst|apply Halloc; unfold LB_READ_CHUNK_SIZE; lia].
    cbn [end_answer rc bytes_read andb negb Z.ltb Z.eqb Z.compare]. cbn [lb_buf_advance mret SM_ret]. do 2 f_equal. destruct h. cbn in *. by subst.
  - cbn [fmap list_fmap app lb_buf_advance]. pose proof (len_nonneg (concat chunks)). rewrite bind_run, iterate_run; [|done|by rewrite Hst|apply Halloc; unfold LB_READ_CHUNK_SIZE; lia].
    cbn [data_answer rc bytes_read chunk andb]. destruct (Z.ltb_spec 0 (len d)); [|lia]. unfold take_chunk. rewrite bind_run.
    cbn [concat] in *. rewrite len_app in Halloc.
    destruct (append_run alloc MEM_MAX ltac:(done) Hmax (put_chunk true h) g d o ir) as [[_ (k & Hk & Ek)]|(cap & Hcap' & ->)];
      [by destruct h|by destruct h|by destruct h|by destruct h|by destruct h|done|rewrite Halloc in Ek; [done|lia]|].
    cbn [mret SM_ret]. edestruct (IH (g ++ d) (put_raw (Some (g ++ d)) cap (put_chunk true h))) as (h' & E & Eraw & cap' & Eh); [| |by destruct h|by destruct h| |by destruct h|by destruct h|].
    + intros n Hn. apply Halloc. rewrite len_app in Hn. lia.
    + done.
    + rewrite len_pos_non_null by lia. by destruct h.
    + exists h'. rewrite <- app_assoc in *. split; [exact E|]. split; [done|]. exists cap'. rewrite Eh. by destruct h.
Qed.

Lemma read_run n d h o ir : live h = true → served_data h = Some d → 0 <= pos h <= served_size h → served_size h <= len d → served_size h < 2 ^ 32 → 0 <= n < 2 ^ 31 →
  let k := Z.min n (served_size h - pos h) in
  lb_buf_read n (World h o ir) = (Ok (take (Z.to_nat k) (drop (Z.to_nat (pos h)) d), 0 <? k), World (put_pos (pos h + k) h) o ir).
Proof.
  intros Hl Hd Hp Hz Hz' Hn k. unfold lb_buf_read. rewrite bind_run, get_run by done. cbn beta iota. rewrite bind_run, get_run by done. cbn beta iota. rewrite bind_run, get_run by done. cbn beta iota zeta.
  rewrite !u64_id by lia. replace (if n <? served_size h - pos h then n else served_size h - pos h) with k by (subst k; destruct (Z.ltb_spec n (served_size h - pos h)); lia).
  rewrite i32_small by lia. destruct (Z.ltb_spec 0 k).
  - rewrite Hd. unfold slice. destruct (Z.leb_spec 0 (pos h)); [|lia]. destruct (Z.leb_spec (pos h) (pos h + k)); [|lia]. destruct (Z.leb_spec (pos h + k) (len d)); [|lia]. cbn [andb].
    rewrite bind_run. unfold lift. rewrite bind_run, put_run by done. by replace (pos h + k - pos h) with k by lia.
  - replace k with 0 by lia. rewrite Z.add_0_r. by destruct h.
Qed.
Lemma read_all_run sizes d h o ir : live h = true → served_data h = Some d → 0 <= pos h <= served_size h → served_size h <= len d → served_size h < 2 ^ 32 → Forall (λ n, 0 <= n < 2 ^ 31) sizes →
  (read_all sizes (World h o ir)).1 = Ok (take (Z.to_nat (Z.min (foldr Z.add 0 sizes) (served_size h - pos h))) (drop (Z.to_nat (pos h)) d)).
Proof.
  intros Hl Hd Hp Hz Hz' Hs. revert h Hl Hd Hp Hz Hz'. induction Hs as [|n sizes Hn Hs IH]; intros h Hl Hd Hp Hz Hz'; cbn [read_all foldr].
  - by replace (Z.to_nat (Z.min 0 (served_size h - pos h))) with 0%nat by lia.
  - rewrite bind_run, (read_run n d) by done. set (k := Z.min n (served_size h - pos h)). cbn beta iota. rewrite bind_run.
    specialize (IH (put_pos (pos h + k) h)). assert (0 <= foldr Z.add 0 sizes) by (clear - Hs; induction Hs; cbn; lia).
    destruct (read_all sizes (World (put_pos (pos h + k) h) o ir)) as [r w']. cbn [fst] in IH. rewrite IH; [|by destruct h|by destruct h|destruct h; cbn in *; lia|by destruct h|by destruct h].
    cbn [fst mret SM_ret]. f_equal. replace (served_size (put_pos (pos h + k) h)) with (served_size h) by by destruct h. replace (pos (put_pos (pos h + k) h)) with (pos h + k) by by destruct h.
    replace (Z.min (n + foldr Z.add 0 sizes) (served_size h - pos h)) with (k + Z.min (foldr Z.add 0 sizes) (served_size h - (pos h + k))) by lia.
    rewrite (Z2Nat.inj_add k) by lia. rewrite <- take_take_drop, drop_drop. do 3 f_equal. lia.
Qed.

(** A resource the client's handler delivers in its own calls is served at
    once, with enough memory: [open] drains it to its end, however it is cut
    into chunks, says that the request is handled and makes no call of the
    browser's callback, gives back the drain's reference, and the browser's
    reads of any sizes return the patched content from its beginning. *)
Theorem loopback_completes alloc patch_content chunks served size mime sizes :
  Forall (λ d, 0 < len d <= LB_READ_CHUNK_SIZE) chunks → chunks ≠ [] → len (concat chunks) < 2 ^ 32 →
  (∀ n, n <= Z.max 65536 (2 * len (concat chunks)) → alloc n = true) → (∀ n, alloc n = true → n <= MEM_MAX) →
  patch_content (Some (concat chunks)) = Some (served, size, mime) → 0 <= size < 2 ^ 32 → size <= len served → Forall (λ n, 0 <= n < 2 ^ 31) sizes →
  let '(r, w) := lb_buf_open alloc patch_content OpenNow ((data_answer <$> chunks) ++ [end_answer]) create_proxy_buffered in
  r = Ok (Done, (true, true)) ∧ outer w = [] ∧ ref_count (obj w) = 1 ∧
  (read_all sizes w).1 = Ok (take (Z.to_nat (Z.min (foldr Z.add 0 sizes) size)) served).
Proof.
  intros Hc Hne Hlen Ha Hmax Hp Hsz Hserved Hsizes. unfold lb_buf_open. rewrite bind_run.
  assert (lb_buf_open_begin OpenNow create_proxy_buffered = (Ok Loop, World (LbBuf true 2 LB_DRAINING true true true false None 0 None 0 None 0) [] 0)) as -> by by vm_compute.
  cbn beta iota. rewrite bind_run. pose proof (len_nonneg (concat chunks)).
  destruct (drain_chunks alloc patch_content chunks [] (LbBuf true 2 LB_DRAINING true true true false None 0 None 0 None 0) [] 0 Hc) as (h' & E & _ & cap & Eh); try done.
  rewrite app_nil_l in Eh. assert (non_null (concat chunks) = Some (concat chunks)) as Hn.
  { destruct Hc as [|d ds Hd _]; [done|]. destruct d; [unfold len in Hd; cbn in Hd; lia|done]. }
  rewrite Hn in Eh. cbn in Eh. subst h'.
  rewrite E, bind_run. unfold lb_buf_finish. rewrite bind_run. unfold lb_buf_settle. rewrite !bind_run. rewrite get_run by done. cbn beta iota. cbn [raw_data fmap option_fmap option_map].
  rewrite u32_id by lia. rewrite take_ge by (unfold len; lia). rewrite Hp.
  match goal with |- let '(r, w) := ?X in _ => assert (X = (Ok (Done, (true, true)), World (LbBuf true 1 LB_READY false true true false None 0 (Some served) size (Some mime) 0) [] 0)) as -> by reflexivity end.
  split_and!; [done..|]. rewrite (read_all_run sizes served) by (done || (cbn; lia)). cbn [served_size pos]. by rewrite Z.sub_0_r.
Qed.

(** A run of events that are allowed. *)
Fixpoint lb_run (alloc : Z → bool) (patch_content : option bytes → option (bytes * Z * bytes)) (es : list event) (s : system) : option system :=
  match es with
  | [] => Some s
  | e :: es => if allowed e s then match lb_step alloc patch_content e s with Ok s => lb_run alloc patch_content es s | _ => None end else None
  end.
Lemma lb_run_reachable alloc patch_content es s s' : lb_reachable alloc patch_content s → lb_run alloc patch_content es s = Some s' → lb_reachable alloc patch_content s'.
Proof.
  revert s. induction es as [|e es IH]; intros s Hs; cbn [lb_run]; [by intros [= <-]|].
  destruct (allowed e s) eqn:Ha; [|done]. destruct (lb_step alloc patch_content e s) as [s1| | |] eqn:E; try done. apply IH. by eapply lb_reach_step.
Qed.

(** A patch that puts a mark before the content; it refuses a null buffer. *)
Definition demo_patch_content (d : option bytes) : option (bytes * Z * bytes) :=
  d ← d; let served := #"P:" ++ d in Some (served, u32 (len served), #"text/css").
Definition demo_alloc (n : Z) : bool := n <=? 2 ^ 40.
Lemma demo_patch_size d served size mime : demo_patch_content d = Some (served, size, mime) → 0 <= size < 2 ^ 32 ∧ size <= len served.
Proof.
  destruct d as [d|]; cbn; [|done]. intros [= <- <- <-]. split; [apply u32_range|]. unfold u32. apply Z.mod_le; [apply len_nonneg|done].
Qed.
(** The handler opens later and delivers its content through callbacks. *)
Definition demo_events : list event :=
  [Open OpenLater; OpenEnd; OpenReturn; OpenCbCont; Iterate (ReadAnswer true 0 []); ReadCbCont 3 #"abc"; Iterate (data_answer #"de"); Iterate end_answer; DoSettle; DoResume; Read 4].
Definition demo_run (es : list event) : system := default lb_start (lb_run demo_alloc demo_patch_content es lb_start).
Lemma demo_run_reachable es : lb_reachable demo_alloc demo_patch_content (demo_run es).
Proof. unfold demo_run. destruct (lb_run _ _ es lb_start) as [s|] eqn:E; [|apply lb_reach_start]. eapply lb_run_reachable; [apply lb_reach_start|exact E]. Qed.
Definition demo_ready : system := demo_run demo_events.

Lemma loopback_memory_safe_witness :
  (∃ s', lb_step demo_alloc demo_patch_content Release demo_ready = Ok s') ∧ live (obj (mem demo_ready)) = true ∧ outer (mem demo_ready) = [OuterCont].
Proof.
  split; [|by vm_compute]. apply (loopback_memory_safe demo_alloc demo_patch_content (2 ^ 40) demo_ready Release); [done|intros n; apply Z.leb_le|apply demo_patch_size|apply demo_run_reachable|by vm_compute].
Defined.

Lemma loopback_serves_patched_witness :
  got demo_ready = #"P:ab" ∧ ∃ s', lb_step demo_alloc demo_patch_content (Read 100) demo_ready = Ok s' ∧ got s' = #"P:abcde".
Proof.
  split; [by vm_compute|].
  destruct (loopback_serves_patched demo_alloc demo_patch_content (2 ^ 40) demo_ready 100) as (d & sz & m & s' & E1 & E2 & E3 & _); [done|intros n; apply Z.leb_le|apply demo_patch_size|apply demo_run_reachable|by vm_compute|by vm_compute|].
  exists s'. split; [done|]. rewrite E3. revert E1. vm_compute. by intros [= <- <- <-].
Defined.

Lemma loopback_completes_witness :
  (read_all [3; 2 ^ 20] (lb_buf_open (λ n, n <=? MEM_MAX) demo_patch_content OpenNow [data_answer #"ab"; data_answer #"c"; end_answer] create_proxy_buffered).2).1 = Ok #"P:abc".
Proof.
  pose proof (loopback_completes (λ n, n <=? MEM_MAX) demo_patch_content [ #"ab"; #"c"] #"P:abc" 5 #"text/css" [3; 2 ^ 20]) as H.
  change ((data_answer <$> [ #"ab"; #"c"]) ++ [end_answer]) with [data_answer #"ab"; data_answer #"c"; end_answer] in H.
  destruct (lb_buf_open _ _ _ _ _) as [r w]. cbn [snd]. apply H.
  - unfold LB_READ_CHUNK_SIZE, len. repeat constructor; cbn; lia.
  - done.
  - done.
  - intros n Hn. apply Z.leb_le. change (len (concat [ #"ab"; #"c"])) with 3 in Hn. unfold MEM_MAX. lia.
  - intros n. apply Z.leb_le.
  - done.
  - lia.
  - done.
  - apply Forall_cons_2; [lia|]. apply Forall_cons_2; [lia|constructor].
Defined.

(** ** Interleavings the code does not expect *)

(** The handler's callback runs on another thread before [open] has returned:
    the drain has settled, [open] sees it and says that the request is handled,
    and the drain sees that [open] has passed its synchronous phase and calls
    the browser's callback as well. *)
Theorem open_completed_twice : ∃ s, lb_reachable demo_alloc demo_patch_content s ∧ open_at s = Returned (true, true) ∧ outer (mem s) = [OuterCont].
Proof.
  exists (demo_run [Open OpenLater; OpenCbCont; Iterate (data_answer #"a"); Iterate end_answer; DoSettle; OpenEnd; OpenReturn; DoResume]).
  split; [apply demo_run_reachable|by vm_compute].
Qed.
(** The browser cancels between the last read and [lb_buf_finish]: its
    callback is called although it has cancelled. *)
Theorem callback_after_cancel : ∃ s s', lb_reachable demo_alloc demo_patch_content s ∧ cancelled s = true ∧ state (obj (mem s)) = LB_CANCELLED ∧ outer (mem s) = [] ∧
  lb_run demo_alloc demo_patch_content [DoSettle; DoResume] s = Some s' ∧ outer (mem s') = [OuterCont].
Proof.
  exists (demo_run [Open OpenLater; OpenEnd; OpenReturn; OpenCbCont; Iterate (data_answer #"a"); Iterate end_answer; CancelTest; CancelEnd]). eexists.
  split; [apply demo_run_reachable|]. split; [by vm_compute|]. split; [by vm_compute|]. split; [by vm_compute|]. split; [by vm_compute|by vm_compute].
Qed.
(** A request cancelled while the handler has it: the browser has given up its
    last reference, and only a callback of the handler, which was cancelled
    too, can still free the object. *)
Theorem cancelled_drain_keeps_object : ∃ s, lb_reachable demo_alloc demo_patch_content s ∧ cef_refs s = 0 ∧ live (obj (mem s)) = true ∧
  ∀ e, allowed e s = true → e = OpenCbCont ∨ e = OpenCbCancel.
Proof.
  exists (demo_run [Open OpenLater; OpenEnd; OpenReturn; CancelTest; CancelEnd; Release]).
  split; [apply demo_run_reachable|]. split; [by vm_compute|]. split; [by vm_compute|]. intros [a| | |a| | | | |n data|n| | | |]; vm_compute; intros Ha; try discriminate Ha; auto.
Qed.

(** ** The hooks of the browser's functions *)

(** A function pointer: one of the client's, or the hook that replaces it. *)
Inductive fn := Client (n : nat) | Hook.
#[export] Instance fn_eq : EqDecision fn.
Proof. solve_decision. Defined.
(** The globals of the module, and the fields it overwrites: of the clients
    ([get_request_handler]) and of the request handlers
    ([get_resource_request_handler]); [None] is null. *)
Record hooks := HookState {
  orig_c : option nat; original_get_request_handler : option fn; orig_get_resource : option fn;
  clients : gmap nat (option fn); handlers : gmap nat (option fn) }.
Definition hooks_new (cs hs : gmap nat nat) : hooks := HookState None None None (Some ∘ Client <$> cs) (Some ∘ Client <$> hs).
Definition field (m : gmap nat (option fn)) (i : option nat) : option fn := i ← i; x ← m !! i; x.

Definition tramp_cef_browser_host_create_browser (c : option nat) (g : hooks) : hooks :=
  match c, field (clients g) c, orig_c g with
  | Some i, Some f, None => HookState (Some i) (Some f) (orig_get_resource g) (<[i := Some Hook]> (clients g)) (handlers g)
  | _, _, _ => g
  end.
(** [handler]: what the original function returns. *)
Definition hooked_get_request_handler (handler : option nat) (g : hooks) : outcome (option nat * hooks) :=
  match original_get_request_handler g with
  | Some (Client _) =>
      match handler, field (handlers g) handler with
      | Some i, Some f =>
          Ok (handler, HookState (orig_c g) (original_get_request_handler g) (Some (default f (orig_get_resource g))) (clients g) (<[i := Some Hook]> (handlers g)))
      | _, _ => Ok (handler, g)
      end
  | Some Hook => NoFuel
  | None => UB
  end.
(** Which function of the client a request of handler [i] reaches; [NoFuel] if
    the hook would call itself. *)
Definition hooked_get_resource (g : hooks) : outcome nat :=
  match orig_get_resource g with Some (Client n) => Ok n | Some Hook => NoFuel | None => UB end.
Definition get_resource (i : nat) (g : hooks) : option (outcome nat) :=
  match field (handlers g) (Some i) with
  | Some (Client n) => Some (Ok n)
  | Some Hook => Some (hooked_get_resource g)
  | None => None
  end.

(** Who serves a request: the browser's own loader, or a proxy. *)
Inductive served_by := Chromium | Buffered | Passthrough.
(** [inner]: the client's request handler, if there is one, and whether it has
    a handler for the resource. *)
Definition lb_get_resource_hdl (lb_url_is_patchable : bytes → bool) (url : bytes) (inner : option bool) : served_by :=
  match inner with
  | Some true => if lb_url_is_patchable url then Buffered else Passthrough
  | _ => Chromium
  end.

Inductive hooks_reachable (cs hs : gmap nat nat) : hooks → Prop :=
  | hooks_start : hooks_reachable cs hs (hooks_new cs hs)
  | hooks_browser g c : hooks_reachable cs hs g → hooks_reachable cs hs (tramp_cef_browser_host_create_browser c g)
  | hooks_handler g i handler g' : hooks_reachable cs hs g → field (clients g) (Some i) = Some Hook →
      hooked_get_request_handler handler g = Ok (handler, g') → hooks_reachable cs hs g'.

(** The saved functions are the client's, and saved before a field is hooked. *)
Record hooks_ok (g : hooks) : Prop := {
  saved_handler : ∀ f, original_get_request_handler g = Some f → ∃ n, f = Client n;
  saved_resource : ∀ f, orig_get_resource g = Some f → ∃ n, f = Client n;
  hooked_clients : ∀ i, clients g !! i = Some (Some Hook) → is_Some (original_get_request_handler g) ∧ orig_c g = Some i;
  hooked_handlers : ∀ i, handlers g !! i = Some (Some Hook) → is_Some (orig_get_resource g) }.
Lemma hooks_invariant cs hs g : hooks_reachable cs hs g → hooks_ok g.
Proof.
  induction 1 as [|g c Hr [S1 S2 H1 H2]|g i handler g' Hr [S1 S2 H1 H2] Hi E].
  - split; try done; intros i; cbn; rewrite lookup_fmap; [by destruct (cs !! i)|by destruct (hs !! i)].
  - unfold tramp_cef_browser_host_create_browser. pose proof (Build_hooks_ok g S1 S2 H1 H2) as Hok. destruct c as [i|]; [|done]. destruct (field (clients g) (Some i)) as [f|] eqn:Ef; [|done]. destruct (orig_c g) eqn:Eo; [done|].
    cbn in Ef. destruct (clients g !! i) as [x|] eqn:Ei; [|done]. cbn in Ef. subst x. split; cbn; try done.
    + intros f' [= <-]. destruct f; [eauto|]. destruct (H1 i Ei). congruence.
    + intros j [[-> _]|[Hne Hj]]%lookup_insert_Some; [eauto|]. destruct (H1 j Hj). congruence.
  - pose proof (Build_hooks_ok g S1 S2 H1 H2) as Hok. unfold hooked_get_request_handler in E. destruct (original_get_request_handler g) as [[n|]|] eqn:Eg; try done.
    destruct handler as [j|]; [|by injection E as <-].
    destruct (field (handlers g) (Some j)) as [f|] eqn:Ef; [|by injection E as <-]. cbn in Ef. destruct (handlers g !! j) as [x|] eqn:Ej; [|done]. cbn in Ef. subst x.
    injection E as <-. split; cbn; try done.
    + intros f' [= <-]. destruct (orig_get_resource g) as [f'|] eqn:Eo; cbn; [by apply S2|]. destruct f; [eauto|]. destruct (H2 j Ej). congruence.
Qed.
(** Whatever browsers and handlers the client makes, a hooked function always
    reaches one of the client's: it never calls itself or a null pointer. *)
Theorem hooks_reach_client cs hs g i : hooks_reachable cs hs g → ∀ o, get_resource i g = Some o → ∃ n, o = Ok n.
Proof.
  intros [S1 S2 H1 H2]%hooks_invariant o. unfold get_resource, field. cbn. destruct (handlers g !! i) as [[[n|]|]|] eqn:E; cbn; try done; [intros [= <-]; eauto|].
  intros [= <-]. unfold hooked_get_resource. destruct (H2 i E) as [f Hf]. rewrite Hf. destruct (S2 f Hf) as [n ->]. eauto.
Qed.
(** Only the first handler's function is kept: the requests of a second handler
    with a function of its own go to the first one's. *)
Theorem second_handler_loses_its_function :
  let g0 := tramp_cef_browser_host_create_browser (Some 0%nat) (hooks_new {[0%nat := 5%nat]} {[1%nat := 10%nat; 2%nat := 20%nat]}) in
  ∃ g1 g2, hooked_get_request_handler (Some 1%nat) g0 = Ok (Some 1%nat, g1) ∧ hooked_get_request_handler (Some 2%nat) g1 = Ok (Some 2%nat, g2) ∧
    get_resource 2 g1 = Some (Ok 20%nat) ∧ get_resource 2 g2 = Some (Ok 10%nat).
Proof. do 2 eexists. split; [by vm_compute|]. split; [by vm_compute|]. by vm_compute. Qed.
