(* ===== verification/Files.v ===== *)
(** * Files: directories, files and archives

    The part of the file system the installers work on: a tree of directories
    and files without links, names of files as the system resolves them, the
    calls of [std::filesystem] the code makes, and the extraction of archives
    ([util/zip.cc]).

    A call can fail.  The disk holds the failures to come: one for each call
    that can fail, [None] for success; a failure says which paths the call had
    already changed when it gave up. *)

From stdpp Require Import sorting.
From S2P Require Import Prelude State.

(** ** Paths *)

Fixpoint split_slash (s acc : bytes) : list bytes :=
  match s with
  | [] => [acc]
  | c :: s => if beqb c "/" then acc :: split_slash s [] else split_slash s (acc ++ [c])
  end.
(** A name that stays in its directory. *)
Definition plain (part : bytes) : Prop := part ≠ [] ∧ part ≠ #"." ∧ part ≠ #".." ∧ Forall (λ c, c ≠ "/"%byte) part.
Lemma split_slash_plain s acc : Forall (λ c, c ≠ "/"%byte) acc → Forall (Forall (λ c, c ≠ "/"%byte)) (split_slash s acc).
Proof.
  revert acc. induction s as [|c s IH]; intros acc Ha; cbn [split_slash]; [by repeat constructor|]. destruct (beqb_spec c "/"); [constructor; [done|]; apply IH; constructor|].
  apply IH. apply Forall_app. split; [done|]. by repeat constructor.
Qed.

Abbreviation path := (list bytes).
Definition up (p : path) : path := take (length p - 1) p.
Definition walk (p : path) (part : bytes) : path :=
  if bytes_eqb part [] || bytes_eqb part #"." then p else if bytes_eqb part #".." then up p else p ++ [part].
(** [base / s] as the system resolves it. *)
Definition resolve (base : path) (s : bytes) : path :=
  foldl walk (match s with "/"%byte :: _ => [] | _ => base end) (split_slash s []).
Definition under (p q : path) : bool := bool_decide (p `prefix_of` q).

Lemma split_slash_one s acc : Forall (λ c, c ≠ "/"%byte) s → split_slash s acc = [acc ++ s].
Proof.
  revert acc. induction s as [|c s IH]; intros acc Hs; cbn [split_slash]; [by rewrite app_nil_r|]. apply Forall_cons in Hs as [Hc Hs].
  destruct (beqb_spec c "/"); [done|]. rewrite IH by done. by rewrite <- app_assoc.
Qed.
Lemma resolve_plain base s : plain s → resolve base s = base ++ [s].
Proof.
  intros (Hn & Hd & Hdd & Hf). unfold resolve. rewrite split_slash_one by done. cbn [foldl app]. unfold walk.
  apply bytes_eqb_false in Hn, Hd, Hdd. rewrite Hn, Hd, Hdd. cbn [orb]. apply bytes_eqb_false in Hn. destruct s as [|c s]; [done|]. apply Forall_cons in Hf as [Hc _]. by destruct c.
Qed.

(** ** The disk *)

Inductive node := NDir | NFile (content : bytes).
#[export] Instance node_eq : EqDecision node.
Proof. solve_decision. Defined.
Abbreviation tree := (gmap path node).
Definition failure := option (path → bool).
Record disk := Disk { fs : tree; faults : list failure }.
Abbreviation M := (SM disk).
Definition fs_error : bytes := #"filesystem error".

(** The outcome of the next call. *)
Definition next_fault : M failure := λ d,
  match faults d with [] => (Ok None, d) | f :: l => (Ok f, Disk (fs d) l) end.
Definition set_fs (f : tree → tree) : M () := modify (λ d, Disk (f (fs d)) (faults d)).
(** Drops what is below [p] and selected. *)
Definition cut (p : path) (sel : path → bool) (t : tree) : tree := filter (λ e, under p e.1 && sel e.1 = false) t.

Definition exists_ (p : path) : M bool :=
  f ← next_fault;
  match f with Some _ => lift (Throw fs_error) | None => gets (λ d, bool_decide (is_Some (fs d !! p))) end.
Definition is_dir (t : tree) (p : path) : bool := match t !! p with Some NDir => true | _ => false end.
(** Whether a call with an error code succeeded. *)
Definition remove_all_ec (p : path) : M bool :=
  f ← next_fault;
  match f with
  | Some sel => _ ← set_fs (cut p sel); mret false
  | None => _ ← set_fs (cut p (λ _, true)); mret true
  end.
Definition or_throw (m : M bool) : M () := ok ← m; if (ok : bool) then mret tt else lift (Throw fs_error).
Definition remove_all (p : path) : M () := or_throw (remove_all_ec p).
(** [remove]: a file, or nothing. *)
Definition remove_file (p : path) : M () :=
  f ← next_fault;
  match f with Some _ => lift (Throw fs_error) | None => set_fs (delete p) end.
(** Every directory on the way that is missing. *)
Fixpoint make_dirs (done todo : path) (t : tree) : option tree :=
  match t !! done with
  | Some (NFile _) => None
  | _ =>
      let t := match t !! done with None => <[done := NDir]> t | _ => t end in
      match todo with [] => Some t | n :: todo => make_dirs (done ++ [n]) todo t end
  end.
Definition create_directories (p : path) : M () :=
  f ← next_fault;
  match f with
  | Some _ => lift (Throw fs_error)
  | None => d ← gets fs; match make_dirs [] p d with Some t => set_fs (λ _, t) | None => lift (Throw fs_error) end
  end.
(** The place of [q], which is below [a], below [b]. *)
Definition moved (a b q : path) : path := b ++ drop (length a) q.
Definition graft (a b : path) (t : tree) : list (path * node) := (λ e, (moved a b e.1, e.2)) <$> filter (λ e, under a e.1 = true) (map_to_list t).
(** [rename] with an error code: the target must not exist, or be a file when
    the source is one, and its directory must. *)
Definition rename_ec (a b : path) : M bool :=
  f ← next_fault;
  t ← gets fs;
  let free := match t !! b, t !! a with None, Some _ => true | Some (NFile _), Some (NFile _) => true | _, _ => false end in
  match f with
  | None => if free && is_dir t (up b) && negb (under a b)
            then _ ← set_fs (λ t, list_to_map (graft a b t) ∪ cut b (λ _, true) (cut a (λ _, true) t)); mret true
            else mret false
  | Some _ => mret false
  end.
Definition rename (a b : path) : M () := or_throw (rename_ec a b).
(** A file is written completely, or not at all, or left empty. *)
Definition write_file (p : path) (content : bytes) : M bool :=
  f ← next_fault;
  t ← gets fs;
  if negb (is_dir t (up p)) || is_dir t p then mret false else
  match (f : failure) with
  | None => _ ← set_fs (insert p (NFile content)); mret true
  | Some sel => _ ← (if sel p then set_fs (insert p (NFile [])) else mret tt); mret false
  end.
(** Opened for writing, and so emptied. *)
Definition open_file (p : path) : M bool :=
  f ← next_fault;
  t ← gets fs;
  if negb (is_dir t (up p)) || is_dir t p || bool_decide (is_Some (f : failure)) then mret false else
  _ ← set_fs (insert p (NFile [])); mret true.
Definition read_file (p : path) : M (option bytes) :=
  f ← next_fault;
  match f with Some _ => mret None | None => gets (λ d, match fs d !! p with Some (NFile c) => Some c | _ => None end) end.
(** [copy_file] with [overwrite_existing] *)
Definition copy_file (content : bytes) (p : path) : M () := or_throw (write_file p content).
(** What is in a directory, in some order. *)
Definition children (t : tree) (p : path) : list (path * node) := filter (λ e, up e.1 = p ∧ e.1 ≠ p) (map_to_list t).
Definition list_dir (p : path) : M (list (path * node)) :=
  f ← next_fault;
  t ← gets fs;
  match f with None => if is_dir t p then mret (children t p) else lift (Throw fs_error) | Some _ => lift (Throw fs_error) end.
(** What is below a directory, parents before children. *)
Definition shorter (a b : path * node) : Prop := (length a.1 <= length b.1)%nat.
#[export] Instance shorter_dec a b : Decision (shorter a b).
Proof. unfold shorter. apply _. Defined.
Definition below (t : tree) (p : path) : list (path * node) := merge_sort shorter (filter (λ e, under p e.1 = true ∧ e.1 ≠ p) (map_to_list t)).
Definition list_below (p : path) : M (list (path * node)) :=
  f ← next_fault;
  t ← gets fs;
  match f with None => if is_dir t p then mret (below t p) else lift (Throw fs_error) | Some _ => lift (Throw fs_error) end.

(** [copy] with [recursive] and [overwrite_existing] and an error code, or entry
    by entry. *)
Definition copy_entry (a b : path) (e : path * node) : M () :=
  match e.2 with NDir => create_directories (moved a b e.1) | NFile c => copy_file c (moved a b e.1) end.
Definition copy_tree (a b : path) : M () := es ← list_below a; for_each (copy_entry a b) es.
Definition copy_ec (a b : path) : M bool := catching (_ ← copy_tree a b; mret true) (λ _, mret false).
(** [platform::remove_directory]: twice, with the permissions changed in
    between. *)
Definition remove_directory (p : path) : M bool :=
  there ← exists_ p;
  if negb there then mret true else
  ok ← remove_all_ec p;
  if (ok : bool) then mret true else remove_all_ec p.

(** [remove] with an error code: a file or an empty directory. *)
Definition remove_ec (p : path) : M () :=
  f ← next_fault;
  t ← gets fs;
  match (f : failure) with
  | None => if is_dir t p && negb (bool_decide (children t p = [])) then mret tt else set_fs (delete p)
  | Some _ => mret tt
  end.
(** [collectPaths]: the files and the directories below; a directory that cannot
    be listed counts as empty. *)
Definition visit (sub : path → M (list path * list path)) (e : path * node) : M (list path * list path) :=
  match e.2 with NDir => x ← sub e.1; mret (x.1, x.2 ++ [e.1]) | NFile _ => mret ([e.1], []) end.
Fixpoint collect_entries (sub : path → M (list path * list path)) (es : list (path * node)) : M (list path * list path) :=
  match es with
  | [] => mret ([], [])
  | e :: es =>
      r ← visit sub e;
      rest ← collect_entries sub es;
      mret (r.1 ++ rest.1, r.2 ++ rest.2)
  end.
Fixpoint collect_paths (fuel : nat) (current : path) : M (list path * list path) :=
  match fuel with
  | O => lift NoFuel
  | S fuel =>
      f ← next_fault;
      t ← gets fs;
      collect_entries (collect_paths fuel) (match (f : failure) with None => if is_dir t current then children t current else [] | Some _ => [] end)
  end.
Definition deeper (a b : path) : Prop := (length b <= length a)%nat.
#[export] Instance deeper_dec a b : Decision (deeper a b).
Proof. unfold deeper. apply _. Defined.
(** No path of the tree is longer. *)
Definition depth (t : tree) : nat := max_list (length ∘ fst <$> map_to_list t).
(** [platform::safe_remove_directory] *)
Definition safe_remove_directory (root : path) : M () :=
  t ← gets fs;
  ps ← collect_paths (2 + depth t) root;
  _ ← for_each remove_ec ps.1;
  _ ← for_each remove_ec (merge_sort deeper ps.2);
  remove_ec root.

(** ** Archives: [util/zip.cc] *)

(** An entry: its name and, for a file, what it unpacks to, if it does. *)
Record entry := Entry { e_name : bytes; e_data : option bytes }.
Definition is_dir_name (name : bytes) : outcome bool :=
  match last name with Some c => Ok (beqb c "/") | None => UB end.
Fixpoint drop_slashes (s : bytes) : bytes := match s with c :: s' => if beqb c "/" then drop_slashes s' else s | [] => [] end.
(** [parent_path()] below the directory extracted to. *)
Definition parent_name (name : bytes) : bytes :=
  match rfind_char "/"%byte name with Some i => reverse (drop_slashes (reverse (take i name))) | None => [] end.
Definition out_path (dest : path) (name : bytes) : path := resolve dest (#"./" ++ name).
(** [created_dirs]: a directory is made the first time its name turns up. *)
Definition make_once (dest : path) (name : bytes) (created : list bytes) : M (list bytes) :=
  if bool_decide (name ∈ created) then mret created else _ ← create_directories (out_path dest name); mret (name :: created).
Definition extract_entry (dest : path) (e : entry) (created : list bytes) : M (list bytes) :=
  d ← lift (is_dir_name (e_name e));
  if (d : bool) then make_once dest (e_name e) created
  else
    created ← make_once dest (parent_name (e_name e)) created;
    match e_data e with
    | Some c => _ ← write_file (out_path dest (e_name e)) c; mret created
    | None => mret created
    end.
Fixpoint extract_entries (dest : path) (es : list entry) (created : list bytes) : M () :=
  match es with
  | [] => mret tt
  | e :: es => created ← extract_entry dest e created; extract_entries dest es created
  end.
(** [unzip]: the entries of an archive and whether its list is complete, if it
    can be opened. *)
Definition ExtractZipArchive (unzip : bytes → option (list entry * bool)) (zip dest : path) : M bool :=
  c ← read_file zip;
  match c ≫= unzip with
  | None => mret false
  | Some (es, complete) =>
      _ ← create_directories dest;
      _ ← extract_entries dest es [];
      mret complete
  end.

(** ** What the calls leave alone *)

(** [q] is neither below [p] nor on the way to it. *)
Definition apart (p q : path) : Prop := ¬ p `prefix_of` q ∧ ¬ q `prefix_of` p.
(** Two disks that agree apart from what is at the places [X]. *)
Definition outside (X : list path) (d d' : disk) : Prop := ∀ q, Forall (λ p, apart p q) X → fs d' !! q = fs d !! q.
#[export] Instance outside_preorder X : PreOrder (outside X).
Proof. split; [by intros d q|]. intros d1 d2 d3 H1 H2 q Hq. by rewrite (H2 q Hq), (H1 q Hq). Qed.
Definition within (X : list path) (p : path) : Prop := ∃ x, x ∈ X ∧ x `prefix_of` p.

Section frame.
  Variable X : list path.
Lemma within_apart p q : within X p → Forall (λ p, apart p q) X → apart p q.
Proof.
  intros (x & Hx & Hp) Hq. rewrite Forall_forall in Hq. destruct (Hq x Hx) as [H1 H2]. split; intros H.
  - apply H1. by etrans.
  - destruct (prefix_weak_total x q p Hp H); done.
Qed.
Lemma within_app p r : within X p → within X (p ++ r).
Proof. intros (x & Hx & Hp). exists x. split; [done|]. etrans; [exact Hp|]. by eexists. Qed.
Lemma steps_fault : steps (outside X) next_fault.
Proof. intros d _ q _. unfold next_fault. by destruct (faults d). Qed.
Lemma steps_fs f : (∀ t q, Forall (λ p, apart p q) X → f t !! q = t !! q) → steps (outside X) (set_fs f).
Proof. intros Hf d _ q Hq. cbn. by apply Hf. Qed.
Lemma cut_apart p sel t q : within X p → Forall (λ p, apart p q) X → cut p sel t !! q = t !! q.
Proof.
  intros Hp Hq. destruct (within_apart p q Hp Hq) as [Hn _]. unfold cut. destruct (t !! q) as [n|] eqn:E.
  - apply map_lookup_filter_Some. split; [done|]. cbn. unfold under. by rewrite bool_decide_false.
  - apply map_lookup_filter_None. by left.
Qed.
Lemma insert_apart (p q : path) (n : node) (t : tree) : within X p → Forall (λ p, apart p q) X → <[p := n]> t !! q = t !! q.
Proof. intros Hp Hq. destruct (within_apart p q Hp Hq) as [Hn _]. apply lookup_insert_ne. intros <-. by apply Hn. Qed.

#[local] Hint Resolve steps_fault : steps.
Lemma steps_exists p : steps (outside X) (exists_ p).
Proof. unfold exists_. steps. Qed.
Lemma steps_read p : steps (outside X) (read_file p).
Proof. unfold read_file. steps. Qed.
Lemma steps_list_dir p : steps (outside X) (list_dir p).
Proof. unfold list_dir. steps. Qed.
Lemma steps_list_below p : steps (outside X) (list_below p).
Proof. unfold list_below. steps. Qed.
Lemma steps_remove_all_ec p : within X p → steps (outside X) (remove_all_ec p).
Proof. intros Hp. unfold remove_all_ec. steps; apply steps_fs; intros; by apply cut_apart. Qed.
Lemma steps_or_throw m : steps (outside X) m → steps (outside X) (or_throw m).
Proof. intros Hm. unfold or_throw. steps. Qed.
Lemma steps_remove_file p : within X p → steps (outside X) (remove_file p).
Proof. intros Hp. unfold remove_file. steps. apply steps_fs. intros t q Hq. apply lookup_delete_ne. intros <-. by destruct (within_apart p p Hp Hq) as [[]]. Qed.
Lemma make_dirs_apart done todo t t' q : make_dirs done todo t = Some t' → ¬ q `prefix_of` (done ++ todo) → t' !! q = t !! q.
Proof.
  revert done t. induction todo as [|n todo IH]; intros done t; cbn [make_dirs].
  - rewrite app_nil_r. destruct (t !! done) as [[]|]; try done; intros [= <-] Hq; [done|]. apply lookup_insert_ne. intros <-. by apply Hq.
  - assert (¬ q `prefix_of` done ++ n :: todo → q ≠ done) as Hne by (intros Hq ->; apply Hq; by eexists).
    destruct (t !! done) as [[]|] eqn:E; try done; intros Hm Hq; (rewrite (IH _ _ Hm); [|by rewrite <- app_assoc]); [done|]. apply lookup_insert_ne. symmetry. auto.
Qed.
Lemma steps_create_directories p : within X p → steps (outside X) (create_directories p).
Proof.
  intros Hp d Hd q Hq. destruct (within_apart p q Hp Hq) as [_ Hn]. revert Hd. unfold create_directories. rewrite bind_run. unfold next_fault.
  assert (∀ d1, fs d1 = fs d → fs ((d0 ← gets fs; match make_dirs [] p d0 with Some t => set_fs (λ _, t) | None => lift (Throw fs_error) end) d1).2 !! q = fs d !! q) as H.
  { intros d1 E. rewrite bind_run. cbn [gets]. rewrite E. destruct (make_dirs [] p (fs d)) as [t|] eqn:Em; cbn; [|by rewrite E]. by apply (make_dirs_apart _ _ _ _ _ Em). }
  destruct (faults d) as [|[sel|] l]; intros _; [by apply H|done|by apply H].
Qed.
Lemma steps_rename_ec a b : within X a → within X b → steps (outside X) (rename_ec a b).
Proof.
  intros Ha Hb. unfold rename_ec. steps. apply steps_fs. intros t q Hq. rewrite lookup_union_r; [by rewrite !cut_apart|].
  apply not_elem_of_list_to_map_1. intros (e & -> & (e0 & -> & _)%list_elem_of_fmap)%list_elem_of_fmap. cbn in Hq.
  destruct (within_apart _ _ (within_app b (drop (length a) e0.1) Hb) Hq) as [[] _]. done.
Qed.
Lemma steps_write p c : within X p → steps (outside X) (write_file p c).
Proof. intros Hp. unfold write_file. steps; apply steps_fs; intros; by apply insert_apart. Qed.
Lemma steps_copy_tree a b : within X b → steps (outside X) (copy_tree a b).
Proof.
  intros Hb. unfold copy_tree. apply steps_bind; [apply _|apply steps_list_below|]. intros es. apply steps_for_each; [apply _|]. intros [q n]. unfold copy_entry, copy_file. cbn.
  destruct n; [apply steps_create_directories|apply steps_or_throw, steps_write]; by apply within_app.
Qed.
Lemma steps_copy_ec a b : within X b → steps (outside X) (copy_ec a b).
Proof. intros Hb. unfold copy_ec. apply steps_catching; [apply _| |intros; apply steps_ret, _]. apply steps_bind; [apply _|by apply steps_copy_tree|intros; apply steps_ret, _]. Qed.
Lemma steps_remove_directory p : within X p → steps (outside X) (remove_directory p).
Proof. intros Hp. unfold remove_directory. pose proof (steps_exists p). pose proof (steps_remove_all_ec p Hp). steps. Qed.
Lemma steps_open p : within X p → steps (outside X) (open_file p).
Proof. intros Hp. unfold open_file. steps; apply steps_fs; intros; by apply insert_apart. Qed.
Lemma steps_remove_ec p : within X p → steps (outside X) (remove_ec p).
Proof. intros Hp. unfold remove_ec. steps. apply steps_fs. intros t q Hq. apply lookup_delete_ne. intros <-. by destruct (within_apart p p Hp Hq) as [[]]. Qed.
(** An archive none of whose names leads out of the directory. *)
Definition stays (dest : path) (e : entry) : Prop := dest `prefix_of` out_path dest (e_name e) ∧ dest `prefix_of` out_path dest (parent_name (e_name e)).
Lemma steps_extract unzip zip dest : within X dest → (∀ c es b, unzip c = Some (es, b) → Forall (stays dest) es) → steps (outside X) (ExtractZipArchive unzip zip dest).
Proof.
  intros Hd Hz. unfold ExtractZipArchive. apply steps_bind; [apply _|apply steps_read|]. intros [c|]; cbn [mbind option_bind]; [|apply steps_ret, _].
  destruct (unzip c) as [[es b]|] eqn:E; [|apply steps_ret, _]. specialize (Hz c es b E). apply steps_bind; [apply _|by apply steps_create_directories|]. intros _.
  apply steps_bind; [apply _| |intros; apply steps_ret, _]. assert (∀ p, dest `prefix_of` p → within X p) as Hw.
  { intros p [r ->]. by apply within_app. }
  clear E. generalize (@nil bytes). induction Hz as [|e es [H1 H2] _ IH]; intros created; cbn [extract_entries]; [apply steps_ret, _|]. apply steps_bind; [apply _| |done].
  pose proof (steps_create_directories _ (Hw _ H1)). pose proof (steps_create_directories _ (Hw _ H2)). pose proof (λ c, steps_write _ c (Hw _ H1)). unfold extract_entry, make_once. steps.
Qed.
End frame.

(** ** Removing a directory entry by entry *)

(** What is on the disk is in a directory. *)
Definition wf_tree (t : tree) : Prop := ∀ p n, is_Some (t !! (p ++ [n])) → t !! p = Some NDir.
Definition is_file (t : tree) (p : path) : bool := match t !! p with Some (NFile _) => true | _ => false end.
Definition strictly (p q : path) : Prop := ∃ n r, q = p ++ n :: r.
(** The files and directories below [p]. *)
Definition found (t : tree) (p : path) (ps : list path * list path) : Prop :=
  (∀ q, q ∈ ps.1 ↔ strictly p q ∧ is_file t q = true) ∧ (∀ q, q ∈ ps.2 ↔ strictly p q ∧ is_dir t q = true).

Lemma up_snoc p n : up (p ++ [n]) = p.
Proof. unfold up. rewrite length_app. cbn [length]. replace (length p + 1 - 1)%nat with (length p) by lia. apply take_app_length. Qed.
Lemma children_spec t p q n : (q, n) ∈ children t p ↔ t !! q = Some n ∧ ∃ x, q = p ++ [x].
Proof.
  unfold children. rewrite list_elem_of_filter, elem_of_map_to_list. cbn [fst snd]. split.
  - intros [[H1 Hn] H2]. split; [done|]. destruct q as [|x q] using rev_ind; [done|]. rewrite up_snoc in H1. exists x. by subst.
  - intros [H2 [x ->]]. rewrite up_snoc. split; [|done]. split; [done|]. intros E. apply (f_equal length) in E. rewrite length_app in E. cbn in E. lia.
Qed.
Lemma wf_tree_below t p n r : wf_tree t → is_Some (t !! (p ++ n :: r)) → is_Some (t !! (p ++ [n])) ∧ t !! p = Some NDir ∧ (r ≠ [] → t !! (p ++ [n]) = Some NDir).
Proof.
  intros Hw. revert n p. induction r as [|m r IH]; intros n p Hq; [split; [done|]; split; [by apply (Hw _ n)|done]|].
  destruct (IH m (p ++ [n])) as (_ & Hd & _); [by rewrite <- app_assoc|]. rewrite Hd. split; [by eexists|]. split; [|done]. apply (Hw _ n). by rewrite Hd.
Qed.
Lemma depth_le t q n : t !! q = Some n → (length q <= depth t)%nat.
Proof. intros H. unfold depth. apply max_list_elem_of_le. apply list_elem_of_fmap. exists (q, n). split; [done|]. by apply elem_of_map_to_list. Qed.

Lemma collect_entries_found t sub es :
  (∀ q, (q, NDir) ∈ es → ∃ ps, sub q (Disk t []) = (Ok ps, Disk t []) ∧ found t q ps) →
  ∃ ps, collect_entries sub es (Disk t []) = (Ok ps, Disk t []) ∧
    (∀ q, q ∈ ps.1 ↔ ∃ p n, (p, n) ∈ es ∧ match n with NFile _ => q = p | NDir => strictly p q ∧ is_file t q = true end) ∧
    (∀ q, q ∈ ps.2 ↔ ∃ p n, (p, n) ∈ es ∧ match n with NFile _ => False | NDir => q = p ∨ strictly p q ∧ is_dir t q = true end).
Proof.
  induction es as [|[p n] es IH]; intros Hs; cbn [collect_entries].
  { exists ([], []). split; [done|]. split; intros q; cbn [fst snd]; set_solver. }
  destruct IH as ((fl & dl) & E & Hf & Hd); [intros q Hq; apply Hs; by right|]. cbn [fst snd] in *.
  assert (∃ f1 d1, visit sub (p, n) (Disk t []) = (Ok (f1, d1), Disk t []) ∧
    (∀ q, q ∈ f1 ↔ match n with NFile _ => q = p | NDir => strictly p q ∧ is_file t q = true end) ∧
    (∀ q, q ∈ d1 ↔ match n with NFile _ => False | NDir => q = p ∨ strictly p q ∧ is_dir t q = true end)) as (f1 & d1 & E1 & Hf1 & Hd1).
  { destruct n as [|c].
    - destruct (Hs p) as ([f1 d1] & E1 & H1 & H2); [by left|]. exists f1, (d1 ++ [p]). unfold visit. cbn [fst snd]. rewrite bind_run, E1. split; [done|]. split; [done|]. intros q. rewrite elem_of_app, list_elem_of_singleton, (H2 q). tauto.
    - exists [p], []. split; [done|]. split; intros q; [by rewrite list_elem_of_singleton|]. by rewrite elem_of_nil. }
  exists (f1 ++ fl, d1 ++ dl). rewrite bind_run, E1, bind_run, E. split; [done|]. cbn [fst snd].
  split; intros q; rewrite elem_of_app; [rewrite Hf1, Hf|rewrite Hd1, Hd]; setoid_rewrite elem_of_cons; naive_solver.
Qed.
Lemma collect_found t fuel p : wf_tree t → (0 < fuel)%nat → (depth t < length p + fuel)%nat →
  ∃ ps, collect_paths fuel p (Disk t []) = (Ok ps, Disk t []) ∧ found t p ps.
Proof.
  intros Hw. revert p. induction fuel as [|fuel IH]; [lia|]. intros p _ Hl. cbn [collect_paths]. rewrite bind_run. cbn [next_fault faults]. rewrite bind_run. cbn [gets fs].
  set (es := if is_dir t p then children t p else []).
  assert (∀ q n, (q, n) ∈ es ↔ t !! q = Some n ∧ ∃ x, q = p ++ [x]) as Hes.
  { intros q n. subst es. destruct (is_dir t p) eqn:E; [apply children_spec|]. rewrite elem_of_nil. split; [done|]. intros [H [x ->]].
    unfold is_dir in E. rewrite (Hw p x) in E; [done|]. by eexists. }
  clearbody es. destruct (collect_entries_found t (collect_paths fuel) es) as (ps & E & Hf & Hd).
  { intros q [Hq [x ->]]%Hes. pose proof (depth_le _ _ _ Hq) as Hq'. rewrite length_app in Hq'. cbn in Hq'. apply IH; rewrite ?length_app; cbn; lia. }
  exists ps. split; [exact E|]. split; intros q; [rewrite Hf|rewrite Hd]; split.
  - intros (a & n & [Ha [x ->]]%Hes & Hn). destruct n as [|c]; [destruct Hn as [(y & r & ->) Hn]|subst q].
    + split; [|done]. exists x, (y :: r). by rewrite <- app_assoc.
    + split; [by exists x, []|]. unfold is_file. by rewrite Ha.
  - intros [(x & r & ->) Hq]. unfold is_file in Hq. destruct (t !! (p ++ x :: r)) as [[|c]|] eqn:Eq; try done.
    destruct (wf_tree_below t p x r Hw) as ([n Hn] & _ & Hr); [by eexists|]. exists (p ++ [x]), n. rewrite Hes. split; [split; [done|by exists x]|].
    destruct r as [|y r]; [rewrite Eq in Hn; by injection Hn as <-|]. rewrite Hr in Hn by done. injection Hn as <-. split; [exists y, r; by rewrite <- app_assoc|]. unfold is_file. by rewrite Eq.
  - intros (a & n & [Ha [x ->]]%Hes & Hn). destruct n as [|c]; [|done]. destruct Hn as [->|[(y & r & ->) Hn]].
    + split; [by exists x, []|]. unfold is_dir. by rewrite Ha.
    + split; [|done]. exists x, (y :: r). by rewrite <- app_assoc.
  - intros [(x & r & ->) Hq]. unfold is_dir in Hq. destruct (t !! (p ++ x :: r)) as [[|c]|] eqn:Eq; try done.
    destruct (wf_tree_below t p x r Hw) as ([n Hn] & _ & Hr); [by eexists|]. exists (p ++ [x]), n. rewrite Hes. split; [split; [done|by exists x]|].
    destruct r as [|y r]; [rewrite Eq in Hn; injection Hn as <-; by left|]. rewrite Hr in Hn by done. injection Hn as <-. right. split; [exists y, r; by rewrite <- app_assoc|]. unfold is_dir. by rewrite Eq.
Qed.
Lemma remove_ec_run t p : is_dir t p = false ∨ children t p = [] → remove_ec p (Disk t []) = (Ok tt, Disk (delete p t) []).
Proof.
  intros H. unfold remove_ec. rewrite bind_run. cbn [next_fault faults]. rewrite bind_run. cbn [gets fs]. replace (is_dir t p && negb (bool_decide (children t p = []))) with false; [done|].
  destruct H as [-> | H]; [done|]. rewrite bool_decide_true by done. by rewrite andb_false_r.
Qed.
Lemma no_children t p : (∀ n, t !! (p ++ [n]) = None) → children t p = [].
Proof. intros H. destruct (children t p) as [|[q n] l] eqn:E; [done|]. assert ((q, n) ∈ children t p) as [Hq [x ->]]%children_spec by (rewrite E; by left). by rewrite H in Hq. Qed.
(** Every path of [l] is gone. *)
Definition without (l : list path) (t t' : tree) : Prop := ∀ q, t' !! q = if decide (q ∈ l) then None else t !! q.
Lemma without_cons p l t t' : without l (delete p t) t' → without (p :: l) t t'.
Proof.
  intros H q. rewrite H. destruct (decide (q = p)) as [->|Hn]; [rewrite lookup_delete_eq; rewrite (decide_True (P := p ∈ p :: l)) by (by left); by destruct (decide _)|].
  rewrite lookup_delete_ne by done. destruct (decide (q ∈ l)) as [Hi|Hi]; [rewrite decide_True by (by right); done|]. rewrite decide_False; [done|]. intros [?|?]%elem_of_cons; done.
Qed.
Lemma remove_files_run l t : (∀ q, q ∈ l → is_dir t q = false) → ∃ t', for_each remove_ec l (Disk t []) = (Ok tt, Disk t' []) ∧ without l t t'.
Proof.
  revert t. induction l as [|p l IH]; intros t Hl; cbn [for_each]; [exists t; split; [done|]; intros q; by rewrite decide_False by apply not_elem_of_nil|].
  rewrite bind_run, remove_ec_run by (left; apply Hl; by left). destruct (IH (delete p t)) as (t' & E & Hw); [|exists t'; split; [done|]; by apply without_cons].
  intros q Hq. unfold is_dir. destruct (decide (p = q)) as [->|Hn]; [by rewrite lookup_delete_eq|]. rewrite lookup_delete_ne by done. apply Hl. by right.
Qed.
Lemma remove_dirs_run l t : StronglySorted deeper l → (∀ p q, p ∈ l → strictly p q → is_Some (t !! q) → q ∈ l) →
  ∃ t', for_each remove_ec l (Disk t []) = (Ok tt, Disk t' []) ∧ without l t t'.
Proof.
  intros Hs. revert t. induction Hs as [|p l Hs IH Hf]; intros t Hl; cbn [for_each]; [exists t; split; [done|]; intros q; by rewrite decide_False by apply not_elem_of_nil|].
  rewrite bind_run, remove_ec_run.
  - destruct (IH (delete p t)) as (t' & E & Hw); [|exists t'; split; [done|]; by apply without_cons]. intros a q Ha Hq Hd. destruct (decide (p = q)) as [->|Hn]; [rewrite lookup_delete_eq in Hd; by destruct Hd|].
    rewrite lookup_delete_ne in Hd by done. apply (Hl a) in Hd; [|by right|done]. apply elem_of_cons in Hd as [->|?]; done.
  - right. apply no_children. intros n. destruct (t !! (p ++ [n])) eqn:E; [|done]. exfalso. assert (p ++ [n] ∈ p :: l) as Hi by (apply (Hl p); [by left|by exists n, []|by eexists]).
    assert (length (p ++ [n]) <= length p)%nat as Hlen; [|rewrite length_app in Hlen; cbn in Hlen; lia]. apply elem_of_cons in Hi as [->|Hi]; [done|]. rewrite Forall_forall in Hf. by apply Hf.
Qed.
Lemma strictly_trans p q r : strictly p q → strictly q r → strictly p r.
Proof. intros (n & a & ->) (m & b & ->). exists n, (a ++ m :: b). by rewrite <- app_assoc. Qed.
Lemma under_strictly p q : under p q = true ↔ q = p ∨ strictly p q.
Proof.
  unfold under. rewrite bool_decide_eq_true. split.
  - intros [[|n r] ->]; [left; by rewrite app_nil_r|right; by exists n, r].
  - intros [->|(n & r & ->)]; [done|by eexists].
Qed.
(** When no call fails, the directory is gone with everything below it, and
    nothing else changed. *)
Lemma safe_remove_run t p : wf_tree t → safe_remove_directory p (Disk t []) = (Ok tt, Disk (cut p (λ _, true) t) []).
Proof.
  intros Hw. unfold safe_remove_directory. rewrite bind_run. cbn [gets fs]. destruct (collect_found t (2 + depth t) p Hw) as ([fl dl] & E & Hf & Hd); [lia|lia|].
  rewrite bind_run, E. cbn [fst snd] in *. destruct (remove_files_run fl t) as (t1 & E1 & H1); [intros q [_ Hq]%Hf; unfold is_file, is_dir in *; by destruct (t !! q) as [[]|]|].
  rewrite bind_run, E1. destruct (remove_dirs_run (merge_sort deeper dl) t1) as (t2 & E2 & H2).
  - apply StronglySorted_merge_sort; [intros a b c; unfold deeper; lia|]. intros a b. unfold deeper. lia.
  - intros a q. rewrite !merge_sort_Permutation. intros [Ha _]%Hd Hq. rewrite H1. destruct (decide (q ∈ fl)) as [|Hn]; [intros []; done|]. intros [n Hq']. apply Hd.
    pose proof (strictly_trans _ _ _ Ha Hq) as Hp. split; [done|]. rewrite Hf in Hn. unfold is_file, is_dir in *. rewrite Hq' in *. destruct n; [done|]. by destruct Hn.
  - rewrite bind_run, E2. assert (∀ q, strictly p q → t2 !! q = None) as Hin.
    { intros q Hq. rewrite H2, H1. destruct (decide (q ∈ merge_sort deeper dl)) as [|Hn]; [done|]. rewrite merge_sort_Permutation in Hn. destruct (decide (q ∈ fl)) as [|Hn']; [done|].
      rewrite Hd in Hn. rewrite Hf in Hn'. unfold is_dir, is_file in *. destruct (t !! q) as [[]|]; [by destruct Hn|by destruct Hn'|done]. }
    rewrite remove_ec_run by (right; apply no_children; intros n; apply Hin; by exists n, []). f_equal. f_equal. apply map_eq. intros q. unfold cut. symmetry.
    destruct (under p q) eqn:Eu.
    + transitivity (None (A := node)); [apply map_lookup_filter_None; right; intros x _; cbn [fst]; by rewrite Eu|]. symmetry. apply under_strictly in Eu as [->|Hs]; [apply lookup_delete_eq|].
      rewrite lookup_delete_ne; [by apply Hin|]. intros <-. destruct Hs as (n & r & Hs). apply (f_equal length) in Hs. rewrite length_app in Hs. cbn in Hs. lia.
    + assert (q ≠ p ∧ ¬ strictly p q) as [Hne Hns] by (split; intros H; (assert (under p q = true) as Hu by (apply under_strictly; auto)); by rewrite Eu in Hu).
      rewrite lookup_delete_ne, H2, H1 by done. rewrite decide_False, decide_False; [|rewrite Hf; tauto|rewrite merge_sort_Permutation, Hd; tauto].
      destruct (t !! q) as [n|] eqn:Eq; [|apply map_lookup_filter_None; by left]. apply map_lookup_filter_Some. split; [done|]. cbn [fst]. by rewrite Eu.
Qed.

(** ** Moving *)

Lemma moved_app a b r : moved a b (a ++ r) = b ++ r.
Proof. unfold moved. by rewrite drop_app_length. Qed.
Lemma graft_lookup (a b : path) (t : tree) (r : path) : (list_to_map (graft a b t) : tree) !! (b ++ r) = t !! (a ++ r).
Proof.
  assert (∀ n, (b ++ r, n) ∈ graft a b t ↔ t !! (a ++ r) = Some n) as Hg.
  { intros n. unfold graft. rewrite list_elem_of_fmap. split.
    - intros ([q m] & [= E ->] & [Hu Hq]%list_elem_of_filter). cbn in *. unfold under in Hu. apply bool_decide_eq_true in Hu as [k ->]. rewrite moved_app in E. apply app_inv_head in E as ->. by apply elem_of_map_to_list.
    - intros Hn. exists (a ++ r, n). cbn. rewrite moved_app. split; [done|]. apply list_elem_of_filter. split; [|by apply elem_of_map_to_list]. unfold under. apply bool_decide_eq_true. by eexists. }
  destruct (t !! (a ++ r)) as [n|] eqn:E.
  - apply elem_of_list_to_map_1; [|by apply Hg]. unfold graft. rewrite <- list_fmap_compose. apply NoDup_fmap_2_strong; [|apply NoDup_filter, NoDup_map_to_list].
    intros [q1 n1] [q2 n2] [H1 M1]%list_elem_of_filter [H2 M2]%list_elem_of_filter Hq. cbn in *. unfold under in *. apply bool_decide_eq_true in H1 as [k1 ->]. apply bool_decide_eq_true in H2 as [k2 ->].
    rewrite !moved_app in Hq. apply app_inv_head in Hq as ->. apply elem_of_map_to_list in M1, M2. congruence.
  - apply not_elem_of_list_to_map_1. intros ([q n] & Eq & Hq)%list_elem_of_fmap. cbn in Eq. subst q. apply Hg in Hq. congruence.
Qed.
Lemma cut_below p t r : cut p (λ _, true) t !! (p ++ r) = None.
Proof. unfold cut. apply map_lookup_filter_None. right. intros x _. cbn. unfold under. rewrite bool_decide_true by (by eexists). done. Qed.
(** After a [rename] the target holds what the source held. *)
Lemma rename_true (a b : path) d d' : rename_ec a b d = (Ok true, d') → ∀ r, fs d' !! (b ++ r) = fs d !! (a ++ r).
Proof.
  unfold rename_ec. rewrite bind_run. assert (fs (next_fault d).2 = fs d) as Hd by (unfold next_fault; by destruct (faults d)). destruct (next_fault d) as [[f| | |] d1]; try done. cbn in Hd.
  rewrite bind_run. cbn [gets]. destruct f; [done|]. set (ok := _ && _ && _). clearbody ok. destruct ok; [|done]. intros [= <-] r. cbn. rewrite <- Hd.
  rewrite lookup_union, cut_below, graft_lookup. by destruct (fs d1 !! (a ++ r)).
Qed.
(** A call that fails moves nothing. *)
Lemma rename_false a b d d' : rename_ec a b d = (Ok false, d') → fs d' = fs d.
Proof.
  unfold rename_ec. rewrite bind_run. assert (fs (next_fault d).2 = fs d) as Hd by (unfold next_fault; by destruct (faults d)). destruct (next_fault d) as [[f| | |] d1]; try done. cbn in Hd.
  rewrite bind_run. cbn [gets]. destruct f; [by intros [= <-]|]. set (ok := _ && _ && _). clearbody ok. destruct ok; [done|]. by intros [= <-].
Qed.
Lemma write_file_true p c d d' : write_file p c d = (Ok true, d') → fs d' !! p = Some (NFile c).
Proof.
  unfold write_file. rewrite bind_run. destruct (next_fault d) as [[f| | |] d1]; try done. rewrite bind_run. cbn [gets]. destruct (negb (is_dir (fs d1) (up p)) || is_dir (fs d1) p); [done|].
  destruct f as [sel|]; [destruct (sel p); done|]. intros [= <-]. cbn. apply lookup_insert_eq.
Qed.
Lemma read_file_Some p c d d' : read_file p d = (Ok (Some c), d') → fs d !! p = Some (NFile c).
Proof.
  unfold read_file. rewrite bind_run. assert (fs (next_fault d).2 = fs d) as Hd by (unfold next_fault; by destruct (faults d)). destruct (next_fault d) as [[f| | |] d1]; try done. cbn in Hd. rewrite <- Hd.
  destruct f; [done|]. intros [= E _]. destruct (fs d1 !! p) as [[|]|]; try done. by injection E as ->.
Qed.

(** ** The calls are defined *)

Lemma total_fault : total next_fault.
Proof. intros d. unfold next_fault. destruct (faults d); apply Ok_defined. Qed.
Lemma total_fs f : total (set_fs f).
Proof. apply total_modify. Qed.
#[export] Hint Resolve total_fault total_fs : total.
Lemma total_exists p : total (exists_ p).
Proof. unfold exists_. total. Qed.
Lemma total_open p : total (open_file p).
Proof. unfold open_file. total. Qed.
Lemma total_write p c : total (write_file p c).
Proof. unfold write_file. total. Qed.
Lemma total_read p : total (read_file p).
Proof. unfold read_file. total. Qed.
Lemma total_remove_file p : total (remove_file p).
Proof. unfold remove_file. total. Qed.
Lemma total_rename_ec a b : total (rename_ec a b).
Proof. unfold rename_ec. total. Qed.
#[export] Hint Resolve total_exists total_open total_write total_read total_remove_file total_rename_ec : total.
