(* ===== verification/PatchEngine.v ===== *)
(** * PatchEngine: the patches of plugins on the client's files

    The library the loopback proxy calls ([instrumentation/loopback/src]):
    which addresses it patches and where their files are ([url.rs]), how the
    patch list of the plugins is compiled and applied ([engine.rs]), and the
    entry points ([lib.rs]).  A panic is an exception: the entry points catch
    it and report an error.

    Parameters stand for the crates it uses: regular expressions ([regex]) and
    the JavaScript parser behind [syntax.rs]; [css_classes.rs], which renames
    class names, is any rewriting of bytes here.  The list of patches is the
    one the engine holds when it is read; the wait for the first list is left
    out. *)

From S2P Require Import Prelude State StrBuf Loopback Files.

(** ** Strings and paths of the standard library *)

Definition cont (b : byte) : bool := in_range 128 191 b.
(** [str::from_utf8] *)
Fixpoint utf8_valid (s : bytes) : bool :=
  match s with
  | [] => true
  | a :: s1 =>
      if b2z a <? 128 then utf8_valid s1 else
      match s1 with
      | [] => false
      | b :: s2 =>
          if in_range 194 223 a then cont b && utf8_valid s2 else
          match s2 with
          | [] => false
          | c :: s3 =>
              if in_range 224 239 a then
                (if b2z a =? 224 then in_range 160 191 b else if b2z a =? 237 then in_range 128 159 b else cont b) && cont c && utf8_valid s3
              else
              match s3 with
              | [] => false
              | d :: s4 =>
                  in_range 240 244 a && (if b2z a =? 240 then in_range 144 191 b else if b2z a =? 244 then in_range 128 143 b else cont b) && cont c && cont d && utf8_valid s4
              end
          end
      end
  end.
Definition strip_prefix (p s : bytes) : option bytes := if prefixb p s then Some (drop (length p) s) else None.
(** [s.replace(p, r)]; [skip] bytes of a match are still to be left out. *)
Fixpoint replace_from (p r : bytes) (skip : nat) (s : bytes) : bytes :=
  match s with
  | [] => []
  | c :: s' =>
      match skip with
      | S skip => replace_from p r skip s'
      | O => if prefixb p s then r ++ replace_from p r (length p - 1) s' else c :: replace_from p r 0 s'
      end
  end.
Definition str_replace (p r s : bytes) : bytes := replace_from p r 0 s.

Inductive component := RootDir | CurDir | ParentDir | Normal (part : bytes).
#[export] Instance component_eq : EqDecision component.
Proof. solve_decision. Defined.
(** [Path::components] on Unix: repeated separators and dots vanish, but for a
    dot at the beginning. *)
Fixpoint components_of (first : bool) (parts : list bytes) : list component :=
  match parts with
  | [] => []
  | p :: parts =>
      if bytes_eqb p [] then components_of false parts else
      if bytes_eqb p #"." then (if first then [CurDir] else []) ++ components_of false parts else
      (if bytes_eqb p #".." then ParentDir else Normal p) :: components_of false parts
  end.
Definition components (path : bytes) : list component :=
  match path with
  | "/"%byte :: _ => RootDir :: components_of false (split_slash path [])
  | _ => components_of true (split_slash path [])
  end.
Fixpoint trim_start (s : bytes) : bytes := match s with c :: s' => if beqb c "/" then trim_start s' else s | [] => [] end.
(** [PathBuf::push] of a part that is not absolute. *)
Definition path_push (path part : bytes) : bytes :=
  match path with [] => part | _ => if bool_decide (last path = Some "/"%byte) then path ++ part else path ++ #"/" ++ part end.

(** ** Addresses: [url.rs] *)

Definition path_after_host (url : bytes) : option bytes :=
  rest ← match strip_prefix #"http://" url with Some r => Some r | None => strip_prefix #"https://" url end;
  rest ← strip_prefix #"steamloopback.host" rest;
  match rest with
  | [] => Some rest
  | c :: _ => if beqb c "/" then Some rest else None
  end.
Definition ext_before_query (path : bytes) : bytes :=
  let before := match find_char "?"%byte path with Some q => take q path | None => path end in
  match rfind_char "."%byte before with Some dot => drop dot before | None => [] end.
Definition is_steamloopback_patchable (url : bytes) : bool := bool_decide (path_after_host url ≠ None).
Definition is_js_url (url : bytes) : bool :=
  match path_after_host url with
  | Some path => let e := ext_before_query path in bytes_eqb e #".js" || bytes_eqb e #".mjs"
  | None => false
  end.
Definition mime_type_for_url (url : bytes) : bytes :=
  let e := ext_before_query (default [] (path_after_host url)) in
  let ext s := bytes_eqb e s in
  if ext #".js" || ext #".mjs" then #"application/javascript" else
  if ext #".css" then #"text/css" else
  if ext #".json" then #"application/json" else
  if ext #".html" || ext #".htm" then #"text/html" else
  if ext #".svg" then #"image/svg+xml" else
  if ext #".wasm" then #"application/wasm" else
  if ext #".png" then #"image/png" else
  if ext #".jpg" || ext #".jpeg" then #"image/jpeg" else
  if ext #".gif" then #"image/gif" else
  if ext #".ico" then #"image/x-icon" else
  if ext #".ttf" then #"font/ttf" else
  if ext #".woff" then #"font/woff" else
  if ext #".woff2" then #"font/woff2" else #"application/octet-stream".

Fixpoint sanitize (cs : list component) (acc : bytes) : option bytes :=
  match cs with
  | [] => Some acc
  | Normal part :: cs => sanitize cs (path_push acc part)
  | _ :: _ => None
  end.
(** [steam]: the directory of the client. *)
Definition local_path_from_lb_url (steam url : bytes) : option bytes :=
  host_end ← find_sub #"steamloopback.host" url;
  slash ← find_char "/"%byte (drop host_end url);
  let path := drop (slash + host_end) url in
  let path := match find_char "?"%byte path with Some q => take q path | None => path end in
  let rel := trim_start path in
  if bytes_eqb rel [] then None else
  sanitized ← sanitize (components rel) [];
  Some (path_push (path_push steam #"steamui") sanitized).

(** ** The patch list: [engine.rs] *)

Record patch_def := PatchDef { d_plugin : bytes; d_file : bytes; d_find : bytes; d_transforms : list (bytes * bytes) }.
Definition expand_self (s plugin_name : bytes) : bytes := str_replace #"#{{self}}" (#"window.PLUGIN_LIST['" ++ plugin_name ++ #"']") s.
(** References [\1] become [$1], dollar signs are doubled. *)
Fixpoint re2_to_rust_rep (s : bytes) : bytes :=
  match s with
  | [] => []
  | c :: s =>
      if beqb c "$" then #"$$" ++ re2_to_rust_rep s else
      match s with
      | d :: s' => if beqb c "\" && isdigit d then "$"%byte :: d :: re2_to_rust_rep s' else c :: re2_to_rust_rep s
      | [] => [c]
      end
  end.

(** What the engine reports: plugin, other plugin and kind of the event. *)
Record patch_event := PatchEvent { e_plugin : bytes; e_other : bytes; e_kind : bytes }.

Section engine.
  Context {rx : Type}.
  (** [Regex::new], [Regex::find], [Regex::replace_all] *)
  Variable regex_new : bytes → option rx.
  Variable rx_find : rx → bytes → option (nat * nat).
  Variable rx_replace_all : rx → bytes → bytes → bytes.
  (** [RegexSet::new] with [matches]: the indices of the patterns that match. *)
  Variable regex_set : list bytes → option (bytes → list nat).

Record compiled_patch := CompiledPatch { c_plugin : bytes; c_find : rx; c_transforms : list (rx * bytes) }.
Record patch_set := PatchSet { file_set : bytes → list nat; patches : list compiled_patch }.

(** A transform whose pattern is invalid is left out, and so is a patch whose
    [find] is. *)
Definition compile_transforms (d : patch_def) : list (rx * bytes) :=
  omap (λ t : bytes * bytes, pat ← regex_new t.1; Some (pat, re2_to_rust_rep (expand_self t.2 (d_plugin d)))) (d_transforms d).
Definition compile_patch (d : patch_def) : option compiled_patch :=
  find ← regex_new (d_find d);
  Some (CompiledPatch (d_plugin d) find (compile_transforms d)).
Definition build (defs : list patch_def) : option patch_set :=
  file_set ← regex_set (d_file <$> defs);
  Some (PatchSet file_set (omap compile_patch defs)).

Abbreviation EM := (SM (list patch_event)).
Definition send_patch_event (plugin other kind : bytes) : EM () := modify (λ l, l ++ [PatchEvent plugin other kind]).

Definition sub (buf : bytes) (from to : nat) : bytes := take (to - from) (drop from buf).
Definition splice (buf : bytes) (from to : nat) (new : bytes) : bytes := take from buf ++ new ++ drop to buf.
(** [&buf[from..to]] panics outside the buffer. *)
Definition panic : bytes := #"panicked".
Definition apply_scoped (buf : bytes) (from to : nat) (pat : rx) (rep : bytes) : outcome (bytes * nat) :=
  if (to <? from)%nat || (length buf <? to)%nat then Throw panic else
  let region := sub buf from to in
  if utf8_valid region then
    let new_bytes := rx_replace_all pat rep region in
    Ok (splice buf from to new_bytes, (from + length new_bytes)%nat)
  else Ok (buf, to).
Fixpoint apply_transforms (ts : list (rx * bytes)) (buf : bytes) (from to : nat) : outcome (bytes * nat) :=
  match ts with
  | [] => Ok (buf, to)
  | (pat, rep) :: ts => r ← apply_scoped buf from to pat rep; apply_transforms ts r.1 from r.2
  end.

(** [sort_by] the plugin: stable. *)
Fixpoint insert_patch (p : compiled_patch) (l : list compiled_patch) : list compiled_patch :=
  match l with
  | [] => [p]
  | q :: l => if bytes_ltb (c_plugin q) (c_plugin p) then q :: insert_patch p l else p :: q :: l
  end.
Definition sort_patches (l : list compiled_patch) : list compiled_patch := foldr insert_patch [] l.

Definition conflict (content : bytes) (p q : compiled_patch) : EM () :=
  if bytes_eqb (c_plugin p) (c_plugin q) then mret tt else
  match rx_find (c_find p) content, rx_find (c_find q) content with
  | Some (a, b), Some (c, d) =>
      if (a <? d)%nat && (c <? b)%nat then
        let winner := if bytes_ltb (c_plugin p) (c_plugin q) then c_plugin p else c_plugin q in
        let loser := if bytes_ltb (c_plugin p) (c_plugin q) then c_plugin q else c_plugin p in
        send_patch_event winner loser #"conflict"
      else mret tt
  | _, _ => mret tt
  end.
Fixpoint detect_conflicts (content : bytes) (ps : list compiled_patch) : EM () :=
  match ps with
  | [] => mret tt
  | p :: ps => _ ← for_each (conflict content p) ps; detect_conflicts content ps
  end.

(** One patch: the buffer and the plugins that have contributed. *)
Definition apply_patch (p : compiled_patch) (st : bytes * list bytes) : EM (bytes * list bytes) :=
  let '(buf, contributing) := st in
  if negb (utf8_valid buf) then mret st else
  match rx_find (c_find p) buf with
  | None => _ ← send_patch_event (c_plugin p) [] #"no_match"; mret st
  | Some (from, to) =>
      r ← lift (apply_transforms (c_transforms p) buf from to);
      _ ← send_patch_event (c_plugin p) [] #"match";
      mret (r.1, contributing ++ [c_plugin p])
  end.
Fixpoint apply_each (ps : list compiled_patch) (st : bytes * list bytes) : EM (bytes * list bytes) :=
  match ps with [] => mret st | p :: ps => st ← apply_patch p st; apply_each ps st end.
(** [patches[i]] panics out of range. *)
Fixpoint pick (ps : list compiled_patch) (is_ : list nat) : outcome (list compiled_patch) :=
  match is_ with
  | [] => Ok []
  | i :: is_ => match ps !! i with Some p => l ← pick ps is_; Ok (p :: l) | None => Throw panic end
  end.
Definition apply_patches (set : patch_set) (content filename : bytes) : EM (option (bytes * list bytes)) :=
  if negb (utf8_valid content) then mret None else
  let matched_indices := file_set set filename in
  match matched_indices with
  | [] => mret None
  | _ =>
      _ ← send_patch_event [] [] #"url_seen";
      matched ← lift (pick (patches set) matched_indices);
      let matched := sort_patches matched in
      _ ← detect_conflicts content matched;
      r ← apply_each matched (content, []);
      mret (match r.2 with [] => None | _ => Some r end)
  end.

(** ** The entry points: [lib.rs] *)

(** [css_classes::patch]: the rewritten bytes and whether they differ;
    [syntax::check]: the errors. *)
Variable css_patch : bytes → bytes → bytes * bool.
Variable syntax_check : bytes → list bytes.

(** [blamed.join(", ")] *)
Definition join_names (l : list bytes) : bytes := match l with [] => [] | x :: l => x ++ concat ((λ y, #", " ++ y) <$> l) end.
Definition file_name (path : bytes) : option bytes := match last (components path) with Some (Normal n) => Some n | _ => None end.
Definition rewrite_classes (url name content : bytes) : bytes :=
  if is_js_url url then
    let '(rewritten, changed) := css_patch name content in
    if negb changed then content else
    if utf8_valid rewritten && bool_decide (syntax_check rewritten = []) then rewritten else content
  else content.
Definition patch_bytes (set : option patch_set) (url path content : bytes) : EM bytes :=
  let content := rewrite_classes url (default path (file_name path)) content in
  match set with
  | None => mret content
  | Some set =>
      r ← apply_patches set content path;
      match r with
      | None => mret content
      | Some (patched, blamed) =>
          if is_js_url url && negb (utf8_valid patched && bool_decide (syntax_check patched = [])) then
            _ ← send_patch_event (join_names blamed) [] #"syntax_error";
            mret content
          else mret patched
      end
  end.
(** Bytes and size; [malloc] of no bytes may give null. *)
Definition write_output (alloc : Z → bool) (content : bytes) : option (bytes * Z) :=
  if alloc (len content) then Some (content, u32 (len content)) else None.
Definition c_str (url : bytes) : bytes := if utf8_valid url then url else [].
Definition lb_url_is_patchable (url : bytes) : bool := is_steamloopback_patchable (c_str url).
(** [catch_ffi]: a panic is an error of the call. *)
Definition lb_patch_content (alloc : Z → bool) (set : option patch_set) (steam url : bytes) (in_data : option bytes) : option (bytes * Z * bytes) :=
  content ← in_data;
  let url := c_str url in
  let path := default url (local_path_from_lb_url steam url) in
  match (patch_bytes set url path content []).1 with
  | Ok final => r ← write_output alloc final; Some (r.1, r.2, mime_type_for_url url)
  | _ => None
  end.
(** [read]: the file system. *)
Definition lb_handle_request (alloc : Z → bool) (read : bytes → option bytes) (set : option patch_set) (steam url : bytes) : option (bytes * Z * bytes) :=
  let url := c_str url in
  path ← local_path_from_lb_url steam url;
  content ← read path;
  match (patch_bytes set url path content []).1 with
  | Ok final => r ← write_output alloc final; Some (r.1, r.2, mime_type_for_url url)
  | _ => None
  end.

(** ** What patching does *)

(** A patch changes nothing, or only the region its [find] matches. *)
Inductive edits : list compiled_patch → bytes → bytes → Prop :=
  | edits_nil buf : edits [] buf buf
  | edits_skip p ps buf out : edits ps buf out → edits (p :: ps) buf out
  | edits_region p ps buf from to new out : rx_find (c_find p) buf = Some (from, to) → edits ps (splice buf from to new) out → edits (p :: ps) buf out.

Hypothesis find_range : ∀ r s from to, rx_find r s = Some (from, to) → (from <= to <= length s)%nat.

Lemma splice_splice buf from to new new' : (from <= to <= length buf)%nat → splice (splice buf from to new) from (from + length new) new' = splice buf from to new'.
Proof.
  intros Hr. unfold splice. rewrite take_app_le by (rewrite length_take; lia). rewrite take_take. replace (from `min` from)%nat with from by lia. f_equal. f_equal.
  rewrite app_assoc, drop_app_ge by (rewrite length_app, length_take; lia). rewrite length_app, length_take. by replace (from + length new - (from `min` length buf + length new))%nat with 0%nat by lia.
Qed.
Lemma splice_self buf from to : (from <= to <= length buf)%nat → splice buf from to (sub buf from to) = buf.
Proof. intros Hr. unfold splice, sub. rewrite app_assoc, take_take_drop. replace (from + (to - from))%nat with to by lia. by rewrite take_drop. Qed.
Lemma length_splice buf from to new : (from <= to <= length buf)%nat → (from + length new <= length (splice buf from to new))%nat.
Proof. intros Hr. unfold splice. rewrite !length_app, length_take. lia. Qed.
Lemma apply_transforms_region ts buf from to new : (from <= to <= length buf)%nat →
  ∃ new', apply_transforms ts (splice buf from to new) from (from + length new) = Ok (splice buf from to new', (from + length new')%nat).
Proof.
  intros Hr. revert new. induction ts as [|[pat rep] ts IH]; intros new; cbn [apply_transforms]; [by exists new|]. unfold apply_scoped.
  pose proof (length_splice buf from to new Hr). destruct (Nat.ltb_spec (from + length new) from); [lia|]. destruct (Nat.ltb_spec (length (splice buf from to new)) (from + length new)); [lia|]. cbn [orb].
  destruct (utf8_valid _); bind_simpl; cbn [fst snd]; [|apply IH]. rewrite splice_splice by done. apply IH.
Qed.
Lemma apply_patch_edits p buf names ev : ∃ r ev', apply_patch p (buf, names) ev = (Ok r, ev') ∧
  ∀ ps out, edits ps r.1 out → edits (p :: ps) buf out.
Proof.
  unfold apply_patch. destruct (utf8_valid buf); cbn [negb]; [|do 2 eexists; split; [done|]; intros; by apply edits_skip].
  destruct (rx_find (c_find p) buf) as [[from to]|] eqn:E; [|do 2 eexists; split; [done|]; intros; by apply edits_skip].
  pose proof (find_range _ _ _ _ E) as Hr. destruct (apply_transforms_region (c_transforms p) buf from to (sub buf from to) Hr) as [new Hn].
  rewrite splice_self in Hn by done. unfold sub in Hn at 1. rewrite length_take, length_drop in Hn. replace (from + (to - from) `min` (length buf - from))%nat with to in Hn by lia.
  rewrite bind_run. unfold lift. rewrite Hn. do 2 eexists. split; [done|]. intros ps out He. by eapply edits_region.
Qed.
Lemma apply_each_edits ps st ev : ∃ r ev', apply_each ps st ev = (Ok r, ev') ∧ edits ps st.1 r.1.
Proof.
  revert st ev. induction ps as [|p ps IH]; intros [buf names] ev; cbn [apply_each]; [do 2 eexists; split; [done|constructor]|].
  destruct (apply_patch_edits p buf names ev) as (r & ev1 & E & He). rewrite bind_run, E. destruct (IH r ev1) as (r' & ev2 & E' & He'). rewrite E'. eauto 6.
Qed.
Lemma detect_conflicts_runs content ps ev : ∃ ev', detect_conflicts content ps ev = (Ok tt, ev').
Proof.
  revert ev. induction ps as [|p ps IH]; intros ev; cbn [detect_conflicts]; [by eexists|]. rewrite bind_run.
  assert (∃ ev1, for_each (conflict content p) ps ev = (Ok tt, ev1)) as [ev1 ->]; [|apply IH]. clear IH. revert ev. induction ps as [|q ps IH]; intros ev; cbn [for_each]; [by eexists|].
  rewrite bind_run. assert (∃ ev1, conflict content p q ev = (Ok tt, ev1)) as [ev1 ->]; [|apply IH]. unfold conflict. repeat case_match; by eexists.
Qed.

(** The patches of a list whose [find] patterns are all valid keep their
    places. *)
Lemma build_aligned defs set : build defs = Some set → Forall (λ d, is_Some (regex_new (d_find d))) defs → Forall2 (λ d p, compile_patch d = Some p) defs (patches set).
Proof.
  unfold build. destruct (regex_set (d_file <$> defs)) as [fs|]; [|done]. cbn. intros [= <-] Hv. cbn [patches]. induction Hv as [|d defs [r Hr] _ IH]; cbn [omap list_omap]; [constructor|].
  assert (∃ p, compile_patch d = Some p) as [p Hp] by (unfold compile_patch; rewrite Hr; by eexists). rewrite Hp. by constructor.
Qed.
Lemma pick_aligned defs set is_ : Forall2 (λ d p, compile_patch d = Some p) defs (patches set) → Forall (λ i, i < length defs)%nat is_ →
  ∃ ps, pick (patches set) is_ = Ok ps ∧ Forall2 (λ i p, ∃ d, defs !! i = Some d ∧ compile_patch d = Some p) is_ ps.
Proof.
  intros Hd Hi. induction Hi as [|i is_ Hlt _ (ps & E & IH)]; cbn [pick]; [exists []; by split; [|constructor]|].
  destruct (lookup_lt_is_Some_2 defs i Hlt) as [d Ed]. destruct (Forall2_lookup_l _ _ _ _ _ Hd Ed) as (p & Ep & Hp). rewrite Ep, E. bind_simpl. exists (p :: ps). split; [done|]. constructor; eauto.
Qed.
Lemma sort_patches_perm l : sort_patches l ≡ₚ l.
Proof.
  assert (∀ p l, insert_patch p l ≡ₚ p :: l) as H.
  { intros p l'. induction l' as [|q l' IH]; cbn [insert_patch]; [done|]. destruct (bytes_ltb _ _); [|done]. rewrite IH. constructor. }
  induction l as [|p l IH]; [done|]. change (sort_patches (p :: l)) with (insert_patch p (sort_patches l)). rewrite H. by constructor.
Qed.

(** The served bytes of a script are the given ones or pass the parser. *)
Definition checked (out : bytes) : Prop := utf8_valid out = true ∧ syntax_check out = [].
Lemma rewrite_classes_checked url name content : is_js_url url = true → rewrite_classes url name content = content ∨ checked (rewrite_classes url name content).
Proof.
  intros Hjs. unfold rewrite_classes. rewrite Hjs. destruct (css_patch name content) as [rw ch]. destruct (negb ch); [by left|].
  destruct (utf8_valid rw && bool_decide (syntax_check rw = [])) eqn:E; [|by left]. apply andb_true_iff in E as [E1 E2%bool_decide_eq_true]. right. by split.
Qed.
Lemma patch_bytes_checked set url path content ev out : is_js_url url = true → (patch_bytes set url path content ev).1 = Ok out → out = content ∨ checked out.
Proof.
  intros Hjs. unfold patch_bytes. pose proof (rewrite_classes_checked url (default path (file_name path)) content Hjs) as Hc. destruct set as [set|]; [|intros [= <-]; done].
  rewrite bind_run. destruct (apply_patches set _ path ev) as [[[[patched blamed]|]| | |] ev']; try done; [|intros [= <-]; done].
  rewrite Hjs. cbn [andb]. destruct (utf8_valid patched && bool_decide (syntax_check patched = [])) eqn:E; cbn [negb].
  - intros [= <-]. apply andb_true_iff in E as [E1 E2%bool_decide_eq_true]. right. by split.
  - rewrite bind_run. intros [= <-]. done.
Qed.
Lemma lb_patch_content_checked alloc set steam url data d size m : is_js_url (c_str url) = true → lb_patch_content alloc set steam url (Some data) = Some (d, size, m) → d = data ∨ checked d.
Proof.
  intros Hjs. unfold lb_patch_content. cbn [mbind option_bind]. pose proof (patch_bytes_checked set (c_str url) (default (c_str url) (local_path_from_lb_url steam (c_str url))) data [] ) as Hc.
  destruct (patch_bytes _ _ _ _ _) as [[out| | |] ev']; try done. cbn [fst] in *. unfold write_output. destruct (alloc (len out)); [|done]. cbn. intros [= <- _ _]. by apply Hc.
Qed.
Lemma lb_patch_content_size alloc set steam url data d size m : lb_patch_content alloc set steam url data = Some (d, size, m) → 0 <= size < 2 ^ 32 ∧ size <= len d.
Proof.
  unfold lb_patch_content. destruct data as [data|]; [|done]. cbn [mbind option_bind]. destruct (patch_bytes _ _ _ _ _) as [[out| | |] ev']; try done. cbn [fst]. unfold write_output. destruct (alloc (len out)); [|done]. cbn.
  intros [= <- <- _]. split; [apply u32_range|]. unfold u32. apply Z.mod_le; [apply len_nonneg|done].
Qed.
End engine.

(** ** Where files are *)

Lemma components_plain first parts : Forall (Forall (λ c, c ≠ "/"%byte)) parts → Forall (λ c, ∀ p, c = Normal p → plain p) (components_of first parts).
Proof.
  intros Hp. revert first. induction Hp as [|p parts Hc _ IH]; intros first; cbn [components_of]; [constructor|].
  destruct (bytes_eqb p []) eqn:E0; [apply IH|]. destruct (bytes_eqb p #".") eqn:E1; [destruct first; cbn; [constructor; [done|]|]; apply IH|]. constructor; [|apply IH].
  destruct (bytes_eqb p #"..") eqn:E2; [done|]. intros q [= <-]. apply bytes_eqb_false in E0, E1, E2. by split_and!.
Qed.
Lemma sanitize_parts cs acc out : Forall (λ c, ∀ p, c = Normal p → plain p) cs → sanitize cs acc = Some out → ∃ parts, Forall plain parts ∧ out = foldl path_push acc parts.
Proof.
  intros Hc. revert acc. induction Hc as [|c cs Hp _ IH]; intros acc; cbn [sanitize]; [intros [= <-]; by exists []|].
  destruct c as [| | |p]; try done. intros (parts & Hf & ->)%IH. exists (p :: parts). split; [|done]. constructor; [by apply Hp|done].
Qed.
Lemma last_plain p : plain p → last p ≠ Some "/"%byte ∧ p ≠ [].
Proof. intros (Hn & _ & _ & Hf). split; [|done]. intros Hl. apply last_Some in Hl as [l ->]. apply Forall_app in Hf as [_ Hf]. by apply Forall_cons in Hf as [? _]. Qed.
Lemma path_push_assoc base acc p : plain p → acc ≠ [] → last acc ≠ Some "/"%byte → path_push base (path_push acc p) = path_push (path_push base acc) p.
Proof.
  intros Hp Ha Hl. assert (path_push acc p = acc ++ #"/" ++ p) as -> by (unfold path_push; destruct acc; [done|]; by rewrite bool_decide_false).
  assert (∀ b, path_push (b ++ acc) p = (b ++ acc) ++ #"/" ++ p) as H.
  { intros b. unfold path_push. destruct (b ++ acc) eqn:E; [by destruct b, acc|]. rewrite <- E. rewrite bool_decide_false; [done|]. rewrite last_app. by destruct (last acc) eqn:El; [|apply last_None in El]. }
  destruct base as [|c base]; [exact (eq_sym (H []))|]. assert (∀ x, path_push (c :: base) x = if bool_decide (last (c :: base) = Some "/"%byte) then (c :: base) ++ x else (c :: base) ++ #"/" ++ x) as Hb by done.
  rewrite !Hb. destruct (bool_decide _); [by rewrite H, <- !app_assoc|]. rewrite (app_assoc _ #"/" acc), H. by rewrite <- !app_assoc.
Qed.
Lemma push_parts base parts p : plain p → Forall plain parts → path_push base (foldl path_push p parts) = foldl path_push (path_push base p) parts.
Proof.
  intros Hp Hf. destruct (last_plain p Hp) as [Hl Hn]. clear Hp. revert base p Hl Hn. induction Hf as [|q parts Hq _ IH]; intros base p Hl Hn; cbn [foldl]; [done|].
  destruct (last_plain q Hq) as [Hql Hqn]. rewrite IH; [by rewrite path_push_assoc| |].
  - unfold path_push. destruct p; [done|]. rewrite bool_decide_false by done. rewrite !last_app. by destruct (last q) eqn:El; [|apply last_None in El].
  - unfold path_push. destruct p; [done|]. by rewrite bool_decide_false.
Qed.
Lemma foldl_push_nonempty p parts : p ≠ [] → foldl path_push p parts ≠ [].
Proof.
  revert p. induction parts as [|q parts IH]; intros p Hp; cbn [foldl]; [done|]. apply IH. unfold path_push. destruct p; [done|]. by destruct (bool_decide _).
Qed.
Lemma trim_start_head s : match trim_start s with c :: _ => c ≠ "/"%byte | [] => True end.
Proof. induction s as [|c s IH]; cbn [trim_start]; [done|]. destruct (beqb_spec c "/"); [apply IH|done]. Qed.
Lemma split_slash_first s acc : acc ≠ [] → ∃ p ps, split_slash s acc = p :: ps ∧ p ≠ [].
Proof.
  revert acc. induction s as [|c s IH]; intros acc Ha; cbn [split_slash]; [by eexists _, _|]. destruct (beqb c "/"); [by eexists _, _|]. apply IH. by destruct acc.
Qed.
Lemma components_nonempty c s : c ≠ "/"%byte → components (c :: s) ≠ [].
Proof.
  intros Hc. assert (components (c :: s) = components_of true (split_slash (c :: s) [])) as ->. { unfold components. by destruct c. }
  cbn [split_slash]. destruct (beqb_spec c "/"); [done|]. destruct (split_slash_first s ([] ++ [c])) as (p & ps & -> & Hp); [done|]. cbn [components_of].
  destruct (bytes_eqb p []) eqn:E; [by apply bytes_eqb_true in E|]. by destruct (bytes_eqb p #".").
Qed.

(** ** Properties *)

(** The file a request of the client's pages is resolved to always lies below
    the directory of the client's interface: its path is that directory
    followed by plain names, none of them empty, a dot, two dots or with a
    separator inside, whatever the address says. *)
Theorem local_file_contained steam url path :
  local_path_from_lb_url steam url = Some path →
  ∃ parts, parts ≠ [] ∧ Forall plain parts ∧ path = foldl path_push (path_push steam #"steamui") parts.
Proof.
  unfold local_path_from_lb_url. destruct (find_sub #"steamloopback.host" url) as [h|]; [|done]. cbn [mbind option_bind]. destruct (find_char "/"%byte (drop h url)) as [sl|]; [|done]. cbn [mbind option_bind].
  match goal with |- context [trim_start ?x] => pose proof (trim_start_head x) as Hh; set (rel := trim_start x) in * end. destruct (bytes_eqb rel []) eqn:Er; [done|]. destruct (sanitize (components rel) []) as [out|] eqn:Es; [|done]. cbn [mbind option_bind]. intros [= <-].
  assert (Forall (λ c, ∀ p, c = Normal p → plain p) (components rel)) as Hc.
  { assert (∀ b, Forall (λ c, ∀ p, c = Normal p → plain p) (components_of b (split_slash rel []))) as H by (intros b; apply components_plain, split_slash_plain; constructor).
    unfold components. destruct rel as [|c rel']; [apply H|]. destruct c; try apply H. constructor; [done|apply H]. }
  destruct (sanitize_parts _ _ _ Hc Es) as (parts & Hf & Eo). destruct Hf as [|p parts Hp Hf].
  - exfalso. cbn in Eo. subst out. destruct rel as [|c rel']; [done|]. pose proof (components_nonempty c rel' Hh) as Hne. destruct (components (c :: rel')) as [|[| | |p] cs] eqn:Ec; try done.
    apply Forall_cons in Hc as [Hp Hcs]. specialize (Hp p eq_refl). cbn [sanitize] in Es. destruct (sanitize_parts _ _ _ Hcs Es) as (parts & Hf & Eo). change (path_push [] p) with p in Eo.
    destruct (foldl_push_nonempty p parts); [apply Hp|done].
  - exists (p :: parts). split; [done|]. split; [by constructor|]. subst out. cbn [foldl]. change (path_push [] p) with p. by apply push_parts.
Qed.

(** With a patch list whose [find] patterns are valid, the patches applied to a
    file are exactly those whose file pattern matches it, in the order of their
    plugins; nothing panics, and each patch changes at most the region of the
    text that its own [find] pattern matches at that moment. *)
Theorem patches_applied {rx} (regex_new : bytes → option rx) rx_find rx_replace_all regex_set defs set content filename ev :
  (∀ r s from to, rx_find r s = Some (from, to) → (from <= to <= length s)%nat) →
  build regex_new regex_set defs = Some set → Forall (λ d, is_Some (regex_new (d_find d))) defs →
  Forall (λ i, i < length defs)%nat (file_set set filename) →
  ∃ r ev' ps, apply_patches rx_find rx_replace_all set content filename ev = (Ok r, ev') ∧
    Forall2 (λ i p, ∃ d, defs !! i = Some d ∧ compile_patch regex_new d = Some p) (file_set set filename) ps ∧ sort_patches ps ≡ₚ ps ∧
    ∀ out names, r = Some (out, names) → edits rx_find (sort_patches ps) content out.
Proof.
  intros Hr Hb Hv Hi. destruct (pick_aligned regex_new defs set (file_set set filename) (build_aligned regex_new regex_set defs set Hb Hv) Hi) as (ps & Ep & Hps).
  unfold apply_patches. destruct (utf8_valid content); cbn [negb]; [|exists None, ev, ps; split_and!; [done|done|apply sort_patches_perm|done]].
  set (ix := file_set set filename) in *. clearbody ix. cbn zeta. destruct ix as [|i is_]; [exists None, ev, ps; split_and!; [done|done|apply sort_patches_perm|done]|]. rewrite bind_run. unfold send_patch_event at 1, modify. rewrite bind_run. unfold lift. rewrite Ep.
  rewrite bind_run. destruct (detect_conflicts_runs rx_find content (sort_patches ps) (ev ++ [PatchEvent [] [] #"url_seen"])) as [ev1 ->].
  rewrite bind_run. destruct (apply_each_edits rx_find rx_replace_all Hr (sort_patches ps) (content, []) ev1) as (r & ev2 & -> & He).
  exists (match r.2 with [] => None | _ => Some r end), ev2, ps. split; [done|]. split; [done|]. split; [apply sort_patches_perm|]. intros out names E. destruct r as [b [|n l]]; [done|]. injection E as <- <-. exact He.
Qed.

(** C34: The proxy and the engine together: a script that is ready is either what the
    client's handler delivered, byte for byte, or text the JavaScript parser
    accepts, whatever patches the plugins have registered and however the
    delivery was interleaved. *)
Theorem loopback_scripts_valid {rx} (rx_find : rx → bytes → option (nat * nat)) rx_replace_all css_patch syntax_check alloc set steam url limit s :
  limit <= MEM_MAX → (∀ n, alloc n = true → n <= limit) → is_js_url (c_str url) = true →
  lb_reachable alloc (lb_patch_content rx_find rx_replace_all css_patch syntax_check alloc set steam url) s → state (obj (mem s)) = LB_READY →
  ∃ served, served_data (obj (mem s)) = Some served ∧ (Some served = drained (given s) ∨ utf8_valid served = true ∧ syntax_check served = []).
Proof.
  intros Hl Ha Hjs Hs Hready. set (patch := lb_patch_content _ _ _ _ _ _ _ _) in *.
  assert (∀ d served size mime, patch d = Some (served, size, mime) → 0 <= size < 2 ^ 32 ∧ size <= len served) as Hp by (intros d served size mime; apply lb_patch_content_size).
  pose proof (reachable_inv alloc patch limit Hl Ha Hp s Hs) as Hi.
  destruct (got_served patch Hp s Hi (served_ready _ _ _ _ _ (inv_served _ _ Hi) Hready)) as (d & sz & m & E & Ed & _). exists d. split; [done|].
  destruct (drained (given s)) as [data|] eqn:Edr; [|done]. destruct (lb_patch_content_checked rx_find rx_replace_all css_patch syntax_check alloc set steam url data d sz m Hjs E) as [->|Hc]; [by left|by right].
Qed.

(** Literal patterns: an opening parenthesis alone is no pattern. *)
Definition demo_new (p : bytes) : option bytes := if bytes_eqb p #"(" then None else Some p.
Definition demo_find (p s : bytes) : option (nat * nat) := i ← find_sub p s; Some (i, (i + length p)%nat).
Definition demo_replace (p rep s : bytes) : bytes := str_replace p rep s.
Definition demo_set (ps : list bytes) : option (bytes → list nat) :=
  if existsb (bytes_eqb #"(") ps then None else
  Some (λ file, filter (λ i, find_sub (nth i ps []) file ≠ None) (seq 0 (length ps))).
Lemma demo_find_range r s from to : demo_find r s = Some (from, to) → (from <= to <= length s)%nat.
Proof. unfold demo_find. destruct (find_sub r s) as [i|] eqn:E; [|done]. cbn. intros [= <- <-]. apply find_sub_Some in E as (? & _ & H). lia. Qed.
Definition demo_defs : list patch_def := [PatchDef #"b" #"lib.js" #"xyz" [(#"y", #"2")]; PatchDef #"a" #"lib.js" #"xyz" [(#"x", #"1")]; PatchDef #"c" #"other.js" #"xyz" [(#"z", #"3")]].
Definition demo_patches (defs : list patch_def) : patch_set := default (PatchSet (λ _, []) []) (build demo_new demo_set defs).

Lemma patches_applied_witness :
  ∃ r ev', apply_patches demo_find demo_replace (demo_patches demo_defs) #"(xyz)" #"/lib.js" [] = (Ok r, ev').
Proof.
  destruct (patches_applied demo_new demo_find demo_replace demo_set demo_defs (demo_patches demo_defs) #"(xyz)" #"/lib.js" []) as (r & ev' & ps & E & _).
  - apply demo_find_range.
  - by vm_compute.
  - repeat constructor; by eexists.
  - vm_compute. repeat constructor.
  - by exists r, ev'.
Defined.

Definition demo_url : bytes := #"https://steamloopback.host/lib.js?v=1".
Definition demo_loop (set : patch_set) (d : option bytes) : option (bytes * Z * bytes) :=
  lb_patch_content demo_find demo_replace (λ _ c, (c, false)) (λ s, match find_sub #"2" s with Some _ => [ #"error"] | None => [] end) demo_alloc (Some set) #"/steam" demo_url d.
Definition demo_script : system := default lb_start (lb_run demo_alloc (demo_loop (demo_patches (tail demo_defs))) [Open OpenNow; Iterate (data_answer #"(xyz)"); Iterate end_answer; DoSettle; DoResume] lb_start).
Lemma loopback_scripts_valid_witness : served_data (obj (mem demo_script)) = Some #"(1yz)" ∧
  ∃ served, served_data (obj (mem demo_script)) = Some served ∧ (Some served = drained (given demo_script) ∨ utf8_valid served = true ∧ match find_sub #"2" served with Some _ => [ #"error"] | None => [] end = []).
Proof.
  split; [by vm_compute|].
  apply (loopback_scripts_valid demo_find demo_replace (λ _ c, (c, false)) (λ s, match find_sub #"2" s with Some _ => [ #"error"] | None => [] end) demo_alloc (Some (demo_patches (tail demo_defs))) #"/steam" demo_url (2 ^ 40) demo_script);
    [done|intros n; apply Z.leb_le|by vm_compute| |by vm_compute].
  unfold demo_script. destruct (lb_run _ _ _ _) as [s|] eqn:E; [|apply lb_reach_start]. eapply lb_run_reachable; [apply lb_reach_start|exact E].
Defined.

Lemma local_file_contained_witness :
  local_path_from_lb_url #"/steam" #"https://steamloopback.host//css/./a.css?x" = Some #"/steam/steamui/css/a.css" ∧
  ∃ parts, parts ≠ [] ∧ Forall plain parts ∧ #"/steam/steamui/css/a.css" = foldl path_push (path_push #"/steam" #"steamui") parts.
Proof. split; [by vm_compute|]. apply (local_file_contained #"/steam" #"https://steamloopback.host//css/./a.css?x"). by vm_compute. Defined.

(** ** Behaviour that departs from what the code means to do *)

(** A patch with an invalid [find] is left out of the compiled list but not of
    the file patterns, so the indices of the patches after it are one too
    large: the patch of another plugin is applied, or the access panics and the
    file cannot be loaded. *)
Theorem invalid_find_shifts_patches :
  let set := demo_patches [PatchDef #"bad" #"bad.js" #"(" []; PatchDef #"b" #"lib.js" #"y" [(#"y", #"2")]; PatchDef #"c" #"other.js" #"z" [(#"z", #"3")]] in
  (apply_patches demo_find demo_replace set #"xyz" #"/lib.js" []).1 = Ok (Some (#"xy3", [ #"c"])) ∧
  (apply_patches demo_find demo_replace set #"xyz" #"/other.js" []).1 = Throw panic.
Proof. by vm_compute. Qed.
(** Patches whose regions overlap are reported with a loser that will be
    skipped; it is applied all the same. *)
Theorem conflicting_patch_applied :
  apply_patches demo_find demo_replace (demo_patches [PatchDef #"a" #"lib.js" #"xyz" [(#"x", #"1")]; PatchDef #"b" #"lib.js" #"yz" [(#"y", #"2")]]) #"xyz" #"/lib.js" [] =
    (Ok (Some (#"12z", [ #"a"; #"b"])), [PatchEvent [] [] #"url_seen"; PatchEvent #"a" #"b" #"conflict"; PatchEvent #"a" [] #"match"; PatchEvent #"b" [] #"match"]).
Proof. by vm_compute. Qed.
(** A file without content is a null buffer, which is refused: it cannot be
    loaded. *)
Theorem empty_resource_fails : ∀ {rx} (f : rx → bytes → option (nat * nat)) r css syn alloc set steam url, lb_patch_content f r css syn alloc set steam url (drained []) = None.
Proof. done. Qed.
(** A reference followed by a letter is written so that the letter belongs to
    the name of the group. *)
Theorem reference_runs_into_text : re2_to_rust_rep #"\1a" = #"$1a".
Proof. by vm_compute. Qed.
