(* ===== verification/NumText.v ===== *)
(** * NumText: numbers as text

    The conversions of the C library that [lua_host/api/json.c] calls, in the
    C locale: [snprintf] with [%.Ng], [strtod] and [strtoll], on doubles given
    as [spec_float] with 53 bits of precision, and the wrappers [fpconv_g_fmt]
    and [fpconv_strtod].  Printing and reading round to nearest, ties to
    even. *)

From Stdlib Require Import SpecFloat.
From S2P Require Import Prelude State Json StrBuf.

(** ** Doubles *)

(** The double of an integer; exact below [2^53]. *)
Definition double_of_Z (n : Z) : spec_float :=
  if n =? 0 then S754_zero false else
  if Z.abs n <? 2 ^ 53 then
    let k := 52 - Z.log2 (Z.abs n) in S754_finite (n <? 0) (Z.to_pos (Z.abs n * 2 ^ k)) (- k)
  else binary_normalize 53 1024 n 0 false.

(** The double nearest to [n / d], for [0 <= n] and [0 < d]: two bits more than
    the precision and a sticky bit are kept. *)
Definition round_ratio (n d : Z) : spec_float :=
  if n =? 0 then S754_zero false else
  let s := 55 + Z.log2 d - Z.log2 n in
  let '(a, b) := if 0 <=? s then (n * 2 ^ s, d) else (n, d * 2 ^ (- s)) in
  binary_normalize 53 1024 (2 * (a / b) + (if a mod b =? 0 then 0 else 1)) (- s - 1) false.
Definition round_decimal (m e : Z) : spec_float := if 0 <=? e then round_ratio (m * 10 ^ e) 1 else round_ratio m (10 ^ (- e)).

(** ** [%.Ng] *)

(** The last [k] decimal digits. *)
Fixpoint digits (k : nat) (z : Z) : bytes :=
  match k with O => [] | S k => digits k (z / 10) ++ [z2b (48 + z mod 10)] end.
Fixpoint ndigits (fuel : nat) (n : Z) : Z :=
  match fuel with O => 1 | S fuel => if n <? 10 then 1 else 1 + ndigits fuel (n / 10) end.
Fixpoint lead (fuel : nat) (n d : Z) : Z :=
  match fuel with O => 0 | S fuel => if d <=? n then 0 else 1 + lead fuel (n * 10) d end.
(** The decimal exponent of [n / d]; a double has at most 309 digits before
    and 324 zeros after the point. *)
Definition log10 (n d : Z) : Z := if d <=? n then ndigits 400 (n / d) - 1 else - lead 400 n d.
Definition round_half_even (n d : Z) : Z :=
  let q := n / d in let r := n mod d in
  if 2 * r <? d then q else if d <? 2 * r then q + 1 else if Z.even q then q else q + 1.
(** The [p] significant digits of [n / d] and the exponent of the first. *)
Definition significand (p n d : Z) : Z * Z :=
  let x := log10 n d in
  let j := p - 1 - x in
  let v := if 0 <=? j then round_half_even (n * 10 ^ j) d else round_half_even n (d * 10 ^ (- j)) in
  if v =? 10 ^ p then (10 ^ (p - 1), x + 1) else (v, x).

Fixpoint strip_zeros (s : bytes) : bytes :=
  match s with
  | [] => []
  | c :: s => match strip_zeros s with [] => if beqb c "0" then [] else [c] | t => c :: t end
  end.
Definition with_fraction (i f : bytes) : bytes := i ++ match strip_zeros f with [] => [] | f => #"." ++ f end.
Definition exponent_text (x : Z) : bytes :=
  (if x <? 0 then #"-" else #"+") ++ digits (if Z.abs x <? 100 then 2 else 3) (Z.abs x).
Definition sign_text (s : bool) : bytes := if s then #"-" else [].
Definition fmt_finite (p n d : Z) : bytes :=
  let '(v, x) := significand p n d in
  let ds := digits (Z.to_nat p) v in
  if (x <? p) && (-4 <=? x) then
    if 0 <=? x then with_fraction (take (Z.to_nat (x + 1)) ds) (drop (Z.to_nat (x + 1)) ds)
    else with_fraction #"0" (replicate (Z.to_nat (- x - 1)) "0"%byte ++ ds)
  else with_fraction (take 1 ds) (drop 1 ds) ++ #"e" ++ exponent_text x.
Definition fmt_g (p : Z) (f : spec_float) : bytes :=
  match f with
  | S754_zero s => sign_text s ++ #"0"
  | S754_infinity s => sign_text s ++ #"inf"
  | S754_nan => #"nan"
  | S754_finite s m e => sign_text s ++ (if 0 <=? e then fmt_finite p (Z.pos m * 2 ^ e) 1 else fmt_finite p (Z.pos m) (2 ^ (- e)))
  end.

Definition FPCONV_G_FMT_BUFSIZE : Z := 32.
(** The assertion of [set_number_format], and the text. *)
Definition fpconv_g_fmt (num : spec_float) (precision : Z) : outcome bytes :=
  if (1 <=? precision) && (precision <=? 16) then Ok (fmt_g precision num) else die.

(** ** [strtoll] and [strtod]

    On a C string; the second component is the number of bytes used. *)

Fixpoint span (p : byte → bool) (s : bytes) : bytes :=
  match s with [] => [] | c :: s => if p c then c :: span p s else [] end.
Definition isspace (b : byte) : bool := beqb b " " || in_range 9 13 b.
Definition sign_of (s : bytes) : bool * nat :=
  match s with
  | c :: _ => if beqb c "-" then (true, 1%nat) else if beqb c "+" then (false, 1%nat) else (false, 0%nat)
  | [] => (false, 0%nat)
  end.
Definition digit_value (c : byte) : Z := if isdigit c then b2z c - 48 else b2z (tolower c) - 87.
Definition num_of (base : Z) (ds : bytes) : Z := foldl (λ a c, a * base + digit_value c) 0 ds.

Definition LLONG_MAX : Z := 2 ^ 63 - 1.
Definition LLONG_MIN : Z := - 2 ^ 63.
Definition strtoll (s : bytes) : Z * nat :=
  let sp := length (span isspace s) in
  let '(neg, sl) := sign_of (drop sp s) in
  let ds := span isdigit (drop (sp + sl) s) in
  let v := num_of 10 ds in
  match ds with
  | [] => (0, 0%nat)
  | _ => (Z.max LLONG_MIN (Z.min LLONG_MAX (if neg : bool then - v else v)), (sp + sl + length ds)%nat)
  end.

(** [digits [. digits]] with at least one digit. *)
Definition mantissa (p : byte → bool) (s : bytes) : option (bytes * bytes * nat) :=
  let ds := span p s in
  let rest := drop (length ds) s in
  let fs := match rest with c :: r => if beqb c "." then span p r else [] | [] => [] end in
  let point := match rest with c :: _ => if beqb c "." then 1%nat else 0%nat | [] => 0%nat end in
  match ds, fs with [], [] => None | _, _ => Some (ds, fs, (length ds + point + length fs)%nat) end.
(** [e [sign] digits], or nothing. *)
Definition exponent (e : byte) (s : bytes) : Z * nat :=
  match s with
  | c :: r =>
      if beqb (tolower c) e then
        let '(neg, sl) := sign_of r in
        let ds := span isdigit (drop sl r) in
        match ds with [] => (0, 0%nat) | _ => (if neg : bool then - num_of 10 ds else num_of 10 ds, (1 + sl + length ds)%nat) end
      else (0, 0%nat)
  | [] => (0, 0%nat)
  end.
Definition prefix_ci (p s : bytes) : bool := prefixb p (tolower <$> s).
Definition nan_chars (s : bytes) : nat :=
  match s with
  | c :: r =>
      let a := span (λ c, isalnum c || beqb c "_") r in
      if beqb c "(" && match drop (length a) r with d :: _ => beqb d ")" | [] => false end then (2 + length a)%nat else 0%nat
  | [] => 0%nat
  end.
Definition read_decimal (s : bytes) : option (spec_float * nat) :=
  match mantissa isdigit s with
  | None => None
  | Some (ds, fs, n) =>
      let '(e, k) := exponent "e" (drop n s) in
      Some (round_decimal (num_of 10 (ds ++ fs)) (e - len fs), (n + k)%nat)
  end.
Definition read_hex (s : bytes) : option (spec_float * nat) :=
  match mantissa isxdigit s with
  | None => None
  | Some (ds, fs, n) =>
      let '(e, k) := exponent "p" (drop n s) in
      Some (binary_normalize 53 1024 (num_of 16 (ds ++ fs)) (e - 4 * len fs) false, (n + k)%nat)
  end.
Definition read_magnitude (s : bytes) : option (spec_float * nat) :=
  if prefix_ci #"infinity" s then Some (S754_infinity false, 8%nat) else
  if prefix_ci #"inf" s then Some (S754_infinity false, 3%nat) else
  if prefix_ci #"nan" s then Some (S754_nan, (3 + nan_chars (drop 3 s))%nat) else
  match (if prefix_ci #"0x" s then read_hex (drop 2 s) else None) with
  | Some (f, n) => Some (f, (2 + n)%nat)
  | None => read_decimal s
  end.
Definition strtod (s : bytes) : spec_float * nat :=
  let sp := length (span isspace s) in
  let '(neg, sl) := sign_of (drop sp s) in
  match read_magnitude (drop (sp + sl) s) with
  | Some (f, n) => (if neg : bool then SFopp f else f, (sp + sl + n)%nat)
  | None => (S754_zero false, 0%nat)
  end.
Definition fpconv_strtod (s : bytes) : spec_float * nat := strtod s.

(** ** Bytes used *)

Lemma length_span p s : (length (span p s) <= length s)%nat.
Proof. induction s as [|c s IH]; cbn; [lia|]. destruct (p c); cbn; lia. Qed.
Lemma span_digits_app p a r : Forall (λ c, p c = true) a → match r with c :: _ => p c = false | [] => True end → span p (a ++ r) = a.
Proof. induction 1 as [|c a Hc _ IH]; cbn [app span]; intros Hr; [destruct r; [done|cbn; by rewrite Hr]|]. rewrite Hc. by rewrite IH. Qed.
Lemma sign_of_length s : ((sign_of s).2 <= length s)%nat.
Proof. destruct s as [|c s]; cbn; [lia|]. destruct (beqb c "-"); [cbn; lia|]. destruct (beqb c "+"); cbn; lia. Qed.

Lemma strtoll_length s : ((strtoll s).2 <= length s)%nat.
Proof.
  unfold strtoll. pose proof (length_span isspace s). pose proof (sign_of_length (drop (length (span isspace s)) s)) as Hs.
  destruct (sign_of _) as [neg sl]. cbn [snd] in Hs. rewrite length_drop in Hs.
  pose proof (length_span isdigit (drop (length (span isspace s) + sl) s)) as Hd. rewrite length_drop in Hd.
  destruct (span isdigit _); cbn [snd length] in *; lia.
Qed.

Lemma mantissa_length p s ds fs n : mantissa p s = Some (ds, fs, n) → (n <= length s)%nat.
Proof.
  unfold mantissa. pose proof (length_span p s) as H. pose proof (length_drop s (length (span p s))) as Hd.
  destruct (drop (length (span p s)) s) as [|c r] eqn:E; cbn [length] in Hd.
  - destruct (span p s); [done|]. intros [= <- <- <-]. cbn [length] in *. lia.
  - destruct (beqb c "."); [|destruct (span p s); [done|intros [= <- <- <-]; cbn [length] in *; lia]].
    pose proof (length_span p r). destruct (span p s), (span p r); try done; intros [= <- <- <-]; cbn [length] in *; lia.
Qed.
Lemma exponent_length e s : ((exponent e s).2 <= length s)%nat.
Proof.
  destruct s as [|c r]; cbn [exponent]; [cbn; lia|]. destruct (beqb _ e); [|cbn; lia].
  pose proof (sign_of_length r) as Hs. destruct (sign_of r) as [neg sl]. cbn [snd] in Hs.
  pose proof (length_span isdigit (drop sl r)) as Hd. rewrite length_drop in Hd.
  destruct (span isdigit _); cbn [snd length] in *; lia.
Qed.
Lemma prefix_ci_length p s : prefix_ci p s = true → (length p <= length s)%nat.
Proof. intros [r Hr]%prefixb_true. apply (f_equal length) in Hr. rewrite length_fmap, length_app in Hr. lia. Qed.
Lemma nan_chars_length s : (nan_chars s <= length s)%nat.
Proof.
  destruct s as [|c r]; cbn [nan_chars]; [cbn; lia|]. destruct (beqb c "("); cbn [andb]; [|lia].
  set (a := span _ r). pose proof (length_drop r (length a)) as Hd. destruct (drop (length a) r) as [|d q]; [lia|].
  destruct (beqb d ")"); cbn [length] in *; lia.
Qed.
Lemma read_magnitude_length s f n : read_magnitude s = Some (f, n) → (n <= length s)%nat.
Proof.
  assert (∀ s f n, read_decimal s = Some (f, n) → (n <= length s)%nat) as Hdec.
  { clear. intros s f n. unfold read_decimal. destruct (mantissa isdigit s) as [[[ds fs] k]|] eqn:E; [|done]. apply mantissa_length in E.
    pose proof (exponent_length "e" (drop k s)) as He. rewrite length_drop in He. destruct (exponent "e" (drop k s)) as [e j]. cbn [snd] in He. intros [= _ <-]. lia. }
  unfold read_magnitude. destruct (prefix_ci #"infinity" s) eqn:E1; [intros [= _ <-]; by apply prefix_ci_length in E1|].
  destruct (prefix_ci #"inf" s) eqn:E2; [intros [= _ <-]; by apply prefix_ci_length in E2|].
  destruct (prefix_ci #"nan" s) eqn:E3.
  { intros [= _ <-]. apply prefix_ci_length in E3. pose proof (nan_chars_length (drop 3 s)) as H. rewrite length_drop in H. change (length #"nan") with 3%nat in E3. lia. }
  destruct (prefix_ci #"0x" s) eqn:E4; [|apply Hdec]. apply prefix_ci_length in E4. change (length #"0x") with 2%nat in E4.
  unfold read_hex. destruct (mantissa isxdigit (drop 2 s)) as [[[ds fs] k]|] eqn:E; [|apply Hdec]. apply mantissa_length in E.
  pose proof (exponent_length "p" (drop k (drop 2 s))) as He. rewrite !length_drop in *. destruct (exponent "p" _) as [e j]. cbn [snd] in He. intros [= _ <-]. lia.
Qed.
Lemma strtod_length s : ((strtod s).2 <= length s)%nat.
Proof.
  unfold strtod. pose proof (length_span isspace s). pose proof (sign_of_length (drop (length (span isspace s)) s)) as Hs.
  destruct (sign_of _) as [neg sl]. cbn [snd] in Hs. rewrite length_drop in Hs.
  destruct (read_magnitude _) as [[f n]|] eqn:E; cbn [snd]; [|lia]. apply read_magnitude_length in E. rewrite length_drop in E. lia.
Qed.

(** ** Length of printed numbers *)

Lemma length_digits k z : length (digits k z) = k.
Proof. revert z. induction k as [|k IH]; intros z; cbn; [done|]. rewrite length_app, IH. cbn. lia. Qed.
Lemma length_strip_zeros s : (length (strip_zeros s) <= length s)%nat.
Proof. induction s as [|c s IH]; cbn; [lia|]. destruct (strip_zeros s); [destruct (beqb c "0"); cbn; lia|cbn in *; lia]. Qed.
Lemma length_with_fraction i f : (length (with_fraction i f) <= length i + 1 + length f)%nat.
Proof. unfold with_fraction. rewrite length_app. pose proof (length_strip_zeros f). destruct (strip_zeros f); cbn in *; lia. Qed.
Lemma length_exponent_text x : (length (exponent_text x) <= 4)%nat.
Proof. unfold exponent_text. rewrite length_app, length_digits. destruct (x <? 0), (Z.abs x <? 100); cbn; lia. Qed.

(** The longest text fits the buffer of [FPCONV_G_FMT_BUFSIZE] characters with
    its terminator. *)
Lemma fmt_g_length p f : 1 <= p <= 16 → len (fmt_g p f) < FPCONV_G_FMT_BUFSIZE.
Proof.
  intros Hp. unfold FPCONV_G_FMT_BUFSIZE, len. enough (length (fmt_g p f) < 32)%nat by lia.
  assert (∀ n d, (length (fmt_finite p n d) <= 30)%nat) as Hf.
  { intros n d. unfold fmt_finite. destruct (significand p n d) as [v x]. pose proof (length_digits (Z.to_nat p) v) as Hl.
    set (ds := digits _ v) in *. destruct (Z.ltb_spec x p), (Z.leb_spec (-4) x); cbn [andb];
      [destruct (Z.leb_spec 0 x)|..].
    - etransitivity; [apply length_with_fraction|]. rewrite length_take, length_drop. lia.
    - etransitivity; [apply length_with_fraction|]. rewrite length_app, length_replicate. change (length #"0") with 1%nat. lia.
    - rewrite !length_app. pose proof (length_exponent_text x). pose proof (length_with_fraction (take 1 ds) (drop 1 ds)) as Hw. rewrite length_take, length_drop in Hw. change (length #"e") with 1%nat. lia.
    - rewrite !length_app. pose proof (length_exponent_text x). pose proof (length_with_fraction (take 1 ds) (drop 1 ds)) as Hw. rewrite length_take, length_drop in Hw. change (length #"e") with 1%nat. lia.
    - rewrite !length_app. pose proof (length_exponent_text x). pose proof (length_with_fraction (take 1 ds) (drop 1 ds)) as Hw. rewrite length_take, length_drop in Hw. change (length #"e") with 1%nat. lia. }
  destruct f as [s|s| |s m e]; cbn [fmt_g]; rewrite ?length_app.
  1,2: destruct s; cbn; lia.
  1: cbn; lia.
  assert (length (sign_text s) <= 1)%nat by (destruct s; cbn; lia). destruct (0 <=? e); [pose proof (Hf (Z.pos m * 2 ^ e) 1)|pose proof (Hf (Z.pos m) (2 ^ (- e)))]; lia.
Qed.

(** ** Integers *)

Definition int_text (n : Z) : bytes := sign_text (n <? 0) ++ digits (Z.to_nat (ndigits 400 (Z.abs n))) (Z.abs n).

Lemma ndigits_spec fuel n : 0 < n → n < 10 ^ Z.of_nat (S fuel) → 1 <= ndigits fuel n ∧ 10 ^ (ndigits fuel n - 1) <= n < 10 ^ ndigits fuel n.
Proof.
  revert n. induction fuel as [|fuel IH]; intros n Hn Hf; cbn [ndigits].
  - change (10 ^ Z.of_nat 1) with 10 in Hf. change (10 ^ (1 - 1)) with 1. change (10 ^ 1) with 10. lia.
  - destruct (Z.ltb_spec n 10); [change (10 ^ (1 - 1)) with 1; change (10 ^ 1) with 10; lia|].
    rewrite (Nat2Z.inj_succ (S fuel)), Z.pow_succ_r in Hf by lia.
    destruct (IH (n / 10)) as [H1 H2]; [apply Z.div_str_pos; lia|apply Z.div_lt_upper_bound; lia|].
    split; [lia|]. replace (1 + ndigits fuel (n / 10) - 1) with (Z.succ (ndigits fuel (n / 10) - 1)) by lia.
    replace (1 + ndigits fuel (n / 10)) with (Z.succ (ndigits fuel (n / 10))) by lia. rewrite !Z.pow_succ_r by lia.
    pose proof (Z.div_mod n 10 ltac:(lia)). pose proof (Z.mod_pos_bound n 10 ltac:(lia)). lia.
Qed.

Lemma digits_app a b n : 0 <= n → digits (a + b) n = digits a (n / 10 ^ Z.of_nat b) ++ digits b n.
Proof.
  revert n. induction b as [|b IH]; intros n Hn.
  - rewrite Nat.add_0_r, app_nil_r. change (10 ^ Z.of_nat 0) with 1. by rewrite Z.div_1_r.
  - rewrite Nat.add_succ_r. cbn [digits]. rewrite IH by (apply Z.div_pos; lia). rewrite Z.div_div by lia.
    rewrite Nat2Z.inj_succ, Z.pow_succ_r by lia. by rewrite app_assoc.
Qed.
Lemma digits_zero k n : n mod 10 ^ Z.of_nat k = 0 → digits k n = replicate k "0"%byte.
Proof.
  revert n. induction k as [|k IH]; intros n Hn; [done|]. rewrite Nat2Z.inj_succ, Z.pow_succ_r in Hn by lia.
  assert (n = 10 * 10 ^ Z.of_nat k * (n / (10 * 10 ^ Z.of_nat k))) as E.
  { rewrite (Z.div_mod n (10 * 10 ^ Z.of_nat k)) at 1 by lia. lia. }
  set (q := n / (10 * 10 ^ Z.of_nat k)) in E. cbn [digits]. rewrite IH.
  - rewrite replicate_S_end. f_equal. rewrite E. replace (10 * 10 ^ Z.of_nat k * q) with (10 ^ Z.of_nat k * q * 10) by lia. by rewrite Z.mod_mul by lia.
  - rewrite E. replace (10 * 10 ^ Z.of_nat k * q) with (10 ^ Z.of_nat k * q * 10) by lia. rewrite Z.div_mul by lia. rewrite Z.mul_comm. apply Z.mod_mul. lia.
Qed.
Lemma strip_zeros_replicate k : strip_zeros (replicate k "0"%byte) = [].
Proof. induction k as [|k IH]; [done|]. cbn [replicate strip_zeros]. by rewrite IH. Qed.

Lemma fmt_finite_int p n c : 1 <= p <= 16 → 0 < n < 10 ^ p → 0 < c → fmt_finite p (n * c) c = digits (Z.to_nat (ndigits 400 n)) n.
Proof.
  intros Hp Hn Hc. assert (n < 10 ^ Z.of_nat 401) as Hbig.
  { eapply Z.lt_le_trans; [apply Hn|]. apply Z.pow_le_mono_r; lia. }
  destruct (ndigits_spec 400 n ltac:(lia) Hbig) as [Hk1 Hk2]. set (k := ndigits 400 n) in *.
  assert (k <= p) as Hkp. { destruct (Z.le_gt_cases k p); [done|]. assert (10 ^ p <= 10 ^ (k - 1)) by (apply Z.pow_le_mono_r; lia). lia. }
  unfold fmt_finite, significand, log10. destruct (Z.leb_spec c (n * c)); [|nia]. rewrite Z.div_mul by lia. fold k.
  replace (p - 1 - (k - 1)) with (p - k) by lia. destruct (Z.leb_spec 0 (p - k)); [|lia].
  assert (round_half_even (n * c * 10 ^ (p - k)) c = n * 10 ^ (p - k)) as ->.
  { unfold round_half_even. replace (n * c * 10 ^ (p - k)) with (n * 10 ^ (p - k) * c) by lia. rewrite Z.div_mul, Z.mod_mul by lia. by destruct (Z.ltb_spec (2 * 0) c); [|lia]. }
  assert (n * 10 ^ (p - k) < 10 ^ p) as Hlt.
  { replace (10 ^ p) with (10 ^ k * 10 ^ (p - k)) by (rewrite <- Z.pow_add_r by lia; f_equal; lia). apply Z.mul_lt_mono_pos_r; [apply Z.pow_pos_nonneg; lia|lia]. }
  destruct (Z.eqb_spec (n * 10 ^ (p - k)) (10 ^ p)); [lia|]. destruct (Z.ltb_spec (k - 1) p), (Z.leb_spec (-4) (k - 1)), (Z.leb_spec 0 (k - 1)); try lia. cbn [andb].
  replace (k - 1 + 1) with k by lia. replace (Z.to_nat p) with (Z.to_nat k + Z.to_nat (p - k))%nat by lia.
  rewrite digits_app by (apply Z.mul_nonneg_nonneg; [lia|apply Z.pow_nonneg; lia]). rewrite Z2Nat.id by lia. rewrite Z.div_mul by (pose proof (Z.pow_pos_nonneg 10 (p - k)); lia).
  rewrite take_app_length', drop_app_length' by (by rewrite length_digits). unfold with_fraction.
  rewrite (digits_zero (Z.to_nat (p - k))) by (rewrite Z2Nat.id by lia; apply Z.mod_mul; pose proof (Z.pow_pos_nonneg 10 (p - k)); lia).
  by rewrite strip_zeros_replicate, app_nil_r.
Qed.

(** An integer of at most [p] digits is printed as its digits. *)
Lemma fmt_g_int p n : 1 <= p <= 16 → Z.abs n < 10 ^ p → Z.abs n < 2 ^ 53 → fmt_g p (double_of_Z n) = int_text n.
Proof.
  intros Hp Hn H53. unfold double_of_Z. destruct (Z.eqb_spec n 0) as [->|Hn0]; [done|]. destruct (Z.ltb_spec (Z.abs n) (2 ^ 53)); [|lia].
  cbn [fmt_g]. unfold int_text. f_equal. pose proof (Z.log2_nonneg (Z.abs n)).
  assert (Z.log2 (Z.abs n) < 53) by (apply Z.log2_lt_pow2; lia). set (k := 52 - Z.log2 (Z.abs n)) in *.
  assert (0 < 2 ^ k) by (apply Z.pow_pos_nonneg; lia). rewrite Z2Pos.id by nia.
  destruct (Z.leb_spec 0 (- k)).
  - replace k with 0 in * by lia. change (- 0) with 0. rewrite Z.pow_0_r, !Z.mul_1_r. rewrite <- (Z.mul_1_r (Z.abs n)) at 1. apply fmt_finite_int; lia.
  - rewrite Z.opp_involutive. apply fmt_finite_int; lia.
Qed.

Lemma digits_isdigit k n : 0 <= n → Forall (λ c, isdigit c = true) (digits k n).
Proof.
  revert n. induction k as [|k IH]; intros n Hn; cbn; [constructor|]. apply Forall_app. split; [apply IH, Z.div_pos; lia|]. constructor; [|constructor].
  pose proof (Z.mod_pos_bound n 10 ltac:(lia)). unfold isdigit, in_range. rewrite b2z_z2b, Z.mod_small by lia. apply andb_true_iff. split; apply Z.leb_le; lia.
Qed.
Lemma num_of_digits k n : 0 <= n → num_of 10 (digits k n) = n mod 10 ^ Z.of_nat k.
Proof.
  intros Hn. revert n Hn. induction k as [|k IH]; intros n Hn; cbn [digits]; [by rewrite Z.pow_0_r, Z.mod_1_r|].
  unfold num_of in *. rewrite foldl_app. cbn [foldl]. rewrite IH by (apply Z.div_pos; lia).
  pose proof (Z.mod_pos_bound n 10 ltac:(lia)). unfold digit_value. unfold isdigit, in_range. rewrite b2z_z2b, (Z.mod_small (48 + n mod 10) 256) by lia.
  destruct (Z.leb_spec 48 (48 + n mod 10)), (Z.leb_spec (48 + n mod 10) 57); try lia. cbn [andb].
  rewrite Nat2Z.inj_succ, Z.pow_succ_r by lia. rewrite Z.rem_mul_r by (try apply Z.pow_pos_nonneg; lia). lia.
Qed.

Lemma digit_first c q : isdigit c = true → span isspace (c :: q) = [] ∧ sign_of (c :: q) = (false, 0%nat).
Proof. by destruct c. Qed.

(** What [strtoll] reads of a printed integer. *)
Lemma strtoll_int n r : Z.abs n < 2 ^ 53 → match r with c :: _ => isdigit c = false | [] => True end →
  strtoll (int_text n ++ r) = (n, length (int_text n)).
Proof.
  intros Hn Hr. assert (Hbig : 10 ^ 16 < 10 ^ Z.of_nat 401) by (apply Z.pow_lt_mono_r; lia).
  assert (0 <= ndigits 400 (Z.abs n)) as Hk0 by (destruct (Z.eqb_spec n 0) as [->|]; [done|]; pose proof (ndigits_spec 400 (Z.abs n) ltac:(lia) ltac:(lia)); lia).
  set (k := Z.to_nat (ndigits 400 (Z.abs n))).
  assert (num_of 10 (digits k (Z.abs n)) = Z.abs n ∧ digits k (Z.abs n) ≠ []) as [Hv Hne].
  { destruct (Z.eqb_spec n 0) as [->|Hn0]; [split; [reflexivity|discriminate]|]. pose proof (ndigits_spec 400 (Z.abs n) ltac:(lia) ltac:(lia)) as [H1 H2].
    rewrite num_of_digits by lia. subst k. rewrite Z2Nat.id, Z.mod_small by lia. split; [done|]. intros E%(f_equal length). rewrite length_digits in E. change (length (@nil byte)) with 0%nat in E. lia. }
  assert (Forall (λ c, isdigit c = true) (digits k (Z.abs n))) as Hd by (apply digits_isdigit; lia).
  clear Hbig.
  unfold int_text. fold k. set (ds := digits k (Z.abs n)) in *. clearbody ds. clear Hk0 k. unfold strtoll.
  destruct (Z.ltb_spec n 0) as [Hneg|Hpos]; cbn [sign_text].
  - change (#"-" ++ ds) with ("-"%byte :: ds). cbn [app]. change (span isspace ("-"%byte :: ds ++ r)) with (@nil byte). cbn [length].
    rewrite drop_0. change (sign_of ("-"%byte :: ds ++ r)) with (true, 1%nat). cbn [Nat.add drop]. rewrite ?drop_0, (span_digits_app _ ds r Hd Hr), Hv.
    destruct ds as [|d ds']; [done|]. unfold LLONG_MIN, LLONG_MAX. f_equal; lia.
  - cbn [app]. destruct ds as [|d ds'] eqn:E; [done|]. rewrite <- E in *. pose proof Hd as Hd'. rewrite E in Hd'. apply Forall_cons in Hd' as [Hd1 _].
    destruct (digit_first d (ds' ++ r) Hd1) as [H1 H2]. rewrite E. cbn [app]. rewrite H1. cbn [length]. rewrite drop_0, H2. cbn [Nat.add]. rewrite drop_0.
    change (d :: ds' ++ r) with ((d :: ds') ++ r). rewrite <- E. rewrite (span_digits_app _ ds r Hd Hr), Hv, E. unfold LLONG_MIN, LLONG_MAX. f_equal; lia.
Qed.
