(* ===== verification/LuaEncode.v ===== *)
(** * LuaEncode: Lua values written as JSON

    The encoder of [lua_host/api/json.c]: [json_append_data] and the functions
    it calls, over the buffers of [StrBuf].  A Lua table is a reference into a
    store, so a table can contain itself; its entries are listed in the order
    [lua_next] visits them.  Metamethods are functions of the table; what the
    interpreter answers to [lua_objlen] and [lua_checkstack] is a parameter.

    [text_data] says which text a value has, without a buffer.  The encoder
    writes exactly that text ([append_data_text]); so its unchecked appends
    stay inside the buffer, and it ends also on cyclic tables. *)

From Stdlib Require Import SpecFloat.
From S2P Require Import Prelude State Json StrBuf NumText.

(** ** Lua values *)

(** Light userdata: null, the address of [json_array], any other. *)
Inductive light := PNull | PJsonArray | POther.
Inductive other := Function | Userdata | Thread | CData.
(** A table, function and the like is a reference. *)
Inductive lval :=
  | LNil
  | LBool (b : bool)
  | LNum (f : spec_float)
  | LStr (s : bytes)
  | LLight (p : light)
  | LTable (r : positive)
  | LOther (o : other) (id : positive).

#[export] Instance light_eq_dec : EqDecision light.
Proof. solve_decision. Defined.
#[export] Instance other_eq_dec : EqDecision other.
Proof. solve_decision. Defined.
#[export] Instance lval_eq_dec : EqDecision lval.
Proof. solve_decision. Defined.

(** A metatable: [array_mt], [empty_array_mt] or another one; what [__len]
    returns, as a number, and what indexing an absent integer gives. *)
Inductive meta_kind := MArray | MEmptyArray | MOther.
Record metatable := Metatable { m_kind : meta_kind; m_len : option (outcome spec_float); m_index : Z → outcome lval }.
Record ltable := Table { t_entries : list (lval * lval); t_meta : option metatable }.
Definition store := positive → ltable.

Fixpoint raw_get (k : lval) (es : list (lval * lval)) : lval :=
  match es with [] => LNil | (k', v) :: es => if bool_decide (k = k') then v else raw_get k es end.
Definition lua_typename (v : lval) : bytes :=
  match v with
  | LNil => #"nil" | LBool _ => #"boolean" | LNum _ => #"number" | LStr _ => #"string"
  | LLight _ => #"userdata" | LTable _ => #"table"
  | LOther Function _ => #"function" | LOther Userdata _ => #"userdata" | LOther Thread _ => #"thread" | LOther CData _ => #"cdata"
  end.
Definition isnan (f : spec_float) : bool := match f with S754_nan => true | _ => false end.
Definition isinf (f : spec_float) : bool := match f with S754_infinity _ => true | _ => false end.
Definition negative (f : spec_float) : bool := match f with S754_infinity s | S754_finite s _ _ => s | _ => false end.
(** The integer a double is, if it is one. *)
Definition float_int (f : spec_float) : option Z :=
  match f with
  | S754_zero _ => Some 0
  | S754_finite s m e =>
      let n := if s then Z.neg m else Z.pos m in
      if 0 <=? e then Some (n * 2 ^ e) else if n mod 2 ^ (- e) =? 0 then Some (n / 2 ^ (- e)) else None
  | _ => None
  end.
(** A double converted to [int]: undefined outside its range. *)
Definition float_to_int (f : spec_float) : outcome Z :=
  match float_trunc f with
  | Some z => if (- 2 ^ 31 <=? z) && (z <? 2 ^ 31) then Ok z else UB
  | None => UB
  end.

(** ** Configuration *)

Record json_config := JsonConfig {
  encode_buf : strbuf;
  encode_sparse_convert : bool;
  encode_sparse_ratio : Z;
  encode_sparse_safe : Z;
  encode_max_depth : Z;
  encode_invalid_numbers : Z;
  encode_number_precision : Z;
  encode_keep_buffer : bool;
  encode_empty_table_as_object : bool;
  encode_escape_forward_slash : bool;
  decode_invalid_numbers : bool;
  decode_max_depth : Z;
  decode_array_with_array_mt : bool;
  encode_skip_unsupported_value_types : bool;
}.

Definition hex_digit (z : Z) : byte := z2b (if z <? 10 then 48 + z else 87 + z).
(** The escape table; the entry of the slash is set by a configuration
    function, for every instance of the module. *)
Definition char2escape (slash : bool) (c : byte) : option bytes :=
  if beqb c x08 then Some #"\b" else
  if beqb c x09 then Some #"\t" else
  if beqb c x0a then Some #"\n" else
  if beqb c x0c then Some #"\f" else
  if beqb c x0d then Some #"\r" else
  if beqb c x22 then Some ("\"%byte :: [x22]) else
  if beqb c "/" then (if slash then Some #"\/" else None) else
  if beqb c "\" then Some #"\\" else
  if (b2z c <? 32) || (b2z c =? 127) then Some (#"\u00" ++ [hex_digit (b2z c / 16); hex_digit (b2z c mod 16)]) else
  None.

Section encode.
  Context `{T : target}.
  Variable alloc : Z → bool.
  (** [lua_objlen] of a table, and whether the Lua stack can grow at a depth. *)
  Variable objlen : ltable → Z.
  Variable checkstack : Z → bool.
  Variable slash : bool.
  Variable cfg : json_config.
  Variable h : store.
  Abbreviation M := (SM strbuf).

Definition cannot_serialise {A} (v : lval) (reason : bytes) : outcome A :=
  Throw (#"Cannot serialise " ++ lua_typename v ++ #": " ++ reason).

(** ** Encoding *)

Fixpoint append_escaped (s : bytes) : M () :=
  match s with
  | [] => mret tt
  | c :: s =>
      _ ← match char2escape slash c with Some e => strbuf_append_string alloc e | None => strbuf_append_char_unsafe c end;
      append_escaped s
  end.
Definition json_append_string (s : bytes) : M () :=
  if SIZE_MAX / 6 - 3 <? len s then lift die else
  _ ← strbuf_ensure_empty_length alloc (len s * 6 + 2);
  _ ← strbuf_append_char_unsafe x22;
  _ ← append_escaped s;
  strbuf_append_char_unsafe x22.

(** [floor(k) == k] holds of infinity too, which [int] does not hold. *)
Fixpoint array_scan (es : list (lval * lval)) (max items : Z) : outcome (option (Z * Z)) :=
  match es with
  | [] => Ok (Some (max, items))
  | (LNum (S754_infinity false), _) :: _ => UB
  | (LNum k, _) :: es =>
      match float_int k with
      | Some n =>
          if 1 <=? n then
            max ← (if max <? n then (if n <? 2 ^ 31 then Ok n else UB) else Ok max);
            if items =? INT_MAX then UB else array_scan es max (items + 1)
          else Ok None
      | None => Ok None
      end
  | _ => Ok None
  end.
(** -1: an object; otherwise the number of elements. *)
Definition lua_array_length (v : lval) (t : ltable) : outcome Z :=
  r ← array_scan (t_entries t) 0 0;
  match r with
  | None => Ok (-1)
  | Some (max, items) =>
      sparse ← (if 0 <? encode_sparse_ratio cfg then
                  if INT_MAX <? items * encode_sparse_ratio cfg then UB
                  else Ok ((items * encode_sparse_ratio cfg <? max) && (encode_sparse_safe cfg <? max))
                else Ok false);
      if (sparse : bool) then
        if negb (encode_sparse_convert cfg) then cannot_serialise v #"excessively sparse array" else Ok (-1)
      else Ok max
  end.

Definition nesting_error (depth : Z) : bytes := #"Cannot serialise, excessive nesting (" ++ dec (Z.to_N depth) ++ #")".
Definition json_check_encode_depth (depth : Z) : outcome () :=
  if (depth <=? encode_max_depth cfg) && checkstack depth then Ok tt else Throw (nesting_error depth).

(** One element written by [write]; a skipped one leaves no trace. *)
Definition append_item (write : M bool) (comma : Z) : M Z :=
  n ← strbuf_length;
  let json_pos := i32 n in
  _ ← (if 0 <? comma then strbuf_append_char alloc "," else mret tt);
  let comma := comma + 1 in
  err ← write;
  if (err : bool) then _ ← strbuf_set_length json_pos; mret (if comma =? 1 then 0 else comma) else mret comma.
Fixpoint append_items (ws : list (M bool)) (comma : Z) : M () :=
  match ws with [] => mret tt | w :: ws => comma ← append_item w comma; append_items ws comma end.

(** [lua_rawgeti], or [lua_gettable] with an integer key. *)
Definition get_element (t : ltable) (raw : bool) (i : Z) : outcome lval :=
  match raw_get (LNum (double_of_Z i)) (t_entries t), raw, t_meta t with
  | LNil, false, Some m => m_index m i
  | v, _, _ => Ok v
  end.
Definition indices (n : Z) : list Z := Z.of_nat <$> seq 1 (Z.to_nat n).
Definition json_append_array (write : lval → M bool) (t : ltable) (n : Z) (raw : bool) : M () :=
  _ ← strbuf_append_char alloc "[";
  _ ← append_items ((λ i, v ← lift (get_element t raw i); write v) <$> indices n) 0;
  strbuf_append_char alloc "]".

Definition json_append_number (v : lval) (num : spec_float) : M () :=
  let finite :=
    _ ← strbuf_ensure_empty_length alloc FPCONV_G_FMT_BUFSIZE;
    text ← lift (fpconv_g_fmt num (encode_number_precision cfg));
    strbuf_append_mem_unsafe text in
  if encode_invalid_numbers cfg =? 0 then
    if isinf num || isnan num then lift (cannot_serialise v #"must not be NaN or Infinity") else finite
  else if encode_invalid_numbers cfg =? 1 then
    if isnan num then strbuf_append_mem alloc #"NaN" else
    if isinf num then strbuf_append_mem alloc (if negative num then #"-Infinity" else #"Infinity") else finite
  else if isinf num || isnan num then strbuf_append_mem alloc #"null" else finite.

Definition append_key (k : lval) : M () :=
  match k with
  | LNum f =>
      _ ← strbuf_append_char alloc x22;
      _ ← json_append_number k f;
      strbuf_append_mem alloc [x22; ":"%byte]
  | LStr s => _ ← json_append_string s; strbuf_append_char alloc ":"
  | _ => lift (cannot_serialise k #"table key must be a number or string")
  end.
Definition json_append_object (write : lval → M bool) (t : ltable) : M () :=
  _ ← strbuf_append_char alloc "{";
  _ ← append_items ((λ e, _ ← append_key e.1; write e.2) <$> t_entries t) 0;
  strbuf_append_char alloc "}".

(** How a table is written: as an array of a length, or as an object. *)
Inductive layout := AsArray (n : Z) (raw : bool) | AsObject.
Definition table_layout (v : lval) (t : ltable) : outcome layout :=
  let raw := match t_meta t with Some m => match m_kind m with MArray => true | _ => false end | None => true end in
  forced ← match t_meta t with
           | Some m =>
               match m_kind m with
               | MArray => Ok (Some (i32 (objlen t)))
               | _ => match m_len m with Some r => f ← r; n ← float_to_int f; Ok (Some n) | None => Ok None end
               end
           | None => Ok None
           end;
  match forced with
  | Some n => Ok (AsArray n raw)
  | None =>
      n ← lua_array_length v t;
      if (0 <? n) || ((n =? 0) && negb (encode_empty_table_as_object cfg)) then Ok (AsArray n raw) else
      match t_meta t with
      | Some m => match m_kind m with MEmptyArray => Ok (AsArray (i32 (objlen t)) true) | _ => Ok AsObject end
      | None => Ok AsObject
      end
  end.

(** Returns whether the value was skipped.  The depth limit bounds the
    recursion. *)
Fixpoint json_append_data (fuel : nat) (depth : Z) (v : lval) : M bool :=
  match v with
  | LStr s => _ ← json_append_string s; mret false
  | LNum f => _ ← json_append_number v f; mret false
  | LBool b => _ ← strbuf_append_mem alloc (if b then #"true" else #"false"); mret false
  | LTable r =>
      match fuel with
      | O => lift NoFuel
      | S fuel =>
          let depth := depth + 1 in
          _ ← lift (json_check_encode_depth depth);
          l ← lift (table_layout v (h r));
          _ ← match l with
              | AsArray n raw => json_append_array (json_append_data fuel depth) (h r) n raw
              | AsObject => json_append_object (json_append_data fuel depth) (h r)
              end;
          mret false
      end
  | LNil => _ ← strbuf_append_mem alloc #"null"; mret false
  | LLight PNull => _ ← strbuf_append_mem alloc #"null"; mret false
  | LLight PJsonArray => _ ← strbuf_append_char alloc "["; _ ← strbuf_append_char alloc "]"; mret false
  | LLight POther => mret false
  | LOther _ _ =>
      if encode_skip_unsupported_value_types cfg then mret true else lift (cannot_serialise v #"type not supported")
  end.
Definition encode_fuel : nat := S (Z.to_nat (encode_max_depth cfg)).

(** ** The text of a value *)

Definition escape_char (c : byte) : bytes := match char2escape slash c with Some e => e | None => [c] end.
Definition text_string (s : bytes) : bytes := [x22] ++ concat (escape_char <$> s) ++ [x22].
Definition text_number (v : lval) (num : spec_float) : outcome bytes :=
  if isinf num || isnan num then
    if encode_invalid_numbers cfg =? 0 then cannot_serialise v #"must not be NaN or Infinity" else
    if encode_invalid_numbers cfg =? 1 then Ok (if isnan num then #"NaN" else if negative num then #"-Infinity" else #"Infinity")
    else Ok #"null"
  else fpconv_g_fmt num (encode_number_precision cfg).
Definition text_key (k : lval) : outcome bytes :=
  match k with
  | LNum f => t ← text_number k f; Ok ([x22] ++ t ++ [x22; ":"%byte])
  | LStr s => Ok (text_string s ++ #":")
  | _ => cannot_serialise k #"table key must be a number or string"
  end.
(** The texts of the elements that have one, separated by commas. *)
Fixpoint text_items (ts : list (outcome (option bytes))) (first : bool) : outcome bytes :=
  match ts with
  | [] => Ok []
  | o :: ts =>
      t ← o;
      match t with
      | Some t => r ← text_items ts false; Ok ((if first then [] else #",") ++ t ++ r)
      | None => text_items ts first
      end
  end.
Fixpoint text_data (fuel : nat) (depth : Z) (v : lval) : outcome (option bytes) :=
  match v with
  | LStr s => Ok (Some (text_string s))
  | LNum f => t ← text_number v f; Ok (Some t)
  | LBool b => Ok (Some (if b then #"true" else #"false"))
  | LTable r =>
      match fuel with
      | O => NoFuel
      | S fuel =>
          _ ← json_check_encode_depth (depth + 1);
          l ← table_layout v (h r);
          match l with
          | AsArray n raw =>
              t ← text_items ((λ i, v ← get_element (h r) raw i; text_data fuel (depth + 1) v) <$> indices n) true;
              Ok (Some (#"[" ++ t ++ #"]"))
          | AsObject =>
              t ← text_items ((λ e, k ← text_key e.1; t ← text_data fuel (depth + 1) e.2; Ok (option_map (app k) t)) <$> t_entries (h r)) true;
              Ok (Some (#"{" ++ t ++ #"}"))
          end
      end
  | LNil | LLight PNull => Ok (Some #"null")
  | LLight PJsonArray => Ok (Some #"[]")
  | LLight POther => Ok (Some [])
  | LOther _ _ => if encode_skip_unsupported_value_types cfg then Ok None else cannot_serialise v #"type not supported"
  end.
End encode.

(** ** The call from Lua *)

Definition set_encode_buf (b : strbuf) (c : json_config) : json_config :=
  let 'JsonConfig _ a2 a3 a4 a5 a6 a7 a8 a9 a10 a11 a12 a13 a14 := c in JsonConfig b a2 a3 a4 a5 a6 a7 a8 a9 a10 a11 a12 a13 a14.
Definition on_encode_buf {A} (m : SM strbuf A) : SM json_config A := λ c,
  let '(r, b) := m (encode_buf c) in (r, set_encode_buf b c).
(** [lua_pushlstring] of the buffer. *)
Definition strbuf_string : SM strbuf bytes := λ s, if sb_live s then (Ok (sb_data s), s) else (UB, s).
Definition arg_error : bytes := #"bad argument #1 (expected 1 argument)".

Definition json_encode `{T : target} (alloc : Z → bool) (objlen : ltable → Z) (checkstack : Z → bool) (slash : bool) (h : store) (args : list lval) : SM json_config bytes := λ cfg,
  match args with
  | [v] =>
      let run := _ ← json_append_data alloc objlen checkstack slash cfg h (encode_fuel cfg) 0 v; strbuf_string in
      if negb (encode_keep_buffer cfg) then
        let m := _ ← strbuf_init alloc 0; json ← run; _ ← strbuf_free; mret json in
        ((m (StrBuf false 0 [])).1, cfg)
      else on_encode_buf (_ ← strbuf_reset; run) cfg
  | _ => (Throw arg_error, cfg)
  end.

(** ** The encoder writes the text *)

(** Strings and metamethod results as the interpreter can hold them. *)
Definition fits `{T : target} (v : lval) : Prop := match v with LStr s => len s <= MEM_MAX | _ => True end.
Definition store_fits `{T : target} (h : store) : Prop := ∀ r,
  Forall (λ e, fits e.1 ∧ fits e.2) (t_entries (h r)) ∧
  ∀ m, t_meta (h r) = Some m → (∀ o, m_len m = Some o → defined o) ∧ ∀ i, safe (m_index m i) fits.

Lemma escape_length slash c e : char2escape slash c = Some e → 1 <= len e <= 6.
Proof. destruct slash, c; cbn; intros [= <-]; unfold len; cbn; lia. Qed.

Section refine.
  Context `{T : target}.
  Variable alloc : Z → bool.
  Variable objlen : ltable → Z.
  Variable checkstack : Z → bool.
  Variable slash : bool.
  Variable cfg : json_config.
  Variable h : store.
  Variable limit : Z.
  Hypothesis Hlimit : limit <= MEM_MAX.
  Hypothesis Halloc : ∀ n, alloc n = true → n <= limit.
  Hypothesis Hfits : store_fits h.
  Abbreviation M := (SM strbuf).
  Abbreviation hold := (holds limit).

(** The error of the text, with the buffer still usable, or no memory. *)
Definition fails {A} (o : outcome A) (e : bytes) (b : strbuf) : Prop := aborted e ∨ o = Throw e ∧ ∃ t, hold t 0 b.
(** Code that appends a text; code that appends one or skips it. *)
Definition appends (m : M ()) (o : outcome bytes) : Prop := ∀ t b, hold t 0 b → defined o →
  wp m b (λ _ b', match o with Ok x => hold (t ++ x) 0 b' | _ => False end) (fails o).
Definition writes (m : M bool) (o : outcome (option bytes)) : Prop := (o = Ok None → limit <= 2 ^ 31) ∧ ∀ t b, hold t 0 b → defined o →
  wp m b (λ err b', match o with Ok (Some x) => err = false ∧ hold (t ++ x) 0 b' | Ok None => err = true ∧ ∃ j, hold (t ++ j) 0 b' | _ => False end) (fails o).

Lemma fails_abort {A} (o : outcome A) e b : aborted e → fails o e b.
Proof. by left. Qed.
Lemma fails_mono {A B} (o : outcome A) (o' : outcome B) e b : fails o e b → (o = Throw e → o' = Throw e) → fails o' e b.
Proof. intros [H|[H ?]] Ho; [by left|]. right. auto. Qed.

Lemma appends_mem c : len c <= 2 ^ 31 → appends (strbuf_append_mem alloc c) (Ok c).
Proof. intros Hc t b H _. pose proof word_size. eapply wp_mono; [apply (wp_append_mem alloc limit Hlimit Halloc t c b H); lia|auto|]. intros e b' ?. by left. Qed.
Lemma appends_char c : appends (strbuf_append_char alloc c) (Ok [c]).
Proof. intros t b H _. eapply wp_mono; [apply (wp_append_char alloc limit Hlimit Halloc t c b H)|auto|]. intros e b' ?. by left. Qed.
Lemma appends_throw e : appends (lift (Throw e)) (Throw e).
Proof. intros t b H _. right. eauto. Qed.
Lemma appends_bind m1 m2 o1 o2 : appends m1 o1 → (∀ x, o1 = Ok x → appends m2 o2) →
  appends (_ ← m1; m2) (x ← o1; y ← o2; Ok (x ++ y)).
Proof.
  intros H1 H2 t b H Hd. apply wp_bind. assert (defined o1) as Hd1 by (destruct o1; by destruct Hd).
  eapply wp_mono; [apply (H1 t b H Hd1)| |].
  - intros [] b'. destruct o1 as [x|e| |]; try done. intros Hb. bind_simpl. cbn [mbind outcome_bind] in Hd.
    assert (defined o2) as Hd2 by (destruct o2; by destruct Hd). eapply wp_mono; [apply (H2 x eq_refl _ _ Hb Hd2)| |].
    + intros [] b''. destruct o2; cbn; try done. by rewrite app_assoc.
    + intros e b'' Hf. eapply fails_mono; [exact Hf|]. by intros ->.
  - intros e b' Hf. eapply fails_mono; [exact Hf|]. by intros ->.
Qed.

Lemma wp_append_escaped s t n b : hold t n b → 6 * len s <= n →
  wp (append_escaped alloc slash s) b (λ _ b', hold (t ++ concat (escape_char slash <$> s)) (n - 6 * len s) b') (λ e _, aborted e).
Proof.
  revert t n b. induction s as [|c s IH]; intros t n b H Hn; cbn [append_escaped].
  - apply wp_ret. cbn. rewrite app_nil_r. change (len []) with 0. by rewrite Z.mul_0_r, Z.sub_0_r.
  - rewrite len_cons in *. pose proof (len_nonneg s). apply wp_bind. change (concat (escape_char slash <$> c :: s)) with (escape_char slash c ++ concat (escape_char slash <$> s)). rewrite app_assoc.
    assert (∃ k, 1 <= k <= 6 ∧ wp (match char2escape slash c with Some e => strbuf_append_string alloc e | None => strbuf_append_char_unsafe c end) b
              (λ _ b', hold (t ++ escape_char slash c) (n - k) b') (λ e _, aborted e)) as (k & Hk & Hw).
    { unfold escape_char. destruct (char2escape slash c) as [e|] eqn:E.
      - apply escape_length in E. exists (len e). split; [done|]. apply (wp_append_string alloc limit Hlimit t n e b H). lia.
      - exists 1. split; [lia|]. apply (wp_append_unsafe limit t n [c] b H). change (len [c]) with 1. lia. }
    eapply wp_mono; [exact Hw| |auto]. intros [] b' Hb. eapply wp_mono; [apply (IH (t ++ escape_char slash c) (n - 6) b'); [eapply holds_weaken; [exact Hb|lia]|lia]| |auto].
    intros [] b'' Hb'. eapply holds_weaken; [exact Hb'|lia].
Qed.

Lemma appends_string s : len s <= MEM_MAX → appends (json_append_string alloc slash s) (Ok (text_string slash s)).
Proof.
  intros Hs t b H _. unfold json_append_string. destruct (SIZE_MAX / 6 - 3 <? len s); [by left|]. pose proof (len_nonneg s). destruct mem_max_word as (Hw0 & Hw1 & Hw2).
  apply wp_bind. eapply wp_mono; [apply (wp_ensure alloc limit Hlimit Halloc t 0 (len s * 6 + 2) b H); lia| |intros; by left].
  intros [] b1 H1. apply wp_bind. eapply wp_mono; [apply (wp_append_unsafe limit t _ [x22] b1 H1); change (len [x22]) with 1; lia| |intros; by left].
  intros [] b2 H2. change (len [x22]) with 1 in H2. apply wp_bind. eapply wp_mono; [apply (wp_append_escaped s _ _ b2 H2); lia| |intros; by left].
  intros [] b3 H3. eapply wp_mono; [apply (wp_append_unsafe limit _ _ [x22] b3 H3); change (len [x22]) with 1; lia| |intros; by left].
  intros [] b4 H4. unfold text_string. rewrite !app_assoc. eapply holds_weaken; [exact H4|]. change (len [x22]) with 1. lia.
Qed.

Lemma appends_number v f : appends (json_append_number alloc cfg v f) (text_number cfg v f).
Proof.
  assert (appends (_ ← strbuf_ensure_empty_length alloc FPCONV_G_FMT_BUFSIZE;
                   text ← lift (fpconv_g_fmt f (encode_number_precision cfg)); strbuf_append_mem_unsafe text) (fpconv_g_fmt f (encode_number_precision cfg))) as Hfin.
  { intros t b H _. apply wp_bind. eapply wp_mono; [apply (wp_ensure alloc limit Hlimit Halloc t 0 FPCONV_G_FMT_BUFSIZE b H); unfold FPCONV_G_FMT_BUFSIZE; pose proof word_size; lia| |intros; by left].
    intros [] b1 H1. unfold fpconv_g_fmt. destruct ((1 <=? _) && _) eqn:E; bool_to_prop; [|right; split; [done|]; exists t; eapply holds_weaken; [exact H1|unfold FPCONV_G_FMT_BUFSIZE; lia]].
    pose proof (fmt_g_length (encode_number_precision cfg) f ltac:(lia)). apply wp_bind. cbn [lift wp]. 
    eapply wp_mono; [apply (wp_append_unsafe limit t _ (fmt_g _ f) b1 H1); lia| |intros; by left]. intros [] b2 K2. eapply holds_weaken; [exact K2|]. lia. }
  unfold json_append_number, text_number. destruct (encode_invalid_numbers cfg =? 0) eqn:E0.
  - destruct (isinf f || isnan f); [apply appends_throw|done].
  - destruct (encode_invalid_numbers cfg =? 1).
    + destruct (isnan f) eqn:En; [rewrite orb_true_r; by apply appends_mem|]. rewrite orb_false_r. destruct (isinf f); [|done].
      destruct (negative f); by apply appends_mem.
    + destruct (isinf f || isnan f); [by apply appends_mem|done].
Qed.

Lemma appends_ext m o o' : appends m o → o = o' → appends m o'.
Proof. by intros ? <-. Qed.
Lemma appends_key k : fits k → appends (append_key alloc slash cfg k) (text_key slash cfg k).
Proof.
  intros Hk. destruct k as [| |f|s|p|r|o]; cbn [append_key text_key]; try apply appends_throw.
  - eapply appends_ext; [apply (appends_bind _ _ (Ok [x22]) (t ← text_number cfg (LNum f) f; y ← Ok [x22; ":"%byte]; Ok (t ++ y)));
      [apply appends_char|intros ? _; apply appends_bind; [apply appends_number|intros ? _; by apply appends_mem]]|].
    by destruct (text_number cfg (LNum f) f).
  - eapply appends_ext; [apply (appends_bind _ _ (Ok (text_string slash s)) (Ok [":"%byte])); [by apply appends_string|intros ? _; apply appends_char]|done].
Qed.

Lemma writes_appends m o : appends m o → writes (_ ← m; mret false) (x ← o; Ok (Some x)).
Proof.
  intros Hm. split; [by destruct o|]. intros t b H Hd. assert (defined o) as Hd1 by (destruct o; by destruct Hd).
  apply wp_bind. eapply wp_mono; [apply (Hm t b H Hd1)| |].
  - intros [] b'. by destruct o.
  - intros e b' Hf. eapply fails_mono; [exact Hf|]. by intros ->.
Qed.
Lemma writes_ext m o o' : writes m o → o = o' → writes m o'.
Proof. by intros ? <-. Qed.
Lemma writes_key m1 m2 o1 o2 : appends m1 o1 → writes m2 o2 → writes (_ ← m1; m2) (k ← o1; t ← o2; Ok (option_map (app k) t)).
Proof.
  intros H1 [Hn H2]. split; [destruct o1; [|done..]; destruct o2 as [[]| | |]; try done; auto|]. intros t b H Hd.
  assert (defined o1) as Hd1 by (destruct o1; by destruct Hd). apply wp_bind. eapply wp_mono; [apply (H1 t b H Hd1)| |].
  - intros [] b'. destruct o1 as [x|e| |]; try done. intros Hb. bind_simpl. cbn [mbind outcome_bind] in Hd. assert (defined o2) as Hd2 by (destruct o2; by destruct Hd).
    eapply wp_mono; [apply (H2 _ _ Hb Hd2)| |].
    + intros err b''. destruct o2 as [[y|]| | |]; cbn; try done.
      * by rewrite app_assoc.
      * intros [-> [j Hj]]. split; [done|]. exists (x ++ j). by rewrite app_assoc.
    + intros e b'' Hf. eapply fails_mono; [exact Hf|]. by intros ->.
  - intros e b' Hf. eapply fails_mono; [exact Hf|]. by intros ->.
Qed.
Lemma writes_get o m (f : lval → outcome (option bytes)) : safe o fits → (∀ v, fits v → writes (m v) (f v)) → writes (v ← lift o; m v) (v ← o; f v).
Proof.
  intros Ho Hm. destruct o as [v|e| |]; try done; cbn in Ho.
  - by apply Hm.
  - split; [done|]. intros t b H _. right. eauto.
Qed.

Lemma wp_set_length t j b : hold (t ++ j) 0 b → limit <= 2 ^ 31 → wp (strbuf_set_length (i32 (len t))) b (λ _ b', hold t 0 b') (λ e _, aborted e).
Proof.
  intros (Hl & Hd & Hsz & Hmax) H31. rewrite len_app in Hsz. pose proof (len_nonneg t). pose proof (len_nonneg j).
  assert (i32 (len t) = len t) as -> by (unfold i32; rewrite Z.mod_small; lia). unfold wp, strbuf_set_length. rewrite Hd, len_app.
  destruct (Z.leb_spec 0 (len t)), (Z.leb_spec (len t) (len t + len j)); try lia. cbn [andb]. unfold holds. cbn [sb_live sb_data sb_size].
  rewrite to_nat_len, take_app_length. split_and!; auto; lia.
Qed.

(** One element, after the elements that were kept. *)
Lemma wp_append_item m o comma t b : writes m o → 0 <= comma → hold t 0 b → defined o →
  wp (append_item alloc m comma) b
    (λ comma' b', 0 <= comma' ∧ match o with
       | Ok (Some x) => 0 < comma' ∧ hold (t ++ (if comma =? 0 then [] else #",") ++ x) 0 b'
       | Ok None => (comma' =? 0) = (comma =? 0) ∧ hold t 0 b'
       | _ => False end) (fails o).
Proof.
  intros [Hn Hm] Hc H Hd. unfold append_item. apply wp_bind, wp_gets. cbn zeta.
  assert (sb_data b = t) as -> by apply H.
  assert (wp (if 0 <? comma then strbuf_append_char alloc "," else mret tt) b (λ _ b', hold (t ++ (if comma =? 0 then [] else #",")) 0 b') (λ e _, aborted e)) as Hcomma.
  { destruct (Z.ltb_spec 0 comma), (Z.eqb_spec comma 0); try lia; [by apply (wp_append_char alloc limit Hlimit Halloc)|]. apply wp_ret. by rewrite app_nil_r. }
  apply wp_bind. eapply wp_mono; [exact Hcomma| |intros; by left]. intros [] b1 H1. apply wp_bind.
  eapply wp_mono; [apply (Hm _ _ H1 Hd)| |auto]. intros err b2. destruct o as [[x|]| | |]; try done.
  - intros [-> H2]. apply wp_ret. split; [lia|]. split; [lia|]. by rewrite app_assoc.
  - intros [-> [j H2]]. apply wp_bind. eapply wp_mono; [apply (wp_set_length t ((if comma =? 0 then [] else #",") ++ j) b2); [by rewrite app_assoc|auto]| |intros; by left].
    intros [] b3 H3. apply wp_ret. destruct (Z.eqb_spec (comma + 1) 1), (Z.eqb_spec comma 0); try lia; (split; [lia|]); (split; [|done]); apply Z.eqb_eq || apply Z.eqb_neq; lia.
Qed.

Lemma appends_items ws ts comma : Forall2 writes ws ts → 0 <= comma → appends (append_items alloc ws comma) (text_items ts (comma =? 0)).
Proof.
  intros Hw. revert comma. induction Hw as [|w o ws ts Hwo _ IH]; intros comma Hc t b H Hd; cbn [append_items text_items] in *.
  - apply wp_ret. by rewrite app_nil_r.
  - assert (defined o) as Hdo by (destruct o; by destruct Hd). apply wp_bind. eapply wp_mono; [apply (wp_append_item w o comma t b Hwo Hc H Hdo)| |].
    + intros comma' b' [Hc' Ho]. destruct o as [[x|]|e| |]; try done; cbn [mbind outcome_bind] in *.
      * destruct Ho as [Hpos Hb]. assert ((comma' =? 0) = false) as Hz by (apply Z.eqb_neq; lia). specialize (IH comma' Hc' _ _ Hb). rewrite Hz in IH.
        assert (defined (text_items ts false)) as Hdt by (destruct (text_items ts false); by destruct Hd).
        eapply wp_mono; [apply (IH Hdt)| |].
        -- intros [] b''. destruct (text_items ts false); cbn; try done. by rewrite !app_assoc.
        -- intros e b'' Hf. eapply fails_mono; [exact Hf|]. by intros ->.
      * destruct Ho as [Hz Hb]. rewrite <- Hz in *. by apply IH.
    + intros e b' Hf. eapply fails_mono; [exact Hf|]. by intros ->.
Qed.

Lemma writes_bracketed ws ts a z : Forall2 writes ws ts →
  appends (_ ← strbuf_append_char alloc a; _ ← append_items alloc ws 0; strbuf_append_char alloc z) (t ← text_items ts true; Ok ([a] ++ t ++ [z])).
Proof.
  intros Hw. eapply appends_ext; [apply (appends_bind _ _ (Ok [a]) (t ← text_items ts true; y ← Ok [z]; Ok (t ++ y)));
    [apply appends_char|intros ? _; apply appends_bind; [by apply (appends_items ws ts 0)|intros ? _; apply appends_char]]|].
  by destruct (text_items ts true).
Qed.

Lemma Forall2_map {A B C} (R : B → C → Prop) (f : A → B) (g : A → C) l : (∀ x, x ∈ l → R (f x) (g x)) → Forall2 R (f <$> l) (g <$> l).
Proof. induction l as [|x l IH]; intros H; cbn; constructor; [apply H; left|]. apply IH. intros y Hy. apply H. by right. Qed.
Lemma fits_element r raw i : safe (get_element (h r) raw i) fits.
Proof.
  destruct (Hfits r) as [He Hm]. unfold get_element.
  assert (fits (raw_get (LNum (double_of_Z i)) (t_entries (h r)))) as Hr.
  { revert He. generalize (t_entries (h r)). induction l as [|[k v] l IH]; cbn [raw_get]; [done|]. intros [[_ Hv] Hl]%Forall_cons. case_bool_decide; auto. }
  destruct (raw_get _ _); try done. destruct raw; [done|]. destruct (t_meta (h r)) as [m|]; [|done]. by apply Hm.
Qed.

Lemma writes_layout l r (w : lval → M bool) (f : lval → outcome (option bytes)) : (∀ v, fits v → writes (w v) (f v)) →
  writes (_ ← match l with AsArray n raw => json_append_array alloc w (h r) n raw | AsObject => json_append_object alloc slash cfg w (h r) end; mret false)
    match l with
    | AsArray n raw => t ← text_items ((λ i, v ← get_element (h r) raw i; f v) <$> indices n) true; Ok (Some (#"[" ++ t ++ #"]"))
    | AsObject => t ← text_items ((λ e, k ← text_key slash cfg e.1; t ← f e.2; Ok (option_map (app k) t)) <$> t_entries (h r)) true; Ok (Some (#"{" ++ t ++ #"}"))
    end.
Proof.
  intros Hw. destruct l as [n raw|].
  - eapply writes_ext; [apply writes_appends, writes_bracketed, Forall2_map; intros i _; apply writes_get; [apply fits_element|exact Hw]|by destruct (text_items _ true)].
  - assert (Forall2 writes ((λ e : lval * lval, _ ← append_key alloc slash cfg e.1; w e.2) <$> t_entries (h r))
      ((λ e, k ← text_key slash cfg e.1; t ← f e.2; Ok (option_map (app k) t)) <$> t_entries (h r))) as HF.
    { apply Forall2_map. intros e Hin. destruct (Hfits r) as [He _]. rewrite Forall_forall in He. destruct (He _ Hin) as [Hk Hv]. apply writes_key; [by apply appends_key|by apply Hw]. }
    eapply writes_ext; [apply writes_appends, writes_bracketed, HF|by destruct (text_items _ true)].
Qed.

Hypothesis Hskip : encode_skip_unsupported_value_types cfg = true → limit <= 2 ^ 31.

Lemma writes_const c : len c <= 2 ^ 31 → writes (_ ← strbuf_append_mem alloc c; mret false) (Ok (Some c)).
Proof. intros Hc. apply (writes_appends _ (Ok c)). by apply appends_mem. Qed.
Lemma writes_throw e : writes (lift (Throw e)) (Throw e).
Proof. split; [done|]. intros t b H _. right. eauto. Qed.
Lemma writes_undefined m o : ¬ defined o → writes m o.
Proof. intros Ho. split; [intros ->; by destruct Ho|]. by intros t b _ Hd. Qed.
Lemma writes_empty_array : writes (_ ← strbuf_append_char alloc "["; _ ← strbuf_append_char alloc "]"; mret false) (Ok (Some #"[]")).
Proof.
  split; [done|]. intros t b H _. apply wp_bind. eapply wp_mono; [apply (wp_append_char alloc limit Hlimit Halloc t _ b H)| |intros; by left].
  intros [] b1 H1. apply wp_bind. eapply wp_mono; [apply (wp_append_char alloc limit Hlimit Halloc _ _ b1 H1)| |intros; by left].
  intros [] b2 H2. apply wp_ret. split; [done|]. by rewrite <- app_assoc in H2.
Qed.
(** Values other than tables. *)
Lemma append_scalar_text fuel depth v : fits v → (∀ r, v ≠ LTable r) →
  writes (json_append_data alloc objlen checkstack slash cfg h fuel depth v) (text_data objlen checkstack slash cfg h fuel depth v).
Proof.
  intros Hv Ht. destruct v as [|b|f|s|p|r|o]; [..|by destruct (Ht r)|]; destruct fuel; cbn [json_append_data text_data].
  1-2: by apply writes_const.
  1-2: destruct b; by apply writes_const.
  1-2: apply writes_appends, appends_number.
  1-2: apply (writes_appends _ (Ok (text_string slash s))); by apply appends_string.
  1-2: destruct p; [by apply writes_const|apply writes_empty_array|]; split; [done|]; intros t b H _; apply wp_ret; by rewrite app_nil_r.
  1-2: destruct (encode_skip_unsupported_value_types cfg) eqn:E; [|apply writes_throw]; split; [auto|]; intros t b H _; apply wp_ret; split; [done|]; exists []; by rewrite app_nil_r.
Qed.

(** The encoder appends the text of the value. *)
Lemma append_data_text fuel depth v : fits v →
  writes (json_append_data alloc objlen checkstack slash cfg h fuel depth v) (text_data objlen checkstack slash cfg h fuel depth v).
Proof.
  revert depth v. induction fuel as [|fuel IH]; intros depth v Hv; (destruct v as [|b|f|s|p|r|o]; try by apply append_scalar_text); cbn [json_append_data text_data].
  { apply writes_undefined. by intros []. }
  cbn zeta. destruct (json_check_encode_depth checkstack cfg (depth + 1)) as [[]|e| |] eqn:E; cbn [mbind outcome_bind].
  - change (writes (l ← lift (table_layout objlen cfg (LTable r) (h r)); _ ← match l with
        | AsArray n raw => json_append_array alloc (json_append_data alloc objlen checkstack slash cfg h fuel (depth + 1)) (h r) n raw
        | AsObject => json_append_object alloc slash cfg (json_append_data alloc objlen checkstack slash cfg h fuel (depth + 1)) (h r) end; mret false)
      (l ← table_layout objlen cfg (LTable r) (h r); match l with
        | AsArray n raw => t ← text_items ((λ i, v ← get_element (h r) raw i; text_data objlen checkstack slash cfg h fuel (depth + 1) v) <$> indices n) true; Ok (Some (#"[" ++ t ++ #"]"))
        | AsObject => t ← text_items ((λ e, k ← text_key slash cfg e.1; t ← text_data objlen checkstack slash cfg h fuel (depth + 1) e.2; Ok (option_map (app k) t)) <$> t_entries (h r)) true; Ok (Some (#"{" ++ t ++ #"}")) end)).
    destruct (table_layout objlen cfg (LTable r) (h r)) as [l|e| |]; cbn [mbind outcome_bind].
    + apply (writes_layout l r). intros v' Hv'. by apply IH.
    + apply writes_throw.
    + apply writes_undefined. by intros [].
    + apply writes_undefined. by intros [].
  - apply writes_throw.
  - apply writes_undefined. by intros [].
  - apply writes_undefined. by intros [].
Qed.
End refine.

(** ** Termination

    Tables whose integer keys (infinity counts as one), entries and [__len]
    results are in the range of [int] have a text or an error, whatever refers to whatever. *)
Definition in_int_range (cfg : json_config) (h : store) : Prop := ∀ r,
  Forall (λ e, ∀ f, e.1 = LNum f → f ≠ S754_infinity false ∧ ∀ n, float_int f = Some n → n < 2 ^ 31) (t_entries (h r)) ∧
  len (t_entries (h r)) * Z.max 1 (encode_sparse_ratio cfg) <= INT_MAX ∧
  ∀ m f, t_meta (h r) = Some m → m_len m = Some (Ok f) → is_ok (float_to_int f) = true.

Lemma safe_array_scan es max items : 0 <= items → items + len es <= INT_MAX →
  Forall (λ e : lval * lval, ∀ f, e.1 = LNum f → f ≠ S754_infinity false ∧ ∀ n, float_int f = Some n → n < 2 ^ 31) es →
  safe (array_scan es max items) (λ r, ∀ mx it, r = Some (mx, it) → 0 <= it <= items + len es).
Proof.
  revert max items. induction es as [|[k v] es IH]; intros max items H0 Hn He; cbn [array_scan].
  - intros mx it [= <- <-]. change (len (@nil (lval * lval))) with 0. lia.
  - apply Forall_cons in He as [Hk He]. rewrite len_cons in *. pose proof (len_nonneg es). destruct k as [| |f|s|p|r|o]; try done.
    destruct (Hk f eq_refl) as [Hinf Hk']. clear Hk. rename Hk' into Hk.
    assert (∀ A (x y : A), match f with S754_infinity false => x | _ => y end = y) as Hni by (intros A x y; by destruct f as [|[]| |]).
    rewrite Hni. destruct (float_int f) as [n|] eqn:E; [|done]. destruct (1 <=? n); [|done]. specialize (Hk n eq_refl).
    assert (∀ mx, safe (if items =? INT_MAX then UB else array_scan es mx (items + 1)) (λ r, ∀ mx it, r = Some (mx, it) → 0 <= it <= items + (1 + len es))) as Hrest.
    { intros mx. destruct (Z.eqb_spec items INT_MAX); [lia|]. eapply safe_mono; [apply IH; [lia..|done]|]. intros a Ha mx' it ->. specialize (Ha mx' it eq_refl). lia. }
    destruct (max <? n); [|apply Hrest]. destruct (Z.ltb_spec n (2 ^ 31)); [apply Hrest|lia].
Qed.

Section defined.
  Context `{T : target}.
  Variable objlen : ltable → Z.
  Variable checkstack : Z → bool.
  Variable slash : bool.
  Variable cfg : json_config.
  Variable h : store.
  Hypothesis Hfits : store_fits h.
  Hypothesis Hrange : in_int_range cfg h.

Lemma table_layout_defined r : defined (table_layout objlen cfg (LTable r) (h r)).
Proof.
  destruct (Hrange r) as (Hk & Hn & Hl). destruct (Hfits r) as [_ Hm]. unfold table_layout.
  assert (defined (lua_array_length cfg (LTable r) (h r))) as Ha.
  { unfold lua_array_length. pose proof (len_nonneg (t_entries (h r))).
    assert (safe (array_scan (t_entries (h r)) 0 0) (λ r', ∀ mx it, r' = Some (mx, it) → 0 <= it <= 0 + len (t_entries (h r)))) as Hs by (apply safe_array_scan; [lia|nia|done]).
    destruct (array_scan _ 0 0) as [[[mx it]|]| | |]; cbn in Hs; try done; try apply Ok_defined; try apply Throw_defined. specialize (Hs mx it eq_refl).
    bind_simpl. destruct (Z.ltb_spec 0 (encode_sparse_ratio cfg)); bind_simpl; [|apply Ok_defined].
    destruct (Z.ltb_spec INT_MAX (it * encode_sparse_ratio cfg)); [nia|]. bind_simpl. destruct (_ && _); [|apply Ok_defined]. destruct (negb _); [apply Throw_defined|apply Ok_defined]. }
  apply bind_defined.
  - destruct (t_meta (h r)) as [m|] eqn:Em; [|apply Ok_defined]. destruct (Hm m eq_refl) as [Ho _].
    destruct (m_kind m); [apply Ok_defined|..]; (destruct (m_len m) as [o|] eqn:El; [|apply Ok_defined]; specialize (Ho o eq_refl);
      destruct o as [f|e| |]; [|apply Throw_defined|by destruct Ho..]; specialize (Hl m f eq_refl El); bind_simpl; destruct (float_to_int f); try done; apply Ok_defined).
  - intros forced _. destruct forced as [n|]; [apply Ok_defined|]. apply bind_defined; [done|]. intros n _. destruct (_ || _); [apply Ok_defined|].
    destruct (t_meta (h r)) as [m|]; [|apply Ok_defined]. destruct (m_kind m); apply Ok_defined.
Qed.

Lemma text_items_defined ts first : Forall defined ts → defined (text_items ts first).
Proof.
  intros Hts. revert first. induction Hts as [|o ts Ho _ IH]; intros first; cbn [text_items]; [apply Ok_defined|].
  apply bind_defined; [done|]. intros [x|] _; [|apply IH]. apply bind_defined; [apply IH|]. intros. apply Ok_defined.
Qed.
Lemma text_number_defined v f : defined (text_number cfg v f).
Proof. unfold text_number, fpconv_g_fmt, die, cannot_serialise. repeat case_match; try apply Throw_defined; apply Ok_defined. Qed.

(** The depth limit ends the recursion. *)
Lemma text_data_defined fuel depth v : 0 <= depth → encode_max_depth cfg < depth + Z.of_nat fuel → depth = 0 ∨ depth <= encode_max_depth cfg → (0 < fuel)%nat →
  defined (text_data objlen checkstack slash cfg h fuel depth v).
Proof.
  revert depth v. induction fuel as [|fuel IH]; intros depth v Hd Hf Hmax Hpos; [lia|].
  destruct v as [|b|f|s|p|r|o]; cbn [text_data]; try apply Ok_defined.
  - apply bind_defined; [apply text_number_defined|]. intros. apply Ok_defined.
  - destruct p; apply Ok_defined.
  - unfold json_check_encode_depth. destruct ((depth + 1 <=? encode_max_depth cfg) && checkstack (depth + 1)) eqn:E; [|apply Throw_defined]. bool_to_prop. bind_simpl.
    assert (∀ v, defined (text_data objlen checkstack slash cfg h fuel (depth + 1) v)) as Hrec by (intros v; apply IH; lia).
    apply bind_defined; [apply table_layout_defined|]. intros [n raw|] _; (apply bind_defined; [|intros; apply Ok_defined]); apply text_items_defined, Forall_fmap, Forall_forall.
    + intros i _. apply bind_defined; [|intros; apply Hrec]. eapply safe_defined, fits_element; eauto.
    + intros [k v] _. cbn. apply bind_defined; [|intros; apply bind_defined; [apply Hrec|intros; apply Ok_defined]].
      destruct k; try apply Throw_defined; [|apply Ok_defined]. cbn [text_key]. apply bind_defined; [apply text_number_defined|intros; apply Ok_defined].
  - destruct (encode_skip_unsupported_value_types cfg); [apply Ok_defined|apply Throw_defined].
Qed.
Lemma text_defined v : defined (text_data objlen checkstack slash cfg h (encode_fuel cfg) 0 v).
Proof. apply text_data_defined; unfold encode_fuel; lia. Qed.
End defined.

(** The buffer a configuration keeps is usable. *)
Definition config_wf (limit : Z) (c : json_config) : Prop := encode_keep_buffer c = true → ∃ t, holds limit t 0 (encode_buf c).

Lemma set_encode_buf_eq b c : encode_buf (set_encode_buf b c) = b ∧ encode_keep_buffer (set_encode_buf b c) = encode_keep_buffer c.
Proof. by destruct c. Qed.

(** The text of a value as a result of the call. *)
Definition encoded (o : outcome (option bytes)) : outcome bytes :=
  match o with Ok (Some t) => Ok t | Ok None => Ok [] | Throw e => Throw e | UB => UB | NoFuel => NoFuel end.

Lemma text_None objlen checkstack slash cfg h fuel depth v : text_data objlen checkstack slash cfg h fuel depth v = Ok None →
  ∃ x id, v = LOther x id ∧ encode_skip_unsupported_value_types cfg = true.
Proof.
  destruct fuel, v as [|b|f|s|[]|r|x id]; cbn [text_data]; try done; intros H; inv_ok; try done; destruct (encode_skip_unsupported_value_types cfg); try done; eauto.
  all: destruct x0; inv_ok; done.
Qed.

Section encode_correct.
  Context `{T : target}.
  Variable alloc : Z → bool.
  Variable objlen : ltable → Z.
  Variable checkstack : Z → bool.
  Variable slash : bool.
  Variable limit : Z.
  Variable h : store.
  Hypothesis Hlimit : limit <= MEM_MAX.
  Hypothesis Halloc : ∀ n, alloc n = true → n <= limit.
  Hypothesis Hfits : store_fits h.

(** A run on a buffer that is empty. *)
Lemma wp_encode_run cfg v b :
  (encode_skip_unsupported_value_types cfg = true → limit <= 2 ^ 31) → fits v → in_int_range cfg h → holds limit [] 0 b →
  let o := text_data objlen checkstack slash cfg h (encode_fuel cfg) 0 v in
  wp (_ ← json_append_data alloc objlen checkstack slash cfg h (encode_fuel cfg) 0 v; strbuf_string) b
    (λ x b', encoded o = Ok x ∧ ∃ t, holds limit t 0 b') (fails limit (encoded o)).
Proof.
  intros Hskip Hv Hr Hb o. pose proof (text_defined objlen checkstack slash cfg h Hfits Hr v) as Hd.
  destruct (append_data_text alloc objlen checkstack slash cfg h limit Hlimit Halloc Hfits Hskip (encode_fuel cfg) 0 v Hv) as [_ Hw].
  apply wp_bind. specialize (Hw [] b Hb Hd). fold o in Hw, Hd. destruct o as [[x|]| | |] eqn:E; try by destruct Hd.
  - eapply wp_mono; [exact Hw| |]. 
    + intros err b' [_ H']. unfold strbuf_string, wp. pose proof H' as (-> & -> & _). split; [done|eauto].
    + intros e b' Hf. eapply fails_mono; [exact Hf|]. done.
  - destruct (text_None _ _ _ _ _ _ _ _ E) as (x & id & -> & Hs). unfold encode_fuel. cbn [json_append_data]. rewrite Hs. apply wp_ret.
    unfold strbuf_string, wp. pose proof Hb as (-> & -> & _). split; [done|eauto].
  - eapply wp_mono; [exact Hw|done|]. intros e b' Hf. eapply fails_mono; [exact Hf|]. by intros [= ->].
Qed.

(** What a call of the encoder does: it returns the text of the value or
    raises its error, or the process ends for lack of memory; the buffer kept
    for the next call stays usable. *)
Lemma encode_spec cfg v :
  (encode_skip_unsupported_value_types cfg = true → limit <= 2 ^ 31) → fits v → in_int_range cfg h → config_wf limit cfg →
  let '(r, cfg') := json_encode alloc objlen checkstack slash h [v] cfg in
  r = Throw abort_text ∨
  r = encoded (text_data objlen checkstack slash cfg h (encode_fuel cfg) 0 v) ∧ defined r ∧ config_wf limit cfg'.
Proof.
  intros Hskip Hv Hr Hwf. unfold json_encode. pose proof (λ b, wp_encode_run cfg v b Hskip Hv Hr) as Hrun. cbn zeta in Hrun.
  set (o := text_data _ _ _ _ _ _ _ _) in *. set (m := json_append_data _ _ _ _ _ _ _ _ _) in *.
  destruct (encode_keep_buffer cfg) eqn:Ek; cbn [negb].
  - destruct (Hwf Ek) as [t0 Hb0]. unfold on_encode_buf.
    assert (holds limit [] 0 (StrBuf (sb_live (encode_buf cfg)) (sb_size (encode_buf cfg)) [])) as Hb.
    { destruct Hb0 as (Hl & _ & Hs & Hm). pose proof (len_nonneg t0). unfold holds. cbn [sb_live sb_data sb_size]. change (len (@nil byte)) with 0. split_and!; auto; lia. }
    specialize (Hrun _ Hb). unfold wp in Hrun. rewrite bind_run. unfold strbuf_reset, modify.
    set (run := _ ← m; strbuf_string) in *. destruct (run _) as [r b'] eqn:E. destruct (set_encode_buf_eq b' cfg) as [E1 E2].
    assert (∀ t, holds limit t 0 b' → config_wf limit (set_encode_buf b' cfg)) as Hwf'.
    { intros t Ht _. exists t. by rewrite E1. }
    destruct r as [x|e| |]; [| |done..].
    + destruct Hrun as [-> [t Ht]]. right. split; [done|]. split; [apply Ok_defined|]. by eapply Hwf'.
    + destruct Hrun as [->|[-> [t Ht]]]; [by left|]. right. split; [done|]. split; [apply Throw_defined|]. by eapply Hwf'.
  - assert (config_wf limit cfg) as Hwf' by (intros ?; congruence).
    set (run := _ ← m; strbuf_string) in *.
    assert (wp (_ ← strbuf_init alloc 0; json ← run; _ ← strbuf_free; mret json) (StrBuf false 0 []) (λ x _, encoded o = Ok x) (λ e _, aborted e ∨ encoded o = Throw e)) as Hw.
    { apply wp_bind. eapply wp_mono; [apply (wp_init alloc limit Halloc 0); lia| |intros; by left]. intros [] b1 [Hb1 _]. apply wp_bind.
      eapply wp_mono; [apply (Hrun b1); eapply holds_weaken; [exact Hb1|cbn; lia]| |].
      - intros x b2 [Hx _]. by apply wp_bind, wp_modify, wp_ret.
      - intros e b2 [?|[? _]]; auto. }
    unfold wp in Hw. destruct ((_ ← strbuf_init alloc 0; json ← run; _ ← strbuf_free; mret json) (StrBuf false 0 [])) as [r b']. cbn [fst].
    destruct r as [x|e| |]; [| |done..].
    + right. rewrite Hw. auto using Ok_defined.
    + destruct Hw as [->|Hw]; [by left|]. right. rewrite Hw. auto using Throw_defined.
Qed.
End encode_correct.

(** ** Properties *)


Lemma float_int_double n : 0 < n < 2 ^ 53 → float_int (double_of_Z n) = Some n.
Proof.
  intros Hn. unfold double_of_Z. destruct (Z.eqb_spec n 0); [lia|]. rewrite Z.abs_eq by lia. destruct (Z.ltb_spec n (2 ^ 53)); [|lia].
  destruct (Z.ltb_spec n 0); [lia|]. pose proof (Z.log2_nonneg n). assert (Z.log2 n < 53) by (apply Z.log2_lt_pow2; lia). set (k := 52 - Z.log2 n).
  assert (0 < 2 ^ k) by (apply Z.pow_pos_nonneg; lia). cbn [float_int]. rewrite Z2Pos.id by nia.
  destruct (Z.leb_spec 0 (- k)).
  - replace k with 0 by lia. change (- 0) with 0. rewrite Z.pow_0_r. f_equal. lia.
  - rewrite Z.opp_involutive, Z.mod_mul, Z.div_mul by lia. done.
Qed.

(** A table that contains itself, after a string that needs every kind of
    escape. *)
Definition demo_heap : store := λ r,
  match r with
  | 1%positive => Table [(LNum (double_of_Z 1), LStr [x22; x0a; x01; x41]); (LNum (double_of_Z 2), LTable 2)] None
  | 2%positive => Table [(LStr #"k", LTable 3)] None
  | 3%positive => Table [(LStr #"self", LTable 3)] None
  | _ => Table [] None
  end.
Definition demo_encode_config : json_config := JsonConfig (StrBuf true 1023 []) false 2 10 40 0 14 true true true true 1000 false false.
Lemma demo_heap_fits : store_fits (T:=target64) demo_heap.
Proof. intros r. unfold demo_heap. repeat case_match; (split; [repeat constructor; unfold fits, MEM_MAX, len; cbn; lia|done]). Qed.
Lemma demo_heap_range : in_int_range demo_encode_config demo_heap.
Proof.
  assert (∀ i f, 0 < i < 2 ^ 31 → LNum (double_of_Z i) = LNum f → f ≠ S754_infinity false ∧ ∀ n, float_int f = Some n → n < 2 ^ 31) as Hn.
  { intros i f Hi [= <-]. assert (0 < i < 2 ^ 53) as Hi' by lia. split; [intros E; pose proof (float_int_double i Hi') as F; by rewrite E in F|].
    intros n. rewrite float_int_double by lia. intros [= <-]. lia. }
  intros r. unfold demo_heap. cbn [encode_sparse_ratio demo_encode_config]. repeat case_match; (split; [|split; [by vm_compute|done]]); cbn [t_entries]; repeat apply Forall_cons_2; try apply Forall_nil_2; try done; cbn [fst].
  - intros f. by apply Hn.
  - intros f. by apply Hn.
Qed.


(** Light userdata that is neither null nor the empty array is written as
    nothing. *)
Theorem light_userdata_gives_no_json :
  text_data (λ _, 0) (λ _, true) true demo_encode_config (λ _, Table [(LNum (double_of_Z 1), LLight POther); (LNum (double_of_Z 2), LLight POther)] None) 5 0 (LTable 1) = Ok (Some #"[,]").
Proof. by vm_compute. Qed.
(** An integer key beyond [int] is converted to [int]: undefined. *)
Theorem large_integer_key_undefined :
  text_data (λ _, 0) (λ _, true) true demo_encode_config (λ _, Table [(LNum (double_of_Z (2 ^ 31)), LBool true)] None) 5 0 (LTable 1) = UB.
Proof. by vm_compute. Qed.
(** So is infinity. *)
Theorem infinite_key_undefined :
  text_data (λ _, 0) (λ _, true) true demo_encode_config (λ _, Table [(LNum (S754_infinity false), LBool true)] None) 5 0 (LTable 1) = UB.
Proof. by vm_compute. Qed.
