(* ===== verification/LuaDecode.v ===== *)
(** * LuaDecode: JSON text read into Lua values

    The decoder of [lua_host/api/json.c]: the tokens of [json_next_token] and
    the parser [json_process_value].  The text is a Lua string and so followed
    by a zero byte; reading past that byte is undefined, as is writing past
    the end of the token buffer, which the code allocates once, as long as the
    text, and then fills without checks.  The tables it builds are new and not
    shared, so the result is a tree.

    [decode_safe] shows that every text is either decoded or refused with an
    error, without undefined behaviour and in a bounded number of steps. *)

From Stdlib Require Import SpecFloat.
From S2P Require Import Prelude State Json StrBuf NumText LuaEncode.

(** ** Tokens *)

Inductive token :=
  | T_OBJ_BEGIN | T_OBJ_END | T_ARR_BEGIN | T_ARR_END
  | T_STRING (s : bytes) | T_NUMBER (f : spec_float) | T_INTEGER (z : Z) | T_BOOLEAN (b : bool)
  | T_NULL | T_COLON | T_COMMA | T_END | T_WHITESPACE | T_ERROR (what : bytes) | T_UNKNOWN.

Definition json_token_type_name (t : token) : bytes :=
  match t with
  | T_OBJ_BEGIN => #"T_OBJ_BEGIN" | T_OBJ_END => #"T_OBJ_END" | T_ARR_BEGIN => #"T_ARR_BEGIN" | T_ARR_END => #"T_ARR_END"
  | T_STRING _ => #"T_STRING" | T_NUMBER _ => #"T_NUMBER" | T_INTEGER _ => #"T_INTEGER" | T_BOOLEAN _ => #"T_BOOLEAN"
  | T_NULL => #"T_NULL" | T_COLON => #"T_COLON" | T_COMMA => #"T_COMMA" | T_END => #"T_END" | T_WHITESPACE => #"T_WHITESPACE"
  | T_ERROR _ => #"T_ERROR" | T_UNKNOWN => #"T_UNKNOWN"
  end.
Definition ch2token (c : byte) : token :=
  match c with
  | "{"%byte => T_OBJ_BEGIN | "}"%byte => T_OBJ_END | "["%byte => T_ARR_BEGIN | "]"%byte => T_ARR_END
  | ","%byte => T_COMMA | ":"%byte => T_COLON | x00 => T_END
  | " "%byte | x09 | x0a | x0d => T_WHITESPACE
  | "f"%byte | "i"%byte | "I"%byte | "n"%byte | "N"%byte | "t"%byte | x22 | "+"%byte | "-"%byte => T_UNKNOWN
  | _ => if isdigit c then T_UNKNOWN else T_ERROR #"invalid token"
  end.
(** Zero: no such escape. *)
Definition escape2char (c : byte) : byte :=
  match c with
  | x22 => x22 | "\"%byte => "\"%byte | "/"%byte => "/"%byte | "b"%byte => x08 | "t"%byte => x09
  | "n"%byte => x0a | "f"%byte => x0c | "r"%byte => x0d | "u"%byte => "u"%byte | _ => x00
  end.
Definition hexdigit2int (c : byte) : Z :=
  if isdigit c then b2z c - 48 else
  let l := Z.lor (b2z c) 32 in if (97 <=? l) && (l <=? 102) then 10 + l - 97 else -1.
Definition codepoint_to_utf8 (c : Z) : bytes :=
  if c <=? 127 then [z2b c] else
  if c <=? 2047 then [z2b (Z.lor (Z.shiftr c 6) 192); z2b (Z.lor (Z.land c 63) 128)] else
  if c <=? 65535 then [z2b (Z.lor (Z.shiftr c 12) 224); z2b (Z.lor (Z.land (Z.shiftr c 6) 63) 128); z2b (Z.lor (Z.land c 63) 128)] else
  if c <=? 2097151 then
    [z2b (Z.lor (Z.shiftr c 18) 240); z2b (Z.lor (Z.land (Z.shiftr c 12) 63) 128); z2b (Z.lor (Z.land (Z.shiftr c 6) 63) 128); z2b (Z.lor (Z.land c 63) 128)]
  else [].

(** ** Values *)

Inductive tkey := KStr (s : bytes) | KInt (z : Z).
#[export] Instance tkey_eq_dec : EqDecision tkey.
Proof. solve_decision. Defined.
(** [null] is a light userdata; a table has its entries in the order of their
    first assignment and may carry [array_mt]. *)
Inductive ltree :=
  | TrNull
  | TrBool (b : bool)
  | TrNum (f : spec_float)
  | TrStr (s : bytes)
  | TrTable (array_mt : bool) (es : list (tkey * ltree)).
Fixpoint raw_set (k : tkey) (v : ltree) (es : list (tkey * ltree)) : list (tkey * ltree) :=
  match es with
  | [] => [(k, v)]
  | (k', w) :: es => if bool_decide (k = k') then (k, v) :: es else (k', w) :: raw_set k v es
  end.

(** The state of [json_parse_t]. *)
Record json_parse := JsonParse { p_ptr : Z; p_tmp : strbuf; p_depth : Z }.

Section decode.
  Context `{T : target}.
  Variable alloc : Z → bool.
  Variable checkstack : Z → bool.
  Variable cfg : json_config.
  (** The string; its terminator follows. *)
  Variable data : bytes.
  Abbreviation M := (SM json_parse).

Definition advance (n : Z) : M () := modify (λ p, JsonParse (p_ptr p + n) (p_tmp p) (p_depth p)).
Definition add_depth (n : Z) : M () := modify (λ p, JsonParse (p_ptr p) (p_tmp p) (p_depth p + n)).
Definition on_tmp {A} (m : SM strbuf A) : M A := λ p,
  let '(r, b) := m (p_tmp p) in (r, JsonParse (p_ptr p) b (p_depth p)).
(** [*(json->ptr + n)] *)
Definition peek (n : Z) : M byte := ptr ← gets p_ptr; lift (rd (data ++ [x00]) (ptr + n)).
(** The C string at the pointer, for library functions. *)
Definition c_string : M bytes := λ p,
  if (0 <=? p_ptr p) && (p_ptr p <=? len data)
  then (Ok (span (λ c, negb (beqb c x00)) (drop (Z.to_nat (p_ptr p)) data)), p) else (UB, p).

Definition token_at : Type := token * Z.
Definition json_set_token_error (what : bytes) : M token_at := i ← gets p_ptr; mret (T_ERROR what, i).

(** ** Strings *)

Fixpoint hex_digits (k : nat) (at_ : Z) (acc : Z) : M Z :=
  match k with
  | O => mret acc
  | S k =>
      c ← peek at_;
      if hexdigit2int c <? 0 then mret (-1) else hex_digits k (at_ + 1) (acc * 16 + hexdigit2int c)
  end.
Definition decode_hex4 (at_ : Z) : M Z := hex_digits 4 at_ 0.
(** The code point of an escape and the length of the escape, if it is one. *)
Definition unicode_escape : M (option (Z * Z)) :=
  codepoint ← decode_hex4 2;
  if codepoint <? 0 then mret None else
  if Z.land codepoint 63488 =? 55296 then
    if negb (Z.land codepoint 1024 =? 0) then mret None else
    c6 ← peek 6;
    if negb (beqb c6 "\") then mret None else
    c7 ← peek 7;
    if negb (beqb c7 "u") then mret None else
    surrogate_low ← decode_hex4 8;
    if surrogate_low <? 0 then mret None else
    if negb (Z.land surrogate_low 64512 =? 56320) then mret None else
    mret (Some (Z.lor (Z.shiftl (Z.land codepoint 1023) 10) (Z.land surrogate_low 1023) + 65536, 12))
  else mret (Some (codepoint, 6)).
Definition json_append_unicode_escape : M bool :=
  r ← unicode_escape;
  match r with
  | None => mret false
  | Some (codepoint, escape_len) =>
      match codepoint_to_utf8 codepoint with
      | [] => mret false
      | utf8 => _ ← on_tmp (strbuf_append_mem_unsafe utf8); _ ← advance escape_len; mret true
      end
  end.

Fixpoint string_loop (fuel : nat) (index : Z) : M token_at :=
  match fuel with
  | O => lift NoFuel
  | S fuel =>
      ch ← peek 0;
      if beqb ch x22 then
        _ ← advance 1;
        _ ← on_tmp strbuf_ensure_null;
        s ← on_tmp strbuf_string;
        mret (T_STRING s, index)
      else if beqb ch x00 then json_set_token_error #"unexpected end of string"
      else if beqb ch "\" then
        e ← peek 1;
        let c := escape2char e in
        if beqb c "u" then
          ok ← json_append_unicode_escape;
          if (ok : bool) then string_loop fuel index else json_set_token_error #"invalid unicode escape code"
        else if beqb c x00 then json_set_token_error #"invalid escape code"
        else
          _ ← advance 1;
          _ ← on_tmp (strbuf_append_char_unsafe c);
          _ ← advance 1;
          string_loop fuel index
      else
        _ ← on_tmp (strbuf_append_char_unsafe ch);
        _ ← advance 1;
        string_loop fuel index
  end.
Definition loop_fuel : nat := S (length data).
Definition json_next_string_token (index : Z) : M token_at :=
  _ ← advance 1;
  _ ← on_tmp strbuf_reset;
  string_loop loop_fuel index.

(** ** Numbers *)

(** [char] is signed: a byte above 127 is less than a digit. *)
Definition json_is_invalid_number : M bool :=
  c ← peek 0;
  if beqb c "+" then mret true else
  let p := if beqb c "-" then 1 else 0 in
  c ← peek p;
  if beqb c "0" then
    ch2 ← peek (p + 1);
    mret ((Z.lor (b2z ch2) 32 =? 120) || isdigit ch2)
  else if (b2z c <=? 57) || (128 <=? b2z c) then mret false else
  s ← c_string;
  mret (prefix_ci #"inf" (drop (Z.to_nat p) s) || prefix_ci #"nan" (drop (Z.to_nat p) s)).
(** The [long long] of [strtoll] is stored in a [lua_Integer], a [ptrdiff_t]. *)
Definition json_next_number_token (index : Z) : M token_at :=
  s ← c_string;
  let '(v, n) := strtoll s in
  stop ← peek (Z.of_nat n);
  if (n =? 0)%nat || beqb stop "." || beqb stop "e" || beqb stop "E" || beqb stop "x" then
    let '(f, n) := fpconv_strtod s in
    if (n =? 0)%nat then json_set_token_error #"invalid number"
    else _ ← advance (Z.of_nat n); mret (T_NUMBER f, index)
  else _ ← advance (Z.of_nat n); mret (T_INTEGER (isize v), index).

(** ** The next token *)

Fixpoint skip_whitespace (fuel : nat) : M byte :=
  match fuel with
  | O => lift NoFuel
  | S fuel =>
      ch ← peek 0;
      match ch2token ch with T_WHITESPACE => _ ← advance 1; skip_whitespace fuel | _ => mret ch end
  end.
(** [!strncmp(json->ptr, word, n)] *)
Definition at_word (word : bytes) : M bool := s ← c_string; mret (prefixb word s).
Definition json_next_token : M token_at :=
  ch ← skip_whitespace loop_fuel;
  index ← gets p_ptr;
  match ch2token ch with
  | T_ERROR what => json_set_token_error what
  | T_END => mret (T_END, index)
  | T_UNKNOWN =>
      if beqb ch x22 then json_next_string_token index
      else if beqb ch "-" || isdigit ch then
        bad ← (if negb (decode_invalid_numbers cfg) then json_is_invalid_number else mret false);
        if (bad : bool) then json_set_token_error #"invalid number" else json_next_number_token index
      else
        is_true ← at_word #"true";
        if (is_true : bool) then _ ← advance 4; mret (T_BOOLEAN true, index) else
        is_false ← at_word #"false";
        if (is_false : bool) then _ ← advance 5; mret (T_BOOLEAN false, index) else
        is_null ← at_word #"null";
        if (is_null : bool) then _ ← advance 4; mret (T_NULL, index) else
        number ← (if decode_invalid_numbers cfg then json_is_invalid_number else mret false);
        if (number : bool) then json_next_number_token index else json_set_token_error #"invalid token"
  | t => _ ← advance 1; mret (t, index)
  end.

(** ** Values *)

Definition json_throw_parse_error {A} (expected : bytes) (t : token_at) : M A :=
  let found := match t.1 with T_ERROR what => what | t => json_token_type_name t end in
  _ ← on_tmp strbuf_free;
  lift (Throw (#"Expected " ++ expected ++ #" but found " ++ found ++ #" at character " ++ dec (Z.to_N (t.2 + 1)))).
Definition json_decode_descend : M () :=
  _ ← add_depth 1;
  d ← gets p_depth;
  if (d <=? decode_max_depth cfg) && checkstack d then mret tt else
  ptr ← gets p_ptr;
  _ ← on_tmp strbuf_free;
  lift (Throw (#"Found too many nested data structures (" ++ dec (Z.to_N d) ++ #") at character " ++ dec (Z.to_N ptr))).
Definition json_decode_ascend : M () := add_depth (-1).

Fixpoint object_loop (process : token_at → M ltree) (n : nat) (t : token_at) (es : list (tkey * ltree)) : M ltree :=
  match n with
  | O => lift NoFuel
  | S n =>
      match t.1 with
      | T_STRING k =>
          t ← json_next_token;
          match t.1 with
          | T_COLON =>
              t ← json_next_token;
              v ← process t;
              let es := raw_set (KStr k) v es in
              t ← json_next_token;
              match t.1 with
              | T_OBJ_END => _ ← json_decode_ascend; mret (TrTable false es)
              | T_COMMA => t ← json_next_token; object_loop process n t es
              | _ => json_throw_parse_error #"comma or object end" t
              end
          | _ => json_throw_parse_error #"colon" t
          end
      | _ => json_throw_parse_error #"object key string" t
      end
  end.
Definition json_parse_object_context (process : token_at → M ltree) : M ltree :=
  _ ← json_decode_descend;
  t ← json_next_token;
  match t.1 with
  | T_OBJ_END => _ ← json_decode_ascend; mret (TrTable false [])
  | _ => object_loop process loop_fuel t []
  end.

Fixpoint array_loop (process : token_at → M ltree) (n : nat) (i : Z) (t : token_at) (es : list (tkey * ltree)) : M ltree :=
  match n with
  | O => lift NoFuel
  | S n =>
      v ← process t;
      let es := raw_set (KInt i) v es in
      t ← json_next_token;
      match t.1 with
      | T_ARR_END => _ ← json_decode_ascend; mret (TrTable (decode_array_with_array_mt cfg) es)
      | T_COMMA => t ← json_next_token; array_loop process n (i + 1) t es
      | _ => json_throw_parse_error #"comma or array end" t
      end
  end.
Definition json_parse_array_context (process : token_at → M ltree) : M ltree :=
  _ ← json_decode_descend;
  t ← json_next_token;
  match t.1 with
  | T_ARR_END => _ ← json_decode_ascend; mret (TrTable (decode_array_with_array_mt cfg) [])
  | _ => array_loop process loop_fuel 1 t []
  end.

(** [lua_pushinteger] makes a number of the integer. *)
Fixpoint json_process_value (fuel : nat) (t : token_at) : M ltree :=
  match t.1 with
  | T_STRING s => mret (TrStr s)
  | T_NUMBER f => mret (TrNum f)
  | T_INTEGER z => mret (TrNum (double_of_Z z))
  | T_BOOLEAN b => mret (TrBool b)
  | T_OBJ_BEGIN => match fuel with O => lift NoFuel | S fuel => json_parse_object_context (json_process_value fuel) end
  | T_ARR_BEGIN => match fuel with O => lift NoFuel | S fuel => json_parse_array_context (json_process_value fuel) end
  | T_NULL => mret TrNull
  | _ => json_throw_parse_error #"value" t
  end.
Definition decode_fuel : nat := S (Z.to_nat (decode_max_depth cfg)).

Definition decode_body : M ltree :=
  t ← json_next_token;
  v ← json_process_value decode_fuel t;
  t ← json_next_token;
  match t.1 with T_END => _ ← on_tmp strbuf_free; mret v | _ => json_throw_parse_error #"the end" t end.
Definition wide_text : bool :=
  match data with c :: d :: _ => beqb c x00 || beqb d x00 | _ => false end.
Definition json_decode : outcome ltree :=
  if wide_text then Throw #"JSON parser does not support UTF-16 or UTF-32" else
  match strbuf_init alloc (len data) (StrBuf false 0 []) with
  | (Ok _, tmp) => (decode_body (JsonParse 0 tmp 0)).1
  | (Throw e, _) => Throw e
  | (UB, _) => UB
  | (NoFuel, _) => NoFuel
  end.
End decode.

(** ** Every text is decoded or refused *)

Section safe.
  Context `{T : target}.
  Variable checkstack : Z → bool.
  Variable cfg : json_config.
  Variable data : bytes.
  Abbreviation M := (SM json_parse).

(** The pointer is inside the text or at its terminator, and the token buffer
    is longer than the text. *)
Definition parse_ok (p : json_parse) : Prop :=
  0 <= p_ptr p <= len data ∧ sb_live (p_tmp p) = true ∧ len data < sb_size (p_tmp p).
(** Errors are allowed. *)
Abbreviation run m p Q := (wp m p Q (λ _ _, True)).

Lemma run_peek p n (Q : byte → json_parse → Prop) : 0 <= p_ptr p + n <= len data → (∀ c, c = x00 ∨ p_ptr p + n < len data → Q c p) → run (peek data n) p Q.
Proof.
  intros Hn HQ. unfold peek. apply wp_bind, wp_gets. destruct (rd_Ok (data ++ [x00]) (p_ptr p + n)) as (c & Hc & E); [rewrite len_app; change (len [x00]) with 1; lia|].
  unfold wp, lift. rewrite E. apply HQ. destruct (Z.lt_ge_cases (p_ptr p + n) (len data)); [by right|]. left.
  replace (Z.to_nat (p_ptr p + n)) with (length data) in Hc by (unfold len in *; lia). rewrite list_lookup_middle in Hc by done. congruence.
Qed.
Lemma run_advance p n (Q : () → json_parse → Prop) : Q tt (JsonParse (p_ptr p + n) (p_tmp p) (p_depth p)) → run (advance n) p Q.
Proof. done. Qed.
Lemma run_c_string p (Q : bytes → json_parse → Prop) : parse_ok p →
  (∀ s, len s <= len data - p_ptr p → (∀ i, 0 <= i < len s → ∃ c, s !! Z.to_nat i = Some c) → Q s p) → run (c_string data) p Q.
Proof.
  intros (Hp & _ & _) HQ. unfold wp, c_string. destruct (Z.leb_spec 0 (p_ptr p)), (Z.leb_spec (p_ptr p) (len data)); try lia. cbn [andb]. apply HQ.
  - pose proof (length_span (λ c, negb (beqb c x00)) (drop (Z.to_nat (p_ptr p)) data)) as Hl. rewrite length_drop in Hl. unfold len in *. lia.
  - intros i Hi. apply lookup_lt_is_Some_2. unfold len in Hi. lia.
Qed.

Lemma hexdigit_not_zero c : 0 <= hexdigit2int c → c ≠ x00.
Proof. by intros H ->. Qed.
Lemma run_hex_digits k a acc p : 0 <= p_ptr p + a <= len data → 0 <= acc →
  run (hex_digits data k a acc) p (λ z p', p' = p ∧ (0 <= z → p_ptr p + a + Z.of_nat k <= len data)).
Proof.
  revert a acc. induction k as [|k IH]; intros a acc Ha Hacc; cbn [hex_digits]; [apply wp_ret; split; [done|lia]|].
  apply wp_bind, run_peek; [done|]. intros c Hc. destruct (Z.ltb_spec (hexdigit2int c) 0); [apply wp_ret; split; [done|lia]|].
  pose proof (hexdigit_not_zero c ltac:(lia)). destruct Hc as [?|Hc]; [done|].
  eapply wp_mono; [apply (IH (a + 1)); lia| |done]. intros z p' [-> Hz]. split; [done|]. lia.
Qed.

Lemma run_unicode_escape p : 0 <= p_ptr p → p_ptr p + 2 <= len data →
  run (unicode_escape data) p (λ r p', p' = p ∧ ∀ cp n, r = Some (cp, n) → 6 <= n ∧ p_ptr p + n <= len data).
Proof.
  intros H0 H2. unfold unicode_escape, decode_hex4. apply wp_bind. eapply wp_mono; [apply (run_hex_digits 4 2 0 p); lia| |done].
  intros cp p' [-> Hcp]. change (Z.of_nat 4) with 4 in Hcp. destruct (Z.ltb_spec cp 0); [by apply wp_ret|].
  destruct (_ =? 55296); [|apply wp_ret; split; [done|]; intros ? ? [= <- <-]; lia].
  destruct (negb _); [by apply wp_ret|]. apply wp_bind, run_peek; [lia|]. intros c6 Hc6. destruct (beqb_spec c6 "\") as [->|]; cbn [negb]; [|by apply wp_ret].
  destruct Hc6 as [?|Hc6]; [done|]. apply wp_bind, run_peek; [lia|]. intros c7 Hc7. destruct (beqb_spec c7 "u") as [->|]; cbn [negb]; [|by apply wp_ret].
  destruct Hc7 as [?|Hc7]; [done|]. apply wp_bind. eapply wp_mono; [apply (run_hex_digits 4 8 0 p); lia| |done].
  intros low p' [-> Hlow]. change (Z.of_nat 4) with 4 in Hlow. destruct (Z.ltb_spec low 0); [by apply wp_ret|]. destruct (negb _); [by apply wp_ret|].
  apply wp_ret. split; [done|]. intros ? ? [= <- <-]. lia.
Qed.

Lemma run_tmp_append c p (Q : () → json_parse → Prop) : sb_live (p_tmp p) = true → len (sb_data (p_tmp p)) + len c <= sb_size (p_tmp p) →
  Q tt (JsonParse (p_ptr p) (StrBuf true (sb_size (p_tmp p)) (sb_data (p_tmp p) ++ c)) (p_depth p)) → run (on_tmp (strbuf_append_mem_unsafe c)) p Q.
Proof. intros Hl Hc HQ. unfold wp, on_tmp, strbuf_append_mem_unsafe. rewrite Hl. destruct (Z.leb_spec (len (sb_data (p_tmp p)) + len c) (sb_size (p_tmp p))); [done|lia]. Qed.
Lemma utf8_length c : len (codepoint_to_utf8 c) <= 4.
Proof. unfold codepoint_to_utf8. repeat case_match; unfold len; cbn; lia. Qed.

(** What reading a token does to the state. *)
Definition is_stop (t : token) : bool := match t with T_END | T_ERROR _ => true | _ => false end.
Definition token_post (p : json_parse) (t : token_at) (p' : json_parse) : Prop :=
  parse_ok p' ∧ p_depth p' = p_depth p ∧ p_ptr p <= p_ptr p' ∧ (is_stop t.1 = false → p_ptr p < p_ptr p').
(** Closes goals about the state after a token. *)
Ltac solve_token := unfold token_post, parse_ok in *; split_and?; cbn [p_ptr p_tmp p_depth sb_live sb_size fst is_stop] in *; auto; try lia.
Lemma token_post_from p q t p' : token_post q t p' → p_depth q = p_depth p → p_ptr p <= p_ptr q → token_post p t p'.
Proof. intros (H1 & H2 & H3 & H4) Hd Hp. split_and!; [done|congruence|lia|]. intros Hs. specialize (H4 Hs). lia. Qed.
Lemma run_set_error what p q : parse_ok p → p_depth q = p_depth p → p_ptr q <= p_ptr p → run (json_set_token_error what) p (token_post q).
Proof. intros Hp Hd Hq. apply wp_bind, wp_gets, wp_ret. by split_and!. Qed.

(** The decoded part of a string is never longer than its text. *)
Lemma run_string_loop fuel index start p : parse_ok p → 1 <= start → len (sb_data (p_tmp p)) <= p_ptr p - start → len data - p_ptr p < Z.of_nat fuel →
  run (string_loop data fuel index) p (token_post p).
Proof.
  revert p. induction fuel as [|fuel IH]; intros p Hok Hst Hlen Hf; [pose proof Hok as (? & _); lia|].
  pose proof Hok as (Hp & Hl & Hsz). cbn [string_loop]. apply wp_bind, run_peek; [lia|]. intros ch Hch.
  destruct (beqb_spec ch x22) as [->|Hq].
  { destruct Hch as [?|Hch]; [done|]. apply wp_bind, run_advance. apply wp_bind. unfold wp, on_tmp, strbuf_ensure_null. cbn [p_ptr p_tmp p_depth].
    rewrite Hl. destruct (Z.ltb_spec (len (sb_data (p_tmp p))) (sb_size (p_tmp p))); [|lia]. cbn [andb]. apply wp_bind. unfold wp, strbuf_string. cbn [p_ptr p_tmp p_depth].
    rewrite Hl. rewrite ret_run. by solve_token. }
  destruct (beqb_spec ch x00) as [->|Hz]; [by apply run_set_error|]. destruct Hch as [?|Hch]; [done|].
  assert (∀ c q, p_ptr p <= p_ptr q < len data → p_tmp q = p_tmp p → p_depth q = p_depth p → run (_ ← on_tmp (strbuf_append_char_unsafe c); _ ← advance 1; string_loop data fuel index) q (token_post p)) as Hplain.
  { intros c [qp qt qd] Hqp Hqt Hqd. cbn [p_ptr p_tmp p_depth] in *. subst qt qd. apply wp_bind, run_tmp_append; cbn [p_ptr p_tmp p_depth]; [done|change (len [c]) with 1; lia|].
    apply wp_bind, run_advance. cbn [p_ptr p_tmp p_depth]. eapply wp_mono; [apply IH; cbn [p_ptr p_tmp p_depth sb_data]; [|lia|rewrite len_app; change (len [c]) with 1; lia|lia]| |done].
    - by solve_token.
    - intros t p' Ht. eapply token_post_from; [exact Ht|done|cbn; lia]. }
  destruct (beqb_spec ch "\") as [->|Hb]; [|apply Hplain; [lia|done|done]].
  apply wp_bind, run_peek; [lia|]. intros e He. cbn zeta. destruct (beqb_spec (escape2char e) "u") as [Hu|Hu].
  - destruct He as [->|He]; [done|]. apply wp_bind. unfold json_append_unicode_escape. apply wp_bind.
    eapply wp_mono; [apply (run_unicode_escape p); lia| |done]. intros r p' [-> Hr]. destruct r as [[cp n]|]; [|by apply wp_ret, run_set_error].
    destruct (Hr cp n eq_refl) as [Hn6 Hn]. pose proof (utf8_length cp) as Hu8. destruct (codepoint_to_utf8 cp) as [|u0 us] eqn:Eu; [by apply wp_ret, run_set_error|].
    apply wp_bind, run_tmp_append; [done|lia|]. apply wp_bind, run_advance, wp_ret. cbn [p_ptr p_tmp p_depth].
    eapply wp_mono; [apply IH; cbn [p_ptr p_tmp p_depth sb_data]; [|lia|rewrite len_app; lia|lia]| |done].
    + by solve_token.
    + intros t p' Ht. eapply token_post_from; [exact Ht|done|cbn; lia].
  - destruct (beqb_spec (escape2char e) x00) as [Hz'|Hz']; [by apply run_set_error|].
    destruct He as [->|He]; [done|]. apply wp_bind, run_advance. cbn [p_ptr p_tmp p_depth]. apply Hplain; cbn; auto; lia.
Qed.
Lemma run_string_token index p : parse_ok p → p_ptr p < len data → run (json_next_string_token data index) p (token_post p).
Proof.
  intros (Hp & Hl & Hsz) Hlt. apply wp_bind, run_advance. apply wp_bind. cbn. unfold wp. 
  eapply (wp_mono (string_loop data (loop_fuel data) index)); [apply (run_string_loop _ index (p_ptr p + 1)); cbn [p_ptr p_tmp p_depth sb_data]|..]; [| lia|change (len (@nil byte)) with 0; lia|unfold loop_fuel, len; lia| |done].
  - by solve_token.
  - intros t p' Ht. eapply token_post_from; [exact Ht|done|cbn; lia].
Qed.

Lemma run_invalid_number p : parse_ok p → run (json_is_invalid_number data) p (λ _ p', p' = p).
Proof.
  intros Hok. pose proof Hok as (Hp & _). unfold json_is_invalid_number. apply wp_bind, run_peek; [lia|]. intros c Hc. destruct (beqb c "+"); [by apply wp_ret|].
  assert (∀ k, 0 <= k → p_ptr p + k <= len data → run (c ← peek data k; if beqb c "0" then ch2 ← peek data (k + 1); mret ((Z.lor (b2z ch2) 32 =? 120) || isdigit ch2)
      else if (b2z c <=? 57) || (128 <=? b2z c) then mret false else s ← c_string data; mret (prefix_ci #"inf" (drop (Z.to_nat k) s) || prefix_ci #"nan" (drop (Z.to_nat k) s))) p (λ _ p', p' = p)) as Hrest.
  { intros k Hk0 Hk. apply wp_bind, run_peek; [lia|]. intros d Hd. destruct (beqb_spec d "0") as [->|].
    - destruct Hd as [?|Hd]; [done|]. apply wp_bind, run_peek; [lia|]. intros ch2 _. by apply wp_ret.
    - destruct (_ || _); [by apply wp_ret|]. apply wp_bind, run_c_string; [done|]. intros s _ _. by apply wp_ret. }
  destruct (beqb_spec c "-") as [->|]; [|apply Hrest; lia]. destruct Hc as [?|Hc]; [done|]. apply Hrest; lia.
Qed.
Lemma run_number_token index p : parse_ok p → run (json_next_number_token data index) p (token_post p).
Proof.
  intros Hok. pose proof Hok as (Hp & Hl & Hsz). unfold json_next_number_token. apply wp_bind, run_c_string; [done|]. intros s Hs _.
  pose proof (strtoll_length s) as H1. pose proof (strtod_length s) as H2. unfold fpconv_strtod. destruct (strtoll s) as [v n]. destruct (strtod s) as [f m]. cbn [snd] in *.
  assert (∀ t k, (k ≠ 0)%nat → (k <= length s)%nat → is_stop t = false → run (_ ← advance (Z.of_nat k); mret (t, index)) p (token_post p)) as Hend.
  { intros t k Hk0 Hk Ht. apply wp_bind, run_advance, wp_ret. unfold parse_ok, token_post, len in *. solve_token. unfold len. lia. }
  apply wp_bind, run_peek; [unfold len in *; lia|]. intros stop _.
  destruct (Nat.eqb_spec n 0) as [->|Hn]; cbn [orb].
  - destruct (Nat.eqb_spec m 0) as [->|Hm]; [by apply run_set_error|]. by apply Hend.
  - destruct (beqb stop "." || beqb stop "e" || beqb stop "E" || beqb stop "x"); [|by apply Hend].
    destruct (Nat.eqb_spec m 0) as [->|Hm]; [by apply run_set_error|]. by apply Hend.
Qed.

Lemma run_skip_whitespace fuel p : parse_ok p → len data - p_ptr p < Z.of_nat fuel →
  run (skip_whitespace data fuel) p (λ c p', parse_ok p' ∧ p_depth p' = p_depth p ∧ p_ptr p <= p_ptr p' ∧ (c = x00 ∨ p_ptr p' < len data) ∧ ch2token c ≠ T_WHITESPACE).
Proof.
  revert p. induction fuel as [|fuel IH]; intros p Hok Hf; pose proof Hok as (Hp & Hl & Hsz); [lia|]. cbn [skip_whitespace].
  apply wp_bind, run_peek; [lia|]. intros c Hc. rewrite Z.add_0_r in Hc. destruct (ch2token c) eqn:E.
  13: { destruct Hc as [->|Hc]; [done|]. apply wp_bind, run_advance. eapply wp_mono; [apply IH; cbn [p_ptr p_tmp p_depth]; [|lia]| |done].
    - by solve_token.
    - intros d p' (K1 & K2 & K3 & K4 & K5). cbn [p_ptr p_depth] in *. split_and!; auto; lia. }
  all: apply wp_ret; split_and!; auto; try lia; by rewrite E.
Qed.

Lemma run_word p word : parse_ok p → run (at_word data word) p (λ b p', p' = p ∧ (b = true → p_ptr p + len word <= len data)).
Proof.
  intros Hok. unfold at_word. apply wp_bind, run_c_string; [done|]. intros s Hs _. apply wp_ret. split; [done|]. intros [r ->]%prefixb_true. rewrite len_app in Hs. pose proof (len_nonneg r). lia.
Qed.

Lemma run_next_token p : parse_ok p → run (json_next_token cfg data) p (token_post p).
Proof.
  intros Hok. unfold json_next_token. apply wp_bind. eapply wp_mono; [apply (run_skip_whitespace _ p Hok)| |done]; [pose proof Hok as (? & _); unfold loop_fuel, len in *; lia|].
  intros c q (Hq & Hd & Hpq & Hc & Hw). apply wp_bind, wp_gets. pose proof Hq as (Hq1 & Hq2 & Hq3).
  eapply (wp_mono _ q (token_post q) _ (λ _ _, True)); [|intros t p' Ht; by eapply token_post_from|done].
  assert (∀ t n, is_stop t = false → 0 < n → p_ptr q + n <= len data → run (_ ← advance n; mret (t, p_ptr q)) q (token_post q)) as Hadv.
  { intros t n Ht Hn Hle. apply wp_bind, run_advance, wp_ret. by solve_token. }
  destruct (ch2token c) eqn:E; try done; try (destruct Hc as [->|Hc]; [done|]; apply Hadv; [done|lia|lia]).
  - destruct Hc as [->|Hc]; [done|]. destruct (beqb c x22); [by apply run_string_token|].
    assert (∀ b : bool, run (if b then json_is_invalid_number data else mret false) q (λ _ p', p' = q)) as Hinv by (intros []; [by apply run_invalid_number|by apply wp_ret]).
    destruct (_ || _).
    { apply wp_bind. eapply wp_mono; [apply Hinv| |done]. intros bad p' ->. destruct bad; [by apply run_set_error|by apply run_number_token]. }
    apply wp_bind. eapply wp_mono; [apply (run_word q #"true" Hq)| |done]. intros [] p' [-> Hn]; [apply Hadv; [done|lia|by apply Hn]|clear Hn].
    apply wp_bind. eapply wp_mono; [apply (run_word q #"false" Hq)| |done]. intros [] p' [-> Hn]; [apply Hadv; [done|lia|by apply Hn]|clear Hn].
    apply wp_bind. eapply wp_mono; [apply (run_word q #"null" Hq)| |done]. intros [] p' [-> Hn]; [apply Hadv; [done|lia|by apply Hn]|clear Hn].
    apply wp_bind. eapply wp_mono; [apply Hinv| |done]. intros [] p' ->; [by apply run_number_token|by apply run_set_error].
Qed.

(** Reading a value leaves the depth as it was. *)
Definition value_post (p p' : json_parse) : Prop := parse_ok p' ∧ p_depth p' = p_depth p ∧ p_ptr p <= p_ptr p'.
Definition context_post (p p' : json_parse) : Prop := parse_ok p' ∧ p_depth p' = p_depth p - 1 ∧ p_ptr p <= p_ptr p'.
Lemma run_error {A} expected t p (Q : A → json_parse → Prop) : run (json_throw_parse_error expected t) p Q.
Proof. done. Qed.
Lemma run_end {A} (v : A) p q : parse_ok q → p_depth q = p_depth p → p_ptr p <= p_ptr q → run (_ ← json_decode_ascend; mret v) q (λ _ p', context_post p p').
Proof. intros (H1 & H2 & H3) Hd Hp. apply wp_bind, wp_modify, wp_ret. split_and!; cbn [p_ptr p_tmp p_depth]; [exact (conj H1 (conj H2 H3))|lia|done]. Qed.

Section loops.
  Variable process : token_at → M ltree.
  Variable depth : Z.
  Hypothesis Hprocess : ∀ t q, parse_ok q → p_depth q = depth → run (process t) q (λ _, value_post q).

Lemma run_object_loop n t es p : parse_ok p → p_depth p = depth → len data - p_ptr p < Z.of_nat n →
  run (object_loop cfg data process n t es) p (λ _, context_post p).
Proof.
  revert t es p. induction n as [|n IH]; intros t es p Hok Hd Hn; [destruct Hok as (? & _); lia|]. cbn [object_loop].
  destruct t.1; try apply run_error. apply wp_bind. eapply wp_mono; [by apply run_next_token| |done]. intros t1 q1 (Hq1 & Hd1 & Hp1 & Hs1).
  destruct t1.1 eqn:E1; try apply run_error. specialize (Hs1 eq_refl). apply wp_bind. eapply wp_mono; [by apply run_next_token| |done]. intros t2 q2 (Hq2 & Hd2 & Hp2 & _).
  apply wp_bind. eapply wp_mono; [apply Hprocess; [done|congruence]| |done]. intros v q3 (Hq3 & Hd3 & Hp3). apply wp_bind. cbn zeta.
  eapply wp_mono; [by apply run_next_token| |done]. intros t4 q4 (Hq4 & Hd4 & Hp4 & _). destruct t4.1; try apply run_error.
  - apply run_end; [done|congruence|lia].
  - apply wp_bind. eapply wp_mono; [by apply run_next_token| |done]. intros t5 q5 (Hq5 & Hd5 & Hp5 & _).
    eapply wp_mono; [apply IH; [done|congruence|lia]| |done]. intros _ p' (K1 & K2 & K3). split_and!; auto; lia || congruence.
Qed.
Lemma run_array_loop n i t es p : parse_ok p → p_depth p = depth → len data - p_ptr p < Z.of_nat n →
  run (array_loop cfg data process n i t es) p (λ _, context_post p).
Proof.
  revert i t es p. induction n as [|n IH]; intros i t es p Hok Hd Hn; [destruct Hok as (? & _); lia|]. cbn [array_loop].
  apply wp_bind. eapply wp_mono; [by apply Hprocess| |done]. intros v q3 (Hq3 & Hd3 & Hp3). apply wp_bind. cbn zeta.
  eapply wp_mono; [by apply run_next_token| |done]. intros t4 q4 (Hq4 & Hd4 & Hp4 & Hs4). destruct t4.1 eqn:E; try apply run_error.
  - apply run_end; [done|congruence|lia].
  - specialize (Hs4 eq_refl). apply wp_bind. eapply wp_mono; [by apply run_next_token| |done]. intros t5 q5 (Hq5 & Hd5 & Hp5 & _).
    eapply wp_mono; [apply IH; [done|congruence|lia]| |done]. intros _ p' (K1 & K2 & K3). split_and!; auto; lia || congruence.
Qed.
End loops.

Lemma run_descend p : parse_ok p → run (json_decode_descend checkstack cfg) p
  (λ _ p', parse_ok p' ∧ p_depth p' = p_depth p + 1 ∧ p_ptr p' = p_ptr p ∧ p_depth p + 1 <= decode_max_depth cfg).
Proof.
  intros Hok. unfold json_decode_descend. apply wp_bind, wp_modify, wp_bind, wp_gets. cbn [p_depth].
  destruct ((p_depth p + 1 <=? decode_max_depth cfg) && checkstack (p_depth p + 1)) eqn:E; [|done]. bool_to_prop. apply wp_ret. by split_and!.
Qed.

Lemma run_process_value fuel t p : parse_ok p → 0 <= p_depth p → decode_max_depth cfg < p_depth p + Z.of_nat fuel → (0 < fuel)%nat →
  run (json_process_value checkstack cfg data fuel t) p (λ _, value_post p).
Proof.
  revert t p. induction fuel as [|fuel IH]; intros t p Hok Hd Hf Hpos; [lia|]. cbn [json_process_value].
  assert (∀ v, run (mret v) p (λ _ : ltree, value_post p)) as Hret by (intros v; apply wp_ret; by split_and!).
  assert (∀ (body : M ltree) , (∀ q, parse_ok q → p_depth q = p_depth p + 1 → p_ptr q = p_ptr p → p_depth q <= decode_max_depth cfg → run body q (λ _, context_post q)) →
    run (_ ← json_decode_descend checkstack cfg; body) p (λ _, value_post p)) as Hctx.
  { intros body Hb. apply wp_bind. eapply wp_mono; [by apply run_descend| |done]. intros [] q (Hq & Hdq & Hpq & Hmax).
    eapply wp_mono; [apply Hb; auto; lia| |done]. intros v p' (K1 & K2 & K3). split_and!; auto; lia. }
  destruct t.1; try apply run_error; try apply Hret.
  - unfold json_parse_object_context. apply Hctx. intros q Hq Hdq Hpq Hmax. apply wp_bind. eapply wp_mono; [by apply run_next_token| |done]. intros t1 q1 (Hq1 & Hd1 & Hp1 & _).
    assert (run (object_loop cfg data (json_process_value checkstack cfg data fuel) (loop_fuel data) t1 []) q1 (λ _, context_post q)) as Hl.
    { eapply wp_mono; [apply (run_object_loop _ (p_depth q)); [intros t' q' ? ?; apply IH; [done|lia|lia|lia]|done|congruence|destruct Hq1 as (? & _); unfold loop_fuel, len in *; lia]| |done].
      intros v p' (K1 & K2 & K3). split_and!; auto; lia. }
    destruct t1.1; try exact Hl. apply run_end; [done|congruence|lia].
  - unfold json_parse_array_context. apply Hctx. intros q Hq Hdq Hpq Hmax. apply wp_bind. eapply wp_mono; [by apply run_next_token| |done]. intros t1 q1 (Hq1 & Hd1 & Hp1 & _).
    assert (run (array_loop cfg data (json_process_value checkstack cfg data fuel) (loop_fuel data) 1 t1 []) q1 (λ _, context_post q)) as Hl.
    { eapply wp_mono; [apply (run_array_loop _ (p_depth q)); [intros t' q' ? ?; apply IH; [done|lia|lia|lia]|done|congruence|destruct Hq1 as (? & _); unfold loop_fuel, len in *; lia]| |done].
      intros v p' (K1 & K2 & K3). split_and!; auto; lia. }
    destruct t1.1; try exact Hl. apply run_end; [done|congruence|lia].
Qed.

Lemma run_decode_body p : parse_ok p → p_depth p = 0 → run (decode_body checkstack cfg data) p (λ _ _, True).
Proof.
  intros Hok Hd. unfold decode_body. apply wp_bind. eapply wp_mono; [by apply run_next_token| |done]. intros t1 q1 (Hq1 & Hd1 & Hp1 & _).
  apply wp_bind. eapply wp_mono; [apply run_process_value; [done|lia|unfold decode_fuel; lia|unfold decode_fuel; lia]| |done]. intros v q2 (Hq2 & Hd2 & Hp2).
  apply wp_bind. eapply wp_mono; [by apply run_next_token| |done]. intros t3 q3 _. by destruct t3.1.
Qed.
End safe.

(** The token buffer is longer than the text. *)
Lemma init_longer `{T : target} alloc n s : 0 <= n →
  match strbuf_init alloc n s with (Ok _, b) => sb_live b = true ∧ sb_data b = [] ∧ n < sb_size b | (Throw e, _) => e = abort_text | _ => False end.
Proof.
  intros Hn. unfold strbuf_init, strbuf_ensure_null. set (size := if n =? 0 then STRBUF_DEFAULT_SIZE else usize (n + 1)).
  destruct (Z.ltb_spec size n) as [|Hs]; [done|]. destruct (alloc size); [|done]. cbn [negb sb_live sb_data sb_size andb]. change (len (@nil byte)) with 0.
  assert (n < size) as Hlt.
  { subst size. destruct (Z.eqb_spec n 0) as [->|]; [done|]. pose proof (usize_range (n + 1)). pose proof word_size.
    destruct (Z.lt_ge_cases (n + 1) (2 ^ word_bits)); [rewrite usize_id in * by lia; lia|]. assert (n + 1 = 2 ^ word_bits) as E by lia. unfold usize in Hs. rewrite E, Z.mod_same in Hs by lia. lia. }
  destruct (Z.ltb_spec 0 size); [done|lia].
Qed.

Lemma decode_defined `{T : target} alloc checkstack cfg data : defined (json_decode alloc checkstack cfg data).
Proof.
  unfold json_decode. destruct (wide_text data); [apply Throw_defined|]. pose proof (init_longer alloc (len data) (StrBuf false 0 []) (len_nonneg data)) as Hi.
  destruct (strbuf_init alloc (len data) _) as [[[]|e| |] b]; [|apply Throw_defined|done..]. destruct Hi as (Hl & _ & Hs). eapply wp_defined, run_decode_body; [|done].
  split_and!; cbn; auto using len_nonneg; lia.
Qed.

(** ** Properties *)

(** C10: Every text a plugin decodes is decoded or refused, whatever
    the settings: no byte is read past the text and its terminator, no string,
    number or escape overflows the buffer sized once from the text, and the
    loops and the recursion end. *)
Theorem json_decode_safe (T : target) alloc checkstack cfg data : defined (json_decode alloc checkstack cfg data).
Proof. apply decode_defined. Qed.

Definition demo_decode_config : json_config := JsonConfig (StrBuf true 1023 []) false 2 10 1000 0 14 true true true true 1000 false false.
(** What follows a zero byte is not looked at. *)
Theorem text_after_zero_ignored :
  json_decode (T:=target32) (λ _, true) (λ _, true) demo_decode_config (#"[12]" ++ [x00] ++ #"garbage") = Ok (TrTable false [(KInt 1, TrNum (double_of_Z 12))]).
Proof. by vm_compute. Qed.
(** An integer beyond 64 bits becomes the largest one, and on a 32-bit target
    one beyond 32 bits loses its upper half, whatever it is. *)
Theorem large_integers_clamped :
  json_decode (T:=target64) (λ _, true) (λ _, true) demo_decode_config #"100000000000000000000" = json_decode (T:=target64) (λ _, true) (λ _, true) demo_decode_config #"9223372036854775807".
Proof. by vm_compute. Qed.
Theorem json_integer_truncated :
  json_decode (T:=target32) (λ _, true) (λ _, true) demo_decode_config #"5000000000" = Ok (TrNum (double_of_Z 705032704)) ∧
  json_decode (T:=target32) (λ _, true) (λ _, true) demo_decode_config #"100000000000000000000" = Ok (TrNum (double_of_Z (-1))).
Proof. by vm_compute. Qed.
