(* ===== verification/LuaJson.v ===== *)
(** * LuaJson: the JSON module of plugins

    The module [cjson] that plugins load ([lua_host/api/json.c]): its
    instances with their settings, and the functions a plugin can call.  The
    encoder and the decoder are those of [LuaEncode] and [LuaDecode].

    A function of the settings returns the setting after the call; the model
    keeps the change and leaves the returned copy out.  The settings stay in
    their ranges whatever a plugin passes. *)

From Stdlib Require Import SpecFloat.
From S2P Require Import Prelude State Json StrBuf NumText LuaEncode LuaDecode.

(** ** Instances *)

(** The escape table is shared; the rest belongs to an instance. *)
Record cjson := Cjson { g_slash : bool; g_instances : list json_config }.

Definition default_config (b : strbuf) : json_config :=
  JsonConfig b false 2 10 1000 0 14 true true true true 1000 false false.
(** A configuration with its buffer; the process ends without memory. *)
Definition json_create_config `{T : target} (alloc : Z → bool) : outcome json_config :=
  match strbuf_init alloc 0 (StrBuf false 0 []) with
  | (Ok _, b) => Ok (default_config b)
  | (Throw e, _) => Throw e
  | (UB, _) => UB
  | (NoFuel, _) => NoFuel
  end.

Section settings.
  Context `{T : target}.
  Variable alloc : Z → bool.
  (** [luaL_checkinteger]: an argument that is not a number raises an error. *)
  Variable checkinteger : lval → option Z.
  Abbreviation M := (SM (bool * json_config)).

Definition bad_argument : bytes := #"bad argument".
Definition too_many : bytes := #"found too many arguments".
(** The arguments, padded with nil. *)
Definition json_arg_init (n : nat) (args : list lval) : outcome (list lval) :=
  if (n <? length args)%nat then Throw too_many else Ok (args ++ replicate (n - length args) LNil).
Definition arg (i : nat) (args : list lval) : lval := nth i args LNil.

Definition json_integer_option (a : lval) (setting min max : Z) : outcome Z :=
  if bool_decide (a = LNil) then Ok setting else
  match checkinteger a with
  | None => Throw bad_argument
  | Some z => let value := i32 z in if (min <=? value) && (value <=? max) then Ok value else Throw bad_argument
  end.
(** [luaL_checkoption] *)
Fixpoint option_index (s : bytes) (options : list bytes) (i : Z) : option Z :=
  match options with [] => None | o :: options => if bytes_eqb s o then Some i else option_index s options (i + 1) end.
Definition json_enum_option (a : lval) (setting : Z) (options : list bytes) (bool_true : Z) : outcome Z :=
  match a with
  | LNil => Ok setting
  | LBool b => if bool_true =? 0 then Throw bad_argument else Ok ((if b then 1 else 0) * bool_true)
  | LStr s => match option_index s options 0 with Some i => Ok i | None => Throw bad_argument end
  | _ => Throw bad_argument
  end.
Definition bool_options : list bytes := [ #"off"; #"on"].
Definition Z_of_bool (b : bool) : Z := if b then 1 else 0.
Definition json_bool_option (a : lval) (setting : bool) : outcome bool :=
  r ← json_enum_option a (Z_of_bool setting) bool_options 1; Ok (negb (r =? 0)).

Definition on_config {A} (m : SM json_config A) : M A := λ s,
  let '(r, c) := m s.2 in (r, (s.1, c)).
(** Reads the setting, lets the argument change it, and stores it. *)
Definition set_option {A} (get : json_config → A) (put : A → json_config → json_config) (check : A → outcome A) : SM json_config () := λ c,
  match check (get c) with Ok x => (Ok tt, put x c) | Throw e => (Throw e, c) | UB => (UB, c) | NoFuel => (NoFuel, c) end.

Definition put_sparse_convert x c := let 'JsonConfig a1 _ a3 a4 a5 a6 a7 a8 a9 a10 a11 a12 a13 a14 := c in JsonConfig a1 x a3 a4 a5 a6 a7 a8 a9 a10 a11 a12 a13 a14.
Definition put_sparse_ratio x c := let 'JsonConfig a1 a2 _ a4 a5 a6 a7 a8 a9 a10 a11 a12 a13 a14 := c in JsonConfig a1 a2 x a4 a5 a6 a7 a8 a9 a10 a11 a12 a13 a14.
Definition put_sparse_safe x c := let 'JsonConfig a1 a2 a3 _ a5 a6 a7 a8 a9 a10 a11 a12 a13 a14 := c in JsonConfig a1 a2 a3 x a5 a6 a7 a8 a9 a10 a11 a12 a13 a14.
Definition put_encode_max_depth x c := let 'JsonConfig a1 a2 a3 a4 _ a6 a7 a8 a9 a10 a11 a12 a13 a14 := c in JsonConfig a1 a2 a3 a4 x a6 a7 a8 a9 a10 a11 a12 a13 a14.
Definition put_encode_invalid x c := let 'JsonConfig a1 a2 a3 a4 a5 _ a7 a8 a9 a10 a11 a12 a13 a14 := c in JsonConfig a1 a2 a3 a4 a5 x a7 a8 a9 a10 a11 a12 a13 a14.
Definition put_precision x c := let 'JsonConfig a1 a2 a3 a4 a5 a6 _ a8 a9 a10 a11 a12 a13 a14 := c in JsonConfig a1 a2 a3 a4 a5 a6 x a8 a9 a10 a11 a12 a13 a14.
Definition put_keep x c := let 'JsonConfig a1 a2 a3 a4 a5 a6 a7 _ a9 a10 a11 a12 a13 a14 := c in JsonConfig a1 a2 a3 a4 a5 a6 a7 x a9 a10 a11 a12 a13 a14.
Definition put_empty_table x c := let 'JsonConfig a1 a2 a3 a4 a5 a6 a7 a8 _ a10 a11 a12 a13 a14 := c in JsonConfig a1 a2 a3 a4 a5 a6 a7 a8 x a10 a11 a12 a13 a14.
Definition put_slash x c := let 'JsonConfig a1 a2 a3 a4 a5 a6 a7 a8 a9 _ a11 a12 a13 a14 := c in JsonConfig a1 a2 a3 a4 a5 a6 a7 a8 a9 x a11 a12 a13 a14.
Definition put_decode_invalid x c := let 'JsonConfig a1 a2 a3 a4 a5 a6 a7 a8 a9 a10 _ a12 a13 a14 := c in JsonConfig a1 a2 a3 a4 a5 a6 a7 a8 a9 a10 x a12 a13 a14.
Definition put_decode_max_depth x c := let 'JsonConfig a1 a2 a3 a4 a5 a6 a7 a8 a9 a10 a11 _ a13 a14 := c in JsonConfig a1 a2 a3 a4 a5 a6 a7 a8 a9 a10 a11 x a13 a14.
Definition put_array_mt x c := let 'JsonConfig a1 a2 a3 a4 a5 a6 a7 a8 a9 a10 a11 a12 _ a14 := c in JsonConfig a1 a2 a3 a4 a5 a6 a7 a8 a9 a10 a11 a12 x a14.
Definition put_skip x c := let 'JsonConfig a1 a2 a3 a4 a5 a6 a7 a8 a9 a10 a11 a12 a13 _ := c in JsonConfig a1 a2 a3 a4 a5 a6 a7 a8 a9 a10 a11 a12 a13 x.

Definition json_cfg_encode_sparse_array (args : list lval) : M () :=
  args ← lift (json_arg_init 3 args);
  _ ← on_config (set_option encode_sparse_convert put_sparse_convert (json_bool_option (arg 0 args)));
  _ ← on_config (set_option encode_sparse_ratio put_sparse_ratio (λ x, json_integer_option (arg 1 args) x 0 INT_MAX));
  on_config (set_option encode_sparse_safe put_sparse_safe (λ x, json_integer_option (arg 2 args) x 0 INT_MAX)).
Definition json_cfg_encode_max_depth (args : list lval) : M () :=
  args ← lift (json_arg_init 1 args);
  on_config (set_option encode_max_depth put_encode_max_depth (λ x, json_integer_option (arg 0 args) x 1 INT_MAX)).
Definition json_cfg_decode_max_depth (args : list lval) : M () :=
  args ← lift (json_arg_init 1 args);
  on_config (set_option decode_max_depth put_decode_max_depth (λ x, json_integer_option (arg 0 args) x 1 INT_MAX)).
Definition json_cfg_encode_number_precision (args : list lval) : M () :=
  args ← lift (json_arg_init 1 args);
  on_config (set_option encode_number_precision put_precision (λ x, json_integer_option (arg 0 args) x 1 16)).
Definition json_cfg_encode_empty_table_as_object (args : list lval) : M () :=
  args ← lift (json_arg_init 1 args);
  on_config (set_option encode_empty_table_as_object put_empty_table (json_bool_option (arg 0 args))).
Definition json_cfg_decode_array_with_array_mt (args : list lval) : M () :=
  args ← lift (json_arg_init 1 args);
  on_config (set_option decode_array_with_array_mt put_array_mt (json_bool_option (arg 0 args))).
Definition json_cfg_encode_skip_unsupported_value_types (args : list lval) : M () :=
  args ← lift (json_arg_init 1 args);
  on_config (set_option encode_skip_unsupported_value_types put_skip (json_bool_option (arg 0 args))).
(** The buffer exists exactly while it is kept. *)
Definition json_cfg_encode_keep_buffer (args : list lval) : M () :=
  args ← lift (json_arg_init 1 args);
  old_value ← on_config (gets encode_keep_buffer);
  _ ← on_config (set_option encode_keep_buffer put_keep (json_bool_option (arg 0 args)));
  new_value ← on_config (gets encode_keep_buffer);
  if xorb old_value new_value then
    on_config (on_encode_buf (if new_value : bool then strbuf_init alloc 0 else strbuf_free))
  else mret tt.
Definition invalid_options : list bytes := [ #"off"; #"on"; #"null"].
Definition json_cfg_encode_invalid_numbers (args : list lval) : M () :=
  args ← lift (json_arg_init 1 args);
  on_config (set_option encode_invalid_numbers put_encode_invalid (λ x, json_enum_option (arg 0 args) x invalid_options 1)).
Definition json_cfg_decode_invalid_numbers (args : list lval) : M () :=
  args ← lift (json_arg_init 1 args);
  on_config (set_option decode_invalid_numbers put_decode_invalid (json_bool_option (arg 0 args))).
(** The setting is the instance's; the table is everyone's. *)
Definition json_cfg_encode_escape_forward_slash (args : list lval) : M () :=
  args ← lift (json_arg_init 1 args);
  _ ← on_config (set_option encode_escape_forward_slash put_slash (json_bool_option (arg 0 args)));
  s ← on_config (gets encode_escape_forward_slash);
  modify (λ g, (s, g.2)).
Definition json_destroy_config : M () := on_config (on_encode_buf strbuf_free).
End settings.

(** [cjson.safe]: an error is returned, not raised; the end of the process is
    not an error. *)
Definition json_protect_conversion {A} (f : outcome A) (nargs : nat) : outcome (A + bytes) :=
  if (nargs =? 1)%nat then
    match f with
    | Ok a => Ok (inl a)
    | Throw e => if bytes_eqb e abort_text then Throw e else Ok (inr e)
    | UB => UB
    | NoFuel => NoFuel
    end
  else Throw arg_error.

(** ** What a plugin can do with the module *)

Inductive setting :=
  | SparseArray | EncodeMaxDepth | DecodeMaxDepth | NumberPrecision | EmptyTable | ArrayMt | SkipUnsupported
  | KeepBuffer | EncodeInvalid | DecodeInvalid | EscapeSlash.
Inductive cjson_op :=
  | New
  | Configure (i : nat) (s : setting) (args : list lval)
  | Encode (i : nat) (h : store) (args : list lval)
  | Decode (i : nat) (text : bytes).
Definition configure `{T : target} (alloc : Z → bool) (checkinteger : lval → option Z) (s : setting) : list lval → SM (bool * json_config) () :=
  match s with
  | SparseArray => json_cfg_encode_sparse_array checkinteger
  | EncodeMaxDepth => json_cfg_encode_max_depth checkinteger
  | DecodeMaxDepth => json_cfg_decode_max_depth checkinteger
  | NumberPrecision => json_cfg_encode_number_precision checkinteger
  | EmptyTable => json_cfg_encode_empty_table_as_object
  | ArrayMt => json_cfg_decode_array_with_array_mt
  | SkipUnsupported => json_cfg_encode_skip_unsupported_value_types
  | KeepBuffer => json_cfg_encode_keep_buffer alloc
  | EncodeInvalid => json_cfg_encode_invalid_numbers
  | DecodeInvalid => json_cfg_decode_invalid_numbers
  | EscapeSlash => json_cfg_encode_escape_forward_slash
  end.

Section module.
  Context `{T : target}.
  Variable alloc : Z → bool.
  Variable checkinteger : lval → option Z.
  Variable objlen : ltable → Z.
  Variable checkstack : Z → bool.

(** Runs [m] on an instance; a call on one that is not there does nothing. *)
Definition on_instance {A} (i : nat) (m : SM (bool * json_config) A) (g : cjson) : option (outcome A) * cjson :=
  match g_instances g !! i with
  | Some c => let '(r, (s, c)) := m (g_slash g, c) in (Some r, Cjson s (<[i := c]> (g_instances g)))
  | None => (None, g)
  end.
(** The error a call raises, if any; [abort_text] ends the process. *)
Definition cjson_step (g : cjson) (op : cjson_op) : option (outcome ()) * cjson :=
  match op with
  | New =>
      match json_create_config alloc with
      | Ok c => (Some (Ok tt), Cjson (g_slash g) (g_instances g ++ [c]))
      | Throw e => (Some (Throw e), g)
      | UB => (Some UB, g)
      | NoFuel => (Some NoFuel, g)
      end
  | Configure i s args => on_instance i (configure alloc checkinteger s args) g
  | Encode i h args =>
      on_instance i (_ ← (λ s, let '(r, c) := json_encode alloc objlen checkstack s.1 h args s.2 in (r, (s.1, c))); mret tt) g
  | Decode i text =>
      on_instance i (s ← gets snd; _ ← lift (json_decode alloc checkstack s text); mret tt) g
  end.
End module.

(** ** Settings stay in their ranges *)

Record config_valid (limit : Z) (c : json_config) : Prop := {
  valid_ratio : 0 <= encode_sparse_ratio c <= INT_MAX;
  valid_safe : 0 <= encode_sparse_safe c <= INT_MAX;
  valid_encode_depth : 1 <= encode_max_depth c <= INT_MAX;
  valid_decode_depth : 1 <= decode_max_depth c <= INT_MAX;
  valid_precision : 1 <= encode_number_precision c <= 16;
  valid_invalid : 0 <= encode_invalid_numbers c <= 2;
  valid_buffer : config_wf limit c;
}.

Section valid.
  Context `{T : target}.
  Variable alloc : Z → bool.
  Variable checkinteger : lval → option Z.
  Variable limit : Z.
  Hypothesis Hlimit : limit <= MEM_MAX.
  Hypothesis Halloc : ∀ n, alloc n = true → n <= limit.
  Abbreviation valid := (config_valid limit).

(** A call that leaves a valid configuration, also when it raises. *)
Definition keeps {A} (m : SM (bool * json_config) A) : Prop := ∀ s, valid s.2 → wp m s (λ _ s', valid s'.2) (λ e s', aborted e ∨ valid s'.2).

Lemma keeps_bind {A B} (m : SM (bool * json_config) A) (f : A → SM (bool * json_config) B) : keeps m → (∀ a, keeps (f a)) → keeps (m ≫= f).
Proof. intros Hm Hf s Hs. apply wp_bind. eapply wp_mono; [by apply Hm|intros a s' Hs'; by apply Hf|auto]. Qed.
Lemma keeps_args n args {A} (f : list lval → SM (bool * json_config) A) : (∀ a, keeps (f a)) → keeps (a ← lift (json_arg_init n args); f a).
Proof. intros Hf s Hs. unfold json_arg_init. apply wp_bind. destruct (n <? length args)%nat; [by right|]. by apply Hf. Qed.
Lemma keeps_option {A} get put (check : A → outcome A) : (∀ c, valid c → safe (check (get c)) (λ x, valid (put x c))) → keeps (on_config (set_option get put check)).
Proof. intros H [s c] Hs. specialize (H c Hs). unfold wp, on_config, set_option. cbn [fst snd] in *. destruct (check (get c)); cbn in *; auto. Qed.

Lemma safe_integer_option a x lo hi (Q : Z → Prop) : (lo <= x <= hi → Q x) → (∀ y, lo <= y <= hi → Q y) → lo <= x <= hi → safe (json_integer_option checkinteger a x lo hi) Q.
Proof.
  intros Hx Hy Hr. unfold json_integer_option. case_bool_decide; [by apply Hx|]. destruct (checkinteger a) as [z|]; [|done]. cbn zeta.
  destruct ((lo <=? i32 z) && (i32 z <=? hi)) eqn:E; [|done]. bool_to_prop. apply Hy. lia.
Qed.
Lemma option_index_range s options i k : option_index s options i = Some k → i <= k < i + len options.
Proof. revert i. induction options as [|o options IH]; intros i; cbn [option_index]; [done|]. rewrite len_cons. pose proof (len_nonneg options). destruct (bytes_eqb s o); [intros [= <-]; lia|]. intros Hk%IH. lia. Qed.
Lemma safe_enum_option a x options n : 2 <= len options → 0 <= x < len options → n = 1 → safe (json_enum_option a x options n) (λ y, 0 <= y < len options).
Proof.
  intros Ho Hx ->. destruct a as [|b|f|s|p|r|o]; cbn; try done; [destruct b; lia|]. destruct (option_index s options 0) as [k|] eqn:E; [|done]. apply option_index_range in E. cbn. lia.
Qed.
Lemma safe_bool_option a x (Q : bool → Prop) : (∀ b, Q b) → safe (json_bool_option a x) Q.
Proof.
  intros HQ. unfold json_bool_option. eapply safe_bind; [apply (safe_enum_option _ _ bool_options 1); [done|by destruct x|done]|]. intros y _. apply HQ.
Qed.

Ltac valid_option := apply keeps_option; intros [] []; cbn in *;
  (apply safe_integer_option; [| |done]; intros; constructor; cbn; done || lia) || (apply safe_bool_option; intros; constructor; cbn; done || lia).

Lemma keeps_keep_buffer args : keeps (json_cfg_encode_keep_buffer alloc args).
Proof.
  unfold json_cfg_encode_keep_buffer. apply keeps_args. intros a [s c] Hc. apply wp_bind. unfold wp at 1, on_config, gets. cbn [fst snd].
  apply wp_bind. pose proof (safe_bool_option (arg 0 a) (encode_keep_buffer c) (λ _, True) (λ _, I)) as Ho. unfold wp at 1, set_option. cbn [fst snd].
  destruct (json_bool_option (arg 0 a) (encode_keep_buffer c)) as [x|e| |]; cbn [fst snd] in *; [|by right|done..].
  apply wp_bind. unfold wp at 1, gets. cbn [fst snd]. assert (encode_keep_buffer (put_keep x c) = x ∧ encode_buf (put_keep x c) = encode_buf c) as [-> Eb] by by destruct c.
  assert (∀ b, (x = true → ∃ t, holds limit t 0 b) → valid (set_encode_buf b (put_keep x c))) as Hput.
  { intros b Hb. destruct c, Hc. constructor; cbn in *; done. }
  destruct (xorb (encode_keep_buffer c) x) eqn:E.
  - unfold wp, on_encode_buf. cbn [fst snd]. rewrite Eb. destruct x.
    + pose proof (wp_init alloc limit Halloc 0 (encode_buf c) ltac:(lia)) as Hi. unfold wp in Hi. destruct (strbuf_init alloc 0 (encode_buf c)) as [[[]|e| |] b]; cbn [fst snd]; [|by left|done..].
      apply Hput. intros _. exists []. destruct Hi as [Hi _]. eapply holds_weaken; [exact Hi|cbn; lia].
    + cbn. by apply Hput.
  - apply wp_ret. cbn [snd]. assert (x = encode_keep_buffer c) as -> by (by destruct x, (encode_keep_buffer c)). by replace (put_keep (encode_keep_buffer c) c) with c by by destruct c.
Qed.

Lemma keeps_configure s args : keeps (configure alloc checkinteger s args).
Proof.
  destruct s; cbn [configure].
  - apply keeps_args. intros a. apply keeps_bind; [valid_option|]. intros _. apply keeps_bind; [valid_option|]. intros _. valid_option.
  - apply keeps_args. intros a. valid_option.
  - apply keeps_args. intros a. valid_option.
  - apply keeps_args. intros a. valid_option.
  - apply keeps_args. intros a. valid_option.
  - apply keeps_args. intros a. valid_option.
  - apply keeps_args. intros a. valid_option.
  - apply keeps_keep_buffer.
  - apply keeps_args. intros a. apply keeps_option. intros c Hc. eapply safe_mono; [apply (safe_enum_option _ _ invalid_options 1); [done|change (len invalid_options) with 3; destruct Hc; lia|done]|].
    intros y Hy. change (len invalid_options) with 3 in Hy. destruct c, Hc. constructor; cbn in *; done || lia.
  - apply keeps_args. intros a. valid_option.
  - apply keeps_args. intros a. apply keeps_bind; [valid_option|]. intros _ [s c] Hc. apply wp_bind. unfold wp at 1, on_config, gets. cbn [fst snd]. by apply wp_modify.
Qed.
End valid.

(** ** Runs of the module *)

Definition cjson_valid (limit : Z) (g : cjson) : Prop := Forall (config_valid limit) (g_instances g).
(** What a plugin encodes is in the range of the encoder's integers. *)
Definition op_ok `{T : target} (limit : Z) (g : cjson) (op : cjson_op) : Prop :=
  match op with
  | Encode i h args => store_fits h ∧ Forall fits args ∧
      ∀ c, g_instances g !! i = Some c → in_int_range c h ∧ (encode_skip_unsupported_value_types c = true → limit <= 2 ^ 31)
  | _ => True
  end.

Section runs.
  Context `{T : target}.
  Variable alloc : Z → bool.
  Variable checkinteger : lval → option Z.
  Variable objlen : ltable → Z.
  Variable checkstack : Z → bool.
  Variable limit : Z.
  Hypothesis Hlimit : limit <= MEM_MAX.
  Hypothesis Halloc : ∀ n, alloc n = true → n <= limit.

(** The states after calls that did not end the process. *)
Inductive cjson_reachable : cjson → Prop :=
  | reach_start : cjson_reachable (Cjson true [])
  | reach_step g op : cjson_reachable g → op_ok limit g op →
      (cjson_step alloc checkinteger objlen checkstack g op).1 ≠ Some (Throw abort_text) →
      cjson_reachable (cjson_step alloc checkinteger objlen checkstack g op).2.

Lemma step_on_instance {A} i (m : SM (bool * json_config) A) g : cjson_valid limit g →
  (∀ c, g_instances g !! i = Some c → config_valid limit c → wp m (g_slash g, c) (λ _ s', config_valid limit s'.2) (λ e s', aborted e ∨ config_valid limit s'.2)) →
  let '(r, g') := on_instance i m g in r ≠ Some UB ∧ r ≠ Some NoFuel ∧ (r = Some (Throw abort_text) ∨ cjson_valid limit g').
Proof.
  intros Hg Hm. unfold on_instance. destruct (g_instances g !! i) as [c|] eqn:E; [|auto]. pose proof (Forall_lookup_1 _ _ _ _ Hg E) as Hc.
  specialize (Hm c eq_refl Hc). unfold wp in Hm. destruct (m (g_slash g, c)) as [r [s c']]. cbn [snd] in Hm.
  assert (config_valid limit c' → cjson_valid limit (Cjson s (<[i:=c']> (g_instances g)))) as Hv by (intros; by apply Forall_insert).
  destruct r as [x|e| |]; try done; (split_and!; [done..|]); [auto|]. destruct Hm as [->|Hm]; auto.
Qed.

Lemma on_encode_buf_put {A} (m : SM strbuf A) c : ∃ b, (on_encode_buf m c).2 = set_encode_buf b c.
Proof. unfold on_encode_buf. destruct (m (encode_buf c)) as [r b]. by exists b. Qed.
Lemma encode_keeps slash h args c : store_fits h → Forall fits args → in_int_range c h → (encode_skip_unsupported_value_types c = true → limit <= 2 ^ 31) → config_valid limit c →
  let '(r, c') := json_encode alloc objlen checkstack slash h args c in r = Throw abort_text ∨ defined r ∧ config_valid limit c'.
Proof.
  intros Hf Hargs Hr Hs Hc. assert (∀ a, defined (Throw a : outcome bytes) ∧ config_valid limit c) as Hbad by auto using Throw_defined.
  destruct args as [|v [|]]; [by right| |by right]. apply Forall_cons in Hargs as [Hv _].
  pose proof (encode_spec alloc objlen checkstack slash limit h Hlimit Halloc Hf c v Hs Hv Hr (valid_buffer _ _ Hc)) as H.
  assert (∃ b, (json_encode alloc objlen checkstack slash h [v] c).2 = set_encode_buf b c) as [b Eb].
  { unfold json_encode. destruct (negb _); [exists (encode_buf c); by destruct c|]. apply on_encode_buf_put. }
  destruct (json_encode _ _ _ _ _ _ _) as [r c']. cbn [snd] in Eb. destruct H as [->|(_ & Hd & Hw)]; [by left|right]. split; [done|]. subst c'. destruct c, Hc. by constructor.
Qed.

Lemma step_valid g op : cjson_valid limit g → op_ok limit g op →
  let '(r, g') := cjson_step alloc checkinteger objlen checkstack g op in r ≠ Some UB ∧ r ≠ Some NoFuel ∧ (r = Some (Throw abort_text) ∨ cjson_valid limit g').
Proof.
  intros Hg Hop. destruct op as [|i s args|i h args|i text]; cbn [cjson_step].
  - unfold json_create_config. pose proof (wp_init alloc limit Halloc 0 (StrBuf false 0 []) ltac:(lia)) as Hi. unfold wp in Hi.
    destruct (strbuf_init alloc 0 _) as [[[]|e| |] b]; [| |done..]; (split_and!; [done..|]); [right|left; by rewrite Hi].
    apply Forall_app. split; [done|]. apply Forall_singleton. constructor; cbn; unfold INT_MAX; try lia. intros _. exists []. destruct Hi as [Hi _]. eapply holds_weaken; [exact Hi|cbn; lia].
  - apply step_on_instance; [done|]. intros c _ Hc. by apply (keeps_configure alloc checkinteger limit Halloc s args (g_slash g, c)).
  - destruct Hop as (Hf & Ha & Hr). apply step_on_instance; [done|]. intros c Hi Hc. destruct (Hr c Hi) as [Hr' Hs]. apply wp_bind.
    pose proof (encode_keeps (g_slash g) h args c Hf Ha Hr' Hs Hc) as H. unfold wp. cbn [fst snd]. destruct (json_encode _ _ _ _ _ _ _) as [r c'].
    destruct H as [->|[Hd Hc']]; [by left|]. destruct r; [done|by right|by destruct Hd..].
  - apply step_on_instance; [done|]. intros c Hi Hc. apply wp_bind. unfold wp at 1, gets. cbn [snd]. apply wp_bind.
    pose proof (decode_defined alloc checkstack c text) as Hd. unfold wp, lift. destruct (json_decode alloc checkstack c text); [done|by right|by destruct Hd..].
Qed.
End runs.


(** An instance set up for six digits, then refused a precision of 17. *)
Definition demo_checkinteger (v : lval) : option Z := match v with LNum f => float_int f | _ => None end.

(** The table of escapes belongs to no instance: what one instance sets, all
    others use. *)
Theorem slash_setting_shared :
  let step := cjson_step (T:=target32) (λ _, true) demo_checkinteger (λ _, 0) (λ _, true) in
  let g := (step (step (step (Cjson true []) New).2 New).2 (Configure 0 EscapeSlash [LBool false])).2 in
  g_slash g = false ∧ encode_escape_forward_slash <$> g_instances g = [false; true].
Proof. by vm_compute. Qed.
