(* ===== verification/LuaRoundTrip.v ===== *)
(** * LuaRoundTrip: decoding what was encoded

    What the decoder of [LuaDecode] does on the texts the encoder of
    [LuaEncode] writes.  [tree_text] is the text of a tree; a value whose
    tables unfold to the tree is encoded as that text, and the text is decoded
    to the tree. *)

From Stdlib Require Import SpecFloat.
From S2P Require Import Prelude State Json StrBuf NumText LuaEncode LuaDecode LuaJson.

(** ** Trees and their text *)

Definition is_seq (es : list (tkey * ltree)) : Prop := es.*1 = KInt <$> indices (len es) ∧ es ≠ [].
Definition is_obj (es : list (tkey * ltree)) : Prop := Forall (λ k, ∃ s, k = KStr s) (es.*1) ∧ NoDup (es.*1).
(** Nesting of at most [d], integers that are printed exactly and that
    [lua_Integer] holds, tables that are sequences or have string keys. *)
Fixpoint tree_ok `{T : target} (d : nat) (t : ltree) : Prop :=
  match t with
  | TrNull | TrBool _ => True
  | TrStr s => len s <= MEM_MAX
  | TrNum f => ∃ n, f = double_of_Z n ∧ Z.abs n < 10 ^ 14 ∧ Z.abs n < 2 ^ (word_bits - 1)
  | TrTable mt es =>
      match d with
      | O => False
      | S d => mt = false ∧ len es < 2 ^ 30 ∧ (is_seq es ∨ is_obj es) ∧ Forall (λ e, tree_ok d e.2) es
      end
  end.
Definition commas (xs : list bytes) : bytes :=
  match xs with [] => [] | x :: xs => x ++ concat ((λ y, #"," ++ y) <$> xs) end.
Definition key_text (slash : bool) (k : tkey) : bytes := match k with KStr s => text_string slash s ++ #":" | KInt _ => [] end.
Fixpoint tree_text (slash : bool) (d : nat) (t : ltree) : bytes :=
  match t with
  | TrNull => #"null"
  | TrBool b => if b then #"true" else #"false"
  | TrStr s => text_string slash s
  | TrNum f => fmt_g 14 f
  | TrTable _ es =>
      match d with
      | O => []
      | S d =>
          match es with
          | (KInt _, _) :: _ => #"[" ++ commas ((λ e, tree_text slash d e.2) <$> es) ++ #"]"
          | _ => #"{" ++ commas ((λ e, key_text slash e.1 ++ tree_text slash d e.2) <$> es) ++ #"}"
          end
      end
  end.

(** ** Values that unfold to a tree *)

Definition key_rep (k : lval) (k' : tkey) : Prop := match k' with KStr s => k = LStr s | KInt z => k = LNum (double_of_Z z) end.
Fixpoint unfolds (d : nat) (h : store) (v : lval) (t : ltree) : Prop :=
  match t with
  | TrNull => v = LLight PNull
  | TrBool b => v = LBool b
  | TrNum f => v = LNum f
  | TrStr s => v = LStr s
  | TrTable _ es =>
      match d with
      | O => False
      | S d => ∃ r, v = LTable r ∧ t_meta (h r) = None ∧ Forall2 (λ e e', key_rep e.1 e'.1 ∧ unfolds d h e.2 e'.2) (t_entries (h r)) es
      end
  end.

(** ** Integers as keys *)

Lemma double_inj n m : 0 < n < 2 ^ 53 → 0 < m < 2 ^ 53 → double_of_Z n = double_of_Z m → n = m.
Proof. intros Hn Hm E. apply (f_equal float_int) in E. rewrite !float_int_double in E by done. congruence. Qed.
Lemma indices_S n : 0 <= n → indices (n + 1) = indices n ++ [n + 1].
Proof. intros Hn. unfold indices. replace (Z.to_nat (n + 1)) with (S (Z.to_nat n)) by lia. rewrite seq_S, fmap_app. cbn. do 2 f_equal. lia. Qed.
Lemma length_indices n : 0 <= n → len (indices n) = n.
Proof. intros Hn. unfold indices, len. rewrite length_fmap, length_seq. lia. Qed.
Lemma indices_range n i : i ∈ indices n → 1 <= i <= n.
Proof. unfold indices. intros (k & -> & Hk%elem_of_seq)%list_elem_of_fmap. lia. Qed.
Lemma indices_lookup n i : 1 <= i <= n → indices n !! Z.to_nat (i - 1) = Some i.
Proof. intros Hi. unfold indices. rewrite list_lookup_fmap. rewrite lookup_seq_lt by lia. cbn. f_equal. lia. Qed.

(** ** The text of a value *)

Lemma text_items_some xs first : text_items (Ok <$> (Some <$> xs)) first =
  Ok (match first with true => commas xs | false => concat ((λ y, #"," ++ y) <$> xs) end).
Proof.
  revert first. induction xs as [|x xs IH]; intros first; cbn [fmap list_fmap text_items]; [by destruct first|]. cbn [mbind outcome_bind]. rewrite IH. cbn [mbind outcome_bind]. by destruct first.
Qed.

Lemma array_scan_seq (es : list (lval * lval)) n : es.*1 = (LNum ∘ double_of_Z) <$> indices n → 0 <= n < 2 ^ 30 →
  ∀ k, 0 <= k <= n → array_scan (drop (Z.to_nat k) es) k k = Ok (Some (n, n)).
Proof.
  intros Hk Hn. assert (length es = Z.to_nat n) as Hl.
  { apply (f_equal length) in Hk. rewrite !length_fmap in Hk. unfold indices in Hk. by rewrite length_fmap, length_seq in Hk. }
  assert (∀ j k, k = n - Z.of_nat j → 0 <= k → array_scan (drop (Z.to_nat k) es) k k = Ok (Some (n, n))) as H.
  { induction j as [|j IH]; intros k Hj H0.
    - replace k with n by lia. rewrite drop_ge by lia. done.
    - destruct (es !! Z.to_nat k) as [[key v]|] eqn:E; [|apply lookup_ge_None in E; lia]. rewrite (drop_S _ _ _ E).
      assert (key = LNum (double_of_Z (k + 1))) as ->.
      { apply (f_equal (λ l, l !! Z.to_nat k)) in Hk. rewrite !list_lookup_fmap, E in Hk. cbn in Hk.
        pose proof (indices_lookup n (k + 1) ltac:(lia)) as Hi. replace (k + 1 - 1) with k in Hi by lia. rewrite Hi in Hk. by injection Hk. }
      cbn [array_scan]. pose proof (float_int_double (k + 1) ltac:(lia)) as Ef.
      assert (∀ A (x y : A), match double_of_Z (k + 1) with S754_infinity false => x | _ => y end = y) as -> by (intros A x y; by destruct (double_of_Z (k + 1)) as [|[]| |]).
      rewrite Ef. destruct (Z.leb_spec 1 (k + 1)); [|lia]. destruct (Z.ltb_spec k (k + 1)); [|lia].
      destruct (Z.ltb_spec (k + 1) (2 ^ 31)); [|lia]. bind_simpl. unfold INT_MAX. destruct (Z.eqb_spec k (2 ^ 31 - 1)); [lia|].
      replace (S (Z.to_nat k)) with (Z.to_nat (k + 1)) by lia. apply IH; lia. }
  intros k Hk'. apply (H (Z.to_nat (n - k))); lia.
Qed.

Lemma raw_get_seq (es : list (lval * lval)) n i : es.*1 = (LNum ∘ double_of_Z) <$> indices n → 0 <= n < 2 ^ 30 → 1 <= i <= n →
  ∃ v, es !! Z.to_nat (i - 1) = Some (LNum (double_of_Z i), v) ∧ raw_get (LNum (double_of_Z i)) es = v.
Proof.
  intros Hk Hn Hi. assert (∀ j, es !! j = None ∨ ∃ v, es !! j = Some (LNum (double_of_Z (Z.of_nat j + 1)), v) ∧ Z.of_nat j < n) as Hes.
  { intros j. destruct (es !! j) as [[key v]|] eqn:E; [|by left]. right. exists v. apply (f_equal (λ l, l !! j)) in Hk. rewrite !list_lookup_fmap, E in Hk. cbn in Hk.
    unfold indices in Hk. destruct (Z.to_nat n) as [|m] eqn:Em; [cbn in Hk; lia|]. destruct (decide (j < S m)%nat) as [Hj|Hj].
    - rewrite list_lookup_fmap, lookup_seq_lt in Hk by done. injection Hk as ->. split; [|lia]. do 3 f_equal. f_equal. lia.
    - rewrite (lookup_ge_None_2 (Z.of_nat <$> seq 1 (S m)) j) in Hk by (rewrite length_fmap, length_seq; lia). done. }
  assert (∀ j k, (j <= k)%nat → Z.of_nat k + 1 = i → ∃ v, es !! k = Some (LNum (double_of_Z i), v) ∧ raw_get (LNum (double_of_Z i)) (drop j es) = v) as H.
  { intros j k Hjk Hki. assert (is_Some (es !! k)) as [[key v] Ek].
    { apply lookup_lt_is_Some_2. apply (f_equal length) in Hk. rewrite !length_fmap in Hk. rewrite Hk. unfold indices. rewrite length_fmap, length_seq. lia. }
    destruct (Hes k) as [?|(v' & E & _)]; [congruence|]. rewrite Hki in E. exists v'. split; [done|]. clear Ek key v.
    induction (k - j)%nat as [|m IH] eqn:Em in j, Hjk |- *.
    - replace j with k by lia. rewrite (drop_S _ _ _ E). cbn [raw_get]. by rewrite bool_decide_true.
    - destruct (Hes j) as [E'|(w & E' & Hj)]; [apply lookup_ge_None in E'; apply lookup_lt_Some in E; lia|]. rewrite (drop_S _ _ _ E'). cbn [raw_get].
      rewrite bool_decide_false; [apply IH; lia|]. intros [= Heq%double_inj]; lia. }
  destruct (H 0%nat (Z.to_nat (i - 1)) ltac:(lia) ltac:(lia)) as (v & E1 & E2). rewrite drop_0 in E2. eauto.
Qed.

Section text.
  Context `{T : target}.
  Variable objlen : ltable → Z.
  Variable checkstack : Z → bool.
  Variable slash : bool.
  Variable b : strbuf.
  Variable h : store.
  Hypothesis Hstack : ∀ d, d <= 1000 → checkstack d = true.
  Abbreviation cfg := (default_config b).

Lemma keys_rep d es es' : Forall2 (λ (e : lval * lval) (e' : tkey * ltree), key_rep e.1 e'.1 ∧ unfolds d h e.2 e'.2) es es' →
  (∀ n, es'.*1 = KInt <$> n → es.*1 = (LNum ∘ double_of_Z) <$> n) ∧ len es = len es'.
Proof.
  intros HF. split; [|unfold len; by rewrite (Forall2_length _ _ _ HF)]. induction HF as [|[k v] [k' t] es es' [Hk _] _ IH]; intros n Hn.
  - by destruct n.
  - destruct n as [|i n]; [done|]. injection Hn as -> Hn. cbn in *. rewrite Hk. f_equal. by apply IH.
Qed.

(** A table of the tree is written as an array or an object. *)
Lemma layout_seq r es d : t_meta (h r) = None → Forall2 (λ e e', key_rep e.1 e'.1 ∧ unfolds d h e.2 e'.2) (t_entries (h r)) es →
  is_seq es → len es < 2 ^ 30 → table_layout objlen cfg (LTable r) (h r) = Ok (AsArray (len es) true).
Proof.
  intros Hm HF [Hk Hne] Hn. destruct (keys_rep d _ _ HF) as [Hkeys Hlen]. pose proof (Hkeys _ Hk) as Hk'. pose proof (len_nonneg es).
  pose proof (array_scan_seq _ _ Hk' ltac:(lia) 0 ltac:(lia)) as Hs. change (Z.to_nat 0) with 0%nat in Hs. rewrite drop_0 in Hs.
  unfold table_layout, lua_array_length. rewrite Hm. bind_simpl. rewrite Hs. bind_simpl. cbn [encode_sparse_ratio default_config]. change (0 <? 2) with true. cbn iota.
  unfold INT_MAX. destruct (Z.ltb_spec (2 ^ 31 - 1) (len es * 2)); [lia|]. bind_simpl. destruct (Z.ltb_spec (len es * 2) (len es)); [lia|]. cbn [andb]. bind_simpl.
  destruct (Z.ltb_spec 0 (len es)); [done|]. destruct es; [done|]. rewrite len_cons in *. pose proof (len_nonneg es). lia.
Qed.
Lemma layout_obj r es d : t_meta (h r) = None → Forall2 (λ e e', key_rep e.1 e'.1 ∧ unfolds d h e.2 e'.2) (t_entries (h r)) es →
  is_obj es → table_layout objlen cfg (LTable r) (h r) = Ok AsObject.
Proof.
  intros Hm HF [Hk _]. unfold table_layout, lua_array_length. rewrite Hm. bind_simpl. destruct HF as [|[k v] [k' t] es0 es' [Hkr _] _]; [done|].
  cbn in Hk. apply Forall_cons in Hk as [[s ->] _]. cbn in Hkr. by subst k.
Qed.

Lemma value_text d depth fuel v t : tree_ok d t → unfolds d h v t → 0 <= depth → depth + Z.of_nat d <= 1000 → (d <= fuel)%nat →
  text_data objlen checkstack slash cfg h fuel depth v = Ok (Some (tree_text slash d t)).
Proof.
  revert depth fuel v t. induction d as [|d IH]; intros depth fuel v t Hok Hu Hd0 Hd Hf; destruct t as [|bo|f|s|mt es]; cbn [tree_ok unfolds] in *; try done; subst.
  1-8: destruct fuel; cbn [text_data tree_text]; try done; (destruct Hok as (n & -> & Hn & Hw)); unfold text_number.
  1-4: assert (isinf (double_of_Z n) || isnan (double_of_Z n) = false) as -> by
        (unfold double_of_Z; destruct (n =? 0); [done|]; destruct (Z.ltb_spec (Z.abs n) (2 ^ 53)); [done|lia]); done.
  destruct Hok as (-> & Hlen & Hkind & Hes). destruct Hu as (r & -> & Hm & HF). destruct fuel as [|fuel]; [lia|]. cbn [text_data].
  unfold json_check_encode_depth. cbn [encode_max_depth default_config]. destruct (Z.leb_spec (depth + 1) 1000); [|lia]. rewrite Hstack by lia. cbn [andb]. bind_simpl.
  assert (∀ e e', e' ∈ es → unfolds d h e e'.2 → text_data objlen checkstack slash cfg h fuel (depth + 1) e = Ok (Some (tree_text slash d e'.2))) as Hrec.
  { intros e e' Hin He. rewrite Forall_forall in Hes. apply IH; auto; lia. }
  destruct Hkind as [Hseq|Hobj].
  - rewrite (layout_seq r es d Hm HF Hseq Hlen). bind_simpl. destruct (keys_rep d _ _ HF) as [Hkeys Hl]. destruct Hseq as [Hk Hne]. pose proof (len_nonneg es).
    assert (((λ i, v ← get_element (h r) true i; text_data objlen checkstack slash cfg h fuel (depth + 1) v) <$> indices (len es)) =
      Ok <$> (Some <$> ((λ e, tree_text slash d e.2) <$> es))) as ->.
    { apply list_eq. intros j. rewrite !list_lookup_fmap. destruct (es !! j) as [[k' t]|] eqn:E.
      - pose proof (lookup_lt_Some _ _ _ E) as Hj. pose proof (indices_lookup (len es) (Z.of_nat j + 1) ltac:(unfold len; lia)) as Hi.
        replace (Z.to_nat (Z.of_nat j + 1 - 1)) with j in Hi by lia. rewrite Hi. cbn. f_equal. unfold get_element.
        destruct (raw_get_seq _ _ (Z.of_nat j + 1) (Hkeys _ Hk) ltac:(lia) ltac:(unfold len; lia)) as (v & Ev & ->).
        replace (Z.to_nat (Z.of_nat j + 1 - 1)) with j in Ev by lia. destruct (Forall2_lookup_lr _ _ _ _ _ _ HF Ev E) as [_ Hu]. cbn in Hu.
        pose proof (Hrec v (k', t) ltac:(by eapply list_elem_of_lookup_2) Hu) as Hv. by destruct v.
      - rewrite (lookup_ge_None_2 (indices (len es)) j); [done|]. apply lookup_ge_None in E. unfold indices. rewrite length_fmap, length_seq. unfold len. lia. }
    rewrite text_items_some. bind_simpl. cbn [tree_text]. destruct es as [|[[s|z] t] es]; [done| |done]. destruct (indices (len ((KStr s, t) :: es))); done.
  - rewrite (layout_obj r es d Hm HF Hobj). bind_simpl.
    assert (((λ e : lval * lval, k ← text_key slash cfg e.1; t ← text_data objlen checkstack slash cfg h fuel (depth + 1) e.2; Ok (option_map (app k) t)) <$> t_entries (h r)) =
      Ok <$> (Some <$> ((λ e, key_text slash e.1 ++ tree_text slash d e.2) <$> es))) as ->.
    { destruct Hobj as [Hk _]. clear Hm Hes Hlen. revert Hrec Hk. induction HF as [|[k v] [k' t] es0 es' [Hkr Hu] _ IHF]; intros Hrec Hk; [done|].
      cbn in Hk. apply Forall_cons in Hk as [[s ->] Hk]. cbn in Hkr, Hu. subst k. cbn [fmap list_fmap]. f_equal.
      - cbn [fst snd text_key]. bind_simpl. rewrite (Hrec v (KStr s, t)); [done|left|done].
      - apply IHF; [|done]. intros e e' Hin. apply Hrec. by right. }
    rewrite text_items_some. bind_simpl. cbn [tree_text]. destruct es as [|[[s|z] t] es]; [done|done|]. destruct Hobj as [Hk _]. cbn in Hk. apply Forall_cons in Hk as [[s [=]] _].
Qed.
End text.

(** ** Reading a text *)

Section read.
  Context `{T : target}.
  Variable checkstack : Z → bool.
  Variable b : strbuf.
  Variable data : bytes.
  Hypothesis Hstack : ∀ d, d <= 1000 → checkstack d = true.
  Abbreviation cfg := (default_config b).
  Abbreviation M := (SM json_parse).
  (** Runs without an error. *)
  Abbreviation run m p Q := (wp m p Q (λ _ _, False)).

(** The text before and after the pointer. *)
Definition here (pre rest : bytes) (d : Z) (p : json_parse) : Prop :=
  data ++ [x00] = pre ++ rest ∧ p_ptr p = len pre ∧ p_depth p = d ∧ parse_ok data p.
(** What follows a value. *)
Definition follows (r : bytes) : Prop := match r with c :: _ => c = ","%byte ∨ c = "]"%byte ∨ c = "}"%byte ∨ c = x00 | [] => False end.

Lemma here_ext pre rest pre' rest' d p : here pre rest d p → pre = pre' → rest = rest' → here pre' rest' d p.
Proof. by intros ? <- <-. Qed.
Lemma here_peek pre a c r d p (Q : byte → json_parse → Prop) : here pre (a ++ c :: r) d p → Q c p → run (peek data (len a)) p Q.
Proof.
  intros (E & Hp & _ & _) HQ. unfold peek. apply wp_bind, wp_gets. unfold wp, lift. rewrite Hp, E.
  rewrite (rd_at (pre ++ a ++ c :: r) (pre ++ a) c r); [done|by rewrite app_assoc|by rewrite len_app].
Qed.
Lemma here_moved pre x r d p q : here pre (x ++ r) d p → r ≠ [] → p_ptr q = p_ptr p + len x → p_depth q = p_depth p →
  sb_live (p_tmp q) = true → sb_size (p_tmp q) = sb_size (p_tmp p) → here (pre ++ x) r d q.
Proof.
  intros (E & Hp & Hd & (Hr & Hl & Hs)) Hne Hq Hdq Hlq Hsq. split_and!; [by rewrite <- app_assoc|rewrite len_app; lia|congruence|].
  apply (f_equal len) in E. rewrite !len_app in E. change (len [x00]) with 1 in E. assert (0 < len r) by (destruct r; [done|rewrite len_cons; pose proof (len_nonneg r); lia]).
  pose proof (len_nonneg x). pose proof (len_nonneg pre). split_and!; auto; lia.
Qed.
Lemma here_advance pre x r d p (Q : () → json_parse → Prop) : here pre (x ++ r) d p → r ≠ [] → (∀ q, here (pre ++ x) r d q → p_tmp q = p_tmp p → Q tt q) → run (advance (len x)) p Q.
Proof.
  intros H Hne HQ. unfold advance. apply wp_modify, HQ; [|done]. pose proof H as (_ & _ & _ & (_ & Hl & _)). by eapply here_moved.
Qed.
Lemma here_left pre rest d p : here pre rest d p → len rest = len data - p_ptr p + 1.
Proof. intros (E & Hp & _). apply (f_equal len) in E. rewrite !len_app in E. change (len [x00]) with 1 in E. lia. Qed.

(** *** Strings *)

Lemma escape_view slash c :
  (char2escape slash c = None ∧ c ≠ x22 ∧ c ≠ "\"%byte ∧ c ≠ x00) ∨
  (∃ e, char2escape slash c = Some ["\"%byte; e] ∧ escape2char e = c ∧ c ≠ "u"%byte ∧ c ≠ x00) ∨
  (∃ h l, char2escape slash c = Some ["\"; "u"; "0"; "0"; h; l]%byte ∧ 0 <= hexdigit2int h ∧ 0 <= hexdigit2int l ∧ hexdigit2int h * 16 + hexdigit2int l = b2z c ∧ b2z c <= 127).
Proof.
  destruct slash, c; first [left; by split_and!|right; left; eexists; by split_and!|right; right; do 2 eexists; by split_and!].
Qed.
Lemma ascii_codepoint c : b2z c <= 127 → (Z.land (b2z c) 63488 =? 55296) = false ∧ codepoint_to_utf8 (b2z c) = [c].
Proof.
  intros Hc. split; [by destruct c|]. unfold codepoint_to_utf8. destruct (Z.leb_spec (b2z c) 127); [|lia]. by rewrite z2b_b2z.
Qed.

(** Inside a string: [acc] is decoded, and shorter than its text. *)
Definition in_string (pre rest acc : bytes) (d : Z) (p : json_parse) : Prop := here pre rest d p ∧ sb_data (p_tmp p) = acc ∧ len acc < len pre.

Lemma in_string_room pre rest acc d p : in_string pre rest acc d p → rest ≠ [] → sb_live (p_tmp p) = true ∧ len acc + 1 < sb_size (p_tmp p) + 1 ∧ len acc <= len data - len rest.
Proof.
  intros (H & Ha & Hl) Hne. pose proof (here_left _ _ _ _ H) as Hleft. destruct H as (_ & Hp & _ & (Hr & Hlive & Hs)). split_and!; auto; lia.
Qed.
Lemma append_here pre x c r acc d p (Q : json_parse → Prop) : in_string pre (x ++ r) acc d p → x ≠ [] → r ≠ [] →
  (∀ q, in_string (pre ++ x) r (acc ++ [c]) d q → Q q) →
  Q (JsonParse (p_ptr p + len x) (StrBuf true (sb_size (p_tmp p)) (sb_data (p_tmp p) ++ [c])) (p_depth p)).
Proof.
  intros (H & Ha & Hl) Hx Hr HQ. apply HQ. split_and!.
  - by eapply here_moved.
  - cbn. by rewrite Ha.
  - rewrite !len_app. change (len [c]) with 1. destruct x; [done|]. rewrite len_cons. pose proof (len_nonneg x). lia.
Qed.

Lemma read_escaped slash c r fuel index pre acc d p (Q : token_at → json_parse → Prop) :
  in_string pre (escape_char slash c ++ r) acc d p → r ≠ [] →
  (∀ q, in_string (pre ++ escape_char slash c) r (acc ++ [c]) d q → run (string_loop data fuel index) q Q) →
  run (string_loop data (S fuel) index) p Q.
Proof.
  intros Hin Hr HQ. assert (∀ x, escape_char slash c = x → x ≠ []) as Hx.
  { intros x <-. unfold escape_char. destruct (char2escape slash c) eqn:E; [|done]. apply escape_length in E. intros ->. change (len []) with 0 in E. lia. }
  pose proof (append_here pre (escape_char slash c) c r acc d p (λ q, run (string_loop data fuel index) q Q) Hin (Hx _ eq_refl) Hr HQ) as Hgo.
  destruct Hin as (H & Ha & Hl). pose proof H as (_ & Hptr & _ & (Hrange & Hlive & Hsize)). cbn [string_loop].
  assert (∀ q, p_tmp q = p_tmp p → ∀ Q', Q' (JsonParse (p_ptr q) (StrBuf true (sb_size (p_tmp p)) (sb_data (p_tmp p) ++ [c])) (p_depth q)) → run (on_tmp (strbuf_append_mem_unsafe [c])) q (λ _, Q')) as Happ.
  { intros q Hq Q' HQ'. unfold wp, on_tmp, strbuf_append_mem_unsafe. rewrite Hq, Hlive, Ha. change (len [c]) with 1. destruct (Z.leb_spec (len acc + 1) (sb_size (p_tmp p))); [|lia]. cbn. by rewrite Ha in HQ'. }
  unfold escape_char in *. destruct (escape_view slash c) as [(E & Hq & Hb & Hz)|[(e & E & He & Hu & Hz)|(hh & ll & E & Hh & Hl' & Hv & H127)]]; rewrite E in *.
  - apply wp_bind, (here_peek pre [] c r d p _ H). destruct (beqb_spec c x22); [done|]. destruct (beqb_spec c x00); [done|]. destruct (beqb_spec c "\"); [done|].
    apply wp_bind, Happ; [done|]. by apply wp_bind, wp_modify.
  - apply wp_bind, (here_peek pre [] "\"%byte (e :: r) d p _ H). cbn [beqb Byte.eqb]. change (beqb "\" x22) with false. change (beqb "\" x00) with false. change (beqb "\" "\") with true. cbn iota.
    apply wp_bind, (here_peek pre ["\"%byte] e r d p _ H). cbn zeta. rewrite He. destruct (beqb_spec c "u"); [done|]. destruct (beqb_spec c x00); [done|].
    apply wp_bind, wp_modify. apply wp_bind, Happ; [done|]. apply wp_bind, wp_modify. cbn [p_ptr p_tmp p_depth]. rewrite <- Z.add_assoc. exact Hgo.
  - apply wp_bind, (here_peek pre [] "\"%byte _ d p _ H). change (beqb "\" x22) with false. change (beqb "\" x00) with false. change (beqb "\" "\") with true. cbn iota.
    apply wp_bind, (here_peek pre ["\"%byte] "u"%byte _ d p _ H). change (escape2char "u") with "u"%byte. cbn zeta. change (beqb "u" "u") with true. cbn iota.
    apply wp_bind. unfold json_append_unicode_escape, unicode_escape, decode_hex4. cbn [hex_digits]. apply wp_bind, wp_bind.
    apply wp_bind, (here_peek pre ["\"; "u"]%byte "0"%byte _ d p _ H). change (hexdigit2int "0" <? 0) with false. cbn iota.
    apply wp_bind, (here_peek pre ["\"; "u"; "0"]%byte "0"%byte _ d p _ H). change (hexdigit2int "0" <? 0) with false. cbn iota.
    apply wp_bind, (here_peek pre ["\"; "u"; "0"; "0"]%byte hh _ d p _ H). destruct (Z.ltb_spec (hexdigit2int hh) 0); [lia|].
    apply wp_bind, (here_peek pre ["\"; "u"; "0"; "0"; hh]%byte ll _ d p _ H). destruct (Z.ltb_spec (hexdigit2int ll) 0); [lia|]. apply wp_ret.
    replace ((((0 * 16 + hexdigit2int "0") * 16 + hexdigit2int "0") * 16 + hexdigit2int hh) * 16 + hexdigit2int ll) with (b2z c) by (change (hexdigit2int "0") with 0; lia).
    destruct (ascii_codepoint c H127) as [Ea Eu]. rewrite Ea. pose proof (b2z_range c). destruct (Z.ltb_spec (b2z c) 0); [lia|]. apply wp_ret. rewrite Eu.
    apply wp_bind, Happ; [done|]. apply wp_bind, wp_modify, wp_ret. exact Hgo.
Qed.

Lemma read_string_loop slash s r fuel index pre acc d p :
  in_string pre (concat (escape_char slash <$> s) ++ x22 :: r) acc d p → r ≠ [] → (length s < fuel)%nat →
  run (string_loop data fuel index) p (λ t q, t.1 = T_STRING (acc ++ s) ∧ here (pre ++ concat (escape_char slash <$> s) ++ [x22]) r d q).
Proof.
  revert fuel pre acc p. induction s as [|c s IH]; intros fuel pre acc p Hin Hr Hf; (destruct fuel as [|fuel]; [cbn in Hf; lia|]).
  - cbn [fmap list_fmap concat app] in *. destruct Hin as (H & Ha & Hl). pose proof H as (_ & Hptr & _ & (Hrange & Hlive & Hsize)). cbn [string_loop].
    apply wp_bind, (here_peek pre [] x22 r d p _ H). change (beqb x22 x22) with true. cbn iota. apply wp_bind. eapply (here_advance pre [x22] r d p); [done|done|]. intros q Hq Eq.
    apply wp_bind. unfold wp at 1, on_tmp, strbuf_ensure_null. rewrite Eq, Hlive, Ha. destruct (Z.ltb_spec (len acc) (sb_size (p_tmp p))); [|lia]. cbn [andb].
    apply wp_bind. unfold wp at 1, strbuf_string. cbn [p_tmp]. rewrite Hlive, Ha. apply wp_ret. split; [by rewrite app_nil_r|]. destruct q; cbn in *. by subst.
  - cbn [fmap list_fmap concat] in *. rewrite <- app_assoc in Hin. eapply read_escaped; [exact Hin|by destruct (concat _)|]. intros q Hq.
    eapply wp_mono; [apply (IH fuel _ _ q Hq Hr); cbn in Hf; lia| |done]. intros t q' [Ht Hh]. split; [by rewrite <- app_assoc in Ht|]. eapply here_ext; [exact Hh|by rewrite !app_assoc|done].
Qed.

(** *** Tokens *)

(** Reading a token of text [x] gives [t] and moves past it. *)
Definition reads_token (x r : bytes) (t : token) : Prop := ∀ pre d p, here pre (x ++ r) d p →
  run (json_next_token cfg data) p (λ t' q, t'.1 = t ∧ here (pre ++ x) r d q).

Lemma read_first pre c r d p (Q : byte → json_parse → Prop) : here pre (c :: r) d p → ch2token c ≠ T_WHITESPACE → Q c p → run (skip_whitespace data (loop_fuel data)) p Q.
Proof.
  intros H Hw HQ. unfold loop_fuel. cbn [skip_whitespace]. apply wp_bind, (here_peek pre [] c r d p _ H). destruct (ch2token c); try done; by apply wp_ret.
Qed.
Lemma read_symbol c r : r ≠ [] → match ch2token c with T_OBJ_BEGIN | T_OBJ_END | T_ARR_BEGIN | T_ARR_END | T_COLON | T_COMMA => True | _ => False end → reads_token [c] r (ch2token c).
Proof.
  intros Hr Hc pre d p H. unfold json_next_token. apply wp_bind. eapply read_first; [exact H|by destruct (ch2token c)|]. apply wp_bind, wp_gets.
  destruct (ch2token c); try done; apply wp_bind; (eapply (here_advance pre [c] r d p); [done|done|]); intros q Hq _; by apply wp_ret.
Qed.
Lemma read_end pre r d p : here pre (x00 :: r) d p → run (json_next_token cfg data) p (λ t _, t.1 = T_END).
Proof. intros H. unfold json_next_token. apply wp_bind. eapply read_first; [exact H|done|]. by apply wp_bind, wp_gets, wp_ret. Qed.
Lemma read_string slash s r : r ≠ [] → reads_token (text_string slash s) r (T_STRING s).
Proof.
  intros Hr pre d p H. unfold text_string in *. rewrite <- !app_assoc in H. unfold json_next_token. apply wp_bind. eapply read_first; [exact H|done|]. apply wp_bind, wp_gets.
  change (ch2token x22) with T_UNKNOWN. cbn iota. change (beqb x22 x22) with true. cbn iota. unfold json_next_string_token. apply wp_bind.
  eapply (here_advance pre [x22] (concat (escape_char slash <$> s) ++ x22 :: r) d p); [exact H|by destruct (concat _)|]. intros q Hq Eq. apply wp_bind, wp_modify.
  eapply wp_mono; [apply (read_string_loop slash s r (loop_fuel data) _ (pre ++ [x22]) [] d)| |done]; [|done| |].
  - split_and!; [|done|rewrite len_app; change (len [x22]) with 1; change (len (@nil byte)) with 0; pose proof (len_nonneg pre); lia].
    destruct Hq as (E & Hp & Hd & (Hr' & Hl & Hs)). exact (conj E (conj Hp (conj Hd (conj Hr' (conj Hl Hs))))).
  - pose proof (here_left _ _ _ _ H) as HL. rewrite !len_app in HL. change (len [x22]) with 1 in HL. destruct H as (_ & _ & _ & (Hrange & _)).
    assert (len s <= len (concat (escape_char slash <$> s))) as Hlen.
    { clear. induction s as [|c s IH]; cbn [fmap list_fmap concat]; [done|]. rewrite len_app, len_cons. assert (1 <= len (escape_char slash c)); [|lia].
      unfold escape_char. destruct (char2escape slash c) eqn:E; [apply escape_length in E; lia|done]. }
    pose proof (len_nonneg r). unfold loop_fuel, len in *. lia.
  - intros t q' [Ht Hh]. split; [done|]. eapply here_ext; [exact Hh|by rewrite <- !app_assoc|done].
Qed.

Lemma span_zero s : span (λ c, negb (beqb c x00)) (s ++ [x00]) = span (λ c, negb (beqb c x00)) s.
Proof. induction s as [|c s IH]; [done|]. cbn [app span]. destruct (negb _); [|done]. by rewrite IH. Qed.
(** The C string at the pointer. *)
Lemma here_c_string pre rest d p (Q : bytes → json_parse → Prop) : here pre rest d p → Q (span (λ c, negb (beqb c x00)) rest) p → run (c_string data) p Q.
Proof.
  intros (E & Hp & _ & (Hr & _ & _)) HQ. unfold wp, c_string. destruct (Z.leb_spec 0 (p_ptr p)), (Z.leb_spec (p_ptr p) (len data)); try lia. cbn [andb].
  rewrite <- span_zero. replace (drop (Z.to_nat (p_ptr p)) data ++ [x00]) with rest; [done|]. rewrite Hp in *. rewrite to_nat_len. unfold len in *.
  rewrite <- (drop_app_le data [x00]) by lia. by rewrite E, drop_app_length.
Qed.
Lemma span_nonzero x r : Forall (λ c, negb (beqb c x00) = true) x → span (λ c, negb (beqb c x00)) (x ++ r) = x ++ span (λ c, negb (beqb c x00)) r.
Proof. induction 1 as [|c x Hc _ IH]; [done|]. cbn [app span]. rewrite Hc. by rewrite IH. Qed.

Lemma read_word word t r : r ≠ [] →
  (word = #"true" ∧ t = T_BOOLEAN true) ∨ (word = #"false" ∧ t = T_BOOLEAN false) ∨ (word = #"null" ∧ t = T_NULL) → reads_token word r t.
Proof.
  intros Hr Hw pre d p H. unfold json_next_token. apply wp_bind.
  assert (∀ w, run (at_word data w) p (λ x q, x = prefixb w (span (λ c, negb (beqb c x00)) (word ++ r)) ∧ q = p)) as Hat.
  { intros w. unfold at_word. apply wp_bind. eapply here_c_string; [exact H|]. by apply wp_ret. }
  rewrite span_nonzero in Hat by (destruct Hw as [[-> _]|[[-> _]|[-> _]]]; repeat constructor).
  assert (∀ t' k, k = len word → run (_ ← advance k; mret (t', p_ptr p)) p (λ (t'' : token_at) q, t''.1 = t' ∧ here (pre ++ word) r d q)) as Hadv.
  { intros t' k ->. apply wp_bind. eapply (here_advance pre word r d p); [done|done|]. intros q Hq _. by apply wp_ret. }
  destruct Hw as [[-> ->]|[[-> ->]|[-> ->]]]; (eapply read_first; [exact H|done|]); apply wp_bind, wp_gets; cbn -[advance at_word c_string json_is_invalid_number app here].
  - apply wp_bind. eapply wp_mono; [apply (Hat #"true")| |done]. intros x q [-> ->]. rewrite prefixb_app. by apply Hadv.
  - apply wp_bind. eapply wp_mono; [apply (Hat #"true")| |done]. intros x q [-> ->]. change (prefixb #"true" (#"false" ++ _)) with false. cbn iota.
    apply wp_bind. eapply wp_mono; [apply (Hat #"false")| |done]. intros x q [-> ->]. rewrite prefixb_app. by apply Hadv.
  - apply wp_bind. eapply wp_mono; [apply (Hat #"true")| |done]. intros x q [-> ->]. change (prefixb #"true" (#"null" ++ _)) with false. cbn iota.
    apply wp_bind. eapply wp_mono; [apply (Hat #"false")| |done]. intros x q [-> ->]. change (prefixb #"false" (#"null" ++ _)) with false. cbn iota.
    apply wp_bind. eapply wp_mono; [apply (Hat #"null")| |done]. intros x q [-> ->]. rewrite prefixb_app. by apply Hadv.
Qed.

Lemma ndigits_pos k z : 1 <= ndigits k z.
Proof. revert z. induction k as [|k IH]; intros z; cbn [ndigits]; [lia|]. destruct (z <? 10); [lia|]. specialize (IH (z / 10)). lia. Qed.
Lemma int_text_chars n : Forall (λ c, negb (beqb c x00) = true) (int_text n) ∧
  ∃ c x, int_text n = c :: x ∧ ch2token c = T_UNKNOWN ∧ beqb c x22 = false ∧ (beqb c "-" || isdigit c) = true.
Proof.
  unfold int_text. pose proof (digits_isdigit (Z.to_nat (ndigits 400 (Z.abs n))) (Z.abs n) ltac:(lia)) as Hd.
  assert (digits (Z.to_nat (ndigits 400 (Z.abs n))) (Z.abs n) ≠ []) as Hne.
  { intros E%(f_equal length). rewrite length_digits in E. change (length (@nil byte)) with 0%nat in E. pose proof (ndigits_pos 400 (Z.abs n)). lia. }
  set (ds := digits _ _) in *. clearbody ds. split.
  - apply Forall_app. split; [destruct (n <? 0); repeat constructor|]. eapply Forall_impl; [exact Hd|]. intros c Hc. by destruct c.
  - destruct (n <? 0); cbn [sign_text]; [by eexists _, _|]. destruct ds as [|c x]; [done|]. exists c, x. apply Forall_cons in Hd as [Hc _]. split; [done|]. by destruct c.
Qed.
Lemma read_int n r : Z.abs n < 2 ^ 53 → Z.abs n < 2 ^ (word_bits - 1) → follows r → reads_token (int_text n) r (T_INTEGER n).
Proof.
  intros Hn Hw Hr pre d p H. destruct (int_text_chars n) as [Hnz (c & x & Ex & Hc & Hq & Hd)]. unfold json_next_token. apply wp_bind.
  eapply (read_first pre c (x ++ r)); [by rewrite Ex in H|by rewrite Hc|]. apply wp_bind, wp_gets. rewrite Hc, Hq, Hd. cbn [decode_invalid_numbers default_config negb]. apply wp_bind, wp_ret.
  unfold json_next_number_token. apply wp_bind. eapply here_c_string; [exact H|]. rewrite span_nonzero by done.
  rewrite strtoll_int; [|done|destruct r as [|c' r']; [done|]; cbn [span]; destruct Hr as [->|[->|[->| ->]]]; done].
  destruct r as [|stop r']; [done|]. apply wp_bind. change (Z.of_nat (length (int_text n))) with (len (int_text n)). eapply here_peek; [exact H|].
  assert (beqb stop "." || beqb stop "e" || beqb stop "E" || beqb stop "x" = false) as Hs by (destruct Hr as [->|[->|[->| ->]]]; done).
  rewrite <- !orb_assoc in *. rewrite Hs, orb_false_r. rewrite Ex. cbn [length Nat.eqb]. rewrite <- Ex. apply wp_bind. rewrite Ex. cbn [length].
  replace (Z.of_nat (S (length x))) with (len (int_text n)) by (rewrite Ex; done). rewrite <- Ex.
  rewrite isize_id by lia. eapply (here_advance pre (int_text n) (stop :: r') d p); [done|done|]. intros q Hq' _. by apply wp_ret.
Qed.

(** *** Values *)

Definition begins (t : token) : Prop := t ≠ T_ARR_END ∧ t ≠ T_OBJ_END.
(** At depth [D] the text [x] is read as [t]: its first token begins a value,
    and processing that token gives the value. *)
Definition value_at (process : token_at → M ltree) (x : bytes) (t : ltree) (D : Z) : Prop := ∀ pre r p, here pre (x ++ r) D p → follows r →
  run (json_next_token cfg data) p (λ tok q, begins tok.1 ∧ run (process tok) q (λ t' q', t' = t ∧ here (pre ++ x) r D q')).

Lemma raw_set_fresh k v es : k ∉ es.*1 → raw_set k v es = es ++ [(k, v)].
Proof.
  induction es as [|[k' w] es IH]; cbn [raw_set]; intros Hk; [done|]. cbn in Hk. apply not_elem_of_cons in Hk as [Hne Hk]. rewrite bool_decide_false by done. by rewrite IH.
Qed.
Lemma read_ascend pre rest D p (t : ltree) : here pre rest D p → run (_ ← json_decode_ascend; mret t) p (λ t' q, t' = t ∧ here pre rest (D - 1) q).
Proof. intros (E & Hp & Hd & Hok). apply wp_bind, wp_modify, wp_ret. split; [done|]. split_and!; [done|done|cbn; lia|done]. Qed.
Lemma read_descend pre rest D p : here pre rest D p → D < 1000 → run (json_decode_descend checkstack cfg) p (λ _ q, here pre rest (D + 1) q).
Proof.
  intros (E & Hp & Hd & Hok) HD. apply wp_bind, wp_modify, wp_bind, wp_gets. cbn [p_depth]. rewrite Hd. cbn [decode_max_depth default_config].
  destruct (Z.leb_spec (D + 1) 1000); [|lia]. rewrite Hstack by lia. apply wp_ret. split_and!; [done|done|cbn; lia|done].
Qed.

Fixpoint number (k : Z) (ts : list ltree) : list (tkey * ltree) :=
  match ts with [] => [] | t :: ts => (KInt k, t) :: number (k + 1) ts end.
Definition tail_text (xs : list bytes) (close : byte) (r : bytes) : bytes := concat ((λ y, #"," ++ y) <$> xs) ++ close :: r.
Lemma follows_tail xs close r : follows (close :: r) → follows (tail_text xs close r).
Proof. destruct xs; cbn; [done|]. by left. Qed.

Lemma read_array process D r xs ts : Forall2 (λ x t, value_at process x t D) xs ts → r ≠ [] → ∀ n k tok t acc pre q,
  run (process tok) q (λ t' q', t' = t ∧ here pre (tail_text xs "]" r) D q') → (length ts < n)%nat → Forall (λ a, ∃ j, a = KInt j ∧ j < k) (acc.*1) →
  run (array_loop cfg data process n k tok acc) q
    (λ t' q', t' = TrTable false (acc ++ number k (t :: ts)) ∧ here (pre ++ concat ((λ y, #"," ++ y) <$> xs) ++ #"]") r (D - 1) q').
Proof.
  intros HF Hr. induction HF as [|x t1 xs ts Hx HF IH]; intros n k tok t acc pre q Hp Hn Hacc; (destruct n as [|n]; [cbn in Hn; lia|]); cbn [array_loop].
  all: apply wp_bind; (eapply wp_mono; [exact Hp| |done]); intros t' q1 [-> H1]; cbn zeta; apply wp_bind.
  all: assert (KInt k ∉ acc.*1) as Hfresh by (intros Hin; rewrite Forall_forall in Hacc; destruct (Hacc _ Hin) as (j & [= ->] & Hj); lia); rewrite raw_set_fresh by done.
  - eapply wp_mono; [apply (read_symbol "]" r Hr I pre D q1 H1)| |done]. intros [t2 i2] q2 [E2 H2]. cbn in E2. subst t2. cbn [fst].
    eapply wp_mono; [apply (read_ascend _ _ D q2 (TrTable false (acc ++ [(KInt k, t)])) H2)| |done]. intros t' q3 [-> H3]. done.
  - assert (tail_text (x :: xs) "]" r = [","%byte] ++ x ++ tail_text xs "]" r) as Et by (unfold tail_text; cbn; by rewrite <- !app_assoc). rewrite Et in H1.
    eapply wp_mono; [apply (read_symbol "," (x ++ tail_text xs "]" r)); [by destruct x, xs|done|exact H1]| |done]. intros [t2 i2] q2 [E2 H2]. cbn in E2. subst t2. cbn [fst].
    apply wp_bind. eapply wp_mono; [apply (Hx _ _ _ H2); apply follows_tail; cbn; auto| |done]. intros tok3 q3 [_ H3].
    eapply wp_mono; [apply (IH n (k + 1) tok3 t1 (acc ++ [(KInt k, t)]) _ q3 H3)| |done]; [cbn in Hn; lia| |].
    + rewrite fmap_app. apply Forall_app. split; [eapply Forall_impl; [exact Hacc|]; intros a (j & -> & Hj); exists j; split; [done|lia]|]. constructor; [|constructor]. exists k. split; [done|lia].
    + intros t' q' [-> Hh]. split; [by rewrite <- app_assoc|]. eapply here_ext; [exact Hh|cbn; by rewrite <- !app_assoc|done].
Qed.

Definition member_text (slash : bool) (e : bytes * bytes) : bytes := text_string slash e.1 ++ #":" ++ e.2.
Lemma read_object process slash D r (xs : list (bytes * bytes)) ts : Forall2 (λ x t, value_at process x.2 t D) xs ts → r ≠ [] → ∀ n k x t acc pre index q,
  here pre (#":" ++ x ++ tail_text (member_text slash <$> xs) "}" r) D q → value_at process x t D → (length ts < n)%nat → NoDup (acc.*1 ++ KStr k :: (KStr <$> xs.*1)) →
  run (object_loop cfg data process n (T_STRING k, index) acc) q
    (λ t' q', t' = TrTable false (acc ++ (KStr k, t) :: zip (KStr <$> xs.*1) ts) ∧ here (pre ++ #":" ++ x ++ concat ((λ y, #"," ++ y) <$> (member_text slash <$> xs)) ++ #"}") r (D - 1) q').
Proof.
  intros HF Hr. induction HF as [|[k1 x1] t1 xs ts Hx HF IH]; intros n k x t acc pre index q H Hxt Hn Hnd; (destruct n as [|n]; [cbn in Hn; lia|]); cbn [object_loop fst].
  all: apply wp_bind; (eapply wp_mono; [eapply (read_symbol ":"); [|done|exact H]| |done]; [by destruct x|]); intros [t0 i0] q0 [E0 H0]; cbn in E0; subst t0; cbn [fst].
  all: apply wp_bind; (eapply wp_mono; [apply (Hxt _ _ _ H0); apply follows_tail; cbn; auto| |done]); intros tok q1 [_ H1].
  all: apply wp_bind; (eapply wp_mono; [exact H1| |done]); intros t' q2 [-> H2]; cbn zeta; apply wp_bind.
  all: assert (KStr k ∉ acc.*1) as Hfresh by (apply NoDup_app in Hnd as (_ & Hnd & _); intros Hin; apply (Hnd _ Hin); left); rewrite raw_set_fresh by done.
  - eapply wp_mono; [apply (read_symbol "}" r Hr I _ D q2 H2)| |done]. intros [t3 i3] q3 [E3 H3]. cbn in E3. subst t3. cbn [fst].
    eapply wp_mono; [apply (read_ascend _ _ D q3 (TrTable false (acc ++ [(KStr k, t)])) H3)| |done]. intros t' q4 [-> H4]. split; [done|]. eapply here_ext; [exact H4|cbn; by rewrite <- !app_assoc|done].
  - assert (tail_text (member_text slash <$> (k1, x1) :: xs) "}" r = [","%byte] ++ text_string slash k1 ++ #":" ++ x1 ++ tail_text (member_text slash <$> xs) "}" r) as Et
      by (unfold tail_text, member_text; cbn [fmap list_fmap concat fst snd]; by rewrite <- !app_assoc). rewrite Et in H2.
    eapply wp_mono; [eapply (read_symbol ","); [|done|exact H2]| |done]; [done|]. intros [t3 i3] q3 [E3 H3]. cbn in E3. subst t3. cbn [fst].
    apply wp_bind. eapply wp_mono; [eapply (read_string slash k1); [|exact H3]| |done]; [done|]. intros [t4 i4] q4 [E4 H4]. cbn in E4. subst t4.
    eapply wp_mono; [apply (IH n k1 x1 t1 (acc ++ [(KStr k, t)]) _ i4 q4 H4 Hx)| |done]; [cbn in Hn; lia|rewrite fmap_app, <- app_assoc; exact Hnd|].
    intros t' q' [-> Hh]. split; [by rewrite <- app_assoc|]. eapply here_ext; [exact Hh| |done].
    unfold member_text. cbn [fmap list_fmap concat fst snd]. by rewrite <- !app_assoc.
Qed.

Lemma value_at_scalar process x tok t D : (∀ r, follows r → reads_token x r tok) → begins tok → (∀ i, process (tok, i) = mret t) → value_at process x t D.
Proof.
  intros Hx Hb Hp pre r p H Hr. eapply wp_mono; [apply (Hx r Hr pre D p H)| |done]. intros [tok' i] q [E Hq]. cbn in E. subst tok'. split; [done|]. rewrite Hp. by apply wp_ret.
Qed.
Lemma number_seq es k : es.*1 = (λ j, KInt (Z.of_nat j)) <$> seq k (length es) → es = number (Z.of_nat k) es.*2.
Proof.
  revert k. induction es as [|[key t] es IH]; intros k H; [done|]. cbn in H. injection H as -> H. cbn [fmap list_fmap number snd]. f_equal.
  rewrite (IH (S k) H) at 1. f_equal. lia.
Qed.
Lemma length_commas (xs : list bytes) : len xs <= len (concat ((λ y, #"," ++ y) <$> xs)).
Proof. induction xs as [|x xs IH]; cbn [fmap list_fmap concat]; [done|]. rewrite len_cons, !len_app. change (len #",") with 1. pose proof (len_nonneg x). lia. Qed.
Lemma fuel_enough pre x xs c r d p : here pre (x ++ tail_text xs c r) d p → (length xs < loop_fuel data)%nat.
Proof.
  intros H. pose proof (here_left _ _ _ _ H) as HL. destruct H as (_ & _ & _ & (Hr & _)). unfold tail_text in HL. rewrite !len_app, len_cons in HL.
  pose proof (length_commas xs). pose proof (len_nonneg x). pose proof (len_nonneg r). unfold loop_fuel, len in *. lia.
Qed.
Lemma follows_nonempty r : follows r → r ≠ [].
Proof. by destruct r. Qed.
Definition key_of (k : tkey) : bytes := match k with KStr s => s | KInt _ => [] end.

Lemma read_value slash d t : tree_ok d t → ∀ fuel D, 0 <= D → D + Z.of_nat d <= 1000 → (d <= fuel)%nat →
  value_at (json_process_value checkstack cfg data fuel) (tree_text slash d t) t D.
Proof.
  assert (∀ d t, (∀ mt es, t ≠ TrTable mt es) → tree_ok d t → ∀ fuel D, value_at (json_process_value checkstack cfg data fuel) (tree_text slash d t) t D) as Hscalar.
  { clear d t. intros d t Ht Hok fuel D. destruct t as [|bo|f|s|mt es].
    - assert (tree_text slash d TrNull = #"null") as -> by by destruct d. apply (value_at_scalar _ _ T_NULL); [intros r Hr; apply read_word; [by apply follows_nonempty|auto]|by split|by destruct fuel].
    - assert (tree_text slash d (TrBool bo) = if bo then #"true" else #"false") as -> by by destruct d.
      apply (value_at_scalar _ _ (T_BOOLEAN bo)); [intros r Hr; apply read_word; [by apply follows_nonempty|destruct bo; auto]|by split|by destruct fuel].
    - assert (∃ n, f = double_of_Z n ∧ Z.abs n < 10 ^ 14 ∧ Z.abs n < 2 ^ (word_bits - 1)) as (n & -> & Hn & Hw) by by destruct d.
      assert (tree_text slash d (TrNum (double_of_Z n)) = int_text n) as -> by (rewrite <- (fmt_g_int 14 n); [by destruct d|lia|lia|lia]).
      apply (value_at_scalar _ _ (T_INTEGER n)); [intros r Hr; apply read_int; [lia|done|done]|by split|by destruct fuel].
    - assert (tree_text slash d (TrStr s) = text_string slash s) as -> by by destruct d.
      apply (value_at_scalar _ _ (T_STRING s)); [intros r Hr; by apply read_string, follows_nonempty|by split|by destruct fuel].
    - by destruct (Ht mt es). }
  revert t. induction d as [|d IH]; intros t Hok fuel D HD Hd Hf; (destruct t as [|bo|f|s|mt es]; [by apply Hscalar..|]); [done|].
  cbn [tree_ok] in Hok. destruct Hok as (-> & Hlen & Hkind & Hes). destruct fuel as [|fuel]; [lia|].
  assert (∀ e, e ∈ es → value_at (json_process_value checkstack cfg data fuel) (tree_text slash d e.2) e.2 (D + 1)) as Hrec.
  { intros e He. rewrite Forall_forall in Hes. apply IH; auto; lia. }
  intros pre r p H Hr. pose proof (follows_nonempty r Hr) as Hrn. destruct Hkind as [[Hk Hne]|[Hk Hnd]].
  - destruct es as [|[k0 t0] es]; [done|]. assert (k0 = KInt 1) as ->.
    { unfold indices in Hk. rewrite len_cons in Hk. replace (Z.to_nat (1 + len es)) with (S (length es)) in Hk by (unfold len; lia). cbn in Hk. by injection Hk. }
    cbn [tree_text fmap list_fmap commas snd] in H |- *. set (xs := (λ e : tkey * ltree, tree_text slash d e.2) <$> es) in *.
    assert ((#"[" ++ (tree_text slash d t0 ++ concat ((λ y, #"," ++ y) <$> xs)) ++ #"]") ++ r = ["["%byte] ++ tree_text slash d t0 ++ tail_text xs "]" r) as Et by (unfold tail_text; cbn; by rewrite <- !app_assoc).
    rewrite Et in H. eapply wp_mono; [eapply (read_symbol "["); [|done|exact H]| |done]; [by destruct (tree_text slash d t0), xs|]. intros [tok i] q [E Hq]. cbn in E. subst tok. split; [done|].
    cbn [json_process_value fst]. unfold json_parse_array_context. apply wp_bind. eapply wp_mono; [apply (read_descend _ _ D q Hq); lia| |done]. intros [] q1 H1.
    apply wp_bind. eapply wp_mono; [apply (Hrec (KInt 1, t0) ltac:(left) _ _ q1 H1); apply follows_tail; cbn; auto| |done]. intros tok q2 [Hb H2]. cbn [snd] in H2.
    assert (run (array_loop cfg data (json_process_value checkstack cfg data fuel) (loop_fuel data) 1 tok []) q2
      (λ t' q', t' = TrTable false ((KInt 1, t0) :: es) ∧ here (pre ++ #"[" ++ (tree_text slash d t0 ++ concat ((λ y, #"," ++ y) <$> xs)) ++ #"]") r D q')) as Hl.
    { eapply wp_mono; [eapply (read_array _ (D + 1) r xs (es.*2)); [|done|exact H2| |constructor]| |done].
      - subst xs. clear - Hrec. assert (∀ e, e ∈ es → value_at (json_process_value checkstack cfg data fuel) (tree_text slash d e.2) e.2 (D + 1)) as Hr' by (intros e He; apply Hrec; by right).
        clear Hrec. induction es as [|e es IHes]; cbn [fmap list_fmap]; constructor; [apply Hr'; left|]. apply IHes. intros e' He'. apply Hr'. by right.
      - rewrite length_fmap. pose proof (fuel_enough _ _ _ _ _ _ _ H1) as Hfe. subst xs. by rewrite length_fmap in Hfe.
      - intros t' q' [-> Hh]. split.
        + f_equal. cbn [app]. symmetry. apply (number_seq ((KInt 1, t0) :: es) 1). rewrite Hk. unfold indices, len. rewrite Nat2Z.id, <- list_fmap_compose. done.
        + replace (D + 1 - 1) with D in Hh by lia. eapply here_ext; [exact Hh|cbn; by rewrite <- !app_assoc|done]. }
    destruct tok as [[] i']; try exact Hl. by destruct Hb.
  - assert (tree_text slash (S d) (TrTable false es) = #"{" ++ commas ((λ e, key_text slash e.1 ++ tree_text slash d e.2) <$> es) ++ #"}") as Etext.
    { cbn [tree_text]. destruct es as [|[[s|z] t0] es]; try done. cbn in Hk. apply Forall_cons in Hk as [[s [=]] _]. }
    rewrite Etext in *. clear Etext. cbn [json_process_value].
    assert ((#"{" ++ commas ((λ e, key_text slash e.1 ++ tree_text slash d e.2) <$> es) ++ #"}") ++ r = ["{"%byte] ++ commas ((λ e, key_text slash e.1 ++ tree_text slash d e.2) <$> es) ++ "}"%byte :: r) as Et by (cbn; by rewrite <- !app_assoc).
    rewrite Et in H. eapply wp_mono; [eapply (read_symbol "{"); [|done|exact H]| |done]; [by destruct (commas _)|]. intros [tok i] q [E Hq]. cbn in E. subst tok. split; [done|].
    cbn [json_process_value fst]. unfold json_parse_object_context. apply wp_bind. eapply wp_mono; [apply (read_descend _ _ D q Hq); lia| |done]. intros [] q1 H1. apply wp_bind.
    destruct es as [|[k0 t0] es]; cbn [fmap list_fmap commas fst snd] in *.
    + eapply wp_mono; [apply (read_symbol "}" r Hrn I _ _ q1 H1)| |done]. intros [tok i'] q2 [E H2]. cbn in E. subst tok. cbn [fst].
      eapply wp_mono; [apply (read_ascend _ _ (D + 1) q2 (TrTable false []) H2)| |done]. intros t' q3 [-> H3]. split; [done|]. replace (D + 1 - 1) with D in H3 by lia. eapply here_ext; [exact H3|cbn; by rewrite <- !app_assoc|done].
    + apply Forall_cons in Hk as [[s0 ->] Hk]. cbn [key_text] in *. set (xs := (λ e : tkey * ltree, (key_of e.1, tree_text slash d e.2)) <$> es).
      assert (((λ e : tkey * ltree, key_text slash e.1 ++ tree_text slash d e.2) <$> es) = member_text slash <$> xs) as Exs.
      { subst xs. clear - Hk. induction es as [|[k t] es IHes]; [done|]. cbn in Hk. apply Forall_cons in Hk as [[s ->] Hk]. cbn [fmap list_fmap]. rewrite IHes by done. f_equal. unfold member_text. cbn. by rewrite <- app_assoc. }
      rewrite Exs in *. assert (xs.*1 = key_of <$> es.*1 ∧ length xs = length es) as [Ex1 Elen] by (subst xs; rewrite length_fmap, <- !list_fmap_compose; done).
      assert (KStr <$> xs.*1 = es.*1) as Ekeys.
      { rewrite Ex1. clear - Hk. revert Hk. generalize (es.*1). induction l as [|k l IHl]; intros Hk; [done|]. apply Forall_cons in Hk as [[s ->] Hk]. cbn. by rewrite IHl. }
      assert ((text_string slash s0 ++ #":") ++ tree_text slash d t0 = text_string slash s0 ++ #":" ++ tree_text slash d t0) as Ea by by rewrite <- app_assoc. rewrite Ea in *. clear Ea.
      assert (((text_string slash s0 ++ #":" ++ tree_text slash d t0) ++ concat ((λ y, #"," ++ y) <$> (member_text slash <$> xs))) ++ "}"%byte :: r =
        text_string slash s0 ++ #":" ++ tree_text slash d t0 ++ tail_text (member_text slash <$> xs) "}" r) as Et1 by (unfold tail_text; by rewrite <- !app_assoc).
      rewrite Et1 in H1. eapply wp_mono; [eapply (read_string slash s0); [|exact H1]| |done]; [done|]. intros [tok i'] q2 [E H2]. cbn in E. subst tok. cbn [fst].
      eapply wp_mono; [eapply (read_object _ slash (D + 1) r xs (es.*2)); [|done|exact H2|apply (Hrec (KStr s0, t0)); left| |]| |done].
      * subst xs. clear - Hrec. assert (∀ e, e ∈ es → value_at (json_process_value checkstack cfg data fuel) (tree_text slash d e.2) e.2 (D + 1)) as Hr' by (intros e He; apply Hrec; by right).
        clear Hrec. induction es as [|e es IHes]; cbn [fmap list_fmap]; constructor; [apply Hr'; left|]. apply IHes. intros e' He'. apply Hr'. by right.
      * rewrite length_fmap, <- Elen, <- (length_fmap (member_text slash)). eapply (fuel_enough _ (text_string slash s0 ++ #":" ++ tree_text slash d t0)). rewrite <- !app_assoc. exact H1.
      * rewrite Ekeys. exact Hnd.
      * intros t' q' [-> Hh]. split; [f_equal; cbn [app]; f_equal; rewrite Ekeys; clear; induction es as [|[k t] es IHes]; cbn; [done|by rewrite IHes]|]. replace (D + 1 - 1) with D in Hh by lia.
        eapply here_ext; [exact Hh|rewrite <- !app_assoc; reflexivity|done].
Qed.
End read.

(** No text of a tree has a zero byte. *)
Lemma text_string_nonzero slash s : Forall (λ c, c ≠ x00) (text_string slash s).
Proof.
  unfold text_string. constructor; [done|]. apply Forall_app. split; [|by repeat constructor]. induction s as [|c s IH]; cbn [fmap list_fmap concat]; [constructor|]. apply Forall_app. split; [|done].
  unfold escape_char. destruct (escape_view slash c) as [(-> & _ & _ & H)|[(e & -> & He & _ & H)|(h & l & -> & Hh & Hl & _)]].
  - by repeat constructor.
  - constructor; [done|]. constructor; [|constructor]. intros ->. by subst c.
  - repeat (constructor; [by (done || apply hexdigit_not_zero)|]). constructor.
Qed.
Lemma commas_nonzero xs : Forall (Forall (λ c, c ≠ x00)) xs → Forall (λ c, c ≠ x00) (commas xs).
Proof.
  destruct 1 as [|x xs Hx Hxs]; cbn [commas]; [constructor|]. apply Forall_app. split; [done|]. induction Hxs as [|y ys Hy _ IH]; cbn [fmap list_fmap concat]; [constructor|].
  apply Forall_app. split; [|done]. by constructor.
Qed.
Lemma tree_text_nonzero `{T : target} slash d t : tree_ok d t → Forall (λ c, c ≠ x00) (tree_text slash d t).
Proof.
  revert t. induction d as [|d IH]; intros t Hok; destruct t as [|bo|f|s|mt es]; cbn [tree_text tree_ok] in *.
  1, 6: by repeat constructor.
  1, 5: destruct bo; by repeat constructor.
  1, 4: destruct Hok as (n & -> & Hn & Hw); rewrite fmt_g_int by lia; destruct (int_text_chars n) as [H _]; (eapply Forall_impl; [exact H|]); intros c Hc ->; done.
  1, 3: apply text_string_nonzero.
  1: done.
  destruct Hok as (_ & _ & _ & Hes). assert (∀ a xs z, a ≠ x00 → z ≠ x00 → Forall (Forall (λ c, c ≠ x00)) xs → Forall (λ c, c ≠ x00) ([a] ++ commas xs ++ [z])) as Hb.
  { intros a xs z Ha Hz Hxs. constructor; [done|]. apply Forall_app. split; [by apply commas_nonzero|by repeat constructor]. }
  assert (∀ f, (∀ k, Forall (λ c, c ≠ x00) (f k)) → Forall (Forall (λ c, c ≠ x00)) ((λ e : tkey * ltree, f e.1 ++ tree_text slash d e.2) <$> es)) as Hf.
  { intros f Hk. apply Forall_fmap. eapply Forall_impl; [exact Hes|]. intros e He. cbn. apply Forall_app. split; [apply Hk|by apply IH]. }
  assert (∀ k, Forall (λ c, c ≠ x00) (key_text slash k)) as Hkey.
  { intros [s|z]; [|constructor]. cbn [key_text]. apply Forall_app. split; [apply text_string_nonzero|by repeat constructor]. }
  pose proof (Hb "{"%byte _ "}"%byte ltac:(done) ltac:(done) (Hf _ Hkey)) as Ho. pose proof (Hb "["%byte _ "]"%byte ltac:(done) ltac:(done) (Hf (λ _, []) ltac:(constructor))) as Ha.
  clear Hb Hf. destruct es as [|[[s|z] t0] es]; [by repeat constructor|exact Ho|exact Ha].
Qed.

(** The decoder reads the text of a tree as the tree. *)
Lemma decode_tree_text `{T : target} alloc checkstack b slash d t : (∀ n, n <= 1000 → checkstack n = true) → tree_ok d t → (d <= 1000)%nat →
  json_decode alloc checkstack (default_config b) (tree_text slash d t) = Ok t ∨ json_decode alloc checkstack (default_config b) (tree_text slash d t) = Throw abort_text.
Proof.
  intros Hstack Hok Hd. set (data := tree_text slash d t). unfold json_decode.
  assert (wide_text data = false) as ->.
  { pose proof (tree_text_nonzero slash d t Hok) as Hz. fold data in Hz. unfold wide_text. destruct Hz as [|c [|c' l] Hc Hz]; [done..|].
    apply Forall_cons in Hz as [Hc' _]. apply beqb_false in Hc, Hc'. by rewrite Hc, Hc'. }
  pose proof (init_longer alloc (len data) (StrBuf false 0 []) (len_nonneg data)) as Hi.
  destruct (strbuf_init alloc (len data) _) as [[[]|e| |] tmp]; [|right; by subst e|done..]. destruct Hi as (Hl & _ & Hs). left.
  assert (here data [] (data ++ [x00]) 0 (JsonParse 0 tmp 0)) as H.
  { pose proof (len_nonneg data). split_and!; try done; cbn; lia. }
  assert (wp (decode_body checkstack (default_config b) data) (JsonParse 0 tmp 0) (λ v _, v = t) (λ _ _, False)) as Hw.
  { unfold decode_body. apply wp_bind. eapply wp_mono; [apply (read_value checkstack b data Hstack slash d t Hok (decode_fuel (default_config b)) 0)| |done]; [done|lia|unfold decode_fuel; cbn [decode_max_depth default_config]; lia|exact H|cbn; auto|].
    intros tok q [_ Hp]. apply wp_bind. eapply wp_mono; [exact Hp| |done]. intros v q1 [-> H1]. apply wp_bind. eapply wp_mono; [eapply read_end; exact H1| |done].
    intros tok' q2 ->. by apply wp_bind, wp_modify, wp_ret. }
  unfold wp in Hw. destruct (decode_body _ _ _ _) as [[v|e| |] q]; try done. cbn. by subst v.
Qed.

(** ** Properties *)


Definition demo_tables : store := λ r,
  match r with
  | 1%positive => Table [(LStr #"list", LTable 2); (LStr #"text", LStr [x22; x00; x2f])] None
  | 2%positive => Table [(LNum (double_of_Z 1), LNum (double_of_Z (-12))); (LNum (double_of_Z 2), LLight PNull)] None
  | _ => Table [] None
  end.
Definition demo_tree : ltree :=
  TrTable false [(KStr #"list", TrTable false [(KInt 1, TrNum (double_of_Z (-12))); (KInt 2, TrNull)]); (KStr #"text", TrStr [x22; x00; x2f])].
Definition demo_config : json_config := default_config (StrBuf true 1023 []).
Lemma demo_tables_fits : store_fits (T:=target32) demo_tables.
Proof. intros r. unfold demo_tables. repeat case_match; (split; [repeat constructor; unfold fits, MEM_MAX, len; cbn; lia|done]). Qed.
Lemma demo_tables_range : in_int_range demo_config demo_tables.
Proof.
  assert (∀ i f, 0 < i < 2 ^ 31 → LNum (double_of_Z i) = LNum f → f ≠ S754_infinity false ∧ ∀ n, float_int f = Some n → n < 2 ^ 31) as Hn.
  { intros i f Hi [= <-]. assert (0 < i < 2 ^ 53) as Hi' by lia. split; [intros E; pose proof (float_int_double i Hi') as F; by rewrite E in F|].
    intros n. rewrite float_int_double by lia. intros [= <-]. lia. }
  intros r. unfold demo_tables. cbn [encode_sparse_ratio demo_config default_config]. repeat case_match; (split; [|split; [by vm_compute|done]]); cbn [t_entries]; repeat apply Forall_cons_2; try apply Forall_nil_2; try done; cbn [fst];
    intros f; by apply Hn.
Qed.
Lemma demo_tree_ok : tree_ok (T:=target32) 2 demo_tree.
Proof.
  split_and!; [done..|right|].
  - split; [repeat constructor; eauto|]. apply NoDup_cons_2; [|apply NoDup_singleton]. intros [E|E%not_elem_of_nil]%elem_of_cons; done.
  - repeat apply Forall_cons_2; [| |constructor].
    + split_and!; [done..|left; split; [by vm_compute|done]|]. repeat apply Forall_cons_2; [by exists (-12)|done|constructor].
    + by vm_compute.
Qed.

