(* ===== verification/LuaVm.v ===== *)
(** * LuaVm: the interface of the Lua interpreter

    The state a plugin's process shares with its Lua interpreter and the
    functions of the interpreter's C interface that [lua_host] calls, as its
    manual documents them: a stack of values on which most of them work, tables
    by reference, global names and references kept for C.  An index that is not
    on the stack is undefined.  Memory and the room on the stack do not run out.

    Lua code is a parameter: what a function called with some arguments does to
    the state, and the value it returns or the error it raises.  A metamethod
    that looks up a field or a global name runs Lua code as well; its error, when
    no protected call is active, ends the process.  [lua_Integer] has the width
    of a pointer, which is 32 bits in the Linux build. *)

From Stdlib Require Import SpecFloat.
From S2P Require Import Prelude State Json NumText LuaEncode.

(** ** The state *)

(** A callback of [lua_host/api/config.cc]. *)
Record config_callback := Callback { lua_ref : Z; cb_key : bytes }.
(** [W] is what else Lua code reads and writes.  The stack has its top first;
    the callbacks are in the order in which they are visited. *)
Record host (W : Type) := Host {
  heap : gmap positive ltable;
  globals : gmap bytes lval;
  registry : gmap Z lval;
  stack : list lval;
  g_config_callbacks : list (Z * config_callback);
  g_next_cb_id : Z;
  g_on_unload_called : bool;
  logged : list (bytes * option bytes);
  outside_world : W;
}.
Arguments Host {_} _ _ _ _ _ _ _ _ _.
Arguments heap {_} _.
Arguments globals {_} _.
Arguments registry {_} _.
Arguments stack {_} _.
Arguments g_config_callbacks {_} _.
Arguments g_next_cb_id {_} _.
Arguments g_on_unload_called {_} _.
Arguments logged {_} _.
Arguments outside_world {_} _.

Definition no_table : ltable := Table [] None.
Definition table_in (h : gmap positive ltable) : store := λ r, default no_table (h !! r).
(** [t[k] = v] without metamethods; nil removes the entry. *)
Fixpoint raw_set (k v : lval) (es : list (lval * lval)) : list (lval * lval) :=
  match es with
  | [] => if bool_decide (v = LNil) then [] else [(k, v)]
  | (k', v') :: es => if bool_decide (k = k') then (if bool_decide (v = LNil) then es else (k, v) :: es) else (k', v') :: raw_set k v es
  end.
(** The entry after the key [k], the first one after nil; [None] when the key is
    not in the table. *)
Fixpoint next_entry (k : lval) (es : list (lval * lval)) : option (option (lval * lval)) :=
  match es with
  | [] => None
  | (k', _) :: es => if bool_decide (k = k') then Some (head es) else next_entry k es
  end.
Definition next_of (k : lval) (es : list (lval * lval)) : option (option (lval * lval)) :=
  match k with LNil => Some (head es) | _ => next_entry k es end.
(** The text of a number: [%.14g]. *)
Definition number_text (f : spec_float) : bytes := fmt_g 14 f.
Definition upto_nul (s : bytes) : bytes := match find_char x00 s with Some i => take i s | None => s end.
Definition is_function (v : lval) : bool := match v with LOther Function _ => true | _ => false end.
Definition is_table (v : lval) : bool := match v with LTable _ => true | _ => false end.
(** [lua_isstring]: numbers are convertible. *)
Definition lua_isstring (v : lval) : bool := match v with LStr _ | LNum _ => true | _ => false end.
(** An integer of JSON as [lua_Integer] *)
Definition to_lua_Integer `{T : target} (z : Z) : Z := isize z.
Lemma to_lua_Integer_same `{T : target} z : - 2 ^ (word_bits - 1) <= z < 2 ^ (word_bits - 1) → to_lua_Integer z = z.
Proof. apply isize_id. Qed.
Definition lua_error : bytes := #"error outside of a protected call".

Section vm.
  Context {W : Type}.
  (** A field that a table with a metatable does not have, and a global name
      that the table of the globals does not have: the value or the error, and
      the state, of which the stack is ignored. *)
  Variable index_field : ltable → bytes → host W → (lval + lval) * host W.
  Variable index_global : bytes → host W → (lval + lval) * host W.
  (** A call: the value or the error, and the state, of which the stack is
      ignored. *)
  Variable run : lval → list lval → host W → (lval + lval) * host W.
  Abbreviation M := (SM (host W)).

Definition with_stack (l : list lval) (w : host W) : host W :=
  Host (heap w) (globals w) (registry w) l (g_config_callbacks w) (g_next_cb_id w) (g_on_unload_called w) (logged w) (outside_world w).
Definition with_heap (h : gmap positive ltable) (w : host W) : host W :=
  Host h (globals w) (registry w) (stack w) (g_config_callbacks w) (g_next_cb_id w) (g_on_unload_called w) (logged w) (outside_world w).
Definition with_registry (r : gmap Z lval) (w : host W) : host W :=
  Host (heap w) (globals w) r (stack w) (g_config_callbacks w) (g_next_cb_id w) (g_on_unload_called w) (logged w) (outside_world w).
Definition with_callbacks (l : list (Z * config_callback)) (n : Z) (w : host W) : host W :=
  Host (heap w) (globals w) (registry w) (stack w) l n (g_on_unload_called w) (logged w) (outside_world w).
Definition set_unload_called : M () := modify (λ w,
  Host (heap w) (globals w) (registry w) (stack w) (g_config_callbacks w) (g_next_cb_id w) true (logged w) (outside_world w)).
Definition log_lua_error (context : bytes) (err : option bytes) : M () := modify (λ w,
  Host (heap w) (globals w) (registry w) (stack w) (g_config_callbacks w) (g_next_cb_id w) (g_on_unload_called w) (logged w ++ [(context, err)]) (outside_world w)).

(** ** The stack *)

(** The place of an index, from the top. *)
Definition place (idx : Z) (l : list lval) : option nat :=
  if (0 <? idx) && (idx <=? len l) then Some (length l - Z.to_nat idx)%nat else
  if (idx <? 0) && (- idx <=? len l) then Some (Z.to_nat (- idx - 1)) else None.
Definition value_at (idx : Z) : M lval := λ w,
  (match place idx (stack w) ≫= λ i, stack w !! i with Some v => Ok v | None => UB end, w).
Definition lua_gettop : M Z := gets (λ w, len (stack w)).
Definition push (v : lval) : M () := modify (λ w, with_stack (v :: stack w) w).
Definition lua_pop (n : nat) : M () := λ w,
  if (length (stack w) <? n)%nat then (UB, w) else (Ok tt, with_stack (drop n (stack w)) w).
(** To a height that is not above the top. *)
Definition lua_settop (n : Z) : M () := λ w,
  if (n <? 0) || (len (stack w) <? n) then (UB, w) else (Ok tt, with_stack (drop (Z.to_nat (len (stack w) - n)) (stack w)) w).
Definition lua_pushvalue (idx : Z) : M () := v ← value_at idx; push v.
Definition lua_remove (idx : Z) : M () := λ w,
  match place idx (stack w) with
  | Some i => (Ok tt, with_stack (take i (stack w) ++ drop (S i) (stack w)) w)
  | None => (UB, w)
  end.
Definition lua_abs_index (idx : Z) : M Z := if 0 <? idx then mret idx else top ← lua_gettop; mret (top + idx + 1).
(** [lua_tolstring], which turns a number on the stack into its text. *)
Definition lua_tolstring (idx : Z) : M (option bytes) :=
  v ← value_at idx;
  match v with
  | LStr s => mret (Some s)
  | LNum f =>
      _ ← modify (λ w, with_stack (match place idx (stack w) with Some i => <[i := LStr (number_text f)]> (stack w) | None => stack w end) w);
      mret (Some (number_text f))
  | _ => mret None
  end.
(** [lua_tostring], read as a string that ends at a zero byte. *)
Definition lua_tostring (idx : Z) : M (option bytes) := s ← lua_tolstring idx; mret (upto_nul <$> s).

(** ** Tables and globals *)

Definition table_at (idx : Z) : M positive := v ← value_at idx; match v with LTable r => mret r | _ => lift UB end.
Definition lookup (r : positive) : M ltable := gets (λ w, table_in (heap w) r).
(** The value that a metamethod finds is pushed. *)
Definition push_found (find : host W → (lval + lval) * host W) : M () := λ w,
  match find w with
  | (inl v, w') => (Ok tt, with_stack (v :: stack w) w')
  | (inr _, w') => (Throw lua_error, with_stack (stack w) w')
  end.
Definition lua_getglobal (name : bytes) : M () := λ w,
  match globals w !! name with Some v => push v w | None => push_found (index_global name) w end.
(** A string has the functions of its library as fields; other values that are
    not tables raise an error. *)
Definition lua_getfield (string_lib : bytes → lval) (idx : Z) (name : bytes) : M () :=
  v ← value_at idx;
  match v with
  | LTable r =>
      t ← lookup r;
      match raw_get (LStr name) (t_entries t), t_meta t with LNil, Some _ => push_found (index_field t name) | v, _ => push v end
  | LStr _ => push (string_lib name)
  | _ => lift (Throw lua_error)
  end.
Definition lua_rawgeti (idx n : Z) : M () :=
  r ← table_at idx; t ← lookup r; push (raw_get (LNum (double_of_Z n)) (t_entries t)).
(** Whether there is a next entry; its key and value are pushed. *)
Definition lua_next (idx : Z) : M bool :=
  r ← table_at idx;
  t ← lookup r;
  k ← value_at (-1);
  match next_of k (t_entries t) with
  | None => lift (Throw lua_error)
  | Some None => _ ← lua_pop 1; mret false
  | Some (Some (k, v)) => _ ← lua_pop 1; _ ← push k; _ ← push v; mret true
  end.
Definition lua_createtable : M () := λ w,
  let r := fresh (dom (heap w)) in (Ok tt, with_stack (LTable r :: stack w) (with_heap (<[r := no_table]> (heap w)) w)).
(** The value at the top is stored in a table without a metatable. *)
Definition store_top (idx : Z) (k : lval) : M () :=
  r ← table_at idx;
  v ← value_at (-1);
  _ ← modify (λ w, let t := table_in (heap w) r in with_heap (<[r := Table (raw_set k v (t_entries t)) (t_meta t)]> (heap w)) w);
  lua_pop 1.
Definition lua_rawseti (idx n : Z) : M () := store_top idx (LNum (double_of_Z n)).
Definition lua_setfield (idx : Z) (name : bytes) : M () := store_top idx (LStr name).
(** The key is below the value. *)
Definition lua_rawset (idx : Z) : M () := k ← value_at (-2); _ ← store_top idx k; lua_pop 1.

(** ** Calls *)

(** Whether the call succeeded: its result, if one is wanted, or the error is at
    the top. *)
Definition lua_pcall (nargs : nat) (result : bool) : M bool := λ w,
  match stack w !! nargs with
  | None => (UB, w)
  | Some f =>
      let rest := drop (S nargs) (stack w) in
      match run f (reverse (take nargs (stack w))) w with
      | (inl v, w') => (Ok true, with_stack (if result then v :: rest else rest) w')
      | (inr e, w') => (Ok false, with_stack (e :: rest) w')
      end
  end.

(** ** References *)

(** [luaL_ref]: the value at the top is kept under a new number. *)
Definition luaL_ref : M Z := λ w,
  match stack w with
  | [] => (UB, w)
  | v :: l => let n := fresh (dom (registry w)) in (Ok n, with_stack l (with_registry (<[n := v]> (registry w)) w))
  end.
Definition luaL_unref (n : Z) : M () := modify (λ w, with_registry (delete n (registry w)) w).
Definition push_ref (n : Z) : M () := v ← gets (λ w, default LNil (registry w !! n)); push v.
End vm.
