(* ===== verification/LuaTables.v ===== *)
(** * LuaTables: tables of a plugin as JSON and back

    The conversions of [lua_host/main.cc] for calls from the frontend:
    [lua_value_to_json] and [lua_table_to_json], which walk a table on the
    interpreter's stack, and [push_json_as_lua].

    [json_of] says which JSON value a Lua value has, without a stack; the
    code computes exactly that and leaves the stack as it was
    ([value_to_json_spec]). *)

From Stdlib Require Import SpecFloat.
From stdpp Require Import sorting.
From S2P Require Import Prelude State Json NumText LuaEncode LuaRoundTrip LuaVm.

Definition kMaxTableDepth : Z := 64.
Definition too_deep : bytes := #"table nesting exceeds maximum depth (possible cyclic table)".
Definition argument_too_deep : bytes := #"argument nesting exceeds maximum depth (possible cyclic structure)".

(** ** The code *)

(** A key in the search for an array: still one, and the largest index.  A
    double that is not in the range of [lua_Integer] has no conversion. *)
Definition scan_key `{T : target} (k : lval) (max_index : Z) : outcome (bool * Z) :=
  match k with
  | LNum n =>
      match float_trunc n with
      | Some i =>
          if (i <? - 2 ^ (word_bits - 1)) || (2 ^ (word_bits - 1) <=? i) then UB else
          if bool_decide (float_int n = Some i) && (1 <=? i) then Ok (true, Z.max i max_index) else Ok (false, max_index)
      | None => UB
      end
  | _ => Ok (false, max_index)
  end.

Section tables.
  Context `{T : target}.
  Context {W : Type}.
  Abbreviation M := (SM (host W)).

(** The first loop of [lua_table_to_json] *)
Fixpoint scan_table (fuel : nat) (idx : Z) (is_array : bool) (max_index count : Z) : M (bool * Z * Z) :=
  match fuel with
  | O => lift NoFuel
  | S fuel =>
      more ← lua_next idx;
      if negb more then mret (is_array, max_index, count) else
      k ← value_at (-2);
      s ← lift (if is_array then scan_key k max_index else Ok (false, max_index));
      _ ← lua_pop 1;
      scan_table fuel idx s.1 s.2 (count + 1)
  end.
(** The elements of an array; what has no JSON value becomes null. *)
Fixpoint array_loop (sub : Z → M (option json)) (idx : Z) (ks : list Z) : M (list json) :=
  match ks with
  | [] => mret []
  | i :: ks =>
      _ ← lua_rawgeti idx i;
      v ← sub (-1);
      _ ← lua_pop 1;
      rest ← array_loop sub idx ks;
      mret (default JNull v :: rest)
  end.
(** The text of the key below the value; [None] when it has none. *)
Definition key_text_at : M (option bytes) :=
  k ← value_at (-2);
  match k with
  | LStr _ => lua_tolstring (-2)
  | LNum _ => _ ← lua_pushvalue (-2); s ← lua_tolstring (-1); _ ← lua_pop 1; mret s
  | _ => mret None
  end.
(** The second loop: an entry whose key or value has no JSON form is dropped. *)
Fixpoint object_loop (fuel : nat) (sub : Z → M (option json)) (idx : Z) (obj : list (bytes * json)) : M (list (bytes * json)) :=
  match fuel with
  | O => lift NoFuel
  | S fuel =>
      more ← lua_next idx;
      if negb more then mret obj else
      key ← key_text_at;
      match key with
      | None => _ ← lua_pop 1; object_loop fuel sub idx obj
      | Some key =>
          v ← sub (-1);
          _ ← lua_pop 1;
          object_loop fuel sub idx (match v with Some v => obj_insert key v obj | None => obj end)
      end
  end.
Definition lua_table_to_json (sub : Z → Z → M (option json)) (idx depth : Z) : M json :=
  idx ← lua_abs_index idx;
  r ← table_at idx;
  t ← lookup r;
  let fuel := S (length (t_entries t)) in
  _ ← push LNil;
  s ← scan_table fuel idx true 0 0;
  let '(is_array, max_index, count) := s : bool * Z * Z in
  if is_array && (0 <? count) && (max_index =? count) then
    l ← array_loop (λ i, sub i (depth + 1)) idx (indices max_index);
    mret (JArr l)
  else
    _ ← push LNil;
    o ← object_loop fuel (λ i, sub i (depth + 1)) idx [];
    mret (JObj o).
(** [std::nullopt] for a value without a JSON form *)
Fixpoint lua_value_to_json (fuel : nat) (idx depth : Z) : M (option json) :=
  if kMaxTableDepth <? depth then lift (Throw too_deep) else
  match fuel with
  | O => lift NoFuel
  | S fuel =>
      idx ← lua_abs_index idx;
      v ← value_at idx;
      match v with
      | LNil => mret (Some JNull)
      | LBool b => mret (Some (JBool b))
      | LNum f => mret (Some (JFloat f))
      | LStr s => s ← lua_tolstring idx; mret (JStr <$> s)
      | LLight p => mret (if bool_decide (p = PNull) then Some JNull else None)
      | LTable _ => j ← lua_table_to_json (lua_value_to_json fuel) idx depth; mret (Some j)
      | LOther _ _ => mret None
      end
  end.
(** A level for every depth. *)
Definition table_fuel : nat := 66.

Fixpoint run_all (ms : list (M ())) : M () :=
  match ms with [] => mret tt | m :: ms => _ ← m; run_all ms end.
(** A new table with the values at 1, 2, ... *)
Definition push_list (vs : list lval) : M () :=
  _ ← lua_createtable; run_all (zip_with (λ i v, _ ← push v; lua_rawseti (-2) i) (indices (len vs)) vs).
Fixpoint push_json_as_lua (value : json) (depth : Z) : M () :=
  if kMaxTableDepth <? depth then lift (Throw argument_too_deep) else
  match value with
  | JNull => push (LLight PNull)
  | JBool b => push (LBool b)
  | JInt z => push (LNum (double_of_Z z))
  | JFloat f => push (LNum f)
  | JStr s => push (LStr s)
  | JArr l =>
      _ ← lua_createtable;
      run_all (zip_with (λ i elem, _ ← elem; lua_rawseti (-2) i) (indices (len l)) (map (λ elem, push_json_as_lua elem (depth + 1)) l))
  | JObj o =>
      _ ← lua_createtable;
      run_all (map (λ e, _ ← push_json_as_lua e.2 (depth + 1); lua_setfield (-2) (upto_nul e.1)) o)
  end.
End tables.

(** ** What they compute *)

Section spec.
  Context `{T : target}.
  Variable h : store.

Fixpoint scan_keys (es : list (lval * lval)) (is_array : bool) (max_index : Z) : outcome (bool * Z) :=
  match es with
  | [] => Ok (is_array, max_index)
  | e :: es => s ← (if is_array then scan_key e.1 max_index else Ok (false, max_index)); scan_keys es s.1 s.2
  end.
Definition key_name (k : lval) : option bytes := match k with LStr s => Some s | LNum f => Some (number_text f) | _ => None end.
Fixpoint items (sub : lval → outcome (option json)) (vs : list lval) : outcome (list json) :=
  match vs with [] => Ok [] | v :: vs => x ← sub v; rest ← items sub vs; Ok (default JNull x :: rest) end.
Fixpoint members (sub : lval → outcome (option json)) (es : list (lval * lval)) (obj : list (bytes * json)) : outcome (list (bytes * json)) :=
  match es with
  | [] => Ok obj
  | e :: es =>
      match key_name e.1 with
      | None => members sub es obj
      | Some key => v ← sub e.2; members sub es (match v with Some v => obj_insert key v obj | None => obj end)
      end
  end.
Definition table_json (sub : Z → lval → outcome (option json)) (depth : Z) (es : list (lval * lval)) : outcome json :=
  s ← scan_keys es true 0;
  if s.1 && (0 <? len es) && (s.2 =? len es) then
    l ← items (sub (depth + 1)) ((λ i, raw_get (LNum (double_of_Z i)) es) <$> indices s.2); Ok (JArr l)
  else o ← members (sub (depth + 1)) es []; Ok (JObj o).
Fixpoint json_of (fuel : nat) (depth : Z) (v : lval) : outcome (option json) :=
  if kMaxTableDepth <? depth then Throw too_deep else
  match fuel with
  | O => NoFuel
  | S fuel =>
      match v with
      | LNil => Ok (Some JNull)
      | LBool b => Ok (Some (JBool b))
      | LNum f => Ok (Some (JFloat f))
      | LStr s => Ok (Some (JStr s))
      | LLight p => Ok (if bool_decide (p = PNull) then Some JNull else None)
      | LTable r => j ← table_json (json_of fuel) depth (t_entries (h r)); Ok (Some j)
      | LOther _ _ => Ok None
      end
  end.
End spec.

(** ** The stack code computes it *)

(** The keys of a table are different and not nil. *)
Definition wf_table (t : ltable) : Prop := NoDup (t_entries t).*1 ∧ LNil ∉ (t_entries t).*1.
Definition wf_heap (h : gmap positive ltable) : Prop := ∀ r, wf_table (table_in h r).
(** The key [k] is followed by the entries [rest]; nil by all of them. *)
Definition follows (es : list (lval * lval)) (k : lval) (rest : list (lval * lval)) : Prop :=
  k = LNil ∧ rest = es ∨ ∃ l v, es = l ++ (k, v) :: rest.
Lemma follows_next t k rest : wf_table t → follows (t_entries t) k rest → next_of k (t_entries t) = Some (head rest).
Proof.
  intros [Hd Hn] [[-> ->]|(l & v & E)]; [done|]. rewrite E in *. assert (k ≠ LNil) as Hk.
  { intros ->. apply Hn. rewrite fmap_app. apply elem_of_app. right. left. }
  assert (next_of k (l ++ (k, v) :: rest) = next_entry k (l ++ (k, v) :: rest)) as -> by (by destruct k).
  clear E Hn. induction l as [|[k' v'] l IH]; cbn [app next_entry]; [by rewrite bool_decide_true|]. cbn in Hd. apply NoDup_cons in Hd as [Hk' Hd]. rewrite bool_decide_false; [by apply IH|].
  intros ->. apply Hk'. rewrite fmap_app. apply elem_of_app. right. left.
Qed.
Lemma follows_step es k k' v' rest : follows es k ((k', v') :: rest) → follows es k' rest.
Proof. intros [[-> <-]|(l & v & ->)]; right; [by exists [], v'|]. exists (l ++ [(k, v)]), v'. by rewrite <- app_assoc. Qed.

Lemma outcome_bind_assoc {A B C} (o : outcome A) (f : A → outcome B) (g : B → outcome C) : (o ≫= f) ≫= g = o ≫= λ a, f a ≫= g.
Proof. by destruct o. Qed.
(** What an index stands for. *)
Definition slot (idx : Z) (st : list lval) : option lval := place idx st ≫= λ i, st !! i.
Lemma slot_app idx l st : 0 < idx <= len st → slot idx (l ++ st) = slot idx st.
Proof.
  intros Hi. unfold slot, place. assert (len (l ++ st) = len l + len st) as Hl by (unfold len; rewrite length_app; lia). pose proof (len_nonneg l).
  destruct (Z.ltb_spec 0 idx); [|lia]. rewrite Hl. destruct (Z.leb_spec idx (len l + len st)); [|lia]. destruct (Z.leb_spec idx (len st)); [|lia]. cbn [andb mbind option_bind].
  rewrite length_app. rewrite lookup_app_r by (unfold len in *; lia). f_equal. unfold len in *. lia.
Qed.
Lemma slot_top v st : slot (-1) (v :: st) = Some v.
Proof. unfold slot, place. rewrite len_cons. pose proof (len_nonneg st). destruct (Z.ltb_spec 0 (-1)); [lia|]. cbn [andb]. destruct (Z.leb_spec (- -1) (1 + len st)); [done|lia]. Qed.
Lemma slot_second v k st : slot (-2) (v :: k :: st) = Some k.
Proof. unfold slot, place. rewrite !len_cons. pose proof (len_nonneg st). destruct (Z.ltb_spec 0 (-2)); [lia|]. cbn [andb]. destruct (Z.leb_spec (- -2) (1 + (1 + len st))); [done|lia]. Qed.

Section computes.
  Context `{T : target}.
  Context {W : Type}.
  Abbreviation M := (SM (host W)).
  Implicit Types w : host W.

(** From [w], [m] has the outcome [o] and leaves the stack [st]; after an
    exception there may be more on it. *)
Definition computes {A} (m : M A) (w : host W) (st : list lval) (o : outcome A) : Prop :=
  match m w with
  | (Ok a, w') => o = Ok a ∧ w' = with_stack st w
  | (Throw e, w') => o = Throw e ∧ ∃ l, w' = with_stack (l ++ st) w
  | (UB, _) => o = UB
  | (NoFuel, _) => o = NoFuel
  end.
Lemma computes_bind {A B} (m : M A) (f : A → M B) w st1 st2 o g : computes m w st1 o → (∃ l, st1 = l ++ st2) →
  (∀ a, o = Ok a → computes (f a) (with_stack st1 w) st2 (g a)) → computes (m ≫= f) w st2 (o ≫= g).
Proof.
  unfold computes. rewrite bind_run. intros Hm [l ->] Hf. destruct (m w) as [[a|e| |] w1]; [|by destruct Hm as [-> [l' ->]]; split; [done|exists (l' ++ l); by rewrite app_assoc]|by subst|by subst].
  destruct Hm as [-> ->]. exact (Hf a eq_refl).
Qed.
Lemma computes_ret {A} (a : A) w st : st = stack w → computes (mret a) w st (Ok a).
Proof. intros ->. split; [done|]. by destruct w. Qed.
Lemma computes_lift {A} (o : outcome A) w st : st = stack w → computes (lift o) w st o.
Proof. intros ->. unfold computes. destruct o; cbn; try done; split; try done; [by destruct w|exists []; by destruct w]. Qed.
Lemma computes_value idx w v : slot idx (stack w) = Some v → computes (value_at idx) w (stack w) (Ok v).
Proof. intros Hs. unfold computes, value_at. fold (slot idx (stack w)). rewrite Hs. split; [done|]. by destruct w. Qed.
Lemma computes_push v w : computes (push v) w (v :: stack w) (Ok tt).
Proof. by split. Qed.
Lemma computes_pop l w st : stack w = l ++ st → computes (lua_pop (length l)) w st (Ok tt).
Proof. intros E. unfold computes, lua_pop. rewrite E, length_app. destruct (Nat.ltb_spec (length l + length st) (length l)); [lia|]. split; [done|]. by rewrite drop_app_length. Qed.
(** Steps without an exception in between. *)
Lemma computes_then {A B} (m : M A) (f : A → M B) w st1 st2 a o : computes m w st1 (Ok a) → computes (f a) (with_stack st1 w) st2 o → computes (m ≫= f) w st2 o.
Proof. unfold computes. rewrite bind_run. intros Hm Hf. destruct (m w) as [[b|e| |] w1]; [|by destruct Hm|done|done]. destruct Hm as [[= ->] ->]. exact Hf. Qed.

Lemma computes_next idx w r k rest st : stack w = k :: st → 0 < idx <= len st → slot idx st = Some (LTable r) → wf_heap (heap w) →
  follows (t_entries (table_in (heap w) r)) k rest →
  computes (lua_next idx) w (match rest with [] => st | e :: _ => e.2 :: e.1 :: st end) (Ok (match rest with [] => false | _ => true end)).
Proof.
  intros Es Hi Hs Hw Hf. unfold lua_next. eapply (computes_then _ _ _ (stack w) _ r); [|eapply (computes_then _ _ _ (stack w) _ (table_in (heap w) r)); [|eapply (computes_then _ _ _ (stack w) _ k)]].
  - unfold table_at. eapply computes_then; [apply computes_value; rewrite Es; etrans; [apply (slot_app idx [k] st Hi)|exact Hs]|]. by apply computes_ret.
  - by split.
  - apply (computes_value _ (with_stack (stack w) (with_stack (stack w) w))). cbn [stack with_stack]. rewrite Es. apply slot_top.
  - cbn [stack with_stack heap]. rewrite (follows_next _ _ _ (Hw r) Hf). destruct rest as [|[k' v'] rest]; cbn [head]; (eapply computes_then; [apply (computes_pop [k] _ st); cbn; exact Es|]).
    + by apply computes_ret.
    + by eapply computes_then; [apply computes_push|]; eapply computes_then; [apply computes_push|]; apply computes_ret.
Qed.

(** The loops of [lua_table_to_json], from the key [k] on. *)
Section loops.
  Context (idx : Z) (r : positive) (st : list lval) (w : host W).
  Abbreviation es := (t_entries (table_in (heap w) r)).
  Hypothesis Hidx : 0 < idx <= len st.
  Hypothesis Hslot : slot idx st = Some (LTable r).
  Hypothesis Hheap : wf_heap (heap w).
Lemma at_stack l : with_stack l (with_stack (l ++ st) w) = with_stack l w.
Proof. done. Qed.
Lemma next_here k rest : follows es k rest →
  computes (lua_next idx) (with_stack (k :: st) w) (match rest with [] => st | e :: _ => e.2 :: e.1 :: st end) (Ok (match rest with [] => false | _ => true end)).
Proof. intros Hf. by apply (computes_next idx (with_stack (k :: st) w) r k rest st). Qed.

Lemma scan_computes fuel rest k is_array max_index count : follows es k rest → (length rest < fuel)%nat →
  computes (scan_table fuel idx is_array max_index count) (with_stack (k :: st) w) st (s ← scan_keys rest is_array max_index; Ok (s.1, s.2, count + len rest)).
Proof.
  revert fuel k is_array max_index count. induction rest as [|[k' v'] rest IH]; intros fuel k is_array max_index count Hf Hl; (destruct fuel as [|fuel]; [cbn in Hl; lia|]); cbn [scan_table];
    (eapply computes_then; [exact (next_here _ _ Hf)|]); cbn [negb].
  - cbn [scan_keys mbind outcome_bind fst snd]. change (len (@nil (lval * lval))) with 0. rewrite Z.add_0_r. by apply computes_ret.
  - cbn [fst snd]. eapply computes_then; [apply (computes_value _ _ k'); apply slot_second|]. cbn [scan_keys fst snd].
    rewrite outcome_bind_assoc. eapply computes_bind; [apply computes_lift; reflexivity|exists [v'; k']; done|].
    intros s _. eapply computes_then; [apply (computes_pop [v'] _ (k' :: st)); reflexivity|].
    replace (count + len ((k', v') :: rest)) with (count + 1 + len rest) by (rewrite len_cons; lia). apply IH; [by eapply follows_step|cbn in Hl; lia].
Qed.

  Context (sub : Z → M (option json)) (s : lval → outcome (option json)).
  Hypothesis Hsub : ∀ v l, computes (sub (-1)) (with_stack (v :: l ++ st) w) (v :: l ++ st) (s v).
Lemma array_computes ks : computes (array_loop sub idx ks) (with_stack st w) st (items s ((λ i, raw_get (LNum (double_of_Z i)) es) <$> ks)).
Proof.
  induction ks as [|i ks IH]; cbn [array_loop items fmap list_fmap]; [by apply computes_ret|].
  eapply (computes_then _ _ _ (raw_get (LNum (double_of_Z i)) es :: st)).
  { unfold lua_rawgeti, table_at. eapply (computes_then _ _ _ st _ r); [eapply computes_then; [apply computes_value; exact Hslot|by apply computes_ret]|]. by eapply (computes_then _ _ _ st); [by split|]; apply computes_push. }
  eapply (computes_bind _ _ _ (raw_get (LNum (double_of_Z i)) es :: st)); [apply (Hsub _ [])|eexists [_]; done|]. intros x _.
  eapply computes_then; [apply (computes_pop [raw_get (LNum (double_of_Z i)) es] _ st); reflexivity|]. eapply computes_bind; [exact IH|by exists []|]. intros rest _. by apply computes_ret.
Qed.

Lemma key_computes k v : computes key_text_at (with_stack (v :: k :: st) w) (v :: k :: st) (Ok (key_name k)).
Proof.
  unfold key_text_at. eapply computes_then; [apply (computes_value _ _ k), slot_second|]. destruct k as [|b|f|x|p|q|o id]; cbn [key_name]; try by apply computes_ret.
  - eapply (computes_then _ _ _ (LNum f :: v :: LNum f :: st) _ tt).
    { unfold lua_pushvalue. eapply computes_then; [apply (computes_value _ _ (LNum f)), slot_second|]. apply computes_push. }
    eapply (computes_then _ _ _ (LStr (number_text f) :: v :: LNum f :: st) _ (Some (number_text f))).
    { unfold lua_tolstring. eapply computes_then; [apply (computes_value _ _ (LNum f)), slot_top|]. split; [done|]. cbn [stack with_stack]. unfold place. rewrite !len_cons. pose proof (len_nonneg st).
      destruct (Z.ltb_spec 0 (-1)); [lia|]. cbn [andb]. destruct (Z.leb_spec (- -1) (1 + (1 + (1 + len st)))); [done|lia]. }
    eapply computes_then; [apply (computes_pop [LStr (number_text f)] _ (v :: LNum f :: st)); reflexivity|]. by apply computes_ret.
  - unfold lua_tolstring. eapply computes_then; [apply (computes_value _ _ (LStr x)), slot_second|]. by apply computes_ret.
Qed.
Lemma object_computes fuel rest k obj : follows es k rest → (length rest < fuel)%nat →
  computes (object_loop fuel sub idx obj) (with_stack (k :: st) w) st (members s rest obj).
Proof.
  revert fuel k obj. induction rest as [|[k' v'] rest IH]; intros fuel k obj Hf Hl; (destruct fuel as [|fuel]; [cbn in Hl; lia|]); cbn [object_loop members];
    (eapply computes_then; [exact (next_here _ _ Hf)|]); cbn [negb fst snd]; [by apply computes_ret|].
  assert (∀ obj, computes (object_loop fuel sub idx obj) (with_stack (k' :: st) w) st (members s rest obj)) as Hrec by (intros o; apply IH; [by eapply follows_step|cbn in Hl; lia]).
  eapply computes_then; [apply key_computes|]. destruct (key_name k') as [key|].
  - eapply computes_bind; [apply (Hsub v' [k'])|exists [v'; k']; done|]. intros x _. eapply computes_then; [apply (computes_pop [v'] _ (k' :: st)); reflexivity|]. apply Hrec.
  - eapply computes_then; [apply (computes_pop [v'] _ (k' :: st)); reflexivity|]. apply Hrec.
Qed.
End loops.

Lemma computes_abs idx w st : stack w = st → computes (lua_abs_index idx) w st (Ok (if 0 <? idx then idx else len st + idx + 1)).
Proof. intros <-. unfold lua_abs_index. destruct (0 <? idx); [by apply computes_ret|]. eapply (computes_then _ _ _ (stack w)); [split; [done|by destruct w]|]. by apply computes_ret. Qed.
Lemma slot_abs idx st v : slot idx st = Some v → 0 < (if 0 <? idx then idx else len st + idx + 1) <= len st ∧ slot (if 0 <? idx then idx else len st + idx + 1) st = Some v.
Proof.
  unfold slot, place. pose proof (len_nonneg st). destruct (Z.ltb_spec 0 idx).
  - destruct (Z.leb_spec idx (len st)); [|by destruct (Z.ltb_spec idx 0); [lia|]]. destruct (Z.ltb_spec 0 idx); [|lia]. done.
  - cbn [andb]. destruct (Z.ltb_spec idx 0); [|done]. destruct (Z.leb_spec (- idx) (len st)); [|done]. cbn [andb mbind option_bind]. intros Hv. split; [lia|].
    destruct (Z.ltb_spec 0 (len st + idx + 1)); [|lia]. destruct (Z.leb_spec (len st + idx + 1) (len st)); [|lia]. cbn [andb mbind option_bind]. rewrite <- Hv. f_equal. unfold len in *. lia.
Qed.

(** [lua_table_to_json] and [lua_value_to_json] compute [table_json] and
    [json_of]. *)
Lemma table_computes sub s idx depth r w : slot idx (stack w) = Some (LTable r) → wf_heap (heap w) →
  (∀ v l, computes (sub (-1) (depth + 1)) (with_stack (v :: l ++ stack w) w) (v :: l ++ stack w) (s (depth + 1) v)) →
  computes (lua_table_to_json sub idx depth) w (stack w) (table_json s depth (t_entries (table_in (heap w) r))).
Proof.
  intros Hs Hw Hsub. destruct (slot_abs _ _ _ Hs) as [Hi Hs']. unfold lua_table_to_json. eapply computes_then; [by apply computes_abs|]. set (i := if 0 <? idx then _ else _) in *. clearbody i.
  eapply (computes_then _ _ _ (stack w) _ r). { unfold table_at. eapply computes_then; [apply computes_value; exact Hs'|]. by apply computes_ret. }
  eapply (computes_then _ _ _ (stack w)); [by split|]. cbn [heap with_stack]. eapply (computes_then _ _ _ (LNil :: stack w)); [by split|].
  set (es := t_entries (table_in (heap w) r)). assert (follows es LNil es) as Hf by (by left).
  unfold table_json. replace (scan_keys es true 0 ≫= _) with ((s0 ← (s ← scan_keys es true 0; Ok (s.1, s.2, 0 + len es)) : outcome (bool * Z * Z);
    (if s0.1.1 && (0 <? s0.2) && (s0.1.2 =? s0.2) then l ← items (s (depth + 1)) ((λ i, raw_get (LNum (double_of_Z i)) es) <$> indices s0.1.2); Ok (JArr l) else o ← members (s (depth + 1)) es []; Ok (JObj o))))
    by (rewrite outcome_bind_assoc; by destruct (scan_keys es true 0)).
  eapply (computes_bind _ _ _ (stack w)); [apply (scan_computes i r (stack w) w); [done|done|done|exact Hf|unfold es; lia]|by exists []|].
  intros [[isa mx] cnt] _. cbn [fst snd]. destruct (_ && _ && _).
  - eapply computes_bind; [apply (array_computes i r (stack w) w Hs' _ (s (depth + 1))); intros v l; apply Hsub|by exists []|]. intros l _. by apply computes_ret.
  - eapply (computes_then _ _ _ (LNil :: stack w)); [by split|]. eapply computes_bind; [apply (object_computes i r (stack w) w); [done|done|done|exact Hsub|exact Hf|unfold es; lia]|by exists []|].
    intros o _. by apply computes_ret.
Qed.
Lemma value_computes fuel idx depth v w : slot idx (stack w) = Some v → wf_heap (heap w) →
  computes (lua_value_to_json fuel idx depth) w (stack w) (json_of (table_in (heap w)) fuel depth v).
Proof.
  revert idx depth v w. induction fuel as [|fuel IH]; intros idx depth v w Hs Hw; cbn [lua_value_to_json json_of]; (destruct (kMaxTableDepth <? depth); [by apply computes_lift|]); [by apply computes_lift|].
  destruct (slot_abs _ _ _ Hs) as [Hi Hs']. eapply computes_then; [by apply computes_abs|]. set (i := if 0 <? idx then _ else _) in *. clearbody i.
  eapply computes_then; [apply computes_value; exact Hs'|]. destruct v as [|b|f|x|p|r|o id]; try by apply computes_ret.
  - unfold lua_tolstring. eapply computes_then; [eapply computes_then; [apply computes_value; exact Hs'|by apply computes_ret]|]. by apply computes_ret.
  - eapply computes_bind; [|by exists []|]; [|intros j _; by apply computes_ret]. apply (table_computes _ _ _ _ _ (with_stack (stack w) (with_stack (stack w) w)) Hs' Hw). intros v l. apply (IH (-1) (depth + 1) v (with_stack (v :: l ++ stack w) w)); [apply slot_top|exact Hw].
Qed.
End computes.

(** ** A value pushed and read back *)

(** What comes back: numbers are doubles, an empty array is an empty table. *)
Fixpoint lua_form (j : json) : json :=
  match j with
  | JInt z => JFloat (double_of_Z z)
  | JArr [] => JObj []
  | JArr l => JArr (map lua_form l)
  | JObj o => JObj (map (λ e, (e.1, lua_form e.2)) o)
  | j => j
  end.
Fixpoint nest (j : json) : nat :=
  match j with
  | JArr l => S (max_list (map nest l))
  | JObj o => S (max_list (map (λ e, nest e.2) o))
  | _ => 0
  end.
(** Objects are in the order of their keys, which have no zero byte; arrays are
    not longer than the interpreter allows. *)
Definition key_order (a b : bytes) : Prop := bytes_ltb a b = true.
Fixpoint plain_json (j : json) : Prop :=
  match j with
  | JArr l => len l < 2 ^ 30 ∧ foldr and True (map plain_json l)
  | JObj o => StronglySorted key_order o.*1 ∧ Forall (λ k, x00 ∉ k) o.*1 ∧ foldr and True (map (λ e, plain_json e.2) o)
  | _ => True
  end.

Lemma key_order_asym a b : key_order a b → ¬ key_order b a.
Proof.
  unfold key_order. revert b. induction a as [|x a IH]; intros [|y b]; try done. cbn. rewrite !orb_true_iff, !andb_true_iff, !Z.ltb_lt, !Z.eqb_eq. intros [H|[H1 H]] [H'|[H2 H']]; try lia. by apply (IH b).
Qed.
Lemma key_order_ne a b : key_order a b → bytes_eqb a b = false ∧ bytes_eqb b a = false ∧ bytes_ltb b a = false.
Proof.
  intros H. pose proof (key_order_asym _ _ H) as Hn. assert (a ≠ b) as Hne by (intros ->; by apply Hn). split; [by apply bytes_eqb_false|]. split; [by apply bytes_eqb_false|]. by apply not_true_is_false.
Qed.
Lemma obj_insert_last {A} k (v : A) o : Forall (λ k', key_order k' k) o.*1 → obj_insert k v o = o ++ [(k, v)].
Proof. induction o as [|[k' v'] o IH]; cbn; [done|]. intros [H Ho]%Forall_cons. destruct (key_order_ne _ _ H) as (-> & _ & ->). by rewrite IH. Qed.
Lemma all_of {A} (P : A → Prop) l : foldr and True (map P l) ↔ Forall P l.
Proof. induction l as [|x l IH]; cbn; [by split|]. by rewrite Forall_cons, IH. Qed.

Lemma float_trunc_double n : 0 < n < 2 ^ 53 → float_trunc (double_of_Z n) = Some n.
Proof.
  intros Hn. unfold double_of_Z. destruct (Z.eqb_spec n 0); [lia|]. rewrite Z.abs_eq by lia. destruct (Z.ltb_spec n (2 ^ 53)); [|lia].
  destruct (Z.ltb_spec n 0); [lia|]. pose proof (Z.log2_nonneg n). assert (Z.log2 n < 53) by (apply Z.log2_lt_pow2; lia). set (k := 52 - Z.log2 n).
  assert (0 < 2 ^ k) by (apply Z.pow_pos_nonneg; lia). cbn [float_trunc]. rewrite Z2Pos.id by nia.
  destruct (Z.leb_spec 0 (- k)).
  - replace k with 0 by lia. change (- 0) with 0. rewrite Z.pow_0_r. f_equal. lia.
  - by rewrite Z.opp_involutive, Z.div_mul by lia.
Qed.
Lemma scan_seq `{T : target} m k (es : list (lval * lval)) : es.*1 = (λ i, LNum (double_of_Z (Z.of_nat i))) <$> seq (S k) m → Z.of_nat (k + m) < 2 ^ 30 →
  scan_keys es true (Z.of_nat k) = Ok (true, Z.of_nat (k + m)).
Proof.
  revert k es. induction m as [|m IH]; intros k es; cbn [seq fmap list_fmap].
  - destruct es; [|done]. intros _ _. cbn. do 3 f_equal. lia.
  - destruct es as [|[key v] es]; [done|]. intros [= -> Hk] Hl. cbn [scan_keys fst]. unfold scan_key. rewrite float_trunc_double, float_int_double by lia.
    pose proof word_size as (_ & Hw). destruct (Z.ltb_spec (Z.of_nat (S k)) (- 2 ^ (word_bits - 1))); [lia|]. destruct (Z.leb_spec (2 ^ (word_bits - 1)) (Z.of_nat (S k))); [lia|]. cbn [orb]. rewrite bool_decide_true by done. destruct (Z.leb_spec 1 (Z.of_nat (S k))); [|lia].
    cbn [andb mbind outcome_bind fst snd]. rewrite Z.max_l by lia. rewrite (IH (S k) es Hk) by lia. do 3 f_equal. lia.
Qed.
Lemma scan_indices `{T : target} (es : list (lval * lval)) n : es.*1 = (LNum ∘ double_of_Z) <$> indices n → 0 <= n < 2 ^ 30 → scan_keys es true 0 = Ok (true, n).
Proof.
  intros Hk Hn. pose proof (scan_seq (Z.to_nat n) 0 es) as H. cbn [Nat.add] in H. rewrite Z2Nat.id in H by lia. apply H; [|lia]. rewrite Hk. unfold indices. by rewrite <- list_fmap_compose.
Qed.
Lemma scan_strings `{T : target} ks vs (is_array : bool) mx : length vs = length ks → ∃ b m, scan_keys (zip (LStr <$> ks) vs) is_array mx = Ok (b, m) ∧ (b = true → ks = []).
Proof.
  revert vs is_array mx. induction ks as [|k ks IH]; intros [|v vs] is_array mx Hl; try done; cbn; [by eexists _, _|].
  replace (if is_array then Ok (false, mx) else Ok (false, mx)) with (Ok (false, mx)) by (by destruct is_array). cbn.
  assert (∀ vs : list lval, scan_keys (zip (LStr <$> ks) vs) false mx = Ok (false, mx)) as ->; [|by eexists _, _].
  clear. induction ks as [|k ks IH]; intros [|v vs]; cbn; try done.
Qed.
Lemma raw_get_all (vs : list lval) n : len vs = n → n < 2 ^ 30 →
  ((λ i, raw_get (LNum (double_of_Z i)) (zip ((LNum ∘ double_of_Z) <$> indices n) vs)) <$> indices n) = vs.
Proof.
  intros Hn Hl. assert (length (indices n) = length vs) as Hlen by (unfold indices; rewrite length_fmap, length_seq; unfold len in Hn; lia).
  assert ((zip ((LNum ∘ double_of_Z) <$> indices n) vs).*1 = (LNum ∘ double_of_Z) <$> indices n) as Hk by (apply fst_zip; rewrite length_fmap; lia).
  assert ((zip ((LNum ∘ double_of_Z) <$> indices n) vs).*2 = vs) as Hv by (apply snd_zip; rewrite length_fmap; lia).
  apply list_eq. intros i. rewrite list_lookup_fmap. destruct (vs !! i) as [v|] eqn:Ev; [|by rewrite (lookup_ge_None_2 (indices n)) by (apply lookup_ge_None in Ev; lia)].
  pose proof (lookup_lt_Some _ _ _ Ev) as Hi. pose proof (indices_lookup n (Z.of_nat i + 1) ltac:(unfold len in Hn; lia)) as E. replace (Z.to_nat (Z.of_nat i + 1 - 1)) with i in E by lia. rewrite E. cbn [fmap option_fmap option_map].
  destruct (raw_get_seq _ n (Z.of_nat i + 1) Hk ltac:(unfold len in Hn; lia) ltac:(unfold len in Hn; lia)) as (v' & E1 & E2). cbn [option_map]. f_equal. rewrite E2.
  replace (Z.to_nat (Z.of_nat i + 1 - 1)) with i in E1 by lia. apply (f_equal (fmap snd)) in E1. rewrite <- list_lookup_fmap, Hv, Ev in E1. by injection E1.
Qed.

(** What was added to the heap [h] is still there. *)
Definition agrees (h h' h'' : gmap positive ltable) : Prop := ∀ q t, h !! q = None → h' !! q = Some t → h'' !! q = Some t.
Definition reads `{T : target} (h : gmap positive ltable) (d : Z) (v : lval) (j : json) : Prop :=
  ∀ fuel, (nest j < fuel)%nat → json_of (table_in h) fuel d v = Ok (Some (lua_form j)).
Lemma raw_set_new k v es : v ≠ LNil → k ∉ es.*1 → raw_set k v es = es ++ [(k, v)].
Proof.
  intros Hv. induction es as [|[k' v'] es IH]; cbn; [by rewrite bool_decide_false|]. intros Hk. rewrite bool_decide_false by (intros ->; apply Hk; left). rewrite IH; [done|]. intros H. apply Hk. by right.
Qed.
Lemma wf_insert h r t : wf_heap h → wf_table t → wf_heap (<[r := t]> h).
Proof. intros Hw Ht q. unfold table_in. destruct (decide (r = q)) as [->|Hn]; [by rewrite lookup_insert_eq|]. rewrite lookup_insert_ne by done. apply Hw. Qed.

Lemma raw_set_keys k v es x : x ∈ (raw_set k v es).*1 → x = k ∨ x ∈ es.*1.
Proof.
  induction es as [|[k' v'] es IH]; cbn [raw_set].
  - destruct (bool_decide _); cbn; [by intros ?%not_elem_of_nil|]. intros ->%list_elem_of_singleton. by left.
  - destruct (bool_decide_reflect (k = k')) as [<-|Hk]; [destruct (bool_decide _); cbn; [intros Hx; right; by right|by right]|]. cbn. intros [->|Hx]%elem_of_cons; [right; left|]. destruct (IH Hx); [by left|right; by right].
Qed.
Lemma raw_set_wf k v t : k ≠ LNil → wf_table t → wf_table (Table (raw_set k v (t_entries t)) (t_meta t)).
Proof.
  intros Hk [Hd Hn]. split; cbn [t_entries].
  - clear Hn. induction (t_entries t) as [|[k' v'] es IH]; cbn [raw_set]; [destruct (bool_decide _); cbn; [constructor|apply NoDup_singleton]|]. cbn in Hd. apply NoDup_cons in Hd as [Hx Hd].
    destruct (bool_decide_reflect (k = k')) as [<-|Hne]; [destruct (bool_decide _); cbn; [done|by constructor]|]. cbn. constructor; [|by apply IH]. intros [->|?]%raw_set_keys; done.
  - intros [<-|?]%raw_set_keys; done.
Qed.

Section push.
  Context {W : Type} (R : gmap positive ltable → lval → json → Prop).
  Abbreviation M := (SM (host W)).

(** [m] pushes a value that reads as [j], and only adds tables. *)
Definition pushes (m : M ()) (j : json) : Prop := ∀ w, ∃ v h',
  m w = (Ok tt, with_stack (v :: stack w) (with_heap h' w)) ∧ v ≠ LNil ∧ (∀ q, is_Some (heap w !! q) → h' !! q = heap w !! q) ∧
  (wf_heap (heap w) → wf_heap h') ∧ ∀ h'', agrees (heap w) h' h'' → R h'' v j.
(** [m] stores such a value under a new key of the table at the top. *)
Definition stores (m : M ()) (k : lval) (j : json) : Prop := ∀ w r es st,
  stack w = LTable r :: st → heap w !! r = Some (Table es None) → k ∉ es.*1 → ∃ v h1,
  m w = (Ok tt, with_heap (<[r := Table (es ++ [(k, v)]) None]> h1) w) ∧ v ≠ LNil ∧ (∀ q, is_Some (heap w !! q) → h1 !! q = heap w !! q) ∧
  (wf_heap (heap w) → wf_heap h1) ∧ ∀ h'', agrees (heap w) h1 h'' → R h'' v j.
Lemma store_top_run idx k v r l st (w : host W) t : stack w = v :: l ++ LTable r :: st → slot idx (stack w) = Some (LTable r) →
  heap w !! r = Some t → v ≠ LNil → k ∉ (t_entries t).*1 →
  store_top idx k w = (Ok tt, with_stack (l ++ LTable r :: st) (with_heap (<[r := Table (t_entries t ++ [(k, v)]) (t_meta t)]> (heap w)) w)).
Proof.
  intros Es Hs Er Hv Hk. unfold store_top, table_at. rewrite !bind_run. unfold value_at at 1. fold (slot idx (stack w)). rewrite Hs, ret_run, bind_run. unfold value_at. fold (slot (-1) (stack w)). rewrite Es, slot_top, bind_run.
  unfold modify, lua_pop. cbn [stack with_heap]. rewrite Es. cbn [length Nat.ltb Nat.leb drop]. unfold table_in. rewrite Er. cbn [default]. by rewrite raw_set_new.
Qed.
Lemma stores_top m k j : pushes m j → stores (_ ← m; store_top (-2) k) k j.
Proof.
  intros Hm w r es st Es Er Hk. destruct (Hm w) as (v & h1 & E & Hv & H1 & Hw & Hr). exists v, h1. split; [|done]. rewrite bind_run, E.
  rewrite (store_top_run (-2) k v r [] st _ (Table es None)); [cbn [app]; by rewrite <- Es|by cbn; rewrite Es|cbn [stack with_stack]; rewrite Es; apply slot_second|cbn; rewrite H1; [done|by eexists]|done|done].
Qed.
Lemma stores_rawset m k j : pushes m j → stores (_ ← push k; _ ← m; lua_rawset (-3)) k j.
Proof.
  intros Hm w r es st Es Er Hk. destruct (Hm (with_stack (k :: stack w) w)) as (v & h1 & E & Hv & H1 & Hw & Hr). exists v, h1. split; [|done]. rewrite bind_run. unfold push, modify. rewrite bind_run, E. unfold lua_rawset. rewrite bind_run. unfold value_at.
  fold (slot (-2) (stack (with_stack (v :: stack (with_stack (k :: stack w) w)) (with_heap h1 (with_stack (k :: stack w) w))))). cbn [stack with_stack with_heap]. rewrite slot_second, bind_run.
  rewrite (store_top_run (-3) k v r [k] st _ (Table es None)); [|by cbn; rewrite Es| |cbn; rewrite H1; [done|by eexists]|done|done].
  - unfold lua_pop. cbn [stack with_stack app length Nat.ltb Nat.leb drop]. by rewrite <- Es.
  - cbn [stack with_stack with_heap]. rewrite Es. unfold slot, place. rewrite !len_cons. pose proof (len_nonneg st). destruct (Z.ltb_spec 0 (-3)); [lia|]. cbn [andb]. destruct (Z.leb_spec (- -3) (1 + (1 + (1 + len st)))); [done|lia].
Qed.

Lemma run_all_spec ms (l : list (lval * json)) r st : Forall2 (λ m e, stores m e.1 e.2) ms l → NoDup l.*1 → LNil ∉ l.*1 →
  ∀ w es, stack w = LTable r :: st → heap w !! r = Some (Table es None) → (∀ k, k ∈ l.*1 → k ∉ es.*1) →
  ∃ h' vs, run_all ms w = (Ok tt, with_heap h' w) ∧ h' !! r = Some (Table (es ++ zip l.*1 vs) None) ∧
    (∀ q, q ≠ r → is_Some (heap w !! q) → h' !! q = heap w !! q) ∧ (wf_heap (heap w) → wf_heap h') ∧
    Forall2 (λ v e, ∀ h'', agrees (heap w) h' h'' → R h'' v e.2) vs l.
Proof.
  induction 1 as [|m [k j] ms l Hj _ IH]; intros Hd Hnil w es Es Er Hk.
  { exists (heap w), []. cbn. split; [by destruct w|]. rewrite app_nil_r. split_and!; try done. }
  cbn [fmap list_fmap fst] in Hd, Hk, Hnil. apply NoDup_cons in Hd as [Hkd Hd]. apply not_elem_of_cons in Hnil as [Hkn Hnil]. cbn [fst snd] in Hj.
  assert (k ∉ es.*1) as Hnew by (apply Hk; left). destruct (Hj w r es st Es Er Hnew) as (v & h1 & E1 & Hv & H1 & Hw1 & Hr1). assert (h1 !! r = Some (Table es None)) as Er1 by (rewrite H1; [done|by eexists]).
  set (h2 := <[r := Table (es ++ [(k, v)]) None]> h1) in *. destruct (IH Hd Hnil (with_heap h2 w) (es ++ [(k, v)])) as (h' & vs & E2 & Er2 & H2 & Hw2 & HF).
  - exact Es.
  - cbn [heap with_heap]. subst h2. by rewrite lookup_insert_eq.
  - intros k' Hk'. rewrite fmap_app, elem_of_app. intros [Hin|Hin]; [by apply (Hk k'); [right|]|]. cbn in Hin. apply list_elem_of_singleton in Hin as ->. done.
  - exists h', (v :: vs). cbn [fmap list_fmap run_all fst snd]. split; [by rewrite bind_run, E1|].
    split; [rewrite Er2; cbn; by rewrite <- app_assoc|]. cbn [heap with_heap] in H2, HF. assert (∀ q t, h1 !! q = Some t → q ≠ r → h' !! q = Some t) as Hkeep.
    { intros q t Hq Hn. rewrite H2; [|done|]; subst h2; rewrite lookup_insert_ne by done; [done|by eexists]. }
    split; [intros q Hn [t Hq]; rewrite Hq; apply Hkeep; [|done]; rewrite H1; [done|by eexists]|]. split; [|constructor].
    + intros Hw. apply Hw2. cbn. apply wf_insert; [by apply Hw1|]. pose proof (Hw1 Hw r) as [Ha Hb]. unfold table_in in Ha, Hb. rewrite Er1 in Ha, Hb. cbn in Ha, Hb. split; cbn; rewrite fmap_app.
      * apply NoDup_app. split; [done|]. split; [|by apply NoDup_singleton]. intros k' Hin Hin'. cbn in Hin'. apply list_elem_of_singleton in Hin' as ->. done.
      * rewrite elem_of_app. intros [Hin|Hin]; [done|]. cbn in Hin. by apply list_elem_of_singleton in Hin.
    + intros h'' Ha. apply Hr1. intros q t Hq Hq1. apply Ha; [done|]. apply Hkeep; [done|]. intros ->. rewrite Er in Hq. done.
    + eapply Forall2_impl; [exact HF|]. intros v' e Hr h'' Ha. apply Hr. intros q t Hq Hq'. apply Ha; [|done]. destruct (heap w !! q) as [t0|] eqn:Eq; [|done]. exfalso. subst h2. destruct (decide (q = r)) as [->|Hn].
      * by rewrite lookup_insert_eq in Hq.
      * rewrite lookup_insert_ne, H1, Eq in Hq; [done|by eexists|done].
Qed.

Lemma scalar_pushes v j (m : M ()) : m = push v → v ≠ LNil → (∀ h, R h v j) → pushes m j.
Proof. intros -> Hv Hr w. exists v, (heap w). split; [done|]. split; [done|]. split; [done|]. split; [done|]. intros h'' _. apply Hr. Qed.
End push.
(** A new table that is filled. *)
Lemma table_pushes {W} R R' (ms : list (SM (host W) ())) (l : list (lval * json)) j : Forall2 (λ m e, stores R m e.1 e.2) ms l → NoDup l.*1 → LNil ∉ l.*1 →
  (∀ h r vs, h !! r = Some (Table (zip l.*1 vs) None) → Forall2 (λ v e, R h v e.2) vs l → R' h (LTable r) j) →
  pushes R' (_ ← lua_createtable; run_all ms) j.
Proof.
  intros Hl Hnd Hnil Ht w. rewrite bind_run. unfold lua_createtable at 1. set (r := fresh (dom (heap w))). assert (heap w !! r = None) as Hr by (apply not_elem_of_dom; apply is_fresh).
  set (w0 := with_stack (LTable r :: stack w) _). destruct (run_all_spec R ms l r (stack w) Hl Hnd Hnil w0 []) as (h' & vs & E & Er & Hq & Hw & HF); [done|by cbn; rewrite lookup_insert_eq|intros k _; apply not_elem_of_nil|].
  exists (LTable r), h'. split; [rewrite E; reflexivity|]. split; [done|]. cbn in Hq, Hw, HF. split; [|split].
  - intros q Hs. assert (q ≠ r) as Hqr by (intros ->; rewrite Hr in Hs; by destruct Hs). rewrite Hq; [by rewrite lookup_insert_ne|done|by rewrite lookup_insert_ne].
  - intros Hwf. apply Hw. apply wf_insert; [done|]. split; [constructor|apply not_elem_of_nil].
  - intros h'' Ha. apply (Ht _ _ vs); [by apply (Ha r _ Hr Er)|]. eapply Forall2_impl; [exact HF|]. intros v e Hv. apply Hv.
    intros q t Hq0 Hq'. apply Ha; [|done]. destruct (decide (q = r)) as [->|Hne']; [done|]. by rewrite lookup_insert_ne in Hq0.
Qed.

(** ** [push_json_as_lua] *)

Lemma named_values (P : lval → json → Prop) vs (o : list (bytes * json)) :
  Forall2 (λ v (e : lval * json), P v e.2) vs ((λ e, (LStr e.1, e.2)) <$> o) → Forall2 (λ v (e : bytes * json), P v e.2) vs o.
Proof. revert vs. induction o as [|e o IH]; intros vs; cbn; [by intros ->%Forall2_nil_inv_r|]. intros (v & vs' & Hv & HF & ->)%Forall2_cons_inv_r. constructor; [exact Hv|by apply IH]. Qed.

Section push_args.
  Context `{T : target}.
  Context {W : Type}.
  Abbreviation M := (SM (host W)).
Lemma items_forms (sub : lval → outcome (option json)) vs (l : list json) : Forall2 (λ v j, sub v = Ok (Some (lua_form j))) vs l → items sub vs = Ok (map lua_form l).
Proof. induction 1 as [|v j vs l H _ IH]; cbn [items]; [done|]. rewrite H. cbn [mbind outcome_bind]. rewrite IH. done. Qed.
Lemma members_forms (sub : lval → outcome (option json)) vs (o acc : list (bytes * json)) :
  Forall2 (λ v (e : bytes * json), sub v = Ok (Some (lua_form e.2))) vs o → StronglySorted key_order (acc.*1 ++ o.*1) →
  members sub (zip (LStr <$> o.*1) vs) acc = Ok (acc ++ map (λ e, (e.1, lua_form e.2)) o).
Proof.
  intros HF. revert acc. induction HF as [|v [k j] vs o H _ IH]; intros acc Hs; cbn; [by rewrite app_nil_r|]. cbn in H, Hs. rewrite H. cbn [mbind outcome_bind].
  rewrite obj_insert_last.
  - rewrite IH; [by rewrite <- app_assoc|]. rewrite fmap_app. cbn. by rewrite <- app_assoc.
  - apply StronglySorted_app in Hs as (Hs & _ & _). rewrite Forall_forall. intros k' Hk'. apply Hs; [done|left].
Qed.
Lemma sorted_nodup ks : StronglySorted key_order ks → NoDup ks.
Proof. induction 1 as [|k ks _ IH Hf]; constructor; [|done]. intros Hk. rewrite Forall_forall in Hf. specialize (Hf k Hk). by apply (key_order_asym _ _ Hf). Qed.
Lemma upto_nul_plain k : x00 ∉ k → upto_nul k = k.
Proof. intros Hk. unfold upto_nul. apply find_char_None in Hk. by rewrite Hk. Qed.
Lemma nest_in (l : list json) j : j ∈ l → (nest j <= max_list (map nest l))%nat.
Proof. intros Hj. apply max_list_elem_of_le. by apply list_elem_of_fmap_2. Qed.

Lemma array_stores R (push_j : json → M ()) ks l : length ks = length l → Forall (λ x, pushes R (push_j x) x) l →
  Forall2 (λ m e, stores R m e.1 e.2) (zip_with (λ i elem, _ ← elem; lua_rawseti (-2) i) ks (map push_j l)) (zip ((LNum ∘ double_of_Z) <$> ks) l).
Proof.
  intros Hl Hp. revert ks Hl. induction Hp as [|x l Hx _ IH]; intros [|i ks] Hl; try done; cbn; constructor; [by apply stores_top|]. apply IH. by injection Hl.
Qed.
Lemma indices_nodup n : n < 2 ^ 30 → NoDup ((LNum ∘ double_of_Z) <$> indices n).
Proof.
  intros Hn. apply NoDup_fmap_2_strong; [|unfold indices; apply NoDup_fmap; [intros a b; lia|apply NoDup_seq]]. intros a b Ha%indices_range Hb%indices_range [= E]. apply double_inj; [lia|lia|done].
Qed.
Lemma length_indices_len {A} (l : list A) : length (indices (len l)) = length l.
Proof. unfold indices, len. rewrite length_fmap, length_seq. lia. Qed.
Lemma reads_array h d r vs l : 0 <= d <= kMaxTableDepth → len l < 2 ^ 30 → table_in h r = Table (zip ((LNum ∘ double_of_Z) <$> indices (len l)) vs) None →
  Forall2 (λ v j, reads h (d + 1) v j) vs l → reads h d (LTable r) (JArr l).
Proof.
  intros Hd Hlen Er HF [|fuel] Hf; [lia|]. unfold kMaxTableDepth in Hd. cbn [json_of]. unfold kMaxTableDepth. destruct (Z.ltb_spec 64 d); [lia|]. rewrite Er. cbn [t_entries].
  assert (Forall2 (λ v j, json_of (table_in h) fuel (d + 1) v = Ok (Some (lua_form j))) vs l) as HF'.
  { assert (∀ j, j ∈ l → (nest j < fuel)%nat) as Hn by (intros j Hj; pose proof (nest_in l j Hj); cbn [nest] in Hf; lia). clear Er Hlen Hf. induction HF as [|v j vs l Hv _ IH]; constructor; [apply Hv, Hn; left|]. apply IH. intros x Hx. apply Hn. by right. }
  pose proof (Forall2_length _ _ _ HF') as Hvl. pose proof (length_indices_len l) as Hil. unfold table_json. rewrite (scan_indices _ (len l)); [|rewrite fst_zip; [done|rewrite length_fmap; lia]|pose proof (len_nonneg l); lia].
  cbn [mbind outcome_bind fst snd]. assert (len (zip ((LNum ∘ double_of_Z) <$> indices (len l)) vs) = len l) as -> by (unfold len at 1; rewrite length_zip, length_fmap, Hil, Hvl; unfold len; lia).
  rewrite Z.eqb_refl, andb_true_r. cbn [andb]. destruct l as [|x l]; [by destruct vs|]. replace (0 <? len (x :: l)) with true by (rewrite len_cons; pose proof (len_nonneg l); symmetry; apply Z.ltb_lt; lia).
  rewrite raw_get_all; [|unfold len; by rewrite Hvl|done]. by rewrite (items_forms _ _ _ HF').
Qed.
Lemma reads_object h d r vs o : 0 <= d <= kMaxTableDepth → StronglySorted key_order o.*1 → table_in h r = Table (zip (LStr <$> o.*1) vs) None →
  Forall2 (λ v (e : bytes * json), reads h (d + 1) v e.2) vs o → reads h d (LTable r) (JObj o).
Proof.
  intros Hd Hs Er HF [|fuel] Hf; [lia|]. unfold kMaxTableDepth in Hd. cbn [json_of]. unfold kMaxTableDepth. destruct (Z.ltb_spec 64 d); [lia|]. rewrite Er. cbn [t_entries].
  assert (Forall2 (λ v (e : bytes * json), json_of (table_in h) fuel (d + 1) v = Ok (Some (lua_form e.2))) vs o) as HF'.
  { assert (∀ e, e ∈ o → (nest e.2 < fuel)%nat) as Hn.
    { intros e He. assert (nest e.2 <= max_list (map (λ e, nest e.2) o))%nat; [|cbn [nest] in Hf; lia]. apply max_list_elem_of_le. by apply (list_elem_of_fmap_2 (λ e : bytes * json, nest e.2)). }
    clear Er Hs Hf. induction HF as [|v j vs o Hv _ IH]; constructor; [apply Hv, Hn; left|]. apply IH. intros x Hx. apply Hn. by right. }
  pose proof (Forall2_length _ _ _ HF') as Hvl. unfold table_json. destruct (scan_strings o.*1 vs true 0) as (b & m & -> & Hb); [by rewrite length_fmap|]. cbn [mbind outcome_bind fst snd].
  replace (b && _ && _) with false; [by rewrite (members_forms _ vs o [])|]. destruct b; [|done]. destruct o; [by destruct vs|]. by specialize (Hb eq_refl).
Qed.
Lemma push_pushes j : plain_json j → ∀ d, 0 <= d → d + Z.of_nat (nest j) <= kMaxTableDepth → pushes (λ h v j, reads h d v j) (push_json_as_lua j d : M ()) j.
Proof.
  unfold kMaxTableDepth. induction j as [|b|z|f|s|l IH|o IH] using json_nested_ind; intros Hp d Hd Hn; cbn [push_json_as_lua]; unfold kMaxTableDepth; (destruct (Z.ltb_spec 64 d); [lia|]).
  1-5: eapply scalar_pushes; [reflexivity|done|]; intros h [|fuel] Hf; [lia|]; cbn [json_of]; unfold kMaxTableDepth; (destruct (Z.ltb_spec 64 d); [lia|done]).
  - destruct Hp as [Hlen Hp]. rewrite all_of in Hp. cbn [nest] in Hn. pose proof (length_indices_len l) as Hil.
    assert ((zip ((LNum ∘ double_of_Z) <$> indices (len l)) l).*1 = (LNum ∘ double_of_Z) <$> indices (len l)) as Hfst by (apply fst_zip; rewrite length_fmap; lia).
    apply (table_pushes (λ h v j, reads h (d + 1) v j) _ _ (zip ((LNum ∘ double_of_Z) <$> indices (len l)) l)).
    + apply array_stores; [done|]. rewrite Forall_forall in IH, Hp |- *. intros j Hj. pose proof (nest_in l j Hj). apply IH; [done|by apply Hp|lia|lia].
    + rewrite Hfst. by apply indices_nodup.
    + rewrite Hfst. by intros (x & [=] & _)%list_elem_of_fmap.
    + intros h r vs Er HF. rewrite Hfst in Er. eapply reads_array; [unfold kMaxTableDepth; lia|done|unfold table_in; by rewrite Er|].
      rewrite <- (snd_zip ((LNum ∘ double_of_Z) <$> indices (len l)) l) by (rewrite length_fmap; lia). by apply Forall2_fmap_r.
  - destruct Hp as (Hs & Hk & Hp). rewrite all_of in Hp. cbn [nest] in Hn.
    assert ((((λ e, (LStr e.1, e.2)) <$> o) : list (lval * json)).*1 = LStr <$> o.*1) as Hfst by (by rewrite <- !list_fmap_compose).
    apply (table_pushes (λ h v j, reads h (d + 1) v j) _ _ ((λ e, (LStr e.1, e.2)) <$> o)).
    + apply Forall2_fmap_2. apply Forall_Forall2_diag. rewrite Forall_forall in Hk. rewrite Forall_forall in IH. rewrite Forall_forall in Hp. rewrite Forall_forall. intros e He. unfold lua_setfield. cbn [fst snd]. rewrite upto_nul_plain by (apply Hk; by apply list_elem_of_fmap_2).
      apply stores_top. assert (nest e.2 <= max_list (map (λ e, nest e.2) o))%nat by (apply max_list_elem_of_le; by apply (list_elem_of_fmap_2 (λ e : bytes * json, nest e.2))). apply IH; [done|by apply Hp|lia|lia].
    + rewrite Hfst. apply NoDup_fmap; [by intros a b [=]|]. by apply sorted_nodup.
    + rewrite Hfst. by intros (x & [=] & _)%list_elem_of_fmap.
    + intros h r vs Er HF. rewrite Hfst in Er. eapply reads_object; [unfold kMaxTableDepth; lia|done|unfold table_in; by rewrite Er|]. by apply named_values in HF.
Qed.
End push_args.

Section push_list.
  Context {W : Type}.
  Implicit Types w : host W.
Lemma store_list ks vs r es st w : stack w = LTable r :: st → heap w !! r = Some (Table es None) → length ks = length vs → LNil ∉ vs →
  NoDup (es.*1 ++ ((LNum ∘ double_of_Z) <$> ks)) →
  run_all (zip_with (λ i v, _ ← push v; lua_rawseti (-2) i) ks vs) w = (Ok tt, with_heap (<[r := Table (es ++ zip ((LNum ∘ double_of_Z) <$> ks) vs) None]> (heap w)) w).
Proof.
  revert vs es w. induction ks as [|k ks IH]; intros [|v vs] es w Es Er Hl Hv Hd; try done; cbn [zip_with run_all fmap list_fmap].
  - rewrite app_nil_r, insert_id by done. by destruct w.
  - apply not_elem_of_cons in Hv as [Hv1 Hv]. cbn [fmap list_fmap] in Hd. rewrite (cons_middle (LNum (double_of_Z k))), app_assoc in Hd. pose proof Hd as Hd'. apply NoDup_app in Hd' as (Hd' & _ & _). apply NoDup_app in Hd' as (_ & Hk & _).
    rewrite bind_run, bind_run. unfold push at 1, modify. unfold lua_rawseti. rewrite (store_top_run (-2) (LNum (double_of_Z k)) v r [] st _ (Table es None)); [|by cbn; rewrite Es|by cbn; rewrite Es; apply slot_second|done|done|intros Hin; apply (Hk _ Hin); by left].
    cbn [app t_entries t_meta]. rewrite <- Es. rewrite (IH vs (es ++ [(LNum (double_of_Z k), v)])); [|done|by cbn; rewrite lookup_insert_eq|by injection Hl|done|by rewrite fmap_app].
    cbn [heap with_heap with_stack]. rewrite insert_insert_eq, <- app_assoc. done.
Qed.
Lemma push_list_run vs w : LNil ∉ vs → len vs < 2 ^ 30 → let r := fresh (dom (heap w)) in
  push_list vs w = (Ok tt, with_stack (LTable r :: stack w) (with_heap (<[r := Table (zip ((LNum ∘ double_of_Z) <$> indices (len vs)) vs) None]> (heap w)) w)).
Proof.
  intros Hv Hl r. unfold push_list. rewrite bind_run. unfold lua_createtable at 1. fold r. rewrite (store_list _ vs r [] (stack w)); [|done|by cbn; rewrite lookup_insert_eq|apply length_indices_len|done|by apply indices_nodup].
  cbn [heap with_heap with_stack]. by rewrite insert_insert_eq.
Qed.
End push_list.

(** The limit on nesting ends the conversion, also of a cyclic table. *)
Definition ends_or_deep {A} (o : outcome A) : Prop := match o with Throw e => e = too_deep | NoFuel => False | _ => True end.
Lemma deep_bind {A B} (o : outcome A) (f : A → outcome B) : ends_or_deep o → (∀ a, ends_or_deep (f a)) → ends_or_deep (o ≫= f).
Proof. destruct o; cbn; auto. Qed.
Lemma scan_ends `{T : target} es is_array mx : ends_or_deep (scan_keys es is_array mx).
Proof.
  revert is_array mx. induction es as [|e es IH]; intros is_array mx; cbn [scan_keys]; [done|]. apply deep_bind; [|intros; apply IH]. destruct is_array; [|done]. unfold scan_key.
  destruct e.1; try done. destruct (float_trunc f); [|done]. destruct (_ || _); [done|]. by destruct (_ && _).
Qed.
Lemma value_ends `{T : target} h fuel depth v : kMaxTableDepth - depth + 1 < Z.of_nat fuel → ends_or_deep (json_of h fuel depth v).
Proof.
  revert depth v. induction fuel as [|fuel IH]; intros depth v Hf; cbn [json_of]; (destruct (Z.ltb_spec kMaxTableDepth depth); [done|]); [lia|]. destruct v; try done.
  apply deep_bind; [|done]. unfold table_json. apply deep_bind; [apply scan_ends|]. intros s. assert (∀ v, ends_or_deep (json_of h fuel (depth + 1) v)) as Hs by (intros v; apply IH; lia).
  destruct (_ && _ && _); (apply deep_bind; [|done]).
  - generalize ((λ i, raw_get (LNum (double_of_Z i)) (t_entries (h r))) <$> indices s.2). intros vs. induction vs as [|v vs IHv]; cbn [items]; [done|]. apply deep_bind; [done|]. intros x. by apply deep_bind.
  - generalize (@nil (bytes * json)). induction (t_entries (h r)) as [|e es IHe]; intros acc; cbn [members]; [done|]. destruct (key_name e.1); [|done]. apply deep_bind; [done|]. intros x. apply IHe.
Qed.

(** The conversion of the value at an index is that of the value and leaves the
    stack as it was; it always ends, a table that is nested too deep or in itself
    with an exception. *)
Theorem table_conversion_refines (T : target) {W} idx v (w : host W) : slot idx (stack w) = Some v → wf_heap (heap w) →
  match lua_value_to_json table_fuel idx 0 w with
  | (Ok j, w') => json_of (table_in (heap w)) table_fuel 0 v = Ok j ∧ w' = w
  | (Throw e, w') => e = too_deep ∧ json_of (table_in (heap w)) table_fuel 0 v = Throw too_deep ∧ ∃ l, w' = with_stack (l ++ stack w) w
  | (UB, _) => json_of (table_in (heap w)) table_fuel 0 v = UB
  | (NoFuel, _) => False
  end.
Proof.
  intros Hs Hw. pose proof (value_computes table_fuel idx 0 v w Hs Hw) as H. pose proof (value_ends (table_in (heap w)) table_fuel 0 v ltac:(by vm_compute)) as He. unfold computes in H.
  destruct (lua_value_to_json table_fuel idx 0 w) as [[j|e| |] w'].
  - destruct H as [-> ->]. split; [done|]. by destruct w.
  - destruct H as [Hv Hl]. rewrite Hv in He. cbn in He. subst e. done.
  - done.
  - by rewrite H in He.
Qed.


(** ** Examples *)

Definition host0 : host () := Host ∅ ∅ ∅ [] [] 0 false [] tt.
Definition nested0 : json := jobj [(#"a", JArr [JInt 1; JNull; JArr []]); (#"b", JStr #"x"); (#"c", JObj [])].
Lemma wf_empty : wf_heap (heap host0).
Proof. intros r. split; [constructor|apply not_elem_of_nil]. Qed.
Definition pair0 : ltable := Table [(LNum (double_of_Z 1), LStr #"x"); (LNum (double_of_Z 2), LLight PNull)] None.
Definition host1 : host () := with_stack [LTable 1%positive] (with_heap (<[1%positive := pair0]> ∅) host0).
Lemma wf_pair : wf_heap (heap host1).
Proof. apply (wf_insert ∅); [apply wf_empty|]. split; apply (bool_decide_unpack _); by vm_compute. Qed.
Lemma table_conversion_refines_witness : lua_value_to_json (T:=target32) table_fuel (-1) 0 host1 = (Ok (Some (JArr [JStr #"x"; JNull])), host1).
Proof.
  pose proof (table_conversion_refines target32 (-1) (LTable 1%positive) host1 eq_refl wf_pair) as H. assert (json_of (T:=target32) (table_in (heap host1)) table_fuel 0 (LTable 1%positive) = Ok (Some (JArr [JStr #"x"; JNull]))) as E by (vm_compute; reflexivity).
  rewrite E in H. destruct (lua_value_to_json (T:=target32) table_fuel (-1) 0 host1) as [[j|e| |] w']; [by destruct H as [[= ->] ->]|by destruct H as (_ & ? & _)|done|done].
Defined.
Lemma plain_nested : plain_json nested0.
Proof. cbn. repeat split; repeat constructor; try (by vm_compute); by apply not_elem_of_nil || (apply (bool_decide_unpack _); by vm_compute). Qed.
(** A table that contains itself is refused. *)
Example cyclic_refused : json_of (T:=target32) (λ _, Table [(LStr #"t", LTable 1%positive)] None) table_fuel 0 (LTable 1%positive) = Throw too_deep.
Proof. vm_compute. reflexivity. Qed.
