(* ===== verification/LuaConfig.v ===== *)
(** * LuaConfig: settings of a plugin inside its process

    The module [millennium.config] of a plugin ([lua_host/api/config.cc]): its
    conversions between JSON and Lua, the calls that read and change settings
    through the host, and the callbacks for changed settings.

    The call to the host ([rpc_client::call], the subject of [Rpc]) and Lua code
    are parameters.  The callbacks are kept in the order in which the map visits
    them, which is not that of their numbers. *)

From Stdlib Require Import SpecFloat.
From stdpp Require Import sorting.
From S2P Require Import Prelude State Json NumText LuaEncode LuaRoundTrip LuaVm LuaTables.

#[export] Instance config_callback_eq_dec : EqDecision config_callback.
Proof. solve_decision. Defined.

Definition argument_error : bytes := #"bad argument".
(** [std::to_string(int)] *)
Definition int_dec (z : Z) : bytes := (if z <? 0 then #"-" else []) ++ dec (Z.to_N (Z.abs z)).
(** An integer that is the double, when [lua_Integer] has it. *)
Definition number_json `{T : target} (f : spec_float) : json :=
  match float_int f with Some i => if (- 2 ^ (word_bits - 1) <=? i) && (i <? 2 ^ (word_bits - 1)) then JInt i else JFloat f | None => JFloat f end.

Section config.
  Context `{T : target}.
  Context {W : Type}.
  (** [lua_objlen] of a table. *)
  Variable objlen : ltable → Z.
  (** [g_rpc->call] *)
  Variable call : bytes → json → W → outcome json * W.
  Variable run : lval → list lval → host W → (lval + lval) * host W.
  (** The closure that [on_change] returns, by the number of the callback. *)
  Variable unsubscriber : Z → lval.
  (** Where the map puts a new callback, and whether adding callbacks has moved
      the others. *)
  Variable insert_cb : Z * config_callback → list (Z * config_callback) → list (Z * config_callback).
  Variable rehashed : list (Z * config_callback) → list (Z * config_callback) → bool.
  Abbreviation M := (SM (host W)).

(** ** JSON and Lua *)

Fixpoint push_json_value (val : json) : M () :=
  match val with
  | JNull => push LNil
  | JBool b => push (LBool b)
  | JInt z => push (LNum (double_of_Z (to_lua_Integer z)))
  | JFloat f => push (LNum f)
  | JStr s => push (LStr s)
  | JArr l => _ ← lua_createtable; run_all (zip_with (λ i elem, _ ← elem; lua_rawseti (-2) i) (indices (len l)) (map push_json_value l))
  | JObj o => _ ← lua_createtable; run_all (map (λ e, _ ← push (LStr e.1); _ ← push_json_value e.2; lua_rawset (-3)) o)
  end.

(** Whether none of the elements is nil. *)
Fixpoint all_present (idx : Z) (ks : list Z) : M bool :=
  match ks with
  | [] => mret true
  | k :: ks =>
      _ ← lua_rawgeti idx k;
      v ← value_at (-1);
      _ ← lua_pop 1;
      if bool_decide (v = LNil) then mret false else all_present idx ks
  end.
Definition sub_top (sub : Z → M json) : M json := top ← lua_gettop; j ← sub top; _ ← lua_pop 1; mret j.
Fixpoint elements_loop (sub : Z → M json) (idx : Z) (ks : list Z) : M (list json) :=
  match ks with
  | [] => mret []
  | k :: ks => _ ← lua_rawgeti idx k; j ← sub_top sub; rest ← elements_loop sub idx ks; mret (j :: rest)
  end.
Definition member_key : M (option bytes) :=
  k ← value_at (-2);
  match k with
  | LStr _ => lua_tostring (-2)
  | LNum n => i ← lift (float_to_int n); mret (Some (int_dec i))
  | _ => mret None
  end.
Fixpoint members_loop (fuel : nat) (sub : Z → M json) (idx : Z) (obj : list (bytes * json)) : M (list (bytes * json)) :=
  match fuel with
  | O => lift NoFuel
  | S fuel =>
      more ← lua_next idx;
      if negb more then mret obj else
      key ← member_key;
      match key with
      | None => _ ← lua_pop 1; members_loop fuel sub idx obj
      | Some key => j ← sub_top sub; members_loop fuel sub idx (obj_insert key j obj)
      end
  end.
Fixpoint lua_to_json (fuel : nat) (idx : Z) : M json :=
  match fuel with
  | O => lift NoFuel
  | S fuel =>
      v ← value_at idx;
      match v with
      | LNil => mret JNull
      | LBool b => mret (JBool b)
      | LNum n => mret (number_json n)
      | LStr _ => s ← lua_tostring idx; mret (JStr (default [] s))
      | LTable r =>
          t ← lookup r;
          let len := i32 (objlen t) in
          is_array ← (if 0 <? len then all_present idx (indices len) else mret false);
          if (is_array : bool) then l ← elements_loop (lua_to_json fuel) idx (indices len); mret (JArr l) else
          abs_idx ← lua_abs_index idx;
          _ ← push LNil;
          o ← members_loop (S (length (t_entries t))) (lua_to_json fuel) abs_idx [];
          mret (JObj o)
      | _ => mret JNull
      end
  end.

(** ** The calls: the number of results, which are at the top *)

Definition on_stack (idx : Z) : M bool := gets (λ w, bool_decide (is_Some (slot idx (stack w)))).
Definition luaL_checkstring (idx : Z) : M bytes :=
  there ← on_stack idx;
  if negb there then lift (Throw argument_error) else
  v ← value_at idx;
  if lua_isstring v then s ← lua_tostring idx; mret (default [] s) else lift (Throw argument_error).
Definition rpc_call (method : bytes) (params : json) : M json := λ w,
  let '(o, x) := call method params (outside_world w) in
  (o, Host (heap w) (globals w) (registry w) (stack w) (g_config_callbacks w) (g_next_cb_id w) (g_on_unload_called w) (logged w) x).
Definition push_error (first : lval) (text : bytes) : M nat := _ ← push first; _ ← push (LStr (upto_nul text)); mret 2%nat.
(** What the four calls do with the answer. *)
Definition with_answer (failure : lval) (request : M json) (good : json → M nat) : M nat :=
  catching (
    result ← request;
    match jget #"error" result with
    | Some e => _ ← push failure; text ← lift (get_string e); _ ← push (LStr (upto_nul text)); mret 2%nat
    | None => good result
    end)
  (λ e, push_error failure e).
Definition config_get : M nat :=
  key ← luaL_checkstring 1;
  with_answer LNil (rpc_call #"config_get" (jobj [(#"key", JStr key)]))
    (λ result, v ← lift (value_json #"value" JNull result); _ ← push_json_value v; mret 1%nat).
Definition config_set (fuel : nat) : M nat :=
  key ← luaL_checkstring 1;
  there ← on_stack 2;
  if negb there then lift (Throw argument_error) else
  value ← lua_to_json fuel 2;
  with_answer (LBool false) (rpc_call #"config_set" (jobj [(#"key", JStr key); (#"value", value)])) (λ _, _ ← push (LBool true); mret 1%nat).
Definition config_delete : M nat :=
  key ← luaL_checkstring 1;
  with_answer (LBool false) (rpc_call #"config_delete" (jobj [(#"key", JStr key)])) (λ _, _ ← push (LBool true); mret 1%nat).
Definition config_get_all : M nat :=
  with_answer LNil (rpc_call #"config_get_all" JNull)
    (λ result, v ← lift (value_json #"config" (JObj []) result); _ ← push_json_value v; mret 1%nat).

(** ** Callbacks *)

Definition check_function (idx : Z) : M () :=
  there ← on_stack idx;
  if negb there then lift (Throw argument_error) else
  v ← value_at idx; if is_function v then mret tt else lift (Throw argument_error).
Definition config_on_change : M nat :=
  top ← lua_gettop;
  first ← (if 2 <=? top then v ← value_at 1; mret (lua_isstring v) else mret false);
  key_idx ← (if (first : bool) then key ← lua_tostring 1; _ ← check_function 2; mret (default [] key, 2)
             else _ ← check_function 1; mret ([], 1)) : M (bytes * Z);
  _ ← lua_pushvalue key_idx.2;
  ref ← luaL_ref;
  id ← gets g_next_cb_id;
  _ ← modify (λ w, with_callbacks (insert_cb (id, Callback ref key_idx.1) (g_config_callbacks w)) (id + 1) w);
  _ ← push (unsubscriber id);
  mret 1%nat.
Definition find_callback (id : Z) (l : list (Z * config_callback)) : option config_callback := snd <$> find (λ x : Z * config_callback, x.1 =? id) l.
(** The closure returned by [config_on_change] *)
Definition unsubscribe (id : Z) : M nat :=
  cbs ← gets g_config_callbacks;
  match find_callback id cbs with
  | Some cb =>
      _ ← luaL_unref (lua_ref cb);
      _ ← modify (λ w, with_callbacks (filter (λ x : Z * config_callback, x.1 ≠ id) (g_config_callbacks w)) (g_next_cb_id w) w);
      mret 0%nat
  | None => mret 0%nat
  end.

Definition call_back (cb : config_callback) (key : bytes) (value : json) : M () :=
  _ ← push_ref (lua_ref cb);
  _ ← push (LStr (upto_nul key));
  _ ← push_json_value value;
  ok ← lua_pcall run 2 false;
  if (ok : bool) then mret tt else
  err ← lua_tostring (-1);
  _ ← log_lua_error #"config on_change callback error" err;
  lua_pop 1.
Definition concerns (key : bytes) (cb : config_callback) : bool := bytes_eqb (cb_key cb) [] || bytes_eqb (cb_key cb) key.
(** What the map has after the callback [id]. *)
Fixpoint after_id (id : Z) (l : list (Z * config_callback)) : option (list (Z * config_callback)) :=
  match l with [] => None | x :: l => if x.1 =? id then Some l else after_id id l end.
(** The rest of the loop.  The iterator is lost when its callback was removed or
    the map was rebuilt. *)
Fixpoint dispatch_loop (fuel : nat) (key : bytes) (value : json) (rest : list (Z * config_callback)) : M () :=
  match fuel with
  | O => lift NoFuel
  | S fuel =>
      match rest with
      | [] => mret tt
      | (id, cb) :: _ =>
          before ← gets g_config_callbacks;
          _ ← (if concerns key cb then call_back cb key value else mret tt);
          l ← gets g_config_callbacks;
          if rehashed before l then lift UB else
          match after_id id l with None => lift UB | Some rest => dispatch_loop fuel key value rest end
      end
  end.
Definition dispatch_config_change (fuel : nat) (key : bytes) (value : json) : M () :=
  l ← gets g_config_callbacks; dispatch_loop fuel key value l.
End config.

(** ** What a Lua value is as a setting *)

Section spec.
  Context `{T : target}.
  Variable objlen : ltable → Z.
  Variable h : store.
Definition is_present (es : list (lval * lval)) (i : Z) : bool := negb (bool_decide (raw_get (LNum (double_of_Z i)) es = LNil)).
Definition setting_key (k : lval) : outcome (option bytes) :=
  match k with LStr s => Ok (Some (upto_nul s)) | LNum n => i ← float_to_int n; Ok (Some (int_dec i)) | _ => Ok None end.
Fixpoint setting_items (sub : lval → outcome json) (vs : list lval) : outcome (list json) :=
  match vs with [] => Ok [] | v :: vs => x ← sub v; rest ← setting_items sub vs; Ok (x :: rest) end.
Fixpoint setting_members (sub : lval → outcome json) (es : list (lval * lval)) (obj : list (bytes * json)) : outcome (list (bytes * json)) :=
  match es with
  | [] => Ok obj
  | e :: es =>
      key ← setting_key e.1;
      match key with None => setting_members sub es obj | Some key => j ← sub e.2; setting_members sub es (obj_insert key j obj) end
  end.
Fixpoint setting_of (fuel : nat) (v : lval) : outcome json :=
  match fuel with
  | O => NoFuel
  | S fuel =>
      match v with
      | LBool b => Ok (JBool b)
      | LNum n => Ok (number_json n)
      | LStr s => Ok (JStr (upto_nul s))
      | LTable r =>
          let t := h r in
          let n := i32 (objlen t) in
          if (0 <? n) && forallb (is_present (t_entries t)) (indices n)
          then l ← setting_items (setting_of fuel) ((λ i, raw_get (LNum (double_of_Z i)) (t_entries t)) <$> indices n); Ok (JArr l)
          else o ← setting_members (setting_of fuel) (t_entries t) []; Ok (JObj o)
      | _ => Ok JNull
      end
  end.
End spec.

(** ** The stack code computes it *)

Section computes.
  Context `{T : target}.
  Context {W : Type}.
  Variable objlen : ltable → Z.
  Abbreviation M := (SM (host W)).
  Implicit Types w : host W.

Lemma with_same w : with_stack (stack w) w = w.
Proof. by destruct w. Qed.
Lemma computes_same {A} (m : M A) w o st : computes m w st o → computes m (with_stack (stack w) w) st o.
Proof. by rewrite with_same. Qed.
Lemma computes_rawgeti idx k r w : slot idx (stack w) = Some (LTable r) →
  computes (lua_rawgeti idx k) w (raw_get (LNum (double_of_Z k)) (t_entries (table_in (heap w) r)) :: stack w) (Ok tt).
Proof.
  intros Hs. unfold lua_rawgeti, table_at. eapply (computes_then _ _ _ (stack w) _ r); [eapply computes_then; [apply computes_value; exact Hs|by apply computes_ret]|].
  eapply (computes_then _ _ _ (stack w)); by split.
Qed.
Lemma present_computes idx r w ks : 0 < idx → slot idx (stack w) = Some (LTable r) →
  computes (all_present idx ks) w (stack w) (Ok (forallb (is_present (t_entries (table_in (heap w) r))) ks)).
Proof.
  intros Hi Hs. induction ks as [|k ks IH]; cbn [all_present forallb]; [by apply computes_ret|]. eapply computes_then; [by apply computes_rawgeti|]. set (v := raw_get _ _).
  eapply computes_then; [apply (computes_value _ (with_stack (v :: stack w) w) v), slot_top|]. eapply computes_then; [apply (computes_pop [v] _ (stack w)); reflexivity|]. unfold is_present at 1. fold v.
  destruct (bool_decide (v = LNil)); cbn [negb andb]; [by apply computes_ret|]. by apply (computes_same _ w).
Qed.
Section loops.
  Context (idx : Z) (r : positive) (w : host W) (sub : Z → M json) (s : lval → outcome json).
  Abbreviation st := (stack w).
  Abbreviation es := (t_entries (table_in (heap w) r)).
  Hypothesis Hidx : 0 < idx <= len st.
  Hypothesis Hslot : slot idx st = Some (LTable r).
  Hypothesis Hheap : wf_heap (heap w).
  Hypothesis Hsub : ∀ v l, computes (sub (len (v :: l ++ st))) (with_stack (v :: l ++ st) w) (v :: l ++ st) (s v).
Lemma sub_top_computes v l : computes (sub_top sub) (with_stack (v :: l ++ st) w) (l ++ st) (s v).
Proof.
  unfold sub_top. eapply (computes_then _ _ _ (v :: l ++ st) _ (len (v :: l ++ st))); [by split|]. replace (s v) with (j ← s v; Ok j) by (by destruct (s v)).
  eapply computes_bind; [apply Hsub|by exists [v]|]. intros j _. eapply computes_then; [apply (computes_pop [v] _ (l ++ st)); reflexivity|]. by apply computes_ret.
Qed.
Lemma elements_computes ks : computes (elements_loop sub idx ks) w st (setting_items s ((λ i, raw_get (LNum (double_of_Z i)) es) <$> ks)).
Proof.
  induction ks as [|i ks IH]; cbn [elements_loop setting_items fmap list_fmap]; [by apply computes_ret|]. eapply computes_then; [by apply computes_rawgeti|].
  eapply computes_bind; [apply (sub_top_computes _ [])|by exists []|]. intros x _. eapply computes_bind; [exact (computes_same _ w _ _ IH)|by exists []|]. intros rest _. by apply computes_ret.
Qed.
Lemma member_key_computes k v : computes member_key (with_stack (v :: k :: st) w) (v :: k :: st) (setting_key k).
Proof.
  unfold member_key. eapply computes_then; [apply (computes_value _ _ k), slot_second|]. destruct k as [|b|f|x|p|q|o id]; cbn [setting_key]; try by apply computes_ret.
  - eapply computes_bind; [by apply computes_lift|by exists []|]. intros i _. by apply computes_ret.
  - unfold lua_tostring, lua_tolstring. eapply computes_then; [eapply computes_then; [apply (computes_value _ _ (LStr x)), slot_second|by apply computes_ret]|]. by apply computes_ret.
Qed.
Lemma members_computes fuel rest k obj : follows es k rest → (length rest < fuel)%nat →
  computes (members_loop fuel sub idx obj) (with_stack (k :: st) w) st (setting_members s rest obj).
Proof.
  revert fuel k obj. induction rest as [|[k' v'] rest IH]; intros fuel k obj Hf Hl; (destruct fuel as [|fuel]; [cbn in Hl; lia|]); cbn [members_loop setting_members];
    (eapply computes_then; [exact (next_here idx r st w Hidx Hslot Hheap _ _ Hf)|]); cbn [negb fst snd]; [by apply computes_ret|].
  assert (∀ obj, computes (members_loop fuel sub idx obj) (with_stack (k' :: st) w) st (setting_members s rest obj)) as Hrec by (intros o; apply IH; [by eapply follows_step|cbn in Hl; lia]).
  eapply computes_bind; [apply member_key_computes|by exists [v'; k']|]. intros [key|] _.
  - eapply computes_bind; [apply (sub_top_computes v' [k'])|by exists [k']|]. intros x _. apply Hrec.
  - eapply computes_then; [apply (computes_pop [v'] _ (k' :: st)); reflexivity|]. apply Hrec.
Qed.
End loops.

(** [lua_to_json] on a value at a positive index. *)
Lemma setting_computes fuel idx v w : 0 < idx → slot idx (stack w) = Some v → wf_heap (heap w) →
  computes (lua_to_json objlen fuel idx) w (stack w) (setting_of objlen (table_in (heap w)) fuel v).
Proof.
  revert idx v w. induction fuel as [|fuel IH]; intros idx v w Hi Hs Hw; cbn [lua_to_json setting_of]; [by apply computes_lift|].
  eapply computes_then; [by apply computes_value|]. rewrite with_same. destruct v as [|b|f|x|p|r|o id]; try by apply computes_ret.
  - unfold lua_tostring, lua_tolstring. eapply computes_then; [eapply computes_then; [eapply computes_then; [by apply computes_value|by apply computes_ret]|by apply computes_ret]|]. by apply computes_ret.
  - eapply (computes_then _ _ _ (stack w)); [split; [done|by destruct w]|]. rewrite with_same. set (t := table_in (heap w) r). set (n := i32 (objlen t)).
    assert (0 < idx <= len (stack w)) as Hi' by (destruct (slot_abs _ _ _ Hs) as [H _]; by destruct (Z.ltb_spec 0 idx); [|lia]).
    assert (∀ v l, computes (lua_to_json objlen fuel (len (v :: l ++ stack w))) (with_stack (v :: l ++ stack w) w) (v :: l ++ stack w) (setting_of objlen (table_in (heap w)) fuel v)) as Hsub.
    { intros v l. apply (IH _ v (with_stack (v :: l ++ stack w) w)); [rewrite len_cons; pose proof (len_nonneg (l ++ stack w)); lia| |exact Hw]. cbn [stack with_stack]. unfold slot, place. rewrite len_cons. pose proof (len_nonneg (l ++ stack w)).
      destruct (Z.ltb_spec 0 (1 + len (l ++ stack w))); [|lia]. rewrite Z.leb_refl. cbn [andb mbind option_bind length]. replace (S (length (l ++ stack w)) - Z.to_nat (1 + len (l ++ stack w)))%nat with 0%nat by (unfold len; lia). done. }
    eapply (computes_then _ _ _ (stack w) _ ((0 <? n) && forallb (is_present (t_entries t)) (indices n))).
    { destruct (0 <? n); [by apply present_computes|by apply computes_ret]. }
    rewrite with_same. destruct ((0 <? n) && _).
    + eapply computes_bind; [by apply (elements_computes _ r _ _ (setting_of objlen (table_in (heap w)) fuel))|by exists []|]. intros l _. by apply computes_ret.
    + eapply (computes_then _ _ _ (stack w) _ idx); [unfold lua_abs_index; destruct (Z.ltb_spec 0 idx); [by apply computes_ret|lia]|]. eapply (computes_then _ _ _ (LNil :: stack w)); [by split|].
      eapply computes_bind; [apply (members_computes idx r w _ (setting_of objlen (table_in (heap w)) fuel) Hi' Hs Hw Hsub _ (t_entries t)); [by left|lia]|by exists []|]. intros o _. by apply computes_ret.
Qed.
End computes.

(** ** A setting that is read back *)

(** A value that the conversions keep.  Inside a table nil is no value, an empty
    array is an empty object, a double that is an integer is read as one, an
    integer has to be one of [lua_Integer] and of the doubles. *)
Fixpoint plain_setting `{T : target} (j : json) : Prop :=
  match j with
  | JNull => False
  | JBool _ => True
  | JInt z => Z.abs z < 2 ^ 53 ∧ - 2 ^ (word_bits - 1) <= z < 2 ^ (word_bits - 1)
  | JFloat f => float_int f = None
  | JStr s => x00 ∉ s
  | JArr l => l ≠ [] ∧ len l < 2 ^ 30 ∧ foldr and True (map plain_setting l)
  | JObj o => StronglySorted key_order o.*1 ∧ Forall (λ k, x00 ∉ k) o.*1 ∧ foldr and True (map (λ e, plain_setting e.2) o)
  end.
(** The length of a table with the keys 1 to n is n, that of a table without
    integer keys is 0. *)
Record length_law (objlen : ltable → Z) : Prop := {
  length_sequence es : LNil ∉ es.*2 → es.*1 = (LNum ∘ double_of_Z) <$> indices (len es) → objlen (Table es None) = len es;
  length_strings es ks : es.*1 = LStr <$> ks → objlen (Table es None) = 0;
}.

Lemma float_int_small n : Z.abs n < 2 ^ 53 → float_int (double_of_Z n) = Some n.
Proof.
  intros Hn. unfold double_of_Z. destruct (Z.eqb_spec n 0) as [->|H0]; [done|]. destruct (Z.ltb_spec (Z.abs n) (2 ^ 53)); [|lia]. pose proof (Z.log2_nonneg (Z.abs n)).
  assert (Z.log2 (Z.abs n) < 53) by (apply Z.log2_lt_pow2; lia). set (k := 52 - Z.log2 (Z.abs n)). assert (0 < 2 ^ k) by (apply Z.pow_pos_nonneg; lia). cbn [float_int].
  assert ((if n <? 0 then Z.neg (Z.to_pos (Z.abs n * 2 ^ k)) else Z.pos (Z.to_pos (Z.abs n * 2 ^ k))) = n * 2 ^ k) as ->.
  { destruct (Z.ltb_spec n 0); [change (Z.neg ?p) with (- Z.pos p)|]; rewrite Z2Pos.id by nia; nia. }
  destruct (Z.leb_spec 0 (- k)).
  - replace k with 0 by lia. change (- 0) with 0. rewrite Z.pow_0_r. f_equal. lia.
  - rewrite Z.opp_involutive, Z.mod_mul, Z.div_mul by lia. done.
Qed.
Lemma number_json_int `{T : target} n : Z.abs n < 2 ^ 53 → - 2 ^ (word_bits - 1) <= n < 2 ^ (word_bits - 1) → number_json (double_of_Z n) = JInt n.
Proof. intros Hn Hw. unfold number_json. rewrite float_int_small by done. destruct (Z.leb_spec (- 2 ^ (word_bits - 1)) n); [|lia]. destruct (Z.ltb_spec n (2 ^ (word_bits - 1))); [done|lia]. Qed.

Section roundtrip.
  Context `{T : target}.
  Context {W : Type}.
  Variable objlen : ltable → Z.
  Hypothesis Hlen : length_law objlen.
  Abbreviation M := (SM (host W)).
  (** The value reads as the setting. *)
Definition is_setting (h : gmap positive ltable) (v : lval) (j : json) : Prop :=
  v ≠ LNil ∧ ∀ fuel, (nest j < fuel)%nat → setting_of objlen (table_in h) fuel v = Ok j.

Lemma settings_items (sub : lval → outcome json) vs l : Forall2 (λ v j, sub v = Ok j) vs l → setting_items sub vs = Ok l.
Proof. induction 1 as [|v j vs l H _ IH]; cbn [setting_items]; [done|]. rewrite H. cbn [mbind outcome_bind]. by rewrite IH. Qed.
Lemma settings_members (sub : lval → outcome json) vs (o acc : list (bytes * json)) :
  Forall2 (λ v (e : bytes * json), sub v = Ok e.2) vs o → StronglySorted key_order (acc.*1 ++ o.*1) → Forall (λ k, x00 ∉ k) o.*1 →
  setting_members sub (zip (LStr <$> o.*1) vs) acc = Ok (acc ++ o).
Proof.
  intros HF. revert acc. induction HF as [|v [k j] vs o H _ IH]; intros acc Hs Hk; cbn; [by rewrite app_nil_r|]. cbn in H, Hs, Hk. apply Forall_cons in Hk as [Hk0 Hk]. rewrite (upto_nul_plain k) by done. rewrite H. cbn [mbind outcome_bind].
  rewrite obj_insert_last.
  - rewrite IH; [by rewrite <- app_assoc| |done]. rewrite fmap_app. cbn. by rewrite <- app_assoc.
  - apply StronglySorted_app in Hs as (Hs & _ & _). rewrite Forall_forall. intros k' Hk'. apply Hs; [done|left].
Qed.
Lemma settings_fuel h vs l fuel : Forall2 (is_setting h) vs l → (∀ j, j ∈ l → (nest j < fuel)%nat) →
  Forall2 (λ v j, setting_of objlen (table_in h) fuel v = Ok j) vs l ∧ LNil ∉ vs.
Proof.
  induction 1 as [|v j vs l [Hv Hr] _ IH]; intros Hn; [split; [constructor|apply not_elem_of_nil]|]. destruct IH as [IH1 IH2]; [intros x Hx; apply Hn; by right|].
  split; [constructor; [apply Hr, Hn; left|done]|]. intros [E|?]%elem_of_cons; [by apply Hv|done].
Qed.
Lemma setting_array h r vs l : l ≠ [] → len l < 2 ^ 30 → table_in h r = Table (zip ((LNum ∘ double_of_Z) <$> indices (len l)) vs) None →
  Forall2 (is_setting h) vs l → is_setting h (LTable r) (JArr l).
Proof.
  intros Hne Hl Er HF. split; [done|]. intros [|fuel] Hf; [lia|]. cbn [setting_of]. rewrite Er. cbn [t_entries]. pose proof (Forall2_length _ _ _ HF) as Hvl. pose proof (length_indices_len l) as Hil.
  destruct (settings_fuel h vs l fuel HF) as [HF' Hn]; [intros j Hj; pose proof (nest_in l j Hj); cbn [nest] in Hf; lia|].
  assert (len (zip ((LNum ∘ double_of_Z) <$> indices (len l)) vs) = len l) as Hz by (unfold len at 1; rewrite length_zip, length_fmap, Hil, Hvl; unfold len; lia).
  rewrite (length_sequence _ Hlen), Hz; [|rewrite snd_zip; [done|rewrite length_fmap; lia]|rewrite Hz; apply fst_zip; rewrite length_fmap; lia].
  assert (0 < len l) by (destruct l; [done|rewrite len_cons; pose proof (len_nonneg l); lia]). replace (i32 (len l)) with (len l) by (unfold i32; rewrite Z.mod_small; lia).
  destruct (Z.ltb_spec 0 (len l)); [|lia]. pose proof (raw_get_all vs (len l) ltac:(unfold len; by rewrite Hvl) Hl) as Hr. assert (forallb (is_present (zip ((LNum ∘ double_of_Z) <$> indices (len l)) vs)) (indices (len l)) = true) as ->.
  { apply forallb_forall. intros i Hi. unfold is_present. rewrite bool_decide_false; [done|]. intros E. apply Hn. rewrite <- E. apply list_elem_of_In in Hi. rewrite <- Hr at 2. by apply (list_elem_of_fmap_2 (λ i, raw_get (LNum (double_of_Z i)) (zip ((LNum ∘ double_of_Z) <$> indices (len l)) vs))). }
  cbn [andb]. rewrite Hr, (settings_items _ _ _ HF'). done.
Qed.
Lemma setting_object h r vs o : StronglySorted key_order o.*1 → Forall (λ k, x00 ∉ k) o.*1 → table_in h r = Table (zip (LStr <$> o.*1) vs) None →
  Forall2 (λ v (e : bytes * json), is_setting h v e.2) vs o → is_setting h (LTable r) (JObj o).
Proof.
  intros Hs Hk Er HF. split; [done|]. intros [|fuel] Hf; [lia|]. cbn [setting_of]. rewrite Er. cbn [t_entries]. pose proof (Forall2_length _ _ _ HF) as Hvl.
  rewrite (length_strings _ Hlen _ o.*1) by (apply fst_zip; rewrite !length_fmap; lia). change (i32 0) with 0. cbn [Z.ltb Z.compare andb].
  rewrite (settings_members _ vs o []); [done| |done|done]. assert (∀ e, e ∈ o → (nest e.2 < fuel)%nat) as Hn.
  { intros e He. assert (nest e.2 <= max_list (map (λ e, nest e.2) o))%nat; [|cbn [nest] in Hf; lia]. apply max_list_elem_of_le. by apply (list_elem_of_fmap_2 (λ e : bytes * json, nest e.2)). }
  clear Er Hs Hk Hf Hvl. induction HF as [|v e vs o [_ Hv] _ IH]; constructor; [apply Hv, Hn; left|]. apply IH. intros x Hx. apply Hn. by right.
Qed.
Lemma setting_pushes j : plain_setting j → pushes is_setting (push_json_value j : M ()) j.
Proof.
  induction j as [|b|z|f|s|l IH|o IH] using json_nested_ind; intros Hp; cbn [push_json_value]; [done| | | | | |].
  1-4: eapply scalar_pushes; [reflexivity|done|]; intros h; split; [done|]; intros [|fuel] Hf; [lia|]; cbn [setting_of].
  - done.
  - cbn in Hp. destruct Hp as [Hz Hw]. by rewrite to_lua_Integer_same, number_json_int by done.
  - unfold number_json. cbn in Hp. by rewrite Hp.
  - by rewrite upto_nul_plain.
  - destruct Hp as (Hne & Hl & Hp). rewrite all_of in Hp. pose proof (length_indices_len l) as Hil.
    assert ((zip ((LNum ∘ double_of_Z) <$> indices (len l)) l).*1 = (LNum ∘ double_of_Z) <$> indices (len l)) as Hfst by (apply fst_zip; rewrite length_fmap; lia).
    apply (table_pushes is_setting _ _ (zip ((LNum ∘ double_of_Z) <$> indices (len l)) l)).
    + apply array_stores; [done|]. rewrite Forall_forall in IH, Hp |- *. intros j Hj. apply IH; [done|by apply Hp].
    + rewrite Hfst. by apply indices_nodup.
    + rewrite Hfst. by intros (x & [=] & _)%list_elem_of_fmap.
    + intros h r vs Er HF. rewrite Hfst in Er. apply (setting_array h r vs); [done|done|unfold table_in; by rewrite Er|].
      rewrite <- (snd_zip ((LNum ∘ double_of_Z) <$> indices (len l)) l) by (rewrite length_fmap; lia). by apply Forall2_fmap_r.
  - destruct Hp as (Hs & Hk & Hp). rewrite all_of in Hp.
    assert ((((λ e, (LStr e.1, e.2)) <$> o) : list (lval * json)).*1 = LStr <$> o.*1) as Hfst by (by rewrite <- !list_fmap_compose).
    apply (table_pushes is_setting _ _ ((λ e, (LStr e.1, e.2)) <$> o)).
    + apply Forall2_fmap_2. apply Forall_Forall2_diag. rewrite Forall_forall in IH. rewrite Forall_forall in Hp. rewrite Forall_forall. intros e He. apply stores_rawset. apply IH; [done|by apply Hp].
    + rewrite Hfst. apply NoDup_fmap; [by intros a b [=]|]. by apply sorted_nodup.
    + rewrite Hfst. by intros (x & [=] & _)%list_elem_of_fmap.
    + intros h r vs Er HF. rewrite Hfst in Er. apply (setting_object h r vs); [done|done|unfold table_in; by rewrite Er|]. by apply named_values in HF.
Qed.
End roundtrip.

(** ** The calls *)

Section calls.
  Context `{T : target}.
  Context {W : Type}.
  Variable objlen : ltable → Z.
  Variable call : bytes → json → W → outcome json * W.
  Abbreviation M := (SM (host W)).
  Implicit Types w : host W.

Lemma run_of_computes {A} (m : M A) w st (a : A) : computes m w st (Ok a) → m w = (Ok a, with_stack st w).
Proof. unfold computes. destruct (m w) as [[b|e| |] w']; [|by intros [? _]|done|done]. by intros [[= ->] ->]. Qed.
Lemma checkstring_run w key idx : slot idx (stack w) = Some (LStr key) → luaL_checkstring idx w = (Ok (upto_nul key), w).
Proof.
  intros Hs. assert (∀ w, slot idx (stack w) = Some (LStr key) → value_at idx w = (Ok (LStr key), w)) as Hv by (intros w0 H0; unfold value_at; fold (slot idx (stack w0)); by rewrite H0).
  unfold luaL_checkstring, on_stack. rewrite bind_run. cbn [gets]. rewrite Hs, bool_decide_true by (by eexists). cbn [negb]. rewrite bind_run, (Hv w Hs). cbn [lua_isstring].
  unfold lua_tostring, lua_tolstring. rewrite !bind_run, (Hv w Hs). done.
Qed.
Lemma slot_bottom l v : slot 1 (l ++ [v]) = Some v.
Proof. rewrite slot_app by (unfold len; cbn; lia). done. Qed.

End calls.

(** ** Callbacks *)

Section dispatch.
  Context `{T : target}.
  Context {W : Type}.
  Variable run : lval → list lval → host W → (lval + lval) * host W.
  Variable rehashed : list (Z * config_callback) → list (Z * config_callback) → bool.
  Abbreviation M := (SM (host W)).
  Implicit Types w : host W.

(** Pushes a value and changes the heap only, whose tables stay sound. *)
Definition pushes_some (m : M ()) : Prop := ∀ w, ∃ v h', m w = (Ok tt, with_stack (v :: stack w) (with_heap h' w)) ∧ (wf_heap (heap w) → wf_heap h').
Lemma store_any idx k v r l st w : stack w = v :: l ++ LTable r :: st → slot idx (stack w) = Some (LTable r) → k ≠ LNil →
  ∃ h', store_top idx k w = (Ok tt, with_stack (l ++ LTable r :: st) (with_heap h' w)) ∧ (wf_heap (heap w) → wf_heap h').
Proof.
  intros Es Hs Hk. eexists. split; [|intros Hw; apply wf_insert, raw_set_wf; [exact Hw|exact Hk|apply Hw]]. unfold store_top, table_at. rewrite !bind_run. unfold value_at at 1. fold (slot idx (stack w)). rewrite Hs, ret_run, bind_run. unfold value_at. fold (slot (-1) (stack w)). rewrite Es, slot_top, bind_run.
  unfold modify, lua_pop. cbn [stack with_heap]. rewrite Es. cbn [length Nat.ltb Nat.leb drop]. reflexivity.
Qed.
(** Stores it in the table at the top. *)
Definition stores_some (m : M ()) : Prop := ∀ w r st, stack w = LTable r :: st → ∃ h', m w = (Ok tt, with_heap h' w) ∧ (wf_heap (heap w) → wf_heap h').
Lemma stores_some_top m k : k ≠ LNil → pushes_some m → stores_some (_ ← m; store_top (-2) k).
Proof.
  intros Hk Hm w r st Es. destruct (Hm w) as (v & h1 & E & H1). rewrite bind_run, E. destruct (store_any (-2) k v r [] st (with_stack (v :: stack w) (with_heap h1 w))) as (h2 & E2 & H2); [cbn; by rewrite Es|cbn; rewrite Es; apply slot_second|done|].
  exists h2. split; [|intros Hw; apply H2, H1, Hw]. rewrite E2. cbn [app]. by rewrite <- Es.
Qed.
Lemma stores_some_rawset m k : k ≠ LNil → pushes_some m → stores_some (_ ← push k; _ ← m; lua_rawset (-3)).
Proof.
  intros Hk Hm w r st Es. destruct (Hm (with_stack (k :: stack w) w)) as (v & h1 & E & H1). rewrite bind_run. unfold push, modify. rewrite bind_run, E. unfold lua_rawset. rewrite bind_run. unfold value_at.
  set (w2 := with_stack _ (with_heap h1 _)). fold (slot (-2) (stack w2)). change (stack w2) with (v :: k :: stack w). rewrite slot_second, bind_run.
  destruct (store_any (-3) k v r [k] st w2) as (h2 & E2 & H2); [cbn; by rewrite Es| |done|].
  - change (stack w2) with (v :: k :: stack w). rewrite Es. unfold slot, place. rewrite !len_cons. pose proof (len_nonneg st). destruct (Z.ltb_spec 0 (-3)); [lia|]. cbn [andb]. destruct (Z.leb_spec (- -3) (1 + (1 + (1 + len st)))); [done|lia].
  - exists h2. split; [|intros Hw; apply H2, H1, Hw]. rewrite E2. unfold lua_pop. cbn [stack with_stack app length Nat.ltb Nat.leb drop]. by rewrite <- Es.
Qed.
Lemma run_all_some ms : Forall stores_some ms → stores_some (run_all ms).
Proof.
  induction 1 as [|m ms Hm _ IH]; intros w r st Es; cbn [run_all]; [exists (heap w); by destruct w|]. destruct (Hm w r st Es) as (h1 & E & H1). rewrite bind_run, E. destruct (IH (with_heap h1 w) r st Es) as (h2 & E2 & H2). exists h2. split; [done|]. intros Hw. apply H2, H1, Hw.
Qed.
Lemma table_some ms : Forall stores_some ms → pushes_some (_ ← lua_createtable; run_all ms).
Proof.
  intros Hm w. rewrite bind_run. unfold lua_createtable at 1. set (r := fresh _). set (w0 := with_stack (LTable r :: stack w) _). destruct (run_all_some ms Hm w0 r (stack w) eq_refl) as (h' & E & H'). exists (LTable r), h'. split; [by rewrite E|]. intros Hw. apply H'. apply wf_insert; [done|]. split; [constructor|apply not_elem_of_nil].
Qed.
Lemma push_value_some j : pushes_some (push_json_value j).
Proof.
  induction j as [|b|z|f|s|l IH|o IH] using json_nested_ind; cbn [push_json_value]; try (by intros w; eexists _, (heap w); split; [reflexivity|]).
  - apply table_some. generalize (indices (len l)). induction IH as [|x l Hx _ IHl]; intros [|k ks]; cbn; constructor; [by apply stores_some_top|apply IHl].
  - apply table_some. induction IH as [|e o He _ IHo]; cbn; constructor; [by apply stores_some_rawset|done].
Qed.

  (** The map is rebuilt only when it changes. *)
  Hypothesis Hsame : ∀ l, rehashed l l = false.
Lemma tostring_top w x st : stack w = x :: st → ∃ s y, lua_tostring (-1) w = (Ok s, with_stack (y :: st) w).
Proof.
  intros Es. assert (value_at (-1) w = (Ok x, w)) as Hv by (unfold value_at; fold (slot (-1) (stack w)); by rewrite Es, slot_top).
  assert (place (-1) (stack w) = Some 0%nat) as Hp by (rewrite Es; unfold place; rewrite len_cons; pose proof (len_nonneg st); destruct (Z.ltb_spec 0 (-1)); [lia|]; cbn [andb]; destruct (Z.leb_spec (- -1) (1 + len st)); [done|lia]).
  unfold lua_tostring, lua_tolstring. rewrite !bind_run, Hv. destruct x; try (eexists _, _; rewrite !ret_run; rewrite <- Es; by destruct w).
  rewrite bind_run. unfold modify. rewrite Hp, Es, !ret_run. by eexists _, _.
Qed.
Lemma call_back_run cb key value w : ∃ w' f args w1, call_back run cb key value w = (Ok tt, w') ∧ stack w' = stack w ∧
  g_config_callbacks w1 = g_config_callbacks w ∧ g_config_callbacks w' = g_config_callbacks (run f args w1).2 ∧
  ((∀ f args w, wf_heap (heap w) → wf_heap (heap (run f args w).2)) → wf_heap (heap w) → wf_heap (heap w')).
Proof.
  unfold call_back, push_ref. rewrite !bind_run. cbn [gets]. unfold push at 1, modify. rewrite bind_run. unfold push at 1, modify. rewrite bind_run. set (f := default LNil _). set (k := LStr (upto_nul key)).
  destruct (push_value_some value (with_stack (k :: f :: stack w) w)) as (v & h' & E & Hh'). change (with_stack (k :: stack (with_stack (f :: stack w) w)) (with_stack (f :: stack w) w)) with (with_stack (k :: f :: stack w) w). rewrite E.
  rewrite bind_run. unfold lua_pcall. cbn [stack with_stack with_heap lookup list_lookup take drop]. set (w1 := with_stack (v :: k :: f :: stack w) _). set (args := reverse [v; k]).
  change ((v :: k :: f :: stack w) !! 2%nat) with (Some f). cbv beta iota. assert ((∀ f args w, wf_heap (heap w) → wf_heap (heap (run f args w).2)) → wf_heap (heap w) → wf_heap (heap (run f args w1).2)) as Hwf by (intros Hp Hw; apply Hp, Hh', Hw).
  assert (∀ w', g_config_callbacks w' = g_config_callbacks (run f args w1).2 → stack w' = stack w → heap w' = heap (run f args w1).2 →
    ∃ w'' f args w1, (Ok tt : outcome (), w') = (Ok tt, w'') ∧ stack w'' = stack w ∧ g_config_callbacks w1 = g_config_callbacks w ∧ g_config_callbacks w'' = g_config_callbacks (run f args w1).2 ∧
      ((∀ f args w, wf_heap (heap w) → wf_heap (heap (run f args w).2)) → wf_heap (heap w) → wf_heap (heap w''))) as Hend.
  { intros w' Hc Hst Hh. exists w', f, args, w1. by rewrite Hh. }
  destruct (run f args w1) as [[x|x] w2]; cbn [snd] in Hwf, Hend.
  - by apply Hend.
  - rewrite bind_run. set (w3 := with_stack (x :: _) w2). destruct (tostring_top w3 x (stack w) eq_refl) as (s & y & Es). rewrite Es, bind_run. by apply Hend.
Qed.

(** The callbacks that are called, one after the other. *)
Definition called_back (key : bytes) (value : json) (l : list config_callback) (w : host W) : host W := foldl (λ w cb, (call_back run cb key value w).2) w l.
Definition concerned (key : bytes) (w : host W) : list config_callback := filter (λ cb, concerns key cb = true) (g_config_callbacks w).*2.
(** One of the callbacks is the first to change what is registered. *)
Definition callback_changes (key : bytes) (value : json) (w : host W) : Prop := ∃ l cb l', concerned key w = l ++ cb :: l' ∧
  g_config_callbacks (called_back key value l w) = g_config_callbacks w ∧ g_config_callbacks (called_back key value (l ++ [cb]) w) ≠ g_config_callbacks w.
Lemma after_id_middle id cb (l rest : list (Z * config_callback)) : NoDup (l ++ (id, cb) :: rest).*1 → after_id id (l ++ (id, cb) :: rest) = Some rest.
Proof.
  intros Hd. induction l as [|[id' cb'] l IHl]; cbn [app after_id fst]; [by rewrite Z.eqb_refl|]. cbn in Hd. apply NoDup_cons in Hd as [Hn Hd].
  destruct (Z.eqb_spec id' id) as [->|]; [|by apply IHl]. exfalso. apply Hn. rewrite fmap_app. apply elem_of_app. right. left.
Qed.

Section sound.
  Hypothesis Hrun : ∀ f args w, wf_heap (heap w) → wf_heap (heap (run f args w).2).
(** Whatever the callbacks do, no exception leaves the loop. *)
Lemma dispatch_loop_any fuel key value rest w : wf_heap (heap w) →
  match dispatch_loop run rehashed fuel key value rest w with
  | (Ok _, w') => stack w' = stack w ∧ wf_heap (heap w')
  | (Throw _, _) => False
  | _ => True
  end.
Proof.
  revert rest w. induction fuel as [|fuel IH]; intros rest w Hw; cbn [dispatch_loop]; [done|]. destruct rest as [|[id cb] rest]; [done|]. rewrite bind_run. cbn [gets]. rewrite bind_run.
  assert (∃ w', (if concerns key cb then call_back run cb key value else mret tt) w = (Ok tt, w') ∧ stack w' = stack w ∧ wf_heap (heap w')) as (w' & -> & Es & Hw').
  { destruct (concerns key cb); [|by exists w]. destruct (call_back_run cb key value w) as (w' & f & args & w1 & E & Es & _ & _ & Hh). exists w'. by auto. }
  rewrite bind_run. cbn [gets]. destruct (rehashed _ _); [done|]. destruct (after_id id _) as [rest'|]; [|done]. specialize (IH rest' w' Hw'). by rewrite Es in IH.
Qed.
Lemma dispatch_any key value w : wf_heap (heap w) → NoDup (g_config_callbacks w).*1 →
  match dispatch_config_change run rehashed (S (length (g_config_callbacks w))) key value w with
  | (Ok _, w') => stack w' = stack w ∧ wf_heap (heap w')
  | (Throw _, _) => False
  | _ => callback_changes key value w
  end.
Proof.
  intros Hw Hd. unfold dispatch_config_change. rewrite bind_run. cbn [gets]. assert (∀ rest l fuel, (length rest < fuel)%nat → g_config_callbacks w = l ++ rest →
    let w' := called_back key value (filter (λ cb, concerns key cb = true) l.*2) w in g_config_callbacks w' = g_config_callbacks w → stack w' = stack w → wf_heap (heap w') →
    match dispatch_loop run rehashed fuel key value rest w' with (Ok _, w2) => stack w2 = stack w ∧ wf_heap (heap w2) | (Throw _, _) => False | _ => callback_changes key value w end) as H;
    [|by apply (H _ []); [lia|..]].
  induction rest as [|[id cb] rest IH]; intros l fuel Hf El w' Ec Es Hw'; (destruct fuel as [|fuel]; [cbn in Hf; lia|]); cbn [dispatch_loop]; [done|]. rewrite bind_run. cbn [gets]. rewrite bind_run.
  assert (after_id id (g_config_callbacks w) = Some rest) as Ha by (rewrite El in Hd |- *; by apply (after_id_middle id cb)).
  specialize (IH (l ++ [(id, cb)]) fuel ltac:(cbn in Hf; lia) ltac:(by rewrite <- app_assoc)). rewrite fmap_app, filter_app in IH. cbn [fmap list_fmap snd] in IH. destruct (concerns key cb) eqn:Ek.
  - rewrite (filter_cons_True _ cb), filter_nil in IH by done. unfold called_back in IH. rewrite foldl_app in IH. cbn [foldl] in IH. fold (called_back key value (filter (λ cb, concerns key cb = true) l.*2) w) in IH. fold w' in IH.
    destruct (call_back_run cb key value w') as (w2 & f & args & w1 & E & Es2 & _ & _ & Hw2). rewrite E in IH |- *. cbn [snd] in IH. rewrite bind_run. cbn [gets]. specialize (Hw2 Hrun Hw'). destruct (decide (g_config_callbacks w2 = g_config_callbacks w)) as [E2|Hne].
    + rewrite E2, Ec, Hsame, Ha. apply IH; [done|by rewrite Es2|done].
    + assert (callback_changes key value w) as Hch.
      { exists (filter (λ cb, concerns key cb = true) l.*2), cb, (filter (λ cb, concerns key cb = true) rest.*2). unfold concerned. split; [|split; [exact Ec|]].
        - rewrite El, fmap_app, filter_app. cbn [fmap list_fmap snd]. by rewrite (filter_cons_True _ cb).
        - unfold called_back. rewrite foldl_app. cbn [foldl]. fold (called_back key value (filter (λ cb, concerns key cb = true) l.*2) w). fold w'. by rewrite E. }
      destruct (rehashed _ _); [done|]. destruct (after_id id (g_config_callbacks w2)) as [rest'|]; [|done]. pose proof (dispatch_loop_any fuel key value rest' w2 Hw2) as H. rewrite Es2, Es in H. by destruct (dispatch_loop run rehashed fuel key value rest' w2) as [[?|?| |] ?].
  - rewrite (filter_cons_False _ cb), filter_nil, app_nil_r in IH by (by rewrite Ek). fold w' in IH. rewrite ret_run, bind_run. cbn [gets]. rewrite Hsame, Ec, Ha. by apply IH.
Qed.
End sound.

(** A changed setting is announced to every callback that concerns it, once and
    in order, whatever they return or raise, and the stack is left as it was: for
    Lua code that leaves the registered callbacks alone. *)
Theorem config_change_announced key value w : (∀ f args w, g_config_callbacks (run f args w).2 = g_config_callbacks w) → NoDup (g_config_callbacks w).*1 →
  dispatch_config_change run rehashed (S (length (g_config_callbacks w))) key value w = (Ok tt, called_back key value (concerned key w) w) ∧
  stack (called_back key value (concerned key w) w) = stack w.
Proof.
  intros Hrun Hd. unfold dispatch_config_change, concerned, called_back. rewrite bind_run. cbn [gets]. assert (∀ rest fuel w', g_config_callbacks w' = g_config_callbacks w → (length rest < fuel)%nat → (∃ l, g_config_callbacks w = l ++ rest) →
    dispatch_loop run rehashed fuel key value rest w' = (Ok tt, foldl (λ w cb, (call_back run cb key value w).2) w' (filter (λ cb, concerns key cb = true) rest.*2)) ∧
    stack (foldl (λ w cb, (call_back run cb key value w).2) w' (filter (λ cb, concerns key cb = true) rest.*2)) = stack w') as H; [|apply H; [done|lia|by exists []]].
  induction rest as [|[id cb] rest IH]; intros fuel w' Hw Hf [l El]; (destruct fuel as [|fuel]; [lia|]); cbn [dispatch_loop]; [done|].
  assert (after_id id (g_config_callbacks w) = Some rest) as Ha by (rewrite El in Hd |- *; by apply (after_id_middle id cb)).
  rewrite bind_run. cbn [gets]. rewrite bind_run. cbn [fmap list_fmap fst snd]. destruct (concerns key cb) eqn:Ec.
  - rewrite (filter_cons_True _ cb) by done. cbn [foldl]. destruct (call_back_run cb key value w') as (w2 & f & args & w1 & E & Es & Ec1 & Ec2 & _). assert (g_config_callbacks w2 = g_config_callbacks w') as Ecb by (by rewrite Ec2, Hrun).
    rewrite E. cbn [fst snd]. rewrite bind_run. cbn [gets]. rewrite Ecb, Hsame, Hw, Ha.
    destruct (IH fuel w2) as [H1 H2]; [by rewrite Ecb|cbn in Hf; lia|exists (l ++ [(id, cb)]); by rewrite <- app_assoc|]. split; [exact H1|]. by rewrite H2.
  - rewrite (filter_cons_False _ cb) by (by rewrite Ec). rewrite ret_run, bind_run. cbn [gets]. rewrite Hsame, Hw, Ha. apply IH; [done|cbn in Hf; lia|]. exists (l ++ [(id, cb)]). by rewrite <- app_assoc.
Qed.
End dispatch.

(** ** Examples, in the Linux build *)

#[local] Existing Instance target32.

Definition is_num (v : lval) : bool := match v with LNum _ => true | _ => false end.
Definition objlen0 (t : ltable) : Z := if forallb is_num (t_entries t).*1 then len (t_entries t) else 0.
Lemma objlen0_law : length_law objlen0.
Proof.
  split; intros es.
  - intros _ Hk. unfold objlen0. cbn [t_entries]. rewrite Hk. replace (forallb is_num _) with true; [done|]. symmetry. apply forallb_forall. intros v (i & <- & _)%in_map_iff. done.
  - intros [|k ks] Hk; unfold objlen0; cbn [t_entries]; rewrite Hk; [|done]. cbn. by destruct es.
Qed.
Definition setting0 : json := jobj [(#"a", JArr [JInt 1; JStr #"x"]); (#"b", JObj [])].
Lemma plain_setting0 : plain_setting setting0.
Proof. cbn. repeat split; repeat constructor; try done; try (by vm_compute); by apply not_elem_of_nil || (apply (bool_decide_unpack _); by vm_compute). Qed.
Definition call0 (method : bytes) (params : json) (x : ()) : outcome json * () := (Ok (jobj [(#"value", setting0)]), x).
Definition frame0 : host () := with_stack [LStr #"key"] host0.

(** The first callback is for every key and fails, the second for another key. *)
Definition run0 (f : lval) (args : list lval) (w : host ()) : (lval + lval) * host () := (inr (LStr #"oops"), w).
Definition watched0 : host () := with_callbacks [(0, Callback 7 []); (1, Callback 8 #"other"); (2, Callback 9 #"k")] 3 host0.
Lemma config_change_announced_witness :
  (dispatch_config_change run0 (λ _ _, false) 4 #"k" (JInt 1) watched0).1 = Ok tt ∧
  logged (dispatch_config_change run0 (λ _ _, false) 4 #"k" (JInt 1) watched0).2 =
    [(#"config on_change callback error", Some #"oops"); (#"config on_change callback error", Some #"oops")].
Proof.
  destruct (config_change_announced run0 (λ _ _, false) (λ _, eq_refl) #"k" (JInt 1) watched0 (λ _ _ _, eq_refl)) as [E _]; [apply (bool_decide_unpack _); by vm_compute|].
  change (S (length (g_config_callbacks watched0))) with 4%nat in E. rewrite E. split; [reflexivity|]. vm_compute. reflexivity.
Defined.

(** A callback that removes itself leaves the loop with an iterator to nothing. *)
Definition run_unsubscribe (f : lval) (args : list lval) (w : host ()) : (lval + lval) * host () := (inl LNil, (unsubscribe 0 w).2).
Theorem unsubscribe_in_callback_undefined : (dispatch_config_change run_unsubscribe (λ _ _, false) 4 #"k" (JInt 1) watched0).1 = UB.
Proof. vm_compute. reflexivity. Qed.
(** A table that contains itself is followed without end. *)
Definition cyclic0 : store := λ _, Table [(LStr #"t", LTable 1%positive)] None.
Theorem cyclic_setting_never_ends fuel : setting_of objlen0 cyclic0 fuel (LTable 1%positive) = NoFuel.
Proof.
  induction fuel as [|fuel IH]; [done|]. cbn [setting_of]. change (i32 (objlen0 (cyclic0 1%positive))) with 0. cbn [Z.ltb Z.compare andb]. change (t_entries (cyclic0 1%positive)) with [(LStr #"t", LTable 1%positive)].
  cbn [setting_members setting_key fst snd mbind outcome_bind]. by rewrite IH.
Qed.
(** Null inside a value is lost: the array ends before it. *)
Example null_in_array_lost : (lua_to_json objlen0 3 1 (push_json_value (JArr [JInt 1; JNull]) host0).2).1 = Ok (JArr [JInt 1]).
Proof. vm_compute. reflexivity. Qed.

(** A number that needs more than 32 bits is another number for the plugin, and
    that is what it writes back: here a time in milliseconds. *)
Theorem large_setting_changed : (lua_to_json objlen0 1 1 (push_json_value (JInt 1700000000000) host0).2).1 = Ok (JInt (-807049216)).
Proof. vm_compute. reflexivity. Qed.
