(* ===== verification/LuaHost.v ===== *)
(** * LuaHost: the process of a plugin

    What [lua_host/main.cc] does around the Lua interpreter of [LuaVm]: the
    packed files of a plugin, its definition and patches, and the requests of
    the host, of which [Rpc] models the transport.

    Parameters stand for Lua code, the call to the host, the size of a value on
    the wire (MessagePack) and the memory in use. *)

From Stdlib Require Import SpecFloat.
From stdpp Require Import sorting.
From S2P Require Import Prelude State Json Frames NumText LuaEncode LuaRoundTrip LuaVm LuaTables LuaConfig.

(** ** Packed plugins *)

Definition SHIM_MAX_SIZE : Z := 4 * 1024 * 1024.
(** [parse_lua_shim] of the content of a file; empty when there is none. *)
Definition parse_lua_shim (file : option bytes) : bytes :=
  match file with
  | Some (b0 :: b1 :: b2 :: b3 :: rest) =>
      let shim_len := Z.lor (Z.lor (b2z b0) (Z.shiftl (b2z b1) 8)) (Z.lor (Z.shiftl (b2z b2) 16) (Z.shiftl (b2z b3) 24)) in
      if (shim_len =? 0) || (SHIM_MAX_SIZE <? shim_len) then [] else
      if len rest <? shim_len then [] else take (Z.to_nat shim_len) rest
  | _ => []
  end.

(** A path of [std::filesystem]: whether it is absolute, and its names; the last
    one is empty after a slash. *)
Fixpoint names_of (s acc : bytes) : list bytes :=
  match s with
  | [] => [acc]
  | c :: s => if beqb c "/" then match acc with [] => names_of s [] | _ => acc :: names_of s [] end else names_of s (acc ++ [c])
  end.
Definition absolute (s : bytes) : bool := match s with c :: _ => beqb c "/" | [] => false end.
Definition path_names (s : bytes) : list bytes := match names_of s [] with [ [] ] => [] | l => l end.
Definition parent_path (l : list bytes) : list bytes := take (length l - 1) l.
Fixpoint strip_common (a b : list bytes) : list bytes * list bytes :=
  match a, b with
  | x :: a', y :: b' => if bytes_eqb x y then strip_common a' b' else (a, b)
  | _, _ => (a, b)
  end.
Definition ups (l : list bytes) : Z :=
  foldl (λ n x, if bytes_eqb x #".." then n - 1 else if bytes_eqb x [] || bytes_eqb x #"." then n else n + 1) 0 l.
(** [lexically_relative] of two paths that are both relative or both absolute. *)
Definition lexically_relative (p base : list bytes) : list bytes :=
  let '(a, b) := strip_common p base in
  match a, b with
  | [], [] => [ #"."]
  | _, _ =>
      let n := ups b in
      if (n =? 0) && match a with [] => true | x :: _ => bytes_eqb x [] end then [ #"."] else
      if n <? 0 then [] else replicate (Z.to_nat n) #".." ++ a
  end.
(** [replace_extension()]: what follows the last dot goes, unless the name begins
    with it. *)
Definition without_extension (name : bytes) : bytes :=
  if bytes_eqb name #"." || bytes_eqb name #".." then name else
  match rfind_char "."%byte name with Some (S i) => take (S i) name | _ => name end.
Fixpoint dotted (parts : list bytes) : option bytes :=
  match parts with
  | [] => Some []
  | s :: parts =>
      if bytes_eqb s [] || bytes_eqb s #"." || bytes_eqb s #".." then None else
      rest ← dotted parts; Some (match rest with [] => s | _ => s ++ #"." ++ rest end)
  end.
(** The name a packed file has for [require]; empty when it is not below the
    directory of the entry file. *)
Definition lua_name_from_path (backend_entry packed_name : bytes) : bytes :=
  if negb (Bool.eqb (absolute backend_entry) (absolute packed_name)) then [] else
  let rel := lexically_relative (path_names packed_name) (parent_path (path_names backend_entry)) in
  default [] (dotted (match last rel with Some l => take (length rel - 1) rel ++ [without_extension l] | None => [] end)).

Example module_of_file : lua_name_from_path #"backend/main.lua" #"backend/util/text.lua" = #"util.text".
Proof. reflexivity. Qed.
Example no_module_outside : lua_name_from_path #"backend/main.lua" #"other/text.lua" = [].
Proof. reflexivity. Qed.

(** ** Requests *)

Definition failed (error : bytes) : json := jobj [(#"success", JBool false); (#"error", JStr error)].
Definition returned (value : json) (value_type : bytes) : json := jobj [(#"success", JBool true); (#"value", value); (#"value_type", JStr value_type)].
Definition kMaxReturnValueSize : Z := MAX_FRAME_SIZE / 2.
Definition too_large (size : Z) : bytes :=
  #"return value too large (" ++ dec (Z.to_N size) ++ #" bytes, limit " ++ dec (Z.to_N kMaxReturnValueSize) ++ #" bytes)".
Definition ok_result (b : bool) : json := jobj [(#"ok", JBool b)].
Definition plugin_definition : bytes := #"MILLENNIUM_PLUGIN_DEFINITION".

Section host.
  Context `{T : target}.
  Context {W : Type}.
  Variable index_field : ltable → bytes → host W → (lval + lval) * host W.
  Variable index_global : bytes → host W → (lval + lval) * host W.
  Variable string_lib : bytes → lval.
  Variable run : lval → list lval → host W → (lval + lval) * host W.
  Variable wire_size : json → Z.
  Variable objlen : ltable → Z.
  Variable call : bytes → json → W → outcome json * W.
  Variable rehashed : list (Z * config_callback) → list (Z * config_callback) → bool.
  (** [LUA_GCCOUNT] and [LUA_GCCOUNTB] *)
  Variables heap_kb heap_extra : Z.
  (** [g_plugin_name] *)
  Variable plugin_name : bytes.
  Abbreviation M := (SM (host W)).

(** An argument of the frontend. *)
Definition push_argument (arg : json) : M () :=
  match arg with
  | JStr s => push (LStr (upto_nul s))
  | JBool b => push (LBool b)
  | JInt z => push (LNum (double_of_Z (to_lua_Integer z)))
  | JFloat f => push (LNum f)
  | JObj _ | JArr _ => push_json_as_lua arg 0
  | JNull => push LNil
  end.
(** The function named, and its table when it is a method, are pushed: the number
    of arguments that adds. *)
Definition find_function (methodName : bytes) : M (bytes + nat) :=
  match find_char ":"%byte methodName with
  | Some colonPos =>
      let tableName := take colonPos methodName in
      let funcName := drop (S colonPos) methodName in
      _ ← lua_getglobal index_global (upto_nul tableName);
      t ← value_at (-1);
      if negb (is_table t) then _ ← lua_pop 1; mret (inl (#"table not found: " ++ tableName)) else
      _ ← lua_getfield index_field string_lib (-1) (upto_nul funcName);
      f ← value_at (-1);
      if negb (is_function f) then _ ← lua_pop 2; mret (inl (#"method not found: " ++ methodName)) else
      _ ← lua_pushvalue (-2);
      _ ← lua_remove (-3);
      mret (inr 1%nat)
  | None =>
      _ ← lua_getglobal index_global (upto_nul methodName);
      f ← value_at (-1);
      if negb (is_function f) then _ ← lua_pop 1; mret (inl (#"function not found: " ++ methodName)) else mret (inr 0%nat)
  end.
(** An answer, if what is measured is not too large. *)
Definition sized (measured answer : json) : json :=
  let size := wire_size measured in if kMaxReturnValueSize <? size then failed (too_large size) else answer.
Definition scalar_result : M json :=
  v ← value_at (-1);
  if lua_isstring v then s ← lua_tostring (-1); mret (returned (JStr (default [] s)) #"string") else
  match v with
  | LBool b => mret (returned (JBool b) #"boolean")
  | LNum f => mret (returned (JFloat f) #"number")
  | _ => mret (returned JNull #"nil")
  end.
Definition call_function (stack_base : Z) (nargs : nat) (args : list json) : M json :=
  _ ← for_each push_argument args;
  ok ← lua_pcall run nargs true;
  if negb ok then
    err ← lua_tostring (-1);
    _ ← lua_settop stack_base;
    mret (failed (default #"unknown Lua error" err))
  else
    v ← value_at (-1);
    if is_table v then
      converted ← lua_table_to_json (lua_value_to_json table_fuel) (-1) 0;
      _ ← lua_settop stack_base;
      mret (sized converted (returned converted #"table"))
    else
      result ← scalar_result;
      _ ← lua_settop stack_base;
      mret (sized result result).
Definition handle_evaluate (params : json) : M json :=
  match jget #"methodName" params with
  | Some (JStr methodName) =>
      let argValues := match jget #"argumentList" params with Some (JObj o) => o.*2 | Some (JArr l) => l | _ => [] end in
      stack_base ← lua_gettop;
      found ← find_function methodName;
      match found with
      | inl error => mret (failed error)
      | inr extra =>
          catching (call_function stack_base (length argValues + extra) argValues)
                   (λ e, _ ← lua_settop stack_base; mret (failed e))
      end
  | _ => mret (failed #"missing methodName")
  end.

(** A function of the plugin's definition, which is at the top: called when it is
    there, its error logged. *)
Definition call_handler (name context : bytes) : M bool :=
  _ ← lua_getfield index_field string_lib (-1) name;
  f ← value_at (-1);
  if negb (is_function f) then _ ← lua_pop 1; mret false else
  ok ← lua_pcall run 0 false;
  if (ok : bool) then mret true else
  err ← lua_tostring (-1);
  _ ← log_lua_error context err;
  _ ← lua_pop 1;
  mret true.
Definition handle_frontend_loaded : M json :=
  _ ← lua_getglobal index_global plugin_definition;
  d ← value_at (-1);
  if negb (is_table d) then _ ← lua_pop 1; mret (ok_result false) else
  _ ← call_handler #"on_frontend_loaded" #"on_frontend_loaded error";
  _ ← lua_pop 1;
  mret (ok_result true).
Definition handle_shutdown : M json :=
  called ← gets g_on_unload_called;
  if (called : bool) then mret (ok_result true) else
  _ ← set_unload_called;
  _ ← lua_getglobal index_global plugin_definition;
  d ← value_at (-1);
  _ ← (if is_table d then _ ← call_handler #"on_unload" #"on_unload error"; mret tt else mret tt);
  _ ← lua_pop 1;
  mret (ok_result true).

(** ** Patches *)

(** A field of the table at the top, when it is text. *)
Definition text_field (name : bytes) : M bytes :=
  _ ← lua_getfield index_field string_lib (-1) name;
  v ← value_at (-1);
  s ← (if lua_isstring v then lua_tostring (-1) else mret (Some []));
  _ ← lua_pop 1;
  mret (default [] s).
(** The table at the top, element by element. *)
Fixpoint table_items (item : M json) (ks : list Z) : M (list json) :=
  match ks with
  | [] => mret []
  | k :: ks => _ ← lua_rawgeti (-1) k; j ← item; _ ← lua_pop 1; rest ← table_items item ks; mret (j :: rest)
  end.
Definition count_items : M (list Z) := r ← table_at (-1); t ← lookup r; mret (indices (i32 (objlen t))).
Definition transform_json : M json :=
  m ← text_field #"match"; r ← text_field #"replace"; mret (jobj [(#"match", JStr m); (#"replace", JStr r)]).
Definition patch_json : M json :=
  file ← text_field #"file";
  find ← text_field #"find";
  _ ← lua_getfield index_field string_lib (-1) #"transforms";
  t ← value_at (-1);
  ts ← (if is_table t then ks ← count_items; table_items transform_json ks else mret []);
  _ ← lua_pop 1;
  mret (jobj [(#"file", JStr file); (#"find", JStr find); (#"transforms", JArr ts)]).
Definition log_runtime_error (message : bytes) : M () := log_lua_error message None.
Definition send_patches_to_parent : M () :=
  _ ← lua_getfield index_field string_lib (-1) #"patches";
  v ← value_at (-1);
  if negb (is_table v) then lua_pop 1 else
  ks ← count_items;
  patches ← table_items patch_json ks;
  _ ← lua_pop 1;
  match patches with
  | [] => mret tt
  | _ =>
      catching (_ ← rpc_call call #"patches" (jobj [(#"plugin_name", JStr plugin_name); (#"patches", JArr patches)]); mret tt)
               (λ e, log_runtime_error (#"failed to send patches: " ++ e))
  end.

(** The end of the start: what the plugin's main file returned is at the top.
    The result of the request, or its error. *)
Definition finish_start : M (json + bytes) :=
  d ← value_at (-1);
  _ ← modify (λ w, Host (heap w) (<[plugin_definition := d]> (globals w)) (registry w) (stack w) (g_config_callbacks w) (g_next_cb_id w) (g_on_unload_called w) (logged w) (outside_world w));
  if negb (is_table d) then mret (inr #"main.lua must return a table") else
  _ ← send_patches_to_parent;
  _ ← call_handler #"on_load" #"on_load error";
  _ ← lua_pop 1;
  mret (inl (ok_result true)).

(** ** The event loop's handler *)

Definition handle_request (method : bytes) (params : json) : M json :=
  if bytes_eqb method #"evaluate" then handle_evaluate params else
  if bytes_eqb method #"on_frontend_loaded" then handle_frontend_loaded else
  if bytes_eqb method #"get_metrics" then mret (jobj [(#"heap_bytes", JInt (usize (usize heap_kb * 1024 + usize heap_extra)))]) else
  if bytes_eqb method #"config_changed" then
    key ← lift (value_string #"key" [] params);
    value ← lift (Json.value_json #"value" JNull params);
    n ← gets (λ w, length (g_config_callbacks w));
    _ ← dispatch_config_change run rehashed (S n) key value;
    mret (ok_result true)
  else if bytes_eqb method #"shutdown" then handle_shutdown else
  mret (jobj [(#"error", JStr (#"unknown method: " ++ method))]).
End host.

(** ** The stack and the tables after a request *)

Section stack.
  Context `{T : target}.
  Context {W : Type}.
  Abbreviation M := (SM (host W)).
  Implicit Types w : host W.

(** A value is pushed, or an exception leaves more on the stack. *)
Definition pushing (m : M ()) : Prop := ∀ w, wf_heap (heap w) →
  match m w with
  | (Ok _, w') => ∃ v h', w' = with_stack (v :: stack w) (with_heap h' w) ∧ wf_heap h'
  | (Throw _, w') => ∃ l h', w' = with_stack (l ++ stack w) (with_heap h' w) ∧ wf_heap h'
  | _ => False
  end.
(** One is stored in the table at the top. *)
Definition storing (m : M ()) : Prop := ∀ w r st, stack w = LTable r :: st → wf_heap (heap w) →
  match m w with
  | (Ok _, w') => ∃ h', w' = with_heap h' w ∧ wf_heap h'
  | (Throw _, w') => ∃ l h', w' = with_stack (l ++ stack w) (with_heap h' w) ∧ wf_heap h'
  | _ => False
  end.
Lemma pushing_push v : pushing (push v).
Proof. intros w Hw. by exists v, (heap w). Qed.
Lemma storing_top m k : k ≠ LNil → pushing m → storing (_ ← m; store_top (-2) k).
Proof.
  intros Hk Hm w r st Es Hw. rewrite bind_run. specialize (Hm w Hw). destruct (m w) as [[a|e| |] w1]; [|done|done|done]. destruct Hm as (v & h1 & -> & Hw1).
  unfold store_top, table_at. rewrite !bind_run. set (w1 := with_stack (v :: stack w) (with_heap h1 w)). unfold value_at at 1. fold (slot (-2) (stack w1)). change (stack w1) with (v :: stack w). rewrite Es, slot_second, ret_run, bind_run.
  unfold value_at. fold (slot (-1) (stack w1)). change (stack w1) with (v :: stack w). rewrite Es, slot_top, bind_run. unfold modify, lua_pop. cbn [stack with_heap]. change (stack w1) with (v :: stack w). cbn [length Nat.ltb Nat.leb drop].
  eexists. split; [reflexivity|]. cbn [heap with_heap with_stack]. apply wf_insert; [exact Hw1|]. apply raw_set_wf; [done|]. apply Hw1.
Qed.
Lemma run_all_storing ms : Forall storing ms → storing (run_all ms).
Proof.
  induction 1 as [|m ms Hm _ IH]; intros w r st Es Hw; cbn [run_all]; [exists (heap w); by destruct w|]. rewrite bind_run. specialize (Hm w r st Es Hw). destruct (m w) as [[a|e| |] w1]; [|done|done|done]. destruct Hm as (h1 & -> & Hw1).
  specialize (IH (with_heap h1 w) r st Es Hw1). destruct (run_all ms (with_heap h1 w)) as [[b|e| |] w2]; [|done|done|done]. exact IH.
Qed.
Lemma table_pushing ms : Forall storing ms → pushing (_ ← lua_createtable; run_all ms).
Proof.
  intros Hm w Hw. rewrite bind_run. unfold lua_createtable at 1. set (r := fresh _). set (w0 := with_stack (LTable r :: stack w) _).
  assert (wf_heap (heap w0)) as Hw0 by (apply wf_insert; [done|split; [constructor|apply not_elem_of_nil]]). pose proof (run_all_storing ms Hm w0 r (stack w) eq_refl Hw0) as H.
  destruct (run_all ms w0) as [[b|e| |] w2]; [| |done|done].
  - destruct H as (h' & -> & Hw'). by exists (LTable r), h'.
  - destruct H as (l & h' & -> & Hw'). exists (l ++ [LTable r]), h'. split; [|done]. rewrite <- app_assoc. done.
Qed.
Lemma push_json_pushing j d : pushing (push_json_as_lua j d).
Proof.
  revert d. induction j as [|b|z|f|s|l IH|o IH] using json_nested_ind; intros d; cbn [push_json_as_lua]; (destruct (kMaxTableDepth <? d); [intros w Hw; exists [], (heap w); by destruct w|]); try apply pushing_push.
  - apply table_pushing. generalize (indices (len l)). induction IH as [|x l Hx _ IHl]; intros [|k ks]; cbn; constructor; [by apply storing_top|apply IHl].
  - apply table_pushing. induction IH as [|e o He _ IHo]; cbn; constructor; [by apply storing_top|done].
Qed.
Lemma push_argument_pushing j : pushing (push_argument j).
Proof. destruct j; cbn [push_argument]; try apply pushing_push; apply push_json_pushing. Qed.
(** All arguments are pushed, or an exception leaves some of them. *)
Lemma push_arguments_run l w : wf_heap (heap w) →
  match for_each push_argument l w with
  | (Ok _, w') => ∃ vs h', length vs = length l ∧ w' = with_stack (vs ++ stack w) (with_heap h' w) ∧ wf_heap h'
  | (Throw _, w') => ∃ vs h', w' = with_stack (vs ++ stack w) (with_heap h' w) ∧ wf_heap h'
  | _ => False
  end.
Proof.
  revert w. induction l as [|j l IH]; intros w Hw; cbn [for_each]; [exists [], (heap w); by destruct w|]. rewrite bind_run. pose proof (push_argument_pushing j w Hw) as Hj. destruct (push_argument j w) as [[a|e| |] w1]; [|done|done|done].
  destruct Hj as (v & h1 & -> & Hw1). specialize (IH (with_stack (v :: stack w) (with_heap h1 w)) Hw1). destruct (for_each push_argument l _) as [[b|e| |] w2]; [| |done|done].
  - destruct IH as (vs & h' & Hl & -> & Hw'). exists (vs ++ [v]), h'. rewrite length_app, Hl. cbn [length stack with_stack]. split; [lia|]. split; [|done]. by rewrite <- app_assoc.
  - destruct IH as (vs & h' & -> & Hw'). exists (vs ++ [v]), h'. cbn [stack with_stack]. split; [|done]. by rewrite <- app_assoc.
Qed.
End stack.

(** ** Every request is answered *)

(** The stack is as it was and the tables are sound. *)
Definition clean {W} (w w' : host W) : Prop := stack w' = stack w ∧ wf_heap (heap w').
Definition answered (a : json) : Prop := (∃ v t, a = returned v t) ∨ (∃ e, a = failed e).
Lemma sized_answered wire_size m a : answered a → answered (sized wire_size m a).
Proof. intros Ha. unfold sized. destruct (_ <? _); [right; by eexists|done]. Qed.

Lemma table_ends `{T : target} (h : store) r : ends_or_deep (table_json (json_of h table_fuel) 0 (t_entries (h r))).
Proof.
  pose proof (value_ends h (S table_fuel) 0 (LTable r) ltac:(by vm_compute)) as He. cbn [json_of] in He. change (kMaxTableDepth <? 0) with false in He. cbv iota in He. by destruct (table_json _ _ _).
Qed.

Section requests.
  Context `{T : target}.
  Context {W : Type}.
  Context (index_field : ltable → bytes → host W → (lval + lval) * host W) (index_global : bytes → host W → (lval + lval) * host W).
  Context (string_lib : bytes → lval) (run : lval → list lval → host W → (lval + lval) * host W).
  Context (wire_size : json → Z) (rehashed : list (Z * config_callback) → list (Z * config_callback) → bool) (heap_kb heap_extra : Z).
  Abbreviation M := (SM (host W)).
  Implicit Types w : host W.
  (** Lua code keeps the keys of a table different and not nil, and a map that
      does not change is not rebuilt. *)
  Hypothesis Hrun : ∀ f args w, wf_heap (heap w) → wf_heap (heap (run f args w).2).
  Hypothesis Hfield : ∀ t name w, wf_heap (heap w) → wf_heap (heap (index_field t name w).2).
  Hypothesis Hglobal : ∀ name w, wf_heap (heap w) → wf_heap (heap (index_global name w).2).
  Hypothesis Hsame : ∀ l, rehashed l l = false.

Lemma value_at_top v st w : stack w = v :: st → value_at (-1) w = (Ok v, w).
Proof. intros Es. unfold value_at. fold (slot (-1) (stack w)). by rewrite Es, slot_top. Qed.
Lemma pop_run l st w : stack w = l ++ st → lua_pop (length l) w = (Ok tt, with_stack st w).
Proof. intros Es. unfold lua_pop. rewrite Es, length_app. destruct (Nat.ltb_spec (length l + length st) (length l)); [lia|]. by rewrite drop_app_length. Qed.
Lemma pop1_run v st w : stack w = v :: st → lua_pop 1 w = (Ok tt, with_stack st w).
Proof. exact (pop_run [v] st w). Qed.
Lemma pop2_run v x st w : stack w = v :: x :: st → lua_pop 2 w = (Ok tt, with_stack st w).
Proof. exact (pop_run [v; x] st w). Qed.
Lemma settop_run l st w : stack w = l ++ st → lua_settop (len st) w = (Ok tt, with_stack st w).
Proof.
  intros Es. unfold lua_settop. rewrite Es. pose proof (len_nonneg st). pose proof (len_nonneg l). assert (len (l ++ st) = len l + len st) as -> by (unfold len; rewrite length_app; lia).
  destruct (Z.ltb_spec (len st) 0); [lia|]. destruct (Z.ltb_spec (len l + len st) (len st)); [lia|]. cbn [orb]. replace (Z.to_nat (len l + len st - len st)) with (length l) by (unfold len in *; lia). by rewrite drop_app_length.
Qed.
(** The state in which a metamethod raised an error that no protected call
    catches. *)
Definition raised (w' : host W) : Prop := ∃ w1 e w2, w' = with_stack (stack w1) w2 ∧
  ((∃ name, globals w1 !! name = None ∧ index_global name w1 = (inr e, w2)) ∨
   (∃ r name, t_meta (table_in (heap w1) r) ≠ None ∧ index_field (table_in (heap w1) r) name w1 = (inr e, w2))).
(** A value is pushed, or a metamethod raises. *)
Definition finds (m : M ()) (w : host W) : Prop :=
  match m w with
  | (Ok _, w') => ∃ v, stack w' = v :: stack w ∧ wf_heap (heap w')
  | (Throw e, w') => e = lua_error ∧ raised w'
  | _ => False
  end.
Lemma getglobal_finds name w : wf_heap (heap w) → finds (lua_getglobal index_global name) w.
Proof.
  intros Hw. unfold finds, lua_getglobal. destruct (globals w !! name) as [v|] eqn:Eg; [by exists v|]. unfold push_found. pose proof (Hglobal name w Hw) as Hh. destruct (index_global name w) as [[v|e] w2] eqn:E; [by exists v|]. split; [done|]. exists w, e, w2. split; [done|]. left. by exists name.
Qed.
Lemma getfield_finds name r st w : stack w = LTable r :: st → wf_heap (heap w) → finds (lua_getfield index_field string_lib (-1) name) w.
Proof.
  intros Es Hw. unfold finds, lua_getfield. rewrite bind_run, (value_at_top _ _ _ Es). unfold lookup. rewrite bind_run. cbn [gets]. destruct (raw_get (LStr name) _); [|by eexists..]. destruct (t_meta _) as [m|] eqn:Em; [|by eexists].
  unfold push_found. pose proof (Hfield (table_in (heap w) r) name w Hw) as Hh. destruct (index_field _ name w) as [[v|e] w2] eqn:E; [by exists v|]. split; [done|]. exists w, e, w2. split; [done|]. right. exists r, name. by rewrite Em.
Qed.
Lemma method_function_run (name funcName : bytes) r w : stack w = LTable r :: drop 1 (stack w) → wf_heap (heap w) → match (
      _ ← lua_getfield index_field string_lib (-1) funcName;
      f ← value_at (-1);
      if negb (is_function f) then _ ← lua_pop 2; mret (inl (#"method not found: " ++ name)) else
      _ ← lua_pushvalue (-2);
      _ ← lua_remove (-3);
      mret (inr 1%nat)) w with
  | (Ok (inl _), w') => stack w' = drop 1 (stack w) ∧ wf_heap (heap w')
  | (Ok (inr n), w') => ∃ fs, length fs = S n ∧ stack w' = fs ++ drop 1 (stack w) ∧ wf_heap (heap w')
  | (Throw e, w') => e = lua_error ∧ raised w'
  | _ => False
  end.
Proof.
  intros Es Hw. rewrite bind_run. pose proof (getfield_finds funcName r _ w Es Hw) as Hf. unfold finds in Hf. destruct (lua_getfield _ _ _ _ w) as [[[]|e| |] w2]; [|done|done|done]. destruct Hf as (f & Ef & Hw2). rewrite bind_run, (value_at_top f _ w2 Ef).
  rewrite Es in Ef. set (st := drop 1 (stack w)) in *. destruct (negb (is_function f)); [rewrite bind_run, (pop2_run f (LTable r) st w2 Ef); done|]. unfold lua_pushvalue, value_at. rewrite !bind_run. fold (slot (-2) (stack w2)). rewrite Ef, slot_second. unfold push, modify, lua_remove.
  rewrite bind_run. set (w3 := with_stack (LTable r :: stack w2) w2). assert (stack w3 = LTable r :: f :: LTable r :: st) as E3 by (cbn; by rewrite Ef). assert (place (-3) (stack w3) = Some 2%nat) as ->.
  { rewrite E3. unfold place. rewrite !len_cons. pose proof (len_nonneg st). destruct (Z.ltb_spec 0 (-3)); [lia|]. cbn [andb]. destruct (Z.leb_spec (- -3) (1 + (1 + (1 + len st)))); [done|lia]. }
  exists [LTable r; f]. rewrite E3. done.
Qed.
Lemma find_function_run name w : wf_heap (heap w) → match find_function index_field index_global string_lib name w with
  | (Ok (inl _), w') => clean w w'
  | (Ok (inr n), w') => ∃ fs, length fs = S n ∧ stack w' = fs ++ stack w ∧ wf_heap (heap w')
  | (Throw e, w') => e = lua_error ∧ raised w'
  | _ => False
  end.
Proof.
  intros Hw. unfold find_function. destruct (find_char ":"%byte name) as [i|].
  - rewrite bind_run. pose proof (getglobal_finds (upto_nul (take i name)) w Hw) as Hg. unfold finds in Hg. destruct (lua_getglobal _ _ w) as [[[]|e| |] w1]; [|done|done|done]. destruct Hg as (t & Et & Hw1). rewrite bind_run, (value_at_top t _ w1 Et).
    destruct t as [|b|f|s|p|r|o id]; cbn [is_table negb]; try (rewrite bind_run, (pop1_run _ _ w1 Et); by split).
    pose proof (method_function_run name (upto_nul (drop (S i) name)) r w1 ltac:(by rewrite Et) Hw1) as Hm. rewrite Et in Hm. cbn [drop] in Hm. exact Hm.
  - rewrite bind_run. pose proof (getglobal_finds (upto_nul name) w Hw) as Hg. unfold finds in Hg. destruct (lua_getglobal _ _ w) as [[[]|e| |] w1]; [|done|done|done]. destruct Hg as (f & Ef & Hw1). rewrite bind_run, (value_at_top f _ w1 Ef).
    destruct (negb (is_function f)); [rewrite bind_run, (pop1_run f _ w1 Ef); by split|]. by exists [f].
Qed.
(** An answer with the stack as it was, or a metamethod that raises. *)
Definition settles {A} (m : M A) (w : host W) : Prop :=
  match m w with (Ok _, w') => clean w w' | (Throw e, w') => e = lua_error ∧ raised w' | _ => False end.
Lemma call_handler_run name context r st w : stack w = LTable r :: st → wf_heap (heap w) → settles (call_handler index_field string_lib run name context) w.
Proof.
  intros Es Hw. unfold settles, call_handler. rewrite bind_run. pose proof (getfield_finds name r st w Es Hw) as Hf. unfold finds in Hf. destruct (lua_getfield _ _ _ _ w) as [[[]|e| |] w1]; [|done|done|done]. destruct Hf as (f & Ef & Hw1). rewrite bind_run, (value_at_top f _ w1 Ef).
  destruct (is_function f); cbn [negb]; [|rewrite bind_run, (pop1_run f _ w1 Ef); by split].
  rewrite bind_run. unfold lua_pcall. rewrite Ef. change ((f :: stack w) !! 0%nat) with (Some f). cbv beta iota. change (reverse (take 0 (f :: stack w))) with (@nil lval). pose proof (Hrun f [] w1 Hw1) as Hh.
  destruct (run f [] w1) as [[x|x] w2]; cbn [fst snd] in Hh; cbv beta iota.
  - by split.
  - rewrite bind_run. set (w3 := with_stack (x :: _) w2). destruct (tostring_top w3 x (stack w) eq_refl) as (s & y & E2). rewrite E2, bind_run. unfold log_lua_error, modify. rewrite bind_run. by split.
Qed.
Lemma frontend_loaded_run w : wf_heap (heap w) → settles (handle_frontend_loaded index_field index_global string_lib run) w.
Proof.
  intros Hw. unfold settles, handle_frontend_loaded. rewrite bind_run. pose proof (getglobal_finds plugin_definition w Hw) as Hg. unfold finds in Hg. destruct (lua_getglobal _ _ w) as [[[]|e| |] w1]; [|done|done|done]. destruct Hg as (d & Ed & Hw1). rewrite bind_run, (value_at_top d _ w1 Ed).
  destruct d as [|b|f|s|p|r|o id]; cbn [is_table negb]; try (rewrite bind_run, (pop1_run _ _ w1 Ed); by split).
  rewrite bind_run. pose proof (call_handler_run #"on_frontend_loaded" #"on_frontend_loaded error" r (stack w) w1 Ed Hw1) as Hc. unfold settles in Hc. destruct (call_handler _ _ _ _ _ w1) as [[b|e| |] w2]; [|done|done|done]. destruct Hc as [Es Hw2]. rewrite Ed in Es.
  rewrite bind_run, (pop1_run (LTable r) (stack w) w2 Es). by split.
Qed.
Lemma shutdown_run w : wf_heap (heap w) → settles (handle_shutdown index_field index_global string_lib run) w.
Proof.
  intros Hw. unfold settles, handle_shutdown. rewrite bind_run. cbn [gets]. destruct (g_on_unload_called w); [by split|]. rewrite bind_run. unfold set_unload_called, modify. set (w0 := Host _ _ _ _ _ _ _ _ _). rewrite bind_run. pose proof (getglobal_finds plugin_definition w0 Hw) as Hg. unfold finds in Hg.
  destruct (lua_getglobal _ _ w0) as [[[]|e| |] w1]; [|done|done|done]. destruct Hg as (d & Ed & Hw1). change (stack w0) with (stack w) in Ed. rewrite bind_run, (value_at_top d _ w1 Ed). rewrite bind_run. destruct d as [|b|f|s|p|r|o id]; cbn [is_table];
    try (rewrite ret_run, bind_run, (pop1_run _ _ w1 Ed); by split).
  rewrite bind_run. pose proof (call_handler_run #"on_unload" #"on_unload error" r (stack w) w1 Ed Hw1) as Hc. unfold settles in Hc. destruct (call_handler _ _ _ _ _ w1) as [[b|e| |] w2]; [|done|done|done]. destruct Hc as [Es Hw2]. rewrite Ed in Es.
  rewrite ret_run, bind_run, (pop1_run (LTable r) (stack w) w2 Es). by split.
Qed.
(** What a call that returned the table of a key no integer can hold is like. *)
Definition bad_table : Prop := ∃ f args w r, (run f args w).1 = inl (LTable r) ∧
  table_json (json_of (table_in (heap (run f args w).2)) table_fuel) 0 (t_entries (table_in (heap (run f args w).2) r)) = UB.

(** The answer about the value at the top, which replaces the stack above [st]. *)
Definition settled (w0 : host W) (st : list lval) (r : outcome json * host W) : Prop :=
  match r with
  | (Ok a, w') => answered a ∧ stack w' = st ∧ heap w' = heap w0
  | (Throw _, w') => (∃ l, stack w' = l ++ st) ∧ heap w' = heap w0
  | (UB, _) => bad_table
  | (NoFuel, _) => False
  end.
Lemma scalar_settled v st w : stack w = v :: st → settled w st ((result ← scalar_result; _ ← lua_settop (len st); mret (sized wire_size result result)) w).
Proof.
  intros Es. unfold scalar_result. rewrite bind_run, bind_run, (value_at_top _ _ _ Es). destruct (lua_isstring v) eqn:Ev.
  - destruct (tostring_top w v st Es) as (s & y & E). rewrite bind_run, E, ret_run, bind_run. rewrite (settop_run [y] st) by done. split; [|done]. apply sized_answered. left. by eexists _, _.
  - destruct v as [|b|f|s|p|r|o id]; try done; rewrite ret_run, bind_run, (settop_run [_] st w Es); (split; [|done]); apply sized_answered; left; by eexists _, _.
Qed.
(** The table at the top becomes the answer. *)
Definition table_result (stack_base : Z) : M json :=
  converted ← lua_table_to_json (lua_value_to_json table_fuel) (-1) 0;
  _ ← lua_settop stack_base;
  mret (sized wire_size converted (returned converted #"table")).
Lemma table_settled r st w : stack w = LTable r :: st → wf_heap (heap w) →
  (table_json (json_of (table_in (heap w)) table_fuel) 0 (t_entries (table_in (heap w) r)) = UB → bad_table) → settled w st (table_result (len st) w).
Proof.
  intros Es Hw Hb. unfold table_result. rewrite bind_run.
  pose proof (table_computes (lua_value_to_json table_fuel) (json_of (table_in (heap w)) table_fuel) (-1) 0 r w) as H. rewrite Es in H. specialize (H (slot_top _ _) Hw ltac:(intros v l; apply (value_computes table_fuel (-1) 1 v (with_stack (v :: l ++ LTable r :: st) w)); [apply slot_top|done])).
  pose proof (table_ends (table_in (heap w)) r) as He.
  unfold computes in H. destruct (lua_table_to_json _ (-1) 0 w) as [[j|e| |] w'].
  - destruct H as [_ ->]. rewrite bind_run, (settop_run [LTable r] st) by done. split; [|done]. apply sized_answered. left. by eexists _, _.
  - destruct H as [_ [l ->]]. split; [|done]. exists (l ++ [LTable r]). cbn. by rewrite <- app_assoc.
  - by apply Hb.
  - by rewrite H in He.
Qed.
(** The call itself: an answer with the stack as it was, or an exception. *)
Definition answers (st : list lval) (r : outcome json * host W) : Prop :=
  match r with
  | (Ok a, w') => answered a ∧ stack w' = st ∧ wf_heap (heap w')
  | (Throw _, w') => (∃ l, stack w' = l ++ st) ∧ wf_heap (heap w')
  | (UB, _) => bad_table
  | (NoFuel, _) => False
  end.
Lemma settled_answers w st r : wf_heap (heap w) → settled w st r → answers st r.
Proof. intros Hw. unfold settled, answers. destruct r as [[a|e| |] w']; [|intros [Hl Eh]; rewrite Eh; by split|done|done]. intros (Ha & Es & Eh). by rewrite Eh. Qed.
Lemma call_function_run args fs n st w : stack w = fs ++ st → length fs = S n → wf_heap (heap w) →
  answers st (call_function run wire_size (len st) (length args + n) args w).
Proof.
  intros Es Hl Hw. unfold call_function. rewrite bind_run. pose proof (push_arguments_run args w Hw) as Ha. destruct (for_each push_argument args w) as [[[]|e| |] w1]; [| |done|done].
  2: { destruct Ha as (vs & h' & -> & Hw'). split; [|done]. exists (vs ++ fs). cbn. by rewrite Es, app_assoc. }
  destruct Ha as (vs & h' & Hv & -> & Hw'). set (w1 := with_stack (vs ++ stack w) (with_heap h' w)). destruct fs as [|f fs _] using rev_ind; [done|]. rewrite length_app in Hl. cbn in Hl.
  assert (stack w1 = (vs ++ fs) ++ f :: st) as Es1 by (cbn; rewrite Es, <- !app_assoc; done). assert (length (vs ++ fs) = length args + n)%nat as Hlen by (rewrite length_app; lia). rewrite <- Hlen.
  rewrite bind_run. unfold lua_pcall. rewrite Es1, list_lookup_middle by done. rewrite take_app_length. replace (drop (S (length (vs ++ fs))) _) with st by (by rewrite (cons_middle f), app_assoc, drop_app_length' by (rewrite !length_app; cbn; lia)).
  set (as_ := reverse (vs ++ fs)). pose proof (Hrun f as_ w1 Hw') as Hh. assert (∀ r, (run f as_ w1).1 = inl (LTable r) → table_json (json_of (table_in (heap (run f as_ w1).2)) table_fuel) 0 (t_entries (table_in (heap (run f as_ w1).2) r)) = UB → bad_table) as Hb by (intros r H1 H2; by exists f, as_, w1, r).
  destruct (run f as_ w1) as [[v|e] w2]; cbn [fst snd] in Hh, Hb; cbn [negb].
  - set (w3 := with_stack (v :: st) w2). rewrite bind_run, (value_at_top v st w3) by done. apply (settled_answers w3); [done|]. destruct v as [|b|z|s|p|r|o id]; cbn [is_table]; try by (eapply scalar_settled).
    apply (table_settled r); [done|done|by apply Hb].
  - set (w3 := with_stack (e :: st) w2). destruct (tostring_top w3 e st eq_refl) as (s & y & E). rewrite bind_run, E, bind_run, (settop_run [y] st) by done. split; [right; by eexists|]. by split.
Qed.
Lemma evaluate_run params w : wf_heap (heap w) →
  match handle_evaluate index_field index_global string_lib run wire_size params w with
  | (Ok a, w') => answered a ∧ clean w w'
  | (Throw e, w') => e = lua_error ∧ raised w'
  | (UB, _) => bad_table
  | (NoFuel, _) => False
  end.
Proof.
  intros Hw. unfold handle_evaluate. destruct (jget #"methodName" params) as [[|b|z|f|name|l|o]|]; try (split; [right; by eexists|by split]). set (argValues := match jget _ params with Some (JObj o) => _ | _ => _ end). rewrite bind_run. cbn [gets lua_gettop]. rewrite bind_run.
  pose proof (find_function_run name w Hw) as Hf. destruct (find_function index_field index_global string_lib name w) as [[[e|n]|e| |] w1]; [| |done|done|done].
  - split; [right; by eexists|]. done.
  - destruct Hf as (fs & Hl & Es & Hw1). pose proof (call_function_run argValues fs n (stack w) w1 Es Hl Hw1) as Hc. unfold catching. destruct (call_function _ _ _ _ _ _) as [[a|e| |] w2]; [| |done|done].
    + destruct Hc as (Ha & Es2 & Hw2). by split.
    + destruct Hc as ([l Es2] & Hw2). rewrite bind_run, (settop_run l (stack w)) by done. split; [right; by eexists|]. by split.
Qed.

End requests.

(** ** A call of a plugin's function *)

(** An argument that arrives unchanged. *)
Definition plain_arg `{T : target} (j : json) : Prop :=
  plain_json j ∧ Z.of_nat (nest j) <= kMaxTableDepth ∧ match j with JStr s => x00 ∉ s | JInt z => - 2 ^ (word_bits - 1) <= z < 2 ^ (word_bits - 1) | _ => True end.
(** What the answer says of a result that is not a table: a number is text. *)
Definition scalar_answer (v : lval) : json :=
  match v with
  | LStr s => returned (JStr (upto_nul s)) #"string"
  | LNum f => returned (JStr (upto_nul (number_text f))) #"string"
  | LBool b => returned (JBool b) #"boolean"
  | _ => returned JNull #"nil"
  end.
Definition error_message (e : lval) : bytes := match e with LStr s => upto_nul s | LNum f => upto_nul (number_text f) | _ => #"unknown Lua error" end.

Section calls.
  Context `{T : target}.
  Context {W : Type}.
  Context (index_field : ltable → bytes → host W → (lval + lval) * host W) (index_global : bytes → host W → (lval + lval) * host W) (string_lib : bytes → lval) (run : lval → list lval → host W → (lval + lval) * host W).
  Context (wire_size : json → Z).
  Abbreviation M := (SM (host W)).
  Implicit Types w : host W.

Lemma argument_reads j w : plain_arg j → ∃ v h', push_argument j w = (Ok tt, with_stack (v :: stack w) (with_heap h' w)) ∧
  (∀ q, is_Some (heap w !! q) → h' !! q = heap w !! q) ∧ (wf_heap (heap w) → wf_heap h') ∧ ∀ h'', agrees (heap w) h' h'' → reads h'' 0 v j.
Proof.
  intros (Hp & Hn & Hj). assert (∀ v : lval, push_argument j = (push v : M ()) → (∀ h, reads h 0 v j) → ∃ v h', push_argument j w = (Ok tt, with_stack (v :: stack w) (with_heap h' w)) ∧
    (∀ q, is_Some (heap w !! q) → h' !! q = heap w !! q) ∧ (wf_heap (heap w) → wf_heap h') ∧ ∀ h'', agrees (heap w) h' h'' → reads h'' 0 v j) as Hs.
  { intros v -> Hr. exists v, (heap w). split; [done|]. split; [done|]. split; [done|]. intros h'' _. apply Hr. }
  destruct j as [|b|z|f|s|l|o]; cbn [push_argument] in *.
  1, 2, 4: by (eapply Hs; [reflexivity|]; intros h [|fuel] Hf; [lia|]).
  - assert (to_lua_Integer z = z) as Ez by (by apply to_lua_Integer_same). rewrite Ez in Hs |- *. eapply Hs; [reflexivity|]. by intros h [|fuel] Hf; [lia|].
  - rewrite upto_nul_plain in Hs |- * by done. eapply Hs; [reflexivity|]. by intros h [|fuel] Hf; [lia|].
  - destruct (push_pushes (W:=W) (JArr l) Hp 0 ltac:(lia) ltac:(lia) w) as (v & h' & E & _ & H). by exists v, h'.
  - destruct (push_pushes (W:=W) (JObj o) Hp 0 ltac:(lia) ltac:(lia) w) as (v & h' & E & _ & H). by exists v, h'.
Qed.
Lemma arguments_read args w : Forall plain_arg args → ∃ vs h', for_each push_argument args w = (Ok tt, with_stack (reverse vs ++ stack w) (with_heap h' w)) ∧
  (∀ q, is_Some (heap w !! q) → h' !! q = heap w !! q) ∧ (wf_heap (heap w) → wf_heap h') ∧ ∀ h'', agrees (heap w) h' h'' → Forall2 (reads h'' 0) vs args.
Proof.
  intros Hp. revert w. induction Hp as [|j args Hj _ IH]; intros w; cbn [for_each]; [exists [], (heap w); split; [by destruct w|]; split_and!; try done; by constructor|].
  destruct (argument_reads j w Hj) as (v & h1 & E1 & H1 & Hw1 & Hr1). destruct (IH (with_stack (v :: stack w) (with_heap h1 w))) as (vs & h' & E2 & H2 & Hw2 & Hr2). cbn [heap with_heap with_stack stack] in *.
  exists (v :: vs), h'. split; [rewrite bind_run, E1, E2, reverse_cons, <- app_assoc; done|]. split; [intros q Hq; rewrite H2, H1; [done|done|]; by rewrite H1|]. split; [by auto|]. intros h'' Ha. constructor.
  - apply Hr1. intros q t Hq Hq1. apply Ha; [done|]. by rewrite H2, Hq1 by by eexists.
  - apply Hr2. intros q t Hq Hq'. apply Ha; [|done]. destruct (heap w !! q) eqn:E; [|done]. rewrite H1, E in Hq; [done|by eexists].
Qed.
Lemma scalar_answer_run v st w : stack w = v :: st → is_table v = false →
  ∃ y, scalar_result w = (Ok (scalar_answer v), with_stack (y :: st) w).
Proof.
  intros Es Ht. unfold scalar_result. rewrite bind_run, (value_at_top _ _ _ Es). destruct v as [|b|f|s|p|r|o id]; try done; cbn [lua_isstring scalar_answer]; try (eexists; rewrite <- Es; by destruct w).
  - unfold lua_tostring, lua_tolstring. rewrite !bind_run, (value_at_top _ _ _ Es), bind_run. unfold modify. rewrite !ret_run. eexists. unfold place. rewrite Es, len_cons. pose proof (len_nonneg st). destruct (Z.ltb_spec 0 (-1)); [lia|]. cbn [andb]. destruct (Z.leb_spec (- -1) (1 + len st)); [done|lia].
  - unfold lua_tostring, lua_tolstring. rewrite !bind_run, (value_at_top _ _ _ Es), !ret_run. eexists. rewrite <- Es. by destruct w.
Qed.
Lemma error_message_run e st w : stack w = e :: st → ∃ s y, lua_tostring (-1) w = (Ok s, with_stack (y :: st) w) ∧ default #"unknown Lua error" s = error_message e.
Proof.
  intros Es. unfold lua_tostring, lua_tolstring. rewrite !bind_run, (value_at_top _ _ _ Es). destruct e as [|b|f|s|p|r|o id]; try (rewrite !ret_run; eexists _, _; rewrite <- Es; by destruct w).
  rewrite bind_run. unfold modify. rewrite !ret_run. eexists _, _. unfold place. rewrite Es, len_cons. pose proof (len_nonneg st). destruct (Z.ltb_spec 0 (-1)); [lia|]. cbn [andb]. destruct (Z.leb_spec (- -1) (1 + len st)); [done|lia].
Qed.
(** What the frontend is told of a call with the result [r], after which the
    tables are [h]. *)
Definition told (h : gmap positive ltable) (r : lval + lval) : outcome json :=
  match r with
  | inl (LTable t) =>
      match table_json (json_of (table_in h) table_fuel) 0 (t_entries (table_in h t)) with
      | Ok j => Ok (sized wire_size j (returned j #"table"))
      | Throw e => Ok (failed e)
      | o => o
      end
  | inl v => Ok (sized wire_size (scalar_answer v) (scalar_answer v))
  | inr e => Ok (failed (error_message e))
  end.

End calls.

(** ** Examples, in the Linux build *)

#[local] Existing Instance target32.

(** A plugin with a global function [f]. *)
Definition plugin0 : host () := Host ∅ {[ #"f" := LOther Function 1 ]} ∅ [] [] 0 false [] tt.
Definition evaluate_f : json := jobj [(#"argumentList", JArr [JInt 5; nested0]); (#"methodName", JStr #"f")].
Definition no_index {W} (t : ltable) (name : bytes) (w : host W) : (lval + lval) * host W := (inl LNil, w).
Definition no_global {W} (name : bytes) (w : host W) : (lval + lval) * host W := (inl LNil, w).
Definition no_lib (name : bytes) : lval := LNil.
Definition small_size (j : json) : Z := 100.
Definition never_rehashed (a b : list (Z * config_callback)) : bool := false.
Definition run_number (f : lval) (args : list lval) (w : host ()) : (lval + lval) * host () := (inl (LNum (S754_finite false 1 (-1))), w).

(** A time in milliseconds is given to the function as another number. *)
Theorem large_argument_changed : (push_argument (JInt 1700000000000) plugin0).2 = with_stack [LNum (double_of_Z (-807049216))] plugin0.
Proof. vm_compute. reflexivity. Qed.
(** An error of a metamethod of the globals is not caught. *)
Theorem metamethod_error_uncaught {W} (w : host W) name params index_field string_lib run wire_size : jget #"methodName" params = Some (JStr name) → find_char ":"%byte name = None → globals w !! upto_nul name = None →
  (handle_evaluate index_field (λ _ w, (inr LNil, w)) string_lib run wire_size params w).1 = Throw lua_error.
Proof.
  intros Hm Hn Hg. unfold handle_evaluate. rewrite Hm, bind_run. cbn [gets lua_gettop]. rewrite bind_run. unfold find_function. rewrite Hn, bind_run. unfold lua_getglobal. by rewrite Hg.
Qed.
Lemma metamethod_error_uncaught_witness : (handle_evaluate no_index (λ _ w, (inr LNil, w)) no_lib run0 small_size evaluate_f host0).1 = Throw lua_error.
Proof. apply (metamethod_error_uncaught host0 #"f"); reflexivity. Defined.
(** A table returned with a key that no integer holds. *)
Example bad_key_undefined : (handle_evaluate no_index no_global no_lib (λ _ _ w, (inl (LTable 7), with_heap {[ 7%positive := Table [(LNum (double_of_Z (2 ^ 70)), LBool true)] None ]} w)) small_size evaluate_f plugin0).1 = UB.
Proof. vm_compute. reflexivity. Qed.
(** The patches of a definition, and one that is not a table. *)
Definition definition0 : gmap positive ltable :=
  {[ 1%positive := Table [(LStr #"patches", LTable 2)] None; 2%positive := Table [(LNum (double_of_Z 1), LTable 3)] None;
     3%positive := Table [(LStr #"file", LStr #"a.js"); (LStr #"find", LNum (double_of_Z 7)); (LStr #"transforms", LTable 4)] None;
     4%positive := Table [(LNum (double_of_Z 1), LTable 5)] None; 5%positive := Table [(LStr #"match", LStr #"x")] None ]}.
Definition record_call (method : bytes) (params : json) (l : list (bytes * json)) : outcome json * list (bytes * json) := (Ok JNull, l ++ [(method, params)]).
Definition loaded0 (h : gmap positive ltable) : host (list (bytes * json)) := Host h ∅ ∅ [LTable 1] [] 0 false [] [].
Example patches_sent :
  outside_world (send_patches_to_parent no_index no_lib objlen0 record_call #"p" (loaded0 definition0)).2 =
  [(#"patches", jobj [(#"plugin_name", JStr #"p"); (#"patches", JArr [jobj [(#"file", JStr #"a.js"); (#"find", JStr #"7");
     (#"transforms", JArr [jobj [(#"match", JStr #"x"); (#"replace", JStr [])]])]])])].
Proof. vm_compute. reflexivity. Qed.
Example patch_not_a_table :
  (send_patches_to_parent no_index no_lib objlen0 record_call #"p" (loaded0 (<[2%positive := Table [(LNum (double_of_Z 1), LBool true)] None]> definition0))).1 = Throw lua_error.
Proof. vm_compute. reflexivity. Qed.
