(* ===== verification/LuaMillennium.v ===== *)
(** * LuaMillennium: the module of plugins for the host

    The module [millennium] of a plugin ([lua_host/api/millennium.cc]) but for
    its settings, which are in [LuaConfig]: calls of the frontend and of the host,
    and the files packed with a plugin, whose index the host sends ([Backend]).

    Parameters stand for the call to the host, the place in the Lua code that
    calls, the length of a table, the conversion of text to a number, and the
    target, of which [size_t] and [lua_Integer] have the width. *)

From Stdlib Require Import SpecFloat.
From stdpp Require Import sorting.
From S2P Require Import Prelude State Json Lz4 StarCodec StarFile NumText LuaEncode LuaRoundTrip Backend LuaVm LuaTables LuaConfig LuaHost.

Definition MAX_JSON_TO_LUA_DEPTH : Z := 200.
(** The exception of [std::vector] for a size it does not have. *)
Definition vector_too_large : bytes := #"cannot create std::vector larger than max_size()".
Definition ipc_types : bytes := #"Millennium's IPC can only handle [boolean, string, number]".

(** [j.get<double>()] *)
Definition get_double (j : json) : outcome spec_float :=
  match j with JInt z => Ok (double_of_Z z) | JFloat f => Ok f | _ => Throw json_error end.
(** [e.value(k, size_t{0})]: an integer is cast to [size_t]; a double out of its
    range has no conversion. *)
Definition value_size `{T : target} (k : bytes) (j : json) : outcome Z :=
  n ← value_u64 k 0 j;
  match jget k j with Some (JFloat _) => if 2 ^ word_bits <=? n then UB else Ok n | _ => Ok (usize n) end.
(** The files of a package, from the parameters of the start ([main.cc]). *)
Fixpoint read_asset_index `{T : target} (l : list json) (index : gmap bytes AssetEntry) : outcome (gmap bytes AssetEntry) :=
  match l with
  | [] => Ok index
  | e :: l =>
      offset ← value_size #"file_offset" e;
      compressed ← value_size #"compressed_length" e;
      uncompressed ← value_size #"uncompressed_length" e;
      name ← value_string #"name" [] e;
      read_asset_index l (<[name := MkAsset offset compressed uncompressed]> index)
  end.
(** [path.back() == '/'] is removed as long as there is one. *)
Definition drop_slashes (s : bytes) : bytes :=
  fold_right (λ c acc, match acc with [] => if beqb c "/" then [] else [c] | _ => c :: acc end) [] s.
(** The name in a directory of the rest of a path. *)
Definition child_of (rel : bytes) : bytes := match find_char "/"%byte rel with Some slash => take (slash + 1) rel | None => rel end.
Definition has_slash (s : bytes) : bool := match find_char "/"%byte s with Some _ => true | None => false end.
Definition byte_order (a b : bytes) : Prop := bytes_ltb b a = false.
#[export] Instance byte_order_dec a b : Decision (byte_order a b).
Proof. unfold byte_order. apply _. Defined.

Section api.
  Context `{T : target}.
  Context {W : Type}.
  Variable objlen : ltable → Z.
  Variable call : bytes → json → W → outcome json * W.
  (** The source and the line of the Lua code that calls, when it is known. *)
  Variable caller_info : option (option bytes * Z).
  Variable g_backend_dir : bytes.
  Variable g_plugin_is_v2 : bool.
  Variable tonumber : bytes → option spec_float.
  (** The plugin's package, if it can be opened, and the files in it. *)
  Variable g_backend_file : option bytes.
  Variable g_asset_index : gmap bytes AssetEntry.
  Abbreviation M := (SM (host W)).

(** ** Arguments *)

(** [luaL_optstring] *)
Definition luaL_optstring (idx : Z) (def : bytes) : M bytes :=
  there ← on_stack idx;
  if negb there then mret def else
  v ← value_at idx;
  match v with LNil => mret def | _ => luaL_checkstring idx end.
(** [luaL_checkinteger] *)
Definition luaL_checkinteger (idx : Z) : M Z :=
  there ← on_stack idx;
  if negb there then lift (Throw argument_error) else
  v ← value_at idx;
  f ← lift (match v with LNum f => Ok f | LStr s => match tonumber s with Some f => Ok f | None => Throw argument_error end | _ => Throw argument_error end);
  lift (match float_trunc f with Some i => if (- 2 ^ (word_bits - 1) <=? i) && (i <? 2 ^ (word_bits - 1)) then Ok i else UB | None => UB end).

(** ** Values of the frontend *)

Fixpoint push_json_to_lua (j : json) (depth : Z) : M () :=
  if MAX_JSON_TO_LUA_DEPTH <? depth then push LNil else
  match j with
  | JNull => push LNil
  | JBool b => push (LBool b)
  | JInt z => push (LNum (double_of_Z (to_lua_Integer z)))
  | JFloat f => push (LNum f)
  | JStr s => push (LStr (upto_nul s))
  | JArr l =>
      _ ← lua_createtable;
      run_all (zip_with (λ i elem, _ ← elem; lua_rawseti (-2) i) (indices (len l)) (map (λ elem, push_json_to_lua elem (depth + 1)) l))
  | JObj o =>
      _ ← lua_createtable;
      run_all (map (λ e, _ ← push (LStr (upto_nul e.1)); _ ← push_json_to_lua e.2 (depth + 1); lua_rawset (-3)) o)
  end.
Fixpoint call_params (ks : list Z) : M (list json) :=
  match ks with
  | [] => mret []
  | k :: ks =>
      _ ← lua_rawgeti 2 k;
      v ← value_at (-1);
      j ← (if lua_isstring v then s ← lua_tostring (-1); mret (JStr (default [] s)) else
           match v with
           | LBool b => mret (JBool b)
           | LNum f => mret (JFloat f)
           | _ => _ ← lua_pop 1; lift (Throw ipc_types)
           end);
      _ ← lua_pop 1;
      rest ← call_params ks;
      mret (j :: rest)
  end.
(** The file, below the backend's directory when it is there, and the line. *)
Definition caller : bytes :=
  match caller_info with
  | Some (source, currentline) =>
      if 0 <? currentline then
        let src := default #"?" source in
        let path := match src with c :: rest => if beqb c "@" then rest else src | [] => src end in
        let prefix := g_backend_dir ++ #"/" in
        (if prefixb prefix path then drop (length prefix) path else path) ++ #":" ++ int_dec currentline
      else []
  | None => []
  end.
(** The result of the call, pushed; [response["value"]] is of a constant
    value. *)
Definition push_result (result : json) : M nat :=
  success ← lift (value_bool #"success" false result);
  if negb success then
    _ ← push LNil;
    let err := match jget #"error" result with
               | Some (JStr e) => e
               | _ => match jget #"returnJson" result with Some (JStr e) => e | _ => #"unknown error" end
               end in
    _ ← push (LStr (upto_nul err));
    mret 2%nat
  else
    let response := default JNull (jget #"returnJson" result) in
    type ← (if is_object response then lift (value_string #"type" [] response) else mret []);
    if bytes_eqb type #"undefined" || bytes_eqb type #"null" then _ ← push LNil; mret 1%nat else
    if bytes_eqb type #"string" then v ← lift (idx #"value" response); s ← lift (get_string v); _ ← push (LStr (upto_nul s)); mret 1%nat else
    if bytes_eqb type #"boolean" then v ← lift (idx #"value" response); b ← lift (get_bool v); _ ← push (LBool b); mret 1%nat else
    if bytes_eqb type #"number" then v ← lift (idx #"value" response); f ← lift (get_double v); _ ← push (LNum f); mret 1%nat else
    if bytes_eqb type #"object" then
      match jget #"value" response with
      | Some v => _ ← push_json_to_lua v 0; mret 1%nat
      | None => _ ← push LNil; _ ← push (LStr #"object return value is not JSON-serializable"); mret 2%nat
      end
    else _ ← push LNil; _ ← push (LStr (upto_nul (#"unaccepted return type: " ++ type))); mret 2%nat.
Definition RPC_CallFrontendMethod : M nat :=
  methodName ← luaL_checkstring 1;
  top ← lua_gettop;
  second ← (if 2 <=? top then value_at 2 else mret LNil);
  params ← match second with
           | LNil => mret []
           | LTable r => t ← lookup r; call_params (indices (i32 (objlen t)))
           | _ => lift (Throw #"params must be a table")
           end;
  catching (
    result ← rpc_call call #"call_frontend_method"
      (jobj [(#"methodName", JStr methodName); (#"params", JArr params); (#"caller", JStr caller); (#"return_by_value", JBool g_plugin_is_v2)]);
    push_result result)
  (λ e, push_error LNil e).

(** ** Other calls *)

Definition RPC_EmitReadyMessage : M nat :=
  catching (_ ← rpc_call call #"ready" JNull; _ ← push (LBool true); mret 1%nat) (λ _, _ ← push (LBool false); mret 1%nat).
(** [luaL_error] with a text of the call. *)
Definition or_error (name : bytes) (m : M nat) : M nat := catching m (λ e, lift (Throw (name ++ #" failed: " ++ upto_nul e))).
Definition add_browser (method : bytes) : M nat :=
  content ← luaL_checkstring 1;
  pattern ← luaL_optstring 2 #".*";
  or_error method (
    result ← rpc_call call method (jobj [(#"content", JStr content); (#"pattern", JStr pattern)]);
    id ← lift (value_int #"id" (-1) result);
    _ ← push (LNum (double_of_Z id));
    mret 1%nat).
Definition RPC_AddBrowserCss : M nat := add_browser #"add_browser_css".
Definition RPC_AddBrowserJs : M nat := add_browser #"add_browser_js".
Definition RPC_RemoveBrowserModule : M nat :=
  hookId ← luaL_checkinteger 1;
  or_error #"remove_browser_module" (
    result ← rpc_call call #"remove_browser_module" (jobj [(#"hook_id", JInt hookId)]);
    success ← lift (value_bool #"success" false result);
    _ ← push (LBool success);
    mret 1%nat).
(** A text of the host, or what stands for it when the call fails. *)
Definition host_text (method field fallback : bytes) : M nat :=
  catching (result ← rpc_call call method JNull; s ← lift (value_string field [] result); _ ← push (LStr (upto_nul s)); mret 1%nat)
           (λ _, _ ← push (LStr fallback); mret 1%nat).
Definition RPC_GetVersionInfo : M nat := host_text #"version" #"version" #"unknown".
Definition RPC_GetSteamPath : M nat := host_text #"steam_path" #"path" [].
Definition RPC_GetInstallPath : M nat := host_text #"install_path" #"path" [].
Definition RPC_IsPluginEnabled : M nat :=
  name ← luaL_checkstring 1;
  catching (result ← rpc_call call #"is_plugin_enabled" (jobj [(#"name", JStr name)]);
            b ← lift (value_bool #"enabled" false result); _ ← push (LBool b); mret 1%nat)
           (λ _, _ ← push (LBool false); mret 1%nat).
Definition RPC_CompareVersion : M nat :=
  v1 ← luaL_checkstring 1;
  v2 ← luaL_checkstring 2;
  catching (result ← rpc_call call #"cmp_version" (jobj [(#"v1", JStr v1); (#"v2", JStr v2)]);
            r ← lift (value_int #"result" (-2) result); _ ← push (LNum (double_of_Z r)); mret 1%nat)
           (λ _, _ ← push (LNum (double_of_Z (-2))); mret 1%nat).

(** ** Packed files *)

Definition assets_read : M nat :=
  path ← luaL_checkstring 1;
  match g_asset_index !! path, g_backend_file with
  | Some entry, Some file =>
      if 2 ^ (word_bits - 1) <=? compressed_length entry then lift (Throw (#"assets.read: decompress failed: " ++ vector_too_large)) else
      let compressed := take (Z.to_nat (compressed_length entry)) (drop (Z.to_nat (file_offset entry)) file) in
      if len compressed <? compressed_length entry then _ ← push LNil; mret 1%nat else
      match star_decompress word_bits compressed with
      | Ok decompressed => _ ← push (LStr decompressed); mret 1%nat
      | Throw e => lift (Throw (#"assets.read: decompress failed: " ++ e))
      | UB => lift UB
      | NoFuel => lift NoFuel
      end
  | _, _ => _ ← push LNil; mret 1%nat
  end.
Definition assets_size : M nat :=
  path ← luaL_checkstring 1;
  _ ← push (match g_asset_index !! path with Some entry => LNum (double_of_Z (to_lua_Integer (uncompressed_length entry))) | None => LNil end);
  mret 1%nat.
Definition assets_name : M nat :=
  path_raw ← luaL_checkstring 1;
  let path := drop_slashes path_raw in
  _ ← push (LStr (match rfind_char "/"%byte path with None => path | Some pos => drop (pos + 1) path end));
  mret 1%nat.
Definition asset_type (path : bytes) : option bytes :=
  if decide (path ∈ dom g_asset_index) then Some #"file" else
  if existsb (prefixb (path ++ #"/")) (map_to_list g_asset_index).*1 then Some #"directory" else None.
Definition assets_type : M nat :=
  path ← luaL_checkstring 1; _ ← push (match asset_type path with Some t => LStr t | None => LNil end); mret 1%nat.
(** The names found in a directory, in the order of the index. *)
Fixpoint children (prefix : bytes) (keys found : list bytes) : list bytes :=
  match keys with
  | [] => found
  | key :: keys =>
      if negb (prefixb prefix key) then children prefix keys found else
      let name := child_of (drop (length prefix) key) in
      children prefix keys (if has_slash name && bool_decide (name ∈ found) then found else found ++ [name])
  end.
Definition dir_prefix (dir_raw : bytes) : bytes := match drop_slashes dir_raw with [] => [] | dir => dir ++ #"/" end.
Definition asset_names (dir_raw : bytes) : list bytes :=
  merge_sort byte_order (children (dir_prefix dir_raw) (map_to_list g_asset_index).*1 []).
Definition assets_list : M nat :=
  dir_raw ← luaL_optstring 1 [];
  _ ← push_list (LStr ∘ upto_nul <$> asset_names dir_raw);
  mret 1%nat.
End api.

(** ** The files of a package *)

(** An entry as [size_t] holds it. *)
Definition entry_fits `{T : target} (e : AssetEntry) : Prop := 0 <= file_offset e < 2 ^ word_bits ∧ 0 <= compressed_length e < 2 ^ word_bits ∧ 0 <= uncompressed_length e < 2 ^ word_bits.
Lemma read_entry `{T : target} name e l index : entry_fits e → read_asset_index (asset_json (name, e) :: l) index = read_asset_index l (<[name := e]> index).
Proof.
  intros (H1 & H2 & H3). cbn [read_asset_index]. unfold asset_json. cbn [fst snd]. set (j := jobj _). assert (2 ^ word_bits <= 2 ^ 64) as Hw by (apply Z.pow_le_mono_r; [lia|]; destruct word_bits_cases as [-> | ->]; lia).
  change (value_size #"file_offset" j) with (Ok (usize (u64 (file_offset e)))). change (value_size #"compressed_length" j) with (Ok (usize (u64 (compressed_length e)))).
  change (value_size #"uncompressed_length" j) with (Ok (usize (u64 (uncompressed_length e)))). change (value_string #"name" [] j) with (Ok name). cbn [mbind outcome_bind]. rewrite !u64_id by lia. rewrite !usize_id by done. by destruct e.
Qed.
(** The index the host sends is the index it read. *)
Lemma asset_index_sent `{T : target} index : map_Forall (λ _ e, entry_fits e) index → read_asset_index (map asset_json (map_to_list index)) ∅ = Ok index.
Proof.
  intros Hi. assert (∀ l acc, Forall (λ x, entry_fits x.2) l → read_asset_index (map asset_json l) acc = Ok (foldl (λ m x, <[x.1 := x.2]> m) acc l)) as H.
  { induction l as [|[name e] l IH]; intros acc Hl; [done|]. apply Forall_cons in Hl as [He Hl]. cbn [map]. rewrite read_entry by done. by apply IH. }
  rewrite H by (rewrite Forall_forall; intros [k e] Hin%elem_of_map_to_list; by apply (Hi k)). f_equal.
  rewrite <- (list_to_map_to_list index) at 2. pose proof (NoDup_fst_map_to_list index) as Hd. revert Hd. generalize (map_to_list index). clear. intros l Hd.
  assert (∀ acc : gmap bytes AssetEntry, foldl (λ m x, <[x.1 := x.2]> m) acc l = list_to_map l ∪ acc) as ->; [|by rewrite right_id_L by apply _].
  induction l as [|[k e] l IH]; intros acc; cbn [foldl list_to_map fst snd]; [by rewrite left_id_L by apply _|]. cbn in Hd. apply NoDup_cons in Hd as [Hk Hd]. rewrite IH by done.
  change (list_to_map ((k, e) :: l)) with (<[k := e]> (list_to_map l : gmap bytes AssetEntry)). rewrite <- insert_union_l. rewrite insert_union_r; [done|]. by apply not_elem_of_list_to_map_1.
Qed.

Section assets.
  Context `{T : target} {W : Type}.
  Implicit Types w : host W.

(** The bytes of a file in the package. *)
Definition packed_bytes (content : bytes) (e : AssetEntry) : bytes := take (Z.to_nat (compressed_length e)) (drop (Z.to_nat (file_offset e)) content).

(** C19: A plugin reads the files of its package: the index that the host took from
    the package arrives as it was sent; a file in it is its decompressed bytes, or
    an error when they do not decompress or are more than a vector holds, whatever
    the package holds; a file that is cut off or not there is nil.  Only the
    result is pushed. *)
Theorem packed_files_read content index path w : star_read_asset_index (Some content) = Ok index → slot 1 (stack w) = Some (LStr path) →
  ∃ g_asset_index, read_asset_index (map asset_json (map_to_list index)) ∅ = Ok g_asset_index ∧
    assets_read (Some content) g_asset_index w =
    match index !! upto_nul path with
    | Some e =>
        if 2 ^ (word_bits - 1) <=? compressed_length e then (Throw (#"assets.read: decompress failed: " ++ vector_too_large), w) else
        if len (packed_bytes content e) <? compressed_length e then (Ok 1%nat, with_stack (LNil :: stack w) w) else
        match star_decompress word_bits (packed_bytes content e) with
        | Ok out => (Ok 1%nat, with_stack (LStr out :: stack w) w)
        | Throw what => (Throw (#"assets.read: decompress failed: " ++ what), w)
        | o => (UB, w)
        end
    | None => (Ok 1%nat, with_stack (LNil :: stack w) w)
    end ∧
    (assets_read (Some content) g_asset_index w).1 ≠ UB ∧ (assets_read (Some content) g_asset_index w).1 ≠ NoFuel.
Proof.
  intros Hr Hs. pose proof (star_read_asset_index_safe content) as Hi. rewrite Hr in Hi. cbn [safe] in Hi. exists index. split.
  - apply asset_index_sent. eapply map_Forall_impl; [exact Hi|]. intros k e (H1 & H2 & H3). unfold entry_fits. pose proof (Z.pow_le_mono_r 2 32 word_bits ltac:(lia) (proj1 word_bits_ge)). lia.
  - unfold assets_read. rewrite bind_run, (checkstring_run w path 1 Hs). destruct (index !! upto_nul path) as [e|]; [|done]. destruct (_ <=? compressed_length e); [done|]. unfold packed_bytes. destruct (len _ <? _); [done|].
    match goal with |- context [star_decompress word_bits ?s] => pose proof (star_decompress_spec word_bits s ltac:(destruct word_bits_cases as [-> | ->]; lia)) as Hd; destruct (star_decompress word_bits s) end; cbn [safe] in Hd; done.
Qed.
End assets.

(** ** A directory of the package *)

Section directory.
  Variable index : gmap bytes AssetEntry.

Lemma byte_order_total a b : byte_order a b ∨ byte_order b a.
Proof. unfold byte_order. destruct (bytes_ltb b a) eqn:E; [right|by left]. apply not_true_is_false. by apply key_order_asym. Qed.
Lemma byte_order_trans a b c : byte_order a b → byte_order b c → byte_order a c.
Proof.
  unfold byte_order. revert b c. induction a as [|x a IH]; intros [|y b] [|z c]; cbn; try done. rewrite !orb_false_iff, !andb_false_iff, !Z.ltb_ge, !Z.eqb_neq. intros [H1 H2] [H3 H4]. split; [lia|].
  destruct (decide (b2z z = b2z x)) as [Ez|]; [|by left]. right. destruct H2 as [|H2]; [lia|]. destruct H4 as [|H4]; [lia|]. by apply (IH b).
Qed.
Lemma slash_split rel : match find_char "/"%byte rel with
  | Some i => ∃ m rest, rel = m ++ #"/" ++ rest ∧ has_slash m = false ∧ child_of rel = m ++ #"/"
  | None => child_of rel = rel
  end.
Proof.
  unfold child_of. assert (match find_char "/"%byte rel with Some i => ∃ m rest, rel = m ++ #"/" ++ rest ∧ has_slash m = false ∧ take (i + 1) rel = m ++ #"/" | None => True end) as H; [|by destruct (find_char _ _)].
  induction rel as [|c rel IH]; cbn [find_char]; [done|]. destruct (beqb_spec c "/"%byte) as [->|Hc]; [by exists [], rel|]. destruct (find_char "/"%byte rel) as [i|]; [|done]. cbn [fmap option_fmap option_map].
  destruct IH as (m & rest & -> & Hm & E). exists (c :: m), rest. split; [done|]. split; [|change (c :: take (i + 1) (m ++ #"/" ++ rest) = c :: (m ++ #"/")); by rewrite E]. unfold has_slash in *. cbn [find_char]. destruct (beqb_spec c "/"%byte); [done|]. by destruct (find_char _ m).
Qed.
Lemma has_slash_app m rest : has_slash (m ++ #"/" ++ rest) = true.
Proof. induction m as [|c m IH]; [done|]. unfold has_slash in *. cbn [app find_char]. destruct (beqb c "/"); [done|]. by destruct (find_char _ (m ++ _)). Qed.
Lemma child_slash rel : has_slash (child_of rel) = has_slash rel.
Proof.
  pose proof (slash_split rel) as H. destruct (find_char "/"%byte rel) as [i|] eqn:E; [|by rewrite H]. destruct H as (m & rest & -> & _ & ->). rewrite has_slash_app. apply (has_slash_app m []).
Qed.
Lemma child_plain rel : has_slash rel = false → child_of rel = rel.
Proof. unfold has_slash, child_of. by destruct (find_char "/"%byte rel). Qed.
Lemma drop_prefix (prefix rel : bytes) : drop (length prefix) (prefix ++ rel) = rel.
Proof. by rewrite drop_app_length. Qed.

(** What the loop finds. *)
Lemma children_in prefix keys found n : n ∈ children prefix keys found ↔ n ∈ found ∨ ∃ rel, prefix ++ rel ∈ keys ∧ n = child_of rel.
Proof.
  revert found. induction keys as [|key keys IH]; intros found; cbn [children]; [split; [by left|]; intros [?|(rel & Hx & _)]; [done|by apply not_elem_of_nil in Hx]|]. destruct (prefixb prefix key) eqn:Ep; cbn [negb].
  - apply prefixb_true in Ep as [rel ->]. rewrite drop_prefix, IH. transitivity ((n ∈ found ∨ n = child_of rel) ∨ ∃ rel0, prefix ++ rel0 ∈ keys ∧ n = child_of rel0).
    + apply Morphisms_Prop.or_iff_morphism; [|done]. destruct (has_slash _); cbn [andb]; [|rewrite elem_of_app, list_elem_of_singleton; done]. destruct (bool_decide_reflect (child_of rel ∈ found)); [|rewrite elem_of_app, list_elem_of_singleton; done]. split; [by left|]. by intros [?| ->].
    + split; [intros [[?| ->]|(r & Hr & ->)]; [by left|right; exists rel; split; [left|done]|right; exists r; split; [by right|done]]|].
      intros [?|(r & Hr & ->)]; [by left; left|]. apply elem_of_cons in Hr as [->%app_inv_head|Hr]; [by left; right|]. right. by exists r.
  - rewrite IH. split; (intros [?|(r & Hr & ->)]; [by left|]); right; exists r; split; try done; [by right|]. apply elem_of_cons in Hr as [<-|Hr]; [|done]. by rewrite prefixb_app in Ep.
Qed.
Lemma children_nodup prefix keys found : NoDup keys → NoDup found → (∀ rel, prefix ++ rel ∈ keys → has_slash rel = false → rel ∉ found) → NoDup (children prefix keys found).
Proof.
  revert found. induction keys as [|key keys IH]; intros found Hk Hf Hn; cbn [children]; [done|]. apply NoDup_cons in Hk as [Hkey Hk]. destruct (prefixb prefix key) eqn:Ep; cbn [negb]; [|apply IH; [done|done|]; intros rel Hr; apply Hn; by right].
  apply prefixb_true in Ep as [rel ->]. rewrite drop_prefix, child_slash. assert (has_slash rel = false → rel ∉ found) as Hr by (intros; apply Hn; [left|done]).
  assert (∀ rel', prefix ++ rel' ∈ keys → has_slash rel' = false → rel' ∉ found) as Hn' by (intros rel' ?; apply Hn; by right). destruct (has_slash rel) eqn:Es; cbn [andb].
  - destruct (bool_decide_reflect (child_of rel ∈ found)); [by apply IH|]. apply IH; [done| |].
    + apply NoDup_app. split; [done|]. split; [|apply NoDup_singleton]. by intros x Hx ->%list_elem_of_singleton.
    + intros rel' Hr' Hs' [?|E]%elem_of_app; [by apply (Hn' rel')|]. apply list_elem_of_singleton in E as ->. by rewrite child_slash, Es in Hs'.
  - rewrite child_plain by done. apply IH; [done| |].
    + apply NoDup_app. split; [done|]. split; [|apply NoDup_singleton]. intros x Hx ->%list_elem_of_singleton. by apply Hr.
    + intros rel' Hr' Hs' [?|E]%elem_of_app; [by apply (Hn' rel')|]. apply list_elem_of_singleton in E as ->. done.
Qed.

(** The listing of a directory is in order and without repetition, and has
    exactly the names the files below it begin with: a file as it is, with the
    type of a file, a directory with a slash. *)
Theorem directory_listed dir : StronglySorted byte_order (asset_names index dir) ∧ NoDup (asset_names index dir) ∧
  (∀ n, n ∈ asset_names index dir ↔ ∃ rel, is_Some (index !! (dir_prefix dir ++ rel)) ∧ n = child_of rel) ∧
  (∀ n, n ∈ asset_names index dir → has_slash n = false → asset_type index (dir_prefix dir ++ n) = Some #"file") ∧
  (∀ m, m ++ #"/" ∈ asset_names index dir → is_Some (asset_type index (dir_prefix dir ++ m))).
Proof.
  assert (∀ k, k ∈ (map_to_list index).*1 ↔ is_Some (index !! k)) as Hkeys.
  { intros k. split; [intros ([k' e] & -> & Hin)%list_elem_of_fmap; apply elem_of_map_to_list in Hin; by exists e|]. intros [e He]. apply (list_elem_of_fmap_2 fst _ (k, e)). by apply elem_of_map_to_list. }
  assert (∀ n, n ∈ asset_names index dir ↔ ∃ rel, is_Some (index !! (dir_prefix dir ++ rel)) ∧ n = child_of rel) as Hin.
  { intros n. unfold asset_names. rewrite merge_sort_Permutation, children_in. split; [intros [Hx|(rel & Hr & ->)]; [by apply not_elem_of_nil in Hx|]|intros (rel & Hr & ->); right]; exists rel; split; try done; by apply Hkeys. }
  split; [apply StronglySorted_merge_sort; [intros a b c; apply byte_order_trans|intros a b; apply byte_order_total]|]. split; [|split; [exact Hin|split]].
  - unfold asset_names. rewrite merge_sort_Permutation. apply children_nodup; [apply NoDup_fst_map_to_list|constructor|intros rel _ _; apply not_elem_of_nil].
  - intros n (rel & Hr & ->)%Hin Hs. rewrite child_slash in Hs. rewrite child_plain by done. unfold asset_type. rewrite decide_True; [done|]. by apply elem_of_dom.
  - intros m (rel & Hr & Hm)%Hin. unfold asset_type. destruct (decide _); [by eexists|]. assert (existsb (prefixb ((dir_prefix dir ++ m) ++ #"/")) (map_to_list index).*1 = true) as ->; [|by eexists].
    apply existsb_exists. exists (dir_prefix dir ++ rel). split; [apply list_elem_of_In, Hkeys; done|]. apply prefixb_true. assert (has_slash rel = true) as Hs by (rewrite <- child_slash, <- Hm; apply (has_slash_app m [])).
    pose proof (slash_split rel) as H. unfold has_slash in Hs. destruct (find_char "/"%byte rel); [|done]. destruct H as (m' & rest & -> & _ & E). rewrite E in Hm. apply app_inv_tail in Hm as ->. exists rest. by rewrite !app_assoc.
Qed.
End directory.

(** ** Calls of the frontend *)

(** What the frontend gets for a parameter: a number is text. *)
Definition param_json (v : lval) : option json :=
  match v with LStr s => Some (JStr (upto_nul s)) | LNum f => Some (JStr (upto_nul (number_text f))) | LBool b => Some (JBool b) | _ => None end.

Section calls.
  Context `{T : target} {W : Type} (objlen : ltable → Z) (call : bytes → json → W → outcome json * W).
  Abbreviation M := (SM (host W)).
  Implicit Types w : host W.

Lemma push_json_to_lua_same j d : plain_setting j → d + Z.of_nat (nest j) <= MAX_JSON_TO_LUA_DEPTH → (push_json_to_lua j d : M ()) = push_json_value j.
Proof.
  revert d. unfold MAX_JSON_TO_LUA_DEPTH. induction j as [|b|z|f|s|l IH|o IH] using json_nested_ind; intros d Hp Hn; cbn [push_json_to_lua push_json_value]; unfold MAX_JSON_TO_LUA_DEPTH; (destruct (Z.ltb_spec 200 d); [lia|]); try done.
  - by rewrite upto_nul_plain.
  - destruct Hp as (_ & _ & Hp). rewrite all_of in Hp. cbn [nest] in Hn. assert (map (λ elem, push_json_to_lua elem (d + 1) : M ()) l = map push_json_value l) as ->; [|done]. apply map_ext_in. intros x Hx. rewrite Forall_forall in IH, Hp. apply list_elem_of_In in Hx. pose proof (nest_in l x Hx). apply IH; [done|by apply Hp|lia].
  - destruct Hp as (_ & Hk & Hp). rewrite all_of in Hp. cbn [nest] in Hn. match goal with |- (_ ≫= λ _, run_all ?a) = (_ ≫= λ _, run_all ?b) => assert (a = b) as ->; [|done] end. apply map_ext_in. intros e He. apply list_elem_of_In in He. rewrite Forall_forall in Hk. rewrite Forall_forall in IH. rewrite Forall_forall in Hp. rewrite upto_nul_plain by (apply Hk; by apply list_elem_of_fmap_2).
    assert (nest e.2 <= max_list (map (λ e, nest e.2) o))%nat by (apply max_list_elem_of_le; by apply (list_elem_of_fmap_2 (λ e : bytes * json, nest e.2))). rewrite (IH e He (d + 1)); [done|by apply Hp|lia].
Qed.
Lemma call_params_run ks r vs ps w : slot 2 (stack w) = Some (LTable r) → (λ k, raw_get (LNum (double_of_Z k)) (t_entries (table_in (heap w) r))) <$> ks = vs → mapM param_json vs = Some ps →
  call_params ks w = (Ok ps, w).
Proof.
  intros Hs. revert vs ps. induction ks as [|k ks IH]; intros vs ps <- Hp; cbn [call_params fmap list_fmap] in *; [by injection Hp as <-|]. set (v := raw_get _ _) in *.
  cbn [mapM] in Hp. destruct (param_json v) as [j|] eqn:Ej; [|done]. cbn [mbind option_bind] in Hp. destruct (mapM param_json _) as [rest|] eqn:Er; [|done]. cbn in Hp. injection Hp as <-.
  rewrite bind_run. unfold lua_rawgeti, table_at. rewrite !bind_run. unfold value_at at 1. fold (slot 2 (stack w)). rewrite Hs, ret_run, bind_run. unfold lookup. cbn [gets]. fold v. unfold push, modify. set (w1 := with_stack (v :: stack w) w).
  rewrite bind_run, (value_at_top v (stack w) w1) by done. rewrite bind_run. destruct v as [|b|f|s|p|q|o id] eqn:Ev; try done; cbn [lua_isstring param_json] in *.
  - injection Ej as <-. rewrite ret_run, bind_run, (pop1_run (LBool b) (stack w)) by done. change (with_stack (stack w) w1) with (with_stack (stack w) w). rewrite with_same, bind_run, (IH _ rest) by done. done.
  - injection Ej as <-. unfold lua_tostring, lua_tolstring. rewrite !bind_run, (value_at_top (LNum f) (stack w) w1), bind_run by done. unfold modify. rewrite !ret_run, bind_run.
    change (stack w1) with (LNum f :: stack w). assert (place (-1) (LNum f :: stack w) = Some 0%nat) as -> by (unfold place; rewrite len_cons; pose proof (len_nonneg (stack w)); destruct (Z.ltb_spec 0 (-1)); [lia|]; cbn [andb]; destruct (Z.leb_spec (- -1) (1 + len (stack w))); [done|lia]).
    rewrite (pop1_run (LStr (number_text f)) (stack w)) by done. change (with_stack (stack w) (with_stack _ w1)) with (with_stack (stack w) w). rewrite with_same, bind_run, (IH _ rest) by done. done.
  - injection Ej as <-. unfold lua_tostring, lua_tolstring. rewrite !bind_run, (value_at_top (LStr s) (stack w) w1) by done. rewrite !ret_run, bind_run, (pop1_run (LStr s) (stack w)) by done. change (with_stack (stack w) w1) with (with_stack (stack w) w). rewrite with_same, bind_run, (IH _ rest) by done. done.
Qed.
(** What the host answers: the value the frontend's function returned, nothing
    for undefined or null, an object without a JSON form, or an error. *)
Inductive frontend_answer := FText (s : bytes) | FBool (b : bool) | FInt (z : Z) | FDouble (f : spec_float) | FNone (is_null : bool)
  | FObject (j : json) | FOpaque | FError (text : bytes).
Definition value_answer (type : bytes) (value : option json) : json :=
  jobj [(#"success", JBool true); (#"returnJson", jobj ((#"type", JStr type) :: match value with Some v => [(#"value", v)] | None => [] end))].
Definition answer_json (a : frontend_answer) : json :=
  match a with
  | FText s => value_answer #"string" (Some (JStr s))
  | FBool b => value_answer #"boolean" (Some (JBool b))
  | FInt z => value_answer #"number" (Some (JInt z))
  | FDouble f => value_answer #"number" (Some (JFloat f))
  | FNone is_null => value_answer (if is_null then #"null" else #"undefined") None
  | FObject j => value_answer #"object" (Some j)
  | FOpaque => value_answer #"object" None
  | FError text => jobj [(#"success", JBool false); (#"error", JStr text)]
  end.
Definition plain_answer (a : frontend_answer) : Prop := match a with FObject j => plain_setting j ∧ Z.of_nat (nest j) <= MAX_JSON_TO_LUA_DEPTH | _ => True end.
(** The results of the call in Lua, the last one first. *)
Definition arrives (h : gmap positive ltable) (a : frontend_answer) (vs : list lval) : Prop :=
  match a with
  | FText s => vs = [LStr (upto_nul s)]
  | FBool b => vs = [LBool b]
  | FInt z => vs = [LNum (double_of_Z z)]
  | FDouble f => vs = [LNum f]
  | FNone _ => vs = [LNil]
  | FObject j => ∃ v, vs = [v] ∧ is_setting objlen h v j
  | FOpaque => vs = [LStr #"object return value is not JSON-serializable"; LNil]
  | FError text => vs = [LStr (upto_nul text); LNil]
  end.
Lemma push_result_arrives a w : length_law objlen → plain_answer a →
  ∃ vs w', push_result (answer_json a) w = (Ok (length vs), w') ∧ stack w' = vs ++ stack w ∧ outside_world w' = outside_world w ∧ arrives (heap w') a vs.
Proof.
  intros Hl Ha. assert (∀ vs, push_result (answer_json a) w = (Ok (length vs), with_stack (vs ++ stack w) w) → (∀ h, arrives h a vs) →
    ∃ vs w', push_result (answer_json a) w = (Ok (length vs), w') ∧ stack w' = vs ++ stack w ∧ outside_world w' = outside_world w ∧ arrives (heap w') a vs) as Hs.
  { intros vs E Hv. by exists vs, (with_stack (vs ++ stack w) w). }
  destruct a as [s|b|z|f|[]|j| |text];
    [apply (Hs [LStr (upto_nul s)])|apply (Hs [LBool b])|apply (Hs [LNum (double_of_Z z)])|apply (Hs [LNum f])|apply (Hs [LNil])|apply (Hs [LNil])| |
     apply (Hs [LStr #"object return value is not JSON-serializable"; LNil])|apply (Hs [LStr (upto_nul text); LNil])]; try done.
  destruct Ha as [Hp Hn]. unfold push_result. rewrite bind_run. change (lift (value_bool #"success" false _) w) with (Ok true, w). cbn [negb]. cbv iota beta.
  change (default JNull _) with (jobj [(#"type", JStr #"object"); (#"value", j)]). cbn [is_object jobj]. rewrite bind_run. change (lift (value_string #"type" [] _) w) with (Ok #"object", w). cbv iota beta.
  change (bytes_eqb #"object" #"undefined" || bytes_eqb #"object" #"null") with false. change (bytes_eqb #"object" #"string") with false. change (bytes_eqb #"object" #"boolean") with false. change (bytes_eqb #"object" #"number") with false. change (bytes_eqb #"object" #"object") with true. cbv iota.
  change (jget #"value" _) with (Some j). cbv iota. rewrite push_json_to_lua_same by (done || lia). destruct (setting_pushes (W:=W) objlen Hl j Hp w) as (v & h' & E & _ & _ & _ & Hr). rewrite bind_run, E. exists [v]. eexists. split; [reflexivity|].
  split; [done|]. split; [done|]. exists v. split; [done|]. apply Hr. by intros q t.
Qed.

End calls.

(** ** Examples, in the Linux build *)

#[local] Existing Instance target32.

(** A package whose one section holds the file [a/b.txt], the text of which is
    one run of literals. *)
Definition packed_hello : bytes := le_bytes 4 5 ++ [x50] ++ #"hello".
Definition assets_section : bytes := le_bytes 4 1 ++ [x07; x00] ++ le_bytes 4 (len packed_hello) ++ #"a/b.txt" ++ packed_hello.
Definition assets_star : bytes := star_header 0 1 ++ star_entry SEC_ASSETS 0 0 268 (len assets_section) ++ assets_section.
Definition hello_index : gmap bytes AssetEntry := {[ #"a/b.txt" := MkAsset (268 + 4 + 6 + 7) (len packed_hello) 5 ]}.
Definition frame_path : host () := with_stack [LStr #"a/b.txt"] host0.

Lemma hello_loads : ∃ index, star_read_asset_index (Some assets_star) = Ok index ∧ index !! #"a/b.txt" = Some (MkAsset 285 10 5).
Proof.
  assert ((m ← star_read_asset_index (Some assets_star); Ok (map_to_list m)) = Ok [(#"a/b.txt", MkAsset 285 10 5)]) as H by (vm_compute; reflexivity).
  destruct (star_read_asset_index (Some assets_star)) as [m|e| |]; try done. cbn [mbind outcome_bind] in H. injection H as H. exists m. split; [done|]. apply elem_of_map_to_list. rewrite H. left.
Qed.
Lemma packed_files_read_witness : ∃ index g_asset_index, star_read_asset_index (Some assets_star) = Ok index ∧ read_asset_index (map asset_json (map_to_list index)) ∅ = Ok g_asset_index ∧
  assets_read (Some assets_star) g_asset_index frame_path = (Ok 1%nat, with_stack [LStr #"hello"; LStr #"a/b.txt"] frame_path).
Proof.
  destruct hello_loads as (index & El & Ei). destruct (packed_files_read (T:=target32) assets_star index #"a/b.txt" frame_path) as (g & E & Er & _); [exact El|reflexivity|].
  exists index, g. split; [exact El|]. split; [exact E|]. rewrite Er. change (upto_nul #"a/b.txt") with #"a/b.txt". rewrite Ei. assert (packed_bytes assets_star (MkAsset 285 10 5) = packed_hello) as -> by (by vm_compute).
  assert (star_decompress word_bits packed_hello = Ok #"hello") as -> by (by vm_compute). reflexivity.
Defined.
Example hello_listed : asset_names hello_index [] = [ #"a/"] ∧ asset_names hello_index #"a//" = [ #"b.txt"].
Proof. by vm_compute. Qed.

(** A parameter that is a number, and an object as the result. *)
Definition call_frontend (method : bytes) (params : json) (l : list json) : outcome json * list json := (Ok (answer_json (FObject setting0)), l ++ [params]).
Definition frame_call : host (list json) :=
  Host {[ 1%positive := Table [(LNum (double_of_Z 1), LNum (double_of_Z 5)); (LNum (double_of_Z 2), LBool true)] None ]} ∅ ∅ [LTable 1; LStr #"f"] [] 0 false [] [].
(** The debugger describes NaN without a value. *)
Example nan_result_undefined :
  (push_result (W:=()) (jobj [(#"success", JBool true); (#"returnJson", jobj [(#"type", JStr #"number"); (#"unserializableValue", JStr #"NaN")])]) host0).1 = UB.
Proof. by vm_compute. Qed.
