(* ===== verification/LuaUtils.v ===== *)
(** * LuaUtils: the module of plugins for text and tables

    The functions of [utils] ([lua_host/api/utils.cc]) on text, tables and
    encodings, over the interpreter of [LuaVm] and the codec of [Base64].

    Time, random numbers, floating-point helpers, the environment, commands and
    files are calls of the standard library and not modelled, but for the text of
    a UUID.  Parameters stand for the length of a table, comparison with
    metamethods, and the conversion of text to a number. *)

From Stdlib Require Import SpecFloat.
From S2P Require Import Prelude State Json NumText LuaEncode LuaRoundTrip Base64 LuaVm LuaTables LuaConfig LuaHost LuaMillennium.

(** ** Text *)

Definition isspace (c : byte) : bool := bool_decide (c ∈ [ " "%byte; "009"%byte; "010"%byte; "011"%byte; "012"%byte; "013"%byte]).
(** The pieces between the occurrences of [delimiter]. *)
Fixpoint split_text (fuel : nat) (delimiter s : bytes) : outcome (list bytes) :=
  match fuel with
  | O => NoFuel
  | S fuel =>
      match find_sub delimiter s with
      | Some pos => rest ← split_text fuel delimiter (drop (pos + length delimiter) s); Ok (take pos s :: rest)
      | None => Ok [s]
      end
  end.
Fixpoint ltrim (s : bytes) : bytes := match s with c :: rest => if isspace c then ltrim rest else s | [] => [] end.
Definition rtrim (s : bytes) : bytes := reverse (ltrim (reverse s)).
Definition trim (s : bytes) : bytes := rtrim (ltrim s).
Definition endswith (s suf : bytes) : bool :=
  if (length s <? length suf)%nat then false else bytes_eqb (drop (length s - length suf) s) suf.

(** ** Encodings *)

(** A character of [char], which is signed: [isalnum] of a negative value is
    undefined. *)
Definition url_plain (c : byte) : outcome bool :=
  if 128 <=? b2z c then UB else Ok (isalnum c || beqb c "-" || beqb c "_" || beqb c "." || beqb c "~").
Fixpoint url_encode (s : bytes) : outcome bytes :=
  match s with
  | [] => Ok []
  | c :: s => plain ← url_plain c; rest ← url_encode s; Ok ((if (plain : bool) then [c] else "%"%byte :: hexw 2 (b2z c)) ++ rest)
  end.
Definition hex_value (ch : byte) : option Z :=
  if in_range 48 57 ch then Some (b2z ch - 48) else
  if in_range 97 102 ch then Some (b2z ch - 97 + 10) else
  if in_range 65 70 ch then Some (b2z ch - 65 + 10) else None.
Fixpoint url_decode (s : bytes) : bytes :=
  match s with
  | [] => []
  | c :: rest =>
      if beqb c "%" then
        match rest with
        | a :: b :: rest' =>
            match hex_value a, hex_value b with
            | Some hi, Some lo => z2b (Z.lor (Z.shiftl hi 4) lo) :: url_decode rest'
            | _, _ => c :: url_decode rest
            end
        | _ => c :: url_decode rest
        end
      else c :: url_decode rest
  end.
Definition hex_encode (s : bytes) : bytes := concat (map (λ c, hexw 2 (b2z c)) s).
(** [std::hex] of a [lua_Integer] *)
Definition to_hex `{T : target} (num : Z) : bytes := #"0x" ++ hex_digits 16 (usize num).
(** [%0<w>x] of a value that may have 64 bits *)
Definition hex_pad (w : nat) (n : Z) : bytes := let s := hex_digits 16 n in repeat "0"%byte (w - length s) ++ s.
(** The text of a UUID with the random words [data1] and [data2]. *)
Definition uuid_text (data1 data2 : Z) : bytes :=
  let data1 := Z.lor (Z.land data1 0xFFFFFFFFFFFF0FFF) 0x4000 in
  let data2 := Z.lor (Z.land data2 0x3FFFFFFFFFFFFFFF) 0x8000000000000000 in
  hexw 8 (u32 (Z.shiftr data1 32)) ++ #"-" ++ hexw 4 (u16 (Z.shiftr data1 16)) ++ #"-" ++ hexw 4 (u16 data1) ++ #"-" ++
  hexw 4 (u16 (Z.shiftr data2 48)) ++ #"-" ++ hex_pad 12 (Z.land data2 0x0000FFFFFFFFFFFF).

Section utils.
  Context `{T : target}.
  Context {W : Type}.
  Variable objlen : ltable → Z.
  Variable tonumber : bytes → option spec_float.
  (** [lua_equal] of two values *)
  Variable equal : lval → lval → bool.
  (** A global name that the table of the globals does not have. *)
  Variable index_global : bytes → host W → (lval + lval) * host W.
  (** The words drawn for a UUID *)
  Variables word1 word2 : Z.
  Abbreviation M := (SM (host W)).

(** ** The functions on text *)

Definition push_text (s : bytes) : M nat := _ ← push (LStr s); mret 1%nat.
(** [luaL_checklstring]: with the bytes after a zero byte. *)
Definition luaL_checklstring (idx : Z) : M bytes :=
  there ← on_stack idx;
  if negb there then lift (Throw argument_error) else
  s ← lua_tolstring idx;
  match s with Some s => mret s | None => lift (Throw argument_error) end.
Definition Lua_Split : M nat :=
  s ← luaL_checkstring 1;
  delimiter ← luaL_checkstring 2;
  pieces ← lift (split_text (S (length s)) delimiter s);
  _ ← push_list (LStr <$> pieces);
  mret 1%nat.
Definition Lua_Trim : M nat := s ← luaL_checkstring 1; push_text (trim s).
Definition Lua_LTrim : M nat := s ← luaL_checkstring 1; push_text (ltrim s).
Definition Lua_RTrim : M nat := s ← luaL_checkstring 1; push_text (rtrim s).
Definition Lua_StartsWith : M nat := s ← luaL_checkstring 1; p ← luaL_checkstring 2; _ ← push (LBool (prefixb p s)); mret 1%nat.
Definition Lua_EndsWith : M nat := s ← luaL_checkstring 1; suf ← luaL_checkstring 2; _ ← push (LBool (endswith s suf)); mret 1%nat.
Definition check_table (idx : Z) : M positive :=
  there ← on_stack idx;
  if negb there then lift (Throw argument_error) else
  v ← value_at idx;
  match v with LTable r => mret r | _ => lift (Throw argument_error) end.
(** The elements that are text or numbers, each but the first element after
    [delim]. *)
Fixpoint join_loop (delim : bytes) (ks : list Z) (result : bytes) : M bytes :=
  match ks with
  | [] => mret result
  | i :: ks =>
      _ ← lua_rawgeti 1 i;
      val ← lua_tostring (-1);
      _ ← lua_pop 1;
      join_loop delim ks (match val with Some val => result ++ (if 1 <? i then delim else []) ++ val | None => result end)
  end.
Definition Lua_Join : M nat :=
  r ← check_table 1;
  delim ← luaL_checkstring 2;
  t ← lookup r;
  result ← join_loop delim (indices (i32 (objlen t))) [];
  push_text (upto_nul result).

(** ** The functions on tables *)

Fixpoint contains_loop (x : option lval) (ks : list Z) : M bool :=
  match ks with
  | [] => mret false
  | i :: ks =>
      _ ← lua_rawgeti 1 i;
      v ← value_at (-1);
      _ ← lua_pop 1;
      if match x with Some x => equal v x | None => false end then mret true else contains_loop x ks
  end.
Definition Lua_TableContains : M nat :=
  r ← check_table 1;
  t ← lookup r;
  x ← gets (λ w, slot 2 (stack w));
  b ← contains_loop x (indices (i32 (objlen t)));
  _ ← push (LBool b);
  mret 1%nat.
(** The loop up to [INT_MAX] would increment past it. *)
Definition slice_indices (start end_ : Z) : outcome (list Z) :=
  if end_ <? start then Ok [] else
  if end_ =? INT_MAX then UB else Ok ((λ i, start + Z.of_nat i) <$> seq 0 (Z.to_nat (end_ - start + 1))).
Definition Lua_TableSlice : M nat :=
  r ← check_table 1;
  start ← luaL_checkinteger tonumber 2;
  t ← lookup r;
  third ← gets (λ w, slot 3 (stack w));
  end_ ← match third with Some LNil | None => mret (objlen t) | _ => luaL_checkinteger tonumber 3 end;
  ks ← lift (slice_indices (i32 start) (i32 end_));
  _ ← lua_createtable;
  _ ← run_all (zip_with (λ index i, _ ← lua_rawgeti 1 i; lua_rawseti (-2) index) (indices (len ks)) ks);
  mret 1%nat.
(** [while (lua_next(L, idx) != 0)] with a counter from one. *)
Fixpoint each_entry (idx : Z) (body : Z → M ()) (fuel : nat) (index : Z) : M () :=
  match fuel with
  | O => lift NoFuel
  | S fuel => more ← lua_next idx; if negb more then mret tt else _ ← body index; each_entry idx body fuel (index + 1)
  end.
Definition store_key (index : Z) : M () := _ ← lua_pop 1; _ ← lua_pushvalue (-1); lua_rawseti (-3) index.
Definition store_value (index : Z) : M () := lua_rawseti (-3) index.
(** [lua_settable] of the new table, which has no metatable, with a copy of the
    key; the key stays. *)
Definition copy_entry (index : Z) : M () := k ← value_at (-2); store_top (-3) k.
(** The entries of the table [r], which is at [idx], go into the table at the
    top. *)
Definition collect (idx : Z) (body : Z → M ()) (r : positive) : M () :=
  t ← lookup r; _ ← push LNil; each_entry idx body (S (length (t_entries t))) 1.
Definition Lua_TableKeys : M nat := r ← check_table 1; _ ← lua_createtable; _ ← collect 1 store_key r; mret 1%nat.
Definition Lua_TableValues : M nat := r ← check_table 1; _ ← lua_createtable; _ ← collect 1 store_value r; mret 1%nat.
Definition Lua_TableMerge : M nat :=
  r1 ← check_table 1;
  r2 ← check_table 2;
  _ ← lua_createtable;
  _ ← collect 1 copy_entry r1;
  _ ← collect 2 copy_entry r2;
  mret 1%nat.

(** ** The other functions *)

Definition Lua_Base64Encode : M nat := input ← luaL_checklstring 1; push_text (Base64Encode input).
Definition Lua_Base64Decode : M nat := input ← luaL_checklstring 1; push_text (Base64Decode input).
Definition Lua_UrlEncode : M nat := input ← luaL_checkstring 1; s ← lift (url_encode input); push_text s.
Definition Lua_UrlDecode : M nat := input ← luaL_checklstring 1; push_text (url_decode input).
Definition Lua_HexEncode : M nat := input ← luaL_checklstring 1; push_text (hex_encode input).
Definition Lua_ToHex : M nat := num ← luaL_checkinteger tonumber 1; push_text (to_hex num).
Definition Lua_UUID : M nat := push_text (uuid_text word1 word2).
Definition Lua_GetBackendPath : M nat :=
  _ ← lua_getglobal index_global #"MILLENNIUM_PLUGIN_SECRET_BACKEND_ABSOLUTE";
  v ← value_at (-1);
  if lua_isstring v then mret 1%nat else _ ← lua_pop 1; _ ← push LNil; mret 1%nat.
End utils.

(** ** Splitting and joining *)

(** The pieces with [d] between them. *)
Definition join_text (d : bytes) (ps : list bytes) : bytes := match ps with [] => [] | p :: ps => p ++ concat (map (app d) ps) end.
Lemma before_first_match d s i : d ≠ [] → find_sub d s = Some i → find_sub d (take i s) = None.
Proof.
  intros Hd. revert i. induction s as [|c s IH]; intros i; cbn [find_sub].
  - destruct d; [done|]. done.
  - destruct (prefixb d (c :: s)) eqn:E; [intros [= <-]; by destruct d|]. destruct (find_sub d s) as [j|]; [|done]. intros [= <-]. cbn [take find_sub].
    assert (prefixb d (c :: take j s) = false) as ->; [|by rewrite (IH j)]. apply not_true_is_false. intros [r Hr]%prefixb_true. apply not_true_iff_false in E. apply E, prefixb_true. exists (r ++ drop j s). by rewrite app_assoc, <- Hr, <- app_comm_cons, take_drop.
Qed.
(** [split] ends when the delimiter is not empty; the pieces have no delimiter,
    and with delimiters between them they are the text. *)
Lemma split_text_run fuel d s : d ≠ [] → (length s < fuel)%nat →
  ∃ ps, split_text fuel d s = Ok ps ∧ join_text d ps = s ∧ Forall (λ p, find_sub d p = None) ps ∧ ps ≠ [] ∧ (length ps <= S (length s))%nat.
Proof.
  intros Hd. revert s. induction fuel as [|fuel IH]; intros s Hf; [lia|]. cbn [split_text]. destruct (find_sub d s) as [i|] eqn:E; [|exists [s]; cbn; rewrite app_nil_r; split_and!; try done; [by repeat constructor|lia]].
  pose proof (before_first_match d s i Hd E) as Hi. apply find_sub_Some in E as (r & Es & Hl). assert (0 < length d)%nat as Hd0 by (destruct d; [done|cbn; lia]).
  assert (drop (i + length d) s = r) as -> by (rewrite Es, app_assoc, drop_app_length'; [done|rewrite length_app, length_take; lia]). assert (length r < length s)%nat as Hr by (apply (f_equal length) in Es; rewrite !length_app, length_take in Es; lia).
  destruct (IH r ltac:(lia)) as (ps & -> & Hj & Hp & Hn & Hlp). exists (take i s :: ps). cbn [mbind outcome_bind]. split; [done|]. split; [|split; [by constructor|split; [done|cbn [length]; lia]]].
  rewrite Es at 2. destruct ps as [|p ps]; [done|]. cbn [join_text map concat] in *. by rewrite <- Hj, !app_assoc.
Qed.
(** An empty delimiter is found again and again. *)
Lemma empty_delimiter_never_ends fuel s : split_text fuel [] s = NoFuel.
Proof. revert s. induction fuel as [|fuel IH]; intros s; [done|]. cbn [split_text]. destruct s; cbn [find_sub prefixb]; by rewrite IH. Qed.

(** ** URL coding *)

Lemma url_char c : b2z c < 128 → ∃ e, url_encode [c] = Ok e ∧ (∀ rest, url_decode (e ++ rest) = c :: url_decode rest) ∧ Forall (λ c, isalnum c || bool_decide (c ∈ #"-_.~%") = true) e.
Proof. destruct c; intros Hc; (discriminate Hc || (eexists; split; [reflexivity|]; split; [reflexivity|repeat constructor])). Qed.
(** ** Blanks *)

Lemma ltrim_run s : ∃ a, s = a ++ ltrim s ∧ Forall (λ c, isspace c = true) a ∧ (∀ c rest, ltrim s = c :: rest → isspace c = false).
Proof.
  induction s as [|c s IH]; [by exists []|]. cbn [ltrim]. destruct (isspace c) eqn:E; [|exists []; split; [done|]; split; [constructor|]; by intros c' rest [= -> ->]].
  destruct IH as (a & Es & Ha & Hl). exists (c :: a). split; [by rewrite <- app_comm_cons, <- Es|]. split; [by constructor|done].
Qed.
(** [trim] takes the blanks from both ends and nothing else. *)
Theorem trim_spec s : ∃ a b, s = a ++ trim s ++ b ∧ Forall (λ c, isspace c = true) a ∧ Forall (λ c, isspace c = true) b ∧
  (∀ c, head (trim s) = Some c ∨ last (trim s) = Some c → isspace c = false).
Proof.
  destruct (ltrim_run s) as (a & Es & Ha & Hl). destruct (ltrim_run (reverse (ltrim s))) as (b & Eb & Hb & Hr). exists a, (reverse b).
  assert (ltrim s = trim s ++ reverse b) as Et by (rewrite <- (reverse_involutive (ltrim s)), Eb at 1; by rewrite reverse_app). split; [by rewrite <- Et|]. split; [done|]. split; [by apply Forall_reverse|]. intros c [Hc|Hc].
  - destruct (trim s) as [|c' rest] eqn:E; [done|]. injection Hc as ->. rewrite Et in Hl. by apply (Hl c (rest ++ reverse b)).
  - unfold trim, rtrim in Hc. rewrite last_reverse in Hc. destruct (ltrim (reverse (ltrim s))) as [|c' rest] eqn:E; [done|]. injection Hc as ->. by apply (Hr c rest).
Qed.
(** Text of seven-bit characters comes back from its URL form, which has letters,
    digits and the characters [-_.~%] only. *)
Theorem lua_url_roundtrip s : Forall (λ c, b2z c < 128) s → ∃ e, url_encode s = Ok e ∧ url_decode e = s ∧ Forall (λ c, isalnum c || bool_decide (c ∈ #"-_.~%") = true) e.
Proof.
  induction 1 as [|c s Hc _ IH]; [by exists []|]. destruct IH as (e & E & Ed & Hf). destruct (url_char c Hc) as (ec & Ec & Hd & Hfc). cbn [url_encode] in *. rewrite E.
  destruct (url_plain c) as [plain|x| |]; try done. cbn [mbind outcome_bind] in *. injection Ec as Ec. rewrite app_nil_r in Ec. rewrite Ec. exists (ec ++ e). split; [done|]. split; [by rewrite Hd, Ed|]. by apply Forall_app.
Qed.
Lemma lua_url_roundtrip_witness : ∃ e, url_encode #"a b&c/~%" = Ok e ∧ url_decode e = #"a b&c/~%" ∧ e = #"a%20b%26c%2f~%25".
Proof.
  destruct (lua_url_roundtrip #"a b&c/~%") as (e & E & Ed & _); [repeat constructor|]. exists e. split; [exact E|]. split; [exact Ed|]. assert (url_encode #"a b&c/~%" = Ok #"a%20b%26c%2f~%25") as E2 by (by vm_compute). rewrite E2 in E. by injection E as <-.
Defined.

(** ** On the interpreter *)

Section text.
  Context {W : Type} (objlen : ltable → Z).
  Implicit Types w : host W.

Lemma join_loop_run d ks ps r acc w : slot 1 (stack w) = Some (LTable r) → (λ k, raw_get (LNum (double_of_Z k)) (t_entries (table_in (heap w) r))) <$> ks = LStr <$> ps →
  join_loop d ks acc w = (Ok (acc ++ concat (zip_with (λ i p, (if 1 <? i then d else []) ++ upto_nul p) ks ps)), w).
Proof.
  intros Hs. revert ps acc. induction ks as [|k ks IH]; intros [|p ps] acc Hp; try done; cbn [join_loop zip_with concat]; [by rewrite app_nil_r|]. cbn [fmap list_fmap] in Hp. injection Hp as Hk Hp.
  rewrite bind_run. pose proof (run_of_computes _ _ _ _ (computes_rawgeti 1 k r w Hs)) as E. rewrite E, Hk. set (w1 := with_stack (LStr p :: stack w) w). unfold lua_tostring, lua_tolstring. rewrite !bind_run, (value_at_top (LStr p) (stack w) w1), !ret_run, bind_run by done.
  rewrite (pop1_run (LStr p) (stack w)) by done. change (with_stack (stack w) w1) with (with_stack (stack w) w). rewrite with_same. cbn [fmap option_fmap option_map]. rewrite (IH ps) by done. by rewrite <- app_assoc.
Qed.
Lemma join_pieces d n ps : len ps = n → Forall (λ p, x00 ∉ p) ps → concat (zip_with (λ i p, (if 1 <? i then d else []) ++ upto_nul p) (indices n) ps) = join_text d ps.
Proof.
  intros <- Hp. destruct ps as [|p ps]; [done|]. unfold indices, len. rewrite Nat2Z.id. cbn [length seq fmap list_fmap zip_with concat]. apply Forall_cons in Hp as [Hp Hps]. rewrite upto_nul_plain by done. cbn [Z.ltb Z.compare Z.of_nat Pos.compare Pos.compare_cont app join_text]. f_equal.
  assert (∀ k, (1 < k)%nat → zip_with (λ i p, (if 1 <? i then d else []) ++ upto_nul p) (Z.of_nat <$> seq k (length ps)) ps = map (app d) ps) as H; [|by rewrite H by lia].
  induction Hps as [|q ps Hq _ IH]; intros k Hk; [done|]. cbn [length seq fmap list_fmap zip_with map]. rewrite upto_nul_plain by done. destruct (Z.ltb_spec 1 (Z.of_nat k)); [|lia]. by rewrite IH by lia.
Qed.
Lemma pieces_plain d s ps : x00 ∉ s → join_text d ps = s → Forall (λ p, x00 ∉ p) ps.
Proof.
  intros Hs <-. apply Forall_forall. intros p Hp Hz. apply Hs. destruct ps as [|q ps]; [by apply not_elem_of_nil in Hp|]. cbn [join_text]. apply elem_of_app. apply elem_of_cons in Hp as [->|Hp]; [by left|right]. apply list_elem_of_In, in_concat. exists (d ++ p). split; [by apply in_map, list_elem_of_In|].
  apply list_elem_of_In. apply elem_of_app. by right.
Qed.

(** Joining the pieces of a text with the delimiter it was split at gives the
    text. *)
Theorem split_then_join s d w : length_law objlen → stack w = [LStr d; LStr s] → d ≠ [] → x00 ∉ s → x00 ∉ d → len s < 2 ^ 29 →
  ∃ r w1, Lua_Split w = (Ok 1%nat, w1) ∧ stack w1 = LTable r :: stack w ∧
    Lua_Join objlen (with_stack [LStr d; LTable r] w1) = (Ok 1%nat, with_stack [LStr s; LStr d; LTable r] w1).
Proof.
  intros Hlaw Es Hd Hs Hdn Hl. destruct (split_text_run (S (length s)) d s Hd ltac:(lia)) as (ps & Ep & Hj & _ & _ & Hlp). pose proof (pieces_plain d s ps Hs Hj) as Hplain.
  set (r := fresh (dom (heap w))). assert (len (LStr <$> ps) < 2 ^ 30) as Hlen by (unfold len in *; rewrite length_fmap; lia). assert (LNil ∉ (LStr <$> ps)) as Hnil by (by intros (x & [=] & _)%list_elem_of_fmap).
  set (es := zip ((LNum ∘ double_of_Z) <$> indices (len (LStr <$> ps))) (LStr <$> ps)). exists r, (with_stack (LTable r :: stack w) (with_heap (<[r := Table es None]> (heap w)) w)). split; [|split; [done|]].
  - unfold Lua_Split. rewrite bind_run, (checkstring_run w s 1) by (by rewrite Es). rewrite bind_run, (checkstring_run w d 2) by (by rewrite Es). rewrite !upto_nul_plain by done. rewrite bind_run. unfold lift at 1. rewrite Ep, bind_run. by rewrite (push_list_run _ w Hnil Hlen).
  - set (w2 := with_stack [LStr d; LTable r] _). assert (slot 1 (stack w2) = Some (LTable r)) as H1 by done. assert (table_in (heap w2) r = Table es None) as Er by (unfold table_in; cbn; by rewrite lookup_insert_eq).
    unfold Lua_Join, check_table. rewrite bind_run. unfold on_stack at 1. rewrite bind_run. cbn [gets]. rewrite H1, bool_decide_true by (by eexists). cbn [negb]. rewrite bind_run. unfold value_at at 1. fold (slot 1 (stack w2)). rewrite H1, ret_run, bind_run.
    rewrite (checkstring_run w2 d 2) by done. rewrite bind_run. unfold lookup at 1. cbn [gets]. rewrite Er, upto_nul_plain by done. assert (length ((LNum ∘ double_of_Z) <$> indices (len (LStr <$> ps))) = length (LStr <$> ps)) as Hil by (rewrite length_fmap; apply length_indices_len).
    assert (len es = len (LStr <$> ps)) as Hes by (unfold es; revert Hil; generalize ((LNum ∘ double_of_Z) <$> indices (len (LStr <$> ps))); intros ks Hil; unfold len; rewrite length_zip, Hil; lia).
    rewrite (length_sequence _ Hlaw es); [|unfold es; by rewrite snd_zip by lia|rewrite Hes; unfold es; by rewrite fst_zip by lia]. rewrite Hes. assert (i32 (len (LStr <$> ps)) = len ps) as -> by (pose proof (len_nonneg ps); unfold len in *; rewrite length_fmap in *; unfold i32; rewrite Z.mod_small by lia; lia).
    rewrite bind_run, (join_loop_run d (indices (len ps)) ps r [] w2 H1); [|rewrite Er; cbn [t_entries]; unfold es; assert (len (LStr <$> ps) = len ps) as -> by (unfold len; by rewrite length_fmap); apply raw_get_all; [unfold len; by rewrite length_fmap|unfold len in *; by rewrite length_fmap in Hlen]].
    rewrite join_pieces by done. cbn [app]. rewrite Hj, upto_nul_plain by done. done.
Qed.
End text.

(** ** Tables *)

Lemma raw_get_set k k' v es : NoDup es.*1 → raw_get k (raw_set k' v es) = if bool_decide (k = k') then v else raw_get k es.
Proof.
  induction es as [|[x y] es IH]; cbn [raw_set raw_get fmap list_fmap fst]; intros Hd.
  - destruct (bool_decide_reflect (v = LNil)) as [->|]; cbn [raw_get]; by destruct (bool_decide _).
  - apply NoDup_cons in Hd as [Hx Hd]. destruct (bool_decide_reflect (k' = x)) as [->|Hne].
    + destruct (bool_decide_reflect (v = LNil)) as [->|]; cbn [raw_get]; destruct (bool_decide_reflect (k = x)) as [->|]; try done. clear -Hx. induction es as [|[a b] es IH]; [done|]. cbn in *. apply not_elem_of_cons in Hx as [Hne Hx]. rewrite bool_decide_false by done. by apply IH.
    + cbn [raw_get]. rewrite IH by done. destruct (bool_decide_reflect (k = x)) as [->|]; [|done]. by rewrite (bool_decide_false (x = k')) by done.
Qed.

Section tables.
  Context {W : Type}.
  Implicit Types w : host W.
  Variables key_of val_of : Z → lval * lval → lval.

(** What the steps of a loop make of the new table. *)
Fixpoint fill (index : Z) (rest acc : list (lval * lval)) : list (lval * lval) :=
  match rest with [] => acc | e :: rest => fill (index + 1) rest (raw_set (key_of index e) (val_of index e) acc) end.

Lemma store_exact idx k v r l st w t : stack w = v :: l ++ LTable r :: st → slot idx (stack w) = Some (LTable r) → table_in (heap w) r = t →
  store_top idx k w = (Ok tt, with_stack (l ++ LTable r :: st) (with_heap (<[r := Table (raw_set k v (t_entries t)) (t_meta t)]> (heap w)) w)).
Proof.
  intros Es Hs <-. unfold store_top, table_at. rewrite !bind_run. unfold value_at at 1. fold (slot idx (stack w)). rewrite Hs, ret_run, bind_run. unfold value_at. fold (slot (-1) (stack w)). rewrite Es, slot_top, bind_run.
  unfold modify, lua_pop. cbn [stack with_heap]. rewrite Es. reflexivity.
Qed.
Lemma slot_third v k x st : slot (-3) (v :: k :: x :: st) = Some x.
Proof. unfold slot, place. rewrite !len_cons. pose proof (len_nonneg st). destruct (Z.ltb_spec 0 (-3)); [lia|]. cbn [andb]. destruct (Z.leb_spec (- -3) (1 + (1 + (1 + len st)))); [done|lia]. Qed.

Context (body : Z → SM (host W) ()) (idx : Z) (r t : positive) (base : list lval).
Hypothesis Hbody : ∀ index k v w, stack w = v :: k :: LTable r :: base →
  body index w = (Ok tt, with_stack (k :: LTable r :: base) (with_heap (<[r := Table (raw_set (key_of index (k, v)) (val_of index (k, v)) (t_entries (table_in (heap w) r))) (t_meta (table_in (heap w) r))]> (heap w)) w)).
Hypothesis Hkey : ∀ index k v, k ≠ LNil → key_of index (k, v) ≠ LNil.
Hypothesis Hidx : 0 < idx <= len (LTable r :: base).
Hypothesis Hslot : slot idx (LTable r :: base) = Some (LTable t).
Hypothesis Hne : r ≠ t.
Lemma each_entry_run fuel rest k index w : stack w = k :: LTable r :: base → wf_heap (heap w) → t_meta (table_in (heap w) r) = None → is_Some (heap w !! r) →
  follows (t_entries (table_in (heap w) t)) k rest → (length rest < fuel)%nat →
  each_entry idx body fuel index w = (Ok tt, with_stack (LTable r :: base) (with_heap (<[r := Table (fill index rest (t_entries (table_in (heap w) r))) None]> (heap w)) w)) ∧
  wf_heap (<[r := Table (fill index rest (t_entries (table_in (heap w) r))) None]> (heap w)).
Proof.
  revert rest k index w. induction fuel as [|fuel IH]; intros rest k index w Es Hw Hm Hr Hf Hl; [lia|]. cbn [each_entry]. pose proof (run_of_computes _ _ _ _ (computes_next idx w t k rest (LTable r :: base) Es Hidx Hslot Hw Hf)) as E. rewrite bind_run, E. destruct rest as [|[k' v'] rest]; cbn [negb fill].
  - assert (<[r := Table (t_entries (table_in (heap w) r)) None]> (heap w) = heap w) as Hsame by (apply insert_id; destruct Hr as [[es m] Hr]; unfold table_in in *; rewrite Hr in *; cbn in *; by subst m). rewrite Hsame. split; [by destruct w|done].
  - cbn [fst snd]. set (w1 := with_stack (v' :: k' :: LTable r :: base) w). rewrite bind_run, (Hbody index k' v' w1 eq_refl). change (heap w1) with (heap w). rewrite Hm. set (es1 := raw_set _ _ _). set (w2 := with_stack (k' :: LTable r :: base) (with_heap (<[r := Table es1 None]> (heap w)) w1)).
    assert (k' ≠ LNil) as Hk by (destruct (Hw t) as [_ Hnil]; intros ->; apply Hnil; destruct Hf as [[_ <-]|(l & v & ->)]; [by left|rewrite fmap_app; apply elem_of_app; right; right; by left]).
    assert (table_in (heap w2) r = Table es1 None) as Er by (unfold table_in; cbn; by rewrite lookup_insert_eq). assert (table_in (heap w2) t = table_in (heap w) t) as Et by (unfold table_in; cbn; by rewrite lookup_insert_ne).
    assert (wf_heap (heap w2)) as Hw2 by (cbn; apply wf_insert; [done|]; unfold es1; rewrite <- Hm; apply raw_set_wf; [by apply Hkey|apply Hw]).
    destruct (IH rest k' (index + 1) w2 eq_refl Hw2 ltac:(by rewrite Er) ltac:(exists (Table es1 None); cbn; by rewrite lookup_insert_eq) ltac:(rewrite Et; by eapply follows_step) ltac:(cbn in Hl; lia)) as [E2 Hw3].
    rewrite Er in E2, Hw3. cbn [t_entries] in E2, Hw3. rewrite E2. cbn [heap with_heap with_stack w2] in Hw3 |- *. unfold w2, w1 in *. cbn [heap with_heap with_stack] in *. rewrite insert_insert_eq in *. done.
Qed.
End tables.

Lemma raw_get_none k es : k ∉ es.*1 → raw_get k es = LNil.
Proof. induction es as [|[x v] es IH]; [done|]. cbn. intros [Hx Hk]%not_elem_of_cons. rewrite bool_decide_false by done. by apply IH. Qed.
Lemma fill_merge index rest acc k : wf_table (Table acc None) → NoDup rest.*1 → LNil ∉ rest.*1 → LNil ∉ rest.*2 →
  raw_get k (fill (λ _ e, e.1) (λ _ e, e.2) index rest acc) = match raw_get k rest with LNil => raw_get k acc | v => v end.
Proof.
  revert index acc. induction rest as [|[k' v'] rest IH]; intros index acc Hw Hd Hk Hv; cbn [fill raw_get fst snd]; [done|]. cbn [fmap list_fmap fst snd] in *. apply NoDup_cons in Hd as [Hk' Hd]. apply not_elem_of_cons in Hk as [Hkn Hk]. apply not_elem_of_cons in Hv as [Hvn Hv].
  rewrite IH; [|apply (raw_set_wf k' v' (Table acc None)); done|done..]. rewrite raw_get_set by apply Hw. destruct (bool_decide_reflect (k = k')) as [->|]; [|done]. rewrite raw_get_none by done. by destruct v'.
Qed.
Lemma fill_list (val : lval * lval → lval) i rest acc : LNil ∉ (val <$> rest) → NoDup (acc.*1 ++ ((LNum ∘ double_of_Z) <$> (Z.of_nat <$> seq i (length rest)))) →
  fill (λ i _, LNum (double_of_Z i)) (λ _, val) (Z.of_nat i) rest acc = acc ++ zip ((LNum ∘ double_of_Z) <$> (Z.of_nat <$> seq i (length rest))) (val <$> rest).
Proof.
  revert i acc. induction rest as [|e rest IH]; intros i acc Hv Hd; cbn [fill length seq fmap list_fmap zip zip_with] in *; [by rewrite app_nil_r|]. apply not_elem_of_cons in Hv as [Hvn Hv].
  rewrite (cons_middle _ acc.*1), app_assoc in Hd. pose proof Hd as Hd'. apply NoDup_app in Hd' as (Hd' & _ & _). apply NoDup_app in Hd' as (_ & Hk & _).
  rewrite raw_set_new; [|done|intros Hin; apply (Hk _ Hin); by left]. replace (Z.of_nat i + 1) with (Z.of_nat (S i)) by lia. rewrite IH; [by rewrite <- app_assoc|done|by rewrite fmap_app].
Qed.

Section listed.
  Context {W : Type}.
  Implicit Types w : host W.

Lemma check_table_run idx r w : slot idx (stack w) = Some (LTable r) → check_table idx w = (Ok r, w).
Proof.
  intros Hs. unfold check_table, on_stack. rewrite bind_run. cbn [gets]. rewrite Hs, bool_decide_true by (by eexists). cbn [negb]. rewrite bind_run. unfold value_at. fold (slot idx (stack w)). by rewrite Hs.
Qed.
(** A loop over a table, into a new one. *)
Lemma collect_run key_of val_of body idx r t base w :
  (∀ index k v w, stack w = v :: k :: LTable r :: base →
    body index w = (Ok tt, with_stack (k :: LTable r :: base) (with_heap (<[r := Table (raw_set (key_of index (k, v)) (val_of index (k, v)) (t_entries (table_in (heap w) r))) (t_meta (table_in (heap w) r))]> (heap w)) w))) →
  (∀ index k v, k ≠ LNil → key_of index (k, v) ≠ LNil) →
  stack w = LTable r :: base → 0 < idx <= len (LTable r :: base) → slot idx (stack w) = Some (LTable t) → r ≠ t → wf_heap (heap w) → t_meta (table_in (heap w) r) = None → is_Some (heap w !! r) →
  let h' := <[r := Table (fill key_of val_of 1 (t_entries (table_in (heap w) t)) (t_entries (table_in (heap w) r))) None]> (heap w) in
  collect idx body t w = (Ok tt, with_heap h' w) ∧ wf_heap h'.
Proof.
  intros Hbody Hkey Es Hidx Hslot Hne Hw Hm Hr h'. unfold collect, lookup. rewrite bind_run. cbn [gets]. rewrite bind_run. unfold push, modify. rewrite Es in Hslot.
  destruct (each_entry_run key_of val_of body idx r t base Hbody Hkey Hidx Hslot Hne (S (length (t_entries (table_in (heap w) t)))) (t_entries (table_in (heap w) t)) LNil 1 (with_stack (LNil :: stack w) w)) as [E Hw']; [by cbn; rewrite Es|done|done|done|by left|lia|].
  split; [|done]. rewrite E. rewrite <- Es. reflexivity.
Qed.

(** The keys and the values of a table are listed in the order in which it is
    visited. *)
Theorem table_listed t w : wf_heap (heap w) → stack w = [LTable t] → is_Some (heap w !! t) → LNil ∉ (t_entries (table_in (heap w) t)).*2 → len (t_entries (table_in (heap w) t)) < 2 ^ 30 → ∃ r, heap w !! r = None ∧
  let es := t_entries (table_in (heap w) t) in
  let table vs := with_stack (LTable r :: stack w) (with_heap (<[r := Table (zip ((LNum ∘ double_of_Z) <$> indices (len es)) vs) None]> (heap w)) w) in
  Lua_TableKeys w = (Ok 1%nat, table es.*1) ∧ Lua_TableValues w = (Ok 1%nat, table es.*2).
Proof.
  intros Hw Es Ht Hv Hl. set (r := fresh (dom (heap w))). assert (heap w !! r = None) as Hr by (apply not_elem_of_dom; apply is_fresh). exists r. split; [done|]. intros es table. assert (r ≠ t) as Hne by (intros E; rewrite <- E, Hr in Ht; by destruct Ht).
  set (w0 := with_stack (LTable r :: stack w) (with_heap (<[r := no_table]> (heap w)) w)). assert (table_in (heap w0) t = table_in (heap w) t) as Et by (unfold table_in; cbn; by rewrite lookup_insert_ne). assert (table_in (heap w0) r = no_table) as Er by (unfold table_in; cbn; by rewrite lookup_insert_eq).
  assert (wf_heap (heap w0)) as Hw0 by (cbn; apply wf_insert; [done|split; [constructor|apply not_elem_of_nil]]). assert (slot 1 (stack w) = Some (LTable t)) as Hs by (by rewrite Es). assert (slot 1 (stack w0) = Some (LTable t)) as Hs0 by (by cbn; rewrite Es).
  assert (is_Some (heap w0 !! r)) as Hr0 by (exists no_table; cbn; by rewrite lookup_insert_eq). assert (0 < 1 <= len (LTable r :: stack w)) as Hi by (rewrite Es; unfold len; cbn [length]; lia). destruct (Hw t) as [Hnd Hnk].
  assert (NoDup ((LNum ∘ double_of_Z) <$> (Z.of_nat <$> seq 1 (length es)))) as Hds by (pose proof (indices_nodup (len es) Hl) as H; unfold indices, len in H; by rewrite Nat2Z.id in H).
  assert (indices (len es) = Z.of_nat <$> seq 1 (length es)) as Hix by (unfold indices, len; by rewrite Nat2Z.id).
  assert (∀ (val : lval * lval → lval), LNil ∉ (val <$> es) → fill (λ i _, LNum (double_of_Z i)) (λ _, val) 1 es [] = zip ((LNum ∘ double_of_Z) <$> indices (len es)) (val <$> es)) as Hfill by (intros val Hval; rewrite Hix; by apply (fill_list val 1 es [])).
  split.
  - unfold Lua_TableKeys. rewrite bind_run, (check_table_run 1 t w Hs), bind_run. unfold lua_createtable at 1. fold r. fold w0. rewrite bind_run.
    destruct (collect_run (λ i _, LNum (double_of_Z i)) (λ _, fst) store_key 1 r t (stack w) w0) as [E _]; [|done|done|done|done|done|done|by rewrite Er|done|].
    + intros index k v w2 E2. unfold store_key. rewrite bind_run, (pop1_run v (k :: LTable r :: stack w) w2 E2). unfold lua_pushvalue. rewrite bind_run, bind_run. set (w3 := with_stack (k :: LTable r :: stack w) w2). rewrite (value_at_top k (LTable r :: stack w) w3) by done. unfold push, modify. unfold lua_rawseti.
      rewrite (store_exact (-3) _ k r [k] (stack w) (with_stack (k :: stack w3) w3) _ eq_refl (slot_third _ _ _ _) eq_refl). done.
    + rewrite E, Et, Er. fold es. cbn [t_entries no_table]. rewrite (Hfill fst) by done. unfold table. cbn [heap with_heap w0 with_stack]. by rewrite insert_insert_eq.
  - unfold Lua_TableValues. rewrite bind_run, (check_table_run 1 t w Hs), bind_run. unfold lua_createtable at 1. fold r. fold w0. rewrite bind_run.
    destruct (collect_run (λ i _, LNum (double_of_Z i)) (λ _, snd) store_value 1 r t (stack w) w0) as [E _]; [|done|done|done|done|done|done|by rewrite Er|done|].
    + intros index k v w2 E2. unfold store_value, lua_rawseti. rewrite (store_exact (-3) _ v r [k] (stack w) w2 (table_in (heap w2) r) E2); [done|rewrite E2; apply slot_third|done].
    + rewrite E, Et, Er. fold es. cbn [t_entries no_table]. rewrite (Hfill snd) by done. unfold table. cbn [heap with_heap w0 with_stack]. by rewrite insert_insert_eq.
Qed.
End listed.

Section merged.
  Context {W : Type}.
  Implicit Types w : host W.

Lemma copy_entry_run (r : positive) base (index : Z) k v w : stack w = v :: k :: LTable r :: base →
  copy_entry index w = (Ok tt, with_stack (k :: LTable r :: base) (with_heap (<[r := Table (raw_set k v (t_entries (table_in (heap w) r))) (t_meta (table_in (heap w) r))]> (heap w)) w)).
Proof.
  intros E. unfold copy_entry. rewrite bind_run. unfold value_at. fold (slot (-2) (stack w)). rewrite E, slot_second. cbv beta iota. apply (store_exact (-3) k v r [k] base w (table_in (heap w) r) E); [rewrite E; apply slot_third|done].
Qed.
(** The merge of two tables is a new table, with the entries of both; where both
    have a key it has the second one's value.  The two tables do not change. *)
Theorem tables_merged t1 t2 w : wf_heap (heap w) → stack w = [LTable t2; LTable t1] → is_Some (heap w !! t1) → is_Some (heap w !! t2) →
  LNil ∉ (t_entries (table_in (heap w) t1)).*2 → LNil ∉ (t_entries (table_in (heap w) t2)).*2 → ∃ r es, heap w !! r = None ∧
  Lua_TableMerge w = (Ok 1%nat, with_stack (LTable r :: stack w) (with_heap (<[r := Table es None]> (heap w)) w)) ∧
  ∀ k, raw_get k es = match raw_get k (t_entries (table_in (heap w) t2)) with LNil => raw_get k (t_entries (table_in (heap w) t1)) | v => v end.
Proof.
  intros Hw Es H1 H2 Hv1 Hv2. set (r := fresh (dom (heap w))). assert (heap w !! r = None) as Hr by (apply not_elem_of_dom; apply is_fresh).
  assert (∀ t, is_Some (heap w !! t) → r ≠ t) as Hne by (intros t Ht E; rewrite <- E, Hr in Ht; by destruct Ht). set (es1 := t_entries (table_in (heap w) t1)) in *. set (es2 := t_entries (table_in (heap w) t2)) in *.
  set (w0 := with_stack (LTable r :: stack w) (with_heap (<[r := no_table]> (heap w)) w)). assert (wf_heap (heap w0)) as Hw0 by (cbn; apply wf_insert; [done|split; [constructor|apply not_elem_of_nil]]).
  assert (table_in (heap w0) r = no_table) as Er by (unfold table_in; cbn; by rewrite lookup_insert_eq). assert (∀ t, is_Some (heap w !! t) → table_in (heap w0) t = table_in (heap w) t) as Et by (intros t Ht; unfold table_in; cbn; rewrite lookup_insert_ne by (by apply Hne); done).
  set (a1 := fill (λ _ e, e.1) (λ _ e, e.2) 1 es1 []). destruct (collect_run (λ _ e, e.1) (λ _ e, e.2) copy_entry 1 r t1 (stack w) w0) as [E1 Hw1]; [apply copy_entry_run|done|done|rewrite Es; done|cbn; by rewrite Es|by apply Hne|done|by rewrite Er|exists no_table; cbn; by rewrite lookup_insert_eq|].
  rewrite Er, (Et t1 H1) in E1, Hw1. fold es1 in E1, Hw1. cbn [t_entries no_table] in E1, Hw1. fold a1 in E1, Hw1. set (w1 := with_heap (<[r := Table a1 None]> (heap w0)) w0) in *.
  assert (table_in (heap w1) r = Table a1 None) as Er1 by (unfold table_in; cbn; by rewrite lookup_insert_eq). assert (table_in (heap w1) t2 = table_in (heap w) t2) as Et2 by (rewrite <- (Et t2 H2); unfold table_in; cbn; by rewrite lookup_insert_ne by (by apply Hne)).
  destruct (collect_run (λ _ e, e.1) (λ _ e, e.2) copy_entry 2 r t2 (stack w) w1) as [E2 _]; [apply copy_entry_run|done|done|rewrite Es; done|cbn; by rewrite Es|by apply Hne|done|by rewrite Er1|exists (Table a1 None); cbn; by rewrite lookup_insert_eq|].
  rewrite Er1, Et2 in E2. fold es2 in E2. cbn [t_entries] in E2. exists r, (fill (λ _ e, e.1) (λ _ e, e.2) 1 es2 a1). split; [done|]. split.
  - unfold Lua_TableMerge. rewrite bind_run, (check_table_run 1 t1 w), bind_run, (check_table_run 2 t2 w), bind_run by (by rewrite Es). unfold lua_createtable at 1. fold r. fold w0. rewrite bind_run, E1, bind_run, E2, ret_run. unfold w1, w0. cbn [heap with_heap with_stack]. by rewrite !insert_insert_eq.
  - intros k. destruct (Hw t1) as [Hd1 Hn1]. destruct (Hw t2) as [Hd2 Hn2]. assert (wf_table (Table a1 None)) as Hwa by (rewrite <- Er1; apply Hw1). rewrite fill_merge by done. destruct (raw_get k es2); try done. unfold a1. rewrite fill_merge; [|split; [constructor|apply not_elem_of_nil]|done..]. by destruct (raw_get k es1).
Qed.
End merged.

(** ** UUIDs *)

(** Whatever words are drawn, the text is a version 4 UUID: 36 characters, the
    version digit 4 and a variant digit among 8, 9, a and b. *)
Theorem lua_uuid_format data1 data2 : ∃ a b c v d e,
  uuid_text data1 data2 = a ++ #"-" ++ b ++ #"-" ++ "4"%byte :: c ++ #"-" ++ v :: d ++ #"-" ++ e ∧ v ∈ #"89ab" ∧ Forall (λ c, isxdigit c = true) (a ++ b ++ c ++ d ++ e) ∧
  length a = 8%nat ∧ length b = 4%nat ∧ length c = 3%nat ∧ length d = 3%nat ∧ length e = 12%nat.
Proof.
  unfold uuid_text. set (x := Z.lor _ 0x4000). set (y := Z.lor _ 0x8000000000000000).
  assert (0 <= u32 (Z.shiftr x 32) < 16 ^ 8) as R1 by (unfold u32; apply (Z.mod_pos_bound _ (2 ^ 32)); lia). assert (∀ z, 0 <= u16 z < 16 ^ 4) as R2 by (intros z; unfold u16; apply (Z.mod_pos_bound _ (2 ^ 16)); lia).
  assert (0 <= Z.land y 0x0000FFFFFFFFFFFF < 16 ^ 12) as R3 by (change 0x0000FFFFFFFFFFFF with (Z.ones 48); rewrite Z.land_ones by lia; apply (Z.mod_pos_bound _ (2 ^ 48)); lia).
  assert (u16 x / 16 ^ Z.of_nat 3 mod 16 = 4) as Ex.
  { unfold u16. change (16 ^ Z.of_nat 3) with (2 ^ 12). rewrite <- (Z.land_ones x 16), <- Z.shiftr_div_pow2 by lia. change (Z.shiftr (Z.land x (Z.ones 16)) 12 mod 16) with (Z.shiftr (Z.land x (Z.ones 16)) 12 mod 2 ^ 4). rewrite <- Z.land_ones by lia.
    rewrite Z.shiftr_land, <- Z.land_assoc. unfold x. rewrite Z.shiftr_lor, Z.shiftr_land, Z.land_lor_distr_l, <- Z.land_assoc. set (m := Z.land (Z.shiftr 0xFFFFFFFFFFFF0FFF 12) _). assert (m = 0) as -> by reflexivity. by rewrite Z.land_0_r. }
  assert (8 <= u16 (Z.shiftr y 48) / 16 ^ Z.of_nat 3 mod 16 < 12) as Ey.
  { unfold u16. change (16 ^ Z.of_nat 3) with (2 ^ 12). rewrite <- (Z.land_ones _ 16), <- Z.shiftr_div_pow2 by lia. change (Z.shiftr (Z.land (Z.shiftr y 48) (Z.ones 16)) 12 mod 16) with (Z.shiftr (Z.land (Z.shiftr y 48) (Z.ones 16)) 12 mod 2 ^ 4). rewrite <- Z.land_ones by lia.
    rewrite Z.shiftr_land, <- Z.land_assoc, Z.shiftr_shiftr by lia. unfold y. rewrite Z.shiftr_lor, Z.shiftr_land, Z.land_lor_distr_l, <- Z.land_assoc. set (m := Z.land (Z.shiftr 0x3FFFFFFFFFFFFFFF (48 + 12)) _). assert (m = Z.ones 2) as -> by reflexivity. set (n := Z.land (Z.shiftr 0x8000000000000000 _) _). assert (n = Z.shiftl 2 2) as -> by reflexivity.
    rewrite Z.land_ones by lia. pose proof (Z.mod_pos_bound (Z.shiftr data2 (48 + 12)) (2 ^ 2) ltac:(lia)) as Hb. rewrite lor_shiftl_add by lia. lia. }
  rewrite !hexw_fixed by (done || lia). replace (hex_pad 12 (Z.land y 0x0000FFFFFFFFFFFF)) with (hex_fixed 12 (Z.land y 0x0000FFFFFFFFFFFF)) by (symmetry; apply hexw_fixed_fuel; [lia|exact R3]).
  pose proof (R2 x). pose proof (R2 (Z.shiftr y 48)). rewrite (hex_fixed_head 3 (u16 x)), (hex_fixed_head 3 (u16 (Z.shiftr y 48))) by lia. rewrite Ex.
  eexists (hex_fixed 8 _), (hex_fixed 4 _), (hex_fixed 3 _), _, (hex_fixed 3 _), (hex_fixed 12 _). split; [by rewrite <- ?app_assoc|]. rewrite !Forall_app.
  pose proof (λ w n, proj1 (hex_fixed_hex w n)). pose proof (λ w n, proj2 (hex_fixed_hex w n)). split_and!; auto.
  revert Ey. generalize (u16 (Z.shiftr y 48) / 16 ^ Z.of_nat 3 mod 16). intros z Hz. assert (z = 8 ∨ z = 9 ∨ z = 10 ∨ z = 11) as [->|[->|[->| ->]]] by lia; vm_compute; repeat constructor.
Qed.

(** ** Examples *)

Definition frame_text : host () := with_stack [LStr #", "; LStr #"a, b,, "] host0.
Lemma split_then_join_witness : ∃ r w1, Lua_Split frame_text = (Ok 1%nat, w1) ∧ stack w1 = LTable r :: stack frame_text ∧
  Lua_Join objlen0 (with_stack [LStr #", "; LTable r] w1) = (Ok 1%nat, with_stack [LStr #"a, b,, "; LStr #", "; LTable r] w1).
Proof.
  refine (split_then_join objlen0 #"a, b,, " #", " frame_text objlen0_law eq_refl _ _ _ _); [done|by apply (bool_decide_unpack _); vm_compute|by apply (bool_decide_unpack _); vm_compute|by vm_compute].
Defined.
Definition table1 : ltable := Table [(LStr #"a", LBool true); (LStr #"b", LBool true)] None.
Definition table2 : ltable := Table [(LStr #"b", LBool false); (LStr #"c", LBool false)] None.
Definition frame_tables : host () := with_stack [LTable 2; LTable 1] (with_heap (<[2%positive := table2]> (<[1%positive := table1]> ∅)) host0).
Lemma wf_tables : wf_heap (heap frame_tables).
Proof. apply (wf_insert (<[1%positive := table1]> ∅)); [apply (wf_insert ∅); [apply wf_empty|]|]; split; apply (bool_decide_unpack _); by vm_compute. Qed.
Lemma tables_merged_witness : ∃ r es w', Lua_TableMerge frame_tables = (Ok 1%nat, w') ∧ stack w' = LTable r :: stack frame_tables ∧
  map (λ k, raw_get (LStr k) es) [ #"a"; #"b"; #"c"; #"d"] = [LBool true; LBool false; LBool false; LNil].
Proof.
  destruct (tables_merged 1%positive 2%positive frame_tables wf_tables eq_refl) as (r & es & _ & E & Hg); [by eexists|by eexists|by apply (bool_decide_unpack _); vm_compute|by apply (bool_decide_unpack _); vm_compute|].
  exists r, es. eexists. split; [exact E|]. split; [reflexivity|]. cbn [map]. by rewrite !Hg.
Defined.
Definition frame_table : host () := with_stack [LTable 1] (with_heap (<[1%positive := table1]> ∅) host0).
Lemma table_listed_witness : ∃ w1 w2, Lua_TableKeys frame_table = (Ok 1%nat, w1) ∧ Lua_TableValues frame_table = (Ok 1%nat, w2) ∧ length (stack w1) = 2%nat.
Proof.
  destruct (table_listed 1%positive frame_table) as (r & _ & E1 & E2); [apply (wf_insert ∅); [apply wf_empty|]; split; apply (bool_decide_unpack _); by vm_compute|reflexivity|by eexists|by apply (bool_decide_unpack _); vm_compute|by vm_compute|].
  eexists _, _. split; [exact E1|]. split; [exact E2|]. reflexivity.
Defined.
