(* ===== verification/Installers.v ===== *)
(** * Installers: themes and plugins on the disk

    The installers of themes ([bindings/theme_mgr.cc]) and of plugins
    ([bindings/plugin_mgr.cc]) over the disk of [Files]: what they download,
    unpack, move and remove, and how they decide that an update is there.

    Parameters stand for the network, the archive reader, JSON text, the
    package loader and the names the system makes up.  What the user interface
    is shown is kept as a list, without the percentages and without the messages
    inside a download or an extraction, none of which ends an operation; error
    messages are given without the paths in them. *)

From S2P Require Import Prelude State Json Files Theme.

(** A message to the user interface: whose operation, what, whether it ends the
    operation and, then, whether it succeeded. *)
Record progress := Progress { g_op : Z; g_status : bytes; g_complete : bool; g_success : bool }.
(** [cur_op]: the operation of the running thread. *)
Record iworld := IWorld { disk_of : disk; shown : list progress; regenerated : nat; cur_op : Z }.
Definition with_disk (d : disk) (w : iworld) : iworld := IWorld d (shown w) (regenerated w) (cur_op w).
Abbreviation M := (SM iworld).
Definition on_disk {A} (m : SM disk A) : M A := λ w,
  let '(r, d) := m (disk_of w) in (r, with_disk d w).
Definition report (status : bytes) (is_complete success : bool) : M () :=
  modify (λ w, IWorld (disk_of w) (shown w ++ [Progress (cur_op w) status is_complete success]) (regenerated w) (cur_op w)).
Definition dispatch (status : bytes) (is_complete : bool) : M () := report status is_complete true.

(** ** Lines of text files *)

Fixpoint split_lines (s acc : bytes) : list bytes :=
  match s with
  | [] => match acc with [] => [] | _ => [acc] end
  | c :: s => if beqb c x0a then acc :: split_lines s [] else split_lines s (acc ++ [c])
  end.
Definition first_line (s : bytes) : bytes := match split_lines s [] with l :: _ => l | [] => [] end.
Definition strip_cr (s : bytes) : bytes := if bool_decide (last s = Some x0d) then take (length s - 1) s else s.

(** ** Downloads: [system/http.cc] *)

(** Whether the transfer succeeded, its status and what arrived. *)
Record transfer := Transfer { t_ok : bool; t_code : Z; t_body : bytes }.
Definition download_error : bytes := #"Download failed".
(** [t]: no transfer when curl is not there; the settings of the proxy can
    throw, when the file is open already. *)
Definition DownloadWithProgress (t : option (outcome transfer)) (p : path) : SM disk () :=
  match t with
  | None => lift (Throw #"Failed to initialize curl")
  | Some t =>
      opened ← open_file p;
      if negb opened then lift (Throw #"Failed to open file") else
      t ← lift t;
      written ← write_file p (t_body t);
      if negb (t_ok t && written) then _ ← remove_file p; lift (Throw download_error) else
      if (t_code t <? 200) || (300 <=? t_code t) then _ ← remove_file p; lift (Throw download_error) else
      mret tt
  end.

Section installers.
  Variable parse : bytes → outcome json.
  Variable dump : json → outcome bytes.
  (** [Http::Post] and [Http::DownloadWithProgress]: what arrives. *)
  Variable post : bytes → json → outcome bytes.
  Variable download : bytes → option (outcome transfer).
  Variable unzip : bytes → option (list entry * bool).
  (** [parse_star_file]: the plugin's description. *)
  Variable parse_star : bytes → option json.
  (** [theme_config_store::on_config_change_hdlr] *)
  Variable config_change : outcome ().
  (** [GenerateUUID()] *)
  Variable uuid : bytes.
  (** [get_themes_folder()] and [get_plugins_path()] *)
  Variables themes plugins : path.

(** ** Themes *)

Definition theme_error (message : bytes) : json := jobj [(#"success", JBool false); (#"message", JStr message)].
Definition theme_success : json := jobj [(#"success", JBool true)].

Definition theme_dirs (t : tree) : list bytes := omap (λ e : path * node, match e.2 with NDir => last e.1 | _ => None end) (children t themes).
Definition skin_of (t : tree) (name : bytes) : skin :=
  match t !! (themes ++ [name; #"skin.json"]) with
  | None => NoSkin
  | Some NDir => BadJson
  | Some (NFile c) => match parse c with Ok j => Skin j | _ => BadJson end
  end.
Definition find_all_themes : SM disk (list json) :=
  _ ← create_directories themes;
  t ← gets fs;
  lift (FindAllThemes (theme_dirs t) (skin_of t)).

Definition github_is (repo owner : bytes) (theme : json) : outcome bool :=
  d ← value_json #"data" (JObj []) theme;
  github ← value_json #"github" (JObj []) d;
  o ← value_string #"owner" [] github;
  if bytes_eqb o owner then r ← value_string #"repo_name" [] github; Ok (bytes_eqb r repo) else Ok false.
Fixpoint first_theme (repo owner : bytes) (l : list json) : outcome (option json) :=
  match l with
  | [] => Ok None
  | t :: l => b ← github_is repo owner t; if (b : bool) then Ok (Some t) else first_theme repo owner l
  end.
Definition get_theme_from_github (repo owner : bytes) : SM disk (option json) :=
  l ← find_all_themes; lift (first_theme repo owner l).
Definition is_theme_installed (repo owner : bytes) : SM disk bool :=
  theme ← get_theme_from_github repo owner;
  match theme with
  | None => mret false
  | Some t => n ← lift (value_string #"native" [] t); exists_ (resolve themes n)
  end.
Definition regenerate : M () :=
  _ ← modify (λ w, IWorld (disk_of w) (shown w) (S (regenerated w)) (cur_op w)); lift config_change.
Definition uninstall_theme (repo owner : bytes) : M json :=
  theme ← on_disk (get_theme_from_github repo owner);
  match theme with
  | None => mret (theme_error #"Couldn't locate theme on disk!")
  | Some t =>
      if negb (contains #"native" t) then mret (theme_error #"Theme does not have a native path!") else
      n ← lift (value_string #"native" [] t);
      let p := resolve themes n in
      there ← on_disk (exists_ p);
      if negb there then mret (theme_error #"Theme path does not exist!") else
      ok ← on_disk (remove_directory p);
      if negb ok then mret (theme_error #"Failed to delete theme folder") else
      _ ← regenerate;
      mret theme_success
  end.

Definition metadata_of (owner repo commit : bytes) : json := jobj [(#"owner", JStr owner); (#"repo", JStr repo); (#"commit", JStr commit)].
Definition metadata_path (p : path) : path := p ++ [ #"metadata.json"].
(** The file is open, and so empty, when the text is made. *)
Definition write_json (p : path) (j : json) : SM disk bool :=
  match dump j with
  | Ok text => write_file p text
  | o => opened ← open_file p; if (opened : bool) then _ ← lift o; mret false else mret false
  end.
Definition write_metadata (p : path) (owner repo commit : bytes) : SM disk bool :=
  write_json (metadata_path p) (metadata_of owner repo commit).
(** A file that cannot be read is empty to the parser. *)
Definition read_json (p : path) : SM disk json := c ← read_file p; lift (parse (default [] c)).
Definition read_metadata (p : path) : SM disk (option json) :=
  there ← exists_ (metadata_path p);
  if negb there then mret None else
  catching (m ← read_json (metadata_path p);
            mret (if contains #"owner" m && contains #"repo" m && contains #"commit" m then Some m else None))
           (λ _, mret None).

(** The commit of a reference in [packed-refs]. *)
Fixpoint packed_ref (ref : bytes) (lines : list bytes) : bytes :=
  match lines with
  | [] => []
  | line :: lines =>
      match line with
      | [] => packed_ref ref lines
      | c :: _ =>
          if beqb c "#" || beqb c "^" then packed_ref ref lines else
          let line := strip_cr line in
          match find_char " "%byte line with
          | Some i => if bytes_eqb (drop (S i) line) ref then take i line else packed_ref ref lines
          | None => packed_ref ref lines
          end
      end
  end.
Definition read_head (git : path) : SM disk bytes :=
  c ← read_file (git ++ [ #"HEAD"]);
  let head := strip_cr (first_line (default [] c)) in
  if (5 <? length head)%nat && bytes_eqb (take 5 head) #"ref: " then
    let ref := drop 5 head in
    loose ← exists_ (resolve git ref);
    if (loose : bool) then c ← read_file (resolve git ref); mret (strip_cr (first_line (default [] c))) else
    packed ← exists_ (git ++ [ #"packed-refs"]);
    if (packed : bool) then c ← read_file (git ++ [ #"packed-refs"]); mret (packed_ref ref (split_lines (default [] c) [])) else mret []
  else mret head.
Definition get_commit_hash (p : path) : SM disk bytes :=
  metadata ← read_metadata p;
  match metadata with
  | Some m => lift (value_string #"commit" [] m)
  | None =>
      let git := p ++ [ #".git"] in
      there ← exists_ git;
      if negb there then mret [] else
      d ← gets (λ d, is_dir (fs d) git);
      if negb d then mret [] else
      catching (read_head git) (λ _, mret [])
  end.

Definition migrate_theme (p : path) : SM disk () :=
  has ← exists_ (metadata_path p);
  if (has : bool) then mret tt else
  git ← exists_ (p ++ [ #".git"]);
  if negb git then mret tt else
  skin ← exists_ (p ++ [ #"skin.json"]);
  if negb skin then mret tt else
  swallow (
    skin ← read_json (p ++ [ #"skin.json"]);
    match jget #"github" skin with
    | None => mret tt
    | Some g =>
        owner ← lift (value_string #"owner" [] g);
        repo ← lift (value_string #"repo_name" [] g);
        if bytes_eqb owner [] || bytes_eqb repo [] then mret tt else
        commit ← get_commit_hash p;
        if bytes_eqb commit [] then mret tt else
        _ ← write_metadata p owner repo commit; mret tt
    end).
Definition migrate_legacy_themes : SM disk () :=
  swallow (
    there ← exists_ themes;
    if negb there then mret tt else
    es ← list_dir themes;
    for_each (λ e : path * node, match e.2 with NDir => migrate_theme e.1 | NFile _ => mret tt end) es).

(** What the server answers for a theme: address of the archive, commit. *)
Definition theme_source (owner repo : bytes) : outcome (bytes * bytes) :=
  text ← post #"https://steambrew.app/api/v2/update" (jobj [(#"owner", JStr owner); (#"repo", JStr repo)]);
  response ← parse text;
  d ← value_json #"data" (JObj []) response;
  url ← value_string #"download" [] d;
  hash ← value_string #"latestHash" [] d;
  Ok (url, hash).
Definition temp_dir (base : path) : path := base ++ [ #"__tmp_" ++ uuid].
Definition download_to (url : bytes) (p : path) : SM disk () := DownloadWithProgress (download url) p.
(** The first directory among the entries. *)
Definition extracted_folder (es : list (path * node)) : option path := head (omap (λ e : path * node, match e.2 with NDir => Some e.1 | _ => None end) es).
(** [parent_path] of [themes / repo] *)
Definition parent_of (base : path) (s : bytes) : path :=
  match rfind_char "/"%byte s with Some i => resolve base (match i with O => #"/" | _ => take i s end) | None => base end.
Definition remove_if_there (p : path) : SM disk () := there ← exists_ p; if (there : bool) then remove_all p else mret tt.

(** The [catch] of an installer: [inr] is what was thrown while there was a
    temporary directory. *)
Definition cleaning {A} (tmp : path) (failed : bytes → A) (m : M (A + bytes)) : M A :=
  r ← attempt m;
  match r with
  | inl (inl a) => mret a
  | inl (inr e) => _ ← on_disk (remove_if_there tmp); mret (failed e)
  | inr e => mret (failed e)
  end.

(** From the download to the metadata: an error to report, or none. *)
Definition install_unpack (tmp final : path) (owner repo url hash : bytes) : M (option bytes) :=
  _ ← on_disk (create_directories tmp);
  let zip := resolve tmp (repo ++ #".zip") in
  _ ← on_disk (download_to url zip);
  _ ← dispatch #"##strSettingUpTheme" false;
  extracted ← on_disk (ExtractZipArchive unzip zip tmp);
  if negb extracted then _ ← on_disk (remove_all tmp); mret (Some #"Failed to extract theme archive") else
  es ← on_disk (list_dir tmp);
  match extracted_folder es with
  | None => _ ← on_disk (remove_all tmp); mret (Some #"No directory found in extracted theme archive")
  | Some folder =>
      _ ← dispatch #"##strInstallingTheme" false;
      renamed ← on_disk (rename_ec folder final);
      ok ← on_disk (if (renamed : bool) then mret true else _ ← create_directories final; copy_ec folder final);
      if negb ok then
        _ ← on_disk (_ ← remove_all tmp; remove_if_there final);
        mret (Some #"Failed to install theme (copy failed)")
      else
      written ← on_disk (write_metadata final owner repo hash);
      if negb written then
        _ ← on_disk (_ ← remove_all tmp; remove_if_there final);
        mret (Some #"Failed to write metadata after theme install")
      else
      _ ← dispatch #"##strCleaningUp" false;
      _ ← on_disk (remove_all tmp);
      mret None
  end.
Definition install_theme (repo owner : bytes) : M json :=
  let tmp := temp_dir themes in
  cleaning tmp (λ e, theme_error (#"Failed to install theme: " ++ e)) (
    if bytes_eqb repo [] || bytes_eqb owner [] then mret (inl (theme_error #"Repository name and owner cannot be empty")) else
    let final := resolve themes repo in
    root ← on_disk (exists_ (parent_of themes repo));
    if negb root then mret (inl (theme_error #"Themes root directory does not exist")) else
    old ← on_disk (exists_ final);
    removed ← on_disk (if (old : bool) then remove_directory final else mret true);
    if negb removed then mret (inl (theme_error #"Failed to remove existing target path")) else
    _ ← dispatch #"##strStartingThemeInstaller" false;
    src ← lift (theme_source owner repo);
    if bytes_eqb src.1 [] then mret (inl (theme_error #"Failed to resolve download URL for theme")) else
    _ ← dispatch #"##strDownloadingTheme" false;
    r ← attempt (install_unpack tmp final owner repo src.1 src.2);
    match r with
    | inr e => mret (inr e)
    | inl (Some message) => mret (inl (theme_error message))
    | inl None => _ ← regenerate; _ ← dispatch #"##strDone" true; mret (inl theme_success)
    end).

Definition update_unpack (tmp final : path) (owner repo url hash : bytes) : M bool :=
  _ ← on_disk (create_directories tmp);
  let zip := resolve tmp (repo ++ #".zip") in
  _ ← on_disk (download_to url zip);
  extracted ← on_disk (ExtractZipArchive unzip zip tmp);
  if negb extracted then _ ← on_disk (remove_all tmp); mret false else
  es ← on_disk (list_dir tmp);
  match extracted_folder es with
  | None => _ ← on_disk (remove_all tmp); mret false
  | Some folder =>
      _ ← dispatch #"##strCopyingThemeFiles" false;
      _ ← on_disk (copy_tree folder final);
      written ← on_disk (write_metadata final owner repo hash);
      if negb written then _ ← on_disk (remove_all tmp); mret false else
      (* what was written is read back for the log *)
      _ ← on_disk (get_commit_hash final);
      _ ← dispatch #"##strCleaningUp" false;
      _ ← on_disk (remove_all tmp);
      mret true
  end.
Definition update_theme (native : bytes) : M bool :=
  let tmp := temp_dir themes in
  cleaning tmp (λ _, false) (
    let p := resolve themes native in
    metadata ← on_disk (read_metadata p);
    match metadata with
    | None => mret (inl false)
    | Some m =>
        owner ← lift (value_string #"owner" [] m);
        repo ← lift (value_string #"repo" [] m);
        if bytes_eqb owner [] || bytes_eqb repo [] then mret (inl false) else
        src ← lift (theme_source owner repo);
        if bytes_eqb src.1 [] then mret (inl false) else
        _ ← dispatch #"##strDownloadingThemeUpdate" false;
        r ← attempt (update_unpack tmp p owner repo src.1 src.2);
        match r with
        | inr e => mret (inr e)
        | inl false => mret (inl false)
        | inl true => _ ← regenerate; _ ← dispatch #"##strDone" true; mret (inl true)
        end
    end).

(** ** Which themes have updates *)

Fixpoint updatable (l : list json) : SM disk (list (json * path)) :=
  match l with
  | [] => mret []
  | theme :: l =>
      d ← lift (value_json #"data" JNull theme);
      if negb (contains #"github" d) then updatable l else
      n ← lift (value_string #"native" [] theme);
      let p := resolve themes n in
      there ← exists_ p;
      if negb there then updatable l else
      has_metadata ← exists_ (metadata_path p);
      has_git ← exists_ (p ++ [ #".git"]);
      rest ← updatable l;
      mret (if has_metadata || has_git then (theme, p) :: rest else rest)
  end.
Definition query_themes_for_updates : SM disk (list (json * path)) := l ← find_all_themes; updatable l.
Fixpoint make_post_body (themes : list json) : outcome (list json) :=
  match themes with
  | [] => Ok []
  | theme :: l =>
      match jget #"data" theme ≫= jget #"github" with
      | None => make_post_body l
      | Some github =>
          owner ← value_string #"owner" [] github;
          repo ← value_string #"repo_name" [] github;
          rest ← make_post_body l;
          Ok (if negb (bytes_eqb owner []) && negb (bytes_eqb repo []) then jobj [(#"owner", JStr owner); (#"repo", JStr repo)] :: rest else rest)
      end
  end.
(** The query and the body to send; [None] when there is nothing to ask or the
    query failed. *)
Definition get_request_body : SM disk (option (list (json * path) * list json)) :=
  catching (
    q ← query_themes_for_updates;
    body ← lift (make_post_body q.*1);
    mret (match q with [] => None | _ => Some (q, body) end))
  (λ _, mret None).

Fixpoint first_named (name : bytes) (l : list json) : outcome (option json) :=
  match l with
  | [] => Ok None
  | item :: l => n ← value_string #"name" [] item; if bytes_eqb n name then Ok (Some item) else first_named name l
  end.
Definition find_remote_theme (remote : json) (repo : bytes) : outcome (option json) :=
  match remote with JArr l => first_named repo l | _ => Ok None end.
Definition has_updates (p : path) (remote : json) : SM disk bool :=
  remote_commit ← lift (value_string #"commit" [] remote);
  local_commit ← get_commit_hash p;
  mret (negb (bytes_eqb local_commit remote_commit)).
Definition create_update_info (theme remote : json) : outcome json :=
  message ← value_string #"message" #"No commit message." remote;
  date ← value_string #"date" #"unknown" remote;
  url ← value_string #"url" [] remote;
  native ← idx #"native" theme;
  d ← idx #"data" theme;
  name ← value_json #"name" native d;
  Ok (jobj [(#"message", JStr message); (#"date", JStr date); (#"commit", JStr url); (#"native", native); (#"name", name)]).
(** What the server knows about a theme. *)
Definition remote_of (remote theme : json) : outcome (option json) :=
  d ← idx #"data" theme;
  if negb (contains #"github" d) then Ok None else
  github ← idx #"github" d;
  repo ← value_string #"repo_name" [] github;
  find_remote_theme remote repo.
Definition process_theme (remote : json) (q : json * path) : SM disk (option json) :=
  r ← lift (remote_of remote q.1);
  match r with
  | None => mret None
  | Some r =>
      u ← has_updates q.2 r;
      if (u : bool) then info ← lift (create_update_info q.1 r); mret (Some info) else mret None
  end.
Fixpoint process_update (remote : json) (query : list (json * path)) : SM disk (list json) :=
  match query with
  | [] => mret []
  | q :: query => o ← process_theme remote q; rest ← process_update remote query; mret (match o with Some i => i :: rest | None => rest end)
  end.

(** ** Plugins *)

Definition looks_like_zip (c : option bytes) : bool := match c with Some ("P"%byte :: "K"%byte :: _) => true | _ => false end.
Definition plugin_error (what : bytes) : json := jobj [(#"success", JBool false); (#"error", JStr what)].
(** [found]: the plugin with this name; [disable] turns it off. *)
Definition uninstall_plugin (found : option json) (is_enabled : bool) (disable : M ()) : M bool :=
  catching (
    match found with
    | None => mret false
    | Some plugin =>
        _ ← (if is_enabled then disable else mret tt);
        p ← lift (at_ #"path" plugin ≫= get_string);
        let p := resolve [] p in
        there ← on_disk (exists_ p);
        if negb there then mret false else
        _ ← on_disk (safe_remove_directory p);
        mret true
    end)
  (λ _, mret false).
Definition install_plugin (url : bytes) : M json :=
  catching (
    _ ← dispatch #"##strStartingPluginInstaller" false;
    _ ← on_disk (create_directories plugins);
    let file := plugins ++ [uuid] in
    _ ← on_disk (download_to url file);
    _ ← dispatch #"##strSettingUpPlugin" false;
    c ← on_disk (read_file file);
    if negb (looks_like_zip c) then
      c ← on_disk (read_file file);
      match c ≫= parse_star with
      | None => _ ← on_disk (remove_file file); lift (Throw #"Downloaded file is not a valid plugin archive")
      | Some j =>
          name ← lift (value_string #"name" [] j);
          _ ← on_disk (rename file (resolve plugins (name ++ #".star")));
          _ ← dispatch #"##strDone" true;
          mret theme_success
      end
    else
      extracted ← on_disk (ExtractZipArchive unzip file plugins);
      if negb extracted then _ ← on_disk (remove_file file); lift (Throw #"Failed to extract plugin archive") else
      _ ← dispatch #"##strCleaningUp" false;
      _ ← on_disk (remove_file file);
      _ ← dispatch #"##strDone" true;
      mret theme_success)
  (λ e, mret (plugin_error e)).

Definition read_plugin_metadata (p : path) : SM disk (option json) :=
  there ← exists_ (metadata_path p);
  if negb there then mret None else
  catching (m ← read_json (metadata_path p);
            mret (match jget #"id" m, jget #"commit" m with
                  | Some i, Some c => Some (jobj [(#"id", i); (#"commit", c); (#"name", JStr (default [] (last p)))])
                  | _, _ => None
                  end))
           (λ _, mret None).
Fixpoint collect {A} (f : A → SM disk (option json)) (l : list A) : SM disk (list json) :=
  match l with [] => mret [] | x :: l => o ← f x; rest ← collect f l; mret (match o with Some j => j :: rest | None => rest end) end.
Definition get_plugin_data : SM disk (list json) :=
  there ← exists_ plugins;
  if negb there then _ ← create_directories plugins; mret [] else
  es ← list_dir plugins;
  collect (λ e : path * node, match e.2 with NDir => read_plugin_metadata e.1 | NFile _ => mret None end) es.
Definition is_star (name : bytes) : bool := (5 <? length name)%nat && bytes_eqb (drop (length name - 5) name) #".star".
Definition read_star_plugin_metadata (p : path) : SM disk (option json) :=
  c ← read_file p;
  match c ≫= parse_star with
  | None => mret None
  | Some j =>
      name ← lift (value_string #"name" [] j);
      commit ← lift (value_string #"sourceCommit" [] j);
      let file := default [] (last p) in
      mret (Some (jobj [(#"id", JStr name); (#"commit", JStr commit); (#"name", JStr (take (length file - 5) file))]))
  end.
Definition get_star_plugin_data : SM disk (list json) :=
  there ← exists_ plugins;
  if negb there then mret [] else
  es ← list_dir plugins;
  collect (λ e : path * node, match e.2 with NFile _ => if is_star (default [] (last e.1)) then read_star_plugin_metadata e.1 else mret None | NDir => mret None end) es.

Definition plugin_url (id name ext : bytes) : bytes := #"https://steambrew.app/api/v1/plugins/download?id=" ++ id ++ #"&n=" ++ name ++ ext.
Definition update_star_plugin (id name : bytes) (star : path) : M bool :=
  catching (
    let tmp := plugins ++ [ #"__tmp_" ++ uuid ++ #".star"] in
    _ ← dispatch #"##strDownloadingPluginUpdate" false;
    _ ← on_disk (download_to (plugin_url id name #".star") tmp);
    c ← on_disk (read_file tmp);
    match c ≫= parse_star with
    | None => _ ← on_disk (remove_file tmp); mret false
    | Some _ =>
        _ ← dispatch #"##strCleaningUp" false;
        _ ← on_disk (rename tmp star);
        _ ← dispatch #"##strDone" true;
        mret true
    end)
  (λ _, mret false).
(** The description of an installed plugin gets the new commit. *)
Definition write_plugin_commit (target : path) (id commit : bytes) : SM disk () :=
  if bytes_eqb commit [] then mret tt else
  there ← exists_ (metadata_path target);
  m ← (if (there : bool) then read_json (metadata_path target) else mret JNull);
  m ← lift (set_key #"id" (JStr id) m);
  m ← lift (set_key #"commit" (JStr commit) m);
  _ ← write_json (metadata_path target) m;
  _ ← lift (dump m); mret tt.
Definition update_plugin_files (tmp : path) (id name commit : bytes) : M bool :=
  _ ← on_disk (create_directories tmp);
  let zip := resolve tmp (name ++ #".zip") in
  _ ← dispatch #"##strDownloadingPluginUpdate" false;
  _ ← on_disk (download_to (plugin_url id name #".zip") zip);
  _ ← on_disk (ExtractZipArchive unzip zip tmp);
  es ← on_disk (list_dir tmp);
  match extracted_folder es with
  | None => _ ← on_disk (remove_all tmp); mret false
  | Some folder =>
      let target := resolve plugins name in
      _ ← on_disk (create_directories target);
      _ ← dispatch #"##strCopyingPluginFiles" false;
      _ ← on_disk (copy_tree folder target);
      _ ← on_disk (write_plugin_commit target id commit);
      _ ← dispatch #"##strCleaningUp" false;
      _ ← on_disk (remove_all tmp);
      _ ← dispatch #"##strDone" true;
      mret true
  end.
Definition update_plugin (id name commit : bytes) : M bool :=
  let star := resolve plugins (name ++ #".star") in
  is_file ← on_disk (exists_ star);
  if (is_file : bool) then update_star_plugin id name star else
  let tmp := temp_dir plugins in
  catching (update_plugin_files tmp id name commit) (λ _, _ ← on_disk (remove_all tmp); mret false).

(** ** What an installation can touch *)

Definition outw (X : list path) (w w' : iworld) : Prop := outside X (disk_of w) (disk_of w').
#[local] Instance outw_preorder X : PreOrder (outw X).
Proof. unfold outw. split; [by intros w|]. intros w1 w2 w3 H1 H2. by etrans. Qed.
Lemma on_disk_run {A} (m : SM disk A) w : on_disk m w = ((m (disk_of w)).1, with_disk (m (disk_of w)).2 w).
Proof. unfold on_disk. by destruct (m (disk_of w)). Qed.
Lemma steps_on_disk {A} X (m : SM disk A) : steps (outside X) m → steps (outw X) (on_disk m).
Proof. intros Hm w. rewrite on_disk_run. apply Hm. Qed.
Lemma steps_dispatch X st c : steps (outw X) (dispatch st c).
Proof. apply steps_modify. intros w. unfold outw. reflexivity. Qed.
Lemma steps_regenerate X : steps (outw X) regenerate.
Proof. unfold regenerate. apply steps_bind; [apply _| |intros; apply steps_lift, _]. apply steps_modify. intros w. unfold outw. reflexivity. Qed.
Lemma steps_bind_run {A B} {S} (R : S → S → Prop) `{!PreOrder R} (m : SM S A) (f : A → SM S B) :
  steps R m → (∀ a st st', m st = (Ok a, st') → steps R (f a)) → steps R (m ≫= f).
Proof.
  intros Hm Hf st. rewrite bind_run. specialize (Hm st). destruct (m st) as [[a|e| |] st'] eqn:E; cbn in *; [|intros _; by apply Hm|by intros [? _]|by intros [_ ?]].
  intros Hd. etrans; [by apply Hm|]. by apply (Hf a st st').
Qed.
Lemma folder_below tmp es folder w w' : on_disk (list_dir tmp) w = (Ok es, w') → extracted_folder es = Some folder → tmp `prefix_of` folder.
Proof.
  rewrite on_disk_run. intros [= E _] Hf. unfold list_dir in E. rewrite bind_run in E. destruct (next_fault (disk_of w)) as [[f| | |] d1]; try done. rewrite bind_run in E. cbn [gets] in E.
  destruct f as [sel|]; [done|]. destruct (is_dir (fs d1) tmp); [|done]. injection E as <-. unfold extracted_folder in Hf. apply head_Some_elem_of in Hf.
  apply list_elem_of_omap in Hf as ([q n] & Hq & Hn). apply children_spec in Hq as [_ [x ->]]. cbn in Hn. destruct n; [|done]. injection Hn as <-. by eexists.
Qed.
Lemma steps_download X t p : within X p → steps (outside X) (DownloadWithProgress t p).
Proof. intros Hp. unfold DownloadWithProgress. pose proof (steps_open X p Hp). pose proof (λ c, steps_write X p c Hp). pose proof (steps_remove_file X p Hp). steps. Qed.
Lemma steps_write_json X p j : within X p → steps (outside X) (write_json p j).
Proof. intros Hp. unfold write_json. pose proof (steps_open X p Hp). pose proof (λ c, steps_write X p c Hp). steps. Qed.
Lemma steps_remove_if_there X p : within X p → steps (outside X) (remove_if_there p).
Proof. intros Hp. unfold remove_if_there. pose proof (steps_exists X p). pose proof (steps_or_throw X _ (steps_remove_all_ec X p Hp)). unfold remove_all. steps. Qed.
Lemma steps_cleaning {A} X tmp (failed : bytes → A) m : within X tmp → steps (outw X) m → steps (outw X) (cleaning tmp failed m).
Proof. intros Ht Hm. unfold cleaning. pose proof (steps_on_disk X _ (steps_remove_if_there X tmp Ht)). steps. Qed.

(** The archives hold no name that leads out of where they are unpacked. *)
Definition sound_archives (tmp : path) : Prop := ∀ c es b, unzip c = Some (es, b) → Forall (stays tmp) es.

Section unpack.
  Variables (X : list path) (tmp final : path) (owner repo : bytes).
  Hypothesis Ht : within X tmp.
  Hypothesis Hfinal : within X final.
  Hypothesis Hzip : within X (resolve tmp (repo ++ #".zip")).
  Hypothesis Harch : sound_archives tmp.
Lemma steps_remove_all p : within X p → steps (outside X) (remove_all p).
Proof. intros Hp. apply steps_or_throw. by apply steps_remove_all_ec. Qed.
Lemma steps_get_commit_hash p : steps (outside X) (get_commit_hash p).
Proof. unfold get_commit_hash, read_metadata, read_json, read_head. pose proof (steps_exists X). pose proof (steps_read X). steps. Qed.
Lemma steps_install_unpack url hash : steps (outw X) (install_unpack tmp final owner repo url hash).
Proof.
  unfold install_unpack. pose proof (steps_on_disk X _ (steps_remove_all tmp Ht)) as Hr. pose proof (steps_dispatch X) as Hdis.
  apply steps_bind; [apply _|by apply steps_on_disk, steps_create_directories|intros _]. apply steps_bind; [apply _|by apply steps_on_disk, steps_download|intros _].
  apply steps_bind; [apply _|done|intros _]. apply steps_bind; [apply _|by apply steps_on_disk, steps_extract|intros [|]; cbn [negb]; [|steps]].
  apply steps_bind_run; [apply _|apply steps_on_disk, steps_list_dir|]. intros es w w' Hes. destruct (extracted_folder es) as [folder|] eqn:E; [|steps].
  assert (within X folder) as Hf by (destruct (folder_below _ _ _ _ _ Hes E) as [r ->]; by apply within_app).
  pose proof (steps_on_disk X _ (steps_rename_ec X folder final Hf Hfinal)). pose proof (steps_create_directories X final Hfinal). pose proof (steps_copy_ec X folder final Hfinal).
  pose proof (steps_remove_all tmp Ht). pose proof (steps_remove_if_there X final Hfinal). pose proof (steps_on_disk X _ (steps_write_json X _ (metadata_of owner repo hash) (within_app X final [ #"metadata.json"] Hfinal))).
  steps; apply steps_on_disk; steps.
Qed.
Lemma steps_update_unpack url hash : steps (outw X) (update_unpack tmp final owner repo url hash).
Proof.
  unfold update_unpack. pose proof (steps_on_disk X _ (steps_remove_all tmp Ht)) as Hr. pose proof (steps_dispatch X) as Hdis.
  pose proof (steps_on_disk X _ (steps_create_directories X tmp Ht)). pose proof (steps_on_disk X _ (steps_download X (download url) _ Hzip)). pose proof (λ zip, steps_on_disk X _ (steps_extract X unzip zip tmp Ht Harch)).
  pose proof (steps_on_disk X _ (steps_list_dir X tmp)). pose proof (λ folder, steps_on_disk X _ (steps_copy_tree X folder final Hfinal)). pose proof (steps_on_disk X _ (steps_get_commit_hash final)).
  pose proof (steps_on_disk X _ (steps_write_json X _ (metadata_of owner repo hash) (within_app X final [ #"metadata.json"] Hfinal))). steps.
Qed.
End unpack.

Lemma plain_suffix s ext : plain s → (2 <= length ext)%nat → Forall (λ c, c ≠ "/"%byte) ext → plain (s ++ ext).
Proof.
  intros (Hn & _ & _ & Hf) Hl He. destruct s as [|c s]; [done|]. repeat split; [done| | |by apply Forall_app]; intros E; apply (f_equal length) in E; rewrite length_app in E; cbn in E; lia.
Qed.
Lemma zip_within X tmp repo : within X tmp → plain repo → within X (resolve tmp (repo ++ #".zip")).
Proof. intros Ht Hp. rewrite resolve_plain; [by apply within_app|]. apply plain_suffix; [done|cbn; lia|]. by repeat constructor. Qed.
Lemma within_here X x : x ∈ X → within X x.
Proof. intros H. by exists x. Qed.


(** Updating one, the same, when its metadata names a plain repository. *)
Theorem update_theme_contained native w :
  plain native → sound_archives (temp_dir themes) →
  (∀ d m repo, (read_metadata (themes ++ [native]) d).1 = Ok (Some m) → value_string #"repo" [] m = Ok repo → plain repo) →
  defined (update_theme native w).1 → outw [themes ++ [native]; temp_dir themes] w (update_theme native w).2.
Proof.
  intros Hp Ha Hm. set (X := [_; _]). revert w. change (steps (outw X) (update_theme native)).
  assert (within X (temp_dir themes)) as Ht by (apply within_here; right; by left). unfold update_theme. rewrite (resolve_plain themes native) by done.
  assert (within X (themes ++ [native])) as Hf by (apply within_here; by left).
  apply steps_cleaning; [done|]. apply steps_bind_run; [apply _|apply steps_on_disk; unfold read_metadata, read_json; pose proof (steps_exists X); pose proof (steps_read X); steps|].
  intros m w w' Er. rewrite on_disk_run in Er. injection Er as Er _. destruct m as [m|]; [|steps]. apply steps_bind; [apply _|steps|intros owner].
  apply steps_bind_run; [apply _|steps|]. intros repo ? ? [= E _]. pose proof (Hm _ _ _ Er E) as Hr.
  pose proof (λ url hash, steps_update_unpack X _ _ owner repo Ht Hf (zip_within X _ _ Ht Hr) Ha url hash). pose proof (steps_dispatch X). pose proof (steps_regenerate X). steps.
Qed.

(** ** An installed theme is current *)

(** The description of a theme is read back as it was written. *)
Definition metadata_kept : Prop := ∀ owner repo commit text, dump (metadata_of owner repo commit) = Ok text → parse text = Ok (metadata_of owner repo commit).

Lemma kept_run {A} X (m : M A) w a w' q : steps (outw X) m → m w = (Ok a, w') → Forall (λ p, apart p q) X → fs (disk_of w') !! q = fs (disk_of w) !! q.
Proof. intros Hm E Hq. specialize (Hm w). rewrite E in Hm. apply Hm; [apply Ok_defined|done]. Qed.
Lemma write_metadata_true p owner repo commit w w' : metadata_kept → on_disk (write_metadata p owner repo commit) w = (Ok true, w') →
  ∃ text, parse text = Ok (metadata_of owner repo commit) ∧ fs (disk_of w') !! metadata_path p = Some (NFile text).
Proof.
  intros Hk. rewrite on_disk_run. intros [= E <-]. unfold write_metadata, write_json in *. destruct (dump (metadata_of owner repo commit)) as [text|e| |] eqn:Ed.
  - exists text. split; [by apply Hk|]. cbn. apply (write_file_true _ _ (disk_of w)). rewrite <- E. by destruct (write_file _ _ _).
  - rewrite bind_run in E. destruct (open_file _ _) as [[[|]| | |] ?]; done.
  - rewrite bind_run in E. destruct (open_file _ _) as [[[|]| | |] ?]; done.
  - rewrite bind_run in E. destruct (open_file _ _) as [[[|]| | |] ?]; done.
Qed.
Lemma read_json_run t p text j : t !! p = Some (NFile text) → parse text = Ok j → read_json p (Disk t []) = (Ok j, Disk t []).
Proof. intros Ht Hp. unfold read_json, read_file. rewrite !bind_run. cbn [next_fault faults gets fs]. rewrite Ht. cbn. change (id text) with text. by rewrite Hp. Qed.
Lemma read_metadata_run t p text owner repo commit : t !! metadata_path p = Some (NFile text) → parse text = Ok (metadata_of owner repo commit) →
  read_metadata p (Disk t []) = (Ok (Some (metadata_of owner repo commit)), Disk t []).
Proof.
  intros Ht Hp. unfold read_metadata, exists_. rewrite !bind_run. cbn [next_fault faults gets fs]. rewrite Ht, bool_decide_true by (by eexists). cbn [negb].
  unfold catching. by rewrite bind_run, (read_json_run _ _ _ _ Ht Hp).
Qed.
Lemma get_commit_hash_read t p text owner repo commit : t !! metadata_path p = Some (NFile text) → parse text = Ok (metadata_of owner repo commit) →
  get_commit_hash p (Disk t []) = (Ok commit, Disk t []).
Proof.
  intros Ht Hp. unfold get_commit_hash. by rewrite bind_run, (read_metadata_run _ _ _ _ _ _ Ht Hp).
Qed.
Lemma has_updates_false t p text owner repo commit remote : t !! metadata_path p = Some (NFile text) → parse text = Ok (metadata_of owner repo commit) →
  value_string #"commit" [] remote = Ok commit → (has_updates p remote (Disk t [])).1 = Ok false.
Proof.
  intros Ht Hp Hc. unfold has_updates. rewrite bind_run. cbn [lift]. rewrite Hc, bind_run, (get_commit_hash_read _ _ _ _ _ _ Ht Hp). cbn. by rewrite bytes_eqb_refl.
Qed.
Lemma cleaning_Ok {A} tmp (failed : bytes → A) m w a w' : cleaning tmp failed m w = (Ok a, w') → (∀ e, a ≠ failed e) → m w = (Ok (inl a), w').
Proof.
  unfold cleaning, attempt, catching. rewrite !bind_run. destruct (m w) as [[[b|e]|e| |] w1]; cbn; try done; [intros [= -> ->]; done| |intros [= <- <-] H; by destruct (H e)].
  rewrite bind_run. destruct (on_disk _ w1) as [[u|e'| |] w2]; cbn; try done. intros [= <- <-] H. by destruct (H e).
Qed.
Lemma attempt_inl {S A} (m : SM S A) w a w' : attempt m w = (Ok (inl a), w') → m w = (Ok a, w').
Proof. unfold attempt, catching. rewrite bind_run. destruct (m w) as [[b|e| |] w1]; try done. by intros [= -> ->]. Qed.

(** Splits [(m ≫= f) w = (Ok a, w')] into the two runs. *)
Ltac split_run H x w1 E := apply bind_run_Ok in H as (x & w1 & E & H).

Lemma tmp_apart final : final ≠ [] → final ≠ temp_dir themes → up final = themes → Forall (λ p, apart p (metadata_path final)) [temp_dir themes].
Proof.
  intros H0 Hne Hup. destruct final as [|n l _] using rev_ind; [done|]. rewrite up_snoc in Hup. subst l. constructor; [|done]. unfold apart, metadata_path, temp_dir in *. rewrite <- app_assoc. split; intros [r E].
  - rewrite <- app_assoc in E. apply app_inv_head in E. cbn in E. injection E as E _. by rewrite E in Hne.
  - rewrite <- !app_assoc in E. apply app_inv_head in E. by injection E.
Qed.
Lemma update_unpack_writes final owner repo url hash w w' : metadata_kept → Forall (λ p, apart p (metadata_path final)) [temp_dir themes] →
  update_unpack (temp_dir themes) final owner repo url hash w = (Ok true, w') →
  ∃ text, parse text = Ok (metadata_of owner repo hash) ∧ fs (disk_of w') !! metadata_path final = Some (NFile text).
Proof.
  intros Hk Hq H. unfold update_unpack in H. split_run H u w1 E1. split_run H u2 w2 E2. split_run H x3 w3 E3. destruct x3; cbn [negb] in H; [|split_run H u3 w4 E4; done].
  split_run H es w4 E4. destruct (extracted_folder es) as [folder|]; [|split_run H u3 w5 E5; done]. split_run H u5 w5 E5. split_run H u6 w6 E6. split_run H wr w7 E7.
  destruct wr; cbn [negb] in H; [|split_run H u3 w8 E8; done]. split_run H c w8 E8. split_run H u9 w9 E9. split_run H u10 w10 E10. injection H as <-.
  destruct (write_metadata_true _ _ _ _ _ _ Hk E7) as (text & Hp & Ht). exists text. split; [done|].
  rewrite (kept_run [temp_dir themes] _ _ _ _ _ (steps_on_disk _ _ (steps_remove_all _ _ (within_here _ _ ltac:(by left)))) E10 Hq).
  rewrite (kept_run [] _ _ _ _ _ (steps_dispatch _ _ _) E9) by done. by rewrite (kept_run [] _ _ _ _ _ (steps_on_disk _ _ (steps_get_commit_hash _ _)) E8).
Qed.

(** When an update of a theme succeeds, the theme's directory records the commit
    the server named as the latest, so that a check against that commit finds no
    update. *)
Theorem theme_update_settles native w w' :
  metadata_kept → plain native → native ≠ #"__tmp_" ++ uuid → update_theme native w = (Ok true, w') →
  ∃ owner repo url latest, theme_source owner repo = Ok (url, latest) ∧
    ∀ remote, value_string #"commit" [] remote = Ok latest → (has_updates (themes ++ [native]) remote (Disk (fs (disk_of w')) [])).1 = Ok false.
Proof.
  intros Hk Hp Hne H. unfold update_theme in H. rewrite (resolve_plain themes native) in H by done. apply cleaning_Ok in H; [|done]. split_run H m w1 E1. destruct m as [m|]; [|done].
  split_run H owner w2 E2. split_run H repo w3 E3. destruct (bytes_eqb owner [] || bytes_eqb repo []); [done|]. split_run H src w4 E4. destruct src as [url latest]. cbn [fst snd] in H.
  destruct (bytes_eqb url []); [done|]. split_run H u w5 E5. split_run H r w6 E6. destruct r as [[|]|e]; [|done|done]. apply attempt_inl in E6. split_run H u7 w7 E7. split_run H v8 w8 E8. injection H as <-.
  exists owner, repo, url, latest. injection E4 as E4 _. split; [exact E4|]. intros remote Hr.
  destruct (update_unpack_writes (themes ++ [native]) owner repo url latest w5 w6 Hk) as (text & Ht & Hf); [|done|].
  - apply tmp_apart; [by destruct themes| |apply up_snoc]. intros E. apply app_inv_head in E. by injection E as E.
  - apply (has_updates_false _ _ text owner repo latest); [|done|done]. by rewrite (kept_run [] _ _ _ _ _ (steps_dispatch _ _ _) E8), (kept_run [] _ _ _ _ _ (steps_regenerate _) E7).
Qed.

(** ** Updates of packed plugins *)

Lemma wp_on_disk {A} (m : SM disk A) w Q E : wp m (disk_of w) (λ a d, Q a (with_disk d w)) (λ e d, E e (with_disk d w)) → wp (on_disk m) w Q E.
Proof. unfold wp. rewrite on_disk_run. by destruct (m (disk_of w)) as [[a|e| |] d]. Qed.
Definition arrives (t : option (outcome transfer)) (body : bytes) : Prop := ∃ code, t = Some (Ok (Transfer true code body)) ∧ 200 <= code < 300.
Lemma wp_write p c d : wp (write_file p c) d (λ ok d', (ok = true → fs d' !! p = Some (NFile c)) ∧ outside [p] d d') (λ _ d', outside [p] d d').
Proof.
  eapply wp_mono; [apply (wp_steps (outside [p]) _ _ (λ ok d', ok = true → fs d' !! p = Some (NFile c)) (λ _ _, True))|done|by intros e d' []].
  - pose proof (total_write p c d) as Ht. unfold wp. destruct (write_file p c d) as [[[|]|e| |] d'] eqn:E; try done; [intros _; by apply (write_file_true _ _ _ _ E)|by destruct Ht|by destruct Ht].
  - apply steps_write, within_here. by left.
Qed.
Lemma wp_download t p d : (∀ o, t = Some o → defined o) →
  wp (DownloadWithProgress t p) d (λ _ d', outside [p] d d' ∧ ∃ body, arrives t body ∧ fs d' !! p = Some (NFile body)) (λ _ d', outside [p] d d').
Proof.
  intros Ht. assert (within [p] p) as Hp by (apply within_here; by left). unfold DownloadWithProgress. destruct t as [t|]; [|by apply wp_lift].
  apply wp_bind. eapply wp_mono; [apply (wp_frame _ _ _ (total_open p) (steps_open _ _ Hp))| |done]. intros [|] d1 H1; [|by apply wp_lift]. cbn [negb].
  apply wp_bind. specialize (Ht t eq_refl). destruct t as [t|e| |]; [|by apply wp_lift|by destruct Ht|by destruct Ht]. apply wp_lift; [|done]. cbn [safe].
  apply wp_bind. eapply wp_mono; [apply wp_write| |intros e d2 H2; cbn; by etrans]. intros ok d2 [Hok H2]. assert (outside [p] d d2) as H12 by (by etrans).
  assert (wp (_ ← remove_file p; lift (Throw download_error)) d2 (λ (_ : ()) d', outside [p] d d' ∧ ∃ body, arrives (Some (Ok t)) body ∧ fs d' !! p = Some (NFile body)) (λ _ d', outside [p] d d')) as Hfail.
  { apply wp_bind. eapply wp_mono; [apply (wp_frame _ _ _ (total_remove_file p) (steps_remove_file _ _ Hp))| |intros e d3 H3; cbn; by etrans]. intros [] d3 H3. apply wp_lift; [done|]. intros e _. by etrans. }
  destruct (t_ok t && ok) eqn:Eok; cbn [negb]; [|done]. apply andb_true_iff in Eok as [Et ->]. destruct ((t_code t <? 200) || (300 <=? t_code t)) eqn:Ec; [done|].
  apply wp_ret. split; [done|]. exists (t_body t). split; [|by apply Hok]. exists (t_code t). destruct t as [k c b]. cbn in *. subst k. split; [done|]. apply orb_false_iff in Ec as [Ec1 Ec2]. lia.
Qed.

Lemma wp_read p d : wp (read_file p) d (λ c d', fs d' = fs d ∧ ∀ x, c = Some x → fs d !! p = Some (NFile x)) (λ _ _, False).
Proof. unfold wp, read_file. rewrite bind_run. unfold next_fault. destruct (faults d) as [|[sel|] l]; cbn; (split; [done|]); [|done|]; intros x; destruct (fs d !! p) as [[|c]|]; congruence. Qed.
Lemma wp_rename a b d : wp (rename a b) d (λ _ d', ∀ r, fs d' !! (b ++ r) = fs d !! (a ++ r)) (λ _ d', fs d' = fs d).
Proof.
  unfold rename, or_throw. apply wp_bind. pose proof (total_rename_ec a b d) as Ht. unfold wp at 1. destruct (rename_ec a b d) as [[[|]|e| |] d'] eqn:E; [| | |by destruct Ht|by destruct Ht].
  - apply wp_ret. by apply rename_true.
  - apply wp_lift; [done|]. intros _ _. by apply (rename_false a b d).
  - exfalso. revert E. unfold rename_ec. rewrite bind_run. unfold next_fault. destruct (faults d) as [|[sel|] l]; cbn; rewrite ?bind_run; cbn; try done; by destruct (_ && _ && _).
Qed.
Definition star_tmp : path := plugins ++ [ #"__tmp_" ++ uuid ++ #".star"].
Lemma sibling_apart (base : path) (a b : bytes) : a ≠ b → Forall (λ p, apart p (base ++ [b])) [base ++ [a]].
Proof. intros Hne. constructor; [|done]. split; intros [r E]; rewrite <- app_assoc in E; apply app_inv_head in E; cbn in E; injection E as E _; congruence. Qed.
Definition at_star (star : path) (w : iworld) : option node := fs (disk_of w) !! star.


(** ** Installations *)

Lemma success_not_error e : theme_success ≠ theme_error e.
Proof. intros H. apply (f_equal (jget #"success")) in H. discriminate H. Qed.
Lemma install_unpack_writes final owner repo url hash w w' : metadata_kept → Forall (λ p, apart p (metadata_path final)) [temp_dir themes] →
  install_unpack (temp_dir themes) final owner repo url hash w = (Ok None, w') →
  ∃ text, parse text = Ok (metadata_of owner repo hash) ∧ fs (disk_of w') !! metadata_path final = Some (NFile text).
Proof.
  intros Hk Hq H. unfold install_unpack in H. split_run H u w1 E1. split_run H u2 w2 E2. split_run H u3 w3 E3. split_run H x4 w4 E4. destruct x4; cbn [negb] in H; [|split_run H v5 w5 E5; done].
  split_run H es w5 E5. destruct (extracted_folder es) as [folder|]; [|split_run H v6 w6 E6; done]. split_run H u6 w6 E6. split_run H x7 w7 E7. split_run H x8 w8 E8.
  destruct x8; cbn [negb] in H; [|split_run H v9 w9 E9; done]. split_run H x9 w9 E9. destruct x9; cbn [negb] in H; [|split_run H v10 w10 E10; done].
  split_run H v10 w10 E10. split_run H v11 w11 E11. injection H as <-.
  destruct (write_metadata_true _ _ _ _ _ _ Hk E9) as (text & Hp & Ht). exists text. split; [done|].
  rewrite (kept_run [temp_dir themes] _ _ _ _ _ (steps_on_disk _ _ (steps_remove_all _ _ (within_here _ _ ltac:(by left)))) E11 Hq).
  by rewrite (kept_run [] _ _ _ _ _ (steps_dispatch _ _ _) E10).
Qed.
(** An installed theme is current, too. *)
Theorem theme_install_settles repo owner w w' :
  metadata_kept → plain repo → repo ≠ #"__tmp_" ++ uuid → install_theme repo owner w = (Ok theme_success, w') →
  ∃ url latest, theme_source owner repo = Ok (url, latest) ∧
    ∀ remote, value_string #"commit" [] remote = Ok latest → (has_updates (themes ++ [repo]) remote (Disk (fs (disk_of w')) [])).1 = Ok false.
Proof.
  intros Hk Hp Hne H. unfold install_theme in H. rewrite (resolve_plain themes repo) in H by done. apply cleaning_Ok in H; [|intros e; apply success_not_error].
  assert (∀ e (w1 w2 : iworld), (mret (inl (theme_error e)) : M (json + bytes)) w1 ≠ (Ok (inl theme_success), w2)) as Herr by (intros e w1 w2 [= E _]; symmetry in E; by apply success_not_error in E).
  destruct (bytes_eqb repo [] || bytes_eqb owner []); [by apply Herr in H|]. split_run H x1 w1 E1. destruct x1; cbn [negb] in H; [|by apply Herr in H]. split_run H x2 w2 E2. split_run H x3 w3 E3.
  destruct x3; cbn [negb] in H; [|by apply Herr in H]. split_run H v4 w4 E4. split_run H src w5 E5. destruct src as [url latest]. cbn [fst snd] in H. destruct (bytes_eqb url []); [by apply Herr in H|].
  split_run H v6 w6 E6. split_run H r w7 E7. destruct r as [[m|]|e]; [by apply Herr in H| |done]. apply attempt_inl in E7. split_run H v8 w8 E8. split_run H v9 w9 E9. injection H as <-.
  exists url, latest. injection E5 as E5 _. split; [exact E5|]. intros remote Hr. destruct (install_unpack_writes (themes ++ [repo]) owner repo url latest w6 w7 Hk) as (text & Ht & Hf); [|done|].
  - apply tmp_apart; [by destruct themes| |apply up_snoc]. intros E. apply app_inv_head in E. by injection E as E.
  - apply (has_updates_false _ _ text owner repo latest); [|done|done]. by rewrite (kept_run [] _ _ _ _ _ (steps_dispatch _ _ _) E9), (kept_run [] _ _ _ _ _ (steps_regenerate _) E8).
Qed.

(** Without failing calls an uninstalled plugin is gone, and nothing else. *)
Theorem uninstall_plugin_removes plugin path_text t sh n o :
  wf_tree t → jget #"path" plugin = Some (JStr path_text) → is_Some (t !! resolve [] path_text) →
  uninstall_plugin (Some plugin) false (mret tt) (IWorld (Disk t []) sh n o) = (Ok true, IWorld (Disk (cut (resolve [] path_text) (λ _, true) t) []) sh n o).
Proof.
  intros Hw Hp Ht. assert ((at_ #"path" plugin ≫= get_string) = Ok path_text) as Ho by (unfold at_; by rewrite Hp). unfold uninstall_plugin, catching. rewrite bind_run. cbn [mret SM_ret].
  rewrite bind_run, Ho. cbn [lift]. rewrite bind_run, on_disk_run. cbn [disk_of with_disk]. unfold exists_. rewrite bind_run. cbn [next_fault faults gets fs fst snd]. rewrite bool_decide_true by done. cbn [negb].
  rewrite bind_run, on_disk_run. cbn [disk_of with_disk]. by rewrite (safe_remove_run t _ Hw).
Qed.
End installers.

(** ** Examples *)

Definition text0 (j : json) : outcome bytes :=
  o ← value_string #"owner" [] j; r ← value_string #"repo" [] j; c ← value_string #"commit" [] j;
  if bytes_eqb o #"o" && bytes_eqb r #"r" && bytes_eqb c #"c2" then Ok #"new" else Throw json_error.
Definition parse0 (t : bytes) : outcome json :=
  if bytes_eqb t #"new" then Ok (metadata_of #"o" #"r" #"c2") else
  if bytes_eqb t #"old" then Ok (metadata_of #"o" #"r" #"c1") else
  if bytes_eqb t #"answer" then Ok (jobj [(#"data", jobj [(#"download", JStr #"u"); (#"latestHash", JStr #"c2")])]) else Throw json_error.
Definition post0 (url : bytes) (body : json) : outcome bytes := Ok #"answer".
Definition download0 (url : bytes) : option (outcome transfer) := Some (Ok (Transfer true 200 #"zip")).
Definition unzip0 (c : bytes) : option (list entry * bool) := Some ([Entry #"r-main/" None; Entry #"r-main/skin.json" (Some #"{}")], true).
Definition star0 (c : bytes) : option json := Some (JObj []).
Definition themes0 : path := [ #"themes"].
Definition plugins0 : path := [ #"plugins"].
Definition disk0 : disk := Disk (list_to_map [([], NDir); (themes0, NDir); (themes0 ++ [ #"r"], NDir); (themes0 ++ [ #"r"; #"metadata.json"], NFile #"old");
  (plugins0, NDir); (plugins0 ++ [ #"p.star"], NFile #"package")]) [].
Definition world0 : iworld := IWorld disk0 [] 0 1.

Lemma kept0 : metadata_kept parse0 text0.
Proof.
  intros o r c text. unfold text0. cbn [metadata_of]. change (value_string #"owner" [] (metadata_of o r c)) with (Ok o). change (value_string #"repo" [] (metadata_of o r c)) with (Ok r).
  change (value_string #"commit" [] (metadata_of o r c)) with (Ok c). cbn [mbind outcome_bind]. destruct (bytes_eqb o #"o" && bytes_eqb r #"r" && bytes_eqb c #"c2") eqn:E; [|done].
  apply andb_true_iff in E as [[->%bytes_eqb_true ->%bytes_eqb_true]%andb_true_iff ->%bytes_eqb_true]. by intros [= <-].
Qed.
Lemma plain0 : plain #"r".
Proof. repeat split; [done|done|done|]. by repeat constructor. Qed.
Lemma sound0 : sound_archives unzip0 (temp_dir #"1" themes0).
Proof.
  intros c es b [= <- <-]. constructor; [|constructor; [|done]].
  - split; [by exists [ #"r-main"]|by exists [ #"r-main"]].
  - split; [by exists [ #"r-main"; #"skin.json"]|by exists [ #"r-main"]].
Qed.

