(* ===== verification/Updates.v ===== *)
(** * Updates: the updater of the library and the operations of the interface

    [bindings/library_updater.cc] keeps the result of the last check for
    updates and numbers the operations; the calls of the interface that install
    and update ([bindings/entry_point.cc]) start a thread each, which reports to
    the interface under the number of its operation.

    Threads are jobs that run one after the other in any order; the fetch of
    updates is in two parts, since it stores what it found later. *)

From S2P Require Import Prelude State Json Files Theme Installers.

(** ** Throttling of the messages: [dispatch_progress] *)

Section throttle.
  (** Percentages and whether two are at least two apart. *)
  Context {D : Type} (far : D → D → bool) (initial : D).
Record thread_state := TState { last_time : Z; last_progress : D }.
Record message := Message { m_now : Z; m_progress : D; m_complete : bool }.
(** [set_thread_op_id] *)
Definition fresh_thread : thread_state := TState 0 initial.
(** Whether the message is sent. *)
Definition dispatch_progress (ipc_main : bool) (m : message) (s : thread_state) : bool * thread_state :=
  if negb ipc_main then (false, s) else
  if m_complete m then (true, s) else
  if negb (far (m_progress m) (last_progress s)) && (m_now m - last_time s <? 250) then (false, s)
  else (true, TState (m_now m) (m_progress m)).
Fixpoint sent (ms : list message) (s : thread_state) : list message :=
  match ms with
  | [] => []
  | m :: ms => let '(b, s) := dispatch_progress true m s in if b then m :: sent ms s else sent ms s
  end.
(** No message that ends an operation is dropped. *)
Lemma completions_sent ms s : filter (λ m, m_complete m = true) (sent ms s) = filter (λ m, m_complete m = true) ms.
Proof.
  revert s. induction ms as [|m ms IH]; intros s; cbn [sent]; [done|]. unfold dispatch_progress. cbn [negb]. destruct (m_complete m) eqn:E.
  - rewrite !filter_cons_True by done. by rewrite IH.
  - rewrite (filter_cons_False _ m ms) by (by rewrite E). destruct (negb _ && _); [by rewrite IH|]. rewrite filter_cons_False by (by rewrite E). by rewrite IH.
Qed.
End throttle.

(** ** The state *)

Inductive future := NoFuture | Running | Finished.
#[export] Instance future_eq : EqDecision future.
Proof. solve_decision. Defined.
Inductive job :=
  | JInstallTheme (repo owner : bytes)
  | JUpdateTheme (native : bytes)
  | JUpdatePlugin (id name commit : bytes)
  | JInstallPlugin (url : bytes).
Record uworld := UWorld {
  inst : iworld;
  cached_updates : option json;
  has_checked : bool;
  update_future : future;
  next_op_id : Z;
  jobs : list (Z * job);
}.
Abbreviation M := (SM uworld).
Definition with_inst (i : iworld) (w : uworld) : uworld := UWorld i (cached_updates w) (has_checked w) (update_future w) (next_op_id w) (jobs w).
Definition on_inst {A} (m : SM iworld A) : M A := λ w, let '(r, i) := m (inst w) in (r, with_inst i w).
Definition set_cache (c : option json) : M () := modify (λ w, UWorld (inst w) c (has_checked w) (update_future w) (next_op_id w) (jobs w)).
Definition store_result (r : json) : M () := modify (λ w, UWorld (inst w) (Some r) true (update_future w) (next_op_id w) (jobs w)).
Definition set_future (f : future) : M () := modify (λ w, UWorld (inst w) (cached_updates w) (has_checked w) f (next_op_id w) (jobs w)).

Section updates.
  Variable parse : bytes → outcome json.
  Variable dump : json → outcome bytes.
  Variable post : bytes → json → outcome bytes.
  Variable download : bytes → option (outcome transfer).
  Variable unzip : bytes → option (list entry * bool).
  Variable parse_star : bytes → option json.
  Variable config_change : outcome ().
  Variable uuid : bytes.
  Variables themes plugins : path.

(** ** The check for updates *)

Definition api_url : bytes := #"https://steambrew.app/api/checkupdates".
Definition array_of (l : list json) : list (bytes * json) → bytes → list (bytes * json) := λ o k, match l with [] => o | _ => obj_insert k (JArr l) o end.
(** What is sent to the server: nothing for a part that has nothing. *)
Definition request_body (ps stars body : list json) : list (bytes * json) :=
  array_of body (array_of stars (array_of ps [] #"plugins") #"starPlugins") #"themes".
Definition no_updates : json := jobj [(#"themes", JNull); (#"plugins", JNull); (#"starPlugins", JNull)].
Definition failed_check (what : bytes) : json := jobj [(#"themes", jobj [(#"error", JStr what)]); (#"plugins", JArr []); (#"starPlugins", JArr [])].
(** The themes of the answer are reduced to those that differ. *)
Definition process_response (query : list (json * path)) (resp : json) : SM disk json :=
  match jget #"themes" resp with
  | None => mret resp
  | Some t =>
      if negb (json_empty t) && negb (contains #"error" t) then
        l ← process_update parse t query; lift (set_key #"themes" (JArr l) resp)
      else if contains #"error" t then _ ← lift (value_string #"error" #"?" t); mret resp
      else mret resp
  end.
Definition fetch : SM disk json :=
  ps ← get_plugin_data parse plugins;
  stars ← get_star_plugin_data parse_star plugins;
  q ← get_request_body parse themes;
  match request_body ps stars (match q with Some (_, body) => body | None => [] end) with
  | [] => mret no_updates
  | o =>
      text ← lift (post api_url (JObj o));
      resp ← lift (parse text);
      process_response (match q with Some (query, _) => query | None => [] end) resp
  end.

(** ** The updater *)

(** Nothing is kept of a check that failed. *)
Definition fetch_updates_from_network : M json :=
  catching (r ← on_inst (on_disk fetch); _ ← store_result r; mret r) (λ e, mret (failed_check e)).
Definition init (updates_enabled : bool) : M () :=
  if negb updates_enabled then store_result (jobj [(#"themes", JArr []); (#"plugins", JArr [])]) else set_future Running.
(** [wait()]: the thread of the first check ends. *)
Definition wait_future : M () :=
  f ← gets update_future;
  match f with Running => _ ← fetch_updates_from_network; set_future Finished | _ => mret tt end.
Definition check_for_updates (force : bool) : M json :=
  c ← gets cached_updates;
  match (if force then None else c) with
  | Some r => mret r
  | None =>
      f ← gets update_future;
      c ← (if negb force && negb (bool_decide (f = NoFuture)) then _ ← wait_future; gets cached_updates else mret None);
      match c with Some r => mret r | None => fetch_updates_from_network end
  end.
Definition re_check_for_updates : M bytes := r ← check_for_updates true; lift (dump r).
Definition download_theme_update (native : bytes) : M bool :=
  ok ← on_inst (update_theme parse dump post download unzip config_change uuid themes native);
  _ ← (if (ok : bool) then set_cache None else mret tt); mret ok.

Definition download_plugin_update (id name commit : bytes) : M bool :=
  ok ← on_inst (update_plugin parse dump download unzip parse_star uuid plugins id name commit);
  _ ← (if (ok : bool) then set_cache None else mret tt); mret ok.

(** ** Operations *)

Definition arg (k : bytes) (args : json) : outcome bytes := idx k args ≫= get_string.
(** The number of the next operation; there are fewer than [2^31]. *)
Definition start_operation : M Z := λ w,
  (Ok (next_op_id w), UWorld (inst w) (cached_updates w) (has_checked w) (update_future w) (next_op_id w + 1) (jobs w)).
Definition spawn (op : Z) (j : job) : M () := modify (λ w, UWorld (inst w) (cached_updates w) (has_checked w) (update_future w) (next_op_id w) (jobs w ++ [(op, j)])).
Definition set_thread_op_id (op : Z) : M () := modify (λ w, with_inst (IWorld (disk_of (inst w)) (shown (inst w)) (regenerated (inst w)) op) w).
(** [dispatch_progress(message, 0, true, false)] *)
Definition report_failure (message : bytes) : M () := on_inst (report message true false).

Definition started (op : Z) : json := jobj [(#"success", JBool true); (#"started", JBool true); (#"opId", JInt op)].
Definition Core_InstallTheme (args : json) : M json :=
  repo ← lift (arg #"repo" args);
  owner ← lift (arg #"owner" args);
  op ← start_operation;
  _ ← spawn op (JInstallTheme repo owner);
  mret (started op).
Definition Core_DownloadThemeUpdate (args : json) : M json :=
  native ← lift (arg #"native" args);
  op ← start_operation;
  _ ← spawn op (JUpdateTheme native);
  mret (jobj [(#"opId", JInt op)]).
Definition Core_DownloadPluginUpdate (args : json) : M json :=
  id ← lift (arg #"id" args);
  name ← lift (arg #"name" args);
  commit ← lift (value_string #"commit" [] args);
  op ← start_operation;
  _ ← spawn op (JUpdatePlugin id name commit);
  mret (jobj [(#"opId", JInt op)]).
Definition Core_InstallPlugin (args : json) : M json :=
  match jget #"download_url" args with
  | Some (JStr url) =>
      op ← start_operation;
      _ ← spawn op (JInstallPlugin url);
      mret (started op)
  | _ => mret (plugin_error #"missing or invalid 'download_url'")
  end.

(** The threads.  [alive]: the installer has not been destroyed. *)
Definition install_job (alive : bool) (what : bytes) (install : SM iworld json) : M () :=
  catching (
    if alive then
      result ← on_inst install;
      success ← lift (value_bool #"success" false result);
      if negb success then message ← lift (value_string what #"Install failed" result); report_failure message else mret tt
    else report_failure #"Install failed")
  (λ _, report_failure #"Install failed").
Definition update_job (update : M bool) : M () :=
  catching (success ← update; if negb success then report_failure #"Update failed" else mret tt) (λ _, report_failure #"Update failed").
Definition run_job (alive : bool) (op : Z) (j : job) : M () :=
  _ ← set_thread_op_id op;
  match j with
  | JInstallTheme repo owner => install_job alive #"message" (install_theme parse dump post download unzip config_change uuid themes repo owner)
  | JUpdateTheme native => update_job (download_theme_update native)
  | JUpdatePlugin id name commit => update_job (download_plugin_update id name commit)
  | JInstallPlugin url => install_job alive #"error" (install_plugin download unzip parse_star uuid plugins url)
  end.

(** Calls that answer at once. *)
Definition Core_GetUpdates (args : json) : M json := force ← lift (value_bool #"force" false args); check_for_updates force.
Definition Core_UninstallTheme (alive : bool) (args : json) : M json :=
  if negb alive then mret (JBool false) else
  repo ← lift (arg #"repo" args);
  owner ← lift (arg #"owner" args);
  on_inst (uninstall_theme parse config_change themes repo owner).
Definition Core_IsThemeInstalled (alive : bool) (args : json) : M json :=
  if negb alive then mret (JBool false) else
  repo ← lift (arg #"repo" args);
  owner ← lift (arg #"owner" args);
  b ← on_inst (on_disk (is_theme_installed parse themes repo owner));
  mret (JBool b).
Definition Core_GetThemeFromGitPair (alive : bool) (args : json) : M json :=
  if negb alive then mret (JBool false) else
  repo ← lift (arg #"repo" args);
  owner ← lift (arg #"owner" args);
  _ ← lift (value_bool #"asString" false args);
  t ← on_inst (on_disk (get_theme_from_github parse themes repo owner));
  mret (default JNull t).
(** [found]: the plugin with this name; [disable] turns one off. *)
Definition name_arg (first second : bytes) (args : json) : option bytes :=
  match jget first args with
  | Some (JStr s) => Some s
  | _ => match jget second args with Some (JStr s) => Some s | _ => None end
  end.
Definition Core_IsPluginInstalled (alive : bool) (found : bytes → option json) (args : json) : M json :=
  if negb alive then mret (JBool false) else
  mret (JBool (match name_arg #"plugin_name" #"pluginName" args with Some n => bool_decide (is_Some (found n)) | None => false end)).
Definition Core_UninstallPlugin (alive : bool) (found : bytes → option json) (is_enabled : bytes → bool) (args : json) : M json :=
  if negb alive then mret (JBool false) else
  match name_arg #"pluginName" #"plugin_name" args with
  | Some n => b ← on_inst (uninstall_plugin (found n) (is_enabled n) (mret tt)); mret (JBool b)
  | None => mret (JBool false)
  end.

(** ** The system *)

Definition core_functions (alive : bool) (found : bytes → option json) (is_enabled : bytes → bool) : list (json → M json) :=
  [Core_InstallTheme; Core_UninstallTheme alive; Core_DownloadThemeUpdate; Core_IsThemeInstalled alive; Core_GetThemeFromGitPair alive;
   Core_DownloadPluginUpdate; Core_InstallPlugin; Core_IsPluginInstalled alive found; Core_UninstallPlugin alive found is_enabled; Core_GetUpdates].
Definition set_jobs (l : list (Z * job)) (w : uworld) : uworld := UWorld (inst w) (cached_updates w) (has_checked w) (update_future w) (next_op_id w) l.
End updates.

(** A call of the interface, or a thread that runs; the network, the archives
    and the names that are made up are others at every step. *)
Inductive ustep (parse : bytes → outcome json) (dump : json → outcome bytes) (themes plugins : path) : uworld → uworld → Prop :=
  | U_call post parse_star config_change alive found is_enabled fn args r w w' :
      fn ∈ core_functions parse post parse_star config_change themes plugins alive found is_enabled → fn args w = (r, w') → defined r →
      ustep parse dump themes plugins w w'
  | U_run post download unzip parse_star config_change uuid alive op j l1 l2 w w' :
      jobs w = l1 ++ (op, j) :: l2 →
      run_job parse dump post download unzip parse_star config_change uuid themes plugins alive op j (set_jobs (l1 ++ l2) w) = (Ok tt, w') →
      ustep parse dump themes plugins w w'.

(** ** What an operation reports *)

(** Only messages of the operation that do not end it. *)
Definition going (op : Z) (l : list progress) : Prop := Forall (λ g, g_op g = op ∧ g_complete g = false) l.
Definition Inc (op : Z) (i i' : iworld) : Prop := cur_op i = op → cur_op i' = op ∧ ∃ l, shown i' = shown i ++ l ∧ going op l.
(** And one that ends it, with its result. *)
Definition Done (op : Z) (b : bool) (i i' : iworld) : Prop := cur_op i = op → cur_op i' = op ∧ ∃ l s, shown i' = shown i ++ l ++ [Progress op s true b] ∧ going op l.
#[export] Instance Inc_preorder op : PreOrder (Inc op).
Proof.
  split; [intros i Hi; split; [done|]; exists []; rewrite app_nil_r; split; [done|constructor]|].
  intros i1 i2 i3 H1 H2 Hi. destruct (H1 Hi) as [Hi2 (l1 & E1 & G1)]. destruct (H2 Hi2) as [Hi3 (l2 & E2 & G2)]. split; [done|]. exists (l1 ++ l2). split; [by rewrite E2, E1, app_assoc|]. by apply Forall_app.
Qed.
Lemma Inc_Done op b i1 i2 i3 : Inc op i1 i2 → Done op b i2 i3 → Done op b i1 i3.
Proof.
  intros H1 H2 Hi. destruct (H1 Hi) as [Hi2 (l1 & E1 & G1)]. destruct (H2 Hi2) as [Hi3 (l2 & s & E2 & G2)]. split; [done|]. exists (l1 ++ l2), s. split; [by rewrite E2, E1, <- !app_assoc|]. by apply Forall_app.
Qed.
Lemma inc_on_disk {A} op (m : SM disk A) : steps (Inc op) (on_disk m).
Proof. intros i _ Hi. rewrite on_disk_run. split; [done|]. exists []. rewrite app_nil_r. split; [done|constructor]. Qed.
Lemma inc_dispatch op s : steps (Inc op) (dispatch s false).
Proof. apply steps_modify. intros i Hi. split; [done|]. eexists. split; [reflexivity|]. by repeat constructor. Qed.
Lemma inc_regenerate op c : steps (Inc op) (regenerate c).
Proof. unfold regenerate. steps. apply steps_modify. intros i Hi. split; [done|]. exists []. rewrite app_nil_r. split; [done|constructor]. Qed.
Lemma done_report op b s i : Done op b i (report s true b i).2.
Proof. intros Hi. split; [done|]. exists [], s. cbn. rewrite Hi. split; [done|constructor]. Qed.
#[export] Hint Resolve inc_on_disk inc_dispatch inc_regenerate : steps.

(** A result that is good was reported as the end of the operation, one that is
    bad and an exception were not. *)
Definition reports {A} (op : Z) (good bad : A → Prop) (m : SM iworld A) : Prop := ∀ i, defined (m i).1 →
  match m i with
  | (Ok a, i') => good a ∧ Done op true i i' ∨ bad a ∧ Inc op i i'
  | (Throw _, i') => Inc op i i'
  | _ => True
  end.

Section reports.
  Context (op : Z).
Lemma reports_steps {A} (good bad : A → Prop) m : steps (Inc op) m → (∀ a, bad a) → reports op good bad m.
Proof. intros Hm Hb i Hd. specialize (Hm i Hd). destruct (m i) as [[a|e| |] i']; auto. Qed.
Lemma reports_bind {A B} (good bad : B → Prop) (m : SM iworld A) f : steps (Inc op) m → (∀ a, reports op good bad (f a)) → reports op good bad (m ≫= f).
Proof.
  intros Hm Hf i. rewrite bind_run. specialize (Hm i). destruct (m i) as [[a|e| |] i1]; cbn in *; intros Hd; [|by apply Hm, Throw_defined|done|done]. specialize (Hm (Ok_defined _)).
  specialize (Hf a i1 Hd). destruct (f a i1) as [[b|e| |] i2]; [|by etrans|done|done]. destruct Hf as [[Hg Hf]|[Hb Hf]]; [left; split; [done|by eapply Inc_Done]|right; split; [done|by etrans]].
Qed.
Lemma reports_ret {A} (good bad : A → Prop) a : bad a → reports op good bad (mret a).
Proof. intros Hb i _. right. split; [done|reflexivity]. Qed.
Lemma reports_done {A} (good bad : A → Prop) s a : good a → reports op good bad (_ ← dispatch s true; mret a).
Proof. intros Hg i _. left. split; [done|]. apply done_report. Qed.
Lemma reports_lift {A} (good bad : A → Prop) e : reports op good bad (lift (Throw e)).
Proof. intros i _. cbn. reflexivity. Qed.
Lemma reports_catching {A} (good bad : A → Prop) m h : reports op good bad m → (∀ e, reports op good bad (h e)) → reports op good bad (catching m h).
Proof.
  intros Hm Hh i. unfold catching. specialize (Hm i). destruct (m i) as [[a|e| |] i1]; cbn in *; intros Hd; [by apply Hm| |done|done]. specialize (Hm (Throw_defined _)).
  specialize (Hh e i1 Hd). destruct (h e i1) as [[b|e'| |] i2]; [|by etrans|done|done]. destruct Hh as [[Hg Hf]|[Hb Hf]]; [left; split; [done|by eapply Inc_Done]|right; split; [done|by etrans]].
Qed.
Lemma reports_cleaning {A} (good bad : A → Prop) tmp (failed : bytes → A) m : (∀ e, bad (failed e)) →
  reports op (λ x, match x with inl a => good a | inr _ => False end) (λ x, match x with inl a => bad a | inr _ => True end) m → reports op good bad (cleaning tmp failed m).
Proof.
  intros Hb Hm i. unfold cleaning, attempt, catching. rewrite !bind_run. specialize (Hm i). destruct (m i) as [[[a|e]|e| |] i1]; cbn in *; intros Hd; [by apply Hm, Ok_defined| | |done|done].
  - destruct (Hm (Ok_defined _)) as [[[] _]|[_ Hi]]. assert (reports op good bad (_ ← on_disk (remove_if_there tmp); mret (failed e))) as Hr by (apply reports_bind; [apply inc_on_disk|intros _; by apply reports_ret]).
    specialize (Hr i1 Hd). destruct ((_ ← on_disk (remove_if_there tmp); mret (failed e)) i1) as [[b|e'| |] i2]; [|by etrans|done|done].
    destruct Hr as [[Hg Hf]|[Hb' Hf]]; [left; split; [done|by eapply Inc_Done]|right; split; [done|by etrans]].
  - right. split; [done|]. by apply Hm, Throw_defined.
Qed.
Lemma reports_mono {A} (good bad good' bad' : A → Prop) m : (∀ a, good a → good' a) → (∀ a, bad a → bad' a) → reports op good bad m → reports op good' bad' m.
Proof. intros Hg Hb Hm i Hd. specialize (Hm i Hd). destruct (m i) as [[a|e| |] i1]; naive_solver. Qed.
End reports.
(** Splits a [reports] goal along the code. *)
Ltac reports := repeat first
  [ progress intros
  | solve [eauto with steps]
  | apply reports_cleaning
  | apply reports_catching
  | apply reports_lift
  | apply reports_done
  | apply reports_ret
  | apply reports_bind; [solve [steps]|]
  | match goal with |- reports _ _ _ (match ?x with _ => _ end) => destruct x end
  | progress cbn beta iota zeta ].

Definition theme_good (r : json) : Prop := r = theme_success.
Definition theme_bad (r : json) : Prop := ∃ e, r = theme_error e.
Definition plugin_bad (r : json) : Prop := ∃ e, r = plugin_error e.

Section operations.
  Variable parse : bytes → outcome json.
  Variable dump : json → outcome bytes.
  Variable post : bytes → json → outcome bytes.
  Variable download : bytes → option (outcome transfer).
  Variable unzip : bytes → option (list entry * bool).
  Variable parse_star : bytes → option json.
  Variable config_change : outcome ().
  Variable uuid : bytes.
  Variables themes plugins : path.
  Variable op : Z.

Lemma install_theme_reports repo owner : reports op theme_good theme_bad (install_theme parse dump post download unzip config_change uuid themes repo owner).
Proof.
  assert (∀ tmp final url hash, steps (Inc op) (install_unpack dump download unzip tmp final owner repo url hash)) by (intros; unfold install_unpack; steps). unfold install_theme. reports.
  all: try (by eexists).
Qed.
Lemma update_theme_reports native : reports op (λ b, b = true) (λ b, b = false) (update_theme parse dump post download unzip config_change uuid themes native).
Proof.
  assert (∀ tmp final owner repo url hash, steps (Inc op) (update_unpack parse dump download unzip tmp final owner repo url hash)) by (intros; unfold update_unpack; steps). unfold update_theme. by reports.
Qed.
Lemma install_plugin_reports url : reports op theme_good plugin_bad (install_plugin download unzip parse_star uuid plugins url).
Proof. unfold install_plugin. reports. all: try (by eexists). Qed.
Lemma update_plugin_reports id name commit : reports op (λ b, b = true) (λ b, b = false) (update_plugin parse dump download unzip parse_star uuid plugins id name commit).
Proof. unfold update_plugin, update_star_plugin, update_plugin_files. by reports. Qed.
End operations.

(** ** The threads *)

Definition kept_jobs (w w' : uworld) : Prop := jobs w' = jobs w ∧ next_op_id w' = next_op_id w.
Lemma on_inst_run {A} (m : SM iworld A) w : on_inst m w = ((m (inst w)).1, with_inst (m (inst w)).2 w).
Proof. unfold on_inst. by destruct (m (inst w)). Qed.
Lemma failure_done op w w1 message : Inc op (inst w) (inst w1) → kept_jobs w w1 → kept_jobs w (report_failure message w1).2 ∧ Done op false (inst w) (inst (report_failure message w1).2).
Proof. intros Hi Hk. unfold report_failure. rewrite on_inst_run. split; [exact Hk|]. eapply Inc_Done; [exact Hi|]. apply (done_report op false message). Qed.

Lemma report_failure_run message w : report_failure message w = (Ok tt, (report_failure message w).2).
Proof. unfold report_failure. by rewrite on_inst_run. Qed.

Section threads.
  Context (op : Z) (w : uworld).
Lemma install_job_done alive what (bad : json → Prop) install w' :
  reports op theme_good bad install → (∀ r, bad r → r ≠ theme_success ∧ value_bool #"success" false r = Ok false ∧ ∃ m, value_string what #"Install failed" r = Ok m) →
  install_job alive what install w = (Ok tt, w') →
  kept_jobs w w' ∧ ∃ b, Done op b (inst w) (inst w') ∧ (b = true ↔ alive = true ∧ (install (inst w)).1 = Ok theme_success).
Proof.
  intros Hr Hbad. unfold install_job, catching. assert (∀ w1 m, Inc op (inst w) (inst w1) → kept_jobs w w1 → (install (inst w)).1 ≠ Ok theme_success ∨ alive = false → report_failure m w1 = (Ok tt, w') →
    kept_jobs w w' ∧ ∃ b, Done op b (inst w) (inst w') ∧ (b = true ↔ alive = true ∧ (install (inst w)).1 = Ok theme_success)) as Hfail.
  { intros w1 m Hi Hk Hn E. destruct (failure_done op w w1 m Hi Hk) as [H1 H2]. rewrite E in H1, H2. split; [done|]. exists false. split; [done|]. split; [done|]. intros [Ha Hs]. destruct Hn as [Hn|Hn]; congruence. }
  destruct alive; [|intros E; by apply (Hfail w #"Install failed"); [reflexivity|by split|right|]]. rewrite bind_run, on_inst_run. specialize (Hr (inst w)). destruct (install (inst w)) as [[r|e| |] i1] eqn:Ei; cbn [fst snd] in *; [| |done|done].
  - specialize (Hr (Ok_defined _)). destruct Hr as [[-> Hd]|[Hb Hi]].
    + rewrite bind_run. cbn. intros [= <-]. split; [by split|]. exists true. split; [exact Hd|]. by split.
    + destruct (Hbad r Hb) as (Hne & Hv & m & Hm). rewrite bind_run. cbn [lift]. rewrite Hv. cbn [negb]. rewrite bind_run. cbn [lift]. rewrite Hm.
      unfold report_failure. rewrite on_inst_run. cbn [report modify fst snd]. intros [= <-]. apply (Hfail (with_inst i1 w) m); [exact Hi|by split|left; congruence|]. unfold report_failure. by rewrite on_inst_run.
  - intros E. apply (Hfail (with_inst i1 w) #"Install failed"); [exact (Hr (Throw_defined _))|by split|by left|done].
Qed.
Lemma update_job_done (update : SM iworld bool) (reset : bool → M ()) w' :
  reports op (λ b, b = true) (λ b, b = false) update → (∀ b w1, ∃ w2, reset b w1 = (Ok tt, w2) ∧ inst w2 = inst w1 ∧ kept_jobs w1 w2) →
  update_job (ok ← on_inst update; _ ← reset ok; mret ok) w = (Ok tt, w') →
  kept_jobs w w' ∧ ∃ b, Done op b (inst w) (inst w') ∧ (b = true ↔ (update (inst w)).1 = Ok true).
Proof.
  intros Hr Hre. unfold update_job, catching. rewrite !bind_run, on_inst_run. specialize (Hr (inst w)). destruct (update (inst w)) as [[r|e| |] i1] eqn:Ei; cbn [fst snd] in *; [| |done|done].
  - specialize (Hr (Ok_defined _)). rewrite bind_run. destruct (Hre r (with_inst i1 w)) as (w2 & -> & E2 & K2). cbn [mret SM_ret]. destruct Hr as [[-> Hd]|[-> Hi]]; cbn [negb].
    + intros [= <-]. split; [exact K2|]. exists true. rewrite E2. split; [exact Hd|]. by split.
    + rewrite report_failure_run. intros E. apply (f_equal snd) in E. cbn [snd] in E. destruct (failure_done op w w2 #"Update failed") as [H1 H2]; [by rewrite E2|exact K2|]. rewrite E in H1, H2. split; [done|]. exists false. by split.
  - intros E. destruct (failure_done op w (with_inst i1 w) #"Update failed") as [H1 H2]; [exact (Hr (Throw_defined _))|by split|]. rewrite E in H1, H2. split; [done|]. exists false. split; [done|]. split; [done|]. done.
Qed.
End threads.

Section system.
  Variable parse : bytes → outcome json.
  Variable dump : json → outcome bytes.
  Variable post : bytes → json → outcome bytes.
  Variable download : bytes → option (outcome transfer).
  Variable unzip : bytes → option (list entry * bool).
  Variable parse_star : bytes → option json.
  Variable config_change : outcome ().
  Variable uuid : bytes.
  Variables themes plugins : path.
#[local] Abbreviation run_job := (run_job parse dump post download unzip parse_star config_change uuid themes plugins).

(** The result of the operation a thread runs. *)
Definition succeeds (alive : bool) (j : job) (i : iworld) : Prop :=
  match j with
  | JInstallTheme repo owner => alive = true ∧ (install_theme parse dump post download unzip config_change uuid themes repo owner i).1 = Ok theme_success
  | JUpdateTheme native => (update_theme parse dump post download unzip config_change uuid themes native i).1 = Ok true
  | JUpdatePlugin id name commit => (update_plugin parse dump download unzip parse_star uuid plugins id name commit i).1 = Ok true
  | JInstallPlugin url => alive = true ∧ (install_plugin download unzip parse_star uuid plugins url i).1 = Ok theme_success
  end.
Definition on_op (op : Z) (i : iworld) : iworld := IWorld (disk_of i) (shown i) (regenerated i) op.

Lemma run_job_done alive op j w w' : run_job alive op j w = (Ok tt, w') →
  kept_jobs w w' ∧ ∃ b l s, shown (inst w') = shown (inst w) ++ l ++ [Progress op s true b] ∧ going op l ∧ (b = true ↔ succeeds alive j (on_op op (inst w))).
Proof.
  unfold Updates.run_job. rewrite bind_run. cbn [set_thread_op_id modify]. set (w1 := with_inst _ w). assert (∀ b, Done op b (inst w1) (inst w') → ∃ l s, shown (inst w') = shown (inst w) ++ l ++ [Progress op s true b] ∧ going op l) as Hd.
  { intros b H. destruct (H eq_refl) as (_ & l & s & E & Hl). by exists l, s. }
  assert (∀ b w2, ∃ w3, (if (b : bool) then set_cache None else mret tt) w2 = (Ok tt, w3) ∧ inst w3 = inst w2 ∧ kept_jobs w2 w3) as Hre by (intros [|] w2; eexists; (split; [reflexivity|]); by repeat split).
  destruct j as [repo owner|native|id name commit|url].
  - intros E. destruct (install_job_done op w1 alive #"message" theme_bad _ w' (install_theme_reports parse dump post download unzip config_change uuid themes op repo owner)) as (Hk & b & HD & Hb); [|exact E|]; [|split; [exact Hk|]; exists b; destruct (Hd b HD) as (l & s & ? & ?); by exists l, s].
    intros r [e ->]. split; [intros H; symmetry in H; by apply success_not_error in H|]. split; [done|]. by exists e.
  - intros E. destruct (update_job_done op w1 _ (λ b, if b then set_cache None else mret tt) w' (update_theme_reports parse dump post download unzip config_change uuid themes op native) Hre) as (Hk & b & HD & Hb); [exact E|].
    split; [exact Hk|]. exists b. destruct (Hd b HD) as (l & s & ? & ?). by exists l, s.
  - intros E. destruct (update_job_done op w1 _ (λ b, if b then set_cache None else mret tt) w' (update_plugin_reports parse dump download unzip parse_star uuid plugins op id name commit) Hre) as (Hk & b & HD & Hb); [exact E|].
    split; [exact Hk|]. exists b. destruct (Hd b HD) as (l & s & ? & ?). by exists l, s.
  - intros E. destruct (install_job_done op w1 alive #"error" plugin_bad _ w' (install_plugin_reports download unzip parse_star uuid plugins op url)) as (Hk & b & HD & Hb); [|exact E|]; [|split; [exact Hk|]; exists b; destruct (Hd b HD) as (l & s & ? & ?); by exists l, s].
    intros r [e ->]. split; [intros H; apply (f_equal (jget #"success")) in H; discriminate H|]. split; [done|]. by exists e.
Qed.

(** Calls that report nothing and start nothing. *)
Definition quiet_i (i i' : iworld) : Prop := shown i' = shown i.
Definition quiet (w w' : uworld) : Prop := quiet_i (inst w) (inst w') ∧ kept_jobs w w'.
#[local] Instance quiet_i_preorder : PreOrder quiet_i.
Proof. unfold quiet_i. split; [by intros i|]. intros i1 i2 i3 H1 H2. congruence. Qed.
#[local] Instance quiet_preorder : PreOrder quiet.
Proof. unfold quiet, quiet_i, kept_jobs. split; [by intros w|]. intros w1 w2 w3 (H1 & H2 & H3) (H4 & H5 & H6). split_and!; congruence. Qed.
Lemma quiet_on_inst {A} (m : SM iworld A) : steps quiet_i m → steps quiet (on_inst m).
Proof. intros Hm w. rewrite on_inst_run. intros Hd. split; [by apply Hm|done]. Qed.
Lemma quiet_on_disk {A} (m : SM disk A) : steps quiet_i (on_disk m).
Proof. intros i _. by rewrite on_disk_run. Qed.
Lemma quiet_regenerate : steps quiet_i (regenerate config_change).
Proof. unfold regenerate. steps. by apply steps_modify. Qed.
#[local] Hint Resolve quiet_on_disk quiet_regenerate : steps.
Lemma quiet_modify f : (∀ w, inst (f w) = inst w ∧ kept_jobs w (f w)) → steps quiet (modify f).
Proof. intros Hf. apply steps_modify. intros w. destruct (Hf w) as [H1 H2]. split; [unfold quiet_i; by rewrite H1|done]. Qed.
Lemma quiet_fetch : steps quiet (fetch_updates_from_network parse post parse_star themes plugins).
Proof. unfold fetch_updates_from_network. pose proof (λ r, quiet_modify (λ w, UWorld (inst w) (Some r) true (update_future w) (next_op_id w) (jobs w)) ltac:(done)). pose proof (quiet_on_inst _ (quiet_on_disk (fetch parse post parse_star themes plugins))). unfold store_result. steps. Qed.
Lemma quiet_check force : steps quiet (check_for_updates parse post parse_star themes plugins force).
Proof. unfold check_for_updates, wait_future, set_future. pose proof quiet_fetch. pose proof (λ f, quiet_modify (λ w, UWorld (inst w) (cached_updates w) (has_checked w) f (next_op_id w) (jobs w)) ltac:(done)). steps. Qed.
Lemma quiet_uninstall_theme repo owner : steps quiet_i (uninstall_theme parse config_change themes repo owner).
Proof. unfold uninstall_theme. steps. Qed.
Lemma quiet_uninstall_plugin f b : steps quiet_i (uninstall_plugin f b (mret tt)).
Proof. unfold uninstall_plugin. steps. Qed.

Lemma call_effect alive found is_enabled fn args r w w' :
  fn ∈ core_functions parse post parse_star config_change themes plugins alive found is_enabled → fn args w = (r, w') → defined r →
  quiet w w' ∨ shown (inst w') = shown (inst w) ∧ ∃ j, jobs w' = jobs w ++ [(next_op_id w, j)] ∧ next_op_id w' = next_op_id w + 1.
Proof.
  intros Hfn E Hd. assert (∀ (m : json → M json), m args w = (r, w') → steps quiet (m args) → quiet w w') as Hq by (intros m Em Hs; specialize (Hs w); rewrite Em in Hs; by apply Hs).
  assert (∀ o (f : bytes → M json), (lift o ≫= f) w = (r, w') → w' = w ∨ ∃ a, f a w = (r, w')) as Hlift.
  { intros o f. rewrite bind_run. cbn [lift]. destruct o as [a|e| |]; [by right; exists a|intros [= _ <-]; by left|by intros [= <- <-]; destruct Hd|by intros [= <- <-]; destruct Hd]. }
  unfold core_functions in Hfn. rewrite !elem_of_cons, elem_of_nil in Hfn. destruct Hfn as [->|[->|[->|[->|[->|[->|[->|[->|[->|[->|[]]]]]]]]]]].
  - unfold Core_InstallTheme in E. apply Hlift in E as [->|[repo E]]; [left; reflexivity|]. apply Hlift in E as [->|[owner E]]; [left; reflexivity|]. injection E as _ <-. right. by eauto.
  - left. apply (Hq _ E). unfold Core_UninstallTheme. pose proof (λ a b, quiet_on_inst _ (quiet_uninstall_theme a b)). steps.
  - unfold Core_DownloadThemeUpdate in E. apply Hlift in E as [->|[n E]]; [left; reflexivity|]. injection E as _ <-. right. by eauto.
  - left. apply (Hq _ E). unfold Core_IsThemeInstalled. pose proof (λ a b, quiet_on_inst _ (quiet_on_disk (is_theme_installed parse themes a b))). steps.
  - left. apply (Hq _ E). unfold Core_GetThemeFromGitPair. pose proof (λ a b, quiet_on_inst _ (quiet_on_disk (get_theme_from_github parse themes a b))). steps.
  - unfold Core_DownloadPluginUpdate in E. apply Hlift in E as [->|[i E]]; [left; reflexivity|]. apply Hlift in E as [->|[n E]]; [left; reflexivity|]. apply Hlift in E as [->|[c E]]; [left; reflexivity|]. injection E as _ <-. right. by eauto.
  - unfold Core_InstallPlugin in E. destruct (jget #"download_url" args) as [[| | | |url| |]|]; try (injection E as _ <-; left; reflexivity). injection E as _ <-. right. by eauto.
  - left. apply (Hq _ E). unfold Core_IsPluginInstalled. steps.
  - left. apply (Hq _ E). unfold Core_UninstallPlugin. pose proof (λ a b, quiet_on_inst _ (quiet_uninstall_plugin a b)). steps.
  - left. apply (Hq _ E). unfold Core_GetUpdates. pose proof quiet_check. steps.
Qed.
End system.

(** ** Every operation is reported once *)

Definition of_op (op : Z) (l : list progress) : list progress := filter (λ g, g_op g = op) l.
(** Messages of which the last, and only it, ends the operation. *)
Definition reported (l : list progress) : Prop := ∃ before last, l = before ++ [last] ∧ Forall (λ g, g_complete g = false) before ∧ g_complete last = true.
Record ops_inv (w : uworld) : Prop := {
  ops_nodup : NoDup (jobs w).*1;
  ops_pending : ∀ op, op ∈ (jobs w).*1 → 1 <= op < next_op_id w ∧ of_op op (shown (inst w)) = [];
  ops_done : ∀ op, 1 <= op < next_op_id w → op ∉ (jobs w).*1 → reported (of_op op (shown (inst w)));
  ops_known : Forall (λ g, g_op g < next_op_id w) (shown (inst w));
}.
Lemma of_op_app op l l' : of_op op (l ++ l') = of_op op l ++ of_op op l'.
Proof. apply filter_app. Qed.
Lemma of_op_other op op' l : Forall (λ g, g_op g = op') l → op ≠ op' → of_op op l = [].
Proof. intros Hl Hne. unfold of_op. induction Hl as [|g l Hg Hl IH]; [done|]. rewrite filter_cons_False; [done|]. congruence. Qed.
Lemma of_op_same op l : Forall (λ g, g_op g = op) l → of_op op l = l.
Proof. intros Hl. unfold of_op. induction Hl as [|g l Hg Hl IH]; [done|]. by rewrite filter_cons_True, IH. Qed.
Lemma of_op_known op n l : Forall (λ g, g_op g < n) l → n <= op → of_op op l = [].
Proof. intros Hl Hn. unfold of_op. induction Hl as [|g l Hg Hl IH]; [done|]. rewrite filter_cons_False; [done|]. lia. Qed.
Lemma ops_inv_call w w' : ops_inv w → quiet w w' ∨ shown (inst w') = shown (inst w) ∧ (∃ j, jobs w' = jobs w ++ [(next_op_id w, j)] ∧ next_op_id w' = next_op_id w + 1) → 1 <= next_op_id w → ops_inv w'.
Proof.
  intros [H1 H2 H3 H4] [[Hs [Hj Hn]]|(Hs & j & Hj & Hn)] Hpos; [unfold quiet_i in Hs; constructor; rewrite ?Hs, ?Hj, ?Hn; done|].
  assert (∀ op, next_op_id w <= op → of_op op (shown (inst w)) = []) as Hnew by (intros op; by apply of_op_known).
  assert ((jobs w').*1 = (jobs w).*1 ++ [next_op_id w]) as Ej by (rewrite Hj; by rewrite fmap_app). constructor; rewrite ?Ej, ?Hs, ?Hn.
  - apply NoDup_app. split; [done|]. split; [|by apply NoDup_singleton]. intros op Hop ->%list_elem_of_singleton. apply H2 in Hop. lia.
  - intros op [Hop| ->%list_elem_of_singleton]%elem_of_app; [apply H2 in Hop as [? ?]; split; [lia|done]|]. split; [lia|]. by apply Hnew.
  - intros op Hop Hni. rewrite elem_of_app, list_elem_of_singleton in Hni. apply H3; [|tauto]. destruct (decide (op = next_op_id w)); [tauto|lia].
  - eapply Forall_impl; [exact H4|]. cbn. lia.
Qed.
Lemma ops_inv_run parse dump post download unzip parse_star config_change uuid themes plugins alive op j l1 l2 w w' : ops_inv w → jobs w = l1 ++ (op, j) :: l2 →
  run_job parse dump post download unzip parse_star config_change uuid themes plugins alive op j (set_jobs (l1 ++ l2) w) = (Ok tt, w') → ops_inv w'.
Proof.
  intros [H1 H2 H3 H4] Ej E. destruct (run_job_done _ _ _ _ _ _ _ _ _ _ _ _ _ _ _ E) as ([Hj Hn] & b & l & s & Hs & Hl & _). cbn in Hj, Hn, Hs.
  assert (Forall (λ g, g_op g = op) (l ++ [Progress op s true b])) as Hmine.
  { apply Forall_app. split; [|by repeat constructor]. eapply Forall_impl; [exact Hl|]. by intros g []. }
  rewrite Ej, fmap_app, fmap_cons in H1, H2, H3. cbn [fst] in H1, H2, H3. apply NoDup_app in H1 as (N1 & N12 & [Nop N2]%NoDup_cons).
  assert (op ∉ l1.*1 ++ l2.*1) as Hout by (intros [Hi|Hi]%elem_of_app; [apply (N12 op Hi); by left|done]).
  destruct (H2 op) as [Hop Hnone]; [apply elem_of_app; right; by left|]. constructor; rewrite ?Hj, ?fmap_app, ?Hn, ?Hs.
  - apply NoDup_app. split; [done|]. split; [|done]. intros x Hx Hx2. apply (N12 x Hx). by right.
  - intros op' Hi. destruct (H2 op') as [Hop' Hnone']; [apply elem_of_app in Hi as [?|?]; apply elem_of_app; [by left|right; by right]|]. split; [done|].
    rewrite of_op_app, Hnone', (of_op_other op' op); [done|done|]. by intros ->.
  - intros op' Hop' Hni. rewrite of_op_app. destruct (decide (op' = op)) as [->|Hne].
    + rewrite Hnone, of_op_same by done. exists l, (Progress op s true b). split; [done|]. split; [|done]. eapply Forall_impl; [exact Hl|]. by intros g [].
    + rewrite (of_op_other op' op _ Hmine Hne), app_nil_r. apply H3; [done|]. rewrite elem_of_app, elem_of_cons in *. tauto.
  - apply Forall_app. split; [done|]. eapply Forall_impl; [exact Hmine|]. cbn. lia.
Qed.

Section reported.
  Variable parse : bytes → outcome json.
  Variable dump : json → outcome bytes.
  Variables themes plugins : path.

End reported.

Section offered.
  Variable parse : bytes → outcome json.
  Variable dump : json → outcome bytes.
  Variable post : bytes → json → outcome bytes.
  Variable download : bytes → option (outcome transfer).
  Variable unzip : bytes → option (list entry * bool).
  Variable config_change : outcome ().
  Variable uuid : bytes.
  Variable themes : path.

(** ** An update that was made is not offered again *)

Definition still (t : tree) (d d' : disk) : Prop := d = Disk t [] → d' = Disk t [].
#[local] Instance still_preorder t : PreOrder (still t).
Proof. unfold still. split; [by intros d|]. intros d1 d2 d3 H1 H2 H. auto. Qed.
Lemma still_exists t p : steps (still t) (exists_ p).
Proof. by intros d _ ->. Qed.
Lemma still_read t p : steps (still t) (read_file p).
Proof. by intros d _ ->. Qed.
#[local] Hint Resolve still_exists still_read : steps.
Lemma still_process_theme t remote q : steps (still t) (process_theme parse remote q).
Proof. unfold process_theme, has_updates, get_commit_hash, read_metadata, read_json, read_head. steps. Qed.
(** The server's entry for the theme names the commit. *)
Definition current_at (remote theme : json) (commit : bytes) : Prop :=
  ∃ o, remote_of remote theme = Ok o ∧ ∀ r, o = Some r → value_string #"commit" [] r = Ok commit.
Lemma process_update_skips t p remote query commit :
  (∀ r, value_string #"commit" [] r = Ok commit → (has_updates parse p r (Disk t [])).1 = Ok false) →
  (∀ theme, (theme, p) ∈ query → current_at remote theme commit) →
  process_update parse remote query (Disk t []) = process_update parse remote (filter (λ q, q.2 ≠ p) query) (Disk t []).
Proof.
  intros Hu. induction query as [|[theme p'] query IH]; intros Hq; [done|]. specialize (IH (λ th H, Hq th (list_elem_of_further _ _ _ H))). destruct (decide (p' = p)) as [->|Hne].
  - rewrite filter_cons_False by (cbn; tauto). rewrite <- IH. cbn [process_update]. destruct (Hq theme) as (o & Eo & Ho); [by left|]. pose proof (still_process_theme t remote (theme, p) (Disk t [])) as Hst. revert Hst.
    assert ((process_theme parse remote (theme, p) (Disk t [])).1 = Ok None) as En.
    { unfold process_theme. rewrite bind_run. cbn [lift fst]. rewrite Eo. destruct o as [r|]; [|done]. rewrite bind_run. cbn [snd]. specialize (Hu r (Ho r eq_refl)). destruct (has_updates parse p r (Disk t [])) as [u d]. cbn in Hu. by subst u. }
    rewrite bind_run. destruct (process_theme parse remote (theme, p) (Disk t [])) as [u d]. cbn in En. subst u. cbn. intros Hst. rewrite (Hst (Ok_defined _) eq_refl). rewrite bind_run.
    destruct (process_update parse remote query (Disk t [])) as [[l|e| |] d']; done.
  - rewrite filter_cons_True by done. cbn [process_update]. rewrite !bind_run. pose proof (still_process_theme t remote (theme, p') (Disk t [])) as Hst. destruct (process_theme parse remote (theme, p') (Disk t [])) as [[u|e| |] d]; try done.
    cbn in Hst. rewrite (Hst (Ok_defined _) eq_refl). by rewrite !bind_run, IH.
Qed.

(** After a successful update of a theme the result of the last check is
    forgotten, and a check against an answer that names the commit the update
    was made to offers exactly the updates of the other themes: updates do not
    repeat. *)
Theorem updated_theme_not_offered native w w' :
  metadata_kept parse dump → plain native → native ≠ #"__tmp_" ++ uuid →
  download_theme_update parse dump post download unzip config_change uuid themes native w = (Ok true, w') →
  let d := Disk (fs (disk_of (inst w'))) [] in
  cached_updates w' = None ∧
  ∃ owner repo url latest, theme_source parse post owner repo = Ok (url, latest) ∧
    ∀ remote query, (∀ theme, (theme, themes ++ [native]) ∈ query → current_at remote theme latest) →
      process_update parse remote query d = process_update parse remote (filter (λ q, q.2 ≠ themes ++ [native]) query) d.
Proof.
  intros Hk Hp Hne H. unfold download_theme_update in H. rewrite bind_run, on_inst_run in H. destruct (update_theme _ _ _ _ _ _ _ _ native (inst w)) as [[[|]|e| |] i] eqn:E; try done. injection H as <-. split; [done|].
  destruct (theme_update_settles _ _ _ _ _ _ _ _ _ _ _ Hk Hp Hne E) as (owner & repo & url & latest & Hsrc & Hu). exists owner, repo, url, latest. split; [done|].
  intros remote query Hq. apply (process_update_skips _ _ remote query latest); [exact Hu|done].
Qed.
End offered.

(** ** Examples *)

Definition uworld0 : uworld := UWorld world0 None false NoFuture 1 [].
Definition queue0 : uworld := (Core_InstallPlugin (jobj [(#"download_url", JStr #"u")]) (Core_InstallTheme (jobj [(#"repo", JStr #"r"); (#"owner", JStr #"o")]) uworld0).2).2.
Definition ran0 : uworld := (run_job parse0 text0 post0 download0 unzip0 star0 (Ok tt) #"1" themes0 plugins0 true 1 (JInstallTheme #"r" #"o") (set_jobs [(2, JInstallPlugin #"u")] queue0)).2.
Definition updated0 : uworld := (download_theme_update parse0 text0 post0 download0 unzip0 (Ok tt) #"1" themes0 #"r" uworld0).2.
Definition remote0 : json := JArr [jobj [(#"name", JStr #"r"); (#"commit", JStr #"c2")]].
Definition theme0 : json := jobj [(#"data", jobj [(#"github", jobj [(#"repo_name", JStr #"r")])])].
(** The theme of the example is updated and no longer offered. *)
Lemma updated_theme_not_offered_witness :
  let d := Disk (fs (disk_of (inst updated0))) [] in
  cached_updates updated0 = None ∧
  ∃ owner repo url latest, theme_source parse0 post0 owner repo = Ok (url, latest) ∧
    ∀ remote query, (∀ theme, (theme, themes0 ++ [ #"r"]) ∈ query → current_at remote theme latest) →
      process_update parse0 remote query d = process_update parse0 remote (filter (λ q, q.2 ≠ themes0 ++ [ #"r"]) query) d.
Proof.
  apply (updated_theme_not_offered parse0 text0 post0 download0 unzip0 (Ok tt) #"1" themes0 #"r" uworld0 updated0 kept0 plain0); [done|].
  assert ((download_theme_update parse0 text0 post0 download0 unzip0 (Ok tt) #"1" themes0 #"r" uworld0).1 = Ok true) as E by (vm_compute; reflexivity). rewrite <- E. apply surjective_pairing.
Defined.
Example theme0_current : current_at remote0 theme0 #"c2".
Proof. eexists. split; [reflexivity|]. by intros r [= <-]. Qed.
