(* ===== verification/Secrets.v ===== *)
(** * Secrets: the password of the proxy

    The encryption of the password ([system/crypto.cc], with OpenSSL), the
    calls that read and write the settings without showing it
    ([bindings/entry_point.cc]), and its use by downloads ([system/http.cc]).

    Parameters stand for OpenSSL: the hash, authenticated encryption and random
    bytes; and for how libcurl reads the credentials of a proxy. *)

From S2P Require Import Prelude Json Base64 Config PluginConfig.

(** ** Base64 *)

(** [kB64Chars] is the alphabet of [Base64]. *)
Definition word (a b c : byte) : Z := Z.lor (Z.lor (Z.shiftl (b2z a) 16) (Z.shiftl (b2z b) 8)) (b2z c).
Definition sextet (n k : Z) : byte := b64_char (Z.land (Z.shiftr n k) 63).
Fixpoint base64_encode (data : bytes) : bytes :=
  match data with
  | a :: b :: c :: data => let n := word a b c in sextet n 18 :: sextet n 12 :: sextet n 6 :: sextet n 0 :: base64_encode data
  | [a; b] => let n := word a b x00 in [sextet n 18; sextet n 12; sextet n 6; "="%byte]
  | [a] => let n := word a x00 x00 in [sextet n 18; sextet n 12; "="%byte; "="%byte]
  | [] => []
  end.
(** Characters outside the alphabet are skipped. *)
Fixpoint base64_decode_loop (bits bit_count : Z) (s out : bytes) : bytes :=
  match s with
  | [] => out
  | c :: s =>
      if beqb c "=" then out else
      match b64_index c with
      | None => base64_decode_loop bits bit_count s out
      | Some v =>
          let bits := Z.lor (u32 (Z.shiftl bits 6)) v in
          let bit_count := bit_count + 6 in
          if 8 <=? bit_count then base64_decode_loop bits (bit_count - 8) s (out ++ [z2b (Z.land (Z.shiftr bits (bit_count - 8)) 255)])
          else base64_decode_loop bits bit_count s out
      end
  end.
Definition base64_decode (s : bytes) : bytes := base64_decode_loop 0 0 s [].

Lemma word_val a b c : word a b c = b2z a * 2 ^ 16 + b2z b * 2 ^ 8 + b2z c.
Proof.
  unfold word. pose proof (b2z_range a). pose proof (b2z_range b). pose proof (b2z_range c).
  rewrite (Z.lor_comm (Z.lor _ _)), (Z.lor_comm (Z.shiftl (b2z a) 16)), Z.lor_assoc, (lor_shiftl_add (b2z c)), lor_shiftl_add by lia. lia.
Qed.
Lemma sextet_val n k : 0 <= k → sextet n k = b64_char (n / 2 ^ k mod 64).
Proof. intros Hk. unfold sextet. change 63 with (Z.ones 6). by rewrite Z.land_ones, Z.shiftr_div_pow2 by lia. Qed.
Lemma word_sextets a b c : let n := word a b c in [sextet n 18; sextet n 12; sextet n 6; sextet n 0] = b64_char <$> sextets3 (b2z a) (b2z b) (b2z c).
Proof.
  intros n. subst n. rewrite !sextet_val, word_val by lia. pose proof (b2z_range a). pose proof (b2z_range b). pose proof (b2z_range c). unfold sextets3. cbn [fmap list_fmap].
  change (2 ^ 18) with 262144. change (2 ^ 16) with 65536. change (2 ^ 12) with 4096. change (2 ^ 8) with 256. change (2 ^ 6) with 64. change (2 ^ 0) with 1. set (n := b2z a * 65536 + b2z b * 256 + b2z c).
  assert (n / 262144 mod 64 = b2z a / 4) as -> by (subst n; euclid). assert (n / 4096 mod 64 = b2z a mod 4 * 16 + b2z b / 16) as -> by (subst n; euclid).
  assert (n / 64 mod 64 = b2z b mod 16 * 4 + b2z c / 64) as -> by (subst n; euclid). assert (n / 1 mod 64 = b2z c mod 64) as -> by (subst n; euclid). done.
Qed.
Lemma base64_encode_ref s : base64_encode s = b64_ref s.
Proof.
  induction s as [|a|a b|a b c s IH] using triples_ind; [done| | |]; cbn [base64_encode b64_ref].
  - pose proof (word_sextets a x00 x00) as H. cbn [sextets3 fmap list_fmap] in H. injection H as H1 H2 _ _. cbn [sextets3 take fmap list_fmap app]. by rewrite H1, H2.
  - pose proof (word_sextets a b x00) as H. cbn [sextets3 fmap list_fmap] in H. injection H as H1 H2 H3 _. cbn [sextets3 take fmap list_fmap app]. by rewrite H1, H2, H3.
  - rewrite IH. pose proof (word_sextets a b c) as H. cbn [sextets3 fmap list_fmap] in H |- *. injection H as H1 H2 H3 H4. cbn [app]. by rewrite H1, H2, H3, H4.
Qed.
Lemma bits_next bits V v : same32 bits V → 0 <= v < 64 → same32 (Z.lor (u32 (Z.shiftl bits 6)) v) (V * 64 + v).
Proof.
  intros [m ->] Hv. rewrite Z.shiftl_mul_pow2 by lia. set (X := V + m * 2 ^ 32). assert (u32 (X * 2 ^ 6) = Z.shiftl (X mod 2 ^ 26) 6) as ->.
  { unfold u32. rewrite Z.shiftl_mul_pow2 by lia. change (2 ^ 32) with (2 ^ 26 * 2 ^ 6). by rewrite Z.mul_mod_distr_r. }
  rewrite Z.lor_comm, lor_shiftl_add by lia. exists (m * 64 - X / 2 ^ 26). pose proof (Z.div_mod X (2 ^ 26) ltac:(lia)). subst X. lia.
Qed.
(** On a text of the alphabet the two decoders agree. *)
Lemma b64_index_some c : c ∈ base64_chars → ∃ v, b64_index c = Some v ∧ 0 <= v < 64 ∧ c ≠ "="%byte.
Proof.
  intros Hc. unfold b64_index. destruct (find_char c base64_chars) as [i|] eqn:E; [|by apply find_char_None in E]. exists (Z.of_nat i). split; [done|].
  apply find_char_Some in E as [E _]. apply lookup_lt_Some in E. change (length base64_chars) with 64%nat in E. split; [lia|]. intros ->. assert (bool_decide ("="%byte ∈ base64_chars) = false) as Hf by (vm_compute; reflexivity). by apply bool_decide_eq_false in Hf.
Qed.
Lemma decode_agrees s : ∀ V val bits bit_count out, Forall (λ c, c ∈ base64_chars ∨ c = "="%byte) s → same32 bits V → same32 val V → 0 <= bit_count < 8 →
  base64_decode_loop bits bit_count s out = decode_loop val (bit_count - 8) s out.
Proof.
  induction s as [|c s IH]; intros V val bits k out Hs Hb Hv Hk; [done|]. apply Forall_cons in Hs as [Hc Hs]. cbn [base64_decode_loop decode_loop]. destruct Hc as [Hc| ->]; [|done].
  destruct (b64_index_some c Hc) as (v & -> & Hv64 & Hne). apply beqb_false in Hne. rewrite Hne. pose proof (bits_next bits V v Hb Hv64) as Hb'. pose proof (same32_shift val V 6 v ltac:(lia) Hv) as Hv'. change (2 ^ 6) with 64 in Hv'.
  replace (k - 8 + 6) with (k + 6 - 8) by lia. destruct (Z.leb_spec 8 (k + 6)); destruct (Z.leb_spec 0 (k + 6 - 8)); try lia.
  - rewrite (read_byte _ _ (k + 6 - 8) ltac:(lia) Hb'), (read_byte _ _ (k + 6 - 8) ltac:(lia) Hv'). apply (IH (V * 64 + v)); try done. lia.
  - apply (IH (V * 64 + v)); try done. lia.
Qed.
Lemma crypto_base64_roundtrip s : base64_decode (base64_encode s) = s.
Proof.
  rewrite base64_encode_ref. unfold base64_decode. rewrite (decode_agrees _ 0 0); [|apply b64_ref_chars|apply same32_refl|apply same32_refl|lia]. apply (decode_loop_ref s 0 []).
Qed.

(** ** Encryption *)

Definition BLOB_PREFIX : bytes := #"MGCRYPT:v1:".
Definition is_encrypted (value : bytes) : bool := (length BLOB_PREFIX <? length value)%nat && bytes_eqb (take (length BLOB_PREFIX) value) BLOB_PREFIX.

Section crypto.
  (** SHA-256 and AES-256-GCM *)
  Variable sha256 : bytes → bytes.
  Variable seal : bytes → bytes → bytes → bytes * bytes.
  Variable unseal : bytes → bytes → bytes → bytes → option bytes.
  (** The first line of [/etc/machine-id] and the name of the host. *)
  Variables machine_id hostname : bytes.

Definition derive_machine_key : bytes :=
  sha256 ((match machine_id with [] => hostname | _ => machine_id end) ++ #"millennium-proxy-secret-v1").
(** [iv]: the random bytes, if there are any; [ctx]: the context can be made. *)
Definition encrypt (iv : option bytes) (ctx : bool) (plaintext : bytes) : bytes :=
  match plaintext, iv with
  | [], _ | _, None => []
  | _, Some iv =>
      if negb ctx then [] else
      let '(ciphertext, tag) := seal derive_machine_key iv plaintext in
      BLOB_PREFIX ++ base64_encode (iv ++ tag ++ ciphertext)
  end.
Definition decrypt (ctx : bool) (ciphertext : bytes) : bytes :=
  if negb (is_encrypted ciphertext) then [] else
  let decoded := base64_decode (drop (length BLOB_PREFIX) ciphertext) in
  if (length decoded <? 29)%nat then [] else
  let iv := take 12 decoded in
  let tag := take 16 (drop 12 decoded) in
  let payload := drop 28 decoded in
  if negb ctx then [] else
  default [] (unseal derive_machine_key iv payload tag).

(** What is sealed can be opened; a tag has sixteen bytes and the text keeps its
    length. *)
Definition gcm_ok : Prop := ∀ key iv text, let '(c, tag) := seal key iv text in length tag = 16%nat ∧ length c = length text ∧ unseal key iv c tag = Some text.
Lemma encrypt_is_encrypted iv text : text ≠ [] → length iv = 12%nat → is_encrypted (encrypt (Some iv) true text) = true.
Proof.
  intros Ht Hi. destruct text as [|x text]; [done|]. unfold encrypt. cbn [negb]. destruct (seal _ _ _) as [c tag]. unfold is_encrypted. rewrite take_app_length, bytes_eqb_refl, andb_true_r. apply Nat.ltb_lt. rewrite length_app.
  destruct iv as [|a [|b [|d iv]]]; try done. cbn [app base64_encode length]. lia.
Qed.
Lemma decrypt_encrypt iv text : gcm_ok → text ≠ [] → length iv = 12%nat → decrypt true (encrypt (Some iv) true text) = text.
Proof.
  intros Hg Ht Hi. unfold decrypt. rewrite encrypt_is_encrypted by done. cbn [negb]. destruct text as [|x text]; [done|]. unfold encrypt. cbn [negb]. specialize (Hg derive_machine_key iv (x :: text)).
  destruct (seal derive_machine_key iv (x :: text)) as [c tag]. destruct Hg as (Htag & Hc & Hu). rewrite drop_app_length, crypto_base64_roundtrip. rewrite !length_app, Hi, Htag, Hc. cbn [length].
  rewrite (proj2 (Nat.ltb_ge _ _)) by lia. assert (take 12 (iv ++ tag ++ c) = iv) as -> by (by apply take_app_length'). assert (drop 12 (iv ++ tag ++ c) = tag ++ c) as -> by (by apply drop_app_length').
  assert (take 16 (tag ++ c) = tag) as -> by (by apply take_app_length'). assert (drop 28 (iv ++ tag ++ c) = c) as -> by (rewrite app_assoc; apply drop_app_length'; rewrite length_app; lia). by rewrite Hu.
Qed.
End crypto.

(** ** The settings *)

Definition STORED_SENTINEL : bytes := #"__SET__".
(** [cfg["network"]["proxyPassword"]], where there is one *)
Definition network_password (cfg : json) : option json := jget #"network" cfg ≫= jget #"proxyPassword".
(** [f] on [cfg["network"]] *)
Definition on_network (f : json → outcome json) (cfg : json) : outcome json :=
  n ← at_ #"network" cfg; n ← f n; set_key #"network" n cfg.

Section settings.
  Context {L : Type}.
  Variable parse : bytes → outcome json.
  Variable dump : json → outcome bytes.
  Variable filename : bytes.
  (** [Crypto::encrypt] and [Crypto::decrypt] on this machine *)
  Variables enc dec : bytes → bytes.
  Implicit Types cfg : config_manager L.

Definition Core_GetBackendConfig cfg : outcome json :=
  let c := Config.get_all cfg in
  match network_password c with
  | Some (JStr stored) => on_network (set_key #"proxyPassword" (JStr (match stored with [] => [] | _ => STORED_SENTINEL end))) c
  | _ => Ok c
  end.
(** What replaces the password the interface sends. *)
Definition replace_password cfg (pw : bytes) (incoming : json) : outcome json :=
  if bytes_eqb pw STORED_SENTINEL then on_network (set_key #"proxyPassword" (Config.get cfg [ #"network"; #"proxyPassword"] (JStr []))) incoming
  else match pw with
       | [] => Ok incoming
       | _ => match enc pw with
              | [] => on_network (erase #"proxyPassword") incoming
              | e => on_network (set_key #"proxyPassword" (JStr e)) incoming
              end
       end.
Definition incoming_config cfg (args : json) : outcome json :=
  text ← idx #"config" args;
  text ← get_string text;
  incoming ← parse text;
  match network_password incoming with
  | Some p => pw ← get_string p; replace_password cfg pw incoming
  | None => Ok incoming
  end.
Definition Core_SetBackendConfig (args : json) (env : save_env) cfg (d : Config.disk) : outcome (config_manager L * json * list Config.call * list Config.disk) :=
  incoming ← incoming_config cfg args;
  skip ← value_bool #"skipPropagation" false args;
  Ok (Config.set_all dump filename env incoming skip cfg d).

(** ** Downloads *)

Definition setting cfg (k : bytes) : outcome bytes := get_string (Config.get cfg [ #"network"; k] (JStr [])).
(** The texts of [CURLOPT_PROXY] and [CURLOPT_PROXYUSERPWD]. *)
Definition apply_proxy cfg : outcome (option (bytes * option bytes)) :=
  proxy ← setting cfg #"proxy";
  if bytes_eqb proxy [] then Ok None else
  username ← setting cfg #"proxyUsername";
  stored_pw ← setting cfg #"proxyPassword";
  if bytes_eqb username [] then Ok (Some (c_str proxy, None)) else
  let password := if is_encrypted stored_pw then dec stored_pw else stored_pw in
  Ok (Some (c_str proxy, Some (c_str (username ++ #":" ++ password)))).
End settings.

(** ** What the settings keep *)

Lemma jget_network_set k v c c' : on_network (set_key k v) c = Ok c' → ∀ k', jget #"network" c' ≫= jget k' = if bytes_eqb k k' then Some v else jget #"network" c ≫= jget k'.
Proof.
  unfold on_network, at_. destruct (jget #"network" c) as [n|]; [|done]. cbn [mbind outcome_bind]. destruct (set_key k v n) as [n'| | |] eqn:E; try done. cbn. intros H k'.
  apply set_key_jget in H as ->. apply set_key_jget in E as ->. rewrite jget_insert. rewrite bytes_eqb_refl. cbn [mbind option_bind]. by rewrite jget_insert, jget_as_object.
Qed.
Lemma network_set v c c' : on_network (set_key #"proxyPassword" v) c = Ok c' → network_password c' = Some v.
Proof. intros H. unfold network_password. by rewrite (jget_network_set _ _ _ _ H). Qed.
Lemma on_network_set_total k v c n : jget #"network" c = Some (JObj n) → ∃ c', on_network (set_key k v) c = Ok c'.
Proof. intros H. unfold on_network, at_. rewrite H. cbn. destruct c; try done. by eexists. Qed.
Lemma network_password_object c v : network_password c = Some v → ∃ n, jget #"network" c = Some (JObj n).
Proof. unfold network_password. destruct (jget #"network" c) as [n|]; [|done]. destruct n; try done. by eexists. Qed.
Lemma obj_get_overlay k (o d : list (bytes * json)) : NoDup o.*1 →
  obj_get k (foldl (λ r kv, obj_insert kv.1 kv.2 r) d o) = match obj_get k o with Some v => Some v | None => obj_get k d end.
Proof.
  revert d. induction o as [|[k' v'] o IH]; intros d Hn; [done|]. cbn in Hn. apply NoDup_cons in Hn as [Hi Hn]. cbn [foldl]. rewrite IH by done. cbn [obj_get fst snd]. rewrite obj_get_insert. destruct (bytes_eqb k' k) eqn:E; [|done].
  apply bytes_eqb_true in E as ->. destruct (obj_get k o) as [v|] eqn:Ek; [|done]. exfalso. apply Hi. apply obj_get_In in Ek. apply list_elem_of_fmap. by exists (k, v).
Qed.
Lemma jget_get_all {L} (cfg : config_manager L) o k : _data cfg = JObj o → NoDup o.*1 → jget k (Config.get_all cfg) = match obj_get k o with Some v => Some v | None => obj_get k (_defaults cfg) end.
Proof. intros Hd Hn. unfold Config.get_all. rewrite Hd. cbn [items jget]. by apply obj_get_overlay. Qed.
Lemma get_network {L} (cfg : config_manager L) k d : Config.get cfg [ #"network"; k] d = default d (jget #"network" (_data cfg) ≫= jget k).
Proof. done. Qed.
Lemma set_all_data {L} (dump : json → outcome bytes) fn env new skip (cfg : config_manager L) d : _data (Config.set_all dump fn env new skip cfg d).1.1.1 = new.
Proof. unfold Config.set_all. destruct (if skip then _ else _) as [calls|e| |]; try done. by destruct (save_to_disk _ _ _ _ _) as [states r]. Qed.
Lemma set_all_defaults {L} (dump : json → outcome bytes) fn env new skip (cfg : config_manager L) d : _defaults (Config.set_all dump fn env new skip cfg d).1.1.1 = _defaults cfg.
Proof. unfold Config.set_all. destruct (if skip then _ else _) as [calls|e| |]; try done. by destruct (save_to_disk _ _ _ _ _) as [states r]. Qed.

Section kept.
  Context {L : Type}.
  Variable parse : bytes → outcome json.
  Variable dump : json → outcome bytes.
  Variable filename : bytes.
  Variables enc dec : bytes → bytes.
  Variables (cfg : config_manager L) (o : list (bytes * json)).
  Hypothesis Hdata : _data cfg = JObj o.
  Hypothesis Hkeys : NoDup o.*1.

Lemma password_of_data : network_password (Config.get_all cfg) = network_password (_data cfg) ∨ network_password (_data cfg) = None.
Proof. unfold network_password. rewrite (jget_get_all cfg o _ Hdata Hkeys), Hdata. cbn [jget]. destruct (obj_get #"network" o); [by left|by right]. Qed.
Lemma password_shown shown s : Core_GetBackendConfig cfg = Ok shown → network_password shown = Some (JStr s) → s = [] ∨ s = STORED_SENTINEL.
Proof.
  unfold Core_GetBackendConfig. destruct (network_password (Config.get_all cfg)) as [[| | | |s0| |]|] eqn:E; intros H Hs; try (injection H as <-; by rewrite E in Hs).
  apply network_set in H. rewrite H in Hs. injection Hs as <-. destruct s0; auto.
Qed.
Lemma set_backend_config args env d cfg' r calls states text edited :
  Core_SetBackendConfig parse dump filename enc args env cfg d = Ok (cfg', r, calls, states) → idx #"config" args = Ok (JStr text) → parse text = Ok edited →
  _defaults cfg' = _defaults cfg ∧
  match network_password edited with Some p => ∃ pw, p = JStr pw ∧ replace_password enc cfg pw edited = Ok (_data cfg') | None => _data cfg' = edited end.
Proof.
  unfold Core_SetBackendConfig, incoming_config. intros H Ha Hp. rewrite Ha in H. cbn [mbind outcome_bind get_string] in H. rewrite Hp in H. cbn [mbind outcome_bind] in H.
  assert (∀ x, (incoming ← x; skip ← value_bool #"skipPropagation" false args; Ok (Config.set_all dump filename env incoming skip cfg d)) = Ok (cfg', r, calls, states) → _defaults cfg' = _defaults cfg ∧ x = Ok (_data cfg')) as Hx.
  { intros x Hx. destruct x as [i| | |]; try done. cbn [mbind outcome_bind] in Hx. destruct (value_bool _ _ _) as [skip| | |]; try done. cbn [mbind outcome_bind] in Hx. injection Hx as Hx.
    pose proof (set_all_data dump filename env i skip cfg d) as H1. pose proof (set_all_defaults dump filename env i skip cfg d) as H2. rewrite Hx in H1, H2. cbn in H1, H2. by subst. }
  destruct (network_password edited) as [p|].
  - destruct (get_string p) as [pw| | |] eqn:Epw; [|done|done|done]. cbn [mbind outcome_bind] in H. apply Hx in H as [H1 H2]. split; [done|]. exists pw. split; [by destruct p; try done; injection Epw as ->|done].
  - apply Hx in H as [H1 [= H2]]. by split.
Qed.

(** The interface never sees the stored password, only whether there is
    one, and does not lose it: when it sends the settings back with the field
    as it was shown, whatever else it changed, the stored password is the same
    as before. *)
Theorem proxy_password_kept args env d shown edited text stored cfg' r calls states :
  Core_GetBackendConfig cfg = Ok shown → Config.get cfg [ #"network"; #"proxyPassword"] (JStr []) = JStr stored →
  idx #"config" args = Ok (JStr text) → parse text = Ok edited → network_password edited = network_password shown →
  Core_SetBackendConfig parse dump filename enc args env cfg d = Ok (cfg', r, calls, states) →
  (∀ s, network_password shown = Some (JStr s) → s = [] ∨ s = STORED_SENTINEL) ∧
  Config.get cfg' [ #"network"; #"proxyPassword"] (JStr []) = JStr stored.
Proof.
  intros Hg Hst Ha Hp He Hs. split; [intros s; by apply password_shown|]. destruct (set_backend_config _ _ _ _ _ _ _ _ _ Hs Ha Hp) as [_ Hd]. rewrite He in Hd.
  rewrite get_network in Hst |- *. fold (network_password (_data cfg)) in Hst. fold (network_password (_data cfg')). unfold Core_GetBackendConfig in Hg. pose proof password_of_data as Hpd.
  destruct (network_password (Config.get_all cfg)) as [p0|] eqn:E.
  - destruct p0 as [| | | |s0| |]; try (injection Hg as <-; rewrite E in Hd; by destruct Hd as (pw & [=] & _)). apply network_set in Hg. rewrite Hg in Hd. destruct Hd as (pw & [= <-] & Hr). unfold replace_password in Hr. destruct s0 as [|x s0].
    + injection Hr as <-. rewrite He, Hg. destruct Hpd as [Hpd|Hpd]; rewrite <- ?Hpd in Hst; [done|]. by rewrite Hpd in Hst.
    + rewrite bytes_eqb_refl in Hr. apply network_set in Hr. rewrite Hr. exact Hst.
  - injection Hg as <-. rewrite E in Hd. rewrite Hd, He, E. destruct Hpd as [Hpd|Hpd]; [by rewrite <- Hpd in Hst|by rewrite Hpd in Hst].
Qed.
End kept.

Section roundtrip.
  Context {L : Type}.
  Variable parse : bytes → outcome json.
  Variable dump : json → outcome bytes.
  Variable filename : bytes.
  Variable sha256 : bytes → bytes.
  Variable seal : bytes → bytes → bytes → bytes * bytes.
  Variable unseal : bytes → bytes → bytes → bytes → option bytes.
  Variables machine_id hostname iv : bytes.
  Hypothesis Hgcm : gcm_ok seal unseal.
  Hypothesis Hiv : length iv = 12%nat.
#[local] Abbreviation enc := (encrypt sha256 seal machine_id hostname (Some iv) true).
#[local] Abbreviation dec := (decrypt sha256 unseal machine_id hostname true).

(** The user name and password libcurl takes from the text of
    [CURLOPT_PROXYUSERPWD]: as documented, "[user name]:[password]", where both
    are URL-decoded before they are used. *)
Variable proxy_login : bytes → bytes * bytes.
Variable url_decode : bytes → bytes.
Hypothesis login_split : ∀ user password, ":"%byte ∉ user → proxy_login (user ++ #":" ++ password) = (url_decode user, url_decode password).
Hypothesis decode_plain : ∀ s, "%"%byte ∉ s → url_decode s = s.

(** What reaches the proxy as it was typed. *)
Definition literal (s : bytes) : Prop := x00 ∉ s ∧ "%"%byte ∉ s.

End roundtrip.

(** ** Examples *)

Definition config0 : config_manager nat := Config (JObj [(#"network", JObj [(#"proxy", JStr #"p"); (#"proxyPassword", JStr #"secret"); (#"proxyUsername", JStr #"u")])]) [] [] false.
Definition with_password (pw : bytes) : json := JObj [(#"network", JObj [(#"proxy", JStr #"p"); (#"proxyPassword", JStr pw); (#"proxyUsername", JStr #"u")])].
Definition parse_settings (t : bytes) : outcome json := Ok (with_password t).
Definition seal0 (key iv text : bytes) : bytes * bytes := (text, repeat x00 16).
Definition unseal0 (key iv c tag : bytes) : option bytes := Some c.
Definition args0 (t : bytes) : json := JObj [(#"config", JStr t)].
Definition is_ok {A} (x : outcome A) : bool := match x with Ok _ => true | _ => false end.
Definition sent_back0 := Core_SetBackendConfig parse_settings demo_dump #"f" (λ p, p) (args0 STORED_SENTINEL) demo_save config0 ∅.
Definition key0 : bytes → bytes := encrypt (λ s, s) seal0 #"id" #"host" (Some (repeat x01 12)) true.
Definition new_password0 := Core_SetBackendConfig parse_settings demo_dump #"f" key0 (args0 #"new") demo_save config0 ∅.
(** The interface sends back what it was shown. *)
Lemma proxy_password_kept_witness :
  ∃ cfg' r calls states, sent_back0 = Ok (cfg', r, calls, states) ∧
    Config.get cfg' [ #"network"; #"proxyPassword"] (JStr []) = JStr #"secret".
Proof.
  assert (is_ok sent_back0 = true) as Hok by (vm_compute; reflexivity). destruct sent_back0 as [[[[cfg' r] calls] states]| | |] eqn:E; try discriminate Hok.
  exists cfg', r, calls, states. split; [done|].
  apply (proxy_password_kept parse_settings demo_dump #"f" (λ p, p) config0 _ eq_refl (NoDup_singleton _) (args0 STORED_SENTINEL) demo_save ∅ (with_password STORED_SENTINEL) (with_password STORED_SENTINEL) STORED_SENTINEL #"secret" cfg' r calls states);
    [vm_compute; reflexivity|reflexivity|reflexivity|reflexivity|reflexivity|exact E].
Defined.
(** libcurl's reading of the credentials. *)
Definition hex0 (c : byte) : option Z := Z.of_nat <$> find_char c #"0123456789ABCDEF".
Fixpoint url_decode0 (s : bytes) : bytes :=
  match s with
  | "%"%byte :: a :: b :: s' => match hex0 a, hex0 b with Some x, Some y => z2b (16 * x + y) :: url_decode0 s' | _, _ => "%"%byte :: a :: b :: url_decode0 s' end
  | c :: s => c :: url_decode0 s
  | [] => []
  end.
Definition login0 (s : bytes) : bytes * bytes :=
  match find_char ":" s with Some i => (url_decode0 (take i s), url_decode0 (drop (S i) s)) | None => (url_decode0 s, []) end.
Lemma login0_split user password : ":"%byte ∉ user → login0 (user ++ #":" ++ password) = (url_decode0 user, url_decode0 password).
Proof.
  intros Hu. unfold login0. change (#":" ++ password) with (":"%byte :: password). rewrite find_char_app by done.
  rewrite take_app_length. f_equal. change (":"%byte :: password) with ([":"%byte] ++ password). rewrite app_assoc, drop_app_length'; [done|]. rewrite length_app. cbn. lia.
Qed.
Lemma url_decode0_plain s : "%"%byte ∉ s → url_decode0 s = s.
Proof.
  induction s as [|c s IH]; intros Hs; [done|]. apply not_elem_of_cons in Hs as [Hc Hs]. specialize (IH Hs). rewrite <- IH at 2. by destruct c.
Qed.

(** The credentials are given to libcurl as they are, and it decodes them: the
    password [a%41] reaches the proxy as [aA], and the name [u:v] as [u]. *)
Theorem encoded_password_changed :
  let cfg user pw : config_manager nat := Config (JObj [(#"network", JObj [(#"proxy", JStr #"p"); (#"proxyPassword", JStr pw); (#"proxyUsername", JStr user)])]) [] [] false in
  let presented user pw := match apply_proxy id (cfg user pw) with Ok (Some (_, Some userpwd)) => Some (login0 userpwd) | _ => None end in
  presented #"u" #"a%41" = Some (#"u", #"aA") ∧ presented #"u:v" #"secret" = Some (#"u", #"v:secret").
Proof. by vm_compute. Qed.
