(* ===== verification/SelfUpdate.v ===== *)
(** * SelfUpdate: the updater of the program itself

    [engine/millennium_updater.cc] over the disk of [Files]: the check for a new
    release, the choice of the release and of the archive, the update itself,
    which runs at once or as a job of a pool with one thread, and what is
    removed at the next start; [GetLockedFiles] of [util/zip.cc]; the automatic
    update at the start ([millennium.cc]) and the calls of the interface
    ([bindings/entry_point.cc]).

    A job is one step: what other threads do while it runs neither reads nor
    changes the disk.  The messages inside a download or an extraction are left
    out; error messages are given without the paths in them. *)

From Stdlib Require Import SpecFloat.
From S2P Require Import Prelude State Semver Json Files Installers.

Inductive os := Windows | Linux | Apple.
#[export] Instance os_eq : EqDecision os.
Proof. solve_decision. Defined.

(** An update that was accepted: the address of the archive and its size. *)
Record request := Request { r_url : bytes; r_size : Z }.
(** [accepted] counts the updates that [update] let pass, [boxes] the messages
    in a window of their own. *)
Record vworld := VWorld {
  v_disk : disk;
  v_shown : list (bytes * bool);
  m_ipc_main : bool;
  m_has_updates : bool;
  m_has_updated_millennium : bool;
  m_update_in_progress : bool;
  m_latest_version : json;
  queue : list request;
  accepted : nat;
  boxes : nat;
}.
Abbreviation M := (SM vworld).
Definition with_disk (d : disk) (w : vworld) : vworld :=
  VWorld d (v_shown w) (m_ipc_main w) (m_has_updates w) (m_has_updated_millennium w) (m_update_in_progress w) (m_latest_version w) (queue w) (accepted w) (boxes w).
Definition on_vdisk {A} (m : SM disk A) : M A := λ w, let '(r, d) := m (v_disk w) in (r, with_disk d w).
Definition set_release (has : bool) (release : json) : M () := modify (λ w,
  VWorld (v_disk w) (v_shown w) (m_ipc_main w) has (m_has_updated_millennium w) (m_update_in_progress w) release (queue w) (accepted w) (boxes w)).
Definition set_progress (updated running : bool) (q : list request) (n : nat) (w : vworld) : vworld :=
  VWorld (v_disk w) (v_shown w) (m_ipc_main w) (m_has_updates w) updated running (m_latest_version w) q n (boxes w).
(** The lambda [update_state] of [update_impl] *)
Definition update_state (success : bool) : M () := modify (λ w, set_progress success false (queue w) (accepted w) w).
Definition set_ipc_main : M () := modify (λ w,
  VWorld (v_disk w) (v_shown w) true (m_has_updates w) (m_has_updated_millennium w) (m_update_in_progress w) (m_latest_version w) (queue w) (accepted w) (boxes w)).
Definition dispatch_progress_to_frontend (status : bytes) (is_complete : bool) : M () := modify (λ w,
  if negb (m_ipc_main w) then w else
  VWorld (v_disk w) (v_shown w ++ [(status, is_complete)]) (m_ipc_main w) (m_has_updates w) (m_has_updated_millennium w) (m_update_in_progress w) (m_latest_version w) (queue w) (accepted w) (boxes w)).
Definition message_box : M () := modify (λ w,
  VWorld (v_disk w) (v_shown w) (m_ipc_main w) (m_has_updates w) (m_has_updated_millennium w) (m_update_in_progress w) (m_latest_version w) (queue w) (accepted w) (S (boxes w))).

(** ** Calls with an error code *)

Definition exists_ec (p : path) : SM disk bool := catching (exists_ p) (λ _, mret false).
Definition create_directories_ec (p : path) : SM disk bool := catching (_ ← create_directories p; mret true) (λ _, mret false).

(** ** Versions and releases *)

Definition parse_version (version : bytes) : bytes :=
  match version with c :: v => if beqb c "v" then v else version | [] => version end.
(** The first release of the channel; null when there is none. *)
Fixpoint choose_release (channel : bytes) (l : list json) : outcome json :=
  match l with
  | [] => Ok JNull
  | release :: l =>
      if negb (is_object release) then choose_release channel l else
      if bytes_eqb channel #"beta" then Ok release else
      pre ← value_bool #"prerelease" true release;
      if negb pre then Ok release else choose_release channel l
  end.

Section updater.
  Variable parse : bytes → outcome json.
  Variable MILLENNIUM_VERSION : bytes.
  Variable platform : os.
  (** [DISTRO_NIX] is defined. *)
  Variable nix : bool.
  (** [CONFIG.get] *)
  Variable config : list bytes → json → json.
  (** [Http::Get] and [Http::DownloadWithProgress]: what arrives. *)
  Variable http_get : outcome bytes.
  Variable download : bytes → option (outcome transfer).
  Variable unzip : bytes → option (list entry * bool).
  (** Files that another process keeps from being opened for writing. *)
  Variable in_use : path → bool.
  (** [GenerateUUID()] for the archive and for each file moved. *)
  Variable uuid : bytes.
  Variable uuids : list bytes.
  (** [get_steam_path()], [get_install_path()] and [temp_directory_path()] *)
  Variables steam install temp : path.

(** What is left of the check after the answer: no change, or the new state. *)
Definition check_response (channel response : bytes) : outcome (option (bool * json)) :=
  match response with
  | [] => Ok None
  | _ =>
      response_data ← parse response;
      if negb (is_array response_data) || json_empty response_data then Ok None else
      latest_release ← choose_release channel (elements response_data);
      if json_empty latest_release then Ok None else
      _ ← value_string #"tag_name" #"unknown" latest_release;
      if negb (contains #"tag_name" latest_release) then Ok None else
      match tag ← at_ #"tag_name" latest_release; get_string tag with
      | Throw _ => Ok None
      | tag =>
          tag ← tag;
          compare ← Semver.cmp (parse_version MILLENNIUM_VERSION) (parse_version tag);
          Ok (Some (compare =? -1, latest_release))
      end
  end.
Definition check_for_updates (channel_override : bytes) : M () :=
  if nix then mret tt else
  checkForUpdates ← lift (get_bool (config [ #"general"; #"checkForMillenniumUpdates"] (JBool true)));
  channel ← (match channel_override with
             | [] => lift (get_string (config [ #"general"; #"millenniumUpdateChannel"] (JStr #"stable")))
             | _ => mret channel_override
             end : M bytes);
  if negb checkForUpdates then mret tt else
  catching (
    response ← lift http_get;
    found ← lift (check_response channel response);
    match found with Some (has, release) => set_release has release | None => mret tt end)
  (λ _, set_release false JNull).

Definition platform_suffix : option bytes :=
  match platform with Windows => Some #"windows-x86_64.zip" | Linux => Some #"linux-x86_64.tar.gz" | Apple => None end.
Fixpoint named_asset (target_name : bytes) (assets : list json) : outcome (option json) :=
  match assets with
  | [] => Ok None
  | asset :: assets =>
      name ← value_string #"name" [] asset;
      if bytes_eqb name target_name then Ok (Some asset) else named_asset target_name assets
  end.
Definition find_asset (release_info : json) : outcome (option json) :=
  match jget #"assets" release_info, platform_suffix with
  | Some assets, Some suffix =>
      tag ← value_string #"tag_name" [] release_info;
      named_asset (#"millennium-" ++ tag ++ #"-" ++ suffix) (elements assets)
  | _, _ => Ok None
  end.
Definition has_any_updates : M json :=
  in_progress ← gets m_has_updated_millennium;
  has ← gets m_has_updates;
  latest ← gets m_latest_version;
  asset ← lift (if is_null latest then Ok None else find_asset latest);
  mret (jobj [(#"updateInProgress", JBool in_progress); (#"hasUpdate", JBool has); (#"newVersion", latest); (#"platformRelease", default JNull asset)]).
Definition is_pending_restart : M bool := gets m_has_updated_millennium.

(** ** The update *)

(** [GetLockedFiles]: the files of the archive that exist already and cannot be
    opened for writing, by their names in it. *)
Definition is_locked (dest : path) (e : entry) : SM disk bool :=
  d ← lift (is_dir_name (e_name e));
  if (d : bool) then mret false else
  let p := out_path dest (e_name e) in
  there ← exists_ p;
  if negb there then mret false else
  f ← next_fault;
  t ← gets fs;
  mret (in_use p || is_dir t p || bool_decide (is_Some (f : failure))).
Fixpoint locked_entries (dest : path) (es : list entry) : SM disk (list bytes) :=
  match es with
  | [] => mret []
  | e :: es =>
      b ← is_locked dest e;
      rest ← locked_entries dest es;
      mret (if (b : bool) then e_name e :: rest else rest)
  end.
Definition GetLockedFiles (zip dest : path) : SM disk (list bytes) :=
  c ← read_file zip;
  match c ≫= unzip with Some (es, _) => locked_entries dest es | None => mret [] end.

Definition file_name (name : bytes) : bytes := match rfind_char "/"%byte name with Some i => drop (S i) name | None => name end.
Definition updater_temp_dir : bytes := #"millennium-updater-temp-files".
Definition legacy_temp_dir : bytes := #"millennium-updater-legacy-shim-temp".
Definition temp_name (base id : bytes) : bytes := base ++ #".uuid" ++ id ++ #".tmp".
(** Whether some file was moved. *)
Fixpoint move_files (temp_path : path) (files ids : list bytes) : SM disk bool :=
  match files with
  | [] => mret false
  | f :: files =>
      let source := out_path steam f in
      there ← exists_ec source;
      if negb there then move_files temp_path files (tail ids) else
      moved ← rename_ec source (temp_path ++ [temp_name (file_name f) (default [] (head ids))]);
      rest ← move_files temp_path files (tail ids);
      mret (moved || rest)
  end.
Definition win32_move_old_millennium_version (lockedFiles : list bytes) : SM disk () :=
  match steam with
  | [] => mret tt
  | _ =>
      let temp_path := steam ++ [updater_temp_dir] in
      created ← create_directories_ec temp_path;
      if negb created then mret tt else
      any_files_moved ← move_files temp_path lockedFiles uuids;
      if negb any_files_moved then _ ← remove_all_ec temp_path; mret tt else mret tt
  end.

Definition archive : path := temp ++ [ #"millennium-" ++ uuid ++ #".zip"].
(** [temp_directory_path()]: the directory must be there. *)
Definition temp_directory_path : SM disk () :=
  f ← next_fault;
  t ← gets fs;
  match (f : failure) with None => if is_dir t temp then mret tt else lift (Throw fs_error) | Some _ => lift (Throw fs_error) end.
(** The lambda [cleanup_temp_file] *)
Definition cleanup_temp_file : SM disk () := there ← exists_ archive; if (there : bool) then remove_ec archive else mret tt.
Definition extract_failed : bytes := #"Failed to extract update archive. The download may be corrupt or an unsupported format.".
(** From the download to the removal of the archive. *)
Definition install_archive (downloadUrl : bytes) : SM disk () :=
  _ ← DownloadWithProgress (download downloadUrl) archive;
  _ ← (match platform with
       | Windows => lockedFiles ← GetLockedFiles archive steam; win32_move_old_millennium_version lockedFiles
       | _ => mret tt
       end);
  extracted ← ExtractZipArchive unzip archive steam;
  if negb extracted then lift (Throw extract_failed) else
  remove_ec archive.
(** The [catch]: the archive is removed when its name was known. *)
Definition update_failed (known : bool) (what : bytes) : M () :=
  _ ← dispatch_progress_to_frontend (#"Update failed: " ++ what) true;
  _ ← on_vdisk (if known then cleanup_temp_file else mret tt);
  _ ← update_state false;
  lift (Throw what).
Definition update_succeeded : M () :=
  _ ← dispatch_progress_to_frontend #"Successfully updated Millennium!" true;
  update_state true.
Definition update_impl (downloadUrl : bytes) : M () :=
  r ← attempt (on_vdisk temp_directory_path);
  match r with
  | inr e => update_failed false e
  | inl _ =>
      r ← attempt (on_vdisk (install_archive downloadUrl));
      match r with inr e => update_failed true e | inl _ => update_succeeded end
  end.
(** The lambda [start_update] of [update] *)
Definition start_update (r : request) : M () := swallow (update_impl (r_url r)).
Definition update (r : request) (background : bool) : M () :=
  running ← gets m_update_in_progress;
  updated ← gets m_has_updated_millennium;
  if (running : bool) then mret tt else
  if (updated : bool) then mret tt else
  _ ← modify (λ w, set_progress (m_has_updated_millennium w) true (queue w) (S (accepted w)) w);
  if background then modify (λ w, set_progress (m_has_updated_millennium w) (m_update_in_progress w) (queue w ++ [r]) (accepted w) w)
  else start_update r.
(** The thread of the pool takes the next job. *)
Definition run_queued : M () :=
  q ← gets queue;
  match q with
  | [] => mret tt
  | r :: q => _ ← modify (λ w, set_progress (m_has_updated_millennium w) (m_update_in_progress w) q (accepted w) w); start_update r
  end.

(** ** At the start *)

Definition leftover (name : bytes) : bool :=
  (8 <? length name)%nat && bytes_eqb (drop (length name - 4) name) #".tmp" && bool_decide (is_Some (find_sub #"uuid" name)).
Definition remove_leftover (e : path * node) : SM disk () :=
  match e.2, last e.1 with
  | NFile _, Some name => if leftover name then remove_ec e.1 else mret tt
  | _, _ => mret tt
  end.
Definition cleanup : SM disk () :=
  match platform with
  | Windows =>
      let temp_path := steam ++ [updater_temp_dir] in
      there ← exists_ec temp_path;
      _ ← (if (there : bool) then _ ← remove_all_ec temp_path; mret tt else mret tt);
      swallow (es ← list_dir steam; for_each remove_leftover es)
  | _ => mret tt
  end.

Definition shim : bytes := #"user32.dll".
Definition queued_shim : bytes := #"user32.queue.dll".
Definition replace_shim : SM disk () :=
  queued ← exists_ (install ++ [queued_shim]);
  if negb queued then mret tt else
  old ← exists_ (install ++ [shim]);
  _ ← (if (old : bool) then
         let tempPath := install ++ [legacy_temp_dir] in
         _ ← create_directories_ec tempPath;
         moved ← rename_ec (install ++ [shim]) (tempPath ++ [temp_name shim uuid]);
         if negb moved then lift (Throw #"Failed to move old shim to temp location") else mret tt
       else mret tt);
  rename (install ++ [queued_shim]) (install ++ [shim]).
Definition win32_update_legacy_shims : M () :=
  match platform with Windows => catching (on_vdisk replace_shim) (λ _, message_box) | _ => mret tt end.

(** [AUTO_INSTALL], as an integer or as a double. *)
Definition is_auto_install (j : json) : bool :=
  match j with JInt z => z =? 2 | JFloat f => SFeqb f (S754_finite false 4503599627370496 (-51)) | _ => false end.
(** [millennium::check_for_updates] *)
Definition auto_update : M () :=
  swallow (
    _ ← check_for_updates [];
    update_info ← has_any_updates;
    let should_auto_install := is_auto_install (config [ #"general"; #"onMillenniumUpdate"] (JInt 2)) in
    has ← lift (j ← idx #"hasUpdate" update_info; get_bool j);
    if negb has then mret tt else
    _ ← lift (j ← value_json #"newVersion" (JObj []) update_info; value_string #"tag_name" #"unknown" j);
    if negb should_auto_install then mret tt else
    asset ← lift (idx #"platformRelease" update_info);
    if is_null asset then mret tt else
    download_url ← lift (j ← idx #"browser_download_url" asset; get_string j);
    download_size ← lift (j ← idx #"size" asset; get_u64 j);
    update (Request download_url download_size) false).
(** The part of the constructor of [millennium] *)
Definition millennium_init : M () :=
  _ ← win32_update_legacy_shims;
  _ ← auto_update;
  on_vdisk cleanup.

(** ** The calls of the interface *)

Definition Core_UpdateMillennium (args : json) : M json :=
  url ← lift (j ← idx #"downloadUrl" args; get_string j);
  size ← lift (j ← idx #"downloadSize" args; get_u64 j);
  background ← lift (j ← idx #"background" args; get_bool j);
  _ ← update (Request url size) background;
  mret JNull.
Definition Core_HasPendingMillenniumUpdateRestart (args : json) : M json := b ← is_pending_restart; mret (JBool b).
Definition Core_CheckMillenniumUpdate (args : json) : M json :=
  channel ← lift (value_string #"channel" [] args);
  _ ← check_for_updates channel;
  has_any_updates.
Definition calls : list (json → M json) := [Core_UpdateMillennium; Core_HasPendingMillenniumUpdateRestart; Core_CheckMillenniumUpdate].
End updater.

(** What happens after the start: a call of the interface, the interface
    connecting, or the next job of the pool.  The network, the settings, the
    archives and the names that are made up are others at every step. *)
Inductive vstep (parse : bytes → outcome json) (version : bytes) (platform : os) (steam temp : path) : vworld → vworld → Prop :=
  | V_call nix config http_get download unzip in_use uuid uuids fn args r w w' :
      fn ∈ calls parse version platform nix config http_get download unzip in_use uuid uuids steam temp → fn args w = (r, w') → defined r →
      vstep parse version platform steam temp w w'
  | V_connect w : vstep parse version platform steam temp w (set_ipc_main w).2
  | V_run download unzip in_use uuid uuids w w' :
      run_queued platform download unzip in_use uuid uuids steam temp w = (Ok tt, w') →
      vstep parse version platform steam temp w w'.

(** ** How an update ends *)

Lemma on_vdisk_run {A} (m : SM disk A) w : on_vdisk m w = ((m (v_disk w)).1, with_disk (m (v_disk w)).2 w).
Proof. unfold on_vdisk. by destruct (m (v_disk w)). Qed.
Definition success_status : bytes := #"Successfully updated Millennium!".
(** An update that ran from [w] to [w']: one message, and the flags for success
    or failure; with [None] they are as they were. *)
Definition ended (b : option bool) (w w' : vworld) : Prop :=
  queue w' = queue w ∧ accepted w' = accepted w ∧ m_has_updates w' = m_has_updates w ∧ m_latest_version w' = m_latest_version w ∧
  (m_has_updated_millennium w', m_update_in_progress w') = match b with Some s => (s, false) | None => (m_has_updated_millennium w, m_update_in_progress w) end ∧
  ∃ status, v_shown w' = v_shown w ++ (if m_ipc_main w then [(status, true)] else []) ∧ (b = Some true ↔ status = success_status).

Section ends.
  Context (platform : os) (download : bytes → option (outcome transfer)) (unzip : bytes → option (list entry * bool)) (in_use : path → bool).
  Context (uuid : bytes) (uuids : list bytes) (steam temp : path).
Lemma update_failed_ended known e w r w' : update_failed uuid temp known e w = (r, w') → defined r →
  (∃ e', r = Throw e') ∧ ∃ b, ended b w w' ∧ b ≠ Some true ∧ (b = None → known = true ∧ ∃ e', (cleanup_temp_file uuid temp (v_disk w)).1 = Throw e').
Proof.
  intros Hr Hd. unfold update_failed in Hr. rewrite bind_run in Hr. unfold dispatch_progress_to_frontend at 1, modify in Hr. cbv beta iota in Hr.
  set (w1 := if negb (m_ipc_main w) then w else _) in Hr. assert (v_disk w1 = v_disk w) as Ew by (subst w1; by destruct (m_ipc_main w)).
  rewrite bind_run, on_vdisk_run, Ew in Hr. set (m := if known then cleanup_temp_file uuid temp else mret tt) in Hr.
  assert (∀ (u run : bool) (d : disk), u = false → ended (if run then None else Some u) w (with_disk d (if run then w1 else set_progress u false (queue w1) (accepted w1) w1))) as He.
  { intros u run d ->. subst w1. unfold ended. destruct run, (m_ipc_main w) eqn:Ei; cbn; repeat (split; [done|]); rewrite ?Ei; exists (#"Update failed: " ++ e); rewrite ?app_nil_r; done. }
  destruct (m (v_disk w)) as [[[]|e'| |] d] eqn:Em; cbn [fst snd] in Hr.
  - injection Hr as <- <-. split; [by eexists|]. exists (Some false). split; [exact (He false false d eq_refl)|]. done.
  - injection Hr as <- <-. split; [by eexists|]. exists None. split; [exact (He false true d eq_refl)|]. split; [done|]. intros _. subst m. destruct known; [|done]. split; [done|]. by rewrite Em; eexists.
  - injection Hr as <- <-. by destruct Hd.
  - injection Hr as <- <-. by destruct Hd.
Qed.
Lemma update_succeeded_ended w : ∃ w', update_succeeded w = (Ok tt, w') ∧ ended (Some true) w w' ∧ v_disk w' = v_disk w.
Proof.
  unfold update_succeeded. rewrite bind_run. unfold dispatch_progress_to_frontend, update_state, modify. eexists. split; [done|]. unfold ended. destruct (m_ipc_main w) eqn:Ei; cbn; (split; [|done]).
  all: repeat (split; [done|]). all: exists success_status; rewrite ?app_nil_r; done.
Qed.
(** The result of a run of [start_update] that is defined: the flags follow the
    installation; they stay when the archive could not be looked for. *)
Definition settled (url : bytes) (b : option bool) (w w' : vworld) : Prop :=
  match b with
  | Some true => ∃ d, temp_directory_path temp (v_disk w) = (Ok tt, d) ∧ install_archive platform download unzip in_use uuid uuids steam temp url d = (Ok tt, v_disk w')
  | Some false => True
  | None => ∃ d e, temp_directory_path temp (v_disk w) = (Ok tt, d) ∧ (cleanup_temp_file uuid temp (install_archive platform download unzip in_use uuid uuids steam temp url d).2).1 = Throw e
  end.
Lemma failed_settled known e w d url o w' :
  (known = true → ∃ d1, temp_directory_path temp (v_disk w) = (Ok tt, d1) ∧ (install_archive platform download unzip in_use uuid uuids steam temp url d1).2 = d) →
  update_failed uuid temp known e (with_disk d w) = (o, w') → defined o →
  (∃ e', o = Throw e') ∧ ∃ b, ended b w w' ∧ settled url b w w'.
Proof.
  intros Hk Hr Hd. destruct (update_failed_ended known e _ _ _ Hr Hd) as (Ho & b & He & Hb & Hn). split; [done|]. exists b. split; [exact He|].
  destruct b as [[]|]; [done|done|]. destruct (Hn eq_refl) as (Hkn & e' & Hc). destruct (Hk Hkn) as (d1 & Hd1 & <-). by exists d1, e'.
Qed.
Lemma start_update_settles r w w' : start_update platform download unzip in_use uuid uuids steam temp r w = (Ok tt, w') →
  ∃ b, ended b w w' ∧ settled (r_url r) b w w'.
Proof.
  unfold start_update, swallow, update_impl. rewrite bind_run. unfold attempt, catching. rewrite !bind_run, on_vdisk_run.
  destruct (temp_directory_path temp (v_disk w)) as [[[]|e| |] d1] eqn:E1; cbn [fst snd]; try done.
  - rewrite !ret_run, !bind_run, on_vdisk_run. cbn [v_disk with_disk].
    destruct (install_archive platform download unzip in_use uuid uuids steam temp (r_url r) d1) as [[[]|e| |] d2] eqn:E2; cbn [fst snd]; try done.
    + rewrite !ret_run. destruct (update_succeeded_ended (with_disk d2 (with_disk d1 w))) as (w2 & E & He & Ed). rewrite E. intros [= <-]. exists (Some true). split; [exact He|]. exists d1. split; [done|]. by rewrite Ed.
    + rewrite !ret_run. destruct (update_failed uuid temp true e _) as [o w2] eqn:E. intros Hr. apply (failed_settled _ _ w d2 (r_url r)) in E as [[e' ->] Hb]; [|intros _; exists d1; by rewrite E2|by destruct o]. by injection Hr as <-.
  - rewrite !ret_run. destruct (update_failed uuid temp false e _) as [o w2] eqn:E. intros Hr. apply (failed_settled _ _ w d1 (r_url r)) in E as [[e' ->] Hb]; [|done|by destruct o]. by injection Hr as <-.
Qed.
End ends.

(** ** One update at a time *)

(** At most one update is under way, and none when the program waits for its
    restart. *)
Definition one_update (w : vworld) : Prop :=
  (length (queue w) <= 1)%nat ∧ (m_update_in_progress w = false → queue w = []) ∧ (m_has_updated_millennium w = true → m_update_in_progress w = false).
(** The disk and what belongs to updates are as they were. *)
Definition quiet (w w' : vworld) : Prop :=
  v_disk w' = v_disk w ∧ queue w' = queue w ∧ accepted w' = accepted w ∧ m_has_updated_millennium w' = m_has_updated_millennium w ∧ m_update_in_progress w' = m_update_in_progress w.
#[export] Instance quiet_preorder : PreOrder quiet.
Proof. split; [by intros w|]. intros w1 w2 w3. unfold quiet. intuition congruence. Qed.
Lemma quiet_one_update w w' : quiet w w' → one_update w → one_update w'.
Proof. intros (_ & Hq & _ & Hu & Hr). unfold one_update. by rewrite Hq, Hu, Hr. Qed.
Lemma quiet_set_release b j : steps quiet (set_release b j).
Proof. by apply steps_modify. Qed.
#[export] Hint Resolve quiet_set_release : steps.
(** The release on offer is newer than the program. *)
Definition newer (version : bytes) (release : json) (tag : bytes) : Prop :=
  jget #"tag_name" release = Some (JStr tag) ∧ Semver.cmp (parse_version version) (parse_version tag) = Ok (-1).
Definition offered (version : bytes) (w : vworld) : Prop := m_has_updates w = true → ∃ tag, newer version (m_latest_version w) tag.
(** What every run keeps; after a successful update also the disk. *)
Definition kept (version : bytes) (w w' : vworld) : Prop := one_update w → offered version w →
  one_update w' ∧ offered version w' ∧ (m_has_updated_millennium w = true → quiet w w').
#[export] Instance kept_preorder version : PreOrder (kept version).
Proof.
  split; [intros w H1 H2; split_and!; try done|]. intros w1 w2 w3 H12 H23 H1 O1. destruct (H12 H1 O1) as (H2 & O2 & Q2). destruct (H23 H2 O2) as (H3 & O3 & Q3). split_and!; try done.
  intros Hu. specialize (Q2 Hu). etrans; [exact Q2|]. apply Q3. destruct Q2 as (_ & _ & _ & -> & _). done.
Qed.

Section keeps.
  Context (parse : bytes → outcome json) (version : bytes) (platform : os) (nix : bool) (config : list bytes → json → json) (http_get : outcome bytes).
  Context (download : bytes → option (outcome transfer)) (unzip : bytes → option (list entry * bool)) (in_use : path → bool).
  Context (uuid : bytes) (uuids : list bytes) (steam temp : path).
Lemma kept_start r w w' : start_update platform download unzip in_use uuid uuids steam temp r w = (Ok tt, w') →
  queue w = [] → m_update_in_progress w = true → m_has_updated_millennium w = false → offered version w → one_update w' ∧ offered version w'.
Proof.
  intros Hr Hq Hi Hu Ho. destruct (start_update_settles _ _ _ _ _ _ _ _ _ _ _ Hr) as (b & (Eq & _ & Eh & El & Ef & _) & _).
  unfold one_update, offered. rewrite Eq, Hq, Eh, El. split; [|done]. cbn. destruct b as [s|]; injection Ef as E1 E2; rewrite E1, E2, ?Hu; split_and!; first [lia|done].
Qed.
Lemma kept_update r background : steps (kept version) (update platform download unzip in_use uuid uuids steam temp r background).
Proof.
  intros w. unfold update. run_simpl. destruct (m_update_in_progress w) eqn:Ei; [intros _; cbn; reflexivity|]. destruct (m_has_updated_millennium w) eqn:Eu; [intros _; cbn; reflexivity|].
  run_simpl. intros Hd (Hl & Hq & _) Ho. specialize (Hq Ei). destruct background.
  - cbn. rewrite Hq. split_and!; [|done|by rewrite Eu]. unfold one_update. cbn. rewrite Eu. split_and!; [lia|done|done].
  - revert Hd. destruct (start_update _ _ _ _ _ _ _ _ _ _) as [o w'] eqn:E. cbn [fst snd]. intros Hd.
    assert (o = Ok tt) as -> by (unfold start_update, swallow in E; destruct (update_impl _ _ _ _ _ _ _ _ _ _) as [[[]|e| |] ?]; injection E as <- <-; by destruct Hd).
    destruct (kept_start _ _ _ E) as [H1 H2]; [done|done|done|done|]. split_and!; [done|done|]. by rewrite Eu.
Qed.
Lemma kept_queued : steps (kept version) (run_queued platform download unzip in_use uuid uuids steam temp).
Proof.
  intros w. unfold run_queued. rewrite bind_run. cbn [gets]. destruct (queue w) as [|r q] eqn:Eq; [cbn; reflexivity|]. rewrite bind_run. unfold modify.
  destruct (start_update _ _ _ _ _ _ _ _ _ _) as [o w'] eqn:E. cbn [fst snd]. intros Hd (Hl & Hq & Hu) Ho. rewrite Eq in Hl, Hq. cbn in Hl. destruct q; [|cbn in Hl; lia].
  assert (m_update_in_progress w = true) as Hi by (by destruct (m_update_in_progress w); [|discriminate Hq]).
  assert (m_has_updated_millennium w = false) as Hn by (destruct (m_has_updated_millennium w); [|done]; rewrite Hu in Hi by done; done).
  assert (o = Ok tt) as -> by (unfold start_update, swallow in E; destruct (update_impl _ _ _ _ _ _ _ _ _ _) as [[[]|e| |] ?]; injection E as <- <-; by destruct Hd).
  destruct (kept_start _ _ _ E) as [H1 H2]; [done|done|done|done|]. split_and!; [done|done|]. by rewrite Hn.
Qed.
Lemma check_response_newer channel response has release : check_response parse version channel response = Ok (Some (has, release)) →
  has = true → ∃ tag, newer version release tag.
Proof.
  unfold check_response. destruct response; [done|]. destruct (parse _) as [j| | |]; try done. cbn [mbind outcome_bind]. destruct (_ || _); [done|].
  destruct (choose_release _ _) as [r| | |]; try done. cbn [mbind outcome_bind]. destruct (json_empty r); [done|]. destruct (value_string _ _ r); try done. cbn [mbind outcome_bind]. destruct (contains #"tag_name" r); [|done]. cbn [negb].
  unfold at_. destruct (jget #"tag_name" r) as [t|] eqn:Et; cbn [mbind outcome_bind]; [|done]. destruct t; cbn [get_string]; try done. destruct (Semver.cmp _ _) as [c| | |] eqn:Ec; try done. cbn [mbind outcome_bind].
  intros [= <- <-] Hc. exists s. split; [done|]. rewrite Ec. by apply Z.eqb_eq in Hc as ->.
Qed.
Lemma kept_release has release : (has = true → ∃ tag, newer version release tag) → steps (kept version) (set_release has release).
Proof. intros Hn. apply steps_modify. intros w H1 _. split_and!; [exact H1|exact Hn|done]. Qed.
Lemma kept_found channel response : steps (kept version)
  (found ← lift (check_response parse version channel response); match found with Some (has, release) => set_release has release | None => mret tt end).
Proof.
  intros w. rewrite bind_run. cbn [lift]. destruct (check_response _ _ _ _) as [[[has release]|]| | |] eqn:E; cbn [fst snd]; intros Hd; try reflexivity.
  apply kept_release; [|done]. by eapply check_response_newer.
Qed.
Lemma kept_check channel_override : steps (kept version) (check_for_updates parse version nix config http_get channel_override).
Proof.
  pose proof kept_found. pose proof (kept_release false JNull ltac:(done)). unfold check_for_updates. steps.
Qed.
End keeps.

(** ** What every run keeps *)

Lemma kept_has_any version platform : steps (kept version) (has_any_updates platform).
Proof. unfold has_any_updates. steps. Qed.
#[export] Hint Resolve kept_has_any kept_check kept_update kept_queued : steps.
Lemma kept_step parse version platform steam temp w w' : vstep parse version platform steam temp w w' → kept version w w'.
Proof.
  intros Hs. destruct Hs as [nix config http_get download unzip in_use uuid uuids fn args r w w' Hf Hr Hd|w|download unzip in_use uuid uuids w w' Hr].
  - assert (steps (kept version) (fn args)) as Hk; [|specialize (Hk w); rewrite Hr in Hk; by apply Hk]. clear Hr.
    apply list_elem_of_In in Hf. destruct Hf as [<-|[<-|[<-|[]]]]; [unfold Core_UpdateMillennium|unfold Core_HasPendingMillenniumUpdateRestart, is_pending_restart|unfold Core_CheckMillenniumUpdate]; steps.
  - by intros H1 H2.
  - pose proof (kept_queued version platform download unzip in_use uuid uuids steam temp w) as Hk. rewrite Hr in Hk. apply Hk, Ok_defined.
Qed.
Lemma kept_steps parse version platform steam temp w w' : rtc (vstep parse version platform steam temp) w w' → kept version w w'.
Proof. induction 1 as [|w1 w2 w3 H1 _ IH]; [reflexivity|]. etrans; [by eapply kept_step|done]. Qed.

(** The updater before the start. *)
Definition fresh (w : vworld) : Prop :=
  queue w = [] ∧ m_update_in_progress w = false ∧ m_has_updated_millennium w = false ∧ m_has_updates w = false ∧ m_latest_version w = JNull.
Definition sound_state (version : bytes) (w : vworld) : Prop := one_update w ∧ offered version w.
Definition sound_run (version : bytes) (w w' : vworld) : Prop := sound_state version w → sound_state version w'.
#[export] Instance sound_run_preorder version : PreOrder (sound_run version).
Proof. split; [intros w H; exact H|]. intros w1 w2 w3 H1 H2 H. apply H2, H1, H. Qed.
Lemma kept_sound {A} version (m : M A) : steps (kept version) m → steps (sound_run version) m.
Proof. intros Hm w Hd [H1 H2]. by destruct (Hm w Hd H1 H2) as (? & ? & _). Qed.
Lemma sound_on_vdisk {A} version (m : SM disk A) : steps (sound_run version) (on_vdisk m).
Proof. intros w _ [H1 H2]. rewrite on_vdisk_run. exact (conj H1 H2). Qed.
#[export] Hint Resolve sound_on_vdisk : steps.
Lemma fresh_sound version w : fresh w → sound_state version w.
Proof. intros (Hq & Hi & Hu & Hh & _). unfold sound_state, one_update, offered. rewrite Hq, Hi, Hu, Hh. cbn. split_and!; [lia|done|done|done]. Qed.
Lemma init_sound parse version platform nix config http_get download unzip in_use uuid uuids steam install temp :
  steps (sound_run version) (millennium_init parse version platform nix config http_get download unzip in_use uuid uuids steam install temp).
Proof.
  assert (steps (sound_run version) message_box) by (apply steps_modify; intros w [H1 H2]; exact (conj H1 H2)).
  assert (steps (sound_run version) (auto_update parse version platform nix config http_get download unzip in_use uuid uuids steam temp)) by (apply kept_sound; unfold auto_update; steps).
  unfold millennium_init, win32_update_legacy_shims. steps.
Qed.
(** The states after the start. *)
Definition running (parse : bytes → outcome json) (version : bytes) (platform : os) (steam temp : path) (w : vworld) : Prop :=
  ∃ nix config http_get download unzip in_use uuid uuids install w0 o w1,
    fresh w0 ∧ millennium_init parse version platform nix config http_get download unzip in_use uuid uuids steam install temp w0 = (o, w1) ∧ defined o ∧
    rtc (vstep parse version platform steam temp) w1 w.
Lemma running_sound parse version platform steam temp w : running parse version platform steam temp w → sound_state version w.
Proof.
  intros (nix & config & http_get & download & unzip & in_use & uuid & uuids & install & w0 & o & w1 & Hf & Hi & Hd & Hs).
  pose proof (init_sound parse version platform nix config http_get download unzip in_use uuid uuids steam install temp w0) as H. rewrite Hi in H.
  destruct (H Hd (fresh_sound version w0 Hf)) as [H1 H2]. by destruct (kept_steps _ _ _ _ _ _ _ Hs H1 H2) as (? & ? & _).
Qed.

(** C26: In every state after the start, whatever the network, the disk, the settings and the interface do: at most one update waits in the pool, while it waits the updater is busy and has not updated; and once an update has succeeded no call and no job installs anything again before the restart, nor changes the disk. *)
Theorem self_update_once parse version platform steam temp w w' :
  running parse version platform steam temp w → rtc (vstep parse version platform steam temp) w w' →
  (length (queue w) <= 1)%nat ∧ (queue w ≠ [] → m_update_in_progress w = true ∧ m_has_updated_millennium w = false) ∧
  (m_has_updated_millennium w = true → m_has_updated_millennium w' = true ∧ v_disk w' = v_disk w ∧ accepted w' = accepted w).
Proof.
  intros [(Hl & Hq & Hu) Ho]%running_sound Hs. split_and!; [done| |].
  - intros Hn. destruct (m_update_in_progress w); [|by destruct Hn; apply Hq]. split; [done|]. destruct (m_has_updated_millennium w); [|done]. by discriminate Hu.
  - intros E. destruct (kept_steps _ _ _ _ _ _ _ Hs (conj Hl (conj Hq Hu)) Ho) as (_ & _ & Hk). destruct (Hk E) as (H1 & _ & H2 & H3 & _). by rewrite H3.
Qed.

Lemma find_asset_named platform release asset tag : find_asset platform release = Ok (Some asset) → jget #"tag_name" release = Some (JStr tag) →
  ∃ suffix, platform_suffix platform = Some suffix ∧ value_string #"name" [] asset = Ok (#"millennium-" ++ tag ++ #"-" ++ suffix).
Proof.
  unfold find_asset. destruct (jget #"assets" release) as [assets|]; [|done]. destruct (platform_suffix platform) as [suffix|]; [|done]. intros H Ht. exists suffix. split; [done|].
  unfold value_string at 1 in H. destruct release as [| | | | | |o]; try discriminate. unfold jget in Ht. rewrite Ht in H. cbn [mbind outcome_bind get_string] in H.
  revert H. generalize (elements assets). intros l. induction l as [|a l IH]; cbn [named_asset]; [done|]. destruct (value_string #"name" [] a) as [n| | |] eqn:En; try done. cbn [mbind outcome_bind].
  destruct (bytes_eqb n _) eqn:Eb; [|done]. intros [= <-]. by apply bytes_eqb_true in Eb as ->.
Qed.
(** When the interface is told of an update, the release it is told of is newer than the program in the order of versions, and the archive offered, if any, is the one of that version for this platform. *)
Theorem self_update_offer_sound parse version platform steam temp w answer w' :
  running parse version platform steam temp w → has_any_updates platform w = (Ok answer, w') → jget #"hasUpdate" answer = Some (JBool true) →
  ∃ release tag asset, jget #"newVersion" answer = Some release ∧ newer version release tag ∧ jget #"platformRelease" answer = Some asset ∧
    (asset = JNull ∨ ∃ suffix, platform_suffix platform = Some suffix ∧ value_string #"name" [] asset = Ok (#"millennium-" ++ tag ++ #"-" ++ suffix)).
Proof.
  intros [_ Ho]%running_sound. unfold has_any_updates. run_simpl. destruct (if is_null _ then _ else _) as [asset| | |] eqn:E; try done. run_simpl. intros [= <- <-].
  change (Some (JBool (m_has_updates w)) = Some (JBool true) → ∃ release tag asset0, Some (m_latest_version w) = Some release ∧ newer version release tag ∧ Some (default JNull asset) = Some asset0 ∧
    (asset0 = JNull ∨ ∃ suffix, platform_suffix platform = Some suffix ∧ value_string #"name" [] asset0 = Ok (#"millennium-" ++ tag ++ #"-" ++ suffix))).
  intros [= Hh]. destruct (Ho Hh) as (tag & Hn). exists (m_latest_version w), tag, (default JNull asset). split_and!; [done|done|done|].
  destruct asset as [asset|]; [right|by left]. destruct (is_null _); [done|]. apply (find_asset_named _ _ _ _ E), Hn.
Qed.

(** ** An update that was accepted *)

(** Without failures of the file system to come there are none afterwards. *)
Definition calm (d d' : disk) : Prop := faults d = [] → faults d' = [].
#[export] Instance calm_preorder : PreOrder calm.
Proof. split; [intros d H; exact H|]. intros d1 d2 d3 H1 H2 H. apply H2, H1, H. Qed.
Lemma calm_fault : steps calm next_fault.
Proof. intros d _ H. unfold next_fault. by rewrite H. Qed.
Lemma calm_fs f : steps calm (set_fs f).
Proof. apply steps_modify. intros d H. exact H. Qed.
#[export] Hint Resolve calm_fault calm_fs : steps.

Section settles.
  Context (platform : os) (download : bytes → option (outcome transfer)) (unzip : bytes → option (list entry * bool)) (in_use : path → bool).
  Context (uuid : bytes) (uuids : list bytes) (steam temp : path).
(** No entry of an archive is without a name or leads out of the directory,
    and transfers end. *)
Definition sound_archives : Prop := ∀ c es b, unzip c = Some (es, b) → Forall (λ e, e_name e ≠ [] ∧ stays steam e) es.
Definition sound_transfers : Prop := ∀ url t, download url = Some t → defined t.
  Hypothesis Hz : sound_archives.
  Hypothesis Ht : sound_transfers.
  Abbreviation X := [steam; archive uuid temp].

Lemma is_dir_name_defined name : name ≠ [] → ∃ b, is_dir_name name = Ok b.
Proof. intros Hn. unfold is_dir_name. destruct (last name) eqn:E; [by eexists|]. by apply last_None in E. Qed.
Lemma calm_download url p : steps calm (DownloadWithProgress (download url) p).
Proof. unfold DownloadWithProgress, open_file, write_file, remove_file. steps. Qed.
Lemma total_download url p : total (DownloadWithProgress (download url) p).
Proof. unfold DownloadWithProgress, open_file, write_file, remove_file. destruct (download url) as [t|] eqn:E; [|total]. pose proof (Ht _ _ E). total. Qed.
Lemma outside_download url : steps (outside X) (DownloadWithProgress (download url) (archive uuid temp)).
Proof.
  assert (within X (archive uuid temp)) as Hw by (exists (archive uuid temp); split; [right; left|done]).
  pose proof (steps_open X _ Hw). pose proof (λ c, steps_write X _ c Hw). pose proof (steps_remove_file X _ Hw). unfold DownloadWithProgress. steps.
Qed.
Lemma locked_calm dest es : steps calm (locked_entries in_use dest es).
Proof. induction es as [|e es IH]; cbn [locked_entries]; unfold is_locked, exists_; steps. Qed.
Lemma locked_outside Y dest es : steps (outside Y) (locked_entries in_use dest es).
Proof. pose proof (steps_fault Y). pose proof (steps_exists Y). induction es as [|e es IH]; cbn [locked_entries]; unfold is_locked; steps. Qed.
Lemma locked_total dest es : Forall (λ e, e_name e ≠ [] ∧ stays steam e) es → total (locked_entries in_use dest es).
Proof.
  induction 1 as [|e es [He _] _ IH]; cbn [locked_entries]; [total|]. unfold is_locked, exists_. destruct (is_dir_name_defined _ He) as [b ->]. pose proof (Ok_defined b). total.
Qed.
Lemma locked_names dest es d l d' : locked_entries in_use dest es d = (Ok l, d') → ∀ n, n ∈ l → ∃ e, e ∈ es ∧ n = e_name e.
Proof.
  revert d l d'. induction es as [|e es IH]; intros d l d'; cbn [locked_entries]; [intros [= <- _] n []%elem_of_nil|].
  intros (b & d1 & _ & (rest & d2 & E & [= <- _])%bind_run_Ok)%bind_run_Ok n. specialize (IH _ _ _ E n). destruct b; [intros [-> | Hn]%elem_of_cons|intros Hn]; [by exists e; split; [left|]| |].
  all: destruct (IH Hn) as (e' & ? & ->); exists e'; split; [by right|done].
Qed.

Lemma move_calm p fl ids : steps calm (move_files steam p fl ids).
Proof. revert ids. induction fl as [|f fl IH]; intros ids; cbn [move_files]; unfold exists_ec, exists_, rename_ec; steps. Qed.
Lemma move_total p fl ids : total (move_files steam p fl ids).
Proof. revert ids. induction fl as [|f fl IH]; intros ids; cbn [move_files]; unfold exists_ec, exists_, rename_ec; total. Qed.
Lemma steam_within : within X steam.
Proof. exists steam. split; [left|done]. Qed.
Lemma move_outside p fl ids : within X p → (∀ n, n ∈ fl → steam `prefix_of` out_path steam n) → steps (outside X) (move_files steam p fl ids).
Proof.
  intros Hp. revert ids. induction fl as [|f fl IH]; intros ids Hf; cbn [move_files]; [steps|].
  assert (within X (out_path steam f)) as Hw by (destruct (Hf f) as [r ->]; [left|]; apply within_app, steam_within).
  pose proof (λ n, steps_rename_ec X _ _ Hw (within_app X p [n] Hp)). pose proof (steps_exists X). assert (∀ ids, steps (outside X) (move_files steam p fl ids)) by (intros; apply IH; intros n Hn; apply Hf; by right).
  unfold exists_ec. steps.
Qed.
Lemma replace_old_calm : steps calm (l ← GetLockedFiles unzip in_use (archive uuid temp) steam; win32_move_old_millennium_version uuids steam l).
Proof.
  pose proof locked_calm. pose proof move_calm. unfold GetLockedFiles, win32_move_old_millennium_version, read_file, create_directories_ec, create_directories, remove_all_ec. steps.
Qed.
Lemma replace_old_total : total (l ← GetLockedFiles unzip in_use (archive uuid temp) steam; win32_move_old_millennium_version uuids steam l).
Proof.
  pose proof move_total. apply total_bind; [|intros l; unfold win32_move_old_millennium_version, create_directories_ec, create_directories, remove_all_ec; total].
  unfold GetLockedFiles, read_file. apply total_bind; [total|]. intros [c|]; cbn [mbind option_bind]; [|total]. destruct (unzip c) as [[es b]|] eqn:E; [|total]. apply locked_total. by eapply Hz.
Qed.
Lemma replace_old_outside : steps (outside X) (l ← GetLockedFiles unzip in_use (archive uuid temp) steam; win32_move_old_millennium_version uuids steam l).
Proof.
  assert (∀ l, (∀ n, n ∈ l → steam `prefix_of` out_path steam n) → steps (outside X) (win32_move_old_millennium_version uuids steam l)) as Hm.
  { intros l Hl. pose proof (within_app X steam [updater_temp_dir] steam_within) as Hp. pose proof (steps_create_directories X _ Hp). pose proof (steps_remove_all_ec X _ Hp).
    pose proof (move_outside _ l uuids Hp Hl). unfold win32_move_old_millennium_version, create_directories_ec. destruct steam; steps. }
  assert (steps (outside X) (GetLockedFiles unzip in_use (archive uuid temp) steam)) as Hg by (pose proof (locked_outside X); pose proof (steps_read X); unfold GetLockedFiles; steps).
  intros d. rewrite bind_run. specialize (Hg d). destruct (GetLockedFiles _ _ _ _ d) as [[l|e| |] d1] eqn:E; cbn [fst snd] in *; intros Hd; [|apply Hg, Throw_defined|by destruct Hd|by destruct Hd].
  etrans; [apply Hg, Ok_defined|]. apply Hm; [|done]. intros n Hn. unfold GetLockedFiles in E. apply bind_run_Ok in E as (c & d2 & _ & E). destruct c as [c|]; cbn [mbind option_bind] in E; [|injection E as <- _; by apply elem_of_nil in Hn].
  destruct (unzip c) as [[es b]|] eqn:Eu; [|injection E as <- _; by apply elem_of_nil in Hn]. destruct (locked_names _ _ _ _ _ E n Hn) as (e & He & ->).
  pose proof (Hz _ _ _ Eu) as Hf. rewrite Forall_forall in Hf. by destruct (Hf e He) as [_ [? _]].
Qed.
Lemma extract_calm zip : steps calm (ExtractZipArchive unzip zip steam).
Proof.
  assert (∀ es created, steps calm (extract_entries steam es created)) by (induction es as [|e es IH]; intros created; cbn [extract_entries]; unfold extract_entry, make_once, create_directories, write_file; steps).
  unfold ExtractZipArchive, read_file, create_directories. steps.
Qed.
Lemma extract_total zip : total (ExtractZipArchive unzip zip steam).
Proof.
  unfold ExtractZipArchive, read_file. apply total_bind; [total|]. intros [c|]; cbn [mbind option_bind]; [|total]. destruct (unzip c) as [[es b]|] eqn:E; [|total]. pose proof (Hz _ _ _ E) as Hf.
  apply total_bind; [unfold create_directories; total|]. intros _. apply total_bind; [|total]. clear E. generalize (@nil bytes). induction Hf as [|e es [He _] _ IH]; intros created; cbn [extract_entries]; [total|].
  unfold extract_entry, make_once, create_directories, write_file. destruct (is_dir_name_defined _ He) as [d ->]. pose proof (Ok_defined d). total.
Qed.
Lemma install_calm url : steps calm (install_archive platform download unzip in_use uuid uuids steam temp url).
Proof. pose proof calm_download. pose proof replace_old_calm. pose proof extract_calm. unfold install_archive, remove_ec. steps. Qed.
Lemma install_total url : total (install_archive platform download unzip in_use uuid uuids steam temp url).
Proof. pose proof total_download. pose proof replace_old_total. pose proof extract_total. unfold install_archive, remove_ec. total. Qed.
Lemma archive_within : within X (archive uuid temp).
Proof. exists (archive uuid temp). split; [right; left|done]. Qed.
Lemma install_outside url : steps (outside X) (install_archive platform download unzip in_use uuid uuids steam temp url).
Proof.
  pose proof outside_download. pose proof replace_old_outside. pose proof (steps_remove_ec X _ archive_within).
  assert (∀ zip, steps (outside X) (ExtractZipArchive unzip zip steam)) by (intros zip; apply steps_extract; [apply steam_within|intros c es b Hc; eapply Forall_impl; [by eapply Hz|by intros e []]]).
  unfold install_archive. steps.
Qed.

(** The frame and the definedness of the whole update. *)
Definition disk_outside (w w' : vworld) : Prop := outside X (v_disk w) (v_disk w').
#[local] Instance disk_outside_preorder : PreOrder disk_outside.
Proof. split; [intros w; unfold disk_outside; reflexivity|]. intros w1 w2 w3 H1 H2. unfold disk_outside in *. by etrans. Qed.
Lemma outside_on_vdisk {A} (m : SM disk A) : steps (outside X) m → steps disk_outside (on_vdisk m).
Proof. intros Hm w Hd. rewrite on_vdisk_run in *. by apply Hm. Qed.
Lemma total_on_vdisk {A} (m : SM disk A) : total m → total (on_vdisk m).
Proof. intros Hm w. rewrite on_vdisk_run. apply Hm. Qed.
Lemma update_outside r background : steps disk_outside (update platform download unzip in_use uuid uuids steam temp r background).
Proof.
  assert (∀ f, (∀ w, v_disk (f w) = v_disk w) → steps disk_outside (modify f)) as Hmod by (intros f Hf; apply steps_modify; intros w q _; by rewrite Hf).
  pose proof (steps_exists X). pose proof (steps_fault X). pose proof (steps_remove_ec X _ archive_within).
  assert (steps disk_outside (on_vdisk (cleanup_temp_file uuid temp))) by (apply outside_on_vdisk; unfold cleanup_temp_file; steps).
  assert (steps disk_outside (on_vdisk (mret tt))) by (apply outside_on_vdisk; steps).
  assert (steps disk_outside (on_vdisk (temp_directory_path temp))) by (apply outside_on_vdisk; unfold temp_directory_path; steps).
  pose proof (λ url, outside_on_vdisk _ (install_outside url)).
  unfold update, start_update, update_impl, update_failed, update_succeeded, update_state, dispatch_progress_to_frontend. steps. all: apply Hmod; intros w; try destruct (negb _); done.
Qed.
Lemma start_total r : total (start_update platform download unzip in_use uuid uuids steam temp r).
Proof.
  assert (total (on_vdisk (cleanup_temp_file uuid temp))) by (apply total_on_vdisk; unfold cleanup_temp_file, exists_, remove_ec; total).
  assert (total (on_vdisk (mret tt : SM disk ()))) by (apply total_on_vdisk; total).
  assert (∀ e : bytes, defined (Throw e : outcome ())) by (intros; apply Throw_defined).
  assert (total (on_vdisk (temp_directory_path temp))) by (apply total_on_vdisk; unfold temp_directory_path; total).
  pose proof (λ url, total_on_vdisk _ (install_total url)).
  unfold start_update, update_impl, attempt, update_failed, update_succeeded, update_state, dispatch_progress_to_frontend. total.
Qed.

Lemma cleanup_calm d : faults d = [] → (cleanup_temp_file uuid temp d).1 = Ok tt.
Proof.
  destruct d as [t f]. cbn [faults]. intros ->. unfold cleanup_temp_file. rewrite bind_run.
  change (exists_ (archive uuid temp) (Disk t [])) with (Ok (bool_decide (is_Some (t !! archive uuid temp))), Disk t []). cbv beta iota. destruct (bool_decide _); [|done].
  unfold remove_ec. rewrite !bind_run. change (next_fault (Disk t [])) with (Ok (None : failure), Disk t []). cbv beta iota. rewrite bind_run. cbn [gets fs]. by destruct (is_dir t (archive uuid temp) && negb (bool_decide (children t (archive uuid temp) = []))).
Qed.
End settles.

(** On a channel other than the beta channel the first release that is not a
    preliminary one is chosen. *)
Lemma choose_stable channel l release : bytes_eqb channel #"beta" = false → choose_release channel l = Ok release → release ≠ JNull →
  ∃ l1 l2, l = l1 ++ release :: l2 ∧ value_bool #"prerelease" true release = Ok false ∧ Forall (λ r, is_object r = true → value_bool #"prerelease" true r = Ok true) l1.
Proof.
  intros Hc. induction l as [|r l IH]; cbn [choose_release]; [by intros [= <-]|]. rewrite Hc. destruct (is_object r) eqn:Er; cbn [negb].
  - destruct (value_bool #"prerelease" true r) as [[]| | |] eqn:Ep; cbn [mbind outcome_bind negb]; try done.
    + intros H Hn. destruct (IH H Hn) as (l1 & l2 & -> & Hp & Hf). exists (r :: l1), l2. split_and!; [done|done|]. by constructor.
    + intros [= <-] _. exists [], l. split_and!; [done|done|constructor].
  - intros H Hn. destruct (IH H Hn) as (l1 & l2 & -> & Hp & Hf). exists (r :: l1), l2. split_and!; [done|done|]. constructor; [by rewrite Er|done].
Qed.

(** ** Examples *)

Definition asset0 : json := jobj [(#"name", JStr #"millennium-v2.1.0-windows-x86_64.zip"); (#"browser_download_url", JStr #"u"); (#"size", JInt 9)].
Definition release0 : json := jobj [(#"tag_name", JStr #"v2.1.0"); (#"prerelease", JBool false); (#"assets", JArr [jobj [(#"name", JStr #"src")]; asset0])].
Definition beta0 : json := jobj [(#"tag_name", JStr #"v2.2.0-beta.1"); (#"prerelease", JBool true)].
Definition parse0 (s : bytes) : outcome json := Ok (JArr [beta0; release0]).
Definition config0 : list bytes → json → json := λ _ d, d.
Definition download0 (url : bytes) : option (outcome transfer) := Some (Ok (Transfer true 200 #"zip")).
Definition unzip0 (c : bytes) : option (list entry * bool) := Some ([Entry #"millennium.dll" (Some #"new"); Entry #"ext/" None], true).
Definition steam0 : path := [ #"steam"].
Definition temp0 : path := [ #"tmp"].
Definition disk0 : disk :=
  Disk (list_to_map [([], NDir); (steam0, NDir); (temp0, NDir); (steam0 ++ [ #"millennium.dll"], NFile #"old")]) [].
Definition world0 : vworld := VWorld disk0 [] true false false false JNull [] 0 0.
Definition use0 (p : path) : bool := bool_decide (p = steam0 ++ [ #"millennium.dll"]).
Definition init0 : M () := millennium_init parse0 #"2.0.3" Windows false config0 (Ok #"[]") download0 unzip0 use0 #"1" [ #"2"] steam0 [ #"install"] temp0.
Definition world1 : vworld := (init0 world0).2.
Definition args0 : json := jobj [(#"downloadUrl", JStr #"u"); (#"downloadSize", JInt 9); (#"background", JBool true)].

(** At the start the new release replaces the file that is in use; the old one
    is gone with the temporary directory. *)
Example init0_updates : (init0 world0).1 = Ok tt ∧ m_has_updated_millennium world1 = true ∧
  fs (v_disk world1) !! (steam0 ++ [ #"millennium.dll"]) = Some (NFile #"new") ∧ fs (v_disk world1) !! (temp0 ++ [ #"millennium-1.zip"]) = None ∧
  fs (v_disk world1) !! (steam0 ++ [updater_temp_dir]) = None.
Proof. vm_compute. split_and!; reflexivity. Qed.

Lemma run_pair {A} (m : M A) w r : (m w).1 = r → m w = (r, (m w).2).
Proof. intros <-. apply surjective_pairing. Qed.
Lemma running0 : running parse0 #"2.0.3" Windows steam0 temp0 world1.
Proof.
  exists false, config0, (Ok #"[]"), download0, unzip0, use0, #"1", [ #"2"], [ #"install"], world0, (Ok tt), world1. split; [done|]. split; [apply (run_pair init0), init0_updates|]. split; [apply Ok_defined|]. constructor.
Qed.
(** A request of the interface is refused before the restart. *)
Lemma self_update_once_witness : (length (queue world1) <= 1)%nat ∧ m_has_updated_millennium world1 = true ∧
  v_disk (Core_UpdateMillennium Windows download0 unzip0 use0 #"3" [] steam0 temp0 args0 world1).2 = v_disk world1.
Proof.
  assert (rtc (vstep parse0 #"2.0.3" Windows steam0 temp0) world1 (Core_UpdateMillennium Windows download0 unzip0 use0 #"3" [] steam0 temp0 args0 world1).2) as Hs.
  { apply rtc_once. eapply (V_call _ _ _ _ _ false config0 (Ok []) download0 unzip0 use0 #"3" [] (Core_UpdateMillennium Windows download0 unzip0 use0 #"3" [] steam0 temp0) args0 (Ok JNull)); [left|apply run_pair; vm_compute; reflexivity|apply Ok_defined]. }
  destruct (self_update_once _ _ _ _ _ _ _ running0 Hs) as (H1 & _ & H3). destruct init0_updates as (_ & H & _). split; [exact H1|]. split; [exact H|]. apply H3, H.
Defined.

Lemma self_update_offer_sound_witness : ∃ release tag asset,
  jget #"newVersion" (jobj [(#"updateInProgress", JBool true); (#"hasUpdate", JBool true); (#"newVersion", release0); (#"platformRelease", asset0)]) = Some release ∧ newer #"2.0.3" release tag ∧
  jget #"platformRelease" (jobj [(#"updateInProgress", JBool true); (#"hasUpdate", JBool true); (#"newVersion", release0); (#"platformRelease", asset0)]) = Some asset ∧
  (asset = JNull ∨ ∃ suffix, platform_suffix Windows = Some suffix ∧ value_string #"name" [] asset = Ok (#"millennium-" ++ tag ++ #"-" ++ suffix)).
Proof. apply (self_update_offer_sound parse0 #"2.0.3" Windows steam0 temp0 world1 _ (has_any_updates Windows world1).2 running0); [apply run_pair|]; vm_compute; reflexivity. Defined.

Lemma archives0 : sound_archives unzip0 steam0.
Proof.
  intros c es b [= <- <-]. apply Forall_forall. intros e He. apply list_elem_of_In in He. destruct He as [<-|[<-|[]]]; (split; [done|]); split; apply (bool_decide_unpack _); vm_compute; exact I.
Qed.
Lemma transfers0 : sound_transfers download0.
Proof. intros url t [= <-]. apply Ok_defined. Qed.

(** When looking for the archive fails after a failed download, the updater
    takes every later request for one that is under way. *)
Definition bad_disk : disk := Disk (fs disk0) [None; Some (λ _, false); Some (λ _, false)].
Definition stuck : vworld := (update Linux download0 unzip0 use0 #"1" [] steam0 temp0 (Request #"u" 9) false (VWorld bad_disk [] true false false false JNull [] 0 0)).2.
Theorem failed_update_can_block download unzip in_use uuid uuids r background :
  queue stuck = [] ∧ m_has_updated_millennium stuck = false ∧ update Linux download unzip in_use uuid uuids steam0 temp0 r background stuck = (Ok tt, stuck).
Proof. assert (m_update_in_progress stuck = true) as E by (by vm_compute). split; [by vm_compute|]. split; [by vm_compute|]. unfold update. run_simpl. by rewrite E. Qed.
